(* ===== verification/_CoqProject ===== *)
-Q . S2P
Prelude.v
Lines.v
Chars.v
Text.v
Scalar.v
Json.v
Message.v
StoreModel.v
ToolContract.v
ToolSearch.v
StoreState.v
StoreSession.v
StoreInv.v
StoreLaws.v
StoreFactory.v
StoreLog.v
StoreOpen.v
StoreIndex.v
Samples.v
KernelErrors.v
Batching.v
CommandLine.v
CommandGrammar.v
ShellOutput.v
Paths.v
Template.v
Prompts.v
Skills.v
PromptSession.v
Commands.v
Edit.v
EditLines.v
Read.v
OutputWindow.v
Plan.v
Replay.v
Transcript.v
Aligned.v
ToolSelection.v
Compaction.v
Settings.v
Attempt.v
Queue.v
QueueReplay.v
QueueSteps.v
QueueKeeps.v
Execution.v
RunWorld.v
CompactionRun.v
ToolBatch.v
TurnLoop.v
RunSettlement.v
DirectRun.v
RunFrames.v
RunMoves.v
DirectMoves.v
RunSamples.v
Projection.v
Server.v
StoreTheorems.v
TranscriptTheorems.v
PlanTheorems.v
QueueTheorems.v
CommandTheorems.v
CompactionTheorems.v
AttemptTheorems.v
ToolBatchTheorems.v
RunTheorems.v
ToolOutputTheorems.v
ReadTheorems.v
BatchingTheorems.v
ExecutionTheorems.v
EditTheorems.v
ToolSelectionTheorems.v
SettingsTheorems.v
ProjectionTheorems.v
ServerTheorems.v
PromptTheorems.v
SlashTheorems.v
