(* ===== verification/Prelude.v ===== *)
(** * A verification library for clawcode

    clawcode is a coding-agent backend: a Rust workspace whose kernel runs
    sessions, keeps their history in append-only logs, and serves them to
    clients over the Agent Client Protocol.  This library models the durable
    session log, the kernel state kept beside it, and the run that drives both
    -- its Turns, model attempts, tool batches, retries and compactions -- and
    proves what makes them correct.

    ** The program, and what is modelled where

    - Identifiers, timestamps, sequences ([crates/protocol/src/scalar.rs],
      [id.rs]): [Scalar].  A validated value is a record with its proof, so a
      decoder that would refuse a value cannot produce one.
    - JSON ([serde_json], a library): [Json].  Its text codec is the class
      [JsonText], which idealises it (see Conventions); the encodings the derives in this repository give are written
      out as [ToValue]/[FromValue] instances.
    - Messages, usage, compaction data, slash commands, tool results
      ([message.rs], [usage.rs], [turn.rs], [tool.rs], [slash_command.rs],
      [capability.rs], [plan.rs]): [Message].  The encoding of a message's
      content is the class [ContentCodec], whose law is that it decodes what it
      encodes; the encodings of identities, timings and compactions are proved.
    - The store's interface ([crates/store/src/model.rs]): [StoreModel].  The
      trait is the class [SessionStore]; what its clients rely on is the class
      [SessionStoreLaws].
    - The log's state and mutations ([state.rs]): [StoreState]; the session over
      one open file ([session.rs]): [StoreSession]; its invariant and the parent
      walk: [StoreInv]; its proof of the interface's laws: [StoreLaws].
    - The files of all sessions ([factory.rs]): [StoreFactory]; what the bytes
      of a log mean: [StoreLog]; opening and
      scanning backwards: [StoreOpen]; creating, forking and indexing:
      [StoreIndex].
    - The kernel's errors ([crates/kernel/src/runtime.rs]): [KernelErrors].
    - The check of shell commands that plan mode relies on
      ([crates/tools/src/bash/command_line.rs] and its callers): [Chars] (the
      [char] methods it uses), [CommandLine]; [CommandGrammar] is the grammar
      its scanner is compared with.
    - Tools' metadata, errors and registry ([crates/tools/src/contract.rs]):
      [ToolContract]; which of them a session offers its model
      ([runtime/tools/state.rs], [selection.rs]): [ToolSelection]; their search
      ([search.rs]): [ToolSearch].
    - The model, thinking level and mode of a session ([crates/kernel/src/model.rs],
      [session/settings.rs], [model_state.rs], [assembly.rs]), moves through its
      tree ([tree.rs]) and what a child takes over ([ownership.rs]): [Settings].
    - The [str] methods the tools use and stable sorts are [Text].
    - The file tools ([crates/tools/src/builtin]): [Paths] ([path.rs]), [Edit]
      ([edit.rs], [write.rs]), with its lemmas in [EditLines], and [Read]
      ([read.rs]).
    - Prompts and skills ([crates/prompt], [crates/skill]): [Paths] has the
      disk as discovery reads it; [Template] the documents, arguments,
      placeholders and the catalog of templates, [Prompts] system prompts
      and instructions, [Skills] the skills, [PromptSession] the snapshot, the
      system prompt and the expansion of input ([runtime/run/input.rs]).
    - Slash commands ([runtime/command.rs], [crates/extension/src/dynamic.rs]):
      [Commands] is what they resolve to; [DirectRun] ([runtime/command],
      [run.rs]) is a whole request, from the input -- a command, a shell command
      of the user's, a prompt -- to its settlement.
    - Tool output ([crates/tools/src/truncation.rs], [builtin/output.rs]):
      [ShellOutput], which ends with the bounded window over a command's output;
      [OutputWindow] has its lemmas.
    - Messages to a client ([crates/acp/src/coalescing.rs], [batching.rs]):
      [Batching].
    - A session's projection for its clients ([projection.rs], [recovery.rs],
      [delivery.rs], and the watcher of [server.rs]): [Projection].  Events become
      groups; the journal keeps the current Operation's, the broadcast list has
      all, and a watcher is a position in it with a cursor.  [Server] has the
      requests over it ([server.rs], [config.rs]).
    - Plan mode ([runtime/plan]): [Plan].
    - Rebuilding context and replay ([runtime/session/replay.rs]): [Replay].
    - The transcript ([runtime/session/transcript.rs]): [Transcript]; [Aligned]
      carries its invariant.
    - The pending queue ([runtime/run/queue.rs], [queue/operations.rs],
      [insertion.rs], and the queue's part of [lifecycle.rs]): [Queue]; recovery
      is [QueueReplay], the step relation and its invariant [QueueSteps], what
      its steps keep, and the transcript operations as steps,
      [QueueKeeps].
    - The operation gate, cancellation, shutdown, the active Run and the event
      sequence ([lifecycle.rs]), and the tickets of [admission.rs]: [Execution].
    - Compaction ([runtime/compaction]): its policy, token estimates and cut,
      with their lemmas, are [Compaction]; the run of one, with its
      summary requests, is [CompactionRun].
    - Model attempts ([runtime/run/retry.rs], [attempt.rs]): [Attempt].
    - The run ([runtime/run/turn.rs], [runtime/run.rs], [settlement.rs],
      [runtime/tools/batch.rs]):
      [RunWorld] is the state a run sees and the calls it makes; [ToolBatch],
      [TurnLoop] and [RunSettlement] are its tool calls, its Turns and its end.
      [RunFrames] says what every part of a run preserves and proves it by the
      syntax of a definition; [RunMoves] composes it and proves that the loops
      end; [DirectMoves] does so for a whole request.

    ** How they interact

    The factory opens or creates a file and hands the kernel a [SessionStore].
    A transcript owns that store and one lane of it, and keeps the model's
    context beside it; every append goes to the store first and then to the
    context.  The pending queue writes its own records through the transcript,
    and a message that leaves the queue becomes an entry of the lane.  The
    transcript and the queue are proved against the class [SessionStoreLaws],
    which [StoreLaws] discharges for the JSONL session.

    A run owns its loop's state and shares the session with other tasks: at
    every await [RunWorld.await] lets [other_tasks] change the session, and
    [env_ok] says that what they do is queue steps that leave the run's own
    claim alone.  The model, hooks, tools, clocks and identifiers are the classes
    [RunEnv] and [ToolEnv], and so is whether the observer wants an answer's
    updates; each answer depends on how many were asked before,
    so an environment may answer differently every time, and any call may fail.

    ** Conventions

    Stateful fallible code is a function from the state to a result and the
    state left behind ([M]), also when the result is an error, because the Rust
    code mutates in place and then returns.  A lock that Rust holds for a whole
    operation makes that operation one step; [request_close] and
    [install_cancellation], which lock twice, are two steps in [Execution] with
    other tasks between them.  A lock poisoned by a panic is not
    modelled.  [u64] values are [Z] with checked and saturating arithmetic
    written out; strings are UTF-8 byte strings.  [JsonText] says that every JSON
    value's text parses back to it; [serde_json] stops at 128 levels and, without
    its [float_roundtrip] feature, may read a float back as its neighbour, so what
    is proved of stored text is meant for values within these bounds.  Clocks, identifier generators,
    file writes and system calls are oracles or arguments, and every theorem
    quantifies over them: a write may reach the disk in part, a sync may fail.

    ** What the theorems show

    - [StoreTheorems]: live state and file agree after any operations (C1); an
      interrupted operation is recovered from or was not acknowledged, but a log
      cut inside a character does not open (C2);
      appends extend one lane; the projection stays well formed (C5); the
      parent walk ends and is the ancestor chain; renaming by a backward
      scan is renaming by replay ([rename_without_replay]); forks copy a branch ([fork_copies]); lookup and
      deletion by identity are exact; sequences stay in range (C12);
      header, mutation and fact lines read back (C13); and one case where the file is
      lost, a mutation retried after a failed flush ([failed_flush_then_retry]).
    - [TranscriptTheorems]: live context is the rebuild (C3), also across
      navigation and its rollbacks (C8); a latched transcript is frozen (C9).
    - [QueueTheorems]: recovery gives the live queue (C4) and never inserts
      twice ([restored_queue]); claims and enqueues (C10) do what their
      callers need, and so do withdrawals and promotions; a waiter hears one
      answer (C11).
    - [PlanTheorems]: the context states the branch's mode (C6); notes never
      split a tool batch (C7); a plan is decided once;
      replay is in log order; mode switches read back.
    - [CommandTheorems]: in plan mode a shell command runs exactly when it is in
      the check's own grammar of readers (C14), and four
      commands in it that write.
    - [CompactionTheorems]: a compaction's ranges are the history in order, and
      strand no result where results directly follow their calls
      (C15); one case where a result is dropped
      ([empty_result_dropped]).
    - [AttemptTheorems]: the retry budget is kept and used; a
      settled message is the merged stream with the outcome its end calls for
      (C16).
    - [RunTheorems]: a request is a sequence of queue steps, so C4 holds after it
      (C17); what it announces is stored
      (C18); it ends (C19), and so does a summary;
      and two cases where a compaction loses a summary or fails a run.
    - [ToolBatchTheorems]: a batch answers each call once, in order
      (C20).
    - [ExecutionTheorems]: a stop reaches every client prompt that waited before
      it, and every operation that was admitted (C21); a close
      answers everyone who waits (C22), unless a close gave up
      after it, and may miss a token that is installed meanwhile
      ([close_misses_installation]); tickets are admitted in order
      ([admission_in_order]).
    - [ToolOutputTheorems]: what a truncation keeps; the
      bounded window is the tail of the whole output, but for a last line as
      long as the window (C23), and one output it does not show.
    - [BatchingTheorems]: batching is invisible to a client that appends
      adjacent chunks (C24).
    - [ProjectionTheorems]: events take their sequences before the sink's lock, so
      groups may come in any order.  A watcher sends each group once and passes
      none, but those that came late, after one with a later sequence
      (C31); so does a client that comes back
      (C30); [accounted] says which groups a
      client has or may miss.  The journal has all of its Operation but replaced
      snapshots (C32).  One case where a late group is lost
      ([late_group_is_dropped]).
    - [ServerTheorems]: plans are kept ([plans_are_kept]); a resume has no gap
      (C33), with the case of a move through the tree, which it
      does not show ([moved_branch_is_not_replayed]); answers come after their
      updates, but those that came late (C34); what is offered can be chosen
      (C35).
    - [ReadTheorems]: pages make up the file, up to a line no page can hold
      (C26); images fit
      (C27).

    - [EditTheorems]: an edit replaces what it names and nothing else
      (C25), a fuzzy one only the lines it touches, and keeps the file's encoding
      ([edit_keeps_encoding]), with two cases where it does not.
    - [ToolSelectionTheorems]: the persisted tool selection is the live one
      (C36) and does what was chosen
      ([selection_is_honoured]); loads keep within their budget; a
      search finds what can be loaded.
    - [SettingsTheorems]: settings survive a restart, but for a change whose write or
      sync failed (C28), follow the lane through the tree (C29) and pass to a child
      ([child_takes_over]), with two cases where the live ones are not the stored
      ones; catalogs resolve their models; images are kept from models without
      them.
    - [PromptTheorems]: an untrusted project is not read
      (C37); a template is scanned once, whatever its
      arguments (C38); sources win in order
      ([first_template_wins], [skills_first_source_last_rule]); a typed command
      expands to what it names ([template_command_expands]); values shown to the
      model as XML attributes cannot end them.
    - [SlashTheorems]: the commands a client is shown are the ones it can type
      (C39); one that starts ends
      (C40), with a case where it does not.

    Each property with hypotheses has a [_witness] that applies it to a concrete
    session; [Samples] and [RunSamples] hold the concrete values.

    ** Fuel

    [branch_loop] and [fork_loop] take one step for each distinct entry, so
    [branch_fuel], two more than the number of entries, is enough on every
    state for the first and on every well-formed state for the second
    ([branch_loop_total], [fork_loop_branch]).  [last_sequence_loop] widens its
    window four times each round, so one round for each byte is enough
    ([last_sequence_loop_spec]).  [scan_loop]
    reads at least one character a round, so one more than the text's length is
    enough ([scan_loop_total]); [complete_calls] completes one call a round, so
    the batch's length is; [forward] ends with one more than the frames
    ([forward_total]); [release_loop] removes a ticket a round, so one more than
    the released tickets is enough ([release_ok]); [summary_loop] is bounded by the retry budget
    ([summary_loop_total]) and [turn_loop] by the limit on Turns
    ([turn_loop_total]).  A run without a limit may go on for ever, and its
    theorems then speak of the runs that end.

    ** Not modelled

    The admission of a prompt beside its tickets, session open, close and fork in the kernel
    (of its assembly, the settings are), the
    ACP server beside its batching, its projection and the requests over it, MCP, providers,
    configuration, extensions and the other tools' own work.  In the modelled files:
    tree snapshots and read-only accessors, log messages, queue snapshots,
    wake-ups, and progress updates of a running tool. *)

From Stdlib Require Export ZArith Lia Ascii.
From stdpp Require Export base gmap strings countable fin_maps option list.
From Stdlib Require DecimalString DecimalN DecimalPos.

(** ** Rust's [Result] and the error/state monad used by stateful code *)

Inductive result (T E : Type) : Type :=
| Ok (t : T)
| Err (e : E).
Arguments Ok {T E} t.
Arguments Err {T E} e.

(** Lemmas that steps of kernel computations resolve automatically. *)
Create HintDb kernel discriminated.

Declare Scope rust_scope.
Delimit Scope rust_scope with rust.

Definition result_bind {A B E} (r : result A E) (k : A -> result B E) : result B E :=
  match r with Ok a => k a | Err e => Err e end.

Definition map_err {A E F} (f : E -> F) (r : result A E) : result A F :=
  match r with Ok a => Ok a | Err e => Err (f e) end.

Definition result_map {A B E} (f : A -> B) (r : result A E) : result B E :=
  match r with Ok a => Ok (f a) | Err e => Err e end.

Definition ok_or {A E} (o : option A) (e : E) : result A E :=
  match o with Some a => Ok a | None => Err e end.

Definition ok {A E} (r : result A E) : option A :=
  match r with Ok a => Some a | Err _ => None end.

Definition is_ok {A E} (r : result A E) : bool :=
  match r with Ok _ => true | Err _ => false end.

Notation "'let?' x := r 'in' k" := (result_bind r (fun x => k))
  (at level 10, x pattern, r at level 100, k at level 200) : rust_scope.

(** Stateful fallible code: the state survives an error, because the Rust
    code mutates in place and then returns [Err]. *)
Definition M (S E A : Type) : Type := S -> result A E * S.

Definition m_ret {S E A} (a : A) : M S E A := fun s => (Ok a, s).
Definition m_fail {S E A} (e : E) : M S E A := fun s => (Err e, s).
Definition m_bind {S E A B} (c : M S E A) (k : A -> M S E B) : M S E B :=
  fun s => match c s with
           | (Ok a, s') => k a s'
           | (Err e, s') => (Err e, s')
           end.
Definition m_get {S E} : M S E S := fun s => (Ok s, s).
Definition m_lift {S E A} (r : result A E) : M S E A := fun s => (r, s).

Notation "'let!' x := c 'in' k" := (m_bind c (fun x => k))
  (at level 10, x pattern, c at level 100, k at level 200) : rust_scope.

(** ** Machine integers: [u64] values are [Z] with Rust's checked and
    saturating arithmetic written out *)

Definition u64_max : Z := 2 ^ 64 - 1.

Definition in_u64 (z : Z) : bool := (0 <=? z)%Z && (z <=? u64_max)%Z.

Definition u64_checked_add (a b : Z) : option Z :=
  if (a + b <=? u64_max)%Z then Some (a + b)%Z else None.

Definition u64_saturating_add (a b : Z) : Z := Z.min (a + b) u64_max.
Definition saturating_mul (a b : Z) : Z := Z.min (a * b) u64_max.
Definition saturating_sub (a b : Z) : Z := Z.max (a - b) 0.
(** [1_u64.checked_shl(n)] *)
Definition one_checked_shl (n : Z) : option Z := if (n <? 64)%Z then Some (2 ^ n)%Z else None.
(** [u32::checked_add] *)
Definition u32_max : Z := 2 ^ 32 - 1.
Definition u32_checked_add (a b : Z) : option Z :=
  if (a + b <=? u32_max)%Z then Some (a + b)%Z else None.
Definition div_ceil (a b : Z) : Z := ((a + b - 1) / b)%Z.

Lemma in_u64_spec z : in_u64 z = true <-> (0 <= z <= u64_max)%Z.
Proof. unfold in_u64. rewrite andb_true_iff, !Z.leb_le. done. Qed.

Lemma u64_saturating_add_small a b :
  (a + b <= u64_max)%Z -> u64_saturating_add a b = (a + b)%Z.
Proof. unfold u64_saturating_add. lia. Qed.

(** ** Rust [str] operations on UTF-8 byte strings *)

Definition byte_of (a : ascii) : Z := Z.of_nat (nat_of_ascii a).

Definition newline : ascii := "010"%char.
Definition carriage_return : ascii := "013"%char.
Definition nl : string := String newline EmptyString.

(** [char::is_whitespace] is the Unicode [White_Space] property; these are the
    UTF-8 encodings of its members. *)
Definition ws1 (a : ascii) : bool :=
  let z := byte_of a in ((9 <=? z) && (z <=? 13) || (z =? 32))%Z.
Definition ws2 (a b : ascii) : bool :=
  let x := byte_of a in let y := byte_of b in
  ((x =? 194) && ((y =? 133) || (y =? 160)))%Z.
Definition ws3 (a b c : ascii) : bool :=
  let x := byte_of a in let y := byte_of b in let z := byte_of c in
  ((x =? 225) && (y =? 154) && (z =? 128)
   || (x =? 226) && (y =? 128)
      && ((128 <=? z) && (z <=? 138) || (z =? 168) || (z =? 169) || (z =? 175))
   || (x =? 226) && (y =? 129) && (z =? 159)
   || (x =? 227) && (y =? 128) && (z =? 128))%Z.

(** [value.trim().is_empty()] *)
Fixpoint trim_is_empty (s : string) : bool :=
  match s with
  | EmptyString => true
  | String a r =>
      if ws1 a then trim_is_empty r
      else match r with
           | EmptyString => false
           | String b r2 =>
               if ws2 a b then trim_is_empty r2
               else match r2 with
                    | EmptyString => false
                    | String c r3 => if ws3 a b c then trim_is_empty r3 else false
                    end
           end
  end.

(** [str::from_utf8]: well-formed UTF-8 (no overlong forms, no surrogates). *)
Definition in_range (z lo hi : Z) : bool := ((lo <=? z) && (z <=? hi))%Z.
Definition cont (a : ascii) : bool := in_range (byte_of a) 128 191.

Fixpoint utf8_valid (s : string) : bool :=
  match s with
  | EmptyString => true
  | String a r =>
      let x := byte_of a in
      if (x <? 128)%Z then utf8_valid r
      else match r with
      | EmptyString => false
      | String b r2 =>
          let y := byte_of b in
          if in_range x 194 223 then cont b && utf8_valid r2
          else match r2 with
          | EmptyString => false
          | String c r3 =>
              if in_range x 224 239 then
                (if (x =? 224)%Z then in_range y 160 191
                 else if (x =? 237)%Z then in_range y 128 159
                 else cont b) && cont c && utf8_valid r3
              else match r3 with
              | EmptyString => false
              | String d r4 =>
                  if in_range x 240 244 then
                    (if (x =? 240)%Z then in_range y 144 191
                     else if (x =? 244)%Z then in_range y 128 143
                     else cont b) && cont c && cont d && utf8_valid r4
                  else false
              end
          end
      end
  end.

(** [str::split(c)]: always at least one piece. *)
Fixpoint split_char (c : ascii) (s : string) : list string :=
  match s with
  | EmptyString => [EmptyString]
  | String a r =>
      if Ascii.eqb a c then EmptyString :: split_char c r
      else match split_char c r with
           | [] => [String a EmptyString]
           | h :: t => String a h :: t
           end
  end.

Fixpoint has_char (c : ascii) (s : string) : bool :=
  match s with
  | EmptyString => false
  | String a r => Ascii.eqb a c || has_char c r
  end.

(** [str::ends_with(char)] *)
Fixpoint ends_with_char (c : ascii) (s : string) : bool :=
  match s with
  | EmptyString => false
  | String a EmptyString => Ascii.eqb a c
  | String _ r => ends_with_char c r
  end.

(** [slice::join] *)
Fixpoint join (sep : string) (l : list string) : string :=
  match l with
  | [] => EmptyString
  | [x] => x
  | x :: r => (x +:+ sep +:+ join sep r)%string
  end.

Fixpoint str_take (n : nat) (s : string) : string :=
  match n, s with
  | S n, String a r => String a (str_take n r)
  | _, _ => EmptyString
  end.

Fixpoint str_drop (n : nat) (s : string) : string :=
  match n, s with
  | S n, String _ r => str_drop n r
  | _, _ => s
  end.

(** Decimal rendering ([u64]'s [Display]) and parsing. *)
Definition u64_to_string (z : Z) : string :=
  DecimalString.NilZero.string_of_uint (N.to_uint (Z.to_N z)).

(** A non-empty, all-ASCII-digit string parsed by [str::parse::<u64>]. *)
Definition parse_decimal_u64 (s : string) : option Z :=
  match DecimalString.NilZero.uint_of_string s with
  | Some d => let z := Z.of_N (N.of_uint d) in
              if (z <=? u64_max)%Z then Some z else None
  | None => None
  end.

Lemma parse_decimal_u64_to_string z :
  in_u64 z = true -> parse_decimal_u64 (u64_to_string z) = Some z.
Proof.
  intros Hz. apply in_u64_spec in Hz.
  unfold parse_decimal_u64, u64_to_string.
  assert (DecimalString.NilZero.uint_of_string
            (DecimalString.NilZero.string_of_uint (N.to_uint (Z.to_N z)))
          = Some (N.to_uint (Z.to_N z))) as ->.
  { apply DecimalString.NilZero.usu.
    destruct (Z.to_N z); simpl; [done|apply DecimalPos.Unsigned.to_uint_nonnil]. }
  rewrite DecimalN.Unsigned.of_to, Z2N.id by lia.
  destruct (Z.leb_spec z u64_max); [done|lia].
Qed.
