(* ===== verification/Lines.v ===== *)
(** Texts as sequences of lines: how splitting, joining and cutting a text made
    of complete lines behave. *)

From S2P Require Import Prelude.
Open Scope string_scope.

Lemma string_app_cons x (a b : string) : String x a +:+ b = String x (a +:+ b).
Proof. done. Qed.

Lemma string_app_nil_l (b : string) : "" +:+ b = b.
Proof. done. Qed.

Lemma string_app_nil_r (s : string) : s +:+ "" = s.
Proof. induction s as [|a s IH]; [done|]. by rewrite string_app_cons, IH. Qed.

Lemma string_app_assoc (a b c : string) : a +:+ (b +:+ c) = (a +:+ b) +:+ c.
Proof. induction a as [|x a IH]; [done|]. by rewrite !string_app_cons, IH. Qed.

Lemma string_length_app (a b : string) :
  String.length (a +:+ b) = String.length a + String.length b.
Proof. induction a as [|x a IH]; [done|]. rewrite string_app_cons. simpl. by rewrite IH. Qed.

Lemma str_take_app_le n a b :
  n <= String.length a -> str_take n (a +:+ b) = str_take n a.
Proof.
  revert n. induction a as [|x a IH]; intros [|n] Hn; simpl in Hn; try done; try lia.
  rewrite string_app_cons. simpl. by rewrite IH by lia.
Qed.

Lemma str_take_all n a : String.length a <= n -> str_take n a = a.
Proof.
  revert n. induction a as [|x a IH]; intros [|n] Hn; simpl in *; try done; try lia.
  by rewrite IH by lia.
Qed.

Lemma str_take_take n m a : str_take n (str_take m a) = str_take (min n m) a.
Proof.
  revert n m. induction a as [|x a IH]; intros [|n] [|m]; simpl; try done.
  by rewrite IH.
Qed.

Lemma str_take_length n a : String.length (str_take n a) = min n (String.length a).
Proof.
  revert n. induction a as [|x a IH]; intros [|n]; simpl; try done. by rewrite IH.
Qed.

Lemma str_drop_app n a b :
  n <= String.length a -> str_drop n (a +:+ b) = str_drop n a +:+ b.
Proof.
  revert n. induction a as [|x a IH]; intros [|n] Hn; simpl in Hn; try done; try lia.
  rewrite string_app_cons. simpl. apply IH. lia.
Qed.

Lemma str_drop_all n a : String.length a <= n -> str_drop n a = "".
Proof.
  revert n. induction a as [|x a IH]; intros [|n] Hn; simpl in *; try done; try lia.
  apply IH. lia.
Qed.

Lemma str_take_drop n a : str_take n a +:+ str_drop n a = a.
Proof.
  revert n. induction a as [|x a IH]; intros [|n]; simpl; try done.
  by rewrite string_app_cons, IH.
Qed.

(** ** One character *)

Lemma has_char_app c a b : has_char c (a +:+ b) = has_char c a || has_char c b.
Proof.
  induction a as [|x a IH]; [done|]. rewrite string_app_cons. simpl.
  by rewrite IH, orb_assoc.
Qed.

Lemma has_char_take_false c n s : has_char c s = false -> has_char c (str_take n s) = false.
Proof.
  revert n. induction s as [|a s IH]; intros [|n]; simpl; [done..|].
  intros [-> Hs]%orb_false_iff. by apply IH.
Qed.

Lemma ends_with_char_snoc c a : ends_with_char c (a +:+ String c "") = true.
Proof.
  induction a as [|x a IH]; [by rewrite string_app_nil_l; simpl; rewrite Ascii.eqb_refl|].
  rewrite string_app_cons. simpl. destruct (a +:+ String c "") eqn:H; [by destruct a|done].
Qed.

Lemma ends_with_char_none c a : has_char c a = false -> ends_with_char c a = false.
Proof.
  induction a as [|x a IH]; [done|]. cbn [has_char]. intros [Hx Ha]%orb_false_iff.
  simpl. destruct a; [done|by apply IH].
Qed.

Lemma ends_with_char_app c a b :
  b <> "" -> ends_with_char c (a +:+ b) = ends_with_char c b.
Proof.
  intros Hb. induction a as [|x a IH]; [done|]. rewrite string_app_cons. simpl.
  destruct (a +:+ b) eqn:H; [by destruct a|done].
Qed.

Lemma split_char_none c a : has_char c a = false -> split_char c a = [a].
Proof.
  induction a as [|x a IH]; [done|]. cbn [has_char]. intros [Hx Ha]%orb_false_iff.
  simpl. by rewrite Hx, (IH Ha).
Qed.

Lemma split_char_app c a b :
  has_char c a = false -> split_char c (a +:+ String c b) = a :: split_char c b.
Proof.
  induction a as [|x a IH]; [by rewrite string_app_nil_l; simpl; rewrite Ascii.eqb_refl|].
  cbn [has_char]. intros [Hx Ha]%orb_false_iff. rewrite string_app_cons. simpl.
  by rewrite Hx, (IH Ha).
Qed.

Lemma split_char_nonempty c a : split_char c a <> [].
Proof.
  destruct a as [|x a]; simpl; [done|]. destruct (Ascii.eqb x c); [done|].
  by destruct (split_char c a).
Qed.

(** ** Complete lines *)

Definition unlines (ls : list string) : string :=
  foldr (fun l s => l +:+ nl +:+ s) "" ls.

Definition one_line (l : string) : Prop := has_char newline l = false.

Lemma unlines_app ls ls' : unlines (ls ++ ls')%list = unlines ls +:+ unlines ls'.
Proof.
  induction ls as [|l ls IH]; simpl; [done|]. rewrite IH.
  by rewrite <- !string_app_assoc.
Qed.

Lemma unlines_snoc ls l : unlines (ls ++ [l])%list = unlines ls +:+ (l +:+ nl).
Proof. rewrite unlines_app. simpl. by rewrite string_app_nil_r. Qed.

Lemma join_unlines ls : ls <> [] -> join nl ls +:+ nl = unlines ls.
Proof.
  induction ls as [|l ls IH]; [done|]. intros _.
  destruct ls as [|l' ls]; [done|]. specialize (IH ltac:(done)).
  change (join nl (l :: l' :: ls)) with (l +:+ nl +:+ join nl (l' :: ls)).
  change (unlines (l :: l' :: ls)) with (l +:+ nl +:+ unlines (l' :: ls)).
  by rewrite <- IH, <- !string_app_assoc.
Qed.

Lemma split_unlines ls t :
  Forall one_line ls ->
  split_char newline (unlines ls +:+ t) = (ls ++ split_char newline t)%list.
Proof.
  induction 1 as [|l ls Hl Hls IH]; [done|]. simpl.
  change (l +:+ nl +:+ unlines ls) with (l +:+ String newline (unlines ls)).
  rewrite <- string_app_assoc, string_app_cons, split_char_app by done. by rewrite IH.
Qed.

Lemma unlines_empty ls : unlines ls = "" -> ls = [].
Proof. destruct ls as [|l ls]; [done|]. by destruct l. Qed.

Lemma unlines_ends ls : ls <> [] -> ends_with_char newline (unlines ls) = true.
Proof.
  intros Hne.
  destruct (last ls) as [x|] eqn:Hl; [|by apply last_None in Hl].
  apply last_Some in Hl as [ls' ->]. rewrite unlines_snoc, string_app_assoc.
  apply ends_with_char_snoc.
Qed.

Lemma utf8_valid_app a b :
  utf8_valid a = true -> utf8_valid (a +:+ b) = utf8_valid b.
Proof.
  intros Ha. remember (String.length a) as n eqn:Hn.
  revert a Hn Ha. induction n as [n IH] using lt_wf_ind. intros a -> Ha.
  destruct a as [|x a]; [done|]. rewrite string_app_cons. cbn [utf8_valid] in *.
  destruct (byte_of x <? 128)%Z; [eapply IH; [|done|done]; simpl; lia|].
  destruct a as [|y a]; [done|]. rewrite string_app_cons.
  destruct (in_range (byte_of x) 194 223).
  { apply andb_true_iff in Ha as [-> Ha]. simpl. eapply IH; [|done|done]. simpl. lia. }
  destruct a as [|z a]; [done|]. rewrite string_app_cons.
  destruct (in_range (byte_of x) 224 239).
  { apply andb_true_iff in Ha as [-> Ha]. simpl. eapply IH; [|done|done]. simpl. lia. }
  destruct a as [|w a]; [done|]. rewrite string_app_cons.
  destruct (in_range (byte_of x) 240 244); [|done].
  apply andb_true_iff in Ha as [-> Ha]. simpl. eapply IH; [|done|done]. simpl. lia.
Qed.

Lemma utf8_unlines ls :
  Forall (fun l => utf8_valid l = true) ls -> utf8_valid (unlines ls) = true.
Proof.
  induction 1 as [|l ls Hl Hls IH]; [done|]. simpl.
  by rewrite utf8_valid_app, utf8_valid_app.
Qed.
