(* ===== verification/Chars.v ===== *)
(** Rust's [char]s over UTF-8 byte strings, and the [str] operations that the
    modelled code uses on them.  A [char] is the UTF-8 text of one character. *)

From S2P Require Import Prelude.
Open Scope string_scope.

Abbreviation char := string (only parsing).

(** [str::chars] *)
Fixpoint chars (s : string) : list char :=
  match s with
  | EmptyString => []
  | String a r =>
      let x := byte_of a in
      let rest := chars r in
      if (x <? 192)%Z then String a "" :: rest
      else if (x <? 224)%Z then
        match r with
        | String b r2 => String a (String b "") :: chars r2
        | _ => String a "" :: rest
        end
      else if (x <? 240)%Z then
        match r with
        | String b (String c r3) => String a (String b (String c "")) :: chars r3
        | _ => String a "" :: rest
        end
      else
        match r with
        | String b (String c (String d r4)) =>
            String a (String b (String c (String d ""))) :: chars r4
        | _ => String a "" :: rest
        end
  end.

(** [Iterator::collect::<String>] *)
Definition collect (l : list char) : string := String.concat "" l.

(** [char::is_whitespace] *)
Definition is_whitespace (c : char) : bool :=
  match c with
  | String a EmptyString => ws1 a
  | String a (String b EmptyString) => ws2 a b
  | String a (String b (String d EmptyString)) => ws3 a b d
  | _ => false
  end.

(** [char::is_ascii_digit] *)
Definition is_ascii_digit (c : char) : bool :=
  match c with String a EmptyString => in_range (byte_of a) 48 57 | _ => false end.

Definition single_quote : char := "'".
Definition double_quote : char := String "034" "".
Definition backslash : char := "\".
Definition backquote : char := "`".
Definition tab : char := String "009" "".

(** [str::starts_with], [str::contains], [str::strip_prefix], with a [str] pattern *)
Definition starts_with (p s : string) : bool := String.prefix p s.
Fixpoint str_contains (p s : string) : bool :=
  starts_with p s || match s with String _ r => str_contains p r | EmptyString => false end.
Definition strip_prefix (p s : string) : option string :=
  if starts_with p s then Some (str_drop (String.length p) s) else None.

(** [str::trim_start_matches('-')] *)
Fixpoint trim_start_dashes (s : string) : string :=
  match s with
  | String a r => if Ascii.eqb a "-" then trim_start_dashes r else s
  | EmptyString => s
  end.

(** [s.split('=').next().unwrap_or(s)] *)
Definition before_equals (s : string) : string :=
  match split_char "=" s with first :: _ => first | [] => s end.

(** [slice::contains] *)
Definition among (l : list string) (s : string) : bool := existsb (String.eqb s) l.

(** [char::is_ascii_digit] counted from the end, [Iterator::take_while] *)
Fixpoint take_digits (l : list char) : list char :=
  match l with c :: r => if is_ascii_digit c then c :: take_digits r else [] | [] => [] end.

(** [s.chars().count()] *)
Definition char_count (s : string) : Z := Z.of_nat (length (chars s)).

(** [str::trim] *)
Fixpoint drop_blank (l : list char) : list char :=
  match l with c :: r => if is_whitespace c then drop_blank r else l | [] => [] end.
Definition trim (s : string) : string :=
  collect (reverse (drop_blank (reverse (drop_blank (chars s))))).
