(* ===== verification/Text.v ===== *)
(** Further [str] operations of Rust's standard library: newline conversion,
    lines with their ends, matches of a pattern, code points. *)

From stdpp Require Import sorting.
From S2P Require Import Prelude Lines Chars.
Open Scope string_scope.

Definition cr : string := String carriage_return "".
Definition crlf : string := String carriage_return nl.

(** [s.replace("\r\n", "\n")], [s.replace('\r', "\n")] and their composition *)
Fixpoint replace_crlf (s : string) : string :=
  match s with
  | EmptyString => EmptyString
  | String a r =>
      match r with
      | String b r2 =>
          if Ascii.eqb a carriage_return && Ascii.eqb b newline
          then String newline (replace_crlf r2) else String a (replace_crlf r)
      | EmptyString => s
      end
  end.
Fixpoint replace_cr (s : string) : string :=
  match s with
  | EmptyString => EmptyString
  | String a r => String (if Ascii.eqb a carriage_return then newline else a) (replace_cr r)
  end.
Definition to_lf (s : string) : string := replace_cr (replace_crlf s).

(** [s.replace('\n', "\r\n")] *)
Fixpoint to_crlf (s : string) : string :=
  match s with
  | EmptyString => EmptyString
  | String a r =>
      if Ascii.eqb a newline then String carriage_return (String newline (to_crlf r))
      else String a (to_crlf r)
  end.

(** [s.find(pattern)] *)
Fixpoint str_find (p s : string) : option nat :=
  if starts_with p s then Some 0
  else match s with String _ r => S <$> str_find p r | EmptyString => None end.

(** [s.split_inclusive('\n')] *)
Fixpoint split_inclusive (s : string) : list string :=
  match s with
  | EmptyString => []
  | String a r =>
      if Ascii.eqb a newline then nl :: split_inclusive r
      else match split_inclusive r with
           | [] => [String a ""]
           | h :: t => String a h :: t
           end
  end.

(** The offsets of [s.match_indices(p)]: matches do not overlap, and an empty
    pattern matches at every character boundary.  [skip] bytes belong to the
    match before. *)
Fixpoint matches_from (p s : string) (offset skip : nat) : list nat :=
  match s with
  | EmptyString => []
  | String _ r =>
      match skip with
      | S skip => matches_from p r (S offset) skip
      | 0 =>
          if starts_with p s then offset :: matches_from p r (S offset) (String.length p - 1)
          else matches_from p r (S offset) 0
      end
  end.
Fixpoint boundaries (s : string) (offset : nat) : list nat :=
  match s with
  | EmptyString => [offset]
  | String a r => if cont a then boundaries r (S offset) else offset :: boundaries r (S offset)
  end.
Definition match_indices (p s : string) : list nat :=
  match p with EmptyString => boundaries s 0 | _ => matches_from p s 0 0 end.

(** [String::replace_range(start..end, new)] of a range within the text *)
Definition replace_range (s : string) (start stop : nat) (new : string) : string :=
  str_take start s +:+ new +:+ str_drop stop s.

(** [s.get(start..stop)] at character boundaries, [slice.get(start..stop)] *)
Definition str_get (s : string) (start stop : nat) : option string :=
  if Nat.leb start stop && Nat.leb stop (String.length s)
  then Some (str_take (stop - start) (str_drop start s)) else None.
Definition slice_get {A} (l : list A) (start stop : nat) : option (list A) :=
  if Nat.leb start stop && Nat.leb stop (length l)
  then Some (take (stop - start) (drop start l)) else None.

(** The code point of a [char]. *)
Definition code_point (c : char) : Z :=
  match c with
  | String a EmptyString => byte_of a
  | String a (String b EmptyString) => ((byte_of a - 192) * 64 + (byte_of b - 128))%Z
  | String a (String b (String d EmptyString)) =>
      ((byte_of a - 224) * 4096 + (byte_of b - 128) * 64 + (byte_of d - 128))%Z
  | String a (String b (String d (String e EmptyString))) =>
      ((byte_of a - 240) * 262144 + (byte_of b - 128) * 4096 + (byte_of d - 128) * 64
       + (byte_of e - 128))%Z
  | _ => 0%Z
  end.

(** [str::trim_end] *)
Definition trim_end (s : string) : string := collect (reverse (drop_blank (reverse (chars s)))).

(** [s.strip_suffix('\n')] *)
Definition strip_suffix_nl (s : string) : option string :=
  if ends_with_char newline s then Some (str_take (String.length s - 1) s) else None.

(** [str::lines] *)
Definition strip_suffix_cr (s : string) : option string :=
  if ends_with_char carriage_return s then Some (str_take (String.length s - 1) s) else None.

Definition line_of (l : string) : string :=
  match strip_suffix_nl l with Some l => default l (strip_suffix_cr l) | None => l end.
Definition lines (s : string) : list string := line_of <$> split_inclusive s.

(** [format!("{n:>width$}")] *)
Definition pad_left (width : nat) (s : string) : string :=
  String.concat "" (replicate (width - String.length s) " ") +:+ s.

(** ** Lemmas *)

Lemma str_concat_app l1 l2 :
  String.concat "" (l1 ++ l2)%list = String.concat "" l1 +:+ String.concat "" l2.
Proof.
  induction l1 as [|x [|y l1] IH]; [done| |].
  - cbn. destruct l2; cbn; [by rewrite string_app_nil_r|done].
  - change (String.concat "" ((x :: y :: l1) ++ l2)%list)
      with (x +:+ "" +:+ String.concat "" ((y :: l1) ++ l2)%list).
    change (String.concat "" (x :: y :: l1)) with (x +:+ "" +:+ String.concat "" (y :: l1)).
    rewrite IH. by rewrite !string_app_nil_l, string_app_assoc.
Qed.

Lemma str_concat_cons x l : String.concat "" (x :: l) = x +:+ String.concat "" l.
Proof. change (x :: l) with ([x] ++ l)%list. by rewrite str_concat_app. Qed.

Lemma split_inclusive_concat s : String.concat "" (split_inclusive s) = s.
Proof.
  induction s as [|a s IH]; [done|]. cbn [split_inclusive].
  destruct (Ascii.eqb_spec a newline) as [->|_].
  - by rewrite str_concat_cons, IH.
  - destruct (split_inclusive s) as [|h t]; [by subst|].
    rewrite str_concat_cons in IH |- *. by rewrite string_app_cons, IH.
Qed.

(** Newline conversion is the identity on text without carriage returns, and
    undoes the conversion to CRLF. *)
Lemma to_lf_id s : has_char carriage_return s = false -> to_lf s = s.
Proof.
  unfold to_lf. intros H. assert (replace_crlf s = s) as ->.
  - induction s as [|a s IH]; [done|]. cbn [has_char] in H.
    apply orb_false_iff in H as [Ha Hs]. cbn [replace_crlf]. rewrite Ha.
    destruct s as [|b s]; [done|]. cbn [andb]. by rewrite IH.
  - induction s as [|a s IH]; [done|]. cbn [has_char] in H.
    apply orb_false_iff in H as [Ha Hs]. cbn [replace_cr]. by rewrite Ha, IH.
Qed.

Lemma replace_crlf_to_crlf s : has_char carriage_return s = false -> replace_crlf (to_crlf s) = s.
Proof.
  induction s as [|a s IH]; [done|]. cbn [has_char]. intros [Ha Hs]%orb_false_iff.
  cbn [to_crlf]. destruct (Ascii.eqb_spec a newline) as [->|Hne].
  - cbn. by rewrite IH.
  - cbn [replace_crlf]. destruct (to_crlf s) as [|b r] eqn:Hr.
    + specialize (IH Hs). cbn in IH. by subst.
    + rewrite Ha. cbn [andb]. by rewrite IH.
Qed.

Lemma to_lf_to_crlf s : has_char carriage_return s = false -> to_lf (to_crlf s) = s.
Proof.
  intros H. unfold to_lf. rewrite replace_crlf_to_crlf by done.
  rewrite <- (to_lf_id s H) at 2. unfold to_lf. f_equal.
  clear -H. induction s as [|a s IH]; [done|]. cbn [has_char] in H.
  apply orb_false_iff in H as [Ha Hs]. cbn [replace_crlf]. rewrite Ha.
  destruct s as [|b s]; [done|]. cbn [andb]. by rewrite <- IH.
Qed.

Lemma replace_cr_none s : has_char carriage_return (replace_cr s) = false.
Proof.
  induction s as [|a s IH]; [done|]. cbn. rewrite IH.
  destruct (Ascii.eqb_spec a carriage_return) as [->|Hne]; [done|].
  apply orb_false_iff. split; [|done]. by apply Ascii.eqb_neq.
Qed.

(** A pattern found at an offset. *)
Definition occurs_at (p s : string) (n : nat) : Prop :=
  exists before after, s = before +:+ p +:+ after /\ String.length before = n.

Lemma starts_with_spec p s : starts_with p s = true <-> exists after, s = p +:+ after.
Proof.
  unfold starts_with. revert s. induction p as [|a p IH]; intros s.
  - split; [intros _; by exists s|by destruct s].
  - destruct s as [|b s]; cbn [String.prefix].
    + split; [done|]. by intros [after ?].
    + destruct (ascii_dec a b) as [->|Hne].
      * rewrite IH. split; intros [after H]; exists after; rewrite string_app_cons in *; congruence.
      * split; [done|]. intros [after H]. rewrite string_app_cons in H. congruence.
Qed.

Lemma occurs_at_0 p s : occurs_at p s 0 <-> starts_with p s = true.
Proof.
  rewrite starts_with_spec. split.
  - intros ([|] & after & -> & Hl); [|done]. by exists after.
  - intros [after ->]. by exists "", after.
Qed.

Lemma occurs_at_S p a s n : occurs_at p (String a s) (S n) <-> occurs_at p s n.
Proof.
  split.
  - intros ([|b before] & after & H & Hl); [done|]. rewrite string_app_cons in H.
    injection H as -> ->. exists before, after. split; [done|]. by injection Hl.
  - intros (before & after & -> & <-). exists (String a before), after. by rewrite string_app_cons.
Qed.

Lemma str_contains_spec p s : str_contains p s = true <-> exists n, occurs_at p s n.
Proof.
  induction s as [|a s IH]; cbn [str_contains]; rewrite orb_true_iff, <- occurs_at_0.
  - split; [intros [H|H]; [by exists 0|done]|]. intros [[|n] H]; [by left|].
    destruct H as ([|b before] & after & H & Hl); done.
  - rewrite IH. split.
    + intros [H|[n H]]; [by exists 0|]. exists (S n). by rewrite occurs_at_S.
    + intros [[|n] H]; [by left|right]. exists n. by rewrite <- occurs_at_S with (a := a).
Qed.

(** A match is an occurrence, and matches do not overlap. *)
Lemma matches_from_occurs p s : forall offset skip n,
  n ∈ matches_from p s offset skip -> exists k, n = offset + k /\ skip <= k /\ occurs_at p s k.
Proof.
  induction s as [|a s IH]; intros offset skip n Hin; cbn [matches_from] in Hin.
  { by apply elem_of_nil in Hin. }
  destruct skip as [|skip].
  - destruct (starts_with p (String a s)) eqn:Hp.
    + apply elem_of_cons in Hin as [->|Hin].
      * exists 0. rewrite occurs_at_0. split_and!; [lia|lia|done].
      * apply IH in Hin as (k & -> & _ & Ho). exists (S k). rewrite occurs_at_S. split_and!; [lia|lia|done].
    + apply IH in Hin as (k & -> & _ & Ho). exists (S k). rewrite occurs_at_S. split_and!; [lia|lia|done].
  - apply IH in Hin as (k & -> & Hk & Ho). exists (S k). rewrite occurs_at_S. split_and!; [lia|lia|done].
Qed.

(** Only one occurrence: the one match. *)
Lemma matches_from_unique p s : forall offset n,
  p <> "" -> occurs_at p s n -> (forall m, occurs_at p s m -> m = n) ->
  matches_from p s offset 0 = [offset + n].
Proof.
  assert (forall s offset skip, (forall m, skip <= m -> ~ occurs_at p s m) ->
    p <> "" -> matches_from p s offset skip = []) as Hnone.
  { intros u offset skip Hu Hp. apply elem_of_nil_inv. intros x Hx.
    apply matches_from_occurs in Hx as (k & _ & Hk & Ho). by apply (Hu k). }
  induction s as [|a s IH]; intros offset n Hp Hn Hu.
  - destruct Hn as (before & after & H & Hl). destruct before, p; done.
  - cbn [matches_from]. destruct n as [|n].
    + rewrite (proj1 (occurs_at_0 _ _) Hn), Nat.add_0_r. f_equal.
      apply Hnone; [|done]. intros m _ Hm. apply occurs_at_S with (a := a) in Hm. by apply Hu in Hm.
    + destruct (starts_with p (String a s)) eqn:Hs.
      * apply occurs_at_0, Hu in Hs. done.
      * rewrite occurs_at_S in Hn. rewrite (IH (S offset) n); [f_equal; lia|done|done|].
        intros m Hm. apply occurs_at_S with (a := a) in Hm. apply Hu in Hm. lia.
Qed.

Lemma match_indices_unique p s n :
  p <> "" -> occurs_at p s n -> (forall m, occurs_at p s m -> m = n) -> match_indices p s = [n].
Proof. intros Hp Hn Hu. unfold match_indices. destruct p; [done|]. exact (matches_from_unique _ s 0 n Hp Hn Hu). Qed.

Lemma match_indices_occurs p s n : p <> "" -> n ∈ match_indices p s -> occurs_at p s n.
Proof.
  unfold match_indices. destruct p; [done|]. intros _ Hin.
  apply matches_from_occurs in Hin as (k & -> & _ & H). done.
Qed.

Lemma str_drop_prefix p s : str_drop (String.length p) (p +:+ s) = s.
Proof. rewrite str_drop_app by done. by rewrite str_drop_all, string_app_nil_l. Qed.

Lemma str_take_prefix p s : str_take (String.length p) (p +:+ s) = p.
Proof. rewrite str_take_app_le by done. by apply str_take_all. Qed.

Lemma str_drop_add n m s : str_drop n (str_drop m s) = str_drop (m + n) s.
Proof. revert s. induction m as [|m IH]; intros s; [done|]. destruct s; cbn [str_drop Nat.add]; [by destruct n|apply IH]. Qed.

Lemma str_take_add n m s : str_take (n + m) s = str_take n s +:+ str_take m (str_drop n s).
Proof.
  revert s. induction n as [|n IH]; intros s; cbn [str_take str_drop Nat.add]; [by rewrite string_app_nil_l|].
  destruct s as [|a s]; [by destruct m|]. by rewrite string_app_cons, IH.
Qed.

(** Where [str::find] finds its pattern, and how [strip_prefix] cuts. *)
Lemma str_find_spec p s i :
  str_find p s = Some i ->
  s = str_take i s +:+ p +:+ str_drop (i + String.length p) s /\ String.length (str_take i s) = i.
Proof.
  revert i. induction s as [|a s IH]; intros i; cbn [str_find].
  - destruct (starts_with p "") eqn:Hp; [|done]. intros [= <-]. apply starts_with_spec in Hp as [after Hp].
    by destruct p.
  - destruct (starts_with p (String a s)) eqn:Hp.
    + intros [= <-]. apply starts_with_spec in Hp as [after ->]. cbn [str_take Nat.add].
      by rewrite string_app_nil_l, str_drop_prefix.
    + destruct (str_find p s) as [j|]; [|done]. intros [= <-]. destruct (IH j eq_refl) as [Hs Hl].
      cbn [str_take str_drop Nat.add String.length]. rewrite Hl. by rewrite string_app_cons, <- Hs.
Qed.

Lemma strip_prefix_spec p s r : strip_prefix p s = Some r <-> s = p +:+ r.
Proof.
  unfold strip_prefix. destruct (starts_with p s) eqn:Hp.
  - apply starts_with_spec in Hp as [after ->]. rewrite str_drop_prefix. split; [by intros [= ->]|].
    intros H. f_equal. by simplify_eq.
  - split; [done|]. intros ->. by rewrite (proj2 (starts_with_spec p (p +:+ r))) in Hp by by eexists.
Qed.

Lemma join_split_char c s : join (String c "") (split_char c s) = s.
Proof.
  induction s as [|a s IH]; [done|]. cbn [split_char]. destruct (Ascii.eqb_spec a c) as [->|_].
  - destruct (split_char c s) as [|h t] eqn:Hs; [by apply split_char_nonempty in Hs|].
    change (join (String c "") ("" :: h :: t)) with ("" +:+ (String c "" +:+ join (String c "") (h :: t))).
    by rewrite IH, string_app_nil_l, string_app_cons, string_app_nil_l.
  - destruct (split_char c s) as [|h t] eqn:Hs; [by apply split_char_nonempty in Hs|]. rewrite <- IH.
    destruct t; cbn [join]; by rewrite ?string_app_cons.
Qed.

(** [slice::sort_by] and [slice::sort_by_key]: stable sorts by a comparison
    ([lt x y] says that [x] comes strictly first) and by a natural number. *)

Section SortBy.
Context {A : Type} (lt : A -> A -> bool).

Fixpoint insert_by (x : A) (l : list A) : list A :=
  match l with
  | [] => [x]
  | y :: r => if lt x y then x :: l else y :: insert_by x r
  end.
Definition sort_by (l : list A) : list A := foldl (fun sorted x => insert_by x sorted) [] l.

(** Not strictly after. *)
Definition not_after (x y : A) : Prop := lt y x = false.

Lemma insert_by_perm x l : insert_by x l ≡ₚ x :: l.
Proof.
  induction l as [|y l IH]; [done|]. cbn [insert_by]. destruct (lt x y); [done|].
  rewrite IH. apply Permutation_swap.
Qed.

Lemma sort_by_from_perm acc l : foldl (fun sorted x => insert_by x sorted) acc l ≡ₚ acc ++ l.
Proof.
  revert acc. induction l as [|x l IH]; intros acc; cbn [foldl]; [by rewrite app_nil_r|].
  rewrite (IH (insert_by x acc)), insert_by_perm. apply (Permutation_middle acc l x).
Qed.

Lemma sort_by_perm l : sort_by l ≡ₚ l.
Proof. apply (sort_by_from_perm []). Qed.

Hypothesis lt_asym : forall x y, lt x y = true -> lt y x = false.

Lemma insert_by_sorted x l : Sorted not_after l -> Sorted not_after (insert_by x l).
Proof.
  induction 1 as [|y l Hl IH Hy]; [by repeat constructor|]. cbn [insert_by].
  destruct (lt x y) eqn:Hxy.
  - constructor; [by constructor|]. constructor. by apply lt_asym.
  - constructor; [done|]. destruct l as [|z l]; cbn [insert_by] in *; [by constructor|].
    destruct (lt x z); [by constructor|]. by inversion Hy; constructor.
Qed.

Lemma sort_by_sorted l : Sorted not_after (sort_by l).
Proof.
  unfold sort_by. generalize (Sorted_nil not_after). generalize (@nil A).
  induction l as [|x l IH]; intros acc H; cbn [foldl]; [done|]. by apply IH, insert_by_sorted.
Qed.
End SortBy.

Section SortByKey.
Context {A : Type} (key : A -> nat).

Definition key_lt (x y : A) : bool := Nat.ltb (key x) (key y).
Definition sort_by_key (l : list A) : list A := sort_by key_lt l.
Definition key_le (x y : A) : Prop := key x <= key y.

Lemma sort_by_key_perm l : sort_by_key l ≡ₚ l.
Proof. apply sort_by_perm. Qed.
Lemma sort_by_key_sorted l : Sorted key_le (sort_by_key l).
Proof.
  assert (forall x y, key_lt x y = true -> key_lt y x = false) as Hasym
    by (unfold key_lt; intros x y Hxy%Nat.ltb_lt; apply Nat.ltb_ge; lia).
  pose proof (sort_by_sorted key_lt Hasym l) as H.
  unfold sort_by_key. induction H as [|x r _ IH Hd]; constructor; [done|]. destruct Hd as [|y r Hy]; constructor.
  unfold not_after, key_lt in Hy. apply Nat.ltb_ge in Hy. done.
Qed.
End SortByKey.

(** [BTreeMap::values] of a map with string keys *)
Definition btree_values {A} (m : gmap string A) : list A :=
  snd <$> sort_by (fun a b => negb (String.leb b.1 a.1)) (map_to_list m).

Lemma elem_of_btree_values {A} (m : gmap string A) x : x ∈ btree_values m <-> exists k, m !! k = Some x.
Proof.
  unfold btree_values. rewrite sort_by_perm, list_elem_of_fmap. split.
  - intros ([k y] & -> & Hin%elem_of_map_to_list). eauto.
  - intros [k Hk]. exists (k, x). split; [done|by apply elem_of_map_to_list].
Qed.

