(* ===== verification/Scalar.v ===== *)
(** Validated protocol scalars: [crates/protocol/src/scalar.rs] and
    [crates/protocol/src/id.rs].  A Rust newtype whose private field is only
    reachable through a checked constructor is a record carrying that check. *)

From S2P Require Import Prelude.
Open Scope string_scope.

Inductive ScalarError : Type :=
| EmptyIdentifier (kind : string)
| InvalidTimestamp
| InvalidSequence
| EmptySessionTitle
| SessionTitleTooLong (maximum : Z).

Definition MAX_SAFE_INTEGER : Z := 9007199254740991.

(** ** Identifiers: one type per instance of [define_string_id!] *)

Record string_id (kind : string) : Type := MkId {
  as_str : string;
  as_str_valid : Is_true (negb (trim_is_empty as_str))
}.
Arguments MkId {kind} _ _.
Arguments as_str {kind} _.
Arguments as_str_valid {kind} _.

Definition SessionId := string_id "session".
Definition TraceId := string_id "trace".
Definition RunId := string_id "run".
Definition TurnId := string_id "turn".
Definition MessageId := string_id "message".
Definition ToolCallId := string_id "tool call".
Definition EntryId := string_id "entry".
Definition LaneId := string_id "lane".
Definition RecordId := string_id "record".
Definition QueueId := string_id "queue".
Definition ExtensionId := string_id "extension".

(** [TryFrom<String>] of every identifier. *)
Definition id_try_from (kind : string) (value : string)
  : result (string_id kind) ScalarError :=
  match decide (Is_true (negb (trim_is_empty value))) with
  | left valid => Ok (MkId value valid)
  | right _ => Err (EmptyIdentifier kind)
  end.

Lemma string_id_eq {kind} (x y : string_id kind) : as_str x = as_str y -> x = y.
Proof.
  destruct x as [x Hx], y as [y Hy]; simpl; intros ->.
  f_equal. apply proof_irrel.
Qed.

Lemma id_try_from_as_str {kind} (x : string_id kind) :
  id_try_from kind (as_str x) = Ok x.
Proof.
  unfold id_try_from. destruct (decide _) as [H|H].
  - f_equal. by apply string_id_eq.
  - destruct x; simpl in *; done.
Qed.

#[export] Instance string_id_eq_dec kind : EqDecision (string_id kind).
Proof.
  intros x y. destruct (decide (as_str x = as_str y)) as [H|H].
  - left. by apply string_id_eq.
  - right. by intros ->.
Defined.

#[export] Instance string_id_countable kind : Countable (string_id kind).
Proof.
  apply (inj_countable as_str (fun s => ok (id_try_from kind s))).
  intros x. by rewrite id_try_from_as_str.
Defined.

(** ** [TimestampMs]: a [u64] whose wire form is its decimal string *)

Record TimestampMs : Type := MkTimestamp {
  timestamp_get : Z;
  timestamp_valid : Is_true (in_u64 timestamp_get)
}.

Lemma timestamp_eq x y : timestamp_get x = timestamp_get y -> x = y.
Proof.
  destruct x, y; simpl; intros ->. f_equal. apply proof_irrel.
Qed.

#[export] Instance timestamp_eq_dec : EqDecision TimestampMs.
Proof.
  intros x y. destruct (decide (timestamp_get x = timestamp_get y)) as [H|H].
  - left. by apply timestamp_eq.
  - right. by intros ->.
Defined.

Definition timestamp_from_z (z : Z) : result TimestampMs ScalarError :=
  match decide (Is_true (in_u64 z)) with
  | left v => Ok (MkTimestamp z v)
  | right _ => Err InvalidTimestamp
  end.

(** [TryFrom<String> for TimestampMs]: [parse_decimal_u64] is the digits-only
    guard followed by [str::parse::<u64>]. *)
Definition timestamp_try_from (value : string) : result TimestampMs ScalarError :=
  match parse_decimal_u64 value with
  | Some z => timestamp_from_z z
  | None => Err InvalidTimestamp
  end.

(** [From<TimestampMs> for String] *)
Definition timestamp_to_string (t : TimestampMs) : string :=
  u64_to_string (timestamp_get t).

Lemma timestamp_from_z_get t : timestamp_from_z (timestamp_get t) = Ok t.
Proof.
  unfold timestamp_from_z. destruct (decide _) as [H|H].
  - f_equal. by apply timestamp_eq.
  - by destruct t.
Qed.

Lemma timestamp_range t : (0 <= timestamp_get t <= u64_max)%Z.
Proof. apply in_u64_spec, Is_true_true, timestamp_valid. Qed.

Lemma timestamp_try_from_to_string t :
  timestamp_try_from (timestamp_to_string t) = Ok t.
Proof.
  unfold timestamp_try_from, timestamp_to_string.
  rewrite parse_decimal_u64_to_string; [apply timestamp_from_z_get|].
  apply Is_true_true, timestamp_valid.
Qed.

Definition timestamp_lt (a b : TimestampMs) : bool :=
  (timestamp_get a <? timestamp_get b)%Z.

(** A file time in milliseconds: before the epoch is 0, and a time beyond
    [u64] is its maximum. *)
Lemma timestamp_clamp_valid z : Is_true (in_u64 (Z.max 0 (Z.min z u64_max))).
Proof. apply Is_true_true, in_u64_spec. unfold u64_max. lia. Qed.

Definition timestamp_clamp (z : Z) : TimestampMs :=
  MkTimestamp (Z.max 0 (Z.min z u64_max)) (timestamp_clamp_valid z).

(** ** [Sequence]: between 1 and the JavaScript-safe maximum *)

Definition sequence_in_range (z : Z) : bool :=
  (1 <=? z)%Z && (z <=? MAX_SAFE_INTEGER)%Z.

Record Sequence : Type := MkSequence {
  sequence_get : Z;
  sequence_valid : Is_true (sequence_in_range sequence_get)
}.

Definition sequence_try_from (value : Z) : result Sequence ScalarError :=
  match decide (Is_true (sequence_in_range value)) with
  | left v => Ok (MkSequence value v)
  | right _ => Err InvalidSequence
  end.

Lemma sequence_eq x y : sequence_get x = sequence_get y -> x = y.
Proof.
  destruct x, y; simpl; intros ->. f_equal. apply proof_irrel.
Qed.

#[export] Instance sequence_eq_dec : EqDecision Sequence.
Proof.
  intros x y. destruct (decide (sequence_get x = sequence_get y)) as [H|H].
  - left. by apply sequence_eq.
  - right. by intros ->.
Defined.

Lemma sequence_range s : (1 <= sequence_get s <= MAX_SAFE_INTEGER)%Z.
Proof.
  pose proof (Is_true_true_1 _ (sequence_valid s)) as H.
  unfold sequence_in_range in H. apply andb_true_iff in H.
  rewrite !Z.leb_le in H. done.
Qed.

Lemma sequence_try_from_get s : sequence_try_from (sequence_get s) = Ok s.
Proof.
  unfold sequence_try_from. destruct (decide _) as [H|H].
  - f_equal. by apply sequence_eq.
  - by destruct s.
Qed.

Lemma sequence_try_from_ok z s : sequence_try_from z = Ok s -> sequence_get s = z.
Proof. unfold sequence_try_from. destruct (decide _); intros [= <-]; done. Qed.

Lemma sequence_try_from_in z :
  sequence_in_range z = true -> exists s, sequence_try_from z = Ok s /\ sequence_get s = z.
Proof.
  intros H. unfold sequence_try_from. destruct (decide _) as [Hv|Hv].
  - by eexists.
  - exfalso. apply Hv. by rewrite H.
Qed.

Lemma sequence_try_from_out z :
  sequence_in_range z = false -> sequence_try_from z = Err InvalidSequence.
Proof.
  intros H. unfold sequence_try_from. destruct (decide _) as [Hv|Hv]; [|done].
  exfalso. by rewrite H in Hv.
Qed.

(** ** [IdKind]: the readable prefixes of generated identifiers *)

Inductive IdKind : Type :=
| IdTrace | IdSession | IdRun | IdTurn | IdMessage | IdEntry | IdRecord
| IdQueue | IdRequest.

Definition id_kind_prefix (k : IdKind) : string :=
  match k with
  | IdTrace => "trace"
  | IdSession => "session"
  | IdRun => "run"
  | IdTurn => "turn"
  | IdMessage => "message"
  | IdEntry => "entry"
  | IdRecord => "record"
  | IdQueue => "queue"
  | IdRequest => "request"
  end.

(** [TurnId::system]: the synthetic Turn of out-of-turn messages. *)
Lemma system_turn_valid s :
  Is_true (negb (trim_is_empty ("system-" +:+ s))).
Proof. done. Qed.

Definition turn_id_system (session_id : SessionId) : TurnId :=
  MkId ("system-" +:+ as_str session_id) (system_turn_valid _).
