(* ===== verification/Json.v ===== *)
(** [serde_json::Value] as data, the typed readers the derived [Deserialize]
    implementations use, and the text encoding as an interface.  The JSON
    printer and parser are third-party code: [JsonText] names what the store
    relies on, and [SampleText] shows those laws can hold together. *)

From S2P Require Import Prelude Scalar.
Open Scope string_scope.

(** ** Values.  Objects are maps: key order is not observable. *)

Inductive json_number : Type :=
| PosInt (n : Z)
| NegInt (n : Z)
| Float (bits : Z).

Inductive json : Type :=
| JNull
| JBool (b : bool)
| JNumber (n : json_number)
| JString (s : string)
| JArray (l : list json)
| JObject (m : gmap string json).

(** The text of a decoding error is the library's; only its presence matters. *)
Inductive json_error : Type := JsonError (what : string).

(** [Value::get(key)] *)
Definition json_get (key : string) (v : json) : option json :=
  match v with JObject m => m !! key | _ => None end.

(** [Value::as_str] *)
Definition json_as_str (v : json) : option string :=
  match v with JString s => Some s | _ => None end.

(** [Value::as_u64] *)
Definition json_as_u64 (v : json) : option Z :=
  match v with JNumber (PosInt n) => Some n | _ => None end.

Definition json_u64 (z : Z) : json := JNumber (PosInt z).

(** ** Serialize / Deserialize as classes *)

Class ToValue (T : Type) := to_value : T -> json.
Class FromValue (T : Type) := from_value : json -> result T json_error.

(** Types whose decoder inverts their encoder. *)
Class Roundtrip (T : Type) `{ToValue T, FromValue T} : Prop :=
  from_to_value : forall x : T, from_value (to_value x) = Ok x.

#[export] Instance to_value_string : ToValue string := JString.
#[export] Instance from_value_string : FromValue string := fun v =>
  match v with JString s => Ok s | _ => Err (JsonError "expected a string") end.

#[export] Instance to_value_bool : ToValue bool := JBool.
#[export] Instance from_value_bool : FromValue bool := fun v =>
  match v with JBool b => Ok b | _ => Err (JsonError "expected a boolean") end.

#[export] Instance to_value_id kind : ToValue (string_id kind) :=
  fun x => JString (as_str x).
#[export] Instance from_value_id kind : FromValue (string_id kind) := fun v =>
  match v with
  | JString s => map_err (fun _ => JsonError "empty identifier") (id_try_from kind s)
  | _ => Err (JsonError "expected a string")
  end.

#[export] Instance to_value_timestamp : ToValue TimestampMs :=
  fun t => JString (timestamp_to_string t).
#[export] Instance from_value_timestamp : FromValue TimestampMs := fun v =>
  match v with
  | JString s => map_err (fun _ => JsonError "invalid timestamp") (timestamp_try_from s)
  | _ => Err (JsonError "expected a string")
  end.

#[export] Instance to_value_sequence : ToValue Sequence :=
  fun s => json_u64 (sequence_get s).
#[export] Instance from_value_sequence : FromValue Sequence := fun v =>
  match json_as_u64 v with
  | Some z => map_err (fun _ => JsonError "invalid sequence") (sequence_try_from z)
  | None => Err (JsonError "expected an unsigned integer")
  end.

(** [Option<T>]: [None] is [null]. *)
#[export] Instance to_value_option {T} `{ToValue T} : ToValue (option T) :=
  fun o => match o with Some x => to_value x | None => JNull end.
#[export] Instance from_value_option {T} `{FromValue T} : FromValue (option T) :=
  fun v => match v with JNull => Ok None | v => result_map Some (from_value v) end.

Fixpoint collect_results {A E} (l : list (result A E)) : result (list A) E :=
  match l with
  | [] => Ok []
  | Ok a :: r => result_map (cons a) (collect_results r)
  | Err e :: _ => Err e
  end.

#[export] Instance to_value_list {T} `{ToValue T} : ToValue (list T) :=
  fun l => JArray (map to_value l).
#[export] Instance from_value_list {T} `{FromValue T} : FromValue (list T) :=
  fun v => match v with
           | JArray l => collect_results (map from_value l)
           | _ => Err (JsonError "expected an array")
           end.

Lemma from_value_cons {T} `{FromValue T} v l :
  from_value (T := list T) (JArray (v :: l)) =
  match from_value v with
  | Ok a => result_map (cons a) (from_value (JArray l))
  | Err e => Err e
  end.
Proof. done. Qed.

#[export] Instance roundtrip_string : Roundtrip string.
Proof. by intros ?. Qed.
#[export] Instance roundtrip_bool : Roundtrip bool.
Proof. by intros ?. Qed.
#[export] Instance roundtrip_id kind : Roundtrip (string_id kind).
Proof.
  intros x. unfold from_value, to_value, from_value_id, to_value_id.
  by rewrite id_try_from_as_str.
Qed.
#[export] Instance roundtrip_timestamp : Roundtrip TimestampMs.
Proof.
  intros x. unfold from_value, to_value, from_value_timestamp, to_value_timestamp.
  by rewrite timestamp_try_from_to_string.
Qed.
#[export] Instance roundtrip_sequence : Roundtrip Sequence.
Proof.
  intros x. unfold from_value, to_value, from_value_sequence, to_value_sequence.
  simpl. by rewrite sequence_try_from_get.
Qed.
#[export] Instance roundtrip_list {T} `{Roundtrip T} : Roundtrip (list T).
Proof.
  intros l. unfold from_value, to_value, from_value_list, to_value_list.
  induction l as [|x l IH]; simpl; [done|].
  rewrite from_to_value, IH. done.
Qed.

(** An option round-trips when no value of the payload encodes as [null]. *)
Class NeverNull (T : Type) `{ToValue T} : Prop :=
  never_null : forall x : T, to_value x <> JNull.
#[export] Instance never_null_id kind : NeverNull (string_id kind).
Proof. by intros x. Qed.
#[export] Instance never_null_string : NeverNull string.
Proof. by intros x. Qed.

Lemma from_value_option_not_null {T} `{FromValue T} v :
  v <> JNull ->
  from_value (T := option T) v = result_map Some (from_value v).
Proof. by destruct v. Qed.

Lemma from_value_some {T} `{Roundtrip T} `{!NeverNull T} (x : T) :
  from_value (T := option T) (to_value x) = Ok (Some x).
Proof.
  rewrite from_value_option_not_null by apply never_null. by rewrite from_to_value.
Qed.

#[export] Instance roundtrip_option {T} `{Roundtrip T} `{!NeverNull T} :
  Roundtrip (option T).
Proof.
  intros [x|]; [|done]. change (to_value (Some x)) with (to_value x).
  rewrite from_value_option_not_null by apply never_null.
  by rewrite from_to_value.
Qed.

(** ** Object fields, as the derived struct decoders read them *)

(** A required field: absence is an error. *)
Definition field {T} `{FromValue T} (key : string) (m : gmap string json)
  : result T json_error :=
  match m !! key with
  | Some v => from_value v
  | None => Err (JsonError ("missing field " +:+ key))
  end.

(** An [Option] field: absent and [null] both read as [None]. *)
Definition opt_field {T} `{FromValue T} (key : string) (m : gmap string json)
  : result (option T) json_error :=
  match m !! key with
  | Some v => from_value v
  | None => Ok None
  end.

(** A [#[serde(default)]] field. *)
Definition default_field {T} `{FromValue T} (d : T) (key : string)
  (m : gmap string json) : result T json_error :=
  match m !! key with
  | Some v => from_value v
  | None => Ok d
  end.

Definition as_object (v : json) : result (gmap string json) json_error :=
  match v with JObject m => Ok m | _ => Err (JsonError "expected an object") end.

(** [skip_serializing_if = "Option::is_none"] *)
Definition skip_none {T} `{ToValue T} (key : string) (o : option T)
  : gmap string json :=
  match o with Some x => {[ key := to_value x ]} | None => ∅ end.

(** Removing the declared fields leaves what [#[serde(flatten)]] collects. *)
Definition without (keys : list string) (m : gmap string json) : gmap string json :=
  foldr delete m keys.

Lemma lookup_without keys m k :
  without keys m !! k = if decide (k ∈ keys) then None else m !! k.
Proof.
  induction keys as [|x keys IH]; cbn [without foldr].
  - by rewrite decide_False by apply not_elem_of_nil.
  - change (foldr delete m keys) with (without keys m).
    destruct (decide (x = k)) as [->|Hx].
    + rewrite lookup_delete_eq. by rewrite decide_True by apply list_elem_of_here.
    + rewrite lookup_delete_ne, IH by done.
      destruct (decide (k ∈ keys)) as [Hk|Hk].
      * by rewrite decide_True by (by apply list_elem_of_further).
      * rewrite decide_False; [done|]. by intros [->|?]%elem_of_cons.
Qed.

(** ** The text encoding *)

(** An idealisation of [serde_json]: the library itself refuses to parse more
    than 128 levels and, without its [float_roundtrip] feature, may read a float
    back as its neighbour; what is proved with this class is meant for values
    within these bounds. *)
Class JsonText := {
  print : json -> string;
  parse : string -> option json;
  (** Printing then parsing gives the value back. *)
  parse_print : forall v, parse (print v) = Some v;
  (** Compact printing emits no raw newline and some text. *)
  print_no_newline : forall v, has_char newline (print v) = false;
  print_no_return : forall v, has_char carriage_return (print v) = false;
  (** A trailing newline is white space. *)
  parse_newline : forall s, has_char newline s = false -> parse (s +:+ nl) = parse s;
  (** Printed text is UTF-8. *)
  print_utf8 : forall v, utf8_valid (print v) = true;
  (** A cut-off object is not a JSON value. *)
  parse_torn : forall m n,
    n < String.length (print (JObject m)) ->
    parse (str_take n (print (JObject m))) = None
}.

(** ** An instance of [JsonText]: not serde_json's text, but a concrete pair
    of functions that satisfies the laws, used by the concrete examples. *)
Module SampleText.

Definition tree := gen_tree (bool + json_number + string).

Fixpoint to_tree (v : json) : tree :=
  match v with
  | JNull => GenNode 0 []
  | JBool b => GenLeaf (inl (inl b))
  | JNumber n => GenLeaf (inl (inr n))
  | JString s => GenLeaf (inr s)
  | JArray l => GenNode 1 (map to_tree l)
  | JObject m =>
      GenNode 2 (map_fold (fun k x l => GenLeaf (inr k) :: to_tree x :: l) [] m)
  end.

Fixpoint of_tree (t : tree) : json :=
  match t with
  | GenLeaf (inl (inl b)) => JBool b
  | GenLeaf (inl (inr n)) => JNumber n
  | GenLeaf (inr s) => JString s
  | GenNode 1 l => JArray (map of_tree l)
  | GenNode 2 l =>
      JObject ((fix pairs (l : list tree) : gmap string json :=
        match l with
        | GenLeaf (inr k) :: x :: r => <[k := of_tree x]> (pairs r)
        | _ => ∅
        end) l)
  | GenNode _ _ => JNull
  end.

Fixpoint json_size (v : json) : nat :=
  match v with
  | JArray l => S (foldr (fun x n => json_size x + n) 0 l)
  | JObject m => S (map_fold (fun _ x n => json_size x + n) 0 m)
  | _ => 1
  end.

Lemma json_size_array x l : x ∈ l -> json_size x < json_size (JArray l).
Proof.
  induction 1 as [x l|x y l Hin IH]; simpl in *; lia.
Qed.

Lemma json_size_object k x m :
  m !! k = Some x -> json_size x < json_size (JObject m).
Proof.
  cut (forall k x, m !! k = Some x ->
    json_size x <= map_fold (fun _ x n => json_size x + n) 0 m).
  { intros H Hk. specialize (H k x Hk). simpl. lia. }
  apply (map_fold_weak_ind (fun r m => forall k x, m !! k = Some x -> json_size x <= r)).
  - intros ?? H. by rewrite lookup_empty in H.
  - intros i y m' r Hi IH j z Hj. destruct (decide (i = j)) as [->|Hne].
    + rewrite lookup_insert_eq in Hj. injection Hj as ->. lia.
    + rewrite lookup_insert_ne in Hj by done. specialize (IH _ _ Hj). lia.
Qed.

Lemma json_strong_ind (P : json -> Prop) :
  (forall v, (forall w, json_size w < json_size v -> P w) -> P v) -> forall v, P v.
Proof.
  intros H v. apply (well_founded_ind (Wf_nat.well_founded_ltof _ json_size)).
  intros x IH. by apply H.
Qed.

Lemma of_to_tree v : of_tree (to_tree v) = v.
Proof.
  induction v as [v IHv] using json_strong_ind.
  destruct v as [|b|n|s|l|m]; [done..| |].
  - simpl. f_equal. assert (forall x, x ∈ l -> of_tree (to_tree x) = x) as Hl.
    { intros x Hx. by apply IHv, json_size_array. }
    clear IHv. induction l as [|x l IH]; simpl; [done|].
    rewrite Hl by set_solver. rewrite IH by set_solver. done.
  - simpl. f_equal.
    set (pairs := fix pairs (l : list tree) : gmap string json :=
        match l with
        | GenLeaf (inr k) :: x :: r => <[k := of_tree x]> (pairs r)
        | _ => ∅
        end).
    assert (forall k x, m !! k = Some x -> of_tree (to_tree x) = x) as Hm.
    { intros k x Hk. by eapply IHv, json_size_object. }
    clear IHv. revert Hm.
    apply (map_fold_weak_ind (fun l m =>
      (forall k x, m !! k = Some x -> of_tree (to_tree x) = x) -> pairs l = m)); [done|].
    intros k x m' l Hk IH Hm. cbn [pairs].
    rewrite (Hm k x) by apply lookup_insert_eq.
    rewrite IH; [done|]. intros j y Hj. apply (Hm j).
    rewrite lookup_insert_ne; [done|]. intros ->. congruence.
Qed.

#[export] Instance json_number_eq_dec : EqDecision json_number.
Proof. solve_decision. Defined.
#[export] Instance json_number_countable : Countable json_number.
Proof.
  apply (inj_countable'
    (fun n => match n with
              | PosInt z => inl (inl z) | NegInt z => inl (inr z) | Float b => inr b
              end)
    (fun e => match e with
              | inl (inl z) => PosInt z | inl (inr z) => NegInt z | inr b => Float b
              end)).
  by intros [].
Defined.

(** A value becomes braces around the bits of its code. *)
Fixpoint bits (p : positive) : string :=
  match p with
  | xH => "}"
  | xO q => String "0"%char (bits q)
  | xI q => String "1"%char (bits q)
  end.

Fixpoint read_bits (s : string) : option positive :=
  match s with
  | String "}"%char EmptyString => Some xH
  | String "0"%char r => xO <$> read_bits r
  | String "1"%char r => xI <$> read_bits r
  | _ => None
  end.

Definition text (v : json) : string := String "{"%char (bits (encode (to_tree v))).
Fixpoint chomp (s : string) : string :=
  match s with
  | EmptyString => EmptyString
  | String a EmptyString => if Ascii.eqb a newline then EmptyString else s
  | String a r => String a (chomp r)
  end.
Definition read (s : string) : option json :=
  match chomp s with
  | String "{"%char r => p ← read_bits r; t ← decode p; Some (of_tree t)
  | _ => None
  end.

Lemma read_bits_bits p : read_bits (bits p) = Some p.
Proof. induction p as [p IH|p IH|]; simpl; [by rewrite IH..|done]. Qed.

Lemma chomp_none s : has_char newline s = false -> chomp s = s.
Proof.
  induction s as [|a s IH]; [done|]. cbn [has_char]. intros [Ha Hs]%orb_false_iff.
  cbn [chomp]. rewrite Ha. destruct s; [done|]. by rewrite (IH Hs).
Qed.

Lemma chomp_newline s : has_char newline s = false -> chomp (s +:+ nl) = s.
Proof.
  induction s as [|a s IH]; [done|]. cbn [has_char]. intros [Ha Hs]%orb_false_iff.
  change ((String a s +:+ nl)) with (String a (s +:+ nl)). cbn [chomp].
  rewrite (IH Hs). by destruct s.
Qed.

Lemma text_no_newline v : has_char newline (text v) = false.
Proof. unfold text. simpl. induction (encode (to_tree v)); done. Qed.

Lemma read_text v : read (text v) = Some v.
Proof.
  unfold read. rewrite chomp_none by apply text_no_newline.
  unfold text. rewrite read_bits_bits. simpl. rewrite decode_encode. simpl.
  by rewrite of_to_tree.
Qed.

Lemma bits_no_return p : has_char carriage_return (bits p) = false.
Proof. induction p; done. Qed.

Lemma has_char_take c n s : has_char c s = false -> has_char c (str_take n s) = false.
Proof.
  revert n. induction s as [|a s IH]; intros [|n]; simpl; [done..|].
  intros [-> Hs]%orb_false_iff. by apply IH.
Qed.

Lemma bits_utf8 p : utf8_valid (bits p) = true.
Proof. induction p; done. Qed.

Lemma read_bits_torn p n :
  n < String.length (bits p) -> read_bits (str_take n (bits p)) = None.
Proof.
  revert n. induction p as [p IH|p IH|]; intros [|n] Hn; simpl in *; try done.
  - rewrite IH by lia. done.
  - rewrite IH by lia. done.
  - lia.
Qed.

#[export] Instance sample_text : JsonText.
Proof.
  refine {| print := text; parse := read; parse_print := read_text |}.
  - intros v. apply text_no_newline.
  - intros v. apply bits_no_return.
  - intros s Hs. unfold read. by rewrite chomp_newline, chomp_none.
  - intros v. apply bits_utf8.
  - intros m n Hn. unfold read.
    rewrite chomp_none by apply has_char_take, text_no_newline.
    destruct n as [|n]; [done|]. simpl in *. rewrite read_bits_torn by lia. done.
Defined.

End SampleText.
