(* ===== verification/Message.v ===== *)
(** Transcript data types: [crates/protocol/src/message.rs], [turn.rs],
    [plan.rs], [slash_command.rs], the tool result types of [tool.rs] and the
    compaction payload of [capability.rs].  The token accounting and native
    assistant payload types belong to the rig-core crate: [RigTypes] names
    them and nothing here looks inside. *)

From S2P Require Import Prelude Scalar Json.
Open Scope string_scope.

(** Types owned by rig-core. *)
Class RigTypes := {
  Usage : Type;
  RigAssistantMessage : Type
}.

(** ** Identity and timing *)

Record MessageIdentity : Type := {
  message_id : MessageId;
  turn_id : TurnId
}.

Record MessageTiming : Type := {
  timestamp_ms : TimestampMs;
  started_at_ms : TimestampMs;
  ended_at_ms : TimestampMs
}.

Inductive MessageTimingError : Type :=
| EndBeforeStart (started ended : TimestampMs).

(** [TryFrom<(TimestampMs, TimestampMs, TimestampMs)> for MessageTiming] *)
Definition message_timing_try_from (timestamp started ended : TimestampMs)
  : result MessageTiming MessageTimingError :=
  if timestamp_lt ended started then Err (EndBeforeStart started ended)
  else Ok {| timestamp_ms := timestamp; started_at_ms := started; ended_at_ms := ended |}.

Inductive Role : Type := RoleSystem | RoleUser | RoleAssistant.

#[export] Instance role_eq_dec : EqDecision Role.
Proof. solve_decision. Defined.

Inductive StopReason : Type :=
| EndTurn | ToolUse | MaxTokens | Refusal | StopError | StopCancelled.

Inductive TurnOutcome : Type :=
| TurnCompleted (stop_reason : StopReason)
| TurnCancelled
| TurnFailed (message : string).

Record TurnIdentity : Type := {
  turn_run_id : RunId;
  turn_turn_id : TurnId
}.

Record TurnTiming : Type := {
  turn_started_at_ms : TimestampMs;
  turn_ended_at_ms : TimestampMs
}.

Record TurnRecord : Type := {
  turn_identity : TurnIdentity;
  turn_timing : TurnTiming;
  turn_outcome : TurnOutcome
}.

(** [AgentOutcome] of [event.rs] *)
Inductive AgentOutcome : Type :=
| Succeeded
| Cancelled
| Failed (message : string).

(** ** Plan mode and todo values *)

Inductive SessionMode : Type := ModeDefault | ModePlan.

#[export] Instance session_mode_eq_dec : EqDecision SessionMode.
Proof. solve_decision. Defined.

(** [#[serde(rename_all = "snake_case")]] *)
#[export] Instance to_value_mode : ToValue SessionMode := fun m =>
  JString (match m with ModeDefault => "default" | ModePlan => "plan" end).
#[export] Instance from_value_mode : FromValue SessionMode := fun v =>
  match v with
  | JString "default" => Ok ModeDefault
  | JString "plan" => Ok ModePlan
  | _ => Err (JsonError "unknown session mode")
  end.
#[export] Instance roundtrip_mode : Roundtrip SessionMode.
Proof. by intros []. Qed.

Record PlanApprovalRequest : Type := {
  request_id : string;
  request_tool_call_id : ToolCallId;
  plan : string
}.

Inductive PlanApprovalDecision : Type := Approve | KeepPlanning | DecisionCancelled.

Inductive TodoStatus : Type := Pending | InProgress | Completed.

Record TodoItem : Type := {
  todo_content : string;
  todo_status : TodoStatus;
  active_form : string
}.

(** ** Content blocks *)

(** [McpServerId] of [mcp/identity.rs]: non-blank, no [__], ASCII letters,
    digits, [-] and [_]. *)
Definition server_char (a : ascii) : bool :=
  let z := byte_of a in
  in_range z 48 57 || in_range z 65 90 || in_range z 97 122
  || (z =? 45)%Z || (z =? 95)%Z.
Fixpoint server_chars (s : string) : bool :=
  match s with EmptyString => true | String a r => server_char a && server_chars r end.
Fixpoint has_double_underscore (s : string) : bool :=
  match s with
  | String a ((String b _) as r) =>
      ((byte_of a =? 95) && (byte_of b =? 95))%Z || has_double_underscore r
  | _ => false
  end.
Definition server_id_ok (s : string) : bool :=
  negb (trim_is_empty s) && negb (has_double_underscore s) && server_chars s.

Record McpServerId : Type := MkServerId {
  server_id_str : string;
  server_id_valid : Is_true (server_id_ok server_id_str)
}.

Inductive EmbeddedResourceContent : Type :=
| ResourceText (text : string)
| ResourceBlob (data : string).

Inductive ContentBlock : Type :=
| Text (text : string)
| Reasoning (text : string)
| Image (data mime_type : string)
| Audio (data mime_type : string)
| EmbeddedResource (uri : string) (mime_type : option string)
    (content : EmbeddedResourceContent)
| ResourceLink (server_id : option McpServerId) (uri name : string)
    (title description mime_type : option string) (size : option Z)
| Structured (value : json)
| ToolCallBlock (tool_call_id : ToolCallId) (name : string) (arguments : json)
    (invalid_arguments : option string).

(** [ContentBlock::text] *)
Definition block_text (b : ContentBlock) : option string :=
  match b with
  | Text text => Some text
  | Reasoning _ | Image _ _ | Audio _ _ | EmbeddedResource _ _ _
  | ResourceLink _ _ _ _ _ _ _ | Structured _ | ToolCallBlock _ _ _ _ => None
  end.

(** ** Tool results *)

Inductive TruncationLimit : Type := LimitLines | LimitBytes.

Record TruncationDetails : Type := {
  td_content : string;
  truncated : bool;
  truncated_by : option TruncationLimit;
  total_lines : Z;
  total_bytes : Z;
  output_lines : Z;
  output_bytes : Z;
  last_line_partial : bool;
  first_line_exceeds_limit : bool;
  max_lines : Z;
  max_bytes : Z
}.

Inductive ToolResultDetails : Type :=
| PlanApproval (approved : bool) (plan : option string)
| TodoList (todos : list TodoItem)
| Subagent (session_id : SessionId)
| ReadDetails (truncation : TruncationDetails)
| BashDetails (truncation : option TruncationDetails) (full_output_path : option string)
    (exit_code : option Z) (signal : option string)
| Blocked (reason : string) (terminate : bool)
| EditDetails (path diff patch : string) (first_changed_line : option Z).

Inductive ToolOutputSaveFailure : Type := SaveIo | SaveTooLarge | SaveCancelled.

Record ToolOutputInfo : Type := {
  original_text_bytes : Z;
  visible_text_bytes : Z;
  omitted_media : Z;
  output_full_path : option string;
  save_failure : option ToolOutputSaveFailure
}.

(** ** Slash commands *)

Inductive SlashCommandSource : Type := Builtin | ExtensionCommand | SkillCommand | PromptTemplate.

Record SlashCommandInvocation : Type := {
  original : string;
  invocation_name : string;
  invocation_arguments : string
}.

Record SlashCommandExpansion : Type := {
  invocation : SlashCommandInvocation;
  expansion_source : SlashCommandSource;
  model_blocks : list ContentBlock
}.

Inductive SlashCommandStatus : Type := StatusSucceeded | StatusFailed | StatusCancelled.

Record SlashCommandOutput : Type := {
  command : string;
  output_source : SlashCommandSource;
  output_status : SlashCommandStatus;
  output_blocks : list ContentBlock
}.

Inductive SlashCommandMessage : Type :=
| Invocation (invocation : SlashCommandInvocation) (source : SlashCommandSource)
| Output (output : SlashCommandOutput).

(** ** User shell results ([extension/result.rs]) *)

Inductive UserBashDisposition : Type :=
| BashCompleted
| BashBlocked (reason : string).

Record UserBashResult : Type := {
  disposition : UserBashDisposition;
  bash_output : string;
  bash_exit_code : option Z;
  bash_signal : option string;
  bash_cancelled : bool;
  bash_truncated : bool;
  bash_full_output_path : option string
}.

Record BashExecutionMessage : Type := {
  bash_command : string;
  bash_result : UserBashResult;
  exclude_from_context : bool;
  bash_cwd : option string
}.

(** ** Messages *)

Record ExtensionMessage : Type := {
  extension_id : ExtensionId;
  custom_type : string;
  ext_blocks : list ContentBlock;
  display : bool;
  include_in_context : bool;
  ext_details : option json
}.

Record CompactionSummaryMessage : Type := {
  summary_entry_id : EntryId;
  summary_text : string;
  summary_tokens_before : Z;
  summary_read_files : list string;
  summary_modified_files : list string
}.

Section Messages.
Context {R : RigTypes}.

(** [ModelUsage(Usage)] of [usage.rs] *)
Record ModelUsage : Type := { usage_inner : Usage }.

Record AssistantMetadata : Type := {
  provider_id : string;
  model_id : string;
  stop_reason : StopReason;
  raw_stop_reason : option string;
  metadata_usage : ModelUsage;
  metadata_error : option string;
  context_overflow : bool
}.

Inductive MessageContent : Type :=
| System (blocks : list ContentBlock)
| User (blocks : list ContentBlock)
| ExpandedUser (expansion : SlashCommandExpansion)
| Assistant (blocks : list ContentBlock) (metadata : AssistantMetadata)
    (model_message : option RigAssistantMessage)
| ToolResult (tool_call_id : ToolCallId) (blocks : list ContentBlock)
    (is_error : bool) (details : option ToolResultDetails)
    (output : option ToolOutputInfo) (cancelled : bool)
| BashExecution (bash : BashExecutionMessage)
| Extension (extension : ExtensionMessage)
| SlashCommand (message : SlashCommandMessage)
| CompactionSummary (compaction : CompactionSummaryMessage).

Record AgentMessage : Type := {
  identity : MessageIdentity;
  timing : MessageTiming;
  content : MessageContent
}.

(** ** Projections of message content *)

(** [MessageContent::role] *)
Definition role (c : MessageContent) : option Role :=
  match c with
  | System _ => Some RoleSystem
  | User _ | ExpandedUser _ => Some RoleUser
  | Assistant _ _ _ => Some RoleAssistant
  | ToolResult _ _ _ _ _ _ | BashExecution _ | Extension _ | SlashCommand _
  | CompactionSummary _ => None
  end.

(** [std::mem::discriminant] *)
Definition discriminant (c : MessageContent) : nat :=
  match c with
  | System _ => 0
  | User _ => 1
  | ExpandedUser _ => 2
  | Assistant _ _ _ => 3
  | ToolResult _ _ _ _ _ _ => 4
  | BashExecution _ => 5
  | Extension _ => 6
  | SlashCommand _ => 7
  | CompactionSummary _ => 8
  end.

(** [MessageContent::same_role] *)
Definition same_role (c d : MessageContent) : bool :=
  match role c, role d with
  | Some r, Some r' => bool_decide (r = r')
  | _, _ => Nat.eqb (discriminant c) (discriminant d)
  end.

Definition text_blocks (blocks : list ContentBlock) : string :=
  join "" (omap block_text blocks).

Definition non_empty (s : string) : option string :=
  if String.eqb s "" then None else Some s.

(** [SlashCommandMessage::text_content] *)
Definition slash_text_content (m : SlashCommandMessage) : option string :=
  match m with
  | Invocation invocation _ => Some (original invocation)
  | Output output => non_empty (text_blocks (output_blocks output))
  end.

(** [i32]'s [Display] *)
Definition i32_to_string (z : Z) : string :=
  if (z <? 0)%Z then "-" +:+ u64_to_string (- z) else u64_to_string z.


(** [BashExecutionMessage::model_text] *)
Definition bash_model_text (b : BashExecutionMessage) : string :=
  let r := bash_result b in
  "Ran `" +:+ bash_command b +:+ "`" +:+ nl
  +:+ (if String.eqb (bash_output r) "" then "(no output)"
       else "```" +:+ nl +:+ bash_output r +:+ nl +:+ "```")
  +:+ (if bash_cancelled r then nl +:+ nl +:+ "(command cancelled)"
       else match bash_exit_code r with
            | Some code => if (code =? 0)%Z then ""
                           else nl +:+ nl +:+ "Command exited with code " +:+ i32_to_string code
            | None => ""
            end)
  +:+ (match bash_truncated r, bash_full_output_path r with
       | true, Some path => nl +:+ nl +:+ "[Output truncated. Full output: " +:+ path +:+ "]"
       | _, _ => ""
       end).

(** [CompactionSummaryMessage::model_text] *)
Definition compaction_model_text (c : CompactionSummaryMessage) : string :=
  "The conversation history before this point was compacted from "
  +:+ u64_to_string (summary_tokens_before c)
  +:+ " tokens into the following summary:" +:+ nl +:+ nl +:+ "<summary>" +:+ nl
  +:+ summary_text c +:+ nl +:+ "</summary>".

(** [MessageContent::text_content] *)
Definition text_content (c : MessageContent) : option string :=
  match c with
  | System blocks | User blocks | Assistant blocks _ _
  | ToolResult _ blocks _ _ _ _ => non_empty (text_blocks blocks)
  | ExpandedUser expansion => non_empty (text_blocks (model_blocks expansion))
  | BashExecution bash => Some (bash_model_text bash)
  | Extension _ => None
  | SlashCommand message => slash_text_content message
  | CompactionSummary compaction => Some (summary_text compaction)
  end.

Definition is_assistant (c : MessageContent) : bool :=
  match c with Assistant _ _ _ => true | _ => false end.
Definition is_tool_result (c : MessageContent) : bool :=
  match c with ToolResult _ _ _ _ _ _ => true | _ => false end.

(** ** Compaction payloads ([capability.rs]) *)

Inductive CompactionReason : Type := Manual | Threshold | Overflow.

Record CompactionDetails : Type := {
  reason : CompactionReason;
  details_run_id : RunId;
  details_turn_id : TurnId;
  details_started_at_ms : TimestampMs;
  details_ended_at_ms : TimestampMs;
  read_files : list string;
  modified_files : list string
}.

Record CompactionData : Type := {
  summary : string;
  retained_tail : list AgentMessage;
  tokens_before : Z;
  compaction_usage : option ModelUsage;
  details : option CompactionDetails
}.

Record CompactionResult : Type := {
  result_entry_id : EntryId;
  result_turn_id : TurnId;
  result_summary : string;
  result_tokens_before : Z;
  result_usage : option ModelUsage;
  result_started_at_ms : TimestampMs;
  result_ended_at_ms : TimestampMs
}.

(** One item of [SessionReplayItem] ([session.rs]). *)
Inductive SessionReplayItem : Type :=
| ReplayMessage (message : AgentMessage) (context_window : option Z)
| ReplayTurn (turn : TurnRecord)
| ReplayRunEnd (run_id : RunId) (turn_id : TurnId) (outcome : AgentOutcome)
    (ended_at_ms : TimestampMs)
| ReplayCompaction (run_id : RunId) (reason : CompactionReason)
    (result : CompactionResult).

End Messages.

Arguments MessageContent R : clear implicits.
Arguments AgentMessage R : clear implicits.
Arguments CompactionData R : clear implicits.
Arguments CompactionResult R : clear implicits.
Arguments ModelUsage R : clear implicits.
Arguments SessionReplayItem R : clear implicits.

(** ** Serialised form *)

(** The encoding of message content, with the values it is known to preserve:
    content holding rig-core values is only as stable as rig-core's own
    encoding, so [content_ok] marks the contents the codec promises to read
    back.  [usage_ok] does the same for a compaction's usage. *)
Class ContentCodec (R : RigTypes) := {
  content_to_value : MessageContent R -> option json;
  content_from_value : json -> result (MessageContent R) json_error;
  content_ok : MessageContent R -> Prop;
  content_encodes : forall c, content_ok c -> exists v,
    content_to_value c = Some v /\ content_from_value v = Ok c;
  usage_to_value :: ToValue (ModelUsage R);
  usage_from_value :: FromValue (ModelUsage R);
  usage_ok : ModelUsage R -> Prop;
  usage_encodes : forall u, usage_ok u ->
    to_value u <> JNull /\ from_value (to_value u) = Ok u
}.

Section Codec.
Context {R : RigTypes} {CC : ContentCodec R}.
Open Scope rust_scope.

(** [serde_json::to_value] of an [AgentMessage]: the identity and timing are
    flattened beside [content]. *)
Definition message_object (m : AgentMessage R) : option (gmap string json) :=
  match content_to_value (content m) with
  | Some c => Some
      (<["message_id" := to_value (message_id (identity m))]>
       (<["turn_id" := to_value (turn_id (identity m))]>
       (<["timestamp_ms" := to_value (timestamp_ms (timing m))]>
       (<["started_at_ms" := to_value (started_at_ms (timing m))]>
       (<["ended_at_ms" := to_value (ended_at_ms (timing m))]>
       {[ "content" := c ]})))))
  | None => None
  end.

Definition message_to_value (m : AgentMessage R) : result json json_error :=
  match message_object m with
  | Some o => Ok (JObject o)
  | None => Err (JsonError "content cannot be serialised")
  end.

(** [serde_json::from_value::<AgentMessage>] *)
#[export] Instance message_from_value : FromValue (AgentMessage R) := fun v =>
  let? o := as_object v in
  let? mid := field "message_id" o in
  let? tid := field "turn_id" o in
  let? ts := field "timestamp_ms" o in
  let? st := field "started_at_ms" o in
  let? en := field "ended_at_ms" o in
  let? c := match o !! "content" with
            | Some c => content_from_value c
            | None => Err (JsonError "missing field content")
            end in
  Ok {| identity := {| message_id := mid; turn_id := tid |};
        timing := {| timestamp_ms := ts; started_at_ms := st; ended_at_ms := en |};
        content := c |}.

Definition message_ok (m : AgentMessage R) : Prop := content_ok (content m).

Lemma message_roundtrip m :
  message_ok m -> exists o,
    message_object m = Some o /\ message_to_value m = Ok (JObject o) /\
    from_value (JObject o) = Ok m.
Proof.
  intros Hm. destruct (content_encodes _ Hm) as (c & Hc & Hd).
  unfold message_to_value, message_object. rewrite Hc. eexists. do 2 (split; [done|]).
  unfold from_value, message_from_value, field. cbn [as_object result_bind].
  simplify_map_eq. rewrite !from_to_value. simpl. rewrite Hd. simpl.
  by destruct m as [[] [] ?].
Qed.

(** [decimal_u64]: token counts travel as exact decimal strings. *)
Definition decimal_to_value (z : Z) : json := JString (u64_to_string z).
Definition decimal_from_value (v : json) : result Z json_error :=
  match v with
  | JString s => ok_or (parse_decimal_u64 s)
                   (JsonError "token count must be an unsigned decimal string")
  | _ => Err (JsonError "expected a string")
  end.

#[export] Instance reason_to_value : ToValue CompactionReason := fun r =>
  JString (match r with Manual => "manual" | Threshold => "threshold" | Overflow => "overflow" end).
#[export] Instance reason_from_value : FromValue CompactionReason := fun v =>
  match v with
  | JString "manual" => Ok Manual
  | JString "threshold" => Ok Threshold
  | JString "overflow" => Ok Overflow
  | _ => Err (JsonError "unknown compaction reason")
  end.

#[export] Instance details_to_value : ToValue CompactionDetails := fun d =>
  JObject (<["reason" := to_value (reason d)]>
          (<["runId" := to_value (details_run_id d)]>
          (<["turnId" := to_value (details_turn_id d)]>
          (<["startedAtMs" := to_value (details_started_at_ms d)]>
          (<["endedAtMs" := to_value (details_ended_at_ms d)]>
          (<["readFiles" := to_value (read_files d)]>
          {[ "modifiedFiles" := to_value (modified_files d) ]})))))).

#[export] Instance details_from_value : FromValue CompactionDetails := fun v =>
  let? o := as_object v in
  let? reason := field "reason" o in
  let? run_id := field "runId" o in
  let? turn_id := field "turnId" o in
  let? st := field "startedAtMs" o in
  let? en := field "endedAtMs" o in
  let? rf := default_field [] "readFiles" o in
  let? mf := default_field [] "modifiedFiles" o in
  Ok {| reason := reason; details_run_id := run_id; details_turn_id := turn_id;
        details_started_at_ms := st; details_ended_at_ms := en;
        read_files := rf; modified_files := mf |}.

#[export] Instance roundtrip_reason : Roundtrip CompactionReason.
Proof. by intros []. Qed.

#[export] Instance roundtrip_details : Roundtrip CompactionDetails.
Proof.
  intros d. unfold from_value, to_value, details_from_value, details_to_value,
    field, default_field. cbn [as_object result_bind].
  simplify_map_eq. rewrite ?from_to_value. simpl. rewrite ?from_to_value. simpl.
  by destruct d.
Qed.

(** [serde_json::to_value] of a [CompactionData]. *)
Definition compaction_object (d : CompactionData R)
  : result (gmap string json) json_error :=
  let? tail := collect_results (map message_to_value (retained_tail d)) in
  Ok (<["summary" := to_value (summary d)]>
     (<["retainedTail" := JArray tail]>
     (<["tokensBefore" := decimal_to_value (tokens_before d)]>
     (skip_none "usage" (compaction_usage d) ∪ skip_none "details" (details d))))).

#[export] Instance compaction_from_value : FromValue (CompactionData R) := fun v =>
  let? o := as_object v in
  let? summary := field "summary" o in
  let? tail := field "retainedTail" o in
  let? tokens := match o !! "tokensBefore" with
                 | Some t => decimal_from_value t
                 | None => Err (JsonError "missing field tokensBefore")
                 end in
  let? usage := opt_field "usage" o in
  let? details := opt_field "details" o in
  Ok {| summary := summary; retained_tail := tail; tokens_before := tokens;
        compaction_usage := usage; details := details |}.

Definition compaction_ok (d : CompactionData R) : Prop :=
  Forall message_ok (retained_tail d) /\ in_u64 (tokens_before d) = true /\ 
  from_option usage_ok True (compaction_usage d).

Lemma messages_roundtrip l :
  Forall message_ok l -> exists vs,
    collect_results (map message_to_value l) = Ok vs /\
    from_value (T := list (AgentMessage R)) (JArray vs) = Ok l.
Proof.
  induction 1 as [|m l Hm _ (vs & Hvs & Hl)]; [by exists []|].
  destruct (message_roundtrip m Hm) as (o & _ & Ho & Hd).
  exists (JObject o :: vs). simpl. rewrite Ho, Hvs. split; [done|].
  by rewrite from_value_cons, Hd, Hl.
Qed.

Lemma compaction_roundtrip d :
  compaction_ok d -> exists o,
    compaction_object d = Ok o /\ from_value (JObject o) = Ok d.
Proof.
  intros (Htail & Htok & Husage).
  destruct (messages_roundtrip _ Htail) as (vs & Hvs & Hl).
  unfold compaction_object. rewrite Hvs. eexists. split; [done|].
  unfold from_value, compaction_from_value, field, opt_field.
  cbn [as_object result_bind]. simplify_map_eq.
  change (from_value (to_value (summary d))) with (Ok (E := json_error) (summary d)).
  cbn [result_bind]. rewrite Hl. cbn [result_bind].
  simpl. rewrite parse_decimal_u64_to_string by done. simpl.
  rewrite !lookup_union.
  unfold skip_none. destruct d as [su tl tok us de]; simpl in *.
  destruct us as [u|], de as [x|]; simplify_map_eq;
    try (destruct (usage_encodes u Husage) as [Hn Hu];
         rewrite from_value_option_not_null, Hu by done); simpl; try done;
    rewrite from_value_option_not_null by done;
    rewrite roundtrip_details; done.
Qed.

End Codec.
