(* ===== verification/StoreModel.v ===== *)
(** Persisted session data and the store interface:
    [crates/store/src/model.rs] and [SessionOwnership] of
    [crates/protocol/src/session.rs].  [SessionStore] is the trait the kernel
    programs against; [SessionStoreLaws] states what its clients rely on. *)

From S2P Require Import Prelude Scalar Json.
Open Scope string_scope.
Open Scope rust_scope.

(** [serde_json::Map<String, Value>] *)
Abbreviation json_map := (gmap string json).

Inductive EntryKind : Type :=
| KindMessage | KindModelChange | KindThinkingLevelChange | KindActiveToolsChange
| KindCompaction | KindBranchSummary | KindCustom.

#[export] Instance entry_kind_eq_dec : EqDecision EntryKind.
Proof. solve_decision. Defined.

(** [EntryKind::as_str] *)
Definition entry_kind_as_str (k : EntryKind) : string :=
  match k with
  | KindMessage => "message"
  | KindModelChange => "model_change"
  | KindThinkingLevelChange => "thinking_level_change"
  | KindActiveToolsChange => "active_tools_change"
  | KindCompaction => "compaction"
  | KindBranchSummary => "branch_summary"
  | KindCustom => "custom"
  end.

#[export] Instance to_value_entry_kind : ToValue EntryKind :=
  fun k => JString (entry_kind_as_str k).
#[export] Instance from_value_entry_kind : FromValue EntryKind := fun v =>
  match v with
  | JString "message" => Ok KindMessage
  | JString "model_change" => Ok KindModelChange
  | JString "thinking_level_change" => Ok KindThinkingLevelChange
  | JString "active_tools_change" => Ok KindActiveToolsChange
  | JString "compaction" => Ok KindCompaction
  | JString "branch_summary" => Ok KindBranchSummary
  | JString "custom" => Ok KindCustom
  | _ => Err (JsonError "unknown entry kind")
  end.
#[export] Instance roundtrip_entry_kind : Roundtrip EntryKind.
Proof. by intros []. Qed.

Inductive RecordKind : Type :=
| OperationStarted | AbortRequested | OperationFinished | StepAttempt | ToolStarted
| QueueEnqueued | QueueCancelled | WriteDeferred | RecordUsage.

#[export] Instance record_kind_eq_dec : EqDecision RecordKind.
Proof. solve_decision. Defined.

#[export] Instance to_value_record_kind : ToValue RecordKind := fun k =>
  JString (match k with
           | OperationStarted => "operation_started"
           | AbortRequested => "abort_requested"
           | OperationFinished => "operation_finished"
           | StepAttempt => "step_attempt"
           | ToolStarted => "tool_started"
           | QueueEnqueued => "queue_enqueued"
           | QueueCancelled => "queue_cancelled"
           | WriteDeferred => "write_deferred"
           | RecordUsage => "usage"
           end).
#[export] Instance from_value_record_kind : FromValue RecordKind := fun v =>
  match v with
  | JString "operation_started" => Ok OperationStarted
  | JString "abort_requested" => Ok AbortRequested
  | JString "operation_finished" => Ok OperationFinished
  | JString "step_attempt" => Ok StepAttempt
  | JString "tool_started" => Ok ToolStarted
  | JString "queue_enqueued" => Ok QueueEnqueued
  | JString "queue_cancelled" => Ok QueueCancelled
  | JString "write_deferred" => Ok WriteDeferred
  | JString "usage" => Ok RecordUsage
  | _ => Err (JsonError "unknown record kind")
  end.
#[export] Instance roundtrip_record_kind : Roundtrip RecordKind.
Proof. by intros []. Qed.

Record NewEntry : Type := {
  new_entry_id : EntryId;
  new_entry_kind : EntryKind;
  new_entry_payload : json
}.

Record NewRecord : Type := {
  new_record_id : RecordId;
  new_record_lane : LaneId;
  new_record_run_id : option RunId;
  new_record_kind : RecordKind;
  new_record_payload : json
}.

Record SessionEntry : Type := {
  entry_id : EntryId;
  entry_sequence : Sequence;
  parent_id : option EntryId;
  entry_timestamp_ms : TimestampMs;
  entry_kind : EntryKind;
  entry_payload : json_map
}.

Record SessionRecord : Type := {
  record_id : RecordId;
  record_sequence : Sequence;
  record_lane : LaneId;
  record_timestamp_ms : TimestampMs;
  record_run_id : option RunId;
  record_kind : RecordKind;
  record_payload : json_map
}.

(** [SessionOwnership] of [protocol/src/session.rs] *)
Inductive SessionOwnership : Type :=
| OwnedByTool (session_id : SessionId) (tool_call_id : ToolCallId)
| OwnedBackground (session_id : SessionId) (name : string).

(** [SessionOwnership::owner] *)
Definition owner (o : SessionOwnership) : SessionId :=
  match o with OwnedByTool s _ | OwnedBackground s _ => s end.

Record SessionCreateOptions : Type := {
  create_session_id : SessionId;
  create_cwd : string;
  create_parent_session_id : option SessionId
}.

Record SessionForkOptions : Type := {
  fork_create : SessionCreateOptions;
  source_leaf : EntryId;
  fork_lane : LaneId
}.

Record SessionHeader : Type := {
  header_id : SessionId;
  header_cwd : string;
  header_ownership : option SessionOwnership;
  header_path : string
}.

Record SessionMetadata : Type := {
  metadata_id : SessionId;
  created_at_ms : TimestampMs;
  metadata_cwd : string;
  metadata_parent_session_id : option SessionId;
  metadata_path : string;
  modified_at_ms : TimestampMs;
  metadata_name : option string;
  metadata_ownership : option SessionOwnership
}.

(** [From<SessionMetadata> for SessionHeader] *)
Definition session_header_from (m : SessionMetadata) : SessionHeader :=
  {| header_id := metadata_id m; header_cwd := metadata_cwd m;
     header_ownership := metadata_ownership m; header_path := metadata_path m |}.

(** [StoreError]; [Io] and [Json] wrap library errors whose text is opaque. *)
Inductive StoreError : Type :=
| Unsupported (operation : string)
| Io
| Json (error : json_error)
| InvalidLane (lane : string)
| DuplicateEntry (id : EntryId)
| InvalidEntryPayload
| SequenceExhausted
| InvalidSession (message : string)
| EntryNotFound (id : EntryId).

(** ** The [SessionStore] trait.  [&mut self] methods are state actions, so the
    state a failing call leaves behind is explicit. *)
Class SessionStore (S : Type) := {
  store_session_id : S -> SessionId;
  store_path : S -> string;
  create_lane : LaneId -> option EntryId -> M S StoreError unit;
  move_lane : LaneId -> option EntryId -> M S StoreError unit;
  append_entry : LaneId -> NewEntry -> M S StoreError SessionEntry;
  lane : S -> LaneId -> option EntryId;
  get_entry : S -> EntryId -> option SessionEntry;
  entries : S -> list SessionEntry;
  branch : S -> EntryId -> result (list SessionEntry) StoreError;
  append_record : NewRecord -> M S StoreError SessionRecord;
  sync : M S StoreError unit;
  records : S -> list SessionRecord;
  last_sequence : S -> Z;
  set_name : option string -> M S StoreError unit;
  name : S -> option string;
  was_named : S -> bool;
  set_label : EntryId -> option string -> M S StoreError unit;
  label : S -> EntryId -> option string
}.

(** [append_extension_entry]: the trait's provided method. *)
Definition append_extension_entry {S} `{SessionStore S} (l : LaneId) (id : EntryId)
  (ext_id : ExtensionId) (custom_type : string) (data : json)
  : M S StoreError SessionEntry :=
  append_entry l
    {| new_entry_id := id; new_entry_kind := KindCustom;
       new_entry_payload := JObject
         (<["extensionId" := to_value ext_id]>
         (<["customType" := JString custom_type]> {[ "data" := data ]})) |}.

(** The branch a lane currently ends in ([lane] then [branch]). *)
Definition lane_branch {S} `{SessionStore S} (s : S) (l : LaneId)
  : result (list SessionEntry) StoreError :=
  match lane s l with
  | Some leaf => branch s leaf
  | None => Ok []
  end.

(** The names a stored entry gives its own fields: a payload key among them
    would be written over the entry's field. *)
Definition entry_fields : list string :=
  ["kind"; "lane"; "id"; "seq"; "parentId"; "timestamp"; "type"].
Definition record_fields : list string :=
  ["kind"; "lane"; "id"; "seq"; "timestamp"; "runId"; "type"].

Definition disjoint_keys (keys : list string) (m : json_map) : Prop :=
  Forall (fun k => m !! k = None) keys.

(** Two stores that show every client the same tree. *)
Definition same_tree {S} `{SessionStore S} (s s' : S) : Prop :=
  (forall l, lane s' l = lane s l) /\
  (forall e, branch s' e = branch s e) /\
  (forall e, get_entry s' e = get_entry s e).

#[export] Instance same_tree_equivalence {S} `{SessionStore S} : Equivalence same_tree.
Proof.
  split.
  - intros s. repeat split.
  - intros s s' (Hl & Hb & Hg). repeat split; intros; by rewrite ?Hl, ?Hb, ?Hg.
  - intros s1 s2 s3 (Hl & Hb & Hg) (Hl' & Hb' & Hg').
    repeat split; intros; by rewrite ?Hl', ?Hb', ?Hg', ?Hl, ?Hb, ?Hg.
Qed.

#[export] Instance lane_branch_proper {S} `{SessionStore S} :
  Proper (same_tree ==> eq ==> eq) lane_branch.
Proof.
  intros s s' (Hl & Hb & _) l ? <-. unfold lane_branch. rewrite Hl.
  by destruct (lane s l); rewrite ?Hb.
Qed.

(** What the kernel relies on: a store that is well formed stays so, a failing
    call shows no change to the tree, and a successful one changes exactly the
    named lane. *)
Class SessionStoreLaws (S : Type) `{SessionStore S} := {
  store_wf : S -> Prop;
  lane_branch_ok : forall s l leaf,
    store_wf s -> lane s l = Some leaf -> is_ok (branch s leaf) = true;
  append_entry_wf : forall s l e, store_wf s -> store_wf (append_entry l e s).2;
  append_entry_fails : forall s l e err s',
    store_wf s -> append_entry l e s = (Err err, s') -> same_tree s s';
  append_entry_grows : forall s l e payload x s' b,
    store_wf s ->
    new_entry_payload e = JObject payload -> disjoint_keys entry_fields payload ->
    lane_branch s l = Ok b ->
    append_entry l e s = (Ok x, s') ->
    entry_id x = new_entry_id e /\ entry_kind x = new_entry_kind e /\
    entry_payload x = payload /\
    lane s' l = Some (entry_id x) /\
    lane_branch s' l = Ok (b ++ [x])%list /\
    (forall l', l' <> l -> lane s' l' = lane s l') /\
    (forall leaf b', branch s leaf = Ok b' -> branch s' leaf = Ok b') /\
    (forall i, get_entry s' i = if decide (i = entry_id x) then Some x else get_entry s i);
  append_entry_fresh : forall s l e x s',
    append_entry l e s = (Ok x, s') -> get_entry s (new_entry_id e) = None;
  append_entry_records : forall s l e payload,
    new_entry_payload e = JObject payload -> disjoint_keys entry_fields payload ->
    records (append_entry l e s).2 = records s;
  move_lane_wf : forall s l to, store_wf s -> store_wf (move_lane l to s).2;
  move_lane_fails : forall s l to err s',
    move_lane l to s = (Err err, s') -> same_tree s s';
  move_lane_moves : forall s l to s',
    move_lane l to s = (Ok tt, s') ->
    lane s' l = to /\
    (forall l', l' <> l -> lane s' l' = lane s l') /\
    (forall leaf, branch s' leaf = branch s leaf) /\
    (forall e, get_entry s' e = get_entry s e);
  append_record_wf : forall s r, store_wf s -> store_wf (append_record r s).2;
  append_record_fails : forall s r err s',
    append_record r s = (Err err, s') -> same_tree s s' /\ records s' = records s;
  append_record_adds : forall s r payload x s',
    new_record_payload r = JObject payload -> disjoint_keys record_fields payload ->
    append_record r s = (Ok x, s') ->
    same_tree s s' /\ records s' = (records s ++ [x])%list /\
    record_id x = new_record_id r /\ record_kind x = new_record_kind r /\
    record_lane x = new_record_lane r /\ record_payload x = payload;
  sync_wf : forall s, store_wf s -> store_wf (sync s).2;
  sync_tree : forall s, same_tree s (sync s).2;
  sync_records : forall s, records (sync s).2 = records s;
  set_name_wf : forall s n, store_wf s -> store_wf (set_name n s).2;
  set_name_tree : forall s n, same_tree s (set_name n s).2;
  set_name_records : forall s n, records (set_name n s).2 = records s;
  set_name_sets : forall s n s',
    set_name n s = (Ok tt, s') -> name s' = n /\ was_named s' = true;
  set_name_fails : forall s n err s',
    set_name n s = (Err err, s') -> name s' = name s /\ was_named s' = was_named s;
  set_label_wf : forall s i n, store_wf s -> store_wf (set_label i n s).2;
  set_label_tree : forall s i n, same_tree s (set_label i n s).2
}.

(** What appending an entry does to the entries by identifier. *)
Lemma appended_entry {S} `{SessionStoreLaws S} (s s' : S) l e o x :
  store_wf s -> new_entry_payload e = JObject o -> disjoint_keys entry_fields o ->
  append_entry l e s = (Ok x, s') ->
  entry_id x = new_entry_id e /\ entry_kind x = new_entry_kind e /\ entry_payload x = o /\
  get_entry s' (entry_id x) = Some x /\
  (forall i y, get_entry s i = Some y -> get_entry s' i = Some y) /\
  (forall i, i <> entry_id x -> get_entry s' i = get_entry s i).
Proof.
  intros Hwf Hp Hd Ha.
  assert (exists b, lane_branch s l = Ok b) as [b Hb].
  { unfold lane_branch. destruct (lane _ _) as [leaf|] eqn:Hleaf; [|by eexists].
    pose proof (lane_branch_ok _ _ _ Hwf Hleaf) as Hbok.
    destruct (branch _ leaf) as [b|]; [by exists b|done]. }
  destruct (append_entry_grows _ _ e o _ _ _ Hwf Hp Hd Hb Ha)
    as (Hid & Hk & Hpay & _ & _ & _ & _ & Hget).
  pose proof (append_entry_fresh _ _ _ _ _ Ha) as Hfresh.
  repeat split; try done.
  - by rewrite Hget, decide_True.
  - intros i y Hi. rewrite Hget, decide_False; [done|]. intros ->. congruence.
  - intros i Hi. by rewrite Hget, decide_False.
Qed.
