(* ===== verification/ToolContract.v ===== *)
(** What tools are to the kernel: calls, results, metadata, errors, and the
    registry that names them.
    [crates/tools/src/contract.rs], [crates/protocol/src/tool.rs]

    A registry is a map; [BTreeMap]'s order is the sorted order of its names. *)

From S2P Require Import Prelude Scalar Json Message.
From stdpp Require Import sorting.
Open Scope string_scope.
Open Scope rust_scope.

Inductive ToolError : Type :=
| ToolCancelled
| ToolNotFound (name : string)
| ToolInvalidArguments (tool message : string)
| ToolDuplicate (name : string)
| ToolReservedName (name : string)
| ToolRegistryPoisoned
| ToolExecution (tool message : string).

Record ToolCall : Type := {
  call_id : ToolCallId;
  call_name : string;
  call_arguments : json;
  invalid_arguments : option string
}.

(** [ToolResult] *)
Record ToolResultData : Type := {
  result_call_id : ToolCallId;
  result_blocks : list ContentBlock;
  result_is_error : bool;
  result_details : option ToolResultDetails;
  result_output : option ToolOutputInfo;
  result_cancelled : bool
}.

(** A result of its builder: no output information, not cancelled. *)
Definition text_result (id : ToolCallId) (text : string) (is_error : bool)
  (details : option ToolResultDetails) : ToolResultData :=
  {| result_call_id := id; result_blocks := [Text text]; result_is_error := is_error;
     result_details := details; result_output := None; result_cancelled := false |}.

Record ToolLocation : Type := { location_path : string; location_line : option Z }.

(** ** Metadata *)

Inductive ToolExposure : Type := Direct | Deferred | Hidden.
#[export] Instance tool_exposure_eq_dec : EqDecision ToolExposure.
Proof. solve_decision. Defined.

Inductive McpResourcePageKind : Type := Resources | Templates.
Definition array_key (k : McpResourcePageKind) : string :=
  match k with Resources => "resources" | Templates => "resourceTemplates" end.

Inductive ToolOutputPolicy : Type :=
| Preserve
| Bounded
| ResourcePage (kind : McpResourcePageKind).

(** [McpToolRef]: the server, and the name the server gave the tool. *)
Record McpToolRef : Type := { ref_server_id : string; ref_remote_name : string }.

Record ToolDefinition : Type := {
  definition_name : string;
  definition_description : string;
  definition_parameters : json
}.

(** What the kernel asks of a tool; running it is the tool's own work. *)
Record AgentTool : Type := {
  tool_definition : ToolDefinition;
  tool_exposure : ToolExposure;
  tool_read_only_hint : option bool;
  tool_output_policy : ToolOutputPolicy;
  tool_mcp_ref : option McpToolRef;
  tool_validate : ToolCall -> result unit ToolError
}.

(** ** The registry *)

Abbreviation ToolRegistry := (gmap string AgentTool).

Definition name_le (a b : string) : Prop := String.leb a b = true.
#[export] Instance name_le_dec : RelDecision name_le.
Proof. intros a b. unfold name_le. apply _. Defined.

Definition tool_name (t : AgentTool) : string := definition_name (tool_definition t).

(** [ToolRegistry::register] *)
Definition registry_register (t : AgentTool) (r : ToolRegistry) : result ToolRegistry ToolError :=
  match r !! tool_name t with
  | Some _ => Err (ToolDuplicate (tool_name t))
  | None => Ok (<[tool_name t := t]> r)
  end.

(** [ToolRegistry::upsert] *)
Definition registry_upsert (t : AgentTool) (r : ToolRegistry) : ToolRegistry :=
  <[tool_name t := t]> r.

(** [ToolRegistry::merge]: what came before a duplicate stays merged. *)
Fixpoint registry_merge_from (other : ToolRegistry) (names : list string)
  : M ToolRegistry ToolError unit := fun r =>
  match names with
  | [] => (Ok tt, r)
  | name :: rest =>
      match r !! name, other !! name with
      | Some _, _ => (Err (ToolDuplicate name), r)
      | None, Some t => registry_merge_from other rest (<[name := t]> r)
      | None, None => registry_merge_from other rest r
      end
  end.

(** [ToolRegistry::overlay]: the later partition wins. *)
Definition registry_overlay (other r : ToolRegistry) : ToolRegistry := other ∪ r.

(** A [BTreeSet] in its order. *)
Definition registry_sorted (names : gset string) : list string :=
  merge_sort name_le (elements names).

(** [ToolRegistry::names] *)
Definition registry_names (r : ToolRegistry) : list string := registry_sorted (dom r).

Definition registry_merge (other : ToolRegistry) : M ToolRegistry ToolError unit :=
  registry_merge_from other (registry_names other).

(** [ToolRegistry::definitions] *)
Definition registry_definitions (r : ToolRegistry) : list ToolDefinition :=
  tool_definition <$> omap (fun name => r !! name) (registry_names r).

(** [ToolRegistry::subset] *)
Fixpoint registry_subset (r : ToolRegistry) (names : list string) (subset : ToolRegistry)
  : result ToolRegistry ToolError :=
  match names with
  | [] => Ok subset
  | name :: rest =>
      match r !! name with
      | None => Err (ToolNotFound name)
      | Some t =>
          match subset !! name with
          | Some _ => Err (ToolDuplicate name)
          | None => registry_subset r rest (<[name := t]> subset)
          end
      end
  end.

(** [ToolRegistry::validate] *)
Definition registry_validate (r : ToolRegistry) (c : ToolCall) : result unit ToolError :=
  match r !! call_name c with
  | None => Err (ToolNotFound (call_name c))
  | Some t => tool_validate t c
  end.

(** ** Lemmas *)

Lemma registry_names_elem r name : name ∈ registry_names r <-> is_Some (r !! name).
Proof.
  unfold registry_names, registry_sorted. rewrite merge_sort_Permutation, elem_of_elements. apply elem_of_dom.
Qed.

Lemma registry_names_nodup r : NoDup (registry_names r).
Proof. unfold registry_names, registry_sorted. rewrite merge_sort_Permutation. apply NoDup_elements. Qed.

(** A selection of distinct names that exist succeeds with exactly them. *)
Lemma registry_subset_spec r names : forall subset,
  NoDup names -> (forall n, n ∈ names -> is_Some (r !! n) /\ subset !! n = None) ->
  registry_subset r names subset
  = Ok (filter (fun p => p.1 ∈ names) r ∪ subset).
Proof.
  induction names as [|n names IH]; intros subset Hn Hin; cbn [registry_subset].
  - f_equal. apply map_eq. intros k. rewrite lookup_union.
    rewrite (map_lookup_filter_None_2 (fun p : string * AgentTool => p.1 ∈ []) r k).
    + by rewrite (left_id None _).
    + right. intros ? _ ?%elem_of_nil. done.
  - apply NoDup_cons in Hn as [Hnot Hn].
    destruct (Hin n ltac:(apply list_elem_of_here)) as [[t Ht] Hs]. rewrite Ht, Hs.
    rewrite IH; [|done|].
    + f_equal. apply map_eq. intros k. rewrite !lookup_union. rewrite !map_lookup_filter.
      destruct (decide (k = n)) as [->|Hne].
      * rewrite Ht, lookup_insert_eq. cbn. rewrite option_guard_False by done.
        rewrite option_guard_True by apply list_elem_of_here. by rewrite Hs.
      * rewrite lookup_insert_ne by done. destruct (r !! k) as [u|]; cbn; [|done].
        destruct (decide (k ∈ names)) as [Hk|Hk].
        -- rewrite !option_guard_True; [done|by apply list_elem_of_further|done].
        -- rewrite !option_guard_False; [done| |done]. by intros [?|?]%elem_of_cons.
    + intros k Hk. destruct (Hin k ltac:(by apply list_elem_of_further)) as [? Hsk].
      split; [done|]. rewrite lookup_insert_ne; [done|]. by intros ->.
Qed.
