(* ===== verification/ToolSearch.v ===== *)
(** Local discovery of deferred tools: bounded documents, their index, and the
    ranking of a query.  [crates/kernel/src/runtime/tools/search.rs]

    The Unicode tables behind [char]'s predicates and [str::to_lowercase], and
    64-bit floating point, are parameters.  An object's members come in the order
    it keeps them, which [entries] says. *)

From S2P Require Import Prelude Lines Chars Text Scalar Json Message ToolContract.
Open Scope string_scope.
Open Scope rust_scope.

Class UnicodeTables := {
  is_alphanumeric : char -> bool;
  is_uppercase : char -> bool;
  is_lowercase : char -> bool;
  to_lowercase : string -> string
}.

(** What the ranking asks of [f64]; [score_order] is [total_cmp]. *)
Class Floats := {
  float : Type;
  float_of : nat -> float;
  float_decimal : string -> float;
  fadd : float -> float -> float;
  fsub : float -> float -> float;
  fmul : float -> float -> float;
  fdiv : float -> float -> float;
  fln : float -> float;
  fmax : float -> float -> float;
  fpositive : float -> bool;
  score_order : float -> float -> comparison;
  score_order_sym : forall x y, score_order y x = CompOpp (score_order x y)
}.

Definition DOCUMENT_BYTES : nat := 16 * 1024.

Record ToolSearchDocument : Type := {
  doc_name : string;
  doc_remote_name : option string;
  doc_terms : gmap string nat;
  doc_description : string
}.

Record DocumentText : Type := { doc_text : string; visited : nat }.
Definition document_text_default : DocumentText := {| doc_text := ""; visited := 0 |}.

(** [end -= 1] until a character boundary. *)
Fixpoint boundary_before (s : string) (stop : nat) : nat :=
  match stop with
  | 0 => 0
  | S n => match str_drop stop s with
           | String a _ => if cont a then boundary_before s n else stop
           | EmptyString => stop
           end
  end.

(** [DocumentText::push] *)
Definition push (text : string) (d : DocumentText) : DocumentText :=
  if Nat.leb DOCUMENT_BYTES (String.length (doc_text d)) then d
  else
    let spaced := doc_text d +:+ " " in
    let stop := boundary_before text
                  (Nat.min (String.length text) (DOCUMENT_BYTES - String.length spaced)) in
    {| doc_text := spaced +:+ str_take stop text; visited := visited d |}.

Definition exhausted (d : DocumentText) : bool :=
  Nat.leb DOCUMENT_BYTES (String.length (doc_text d)) || Nat.leb 4096 (visited d).

Section Search.
Context `{UnicodeTables} `{Floats}.
Variable entries : gmap string json -> list (string * json).

(** A loop over children that stops once the document is full. *)
Fixpoint over_children {C} (f : C -> DocumentText -> DocumentText) (l : list C) (d : DocumentText)
  : DocumentText :=
  match l with
  | [] => d
  | c :: rest => if exhausted d then d else over_children f rest (f c d)
  end.

(** [DocumentText::schema] with [levels] of nesting left: [depth > 8] is none. *)
Fixpoint schema (levels : nat) (v : json) (d : DocumentText) : DocumentText :=
  match levels with
  | 0 => d
  | S levels =>
      if exhausted d then d
      else
        let d := {| doc_text := doc_text d; visited := S (visited d) |} in
        let d := match (v' ← json_get "description" v; json_as_str v') with
                 | Some text => push text d
                 | None => d
                 end in
        let d := match json_get "properties" v with
                 | Some (JObject properties) =>
                     over_children (fun '(name, child) d => schema levels child (push name d))
                       (entries properties) d
                 | _ => d
                 end in
        let d := match json_get "items" v with Some items => schema levels items d | None => d end in
        foldl (fun d key =>
                 match json_get key v with
                 | Some (JArray children) => over_children (schema levels) children d
                 | _ => d
                 end) d ["anyOf"; "allOf"; "oneOf"]
  end.
Definition SCHEMA_DEPTH : nat := 9.

(** ** Tokens *)

Definition is_cjk (c : char) : bool :=
  let z := code_point c in
  in_range z 13312 40959 || in_range z 63744 64255 || in_range z 131072 205743
  || in_range z 12352 12543 || in_range z 44032 55215.

(** [windows(2)] collected. *)
Fixpoint bigrams (l : list char) : list string :=
  match l with a :: (b :: _) as r => (a +:+ b) :: bigrams r | _ => [] end.

(** The closure [flush]: the tokens of a word. *)
Definition flush (word : list char) (cjk : bool) : list string :=
  match word with
  | [] => []
  | [c] => if cjk then [c] else [to_lowercase c]
  | _ => if cjk then bigrams word else [to_lowercase (collect word)]
  end.

Definition camel_boundary (c : char) (previous next : option char) : bool :=
  negb (is_cjk c) && is_uppercase c
  && match previous with
     | Some p =>
         is_lowercase p
         || is_uppercase p && match next with Some n => is_lowercase n | None => false end
     | None => false
     end.

Fixpoint tokens_from (l : list char) (word : list char) (cjk : bool) (previous : option char)
  : list string :=
  match l with
  | [] => flush word cjk
  | c :: rest =>
      if negb (is_alphanumeric c) then flush word cjk ++ tokens_from rest [] cjk None
      else if negb (eqb (is_cjk c) cjk) || camel_boundary c previous (head rest)
      then flush word cjk ++ tokens_from rest [c] (is_cjk c) (Some c)
      else tokens_from rest (word ++ [c]) (is_cjk c) (Some c)
  end.

(** [ToolSearchIndex::tokens] *)
Definition tokens (text : string) : list string := tokens_from (chars text) [] false None.

Definition count_terms (l : list string) : gmap string nat :=
  foldl (fun m t => <[t := S (default 0 (m !! t))]> m) ∅ l.

(** [ToolSearchDocument::from] *)
Definition document (name : string) (t : AgentTool) : ToolSearchDocument :=
  let text := push name document_text_default in
  let '(remote_name, text) :=
    match tool_mcp_ref t with
    | Some reference =>
        (if Nat.leb (length (chars (ref_remote_name reference))) 256
         then Some (ref_remote_name reference) else None,
         push (ref_remote_name reference) (push (ref_server_id reference) text))
    | None => (None, text)
    end in
  let text := push (definition_description (tool_definition t)) text in
  let text := schema SCHEMA_DEPTH (definition_parameters (tool_definition t)) text in
  {| doc_name := name; doc_remote_name := remote_name;
     doc_terms := count_terms (tokens (doc_text text));
     doc_description := collect (take 160 (chars (definition_description (tool_definition t)))) |}.

(** ** The index *)

Definition term_total (d : ToolSearchDocument) : nat :=
  sum_list_with snd (map_to_list (doc_terms d)).

Record ToolSearchIndex : Type := {
  documents : list ToolSearchDocument;
  frequencies : gmap string nat;
  average_length : float
}.

(** [ToolSearchIndex::from_iter] *)
Definition index_of (docs : list ToolSearchDocument) : ToolSearchIndex :=
  {| documents := docs;
     frequencies :=
       foldl (fun m d => foldl (fun m t => <[t := S (default 0 (m !! t))]> m) m
                               (elements (dom (doc_terms d)))) ∅ docs;
     average_length := fdiv (float_of (sum_list_with term_total docs))
                            (float_of (Nat.max (length docs) 1)) |}.

(** [ToolSearchIndex::available], for the names a selection disables *)
Definition index_available (i : ToolSearchIndex) (disabled : gset string) : bool :=
  existsb (fun d => bool_decide (doc_name d ∉ disabled)) (documents i).

(** ** The query *)

Record ToolSearchArguments : Type := { query : string; limit : option nat }.

Definition invalid_search (c : ToolCall) : ToolError :=
  ToolInvalidArguments (call_name c)
    "query must have 1..=256 Unicode characters and limit must be an integer from 1 to 20".

(** [ToolSearchArguments::try_from] *)
Definition search_arguments (c : ToolCall) : result ToolSearchArguments ToolError :=
  let invalid := invalid_search c in
  match call_arguments c with
  | JObject m =>
      if negb (bool_decide (dom m ⊆ {["query"; "limit"]})) then Err invalid
      else
        match m !! "query" with
        | Some (JString text) =>
            let text := trim text in
            let? limit :=
              match m !! "limit" with
              | None => Ok None
              | Some v =>
                  match json_as_u64 v with Some n => Ok (Some (Z.to_nat n)) | None => Err invalid end
              end in
            let count := length (take 257 (chars text)) in
            let limited := default 8 limit in
            if negb (Nat.leb 1 count && Nat.leb count 256)
               || negb (Nat.leb 1 limited && Nat.leb limited 20)
            then Err invalid
            else Ok {| query := text; limit := limit |}
        | _ => Err invalid
        end
  | _ => Err invalid
  end.

(** ** The ranking *)

Record Ranked : Type := { rank_name : string; rank_exact : bool; rank_score : float }.

(** The BM25 weight of one term in a document. *)
Definition term_score (i : ToolSearchIndex) (d : ToolSearchDocument) (score : float) (term : string)
  : float :=
  match doc_terms d !! term with
  | None => score
  | Some frequency =>
      let count := float_of (length (documents i)) in
      let docs := float_of (default 0 (frequencies i !! term)) in
      let half := float_decimal "0.5" in
      let idf := fln (fadd (float_decimal "1.0")
                   (fdiv (fadd (fsub count docs) half) (fadd docs half))) in
      let tf := float_of frequency in
      let length_ratio :=
        fadd (float_decimal "0.25")
          (fdiv (fmul (float_decimal "0.75") (float_of (term_total d)))
             (fmax (average_length i) (float_decimal "1.0"))) in
      fadd score
        (fdiv (fmul (fmul idf tf) (float_decimal "2.2"))
           (fadd tf (fmul (float_decimal "1.2") length_ratio)))
  end.

Definition candidate (i : ToolSearchIndex) (disabled : gset string) (a : ToolSearchArguments)
  (terms : list string) (d : ToolSearchDocument) : option Ranked :=
  if bool_decide (doc_name d ∈ disabled) then None
  else
    let exact := String.eqb (doc_name d) (query a)
                 || bool_decide (doc_remote_name d = Some (query a)) in
    let score := foldl (term_score i d) (float_decimal "0.0") terms in
    if exact || fpositive score
    then Some {| rank_name := doc_name d; rank_exact := exact; rank_score := score |} else None.

Definition string_ltb (a b : string) : bool := negb (String.leb b a).

(** The comparison of [sort_by]: exact matches, then the higher score, then the name. *)
Definition ranks_before (x y : Ranked) : bool :=
  if rank_exact x && negb (rank_exact y) then true
  else if rank_exact y && negb (rank_exact x) then false
  else
    match score_order (rank_score y) (rank_score x) with
    | Lt => true
    | Gt => false
    | Eq => string_ltb (rank_name x) (rank_name y)
    end.

(** [ToolSearch::ranked] *)
Definition ranked (i : ToolSearchIndex) (disabled : gset string) (a : ToolSearchArguments)
  : list string :=
  let terms := registry_sorted (list_to_set (tokens (query a))) in
  take (default 8 (limit a))
    (rank_name <$> sort_by ranks_before (omap (candidate i disabled a terms) (documents i))).

End Search.
