(* ===== verification/StoreState.v ===== *)
(** The session log's in-memory projection and its JSONL mutations:
    [crates/store/src/state.rs], with the encodings its derives give. *)

From S2P Require Import Prelude Scalar Json StoreModel.
Open Scope string_scope.
Open Scope rust_scope.

Record SessionState : Type := {
  next_sequence : Z;
  lanes : gmap LaneId (option EntryId);
  state_entries : gmap EntryId SessionEntry;
  entry_order : list EntryId;
  state_records : list SessionRecord;
  used_record_ids : gset RecordId;
  state_name : option string;
  named : bool;
  labels : gmap EntryId string
}.

Definition main_lane : LaneId := MkId "main" I.

(** [SessionState::new] *)
Definition new_state : SessionState :=
  {| next_sequence := 0;
     lanes := {[ main_lane := None ]};
     state_entries := ∅;
     entry_order := [];
     state_records := [];
     used_record_ids := ∅;
     state_name := None;
     named := false;
     labels := ∅ |}.

(** ** Mutations *)

Inductive MutationKind : Type := MutEntry | MutLane | MutRecord | MutFact.

#[export] Instance to_value_mutation_kind : ToValue MutationKind := fun k =>
  JString (match k with
           | MutEntry => "entry" | MutLane => "lane"
           | MutRecord => "record" | MutFact => "fact"
           end).
#[export] Instance from_value_mutation_kind : FromValue MutationKind := fun v =>
  match v with
  | JString "entry" => Ok MutEntry
  | JString "lane" => Ok MutLane
  | JString "record" => Ok MutRecord
  | JString "fact" => Ok MutFact
  | _ => Err (JsonError "unknown mutation kind")
  end.
#[export] Instance roundtrip_mutation_kind : Roundtrip MutationKind.
Proof. by intros []. Qed.

Record LaneMutation : Type := {
  lm_kind : MutationKind;
  lm_sequence : Sequence;
  lm_lane : LaneId;
  lm_leaf_id : option EntryId
}.

Record EntryMutation : Type := {
  em_kind : MutationKind;
  em_lane : LaneId;
  em_entry : SessionEntry
}.

Record RecordMutation : Type := {
  rm_kind : MutationKind;
  rm_record : SessionRecord
}.

Inductive FactKind : Type := FactName | FactLabel.

#[export] Instance to_value_fact_kind : ToValue FactKind := fun k =>
  JString (match k with FactName => "name" | FactLabel => "label" end).

Record NameFactMutation : Type := {
  nf_kind : MutationKind;
  nf_sequence : Sequence;
  nf_fact : FactKind;
  nf_name : option string
}.

(** [NameFactMutation::new] *)
Definition name_fact (sequence : Sequence) (n : option string) : NameFactMutation :=
  {| nf_kind := MutFact; nf_sequence := sequence; nf_fact := FactName; nf_name := n |}.

Record LabelFactMutation : Type := {
  lf_kind : MutationKind;
  lf_sequence : Sequence;
  lf_fact : FactKind;
  lf_target_id : EntryId;
  lf_label : option string
}.

(** ** Encodings.  Maps are written key by key, so the payload a struct
    flattens last is written over any field of the same name. *)

#[export] Instance to_value_lane_mutation : ToValue LaneMutation := fun m =>
  JObject (<["kind" := to_value (lm_kind m)]>
          (<["seq" := to_value (lm_sequence m)]>
          (<["lane" := to_value (lm_lane m)]>
          {[ "leafId" := to_value (lm_leaf_id m) ]}))).

#[export] Instance from_value_lane_mutation : FromValue LaneMutation := fun v =>
  let? o := as_object v in
  let? kind := field "kind" o in
  let? seq := field "seq" o in
  let? lane := field "lane" o in
  let? leaf := opt_field "leafId" o in
  Ok {| lm_kind := kind; lm_sequence := seq; lm_lane := lane; lm_leaf_id := leaf |}.

(** The fields of a [SessionEntry] other than the flattened payload. *)
Definition entry_header (e : SessionEntry) : json_map :=
  <["id" := to_value (entry_id e)]>
  (<["seq" := to_value (entry_sequence e)]>
  (<["parentId" := to_value (parent_id e)]>
  (<["timestamp" := to_value (entry_timestamp_ms e)]>
  {[ "type" := to_value (entry_kind e) ]}))).

#[export] Instance to_value_entry_mutation : ToValue EntryMutation := fun m =>
  JObject (entry_payload (em_entry m) ∪
           (<["kind" := to_value (em_kind m)]>
           (<["lane" := to_value (em_lane m)]> (entry_header (em_entry m))))).

#[export] Instance from_value_entry_mutation : FromValue EntryMutation := fun v =>
  let? o := as_object v in
  let? kind := field "kind" o in
  let? lane := field "lane" o in
  let? id := field "id" o in
  let? seq := field "seq" o in
  let? parent := opt_field "parentId" o in
  let? ts := field "timestamp" o in
  let? k := field "type" o in
  Ok {| em_kind := kind; em_lane := lane;
        em_entry := {| entry_id := id; entry_sequence := seq; parent_id := parent;
                       entry_timestamp_ms := ts; entry_kind := k;
                       entry_payload := without entry_fields o |} |}.

Definition record_header (r : SessionRecord) : json_map :=
  <["id" := to_value (record_id r)]>
  (<["seq" := to_value (record_sequence r)]>
  (<["lane" := to_value (record_lane r)]>
  (<["timestamp" := to_value (record_timestamp_ms r)]>
  (<["type" := to_value (record_kind r)]> (skip_none "runId" (record_run_id r)))))).

#[export] Instance to_value_record_mutation : ToValue RecordMutation := fun m =>
  JObject (record_payload (rm_record m) ∪
           (<["kind" := to_value (rm_kind m)]> (record_header (rm_record m)))).

#[export] Instance from_value_record_mutation : FromValue RecordMutation := fun v =>
  let? o := as_object v in
  let? kind := field "kind" o in
  let? id := field "id" o in
  let? seq := field "seq" o in
  let? lane := field "lane" o in
  let? ts := field "timestamp" o in
  let? run := opt_field "runId" o in
  let? k := field "type" o in
  Ok {| rm_kind := kind;
        rm_record := {| record_id := id; record_sequence := seq; record_lane := lane;
                        record_timestamp_ms := ts; record_run_id := run;
                        record_kind := k;
                        record_payload := without record_fields o |} |}.

#[export] Instance to_value_name_fact : ToValue NameFactMutation := fun m =>
  JObject (<["kind" := to_value (nf_kind m)]>
          (<["seq" := to_value (nf_sequence m)]>
          (<["fact" := to_value (nf_fact m)]> (skip_none "name" (nf_name m))))).

#[export] Instance to_value_label_fact : ToValue LabelFactMutation := fun m =>
  JObject (<["kind" := to_value (lf_kind m)]>
          (<["seq" := to_value (lf_sequence m)]>
          (<["fact" := to_value (lf_fact m)]>
          (<["targetId" := to_value (lf_target_id m)]>
          (skip_none "label" (lf_label m)))))).

(** ** Round trips *)

Lemma disjoint_lookup keys p k : disjoint_keys keys p -> k ∈ keys -> p !! k = None.
Proof. unfold disjoint_keys. rewrite Forall_forall. intros H Hk. by apply H. Qed.

Lemma lookup_under_payload keys p h k :
  disjoint_keys keys p -> k ∈ keys -> (p ∪ h) !! k = h !! k.
Proof. intros Hp Hk. by rewrite lookup_union_r by eauto using disjoint_lookup. Qed.

Lemma without_under_payload keys p h :
  disjoint_keys keys p -> (forall k, k ∉ keys -> h !! k = None) ->
  without keys (p ∪ h) = p.
Proof.
  intros Hp Hh. apply map_eq. intros k. rewrite lookup_without.
  destruct (decide (k ∈ keys)) as [Hk|Hk].
  - symmetry. by eapply disjoint_lookup.
  - rewrite lookup_union, Hh by done. by destruct (p !! k).
Qed.

(** Reads a field of the fixed part of a flattened object. *)
Ltac read_header Hp :=
  rewrite !(lookup_under_payload _ _ _ _ Hp) by set_solver;
  simplify_map_eq; rewrite ?from_to_value; cbn [result_bind].

#[export] Instance roundtrip_lane_mutation : Roundtrip LaneMutation.
Proof.
  intros m. unfold from_value, to_value, from_value_lane_mutation,
    to_value_lane_mutation, field, opt_field. cbn [as_object result_bind].
  simplify_map_eq. rewrite !from_to_value. by destruct m.
Qed.

Lemma entry_header_keys m k :
  k ∉ entry_fields ->
  (<["kind" := to_value (em_kind m)]>
   (<["lane" := to_value (em_lane m)]> (entry_header (em_entry m)))) !! k = None.
Proof.
  intros Hk. unfold entry_header.
  rewrite !lookup_insert_ne by set_solver. by rewrite lookup_singleton_ne by set_solver.
Qed.

Lemma entry_mutation_roundtrip m :
  disjoint_keys entry_fields (entry_payload (em_entry m)) ->
  from_value (to_value m) = Ok m.
Proof.
  intros Hp. unfold from_value, to_value, from_value_entry_mutation,
    to_value_entry_mutation, field, opt_field. cbn [as_object result_bind].
  rewrite (without_under_payload _ _ _ Hp (entry_header_keys m)).
  unfold entry_header. read_header Hp.
  by destruct m as [? ? []].
Qed.

Lemma record_header_keys m k :
  k ∉ record_fields ->
  (<["kind" := to_value (rm_kind m)]> (record_header (rm_record m))) !! k = None.
Proof.
  intros Hk. unfold record_header, skip_none.
  rewrite !lookup_insert_ne by set_solver.
  destruct (record_run_id _); [by rewrite lookup_singleton_ne by set_solver|done].
Qed.

Lemma record_mutation_roundtrip m :
  disjoint_keys record_fields (record_payload (rm_record m)) ->
  from_value (to_value m) = Ok m.
Proof.
  intros Hp. unfold from_value, to_value, from_value_record_mutation,
    to_value_record_mutation, field, opt_field. cbn [as_object result_bind].
  rewrite (without_under_payload _ _ _ Hp (record_header_keys m)).
  unfold record_header, skip_none. destruct (record_run_id (rm_record m)) eqn:Hr;
    read_header Hp; destruct m as [? []]; simpl in *; subst; try done.
  by rewrite from_value_some.
Qed.
