(* ===== verification/StoreSession.v ===== *)
(** The append-only JSONL session log: [crates/store/src/session.rs].

    A [BufWriter<File>] is its on-disk text, its unflushed bytes and an oracle
    for the outcome of each write; a [Clock] is an oracle for its readings.
    Every theorem quantifies over both oracles. *)

From S2P Require Import Prelude Scalar Json Message StoreModel StoreState.
Open Scope string_scope.
Open Scope rust_scope.

(** ** The buffered file *)

(** What one write attempt did: everything reached the file, or [accepted]
    bytes of the text entered the buffer and [written] bytes of the buffer
    reached the file before the error. *)
Inductive io_event : Type :=
| IoDone
| IoFailed (accepted written : nat).

Record FileHandle : Type := {
  disk : string;
  buffered : string;
  io_events : nat -> io_event;
  io_count : nat
}.

Definition with_text (f : FileHandle) (d b : string) : FileHandle :=
  {| disk := d; buffered := b; io_events := io_events f; io_count := S (io_count f) |}.

(** [to_writer], [write_all(b"\n")] and [flush] of one line. *)
Definition write_line (line : string) : M FileHandle StoreError unit := fun f =>
  let text := line +:+ nl in
  match io_events f (io_count f) with
  | IoDone => (Ok tt, with_text f (disk f +:+ buffered f +:+ text) "")
  | IoFailed accepted written =>
      let pending := buffered f +:+ str_take accepted text in
      (Err (if Nat.ltb accepted (String.length line) then Json (JsonError "write") else Io),
       with_text f (disk f +:+ str_take written pending) (str_drop written pending))
  end.

(** [flush] then [sync_data]. *)
Definition sync_file : M FileHandle StoreError unit := fun f =>
  match io_events f (io_count f) with
  | IoDone => (Ok tt, with_text f (disk f +:+ buffered f) "")
  | IoFailed _ written =>
      (Err Io, with_text f (disk f +:+ str_take written (buffered f))
                           (str_drop written (buffered f)))
  end.

(** ** The clock *)

Record ClockHandle : Type := {
  readings : nat -> TimestampMs;
  clock_count : nat
}.

Definition clock_now (c : ClockHandle) : TimestampMs := readings c (clock_count c).
Definition clock_tick (c : ClockHandle) : ClockHandle :=
  {| readings := readings c; clock_count := S (clock_count c) |}.

Section Session.
Context {R : RigTypes} {CC : ContentCodec R} {JT : JsonText}.

Record JsonlSessionStore : Type := {
  jsonl_session_id : SessionId;
  jsonl_path : string;
  jsonl_clock : ClockHandle;
  jsonl_file : FileHandle;
  jsonl_state : SessionState
}.

Definition with_file (s : JsonlSessionStore) (f : FileHandle) : JsonlSessionStore :=
  {| jsonl_session_id := jsonl_session_id s; jsonl_path := jsonl_path s;
     jsonl_clock := jsonl_clock s; jsonl_file := f; jsonl_state := jsonl_state s |}.

Definition with_state (s : JsonlSessionStore) (st : SessionState) : JsonlSessionStore :=
  {| jsonl_session_id := jsonl_session_id s; jsonl_path := jsonl_path s;
     jsonl_clock := jsonl_clock s; jsonl_file := jsonl_file s; jsonl_state := st |}.

(** [self.clock.now()] *)
Definition read_clock {E} : M JsonlSessionStore E TimestampMs := fun s =>
  (Ok (clock_now (jsonl_clock s)),
   {| jsonl_session_id := jsonl_session_id s; jsonl_path := jsonl_path s;
      jsonl_clock := clock_tick (jsonl_clock s); jsonl_file := jsonl_file s;
      jsonl_state := jsonl_state s |}).

(** ** Validation *)

Inductive ValidatedMutation : Type :=
| VLane (mutation : LaneMutation)
| VEntry (mutation : EntryMutation)
| VRecord (mutation : RecordMutation)
| VName (sequence : Z) (name : option string)
| VLabel (sequence : Z) (target_id : EntryId) (label : option string).

Definition decode {T} `{FromValue T} (v : json) : result T StoreError :=
  map_err Json (from_value v).

Definition contains {V} (m : gmap EntryId V) (k : EntryId) : bool :=
  bool_decide (is_Some (m !! k)).

Definition validate_lane (st : SessionState) (value : json)
  : result ValidatedMutation StoreError :=
  let? mutation := decode (T := LaneMutation) value in
  match lm_leaf_id mutation with
  | Some target =>
      if contains (state_entries st) target then Ok (VLane mutation)
      else Err (InvalidSession ("lane " +:+ as_str (lm_lane mutation)
                  +:+ " references missing entry " +:+ as_str target))
  | None => Ok (VLane mutation)
  end.

(** The extra checks on a compaction entry. *)
Definition validate_compaction (payload : json_map) : result unit StoreError :=
  let? data := map_err
      (fun '(JsonError what) => InvalidSession ("invalid compaction payload: " +:+ what))
      (from_value (T := CompactionData R) (JObject payload)) in
  let? details := ok_or (details data) (InvalidSession "compaction details are required") in
  if trim_is_empty (summary data) then
    Err (InvalidSession "compaction summary must not be empty")
  else if timestamp_lt (details_ended_at_ms details) (details_started_at_ms details) then
    Err (InvalidSession "compaction ended before it started")
  else Ok tt.

Definition validate_entry (st : SessionState) (value : json)
  : result ValidatedMutation StoreError :=
  let? mutation := decode (T := EntryMutation) value in
  let entry := em_entry mutation in
  let? _ := (if bool_decide (entry_kind entry = KindCompaction)
             then validate_compaction (entry_payload entry) else Ok tt) in
  if contains (state_entries st) (entry_id entry) then
    Err (DuplicateEntry (entry_id entry))
  else
    let? leaf := ok_or (lanes st !! em_lane mutation)
        (InvalidSession ("entry references missing lane " +:+ as_str (em_lane mutation))) in
    if bool_decide (leaf = parent_id entry) then Ok (VEntry mutation)
    else Err (InvalidSession "entry does not chain to lane leaf").

Definition validate_record (st : SessionState) (value : json)
  : result ValidatedMutation StoreError :=
  let? mutation := decode (T := RecordMutation) value in
  let record := rm_record mutation in
  if bool_decide (is_Some (lanes st !! record_lane record)) then
    if bool_decide (record_id record ∈ used_record_ids st) then
      Err (InvalidSession ("duplicate record id " +:+ as_str (record_id record)))
    else Ok (VRecord mutation)
  else Err (InvalidSession ("record references missing lane "
              +:+ as_str (record_lane record))).

Definition str_field (key : string) (value : json) : option string :=
  v ← json_get key value; json_as_str v.

Definition validate_fact (st : SessionState) (sequence : Z) (value : json)
  : result ValidatedMutation StoreError :=
  let? fact := ok_or (str_field "fact" value)
                 (InvalidSession "fact mutation has no fact type") in
  if String.eqb fact "name" then Ok (VName sequence (str_field "name" value))
  else if String.eqb fact "label" then
    let? target := ok_or (str_field "targetId" value)
                     (InvalidSession "label fact has no targetId") in
    let? target_id := map_err (fun _ => InvalidSession "entry must not be empty")
                        (id_try_from "entry" target) in
    if contains (state_entries st) target_id then
      Ok (VLabel sequence target_id (str_field "label" value))
    else Err (EntryNotFound target_id)
  else Err (InvalidSession ("unknown fact type " +:+ fact)).

(** [JsonlSessionStore::validate] *)
Definition validate (st : SessionState) (value : json)
  : result ValidatedMutation StoreError :=
  let? kind := ok_or (str_field "kind" value) (InvalidSession "mutation has no kind") in
  let? sequence := ok_or (v ← json_get "seq" value; json_as_u64 v)
                     (InvalidSession "mutation has invalid sequence") in
  if negb (sequence =? u64_saturating_add (next_sequence st) 1)%Z then
    Err (InvalidSession ("mutation sequence " +:+ u64_to_string sequence
           +:+ " is not consecutive after " +:+ u64_to_string (next_sequence st)))
  else if String.eqb kind "lane" then validate_lane st value
  else if String.eqb kind "entry" then validate_entry st value
  else if String.eqb kind "record" then validate_record st value
  else if String.eqb kind "fact" then validate_fact st sequence value
  else Err (InvalidSession ("unknown mutation kind " +:+ kind)).

(** [JsonlSessionStore::commit] *)
Definition commit (st : SessionState) (mutation : ValidatedMutation) : SessionState :=
  match mutation with
  | VLane m =>
      {| next_sequence := sequence_get (lm_sequence m);
         lanes := <[lm_lane m := lm_leaf_id m]> (lanes st);
         state_entries := state_entries st; entry_order := entry_order st;
         state_records := state_records st; used_record_ids := used_record_ids st;
         state_name := state_name st; named := named st; labels := labels st |}
  | VEntry m =>
      let e := em_entry m in
      {| next_sequence := sequence_get (entry_sequence e);
         lanes := <[em_lane m := Some (entry_id e)]> (lanes st);
         state_entries := <[entry_id e := e]> (state_entries st);
         entry_order := (entry_order st ++ [entry_id e])%list;
         state_records := state_records st; used_record_ids := used_record_ids st;
         state_name := state_name st; named := named st; labels := labels st |}
  | VRecord m =>
      let r := rm_record m in
      {| next_sequence := sequence_get (record_sequence r);
         lanes := lanes st;
         state_entries := state_entries st; entry_order := entry_order st;
         state_records := (state_records st ++ [r])%list;
         used_record_ids := {[ record_id r ]} ∪ used_record_ids st;
         state_name := state_name st; named := named st; labels := labels st |}
  | VName sequence n =>
      {| next_sequence := sequence;
         lanes := lanes st;
         state_entries := state_entries st; entry_order := entry_order st;
         state_records := state_records st; used_record_ids := used_record_ids st;
         state_name := n; named := true; labels := labels st |}
  | VLabel sequence target_id l =>
      {| next_sequence := sequence;
         lanes := lanes st;
         state_entries := state_entries st; entry_order := entry_order st;
         state_records := state_records st; used_record_ids := used_record_ids st;
         state_name := state_name st; named := named st;
         labels := match l with
                   | Some l => <[target_id := l]> (labels st)
                   | None => delete target_id (labels st)
                   end |}
  end.

(** [apply_loaded_mutation] *)
Definition apply_loaded_mutation (st : SessionState) (value : json)
  : result SessionState StoreError :=
  let? validated := validate st value in
  Ok (commit st validated).

(** ** Appending *)

(** [candidate_sequence] *)
Definition candidate_sequence (st : SessionState) : result Sequence StoreError :=
  let? next := ok_or (u64_checked_add (next_sequence st) 1) SequenceExhausted in
  map_err (fun _ => SequenceExhausted) (sequence_try_from next).

(** [append]: one complete JSONL line through the held writer. *)
Definition append (value : json) : M JsonlSessionStore StoreError unit := fun s =>
  let '(r, f) := write_line (print value) (jsonl_file s) in
  (r, with_file s f).

(** [persist]: validate, append, then apply. *)
Definition persist {T} `{ToValue T} (mutation : T) : M JsonlSessionStore StoreError unit :=
  fun s =>
    let value := to_value mutation in
    match validate (jsonl_state s) value with
    | Err e => (Err e, s)
    | Ok validated =>
        match append value s with
        | (Err e, s') => (Err e, s')
        | (Ok tt, s') => (Ok tt, with_state s' (commit (jsonl_state s') validated))
        end
    end.

(** ** The trait's operations *)

Definition jsonl_create_lane (l : LaneId) (at_entry : option EntryId)
  : M JsonlSessionStore StoreError unit := fun s =>
  let st := jsonl_state s in
  if bool_decide (is_Some (lanes st !! l)) then (Err (InvalidLane (as_str l)), s)
  else if from_option (fun e => negb (contains (state_entries st) e)) false at_entry then
    (Err (InvalidLane (as_str l)), s)
  else match candidate_sequence st with
       | Err e => (Err e, s)
       | Ok sequence =>
           persist {| lm_kind := MutLane; lm_sequence := sequence; lm_lane := l;
                      lm_leaf_id := at_entry |} s
       end.

Definition jsonl_move_lane (l : LaneId) (to : option EntryId)
  : M JsonlSessionStore StoreError unit := fun s =>
  let st := jsonl_state s in
  if bool_decide (lanes st !! l = None) then (Err (InvalidLane (as_str l)), s)
  else match (match to with
              | Some e => if contains (state_entries st) e then Ok tt
                          else Err (EntryNotFound e)
              | None => Ok tt
              end) with
       | Err e => (Err e, s)
       | Ok _ =>
           match candidate_sequence st with
           | Err e => (Err e, s)
           | Ok sequence =>
               persist {| lm_kind := MutLane; lm_sequence := sequence; lm_lane := l;
                          lm_leaf_id := to |} s
           end
       end.

Definition jsonl_append_entry (l : LaneId) (entry : NewEntry)
  : M JsonlSessionStore StoreError SessionEntry := fun s =>
  let st := jsonl_state s in
  if contains (state_entries st) (new_entry_id entry) then
    (Err (DuplicateEntry (new_entry_id entry)), s)
  else match lanes st !! l with
  | None => (Err (InvalidLane (as_str l)), s)
  | Some parent =>
      match new_entry_payload entry with
      | JObject payload =>
          match candidate_sequence st with
          | Err e => (Err e, s)
          | Ok sequence =>
              (let! now := read_clock in
               let stored := {| entry_id := new_entry_id entry; entry_sequence := sequence;
                                parent_id := parent; entry_timestamp_ms := now;
                                entry_kind := new_entry_kind entry;
                                entry_payload := payload |} in
               let! _ := persist {| em_kind := MutEntry; em_lane := l; em_entry := stored |} in
               m_ret stored) s
          end
      | _ => (Err InvalidEntryPayload, s)
      end
  end.

Definition jsonl_append_record (record : NewRecord)
  : M JsonlSessionStore StoreError SessionRecord := fun s =>
  let st := jsonl_state s in
  if bool_decide (lanes st !! new_record_lane record = None) then
    (Err (InvalidLane (as_str (new_record_lane record))), s)
  else if bool_decide (new_record_id record ∈ used_record_ids st) then
    (Err (InvalidSession ("duplicate record id " +:+ as_str (new_record_id record))), s)
  else match new_record_payload record with
  | JObject payload =>
      match candidate_sequence st with
      | Err e => (Err e, s)
      | Ok sequence =>
          (let! now := read_clock in
           let stored := {| record_id := new_record_id record; record_sequence := sequence;
                            record_lane := new_record_lane record;
                            record_timestamp_ms := now;
                            record_run_id := new_record_run_id record;
                            record_kind := new_record_kind record;
                            record_payload := payload |} in
           let! _ := persist {| rm_kind := MutRecord; rm_record := stored |} in
           m_ret stored) s
      end
  | _ => (Err InvalidEntryPayload, s)
  end.

Definition jsonl_set_name (n : option string) : M JsonlSessionStore StoreError unit :=
  fun s =>
    match candidate_sequence (jsonl_state s) with
    | Err e => (Err e, s)
    | Ok sequence => persist (name_fact sequence n) s
    end.

Definition jsonl_set_label (target_id : EntryId) (l : option string)
  : M JsonlSessionStore StoreError unit := fun s =>
  if contains (state_entries (jsonl_state s)) target_id then
    match candidate_sequence (jsonl_state s) with
    | Err e => (Err e, s)
    | Ok sequence =>
        persist {| lf_kind := MutFact; lf_sequence := sequence; lf_fact := FactLabel;
                   lf_target_id := target_id; lf_label := l |} s
    end
  else (Err (EntryNotFound target_id), s).

(** [sync] *)
Definition jsonl_sync : M JsonlSessionStore StoreError unit := fun s =>
  let '(r, f) := sync_file (jsonl_file s) in (r, with_file s f).

Definition state_lane (st : SessionState) (l : LaneId) : option EntryId :=
  mjoin (lanes st !! l).

Definition state_entry_list (st : SessionState) : list SessionEntry :=
  omap (fun id => state_entries st !! id) (entry_order st).

(** [branch]: the loop over parent links, [None] when [fuel] runs out.
    [acc] holds the entries already visited, nearest the leaf last. *)
Fixpoint branch_loop (fuel : nat) (st : SessionState) (visited : gset EntryId)
  (cursor : option EntryId) (acc : list SessionEntry)
  : option (result (list SessionEntry) StoreError) :=
  match fuel with
  | O => None
  | S fuel =>
      match cursor with
      | None => Some (Ok acc)
      | Some id =>
          if bool_decide (id ∈ visited) then
            Some (Err (InvalidSession ("session branch contains a cycle at " +:+ as_str id)))
          else match state_entries st !! id with
               | None => Some (Err (EntryNotFound id))
               | Some e => branch_loop fuel st ({[ id ]} ∪ visited) (parent_id e) (e :: acc)
               end
      end
  end.

(** One step per distinct entry and one to see the end. *)
Definition branch_fuel (st : SessionState) : nat := S (S (size (state_entries st))).

Definition state_branch (st : SessionState) (leaf : EntryId)
  : result (list SessionEntry) StoreError :=
  match branch_loop (branch_fuel st) st ∅ (Some leaf) [] with
  | Some r => r
  | None => Err (InvalidSession "out of fuel")
  end.

#[export] Instance jsonl_session_store : SessionStore JsonlSessionStore := {
  store_session_id := jsonl_session_id;
  store_path := jsonl_path;
  create_lane := jsonl_create_lane;
  move_lane := jsonl_move_lane;
  append_entry := jsonl_append_entry;
  lane s l := state_lane (jsonl_state s) l;
  get_entry s id := state_entries (jsonl_state s) !! id;
  entries s := state_entry_list (jsonl_state s);
  branch s leaf := state_branch (jsonl_state s) leaf;
  append_record := jsonl_append_record;
  sync := jsonl_sync;
  records s := state_records (jsonl_state s);
  last_sequence s := next_sequence (jsonl_state s);
  set_name := jsonl_set_name;
  name s := state_name (jsonl_state s);
  was_named s := named (jsonl_state s);
  set_label := jsonl_set_label;
  label s id := labels (jsonl_state s) !! id
}.

End Session.
