(* ===== verification/StoreInv.v ===== *)
(** The session log's invariant: every mutation that passes validation keeps
    the projection well formed, whether it was just made or is being replayed,
    and on a well-formed projection the parent walk of [branch] ends. *)

From S2P Require Import Prelude Scalar Json Message StoreModel StoreState StoreSession.
Open Scope string_scope.
Open Scope rust_scope.

(** ** What a validated mutation promises *)

Definition mutation_sequence (m : ValidatedMutation) : Z :=
  match m with
  | VLane m => sequence_get (lm_sequence m)
  | VEntry m => sequence_get (entry_sequence (em_entry m))
  | VRecord m => sequence_get (record_sequence (rm_record m))
  | VName s _ | VLabel s _ _ => s
  end.

Definition mutation_fits (st : SessionState) (m : ValidatedMutation) : Prop :=
  match m with
  | VLane m => forall e, lm_leaf_id m = Some e -> is_Some (state_entries st !! e)
  | VEntry m => state_entries st !! entry_id (em_entry m) = None /\
                lanes st !! em_lane m = Some (parent_id (em_entry m))
  | VRecord m => is_Some (lanes st !! record_lane (rm_record m)) /\
                 record_id (rm_record m) ∉ used_record_ids st
  | VName _ _ => True
  | VLabel _ target _ => is_Some (state_entries st !! target)
  end.

Lemma contains_spec {V} (m : gmap EntryId V) k : contains m k = true <-> is_Some (m !! k).
Proof. unfold contains. by rewrite bool_decide_eq_true. Qed.

Lemma contains_false {V} (m : gmap EntryId V) k : contains m k = false <-> m !! k = None.
Proof. unfold contains. by rewrite bool_decide_eq_false, eq_None_not_Some. Qed.

(** Splits the first [let?] of a successful computation. *)
Ltac bind_ok H :=
  match type of H with
  | result_bind ?r _ = Ok _ => destruct r eqn:?; cbn [result_bind] in H; [|discriminate H]
  end.

Lemma map_err_ok {A E F} (f : E -> F) (r : result A E) a : map_err f r = Ok a -> r = Ok a.
Proof. destruct r; [by intros [= ->]|done]. Qed.

Lemma ok_or_ok {A E} (o : option A) (e : E) a : ok_or o e = Ok a -> o = Some a.
Proof. destruct o; [by intros [= ->]|done]. Qed.

Lemma field_sequence (o : json_map) s :
  field "seq" o = Ok s ->
  (v ← json_get "seq" (JObject o); json_as_u64 v) = Some (sequence_get s).
Proof.
  unfold field. simpl. destruct (o !! "seq") as [v|]; [|done]. simpl.
  unfold from_value, from_value_sequence. destruct (json_as_u64 v); [|done].
  intros H%map_err_ok%sequence_try_from_ok. by rewrite H.
Qed.

Section Validation.
Context {R : RigTypes} {CC : ContentCodec R}.

Lemma as_object_ok v o : as_object v = Ok o -> v = JObject o.
Proof. by destruct v; intros [= ->]. Qed.

(** The sequence a typed decoder reads is the one validation compared. *)
Definition value_sequence (v : json) : option Z := x ← json_get "seq" v; json_as_u64 x.

Lemma lane_sequence v m :
  from_value (T := LaneMutation) v = Ok m ->
  value_sequence v = Some (sequence_get (lm_sequence m)).
Proof.
  intros H. unfold from_value, from_value_lane_mutation in H.
  repeat bind_ok H. injection H as <-.
  by apply as_object_ok in Heqr as ->; apply field_sequence.
Qed.

Lemma entry_mutation_sequence v m :
  from_value (T := EntryMutation) v = Ok m ->
  value_sequence v = Some (sequence_get (entry_sequence (em_entry m))).
Proof.
  intros H. unfold from_value, from_value_entry_mutation in H.
  repeat bind_ok H. injection H as <-.
  by apply as_object_ok in Heqr as ->; apply field_sequence.
Qed.

Lemma record_mutation_sequence v m :
  from_value (T := RecordMutation) v = Ok m ->
  value_sequence v = Some (sequence_get (record_sequence (rm_record m))).
Proof.
  intros H. unfold from_value, from_value_record_mutation in H.
  repeat bind_ok H. injection H as <-.
  by apply as_object_ok in Heqr as ->; apply field_sequence.
Qed.

Lemma validate_lane_sound st v m :
  validate_lane st v = Ok m ->
  mutation_fits st m /\ value_sequence v = Some (mutation_sequence m).
Proof.
  unfold validate_lane. intros H. bind_ok H.
  apply map_err_ok, lane_sequence in Heqr.
  destruct (lm_leaf_id t) as [e|] eqn:Hl.
  - destruct (contains _ e) eqn:Hc; [|done]. injection H as <-.
    apply contains_spec in Hc. split; [|done]. simpl. intros e'. by rewrite Hl; intros [= <-].
  - injection H as <-. split; [|done]. simpl. intros e'. by rewrite Hl.
Qed.

Lemma validate_entry_sound st v m :
  validate_entry st v = Ok m ->
  mutation_fits st m /\ value_sequence v = Some (mutation_sequence m).
Proof.
  unfold validate_entry. intros H. bind_ok H. bind_ok H.
  destruct (contains _ _) eqn:Hc; [done|]. bind_ok H.
  apply map_err_ok, entry_mutation_sequence in Heqr.
  apply ok_or_ok in Heqr1. case_bool_decide; [|done]. injection H as <-. subst.
  split; [|done]. by split; [apply contains_false|].
Qed.

Lemma validate_record_sound st v m :
  validate_record st v = Ok m ->
  mutation_fits st m /\ value_sequence v = Some (mutation_sequence m).
Proof.
  unfold validate_record. intros H. bind_ok H.
  apply map_err_ok, record_mutation_sequence in Heqr.
  case_bool_decide as Hl; [|done]. case_bool_decide as Hr; [done|].
  injection H as <-. done.
Qed.

Lemma validate_fact_sound st s v m :
  validate_fact st s v = Ok m -> mutation_fits st m /\ mutation_sequence m = s.
Proof.
  unfold validate_fact. intros H. bind_ok H.
  destruct (String.eqb t "name"); [by injection H as <-|].
  destruct (String.eqb t "label"); [|done].
  bind_ok H. bind_ok H. destruct (contains _ _) eqn:Hc; [|done].
  injection H as <-. split; [by apply contains_spec|done].
Qed.

(** A mutation that passes validation carries the next sequence and fits. *)
Lemma validate_sound st v m :
  validate st v = Ok m ->
  mutation_fits st m /\ mutation_sequence m = u64_saturating_add (next_sequence st) 1.
Proof.
  unfold validate. intros H. bind_ok H. bind_ok H.
  apply ok_or_ok in Heqr0 as Hs. change (value_sequence v = Some t0) in Hs.
  destruct (negb _) eqn:Hn; [done|].
  apply negb_false_iff, Z.eqb_eq in Hn. subst t0.
  repeat match type of H with
         | (if ?b then _ else _) = _ => destruct b
         end; try done;
    [apply validate_lane_sound in H as [? Hm]
    |apply validate_entry_sound in H as [? Hm]
    |apply validate_record_sound in H as [? Hm]
    |apply validate_fact_sound in H as [? Hm]];
    (split; [done|congruence]).
Qed.

End Validation.

(** ** The invariant *)

Record state_wf (st : SessionState) : Prop := {
  wf_order_nodup : NoDup (entry_order st);
  wf_order_dom : forall id, id ∈ entry_order st <-> is_Some (state_entries st !! id);
  wf_ids : forall id e, state_entries st !! id = Some e -> entry_id e = id;
  wf_parents : forall i id e p,
    entry_order st !! i = Some id -> state_entries st !! id = Some e ->
    parent_id e = Some p -> exists j, j < i /\ entry_order st !! j = Some p;
  wf_lanes : forall l e, lanes st !! l = Some (Some e) -> is_Some (state_entries st !! e);
  wf_records_nodup : NoDup (record_id <$> state_records st);
  wf_used : used_record_ids st = list_to_set (record_id <$> state_records st);
  wf_record_lanes : forall r, r ∈ state_records st -> is_Some (lanes st !! record_lane r);
  wf_labels : forall id l, labels st !! id = Some l -> is_Some (state_entries st !! id);
  wf_sequence : (0 <= next_sequence st <= u64_max)%Z;
  wf_entry_sequences : forall id e, state_entries st !! id = Some e ->
    (sequence_get (entry_sequence e) <= next_sequence st)%Z;
  wf_record_sequences : forall r, r ∈ state_records st ->
    (sequence_get (record_sequence r) <= next_sequence st)%Z;
  wf_sorted : forall i j id id' e e',
    i < j -> entry_order st !! i = Some id -> entry_order st !! j = Some id' ->
    state_entries st !! id = Some e -> state_entries st !! id' = Some e' ->
    (sequence_get (entry_sequence e) < sequence_get (entry_sequence e'))%Z;
  wf_name : named st = false -> state_name st = None
}.

Lemma new_state_wf : state_wf new_state.
Proof.
  split; simpl; try set_solver.
  - constructor.
  - intros id. rewrite lookup_empty. split; [by intros ?%not_elem_of_nil|by intros []].
  - intros l e H. destruct (decide (l = main_lane)) as [->|]; simplify_map_eq.
  - constructor.
  - unfold u64_max. lia.
Qed.

Lemma next_sequence_step z :
  (0 <= z <= u64_max)%Z -> (0 <= z /\ z <= u64_saturating_add z 1 <= u64_max)%Z.
Proof. unfold u64_saturating_add. lia. Qed.

(** A typed sequence is below the [u64] ceiling, so it really is the next one. *)
Lemma sequence_is_next (s : Sequence) z :
  (0 <= z)%Z -> sequence_get s = u64_saturating_add z 1 -> (sequence_get s = z + 1)%Z.
Proof.
  intros Hz. pose proof (sequence_range s) as Hs. unfold u64_saturating_add, u64_max,
    MAX_SAFE_INTEGER in *. lia.
Qed.

Section Commit.
Context (st : SessionState) (Hwf : state_wf st).

Lemma commit_lane_wf m :
  mutation_fits st (VLane m) ->
  sequence_get (lm_sequence m) = u64_saturating_add (next_sequence st) 1 ->
  state_wf (commit st (VLane m)).
Proof.
  intros Hfit Hseq. pose proof (next_sequence_step _ (wf_sequence _ Hwf)) as Hn.
  rewrite <- Hseq in Hn.
  split; simpl; try apply Hwf.
  - intros l e Hl. destruct (decide (l = lm_lane m)) as [->|Hne]; simplify_map_eq.
    + by apply Hfit.
    + by apply (wf_lanes _ Hwf) in Hl.
  - intros r Hr. destruct (wf_record_lanes _ Hwf r Hr) as [x Hx].
    destruct (decide (record_lane r = lm_lane m)) as [->|]; by simplify_map_eq.
  - lia.
  - intros id e He. pose proof (wf_entry_sequences _ Hwf _ _ He). lia.
  - intros r Hr. pose proof (wf_record_sequences _ Hwf _ Hr). lia.
Qed.

Lemma lookup_order_app i id x :
  (entry_order st ++ [x])%list !! i = Some id ->
  entry_order st !! i = Some id \/ (i = length (entry_order st) /\ id = x).
Proof.
  intros H. apply lookup_app_Some in H as [H|[Hi H]]; [by left|right].
  destruct (i - length (entry_order st)) eqn:Hd; simpl in H; [|by destruct n].
  injection H as <-. split; [lia|done].
Qed.

Lemma commit_entry_wf m :
  mutation_fits st (VEntry m) ->
  sequence_get (entry_sequence (em_entry m)) = u64_saturating_add (next_sequence st) 1 ->
  state_wf (commit st (VEntry m)).
Proof.
  intros [Hfresh Hlane] Hseq. set (e := em_entry m) in *.
  apply sequence_is_next in Hseq; [|apply Hwf].
  assert (entry_id e ∉ entry_order st) as Hnew.
  { intros H%(wf_order_dom _ Hwf). rewrite Hfresh in H. by destruct H. }
  pose proof (sequence_range (entry_sequence e)) as Hrange.
  split; simpl; fold e; try apply Hwf.
  - apply NoDup_app. split; [apply Hwf|]. split; [|apply NoDup_singleton].
    intros x Hx ->%list_elem_of_singleton. done.
  - intros id. rewrite elem_of_app, list_elem_of_singleton, (wf_order_dom _ Hwf).
    destruct (decide (id = entry_id e)) as [->|Hne]; simplify_map_eq.
    + split; [by eexists|by right].
    + split; [intros [?|?]; done|by left].
  - intros id x H. destruct (decide (id = entry_id e)) as [->|]; simplify_map_eq;
      [done|by apply Hwf].
  - intros i id x p Hi Hx Hp. apply lookup_order_app in Hi as [Hi|[-> ->]].
    + assert (id <> entry_id e). { intros ->. by eapply Hnew, list_elem_of_lookup_2. }
      simplify_map_eq. destruct (wf_parents _ Hwf _ _ _ _ Hi Hx Hp) as (j & ? & Hj).
      exists j. split; [done|]. by apply lookup_app_l_Some.
    + simplify_map_eq. rewrite Hp in Hlane.
      apply (wf_lanes _ Hwf), (wf_order_dom _ Hwf), list_elem_of_lookup in Hlane as [j Hj].
      exists j. split; [by eapply lookup_lt_Some|by apply lookup_app_l_Some].
  - intros l x Hl. destruct (decide (l = em_lane m)) as [->|]; simplify_map_eq; [done|].
    + apply (wf_lanes _ Hwf) in Hl.
      destruct (decide (x = entry_id e)) as [->|]; by simplify_map_eq.
  - intros r Hr. destruct (wf_record_lanes _ Hwf r Hr) as [x Hx].
    destruct (decide (record_lane r = em_lane m)) as [->|]; by simplify_map_eq.
  - intros id l Hl%(wf_labels _ Hwf).
    destruct (decide (id = entry_id e)) as [->|]; by simplify_map_eq.
  - unfold MAX_SAFE_INTEGER, u64_max in *. lia.
  - intros id x Hx. destruct (decide (id = entry_id e)) as [->|]; simplify_map_eq; [done|].
    apply (wf_entry_sequences _ Hwf) in Hx. lia.
  - intros r Hr%(wf_record_sequences _ Hwf). lia.
  - intros i j id id' x x' Hij Hi Hj Hx Hx'.
    apply lookup_order_app in Hj as [Hj|[-> ->]];
      apply lookup_order_app in Hi as [Hi|[-> ->]].
    + assert (id <> entry_id e). { intros ->. by eapply Hnew, list_elem_of_lookup_2. }
      assert (id' <> entry_id e). { intros ->. by eapply Hnew, list_elem_of_lookup_2. }
      simplify_map_eq. by eapply (wf_sorted _ Hwf i j).
    + apply lookup_lt_Some in Hj. lia.
    + assert (id <> entry_id e). { intros ->. by eapply Hnew, list_elem_of_lookup_2. }
      simplify_map_eq. pose proof (wf_entry_sequences _ Hwf _ _ Hx). lia.
    + lia.
Qed.

Lemma commit_record_wf m :
  mutation_fits st (VRecord m) ->
  sequence_get (record_sequence (rm_record m)) = u64_saturating_add (next_sequence st) 1 ->
  state_wf (commit st (VRecord m)).
Proof.
  intros [Hlane Hfresh] Hseq. pose proof (next_sequence_step _ (wf_sequence _ Hwf)) as Hn.
  rewrite <- Hseq in Hn. rewrite (wf_used _ Hwf), elem_of_list_to_set in Hfresh.
  split; simpl; try apply Hwf.
  - rewrite fmap_app. apply NoDup_app. split; [apply Hwf|].
    split; [|apply NoDup_singleton]. intros x Hx ->%list_elem_of_singleton. done.
  - rewrite (wf_used _ Hwf), fmap_app, list_to_set_app_L. simpl.
    by rewrite (right_id_L ∅ (∪)), (comm_L (∪)).
  - intros r [Hr| ->%list_elem_of_singleton]%elem_of_app; [by apply Hwf|done].
  - lia.
  - intros id e He%(wf_entry_sequences _ Hwf). lia.
  - intros r [Hr%(wf_record_sequences _ Hwf)| ->%list_elem_of_singleton]%elem_of_app; lia.
Qed.

Lemma commit_name_wf s n :
  s = u64_saturating_add (next_sequence st) 1 -> state_wf (commit st (VName s n)).
Proof.
  intros ->. pose proof (next_sequence_step _ (wf_sequence _ Hwf)) as Hn.
  split; simpl; try apply Hwf; try done.
  - lia.
  - intros id e He%(wf_entry_sequences _ Hwf). lia.
  - intros r Hr%(wf_record_sequences _ Hwf). lia.
Qed.

Lemma commit_label_wf s i l :
  mutation_fits st (VLabel s i l) ->
  s = u64_saturating_add (next_sequence st) 1 -> state_wf (commit st (VLabel s i l)).
Proof.
  intros Hfit ->. pose proof (next_sequence_step _ (wf_sequence _ Hwf)) as Hn.
  split; simpl; try apply Hwf.
  - intros id x. destruct l as [l|].
    + intros Hx. destruct (decide (id = i)) as [->|]; simplify_map_eq; [done|].
      by eapply wf_labels.
    + intros [_ Hx]%lookup_delete_Some. by eapply wf_labels.
  - lia.
  - intros id e He%(wf_entry_sequences _ Hwf). lia.
  - intros r Hr%(wf_record_sequences _ Hwf). lia.
Qed.

Lemma commit_fits_wf m :
  mutation_fits st m ->
  mutation_sequence m = u64_saturating_add (next_sequence st) 1 ->
  state_wf (commit st m).
Proof.
  destruct m; intros; eauto using commit_lane_wf, commit_entry_wf, commit_record_wf,
    commit_name_wf, commit_label_wf.
Qed.

End Commit.

Lemma validated_commit_wf `{ContentCodec} st v m :
  state_wf st -> validate st v = Ok m -> state_wf (commit st m).
Proof.
  intros Hwf [Hfit Hseq]%validate_sound. by apply commit_fits_wf.
Qed.

(** ** The parent walk *)

(** [ancestors st cursor path]: [path] is the root-to-leaf chain of entries
    reached from [cursor] by parent links. *)
Inductive ancestors (st : SessionState) : option EntryId -> list SessionEntry -> Prop :=
| anc_root : ancestors st None []
| anc_step id e path :
    state_entries st !! id = Some e ->
    ancestors st (parent_id e) path ->
    ancestors st (Some id) (path ++ [e])%list.

Lemma ancestors_det st c p p' : ancestors st c p -> ancestors st c p' -> p = p'.
Proof.
  intros H. revert p'. induction H as [|id e p He Hp IH]; intros p' H'; inversion H'; subst.
  - done.
  - rewrite He in H0. injection H0 as <-. f_equal. by apply IH.
Qed.

(** The walk never runs out of fuel: each step visits an entry not seen before. *)
Lemma branch_loop_total fuel st visited cursor acc :
  visited ⊆ dom (state_entries st) ->
  size (state_entries st) - size visited < fuel - 1 ->
  is_Some (branch_loop fuel st visited cursor acc).
Proof.
  revert visited cursor acc. induction fuel as [|fuel IH]; intros visited cursor acc Hv Hf;
    [lia|]. simpl. destruct cursor as [id|]; [|by eexists].
  case_bool_decide as Hid; [by eexists|].
  destruct (state_entries st !! id) as [e|] eqn:He; [|by eexists].
  assert ({[id]} ∪ visited ⊆ dom (state_entries st)) as Hsub.
  { apply union_subseteq. split; [|done].
    apply singleton_subseteq_l, elem_of_dom. by eexists. }
  apply IH; [done|].
  pose proof (subseteq_size _ _ Hsub) as Hsize. rewrite size_dom in Hsize.
  rewrite size_union, size_singleton in * by set_solver. lia.
Qed.

Lemma state_branch_fuel st leaf :
  is_Some (branch_loop (branch_fuel st) st ∅ (Some leaf) []).
Proof.
  apply branch_loop_total; [set_solver|].
  unfold branch_fuel. rewrite size_empty. lia.
Qed.

(** Whatever the walk returns is the ancestor chain. *)
Lemma branch_loop_sound fuel st visited cursor acc p :
  branch_loop fuel st visited cursor acc = Some (Ok p) ->
  exists q, p = (q ++ acc)%list /\ ancestors st cursor q.
Proof.
  revert visited cursor acc. induction fuel as [|fuel IH]; intros visited cursor acc H;
    simpl in H; [done|].
  destruct cursor as [id|].
  - case_bool_decide; [done|]. destruct (state_entries st !! id) as [e|] eqn:He; [|done].
    apply IH in H as (q & -> & Hq). exists (q ++ [e])%list. split; [by rewrite <- app_assoc|].
    by constructor.
  - injection H as <-. exists []. split; [done|constructor].
Qed.

(** With distinct, unvisited ancestors the walk finds the whole chain. *)
Lemma branch_loop_complete fuel st visited cursor acc q :
  ancestors st cursor q ->
  NoDup (entry_id <$> q) ->
  (forall e, e ∈ q -> entry_id e ∉ visited) ->
  (forall id e, state_entries st !! id = Some e -> entry_id e = id) ->
  length q < fuel ->
  branch_loop fuel st visited cursor acc = Some (Ok (q ++ acc)%list).
Proof.
  intros Hq. revert fuel visited acc.
  induction Hq as [|id e q He Hq IH]; intros fuel visited acc Hnd Hv Hids Hf;
    (destruct fuel as [|fuel]; [simpl in *; lia|]); simpl; [done|].
  pose proof (Hids _ _ He) as <-.
  rewrite fmap_app in Hnd. apply NoDup_app in Hnd as (Hnd & Hdis & _).
  rewrite bool_decide_eq_false_2.
  2: { apply Hv. rewrite elem_of_app, list_elem_of_singleton. by right. }
  rewrite He, <- app_assoc. simpl. apply IH; try done.
  - intros x Hx. rewrite elem_of_union, elem_of_singleton. intros [Heq|Hin].
    + apply (Hdis (entry_id x)).
      * by apply list_elem_of_fmap_2.
      * rewrite Heq. apply list_elem_of_here.
    + by eapply Hv; [apply elem_of_app; left|].
  - rewrite length_app in Hf. simpl in Hf. lia.
Qed.

Section Branch.
Context (st : SessionState) (Hwf : state_wf st).

(** Parents come earlier in the log, so every entry has a finite chain. *)
Lemma ancestors_at i id :
  entry_order st !! i = Some id ->
  exists p, ancestors st (Some id) p /\
    NoDup (entry_id <$> p) /\
    (forall e, e ∈ p -> exists j, j <= i /\ entry_order st !! j = Some (entry_id e)) /\
    length p <= S i.
Proof.
  revert id. induction i as [i IH] using lt_wf_ind; intros id Hi.
  destruct (proj1 (wf_order_dom _ Hwf id)) as [e He]; [by eapply list_elem_of_lookup_2|].
  pose proof (wf_ids _ Hwf _ _ He) as Hid.
  destruct (parent_id e) as [parent|] eqn:Hp.
  - destruct (wf_parents _ Hwf _ _ _ _ Hi He Hp) as (j & Hj & Hpj).
    destruct (IH j Hj _ Hpj) as (p & Hanc & Hnd & Hidx & Hlen).
    exists (p ++ [e])%list. repeat split.
    + econstructor; [done|by rewrite Hp].
    + rewrite fmap_app. apply NoDup_app. split; [done|]. split; [|apply NoDup_singleton].
      intros x Hx ->%list_elem_of_singleton.
      apply list_elem_of_fmap in Hx as (y & Hy & Hin). apply Hidx in Hin as (k & Hk & Hky).
      rewrite <- Hy, Hid in Hky.
      pose proof (NoDup_lookup _ _ _ _ (wf_order_nodup _ Hwf) Hi Hky). lia.
    + intros x [Hx| ->%list_elem_of_singleton]%elem_of_app.
      * destruct (Hidx _ Hx) as (k & ? & ?). exists k. split; [lia|done].
      * exists i. by rewrite Hid.
    + rewrite length_app. simpl. lia.
  - exists [e]. repeat split.
    + apply (anc_step st id e []); [done|]. rewrite Hp. constructor.
    + apply NoDup_singleton.
    + intros x ->%list_elem_of_singleton. exists i. by rewrite Hid.
    + simpl. lia.
Qed.

Lemma order_length : length (entry_order st) = size (state_entries st).
Proof.
  rewrite <- size_dom.
  rewrite <- (size_list_to_set (C := gset EntryId) _ (wf_order_nodup _ Hwf)). f_equal.
  apply set_eq. intros x. rewrite elem_of_list_to_set, elem_of_dom. apply Hwf.
Qed.

Lemma state_branch_ancestors leaf p :
  ancestors st (Some leaf) p -> state_branch st leaf = Ok p.
Proof.
  intros Hanc. assert (is_Some (state_entries st !! leaf)) as Hleaf.
  { inversion Hanc; subst. by eexists. }
  apply (wf_order_dom _ Hwf), list_elem_of_lookup in Hleaf as [i Hi].
  destruct (ancestors_at i leaf Hi) as (q & Hq & Hnd & _ & Hlen).
  pose proof (ancestors_det _ _ _ _ Hanc Hq) as <-.
  apply lookup_lt_Some in Hi. rewrite order_length in Hi.
  unfold state_branch. rewrite (branch_loop_complete _ _ _ _ _ p); try done.
  - by rewrite app_nil_r.
  - apply Hwf.
  - unfold branch_fuel. lia.
Qed.

Lemma state_branch_exists leaf :
  is_Some (state_entries st !! leaf) ->
  exists p, state_branch st leaf = Ok p /\ ancestors st (Some leaf) p.
Proof.
  intros [i Hi]%(wf_order_dom _ Hwf)%list_elem_of_lookup.
  destruct (ancestors_at i leaf Hi) as (p & Hp & _). exists p.
  split; [by apply state_branch_ancestors|done].
Qed.

End Branch.

Lemma state_branch_sound st leaf p :
  state_branch st leaf = Ok p -> ancestors st (Some leaf) p.
Proof.
  unfold state_branch. destruct (branch_loop _ _ _ _ _) as [r|] eqn:H; [|done].
  intros ->. apply branch_loop_sound in H as (q & -> & Hq). by rewrite app_nil_r.
Qed.

Lemma ancestors_mono st st' c p :
  state_entries st ⊆ state_entries st' -> ancestors st c p -> ancestors st' c p.
Proof.
  intros Hsub. induction 1 as [|id e p He Hp IH]; econstructor; [|done].
  by eapply lookup_weaken.
Qed.

(** Growing the log never changes a branch already there. *)
Lemma state_branch_mono st st' leaf p :
  state_wf st' -> state_entries st ⊆ state_entries st' ->
  state_branch st leaf = Ok p -> state_branch st' leaf = Ok p.
Proof.
  intros Hwf Hsub H%state_branch_sound.
  by apply state_branch_ancestors; [|eapply ancestors_mono].
Qed.
