(* ===== verification/StoreLaws.v ===== *)
(** The JSONL session implements the [SessionStore] interface: its operations
    keep the projection well formed and change the tree as the laws say. *)

From S2P Require Import Prelude Scalar Json Message StoreModel StoreState StoreSession.
From S2P Require Import StoreInv.
Open Scope string_scope.
Open Scope rust_scope.

(** The tree a state shows depends on its lanes and entries alone. *)
Lemma branch_loop_entries fuel st st' visited cursor acc :
  state_entries st' = state_entries st ->
  branch_loop fuel st' visited cursor acc = branch_loop fuel st visited cursor acc.
Proof.
  intros He. revert visited cursor acc.
  induction fuel as [|fuel IH]; intros visited cursor acc; simpl; [done|].
  destruct cursor as [id|]; [|done]. case_bool_decide; [done|]. rewrite He.
  by destruct (state_entries st !! id).
Qed.

Lemma state_branch_entries st st' leaf :
  state_entries st' = state_entries st -> state_branch st' leaf = state_branch st leaf.
Proof.
  intros He. unfold state_branch, branch_fuel.
  by rewrite He, (branch_loop_entries _ st st').
Qed.

Section Laws.
Context {R : RigTypes} {CC : ContentCodec R} {JT : JsonText}.

Lemma same_tree_state (s s' : JsonlSessionStore) :
  lanes (jsonl_state s') = lanes (jsonl_state s) ->
  state_entries (jsonl_state s') = state_entries (jsonl_state s) ->
  same_tree s s'.
Proof.
  intros Hl He. repeat split; intros; simpl.
  - unfold state_lane. by rewrite Hl.
  - by apply state_branch_entries.
  - by rewrite He.
Qed.

Lemma same_tree_same_state (s s' : JsonlSessionStore) :
  jsonl_state s' = jsonl_state s -> same_tree s s'.
Proof. intros H. by apply same_tree_state; rewrite H. Qed.

(** The two ways a mutation can go: it is applied, or nothing is. *)
Inductive outcome {A} (s s' : JsonlSessionStore) (P : A -> ValidatedMutation -> Prop)
  : result A StoreError -> Prop :=
| applied a m value :
    validate (jsonl_state s) value = Ok m ->
    jsonl_state s' = commit (jsonl_state s) m ->
    P a m -> outcome s s' P (Ok a)
| refused e :
    jsonl_state s' = jsonl_state s -> outcome s s' P (Err e).

Lemma persist_outcome {T} `{ToValue T} (x : T) s :
  outcome s (persist x s).2
    (fun _ m => validate (jsonl_state s) (to_value x) = Ok m) (persist x s).1.
Proof.
  unfold persist. destruct (validate _ _) as [v|e] eqn:Hv; [|by apply refused].
  unfold append. destruct (write_line _ _) as [[[]|e] f]; simpl.
  - by eapply applied.
  - by apply refused.
Qed.

Lemma outcome_wf {A} s s' P (r : result A StoreError) :
  state_wf (jsonl_state s) -> outcome s s' P r -> state_wf (jsonl_state s').
Proof.
  intros Hwf [a m value Hv Hs _|e Hs]; rewrite Hs; [|done].
  by eapply validated_commit_wf.
Qed.

Lemma outcome_ok {A} s s' P (a : A) :
  outcome s s' P (Ok a) -> exists m value,
    validate (jsonl_state s) value = Ok m /\
    jsonl_state s' = commit (jsonl_state s) m /\ P a m.
Proof. inversion 1; subst. eauto. Qed.

Lemma outcome_err {A} s s' P e :
  outcome (A := A) s s' P (Err e) -> jsonl_state s' = jsonl_state s.
Proof. by inversion 1. Qed.

Lemma outcome_weaken {A} s s' (P Q : A -> ValidatedMutation -> Prop) r :
  (forall a m, P a m -> Q a m) -> outcome s s' P r -> outcome s s' Q r.
Proof. intros HPQ [a m v Hv Hs HP|e Hs]; [eapply applied|apply refused]; eauto. Qed.

(** ** Decoding what an operation just encoded *)

Lemma validate_kind st v m :
  validate st v = Ok m ->
  match str_field "kind" v with
  | Some k => (if String.eqb k "lane" then validate_lane st v
              else if String.eqb k "entry" then validate_entry st v
              else if String.eqb k "record" then validate_record st v
              else if String.eqb k "fact" then validate_fact st (mutation_sequence m) v
              else Err (InvalidSession k)) = Ok m
  | None => False
  end.
Proof.
  unfold validate. intros H. bind_ok H. bind_ok H. apply ok_or_ok in Heqr as ->.
  destruct (negb _); [done|]. repeat case_match; try done.
  pose proof (validate_fact_sound _ _ _ _ H) as [_ ->]. done.
Qed.

Lemma validate_lane_value st x m :
  lm_kind x = MutLane -> validate st (to_value x) = Ok m -> m = VLane x.
Proof.
  intros Hk H%validate_kind.
  assert (str_field "kind" (to_value x) = Some "lane") as Hkind.
  { unfold str_field, to_value, to_value_lane_mutation. simpl. simplify_map_eq.
    by rewrite Hk. }
  rewrite Hkind in H. simpl in H. unfold validate_lane, decode in H.
  rewrite roundtrip_lane_mutation in H. simpl in H.
  destruct (lm_leaf_id x); [destruct (contains _ _); [|done]|]; by injection H.
Qed.

Lemma validate_entry_value st x m :
  em_kind x = MutEntry -> disjoint_keys entry_fields (entry_payload (em_entry x)) ->
  validate st (to_value x) = Ok m -> m = VEntry x.
Proof.
  intros Hk Hp H%validate_kind.
  assert (str_field "kind" (to_value x) = Some "entry") as Hkind.
  { unfold str_field, to_value, to_value_entry_mutation. simpl.
    rewrite (lookup_under_payload _ _ _ _ Hp) by set_solver. simplify_map_eq.
    by rewrite Hk. }
  rewrite Hkind in H. simpl in H. unfold validate_entry, decode in H.
  rewrite entry_mutation_roundtrip in H by done. cbn [map_err result_bind] in H.
  bind_ok H. destruct (contains _ _); [done|]. bind_ok H.
  case_bool_decide; [|done]. by injection H.
Qed.

Lemma validate_record_value st x m :
  rm_kind x = MutRecord -> disjoint_keys record_fields (record_payload (rm_record x)) ->
  validate st (to_value x) = Ok m -> m = VRecord x.
Proof.
  intros Hk Hp H%validate_kind.
  assert (str_field "kind" (to_value x) = Some "record") as Hkind.
  { unfold str_field, to_value, to_value_record_mutation. simpl.
    rewrite (lookup_under_payload _ _ _ _ Hp) by set_solver. simplify_map_eq.
    by rewrite Hk. }
  rewrite Hkind in H. simpl in H. unfold validate_record, decode in H.
  rewrite record_mutation_roundtrip in H by done. cbn [map_err result_bind] in H.
  case_bool_decide; [|done]. case_bool_decide; [done|]. by injection H.
Qed.

Lemma validate_name_value st s n m :
  validate st (to_value (name_fact s n)) = Ok m -> m = VName (mutation_sequence m) n.
Proof.
  intros H%validate_kind.
  assert (str_field "kind" (to_value (name_fact s n)) = Some "fact") as Hkind.
  { unfold str_field, to_value, to_value_name_fact. simpl. by simplify_map_eq. }
  rewrite Hkind in H. simpl in H. unfold validate_fact in H.
  assert (str_field "fact" (to_value (name_fact s n)) = Some "name") as Hfact.
  { unfold str_field, to_value, to_value_name_fact. simpl. by simplify_map_eq. }
  rewrite Hfact in H. simpl in H. injection H as H. rewrite <- H at 1. f_equal.
  unfold str_field, to_value, to_value_name_fact. simpl.
  unfold skip_none. destruct n; by simplify_map_eq.
Qed.

Lemma validate_label_value st x m :
  lf_kind x = MutFact -> lf_fact x = FactLabel ->
  validate st (to_value x) = Ok m ->
  m = VLabel (mutation_sequence m) (lf_target_id x) (lf_label x).
Proof.
  intros Hk Hf H%validate_kind.
  assert (str_field "kind" (to_value x) = Some "fact") as Hkind.
  { unfold str_field, to_value, to_value_label_fact. simpl. simplify_map_eq.
    by rewrite Hk. }
  rewrite Hkind in H. simpl in H. unfold validate_fact in H.
  assert (str_field "fact" (to_value x) = Some "label") as Hfact.
  { unfold str_field, to_value, to_value_label_fact. simpl. simplify_map_eq.
    by rewrite Hf. }
  rewrite Hfact in H. simpl in H.
  assert (str_field "targetId" (to_value x) = Some (as_str (lf_target_id x))) as Htgt.
  { unfold str_field, to_value, to_value_label_fact. simpl. by simplify_map_eq. }
  rewrite Htgt in H. simpl in H. rewrite id_try_from_as_str in H. simpl in H.
  destruct (contains _ _); [|done]. injection H as H. rewrite <- H at 1. f_equal.
  unfold str_field, to_value, to_value_label_fact. simpl.
  unfold skip_none. destruct (lf_label x); by simplify_map_eq.
Qed.

(** ** What each operation does *)

Definition lane_set (l : LaneId) (to : option EntryId) (m : ValidatedMutation) : Prop :=
  exists q, m = VLane {| lm_kind := MutLane; lm_sequence := q; lm_lane := l; lm_leaf_id := to |}.

Lemma create_lane_outcome l to (s : JsonlSessionStore) :
  outcome s (create_lane l to s).2 (fun _ => lane_set l to) (create_lane l to s).1.
Proof.
  cbn. unfold jsonl_create_lane.
  case_bool_decide; [by apply refused|]. destruct (from_option _ _ _); [by apply refused|].
  destruct (candidate_sequence _) as [q|]; [|by apply refused].
  eapply outcome_weaken, persist_outcome. intros [] m Hv.
  exists q. by eapply validate_lane_value in Hv.
Qed.

Lemma move_lane_outcome l to (s : JsonlSessionStore) :
  outcome s (move_lane l to s).2 (fun _ => lane_set l to) (move_lane l to s).1.
Proof.
  cbn. unfold jsonl_move_lane. case_bool_decide; [by apply refused|].
  destruct (match to with Some e => _ | None => _ end); [|by apply refused].
  destruct (candidate_sequence _) as [q|]; [|by apply refused].
  eapply outcome_weaken, persist_outcome. intros [] m Hv.
  exists q. by eapply validate_lane_value in Hv.
Qed.

(** The entry returned by [append_entry], and the mutation that was applied. *)
Definition entry_added (s : JsonlSessionStore) (l : LaneId) (new : NewEntry)
  (x : SessionEntry) (m : ValidatedMutation) : Prop :=
  entry_id x = new_entry_id new /\ entry_kind x = new_entry_kind new /\
  new_entry_payload new = JObject (entry_payload x) /\
  lanes (jsonl_state s) !! l = Some (parent_id x) /\
  validate (jsonl_state s)
    (to_value {| em_kind := MutEntry; em_lane := l; em_entry := x |}) = Ok m.

Lemma append_entry_outcome l new (s : JsonlSessionStore) :
  outcome s (append_entry l new s).2 (entry_added s l new) (append_entry l new s).1.
Proof.
  cbn. unfold jsonl_append_entry. destruct (contains _ _); [by apply refused|].
  destruct (lanes _ !! l) as [parent|] eqn:Hl; [|by apply refused].
  destruct (new_entry_payload new) as [| | | | |payload] eqn:Hp; try by apply refused.
  destruct (candidate_sequence _) as [q|]; [|by apply refused].
  unfold m_bind, m_ret, read_clock. cbv beta iota zeta.
  match goal with |- context [persist ?mu ?s1] =>
    pose proof (persist_outcome mu s1) as Ho; destruct (persist mu s1) as [[[]|e] s2]
  end; simpl in *.
  - apply outcome_ok in Ho as (m & v & Hv & Hs & Hm). by eapply applied.
  - apply outcome_err in Ho. by apply refused.
Qed.

Definition record_added (s : JsonlSessionStore) (new : NewRecord)
  (x : SessionRecord) (m : ValidatedMutation) : Prop :=
  record_id x = new_record_id new /\ record_kind x = new_record_kind new /\
  record_lane x = new_record_lane new /\ record_run_id x = new_record_run_id new /\
  new_record_payload new = JObject (record_payload x) /\
  validate (jsonl_state s) (to_value {| rm_kind := MutRecord; rm_record := x |}) = Ok m.

Lemma append_record_outcome new (s : JsonlSessionStore) :
  outcome s (append_record new s).2 (record_added s new) (append_record new s).1.
Proof.
  cbn. unfold jsonl_append_record. case_bool_decide; [by apply refused|].
  case_bool_decide; [by apply refused|].
  destruct (new_record_payload new) as [| | | | |payload] eqn:Hp; try by apply refused.
  destruct (candidate_sequence _) as [q|]; [|by apply refused].
  unfold m_bind, m_ret, read_clock. cbv beta iota zeta.
  match goal with |- context [persist ?mu ?s1] =>
    pose proof (persist_outcome mu s1) as Ho; destruct (persist mu s1) as [[[]|e] s2]
  end; simpl in *.
  - apply outcome_ok in Ho as (m & v & Hv & Hs & Hm). by eapply applied.
  - apply outcome_err in Ho. by apply refused.
Qed.

Lemma set_name_outcome n (s : JsonlSessionStore) :
  outcome s (set_name n s).2 (fun _ m => exists q, m = VName q n) (set_name n s).1.
Proof.
  cbn. unfold jsonl_set_name.
  destruct (candidate_sequence _) as [q|]; [|by apply refused].
  eapply outcome_weaken, persist_outcome. intros [] m Hv.
  eexists. by eapply validate_name_value.
Qed.

Lemma set_label_outcome i n (s : JsonlSessionStore) :
  outcome s (set_label i n s).2 (fun _ m => exists q, m = VLabel q i n) (set_label i n s).1.
Proof.
  cbn. unfold jsonl_set_label. destruct (contains _ _); [|by apply refused].
  destruct (candidate_sequence _) as [q|]; [|by apply refused].
  eapply outcome_weaken, persist_outcome. intros [] m Hv.
  eexists. by eapply validate_label_value in Hv.
Qed.

Lemma sync_same_state (s : JsonlSessionStore) : jsonl_state (sync s).2 = jsonl_state s.
Proof. cbn. unfold jsonl_sync. by destruct (sync_file _) as [r f]. Qed.

(** ** The laws *)

Lemma pair_eta {A B} (p : A * B) a b : p = (a, b) -> p.1 = a /\ p.2 = b.
Proof. by intros ->. Qed.

Lemma outcome_refused_tree {A} (op : M JsonlSessionStore StoreError A) P s e s' :
  outcome s (op s).2 P (op s).1 -> op s = (Err e, s') -> same_tree s s'.
Proof.
  intros Ho [H1 <-]%pair_eta. rewrite H1 in Ho.
  by apply same_tree_same_state, (outcome_err _ _ _ _ Ho).
Qed.

Lemma commit_lane_tree st q l to :
  let st' := commit st (VLane {| lm_kind := MutLane; lm_sequence := q; lm_lane := l;
                                 lm_leaf_id := to |}) in
  state_lane st' l = to /\ (forall l', l' <> l -> state_lane st' l' = state_lane st l') /\
  state_entries st' = state_entries st.
Proof.
  simpl. unfold state_lane. simpl. rewrite lookup_insert_eq. repeat split.
  intros l' Hl'. by rewrite lookup_insert_ne.
Qed.

Lemma append_entry_law (s s' : JsonlSessionStore) l new payload x b :
  state_wf (jsonl_state s) ->
  new_entry_payload new = JObject payload -> disjoint_keys entry_fields payload ->
  lane_branch s l = Ok b ->
  append_entry l new s = (Ok x, s') ->
  entry_id x = new_entry_id new /\ entry_kind x = new_entry_kind new /\
  entry_payload x = payload /\
  lane s' l = Some (entry_id x) /\ lane_branch s' l = Ok (b ++ [x])%list /\
  (forall l', l' <> l -> lane s' l' = lane s l') /\
  (forall leaf b', branch s leaf = Ok b' -> branch s' leaf = Ok b') /\
  (forall i, get_entry s' i = if decide (i = entry_id x) then Some x else get_entry s i).
Proof.
  intros Hwf Hp Hdis Hb [H1 <-]%pair_eta.
  pose proof (append_entry_outcome l new s) as Ho. rewrite H1 in Ho.
  pose proof (outcome_wf _ _ _ _ Hwf Ho) as Hwf'.
  apply outcome_ok in Ho as (m & v & Hv & Hs & Hid & Hk & Hpay & Hpar & Hm).
  rewrite Hp in Hpay. injection Hpay as Hpay. subst payload.
  apply validate_entry_value in Hm as ->; [|done..].
  apply validate_sound in Hv as [[Hfresh _] _]. simpl in Hfresh.
  set (s' := (append_entry l new s).2) in *.
  assert (state_entries (jsonl_state s) ⊆ state_entries (jsonl_state s')) as Hsub.
  { rewrite Hs. simpl. by apply insert_subseteq. }
  assert (lane s' l = Some (entry_id x)) as Hlane.
  { simpl. unfold state_lane. rewrite Hs. simpl. by rewrite lookup_insert_eq. }
  do 3 (split; [done|]). split; [done|]. split; [|split; [|split]].
  - unfold lane_branch. rewrite Hlane. apply state_branch_ancestors; [done|].
    econstructor; [rewrite Hs; simpl; apply lookup_insert_eq|].
    apply (ancestors_mono (jsonl_state s)); [done|].
    unfold lane_branch in Hb. simpl in Hb. unfold state_lane in Hb. rewrite Hpar in Hb.
    simpl in Hb. destruct (parent_id x); [by apply state_branch_sound|].
    injection Hb as <-. constructor.
  - intros l' Hl'. simpl. unfold state_lane. rewrite Hs. simpl. by rewrite lookup_insert_ne.
  - intros leaf b'. by apply state_branch_mono.
  - intros i. simpl. rewrite Hs. simpl. case_decide as Hi; [subst i; apply lookup_insert_eq|].
    by rewrite lookup_insert_ne.
Qed.

Lemma append_entry_fresh_law (s s' : JsonlSessionStore) l new x :
  append_entry l new s = (Ok x, s') -> get_entry s (new_entry_id new) = None.
Proof.
  cbn. unfold jsonl_append_entry. destruct (contains _ _) eqn:Hc; [done|]. intros _.
  unfold contains in Hc. apply bool_decide_eq_false in Hc. by apply eq_None_not_Some.
Qed.

Lemma append_entry_records_law (s : JsonlSessionStore) l new payload :
  new_entry_payload new = JObject payload -> disjoint_keys entry_fields payload ->
  records (append_entry l new s).2 = records s.
Proof.
  intros Hp Hdis. pose proof (append_entry_outcome l new s) as Ho.
  destruct (append_entry l new s) as [[x|e] s']; simpl in *.
  - apply outcome_ok in Ho as (m & v & _ & Hs & _ & _ & Hpay & _ & Hm).
    rewrite Hp in Hpay. injection Hpay as Hpay. subst payload.
    apply validate_entry_value in Hm as ->; [|done..]. by rewrite Hs.
  - apply outcome_err in Ho. by rewrite Ho.
Qed.

Lemma append_record_law (s s' : JsonlSessionStore) new payload x :
  new_record_payload new = JObject payload -> disjoint_keys record_fields payload ->
  append_record new s = (Ok x, s') ->
  same_tree s s' /\ records s' = (records s ++ [x])%list /\
  record_id x = new_record_id new /\ record_kind x = new_record_kind new /\
  record_lane x = new_record_lane new /\ record_payload x = payload.
Proof.
  intros Hp Hdis [H1 <-]%pair_eta.
  pose proof (append_record_outcome new s) as Ho. rewrite H1 in Ho.
  apply outcome_ok in Ho as (m & v & Hv & Hs & Hid & Hk & Hl & _ & Hpay & Hm).
  rewrite Hp in Hpay. injection Hpay as Hpay. subst payload.
  apply validate_record_value in Hm as ->; [|done..].
  set (s' := (append_record new s).2) in *. split; [by apply same_tree_state; rewrite Hs|].
  split; [|done]. simpl. by rewrite Hs.
Qed.

#[export] Instance jsonl_store_laws : SessionStoreLaws JsonlSessionStore.
Proof.
  refine {| store_wf := fun s => state_wf (jsonl_state s) |}.
  - intros s l leaf Hwf Hl. simpl in *. unfold state_lane in Hl.
    destruct (lanes (jsonl_state s) !! l) as [[e|]|] eqn:He; try done. injection Hl as ->.
    apply (wf_lanes _ Hwf) in He.
    by destruct (state_branch_exists _ Hwf leaf He) as (p & -> & _).
  - intros s l e Hwf. eapply outcome_wf, append_entry_outcome. done.
  - intros s l e err s' _. apply outcome_refused_tree with (1 := append_entry_outcome l e s).
  - intros *. apply append_entry_law.
  - intros *. apply append_entry_fresh_law.
  - intros *. apply append_entry_records_law.
  - intros s l to Hwf. eapply outcome_wf, move_lane_outcome. done.
  - intros s l to err s'. apply outcome_refused_tree with (1 := move_lane_outcome l to s).
  - intros s l to s' [H1 <-]%pair_eta. pose proof (move_lane_outcome l to s) as Ho.
    rewrite H1 in Ho. apply outcome_ok in Ho as (m & v & _ & Hs & q & ->).
    destruct (commit_lane_tree (jsonl_state s) q l to) as (Ha & Hb & Hc).
    rewrite <- Hs in Ha, Hb, Hc. repeat split; [done|done| |].
    + intros leaf. by apply state_branch_entries.
    + intros e. simpl in *. by rewrite Hc.
  - intros s r Hwf. eapply outcome_wf, append_record_outcome. done.
  - intros s r err s' [H1 <-]%pair_eta. pose proof (append_record_outcome r s) as Ho.
    rewrite H1 in Ho. apply outcome_err in Ho. split; [by apply same_tree_same_state|].
    simpl in *. by rewrite Ho.
  - intros *. apply append_record_law.
  - intros s Hwf. by rewrite sync_same_state.
  - intros s. apply same_tree_same_state, sync_same_state.
  - intros s. pose proof (sync_same_state s) as Hs. simpl in *. by rewrite Hs.
  - intros s n Hwf. eapply outcome_wf, set_name_outcome. done.
  - intros s n. pose proof (set_name_outcome n s) as Ho.
    destruct (set_name n s) as [[[]|e] s']; simpl in *.
    + apply outcome_ok in Ho as (m & v & Hv & Hs & q & ->). by apply same_tree_state; rewrite Hs.
    + by apply same_tree_same_state, (outcome_err _ _ _ _ Ho).
  - intros s n. pose proof (set_name_outcome n s) as Ho.
    destruct (set_name n s) as [[[]|e] s']; simpl in *.
    + apply outcome_ok in Ho as (m & v & Hv & Hs & q & ->). by rewrite Hs.
    + apply outcome_err in Ho. by rewrite Ho.
  - intros s n s' [H1 <-]%pair_eta. pose proof (set_name_outcome n s) as Ho.
    rewrite H1 in Ho. apply outcome_ok in Ho as (m & v & _ & Hs & q & ->).
    simpl in *. by rewrite Hs.
  - intros s n err s' [H1 <-]%pair_eta. pose proof (set_name_outcome n s) as Ho.
    rewrite H1 in Ho. apply outcome_err in Ho. simpl in *. by rewrite Ho.
  - intros s i n Hwf. eapply outcome_wf, set_label_outcome. done.
  - intros s i n. pose proof (set_label_outcome i n s) as Ho.
    destruct (set_label i n s) as [[[]|e] s']; simpl in *.
    + apply outcome_ok in Ho as (m & v & Hv & Hs & q & ->). by apply same_tree_state; rewrite Hs.
    + by apply same_tree_same_state, (outcome_err _ _ _ _ Ho).
Defined.

End Laws.
