(* ===== verification/StoreFactory.v ===== *)
(** The filesystem-backed factory: [crates/store/src/factory.rs].

    The filesystem is a map from paths to texts with an oracle for the outcome
    of each system call; an opened session holds its own file handle, whose
    text [save_store] puts back. *)

From S2P Require Import Prelude Scalar Json Message StoreModel StoreState StoreSession.
Open Scope string_scope.
Open Scope rust_scope.

(** ** Headers *)

Inductive HeaderKind : Type := Header.

#[export] Instance to_value_header_kind : ToValue HeaderKind :=
  fun _ => JString "header".
#[export] Instance from_value_header_kind : FromValue HeaderKind := fun v =>
  match v with
  | JString "header" => Ok Header
  | _ => Err (JsonError "unknown header kind")
  end.
#[export] Instance roundtrip_header_kind : Roundtrip HeaderKind.
Proof. by intros []. Qed.

(** [u8] fields *)
Definition u8_from_value (v : json) : result Z json_error :=
  match json_as_u64 v with
  | Some z => if (z <=? 255)%Z then Ok z else Err (JsonError "expected u8")
  | None => Err (JsonError "expected u8")
  end.

#[export] Instance to_value_ownership : ToValue SessionOwnership := fun o =>
  match o with
  | OwnedByTool session_id tool_call_id =>
      JObject (<["kind" := JString "tool"]>
              (<["sessionId" := to_value session_id]>
              {[ "toolCallId" := to_value tool_call_id ]}))
  | OwnedBackground session_id name =>
      JObject (<["kind" := JString "background"]>
              (<["sessionId" := to_value session_id]>
              {[ "name" := to_value name ]}))
  end.

#[export] Instance from_value_ownership : FromValue SessionOwnership := fun v =>
  let? o := as_object v in
  let? kind := field (T := string) "kind" o in
  if String.eqb kind "tool" then
    let? session_id := field "sessionId" o in
    let? tool_call_id := field "toolCallId" o in
    Ok (OwnedByTool session_id tool_call_id)
  else if String.eqb kind "background" then
    let? session_id := field "sessionId" o in
    let? name := field "name" o in
    Ok (OwnedBackground session_id name)
  else Err (JsonError "unknown ownership kind").

#[export] Instance roundtrip_ownership : Roundtrip SessionOwnership.
Proof.
  intros []; unfold from_value, to_value, from_value_ownership, to_value_ownership, field;
    cbn [as_object result_bind]; simplify_map_eq; cbn [from_value from_value_string result_bind];
    simpl; simplify_map_eq; by rewrite ?from_to_value.
Qed.
#[export] Instance never_null_ownership : NeverNull SessionOwnership.
Proof. by intros []. Qed.

Record V4Header : Type := {
  v4_kind : HeaderKind;
  v4_version : Z;
  v4_id : SessionId;
  v4_created_at : TimestampMs;
  v4_cwd : string;
  v4_parent_session_id : option SessionId;
  v4_ownership : option SessionOwnership
}.

#[export] Instance to_value_v4_header : ToValue V4Header := fun h =>
  JObject (<["kind" := to_value (v4_kind h)]>
          (<["version" := json_u64 (v4_version h)]>
          (<["id" := to_value (v4_id h)]>
          (<["createdAt" := to_value (v4_created_at h)]>
          (<["cwd" := to_value (v4_cwd h)]>
          (skip_none "parentSessionId" (v4_parent_session_id h) ∪
           skip_none "ownership" (v4_ownership h))))))).

#[export] Instance from_value_v4_header : FromValue V4Header := fun v =>
  let? o := as_object v in
  let? kind := field "kind" o in
  let? version := match o !! "version" with
                  | Some v => u8_from_value v
                  | None => Err (JsonError "missing field version")
                  end in
  let? id := field "id" o in
  let? created_at := field "createdAt" o in
  let? cwd := field "cwd" o in
  let? parent := opt_field "parentSessionId" o in
  let? ownership := opt_field "ownership" o in
  Ok {| v4_kind := kind; v4_version := version; v4_id := id; v4_created_at := created_at;
        v4_cwd := cwd; v4_parent_session_id := parent; v4_ownership := ownership |}.

(** ** Paths *)

(** [CwdSessionDirectory::from] *)
Definition is_path_separator (a : ascii) : bool :=
  Ascii.eqb a "/" || Ascii.eqb a "\".

Fixpoint trim_start_separators (s : string) : string :=
  match s with
  | String a r => if is_path_separator a then trim_start_separators r else s
  | EmptyString => EmptyString
  end.

Fixpoint string_map (f : ascii -> ascii) (s : string) : string :=
  match s with
  | String a r => String (f a) (string_map f r)
  | EmptyString => EmptyString
  end.

Definition encode_separator (a : ascii) : ascii :=
  if is_path_separator a || Ascii.eqb a ":" then "-"%char else a.

Definition cwd_session_directory (cwd : string) : string :=
  "--" +:+ string_map encode_separator (trim_start_separators cwd) +:+ "--".

(** [Path::join] of a relative component *)
Definition path_join (a b : string) : string := a +:+ "/" +:+ b.

(** The part of [s] before the last [c], and the part after it. *)
Fixpoint rsplit_once (c : ascii) (s : string) : option (string * string) :=
  match s with
  | EmptyString => None
  | String a r =>
      match rsplit_once c r with
      | Some (x, y) => Some (String a x, y)
      | None => if Ascii.eqb a c then Some (EmptyString, r) else None
      end
  end.

Definition path_parent (p : string) : string :=
  match rsplit_once "/" p with Some (d, _) => d | None => "" end.
Definition path_file_name (p : string) : string :=
  match rsplit_once "/" p with Some (_, f) => f | None => p end.

(** [Path::extension]: what follows the last dot of a name that does not
    start at that dot. *)
Definition path_extension (p : string) : option string :=
  match rsplit_once "." (path_file_name p) with
  | Some (EmptyString, _) | None => None
  | Some (_, ext) => Some ext
  end.

(** [Path::with_extension] *)
Definition path_with_extension (p ext : string) : string :=
  match path_extension p with
  | Some old => str_take (String.length p - String.length old) p +:+ ext
  | None => p +:+ "." +:+ ext
  end.

Fixpoint starts_with (pre s : string) : bool :=
  match pre, s with
  | EmptyString, _ => true
  | String a p, String b r => Ascii.eqb a b && starts_with p r
  | _, _ => false
  end.

(** [str::ends_with] *)
Definition ends_with (suffix s : string) : bool :=
  Nat.leb (String.length suffix) (String.length s) &&
  String.eqb (str_drop (String.length s - String.length suffix) s) suffix.

(** ** Lines *)

(** [content.split('\n')] without the empty piece after a final newline. *)
Definition split_lines (content : string) : list string :=
  let lines := split_char newline content in
  match last lines with
  | Some EmptyString => removelast lines
  | _ => lines
  end.

Fixpoint strip_return (s : string) : string :=
  match s with
  | String a EmptyString => if Ascii.eqb a carriage_return then EmptyString else s
  | String a r => String a (strip_return r)
  | EmptyString => EmptyString
  end.

(** [str::lines]: also drops one carriage return from each terminated line. *)
Definition str_lines (content : string) : list string :=
  let lines := split_char newline content in
  match last lines with
  | Some EmptyString => map strip_return (removelast lines)
  | Some final => (map strip_return (removelast lines) ++ [final])%list
  | None => []
  end.

(** ** The filesystem *)

Inductive fs_outcome : Type := FsDone | FsNotFound | FsFailed.

Record FileSystem : Type := {
  fs_files : gmap string string;
  fs_dirs : gset string;
  fs_modified : string -> Z;
  fs_calls : nat -> fs_outcome;
  fs_call_count : nat;
  (** The write and clock oracles of the [n]-th handle opened. *)
  fs_handles : nat -> (nat -> io_event) * (nat -> TimestampMs);
  fs_handle_count : nat
}.

Definition fs_with_files (f : FileSystem) (m : gmap string string) : FileSystem :=
  {| fs_files := m; fs_dirs := fs_dirs f; fs_modified := fs_modified f;
     fs_calls := fs_calls f; fs_call_count := fs_call_count f;
     fs_handles := fs_handles f; fs_handle_count := fs_handle_count f |}.

Record JsonlStoreFactory : Type := {
  sessions_root : string;
  factory_clock : ClockHandle;
  factory_fs : FileSystem
}.

Definition with_fs (f : JsonlStoreFactory) (s : FileSystem) : JsonlStoreFactory :=
  {| sessions_root := sessions_root f; factory_clock := factory_clock f; factory_fs := s |}.

Definition files (f : JsonlStoreFactory) : gmap string string := fs_files (factory_fs f).

Definition with_files (f : JsonlStoreFactory) (m : gmap string string) : JsonlStoreFactory :=
  with_fs f (fs_with_files (factory_fs f) m).

Abbreviation F := (M JsonlStoreFactory StoreError).

(** One system call. *)
Definition fs_call_outcome : F fs_outcome := fun f =>
  let s := factory_fs f in
  (Ok (fs_calls s (fs_call_count s)),
   with_fs f {| fs_files := fs_files s; fs_dirs := fs_dirs s; fs_modified := fs_modified s;
                fs_calls := fs_calls s; fs_call_count := S (fs_call_count s);
                fs_handles := fs_handles s; fs_handle_count := fs_handle_count s |}).

Definition fs_call : F unit :=
  let! o := fs_call_outcome in
  match o with FsDone => m_ret tt | _ => m_fail Io end.

Definition factory_now : F TimestampMs := fun f =>
  (Ok (clock_now (factory_clock f)),
   {| sessions_root := sessions_root f; factory_clock := clock_tick (factory_clock f);
      factory_fs := factory_fs f |}).

Definition put_file (path content : string) : F unit := fun f =>
  (Ok tt, with_files f (<[path := content]> (files f))).
Definition delete_file (path : string) : F unit := fun f =>
  (Ok tt, with_files f (delete path (files f))).

Definition file_content (path : string) : F string :=
  fun f => (ok_or (files f !! path) Io, f).

(** [fs::read_to_string]; the text of a Rust [String] is UTF-8. *)
Definition read_to_string (path : string) : F string :=
  let! _ := fs_call in
  let! content := file_content path in
  if utf8_valid content then m_ret content else m_fail Io.

(** A buffered handle on a file, with oracles of its own. *)
Definition file_handle (path : string) : F (FileHandle * ClockHandle) :=
  let! content := file_content path in
  fun f =>
    let s := factory_fs f in
    let '(io, clock) := fs_handles s (fs_handle_count s) in
    (Ok ({| disk := content; buffered := ""; io_events := io; io_count := 0 |},
         {| readings := clock; clock_count := 0 |}),
     with_fs f {| fs_files := fs_files s; fs_dirs := fs_dirs s;
                  fs_modified := fs_modified s; fs_calls := fs_calls s;
                  fs_call_count := fs_call_count s; fs_handles := fs_handles s;
                  fs_handle_count := S (fs_handle_count s) |}).

(** [OpenOptions::new().append(true).open] *)
Definition open_handle (path : string) : F (FileHandle * ClockHandle) :=
  let! _ := fs_call in file_handle path.

(** [create_dir_all] *)
Definition create_dir_all (dir : string) : F unit :=
  let! _ := fs_call in
  fun f =>
    let s := factory_fs f in
    (Ok tt, with_fs f {| fs_files := fs_files s;
                         fs_dirs := {[ dir; sessions_root f ]} ∪ fs_dirs s;
                         fs_modified := fs_modified s; fs_calls := fs_calls s;
                         fs_call_count := fs_call_count s; fs_handles := fs_handles s;
                         fs_handle_count := fs_handle_count s |}).

(** [OpenOptions::create_new]: an existing file is an error. *)
Definition create_new_file (path : string) : F unit :=
  let! _ := fs_call in
  fun f =>
    if bool_decide (is_Some (files f !! path)) then (Err Io, f)
    else if bool_decide (path_parent path ∈ fs_dirs (factory_fs f)) then
      put_file path "" f
    else (Err Io, f).

(** [for x in l], keeping what the body yields. *)
Fixpoint collect_files {A} (body : string -> F (list A)) (l : list string) : F (list A) :=
  match l with
  | [] => m_ret []
  | x :: r => let! a := body x in
              let! b := collect_files body r in
              m_ret (a ++ b)%list
  end.

Section Factory.
Context {R : RigTypes} {CC : ContentCodec R} {JT : JsonText}.

(** [serde_json::from_str::<T>] *)
Definition from_text {T} `{FromValue T} (s : string) : result T json_error :=
  match parse s with
  | Some v => from_value v
  | None => Err (JsonError "invalid JSON")
  end.

(** What the file holds once a store over it is left alone or dropped: a
    dropped [BufWriter] tries to flush and ignores the outcome. *)
Definition save_store (s : JsonlSessionStore) : F unit :=
  put_file (jsonl_path s) (disk (jsonl_file s)).
Definition drop_store (s : JsonlSessionStore) : F unit :=
  save_store (with_file s (sync_file (jsonl_file s)).2).

(** Runs a store operation inside a factory method. *)
Definition on_store {A} (op : M JsonlSessionStore StoreError A) (s : JsonlSessionStore)
  : F (A * JsonlSessionStore) :=
  match op s with
  | (Ok a, s') => m_ret (a, s')
  | (Err e, s') => let! _ := drop_store s' in m_fail e
  end.

(** ** Creating *)

Definition header_new (options : SessionCreateOptions) (created_at : TimestampMs)
  (ownership : option SessionOwnership) : V4Header :=
  {| v4_kind := Header; v4_version := 4; v4_id := create_session_id options;
     v4_created_at := created_at; v4_cwd := create_cwd options;
     v4_parent_session_id := create_parent_session_id options;
     v4_ownership := ownership |}.

(** [JsonlStoreFactory::create_with] *)
Definition create_with (options : SessionCreateOptions)
  (ownership : option SessionOwnership) : F JsonlSessionStore :=
  let! created_at := factory_now in
  let! f := m_get in
  let directory := path_join (sessions_root f) (cwd_session_directory (create_cwd options)) in
  let! _ := create_dir_all directory in
  let path := path_join directory
                (timestamp_to_string created_at +:+ "_" +:+ as_str (create_session_id options)
                 +:+ ".jsonl") in
  let header := header_new options created_at ownership in
  let! _ := create_new_file path in
  let! handle := file_handle path in
  let store := {| jsonl_session_id := v4_id header; jsonl_path := path;
                  jsonl_clock := handle.2; jsonl_file := handle.1;
                  jsonl_state := new_state |} in
  let! written := on_store (append (to_value header)) store in
  let! synced := on_store jsonl_sync written.2 in
  let! _ := save_store synced.2 in
  m_ret synced.2.

(** [create], [create_owned] *)
Definition create (options : SessionCreateOptions) : F JsonlSessionStore :=
  create_with options None.
Definition create_owned (options : SessionCreateOptions) (ownership : SessionOwnership)
  : F JsonlSessionStore := create_with options (Some ownership).

(** ** Opening *)

(** How the loop over the lines ended. *)
Inductive Tail : Type :=
| Whole
| Torn (valid_lines : list string).

(** The replay loop; [done] holds the lines already taken, nearest last. *)
Fixpoint replay_lines (st : SessionState) (done lines : list string)
  : result (SessionState * Tail) StoreError :=
  match lines with
  | [] => Ok (st, Whole)
  | line :: rest =>
      match parse line with
      | Some value =>
          let? st' := apply_loaded_mutation st value in
          replay_lines st' (done ++ [line])%list rest
      | None =>
          match rest with
          | [] => Ok (st, Torn done)
          | _ => Err (InvalidSession ("line " +:+ u64_to_string (Z.of_nat (S (length done)))
                        +:+ " is invalid JSON"))
          end
      end
  end.

Definition is_v4 (h : V4Header) : bool := (v4_version h =? 4)%Z.

(** The part of [open] that only looks at the text. *)
Definition load (content : string) : result (V4Header * SessionState * Tail) StoreError :=
  match split_lines content with
  | [] => Err (InvalidSession "missing header")
  | header_line :: rest =>
      let? header := map_err (fun '(JsonError what) => InvalidSession what)
                       (from_text header_line) in
      if negb (is_v4 header) then
        Err (InvalidSession "unsupported or missing v4 header")
      else
        let? (st, tail) := replay_lines new_state [header_line] rest in
        Ok (header, st, tail)
  end.

(** [repair_torn_tail]: a temporary file renamed over the log. *)
Definition repair_torn_tail (path : string) (valid_lines : list string) : F unit :=
  let temporary := path_with_extension path "jsonl.tmp" in
  let content := join nl valid_lines +:+ nl in
  let! _ := fs_call in
  let! _ := put_file temporary content in
  let! _ := fs_call in
  let! _ := put_file path content in
  if String.eqb temporary path then m_ret tt else delete_file temporary.

(** [JsonlStoreFactory::open] *)
Definition open (path : string) : F JsonlSessionStore :=
  let! content := read_to_string path in
  let! loaded := m_lift (load content) in
  let '(header, st, tail) := loaded in
  let! _ := match tail with
            | Torn valid_lines => repair_torn_tail path valid_lines
            | Whole => m_ret tt
            end in
  let! handle := open_handle path in
  let store := {| jsonl_session_id := v4_id header; jsonl_path := path;
                  jsonl_clock := handle.2; jsonl_file := handle.1; jsonl_state := st |} in
  match tail with
  | Whole =>
      if ends_with_char newline content then m_ret store
      else
        let! fixed := on_store (fun s => let '(r, f) := write_line "" (jsonl_file s) in
                                         (r, with_file s f)) store in
        let! _ := save_store fixed.2 in
        m_ret fixed.2
  | Torn _ => m_ret store
  end.

(** ** Naming a session that is not loaded *)

(** The bytes from offset [start] to the end. *)
Definition read_from (content : string) (start : nat) : string := str_drop start content.

(** [body] when [s = body ++ "\n"]. *)
Fixpoint strip_newline (s : string) : option string :=
  match s with
  | EmptyString => None
  | String a EmptyString => if Ascii.eqb a newline then Some EmptyString else None
  | String a r => String a <$> strip_newline r
  end.

Definition line_sequence (line : string) : option Z :=
  v ← parse line; seq ← json_get "seq" v; json_as_u64 seq.

Definition first_window : Z := 64 * 1024.

(** The widening loop of [last_sequence]; [None] when [fuel] runs out. *)
Fixpoint last_sequence_loop (fuel : nat) (content : string) (window : Z)
  : option (option Z) :=
  match fuel with
  | O => None
  | S fuel =>
      let start := Z.max 0 (Z.of_nat (String.length content) - window) in
      match strip_newline (read_from content (Z.to_nat start)) with
      | None => Some None
      | Some body =>
          match rsplit_once newline body with
          | Some (_, line) => Some (line_sequence line)
          | None =>
              if (start =? 0)%Z then Some None
              else last_sequence_loop fuel content (Z.min (window * 4) u64_max)
          end
      end
  end.

(** One window per byte is more than enough: each is four times the last. *)
Definition last_sequence_fuel (content : string) : nat := S (String.length content).

Definition text_last_sequence (content : string) : option Z :=
  mjoin (last_sequence_loop (last_sequence_fuel content) content first_window).

(** [JsonlStoreFactory::last_sequence] *)
Definition file_last_sequence (path : string) : F (option Z) :=
  let! _ := fs_call in
  let! content := file_content path in
  m_ret (text_last_sequence content).

(** [set_name_at] *)
Definition set_name_at (path : string) (n : option string) : F unit :=
  let! last := file_last_sequence path in
  match last with
  | None =>
      let! store := open path in
      let! named := on_store (jsonl_set_name n) store in
      let! synced := on_store jsonl_sync named.2 in
      save_store synced.2
  | Some last =>
      let! sequence := m_lift (
        let? next := ok_or (u64_checked_add last 1) SequenceExhausted in
        map_err (fun _ => SequenceExhausted) (sequence_try_from next)) in
      let! handle := open_handle path in
      let line := print (to_value (name_fact sequence n)) +:+ nl in
      match io_events handle.1 0%nat with
      | IoDone =>
          let! _ := put_file path (disk handle.1 +:+ line) in
          fs_call
      | IoFailed _ written =>
          let! _ := put_file path (disk handle.1 +:+ str_take written line) in
          m_fail Io
      end
  end.

(** ** Forking *)

(** The ancestor loop of [fork], which has no cycle check of its own. *)
Fixpoint fork_loop (fuel : nat) (st : SessionState) (cursor : option EntryId)
  (acc : list SessionEntry) : option (result (list SessionEntry) StoreError) :=
  match fuel with
  | O => None
  | S fuel =>
      match cursor with
      | None => Some (Ok acc)
      | Some id =>
          match state_entries st !! id with
          | None => Some (Err (EntryNotFound id))
          | Some e => fork_loop fuel st (parent_id e) (e :: acc)
          end
      end
  end.

Definition fork_branch (st : SessionState) (leaf : EntryId)
  : result (list SessionEntry) StoreError :=
  match fork_loop (branch_fuel st) st (Some leaf) [] with
  | Some r => r
  | None => Err (InvalidSession "out of fuel")
  end.

Definition copied_entry (e : SessionEntry) : NewEntry :=
  {| new_entry_id := entry_id e; new_entry_kind := entry_kind e;
     new_entry_payload := JObject (entry_payload e) |}.

(** [for entry in branch { target.append_entry(..)?; }] *)
Fixpoint append_copies {S} `{SessionStore S} (l : LaneId) (es : list SessionEntry)
  : M S StoreError unit :=
  match es with
  | [] => m_ret tt
  | e :: r => let! _ := append_entry l (copied_entry e) in append_copies l r
  end.

(** What [fork] does to the session it created. *)
Definition fill_fork {S} `{SessionStore S} (l : LaneId) (es : list SessionEntry)
  : M S StoreError unit :=
  let! _ := (if String.eqb (as_str l) "main" then m_ret tt else create_lane l None) in
  append_copies l es.

(** [JsonlStoreFactory::fork] *)
Definition fork (source_path : string) (options : SessionForkOptions)
  : F JsonlSessionStore :=
  let! source := open source_path in
  let! branch := m_lift (fork_branch (jsonl_state source) (source_leaf options)) in
  let given := fork_create options in
  let parent := match create_parent_session_id given with
                | None => Some (jsonl_session_id source)
                | some => some
                end in
  let! target := create {| create_session_id := create_session_id given;
                           create_cwd := create_cwd given;
                           create_parent_session_id := parent |} in
  let! filled := on_store (fill_fork (fork_lane options) branch) target in
  let! _ := save_store filled.2 in
  m_ret filled.2.

(** ** Scanning *)

(** The directories a scan visits. *)
Definition session_directories (cwd : option string) : F (list string) :=
  let! f := m_get in
  match cwd with
  | Some cwd =>
      let directory := path_join (sessions_root f) (cwd_session_directory cwd) in
      m_ret (if bool_decide (directory ∈ fs_dirs (factory_fs f)) then [directory] else [])
  | None =>
      if bool_decide (sessions_root f ∈ fs_dirs (factory_fs f)) then
        let! _ := fs_call in
        m_ret (filter (fun d => path_parent d = sessions_root f)
                 (elements (fs_dirs (factory_fs f))))
      else m_ret []
  end.

(** [read_dir], keeping the regular files. *)
Definition directory_files (directory : string) : F (list string) :=
  let! _ := fs_call in
  let! f := m_get in
  m_ret (filter (fun p => path_parent p = directory) (elements (dom (files f)))).

Definition is_jsonl (path : string) : bool :=
  bool_decide (path_extension path = Some "jsonl").

(** The first line of a file with its newline, as [read_line] leaves it. *)
Fixpoint first_line (content : string) : string :=
  match content with
  | EmptyString => EmptyString
  | String a r => if Ascii.eqb a newline then nl else String a (first_line r)
  end.

(** The header a line holds, when it is a v4 header. *)
Definition text_header (line : string) : option V4Header :=
  match from_text line with
  | Ok h => if is_v4 h then Some h else None
  | Err _ => None
  end.

(** The body of [scan_headers]'s inner loop. *)
Definition scan_file (session_id : option SessionId) (path : string)
  : F (list SessionHeader) :=
  if negb (is_jsonl path)
     || from_option (fun id => negb (ends_with ("_" +:+ as_str id +:+ ".jsonl")
                                       (path_file_name path))) false session_id
  then m_ret []
  else
    let! opened := fs_call_outcome in
    match opened with
    | FsNotFound => m_ret []
    | FsFailed => m_fail Io
    | FsDone =>
        let! content := file_content path in
        let line := first_line content in
        if negb (utf8_valid line) then m_fail Io
        else match text_header line with
        | None => m_ret []
        | Some header =>
            if from_option (fun id => bool_decide (id <> v4_id header)) false session_id
            then m_ret []
            else m_ret [{| header_id := v4_id header; header_cwd := v4_cwd header;
                           header_ownership := v4_ownership header;
                           header_path := path |}]
        end
    end.

(** [scan_headers] *)
Definition scan_headers (cwd : option string) (session_id : option SessionId)
  : F (list SessionHeader) :=
  let! directories := session_directories cwd in
  collect_files (fun directory =>
    let! paths := directory_files directory in
    collect_files (scan_file session_id) paths) directories.

(** [headers], [header], [exists] *)
Definition headers (cwd : option string) : F (list SessionHeader) := scan_headers cwd None.

Definition find_header (session_id : SessionId) (l : list SessionHeader)
  : option SessionHeader :=
  head (filter (fun h => header_id h = session_id) l).

Definition header (session_id : SessionId) : F (option SessionHeader) :=
  let! fast := scan_headers None (Some session_id) in
  match head fast with
  | Some h => m_ret (Some h)
  | None => let! all := headers None in m_ret (find_header session_id all)
  end.

Definition exists_session (session_id : SessionId) : F bool :=
  let! h := header session_id in m_ret (bool_decide (is_Some h)).

(** The name the lines of a log leave, as [list] reads it. *)
Definition is_name_fact (v : json) : bool :=
  bool_decide (str_field "kind" v = Some "fact") &&
  bool_decide (str_field "fact" v = Some "name").

Definition scan_name (lines : list string) : option string :=
  foldl (fun n line =>
    match parse line with
    | Some v => if is_name_fact v then str_field "name" v else n
    | None => n
    end) None lines.

(** The body of [list]'s inner loop. *)
Definition list_file (path : string) : F (list SessionMetadata) :=
  if negb (is_jsonl path) then m_ret []
  else
    let! content := read_to_string path in
    match str_lines content with
    | [] => m_ret []
    | header_line :: rest =>
        match text_header header_line with
        | None => m_ret []
        | Some header =>
            let name := scan_name rest in
            let! _ := fs_call in
            let! f := m_get in
            m_ret [{| metadata_id := v4_id header; created_at_ms := v4_created_at header;
                      metadata_cwd := v4_cwd header;
                      metadata_parent_session_id := v4_parent_session_id header;
                      metadata_path := path;
                      modified_at_ms := timestamp_clamp (fs_modified (factory_fs f) path);
                      metadata_name := name;
                      metadata_ownership := v4_ownership header |}]
        end
    end.

(** [sort_by(|l, r| r.modified.cmp(l.modified))]: a stable sort, newest first. *)
Fixpoint insert_newest (m : SessionMetadata) (l : list SessionMetadata)
  : list SessionMetadata :=
  match l with
  | [] => [m]
  | x :: r => if timestamp_lt (modified_at_ms m) (modified_at_ms x)
              then x :: insert_newest m r else m :: l
  end.
Definition sort_newest (l : list SessionMetadata) : list SessionMetadata :=
  foldr insert_newest [] l.

(** [StoreFactory::list] *)
Definition list_sessions (cwd : option string) : F (list SessionMetadata) :=
  let! directories := session_directories cwd in
  let! sessions := collect_files (fun directory =>
    let! paths := directory_files directory in
    collect_files list_file paths) directories in
  m_ret (sort_newest sessions).

(** [StoreFactory::delete] *)
Fixpoint delete_all (l : list SessionHeader) : F unit :=
  match l with
  | [] => m_ret tt
  | h :: r =>
      let! o := fs_call_outcome in
      match o with
      | FsDone => let! _ := delete_file (header_path h) in delete_all r
      | FsNotFound => delete_all r
      | FsFailed => m_fail Io
      end
  end.

Definition delete_session (session_id : SessionId) : F unit :=
  let! all := headers None in
  delete_all (filter (fun h => header_id h = session_id) all).

End Factory.
