(* ===== verification/StoreLog.v ===== *)
(** The log and the projection agree: the text a session leaves on disk loads
    back to the state it held, and a write cut anywhere loads to the state
    before or after the mutation being written. *)

From S2P Require Import Prelude Lines Scalar Json Message StoreModel StoreState StoreSession.
From S2P Require Import StoreInv StoreLaws StoreFactory.
Open Scope string_scope.
Open Scope rust_scope.

(** ** The header line *)

Lemma v4_header_roundtrip h :
  (0 <= v4_version h <= 255)%Z -> from_value (to_value h) = Ok h.
Proof.
  intros Hv. unfold from_value, to_value, from_value_v4_header, to_value_v4_header, field,
    opt_field, skip_none, u8_from_value. cbn [as_object result_bind].
  destruct h as [[] v i c d [p|] [o|]]; simpl in *;
    rewrite ?(left_id_L ∅ (∪)), ?(right_id_L ∅ (∪)), <- ?insert_union_singleton_l;
    simplify_map_eq; rewrite !from_to_value; cbn [result_bind json_as_u64];
    (destruct (Z.leb_spec v 255); [|lia]); cbn [result_bind];
    repeat (rewrite from_value_some; cbn [result_bind]); done.
Qed.

Section Log.
Context {R : RigTypes} {CC : ContentCodec R} {JT : JsonText}.

(** Replaying decoded mutations in order. *)
Fixpoint replay_values (st : SessionState) (vs : list json)
  : result SessionState StoreError :=
  match vs with
  | [] => Ok st
  | v :: r => let? st' := apply_loaded_mutation st v in replay_values st' r
  end.

Lemma replay_values_app st vs ws :
  replay_values st (vs ++ ws)%list =
  (let? st' := replay_values st vs in replay_values st' ws).
Proof.
  revert st. induction vs as [|v vs IH]; intros st; [done|].
  simpl. destruct (apply_loaded_mutation st v); [apply IH|done].
Qed.

Lemma replay_values_wf st vs st' :
  state_wf st -> replay_values st vs = Ok st' -> state_wf st'.
Proof.
  revert st. induction vs as [|v vs IH]; intros st Hwf H; simpl in H.
  - by injection H as <-.
  - bind_ok H. eapply IH; [|done]. unfold apply_loaded_mutation in Heqr. bind_ok Heqr.
    injection Heqr as <-. by eapply validated_commit_wf.
Qed.

(** The text of a log with header [h] and mutations [vs]. *)
Definition log_lines (h : V4Header) (vs : list json) : list string :=
  print (to_value h) :: map print vs.
Definition log_text (h : V4Header) (vs : list json) : string := unlines (log_lines h vs).
#[global] Arguments log_text : simpl never.

Lemma print_lines vs : Forall one_line (map print vs).
Proof. apply (Forall_fmap print one_line), Forall_true. intros v. apply print_no_newline. Qed.

Lemma log_lines_ok h vs : Forall one_line (log_lines h vs).
Proof. constructor; [apply print_no_newline|apply print_lines]. Qed.

Lemma log_lines_utf8 h vs : utf8_valid (log_text h vs) = true.
Proof.
  apply utf8_unlines. constructor; [apply print_utf8|].
  apply (Forall_fmap print), Forall_true. intros v. apply print_utf8.
Qed.

Lemma log_text_snoc h vs v : log_text h (vs ++ [v])%list = log_text h vs +:+ (print v +:+ nl).
Proof.
  unfold log_text, log_lines. rewrite map_app.
  apply (unlines_snoc (print (to_value h) :: map print vs)).
Qed.

(** ** Splitting a log *)

Lemma split_lines_whole ls : Forall one_line ls -> split_lines (unlines ls) = ls.
Proof.
  intros Hls. unfold split_lines.
  pose proof (split_unlines ls "" Hls) as H. rewrite string_app_nil_r in H. rewrite H.
  simpl. by rewrite last_snoc, removelast_last.
Qed.

Lemma split_lines_partial ls t :
  Forall one_line ls -> one_line t -> t <> "" ->
  split_lines (unlines ls +:+ t) = (ls ++ [t])%list.
Proof.
  intros Hls Ht Hne. unfold split_lines.
  rewrite split_unlines, split_char_none by done. rewrite last_snoc.
  by destruct t.
Qed.

Lemma replay_lines_values st st' done vs :
  replay_values st vs = Ok st' ->
  replay_lines st done (map print vs) = Ok (st', Whole).
Proof.
  revert st done. induction vs as [|v vs IH]; intros st done H; cbn [map replay_values replay_lines] in *.
  - by injection H as ->.
  - rewrite parse_print. bind_ok H. cbn [result_bind]. by apply IH.
Qed.

(** A torn final line stops the replay at the lines before it. *)
Lemma replay_lines_torn st st' done vs t :
  replay_values st vs = Ok st' -> parse t = None ->
  replay_lines st done (map print vs ++ [t])%list = Ok (st', Torn (done ++ map print vs)%list).
Proof.
  revert st done. induction vs as [|v vs IH]; intros st done H Ht; cbn [map app replay_values replay_lines] in *.
  - rewrite Ht, app_nil_r. by injection H as ->.
  - rewrite parse_print. bind_ok H. cbn [result_bind]. rewrite IH by done.
    by rewrite <- app_assoc.
Qed.


Lemma from_text_print {T} `{ToValue T, FromValue T} (x : T) :
  from_text (print (to_value x)) = from_value (to_value x).
Proof. unfold from_text. by rewrite parse_print. Qed.

Lemma is_v4_version h : is_v4 h = true -> v4_version h = 4%Z.
Proof. apply Z.eqb_eq. Qed.

Lemma header_line_loads h :
  is_v4 h = true -> from_text (T := V4Header) (print (to_value h)) = Ok h.
Proof.
  intros Hv. rewrite from_text_print. apply v4_header_roundtrip.
  rewrite (is_v4_version _ Hv). lia.
Qed.

Lemma load_lines h content rest :
  is_v4 h = true -> split_lines content = print (to_value h) :: rest ->
  load content =
    (let? (st, tail) := replay_lines new_state [print (to_value h)] rest in
     Ok (h, st, tail)).
Proof.
  intros Hv Hl. unfold load. rewrite Hl, header_line_loads by done. simpl. by rewrite Hv.
Qed.

Lemma load_log h vs st :
  is_v4 h = true -> replay_values new_state vs = Ok st ->
  load (log_text h vs) = Ok (h, st, Whole).
Proof.
  intros Hv Hr. rewrite (load_lines h _ (map print vs) Hv).
  - by rewrite (replay_lines_values _ _ _ _ Hr).
  - apply split_lines_whole, log_lines_ok.
Qed.

Lemma load_torn h vs st t :
  is_v4 h = true -> replay_values new_state vs = Ok st ->
  one_line t -> t <> "" -> parse t = None ->
  load (log_text h vs +:+ t) = Ok (h, st, Torn (log_lines h vs)).
Proof.
  intros Hv Hr Ht Hne Hp. rewrite (load_lines h _ (map print vs ++ [t])%list Hv).
  - by rewrite (replay_lines_torn _ _ _ _ _ Hr Hp).
  - unfold log_text. rewrite split_lines_partial; [done|apply log_lines_ok|done..].
Qed.

Lemma load_unterminated h vs v st :
  is_v4 h = true -> replay_values new_state (vs ++ [v])%list = Ok st ->
  print v <> "" ->
  load (log_text h vs +:+ print v) = Ok (h, st, Whole).
Proof.
  intros Hv Hr Hne. rewrite (load_lines h _ (map print (vs ++ [v]))%list Hv).
  - by rewrite (replay_lines_values _ _ _ _ Hr).
  - unfold log_text. rewrite split_lines_partial; [|apply log_lines_ok| |done].
    + unfold log_lines. rewrite map_app. done.
    + apply print_no_newline.
Qed.

(** ** What one operation does to the file *)

Inductive op_effect (s s' : JsonlSessionStore) : bool -> Prop :=
| effect_refused :
    jsonl_file s' = jsonl_file s -> jsonl_state s' = jsonl_state s ->
    op_effect s s' false
| effect_written v m :
    validate (jsonl_state s) v = Ok m ->
    write_line (print v) (jsonl_file s) = (Ok tt, jsonl_file s') ->
    jsonl_state s' = commit (jsonl_state s) m ->
    op_effect s s' true
| effect_failed v m e :
    validate (jsonl_state s) v = Ok m ->
    write_line (print v) (jsonl_file s) = (Err e, jsonl_file s') ->
    jsonl_state s' = jsonl_state s ->
    op_effect s s' false
| effect_sync r :
    sync_file (jsonl_file s) = (r, jsonl_file s') ->
    jsonl_state s' = jsonl_state s ->
    op_effect s s' (is_ok r).

Lemma persist_effect {T} `{ToValue T} (x : T) s0 s :
  jsonl_file s = jsonl_file s0 -> jsonl_state s = jsonl_state s0 ->
  op_effect s0 (persist x s).2 (is_ok (persist x s).1).
Proof.
  intros Hf Hs. unfold persist. destruct (validate _ _) as [m|e] eqn:Hv.
  - unfold append. destruct (write_line _ _) as [[[]|e] f] eqn:Hw; simpl;
      rewrite Hf, Hs in *; econstructor; try done; by rewrite Hs.
  - simpl. by constructor.
Qed.

(** The mutating operations of a session. *)
Inductive store_op : Type :=
| OpCreateLane (l : LaneId) (at_entry : option EntryId)
| OpMoveLane (l : LaneId) (to : option EntryId)
| OpAppendEntry (l : LaneId) (e : NewEntry)
| OpAppendRecord (r : NewRecord)
| OpSetName (n : option string)
| OpSetLabel (i : EntryId) (n : option string)
| OpSync.

Definition run_op (op : store_op) : M JsonlSessionStore StoreError unit :=
  match op with
  | OpCreateLane l at_entry => create_lane l at_entry
  | OpMoveLane l to => move_lane l to
  | OpAppendEntry l e => let! _ := append_entry l e in m_ret tt
  | OpAppendRecord r => let! _ := append_record r in m_ret tt
  | OpSetName n => set_name n
  | OpSetLabel i n => set_label i n
  | OpSync => sync
  end.

(** A client that carries on whatever each call returns. *)
Definition run_ops (ops : list store_op) (s : JsonlSessionStore) : JsonlSessionStore :=
  foldl (fun s op => (run_op op s).2) s ops.

Lemma persist_effect_eq {T} `{ToValue T} (x : T) s0 s r s' :
  persist x s = (r, s') -> jsonl_file s = jsonl_file s0 -> jsonl_state s = jsonl_state s0 ->
  op_effect s0 s' (is_ok r).
Proof.
  intros Hp Hf Hs. pose proof (persist_effect x s0 s Hf Hs) as H0. by rewrite Hp in H0.
Qed.

Lemma run_op_effect op s : op_effect s (run_op op s).2 (is_ok (run_op op s).1).
Proof.
  destruct op; cbn [run_op create_lane move_lane append_entry append_record set_name
    set_label sync jsonl_session_store]; unfold jsonl_create_lane, jsonl_move_lane,
    jsonl_append_entry, jsonl_append_record, jsonl_set_name, jsonl_set_label, jsonl_sync,
    m_bind, m_ret, read_clock; cbv beta iota zeta;
    repeat case_match; simplify_eq; try (by constructor);
    try (by apply persist_effect);
    match goal with
    | H : persist _ _ = _ |- _ => by apply (persist_effect_eq _ _ _ _ _ H)
    | _ => simpl in *; by econstructor
    end.
Qed.

(** ** The log invariant *)

Record log_ok (s : JsonlSessionStore) (h : V4Header) (vs : list json) : Prop := {
  log_v4 : is_v4 h = true;
  log_disk : disk (jsonl_file s) = log_text h vs;
  log_buffered : buffered (jsonl_file s) = "";
  log_replay : replay_values new_state vs = Ok (jsonl_state s)
}.

Definition never_fails (f : FileHandle) : Prop := forall n, io_events f n = IoDone.

Lemma log_ok_loads s h vs :
  log_ok s h vs -> load (disk (jsonl_file s)) = Ok (h, jsonl_state s, Whole).
Proof. intros [Hv -> _ Hr]. by apply load_log. Qed.

Lemma log_ok_wf s h vs : log_ok s h vs -> state_wf (jsonl_state s).
Proof. intros H. eapply replay_values_wf, log_replay, H. apply new_state_wf. Qed.

Lemma replay_snoc vs v st m :
  replay_values new_state vs = Ok st -> validate st v = Ok m ->
  replay_values new_state (vs ++ [v])%list = Ok (commit st m).
Proof.
  intros Hr Hv. rewrite replay_values_app, Hr. simpl.
  unfold apply_loaded_mutation. by rewrite Hv.
Qed.

Lemma write_line_done line f f' :
  write_line line f = (Ok tt, f') ->
  disk f' = disk f +:+ (buffered f +:+ (line +:+ nl)) /\ buffered f' = "" /\
  io_events f' = io_events f.
Proof.
  unfold write_line. destruct (io_events f (io_count f)); [|done].
  intros [= <-]. done.
Qed.

(** After a failed write some prefix of the line may have reached the disk. *)
Lemma write_line_failed line f f' e :
  write_line line f = (Err e, f') -> buffered f = "" ->
  exists k, disk f' = disk f +:+ str_take k (line +:+ nl).
Proof.
  unfold write_line. destruct (io_events f (io_count f)) as [|a w]; [done|].
  intros [= _ <-] ->. simpl. exists (min w a). by rewrite string_app_nil_l, str_take_take.
Qed.

Lemma sync_file_disk f r f' :
  sync_file f = (r, f') -> buffered f = "" -> disk f' = disk f /\ buffered f' = "".
Proof.
  unfold sync_file. destruct (io_events f (io_count f)) as [|a w]; intros [= _ <-] ->; simpl.
  - by rewrite string_app_nil_r.
  - destruct w; simpl; by rewrite string_app_nil_r.
Qed.

Lemma sync_file_events f : io_events (sync_file f).2 = io_events f.
Proof. unfold sync_file. by destruct (io_events f (io_count f)). Qed.

(** A written mutation extends the log by one line. *)
Lemma written_log_ok s s' h vs v m :
  log_ok s h vs -> validate (jsonl_state s) v = Ok m ->
  write_line (print v) (jsonl_file s) = (Ok tt, jsonl_file s') ->
  jsonl_state s' = commit (jsonl_state s) m ->
  log_ok s' h (vs ++ [v])%list.
Proof.
  intros [H4 Hd Hb Hr] Hv (Hd' & Hb' & _)%write_line_done Hs. constructor; try done.
  - by rewrite Hd', Hd, Hb, string_app_nil_l, log_text_snoc.
  - rewrite Hs. by apply replay_snoc.
Qed.

Lemma effect_never_fails s s' b :
  never_fails (jsonl_file s) -> op_effect s s' b -> never_fails (jsonl_file s').
Proof.
  intros Hn [Hf _|v m _ Hw _|v m e _ Hw _|r Hsync _].
  - by rewrite Hf.
  - apply write_line_done in Hw as (_ & _ & He). intros n. by rewrite He.
  - unfold write_line in Hw. by rewrite Hn in Hw.
  - intros n. pose proof (sync_file_events (jsonl_file s)) as H.
    rewrite Hsync in H. simpl in H. by rewrite H.
Qed.

Lemma effect_log_ok s s' b h vs :
  never_fails (jsonl_file s) -> log_ok s h vs -> op_effect s s' b ->
  exists ws, log_ok s' h (vs ++ ws)%list.
Proof.
  intros Hn Hl [Hf Hs|v m Hv Hw Hs|v m e _ Hw _|r Hsync Hs].
  - exists []. rewrite app_nil_r. destruct Hl. by constructor; rewrite ?Hf, ?Hs.
  - exists [v]. by eapply written_log_ok.
  - unfold write_line in Hw. by rewrite Hn in Hw.
  - exists []. rewrite app_nil_r. destruct Hl.
    apply sync_file_disk in Hsync as [Hd Hb]; [|done].
    constructor; rewrite ?Hd, ?Hs; done.
Qed.

Lemma run_ops_log_ok ops s h vs :
  never_fails (jsonl_file s) -> log_ok s h vs ->
  exists ws, log_ok (run_ops ops s) h (vs ++ ws)%list.
Proof.
  revert s vs. induction ops as [|op ops IH]; intros s vs Hn Hl.
  - exists []. by rewrite app_nil_r.
  - pose proof (run_op_effect op s) as He.
    destruct (effect_log_ok _ _ _ _ _ Hn Hl He) as [ws Hl'].
    pose proof (effect_never_fails _ _ _ Hn He) as Hn'.
    destruct (IH _ _ Hn' Hl') as [us Hus]. exists (ws ++ us)%list. by rewrite app_assoc.
Qed.

(** ** Cutting the last write anywhere *)

Lemma validate_object st v m : validate st v = Ok m -> exists o, v = JObject o.
Proof. unfold validate, str_field, json_get. destruct v; try done. by eexists. Qed.

(** The text [open] leaves behind: the torn line dropped, or the final
    newline added. *)
Definition repaired (content : string) (tail : Tail) : string :=
  match tail with
  | Torn ls => join nl ls +:+ nl
  | Whole => if ends_with_char newline content then content else content +:+ nl
  end.

Lemma repaired_log h vs : repaired (log_text h vs) Whole = log_text h vs.
Proof. unfold repaired, log_text. by rewrite unlines_ends. Qed.

Lemma cut_load h vs st v m k :
  is_v4 h = true -> replay_values new_state vs = Ok st -> validate st v = Ok m ->
  let content := log_text h vs +:+ str_take k (print v +:+ nl) in
  exists tail ws st', load content = Ok (h, st', tail) /\
    repaired content tail = log_text h ws /\ replay_values new_state ws = Ok st' /\
    (ws = vs \/ ws = (vs ++ [v])%list).
Proof.
  intros H4 Hr Hv. destruct (validate_object _ _ _ Hv) as [o ->]. simpl.
  set (p := print (JObject o)). pose proof (replay_snoc _ _ _ _ Hr Hv) as Hr'.
  destruct (decide (String.length p < k)) as [Hk|Hk].
  { rewrite str_take_all by (rewrite string_length_app; simpl; lia).
    unfold p. rewrite <- log_text_snoc. exists Whole, (vs ++ [JObject o])%list, (commit st m).
    rewrite repaired_log. auto using load_log. }
  rewrite str_take_app_le by lia.
  destruct (decide (str_take k p = "")) as [->|Hne].
  { rewrite string_app_nil_r. exists Whole, vs, st. rewrite repaired_log.
    auto using load_log. }
  destruct (decide (k = String.length p)) as [->|Hk'].
  - rewrite str_take_all in * by done. unfold p in *.
    exists Whole, (vs ++ [JObject o])%list, (commit st m). rewrite log_text_snoc.
    unfold repaired. rewrite ends_with_char_app by done.
    rewrite ends_with_char_none by apply print_no_newline.
    rewrite <- string_app_assoc. auto using load_unterminated.
  - exists (Torn (log_lines h vs)), vs, st. unfold repaired. rewrite join_unlines by done.
    split; [|by auto]. apply load_torn; try done.
    + apply has_char_take_false, print_no_newline.
    + apply parse_torn. fold p. lia.
Qed.

(** After any one operation, whatever the disk did, the text still loads, to
    the log before the operation or with its mutation. *)
Lemma effect_load s s' b h vs :
  log_ok s h vs -> op_effect s s' b ->
  let content := disk (jsonl_file s') in
  exists tail ws st, load content = Ok (h, st, tail) /\
    repaired content tail = log_text h ws /\ replay_values new_state ws = Ok st /\
    (ws = vs \/ exists v, ws = (vs ++ [v])%list) /\ (b = true -> st = jsonl_state s').
Proof.
  intros Hl He. pose proof Hl as [H4 Hd Hb Hr].
  destruct He as [Hf Hs|v m Hv Hw Hs|v m e Hv Hw Hs|r Hsync Hs]; simpl.
  - exists Whole, vs, (jsonl_state s). rewrite Hf, Hd, repaired_log, Hs.
    repeat split; auto using load_log.
  - destruct (written_log_ok _ _ _ _ _ _ Hl Hv Hw Hs) as [_ Hd' _ Hr'].
    exists Whole, (vs ++ [v])%list, (jsonl_state s'). rewrite Hd', repaired_log.
    repeat split; eauto using load_log.
  - apply write_line_failed in Hw as [k ->]; [|done]. rewrite Hd.
    destruct (cut_load h vs _ v m k H4 Hr Hv) as (t & ws & st & ? & ? & ? & Hws).
    exists t, ws, st. repeat split; try done. destruct Hws; [by left|right; by eexists].
  - apply sync_file_disk in Hsync as [-> _]; [|done].
    exists Whole, vs, (jsonl_state s). rewrite Hd, repaired_log, Hs.
    repeat split; auto using load_log.
Qed.

End Log.
