(* ===== verification/StoreOpen.v ===== *)
(** Opening a log from the filesystem: what [open] returns and leaves behind
    when the system calls succeed. *)

From S2P Require Import Prelude Lines Scalar Json Message StoreModel StoreState.
From S2P Require Import StoreSession StoreInv StoreLaws StoreFactory StoreLog.
Open Scope string_scope.
Open Scope rust_scope.

Lemma m_bind_ok {S E A B} (c : M S E A) (k : A -> M S E B) s a s' :
  c s = (Ok a, s') -> m_bind c k s = k a s'.
Proof. unfold m_bind. by intros ->. Qed.

(** A filesystem whose calls, and whose handles' writes, all succeed. *)
Record healthy (f : JsonlStoreFactory) : Prop := {
  healthy_calls : forall n, fs_calls (factory_fs f) n = FsDone;
  healthy_handles : forall n k, (fs_handles (factory_fs f) n).1 k = IoDone
}.

(** Factories that agree on the files, and stay healthy. *)
Definition same_files (f f' : JsonlStoreFactory) : Prop :=
  files f' = files f /\ healthy f' /\ sessions_root f' = sessions_root f /\
  fs_dirs (factory_fs f') = fs_dirs (factory_fs f).

Lemma fs_call_healthy f : healthy f -> exists f', fs_call f = (Ok tt, f') /\ same_files f f'.
Proof.
  intros Hh. pose proof (healthy_calls _ Hh (fs_call_count (factory_fs f))) as Hc.
  unfold fs_call, fs_call_outcome, m_bind. rewrite Hc.
  eexists. split; [done|]. repeat split; apply Hh.
Qed.

Lemma with_files_healthy f m : healthy f -> healthy (with_files f m).
Proof. intros [Hc Hh]. by split. Qed.

Lemma read_to_string_healthy f path content :
  healthy f -> files f !! path = Some content -> utf8_valid content = true ->
  exists f', read_to_string path f = (Ok content, f') /\ same_files f f'.
Proof.
  intros Hh Hp Hu. destruct (fs_call_healthy f Hh) as (f1 & Hc & Hs).
  exists f1. unfold read_to_string. rewrite (m_bind_ok _ _ _ _ _ Hc).
  unfold file_content, m_bind. destruct Hs as (Hf & ?). rewrite Hf, Hp. simpl.
  by rewrite Hu.
Qed.

Lemma open_handle_healthy f path content :
  healthy f -> files f !! path = Some content ->
  exists hd ck f', open_handle path f = (Ok (hd, ck), f') /\ same_files f f' /\
    disk hd = content /\ buffered hd = "" /\ never_fails hd.
Proof.
  intros Hh Hp. destruct (fs_call_healthy f Hh) as (f1 & Hc & Hs).
  unfold open_handle. rewrite (m_bind_ok _ _ _ _ _ Hc).
  unfold file_handle, file_content, m_bind. pose proof Hs as (Hf & Hh1 & Hr & Hd). rewrite Hf, Hp. simpl.
  pose proof (healthy_handles _ Hh1 (fs_handle_count (factory_fs f1))) as Hio.
  destruct (fs_handles (factory_fs f1) _) as [io clock]. simpl in Hio.
  eexists _, _, _. split; [done|]. split; [|done].
  repeat split; try done; apply Hh1.
Qed.

Lemma repair_healthy f path ls :
  healthy f ->
  exists f', repair_torn_tail path ls f = (Ok tt, f') /\ healthy f' /\
    files f' !! path = Some (join nl ls +:+ nl) /\
    sessions_root f' = sessions_root f /\ fs_dirs (factory_fs f') = fs_dirs (factory_fs f).
Proof.
  intros Hh. unfold repair_torn_tail.
  set (tmp := path_with_extension path "jsonl.tmp"). set (content := join nl ls +:+ nl).
  destruct (fs_call_healthy f Hh) as (f1 & Hc & _ & Hh1 & Hr1 & Hd1).
  rewrite (m_bind_ok _ _ _ _ _ Hc). unfold put_file at 1, m_bind at 1.
  set (f2 := with_files f1 (<[tmp := content]> (files f1))).
  destruct (fs_call_healthy f2 (with_files_healthy _ _ Hh1)) as (f3 & Hc' & _ & Hh3 & Hr3 & Hd3).
  rewrite (m_bind_ok _ _ _ _ _ Hc'). unfold put_file, m_bind.
  destruct (String.eqb_spec tmp path) as [Heq|Hne].
  - eexists. split; [done|]. split; [by apply with_files_healthy|].
    split; [apply lookup_insert_eq|]. simpl. by rewrite Hr3, Hd3.
  - eexists. split; [done|]. split; [by apply with_files_healthy, with_files_healthy|].
    split; [|by simpl; rewrite Hr3, Hd3].
    unfold files at 1. simpl. unfold files. simpl.
    rewrite lookup_delete_ne by done. apply lookup_insert_eq.
Qed.

Section Open.
Context {R : RigTypes} {CC : ContentCodec R} {JT : JsonText}.

(** What a successful [open] hands out, and the file it leaves. *)
Record opened (path : string) (h : V4Header) (st : SessionState) (text : string)
  (t : JsonlSessionStore) (f' : JsonlStoreFactory) : Prop := {
  opened_id : jsonl_session_id t = v4_id h;
  opened_path : jsonl_path t = path;
  opened_state : jsonl_state t = st;
  opened_disk : disk (jsonl_file t) = text;
  opened_buffered : buffered (jsonl_file t) = "";
  opened_never_fails : never_fails (jsonl_file t);
  opened_file : files f' !! path = Some text;
  opened_healthy : healthy f'
}.

Lemma open_healthy f path content h st tail :
  healthy f -> files f !! path = Some content -> utf8_valid content = true ->
  load content = Ok (h, st, tail) ->
  exists t f', open path f = (Ok t, f') /\
    opened path h st (repaired content tail) t f'.
Proof.
  intros Hh Hp Hu Hl. unfold open.
  destruct (read_to_string_healthy _ _ _ Hh Hp Hu) as (f1 & Hc & Hf1 & Hh1 & _).
  rewrite (m_bind_ok _ _ _ _ _ Hc). unfold m_lift at 1, m_bind at 1. rewrite Hl.
  rewrite <- Hf1 in Hp. destruct tail as [|ls]; simpl.
  - unfold m_ret at 1, m_bind at 1.
    destruct (open_handle_healthy _ _ _ Hh1 Hp) as (hd & ck & f2 & Ho & Hs & Hd & Hb & Hn).
    rewrite (m_bind_ok _ _ _ _ _ Ho). destruct Hs as (Hf2 & Hh2 & _).
    destruct (ends_with_char newline content) eqn:He.
    + eexists _, _. split; [done|]. split; try done. by rewrite Hf2.
    + unfold m_bind at 1, on_store, write_line. simpl. rewrite Hn. simpl.
      eexists _, _. split; [done|]. split; simpl; try done.
      * by rewrite Hd, Hb, !string_app_nil_l.
      * unfold files. simpl. rewrite lookup_insert_eq. by rewrite Hd, Hb, !string_app_nil_l.
      * by apply with_files_healthy.
  - destruct (repair_healthy f1 path ls Hh1) as (f2 & Hr & Hh2 & Hp2 & _).
    rewrite (m_bind_ok _ _ _ _ _ Hr).
    destruct (open_handle_healthy _ _ _ Hh2 Hp2) as (hd & ck & f3 & Ho & Hs & Hd & Hb & Hn).
    rewrite (m_bind_ok _ _ _ _ _ Ho). destruct Hs as (Hf3 & Hh3 & _).
    eexists _, _. split; [done|]. split; try done. by rewrite Hf3.
Qed.

Lemma opened_log_ok path h st vs t f' :
  is_v4 h = true -> replay_values new_state vs = Ok st ->
  opened path h st (log_text h vs) t f' -> log_ok t h vs.
Proof. intros Hv Hr [_ _ Hs Hd Hb _ _ _]. split; try done. by rewrite Hs. Qed.

End Open.

(** Reading a log without replaying it: the backward scan for the last
    sequence, the offline rename built on it, and the name a listing shows. *)

Open Scope string_scope.
Open Scope rust_scope.

(** ** Suffixes of a text *)

Lemma strip_newline_some s body : strip_newline s = Some body <-> s = body +:+ nl.
Proof.
  revert body. induction s as [|a s IH]; intros body.
  - split; [done|]. by destruct body.
  - cbn [strip_newline]. destruct s as [|b s].
    + destruct (Ascii.eqb_spec a newline) as [->|Hne].
      * split; [by intros [= <-]|]. destruct body as [|x [|]]; [done|done|done].
      * split; [done|]. intros H. destruct body as [|x body]; [by injection H|].
        rewrite string_app_cons in H. injection H as _ H. by destruct body.
    + rewrite fmap_Some. split.
      * intros (y & Hy & ->). apply IH in Hy. by rewrite Hy.
      * destruct body as [|x body]; [done|]. rewrite string_app_cons.
        intros [= -> H]. exists body. split; [by apply IH|done].
Qed.

Lemma rsplit_once_some c s x y :
  rsplit_once c s = Some (x, y) <-> s = x +:+ String c y /\ has_char c y = false.
Proof.
  revert x y. induction s as [|a s IH]; intros x y.
  - split; [done|]. intros [H _]. by destruct x.
  - cbn [rsplit_once]. destruct (rsplit_once c s) as [[u v]|] eqn:Hr.
    + split.
      * intros [= <- <-]. destruct (proj1 (IH u v) eq_refl) as [-> Hv]. done.
      * intros [H Hy]. destruct x as [|b x].
        -- rewrite string_app_nil_l in H. injection H as -> ->.
           destruct (proj1 (IH u v) eq_refl) as [-> _].
           rewrite has_char_app in Hy. simpl in Hy. rewrite Ascii.eqb_refl, orb_true_r in Hy.
           done.
        -- rewrite string_app_cons in H. injection H as -> H.
           assert (Some (u, v) = Some (x, y)) as [= -> ->]; [by apply IH|done].
    + destruct (Ascii.eqb_spec a c) as [->|Hne].
      * split.
        -- intros [= <- <-]. split; [done|]. destruct (has_char c s) eqn:Hc; [|done].
           exfalso. clear IH. induction s as [|b s IHs]; [done|]. simpl in *.
           destruct (rsplit_once c s) as [[]|]; [done|].
           destruct (Ascii.eqb b c); [done|]. by apply IHs.
        -- intros [H Hy]. destruct x as [|b x].
           ++ rewrite string_app_nil_l in H. by injection H as ->.
           ++ rewrite string_app_cons in H. injection H as _ H.
              assert (None = Some (x, y)); [by apply IH|done].
      * split; [done|]. intros [H Hy]. destruct x as [|b x].
        -- rewrite string_app_nil_l in H. by injection H as ->.
        -- rewrite string_app_cons in H. injection H as _ H.
           assert (None = Some (x, y)); [by apply IH|done].
Qed.

Section Scan.
Context {R : RigTypes} {CC : ContentCodec R} {JT : JsonText}.

(** ** The backward scan *)

(** What the scan means: the sequence on the last complete line, of a text
    with more than one. *)
Definition last_line_sequence (content : string) : option Z :=
  match strip_newline content with
  | None => None
  | Some body =>
      match rsplit_once newline body with
      | None => None
      | Some (_, line) => line_sequence line
      end
  end.

Lemma strip_newline_drop k s body :
  strip_newline s = Some body -> k <= String.length body ->
  strip_newline (str_drop k s) = Some (str_drop k body).
Proof.
  intros ->%strip_newline_some Hk. apply strip_newline_some. by apply str_drop_app.
Qed.

Lemma strip_newline_drop_none k s :
  strip_newline s = None -> strip_newline (str_drop k s) = None.
Proof.
  intros Hs. destruct (strip_newline (str_drop k s)) as [b|] eqn:Hb; [|done].
  apply strip_newline_some in Hb.
  assert (strip_newline s = Some (str_take k s +:+ b)) as H; [|by rewrite Hs in H].
  apply strip_newline_some. rewrite <- string_app_assoc, <- Hb. by rewrite str_take_drop.
Qed.

Lemma rsplit_once_drop k c s x y :
  rsplit_once c (str_drop k s) = Some (x, y) ->
  rsplit_once c s = Some (str_take k s +:+ x, y).
Proof.
  rewrite !rsplit_once_some. intros [H Hy]. split; [|done].
  rewrite <- string_app_assoc, <- H. by rewrite str_take_drop.
Qed.

Lemma last_sequence_loop_spec fuel content window :
  (1 <= window)%Z -> (Z.of_nat (String.length content) <= u64_max)%Z ->
  (Z.of_nat (String.length content) - window < Z.of_nat fuel)%Z -> 0 < fuel ->
  last_sequence_loop fuel content window = Some (last_line_sequence content).
Proof.
  intros Hw Hlen. revert window Hw. induction fuel as [|fuel IH]; intros window Hw Hf Hpos;
    [lia|]. simpl. unfold last_line_sequence, read_from.
  set (start := Z.max 0 (Z.of_nat (String.length content) - window)).
  destruct (strip_newline content) as [body|] eqn:Hs;
    [|by rewrite strip_newline_drop_none].
  assert (String.length content = S (String.length body)) as Hlb.
  { apply strip_newline_some in Hs as ->. rewrite string_length_app. simpl. lia. }
  rewrite (strip_newline_drop _ _ body Hs) by lia.
  destruct (rsplit_once newline (str_drop _ body)) as [[x y]|] eqn:Hr.
  { apply rsplit_once_drop in Hr as ->. done. }
  destruct (Z.eqb_spec start 0) as [H0|H0].
  { rewrite H0 in Hr. simpl in Hr. by rewrite Hr. }
  rewrite IH by (unfold u64_max in *; lia). unfold last_line_sequence. by rewrite Hs.
Qed.

Lemma text_last_sequence_spec content :
  (Z.of_nat (String.length content) <= u64_max)%Z ->
  text_last_sequence content = last_line_sequence content.
Proof.
  intros Hl. unfold text_last_sequence, last_sequence_fuel.
  rewrite last_sequence_loop_spec; [done|unfold first_window; lia|done| |lia].
  unfold first_window. lia.
Qed.

(** On a log the last line is the last mutation. *)
Lemma last_line_log h vs v :
  last_line_sequence (log_text h (vs ++ [v])%list) = value_sequence v.
Proof.
  unfold last_line_sequence. rewrite log_text_snoc, string_app_assoc.
  rewrite (proj2 (strip_newline_some _ _) eq_refl).
  destruct (exists_last (l := log_lines h vs) ltac:(done)) as (ls & l & Hl).
  unfold log_text. rewrite Hl, unlines_snoc.
  replace ((unlines ls +:+ (l +:+ nl)) +:+ print v)
    with ((unlines ls +:+ l) +:+ String newline (print v)).
  - rewrite (proj2 (rsplit_once_some _ _ _ _) (conj eq_refl (print_no_newline v))).
    unfold line_sequence. by rewrite parse_print.
  - rewrite <- !string_app_assoc. done.
Qed.

Lemma last_line_header_only h : last_line_sequence (log_text h []) = None.
Proof.
  unfold last_line_sequence, log_text. simpl. rewrite string_app_nil_r.
  rewrite (proj2 (strip_newline_some _ _) eq_refl).
  destruct (rsplit_once newline (print (to_value h))) as [[x y]|] eqn:Hr; [|done].
  apply rsplit_once_some in Hr as [Hr _]. pose proof (print_no_newline (to_value h)) as Hn.
  rewrite Hr, has_char_app in Hn. simpl in Hn. by rewrite orb_true_r in Hn.
Qed.

Lemma validate_value_sequence st v m :
  validate st v = Ok m -> value_sequence v = Some (mutation_sequence m).
Proof.
  intros H. pose proof (validate_sound _ _ _ H) as [_ Hm]. unfold validate in H.
  bind_ok H. bind_ok H. apply ok_or_ok in Heqr0.
  destruct (negb _) eqn:Hn; [done|]. apply negb_false_iff, Z.eqb_eq in Hn.
  rewrite Hm, <- Hn. done.
Qed.

Lemma commit_next_sequence st m : next_sequence (commit st m) = mutation_sequence m.
Proof. by destruct m. Qed.

Lemma log_last_sequence h vs st :
  replay_values new_state vs = Ok st ->
  last_line_sequence (log_text h vs) = (if decide (vs = []) then None
                                        else Some (next_sequence st)).
Proof.
  destruct vs as [|w ws] using rev_ind; intros Hr.
  - by rewrite last_line_header_only.
  - rewrite decide_False by (by destruct ws). rewrite last_line_log.
    rewrite replay_values_app in Hr. bind_ok Hr. simpl in Hr.
    bind_ok Hr. unfold apply_loaded_mutation in Heqr0. bind_ok Heqr0.
    injection Heqr0 as <-. injection Hr as <-.
    by rewrite commit_next_sequence, (validate_value_sequence _ _ _ Heqr1).
Qed.

(** ** Renaming without replaying *)

(** The trait's default [set_name_at]: open, name, sync. *)
Definition set_name_at_default (path : string) (n : option string) : F unit :=
  let! store := open path in
  let! named := on_store (jsonl_set_name n) store in
  let! synced := on_store jsonl_sync named.2 in
  save_store synced.2.

Lemma candidate_sequence_next st q :
  candidate_sequence st = Ok q -> sequence_get q = u64_saturating_add (next_sequence st) 1.
Proof.
  unfold candidate_sequence, u64_checked_add. case_match eqn:Hle; [|done].
  intros H%map_err_ok%sequence_try_from_ok. rewrite H. unfold u64_saturating_add. lia.
Qed.

Lemma validate_name_ok st q n :
  candidate_sequence st = Ok q ->
  validate st (to_value (name_fact q n)) = Ok (VName (sequence_get q) n).
Proof.
  intros Hq%candidate_sequence_next.
  unfold validate, validate_fact, str_field, to_value, to_value_name_fact, skip_none. simpl.
  destruct n; simplify_map_eq; rewrite <- Hq, Z.eqb_refl; done.
Qed.

Lemma validate_label_ok st q target label :
  candidate_sequence st = Ok q -> contains (state_entries st) target = true ->
  validate st (to_value {| lf_kind := MutFact; lf_sequence := q; lf_fact := FactLabel;
                           lf_target_id := target; lf_label := label |}) = Ok (VLabel (sequence_get q) target label).
Proof.
  intros Hq%candidate_sequence_next Ht.
  unfold validate, validate_fact, str_field, to_value, to_value_label_fact, skip_none. simpl.
  destruct label; simplify_map_eq; rewrite <- Hq, Z.eqb_refl; cbn; simplify_map_eq;
    rewrite id_try_from_as_str; cbn; by rewrite Ht.
Qed.

Lemma last_line_candidate h vs st last :
  replay_values new_state vs = Ok st ->
  last_line_sequence (log_text h vs) = Some last ->
  (let? next := ok_or (u64_checked_add last 1) SequenceExhausted in
   map_err (fun _ => SequenceExhausted) (sequence_try_from next)) = candidate_sequence st.
Proof.
  intros Hr. rewrite (log_last_sequence _ _ _ Hr). case_decide; [done|]. by intros [= <-].
Qed.

Lemma file_last_sequence_healthy f path content :
  healthy f -> files f !! path = Some content ->
  exists f', file_last_sequence path f = (Ok (text_last_sequence content), f') /\
    same_files f f'.
Proof.
  intros Hh Hp. destruct (fs_call_healthy f Hh) as (f1 & Hc & Hs).
  exists f1. unfold file_last_sequence. rewrite (m_bind_ok _ _ _ _ _ Hc).
  unfold file_content, m_bind. destruct Hs as (Hf & ?). by rewrite Hf, Hp.
Qed.

(** What the default does to a whole log. *)
Lemma set_name_at_default_log f path n h vs st :
  healthy f -> is_v4 h = true -> replay_values new_state vs = Ok st ->
  files f !! path = Some (log_text h vs) ->
  exists r f', set_name_at_default path n f = (r, f') /\
    match candidate_sequence st with
    | Err e => r = Err e /\ files f' !! path = Some (log_text h vs)
    | Ok q => r = Ok tt /\
        files f' !! path = Some (log_text h (vs ++ [to_value (name_fact q n)])%list)
    end.
Proof.
  intros Hh Hv Hr Hp.
  destruct (open_healthy f path _ h st Whole Hh Hp (log_lines_utf8 h vs) (load_log _ _ _ Hv Hr))
    as (t & f1 & Ho & Ht).
  rewrite repaired_log in Ht. destruct Ht as [_ Hpath Hst Hd Hb Hn Hf1 Hh1].
  unfold set_name_at_default. rewrite (m_bind_ok _ _ _ _ _ Ho).
  unfold m_bind at 1, on_store at 1, jsonl_set_name. rewrite Hst.
  destruct (candidate_sequence st) as [q|e] eqn:Hq.
  - unfold persist. rewrite Hst, validate_name_ok by done. unfold append, write_line.
    rewrite Hn. cbn. unfold m_bind, jsonl_sync, sync_file, on_store. cbn. rewrite Hn.
    cbn. eexists _, _. split; [done|]. split; [done|]. cbn.
    unfold files. cbn. rewrite Hpath, lookup_insert_eq.
    by rewrite Hd, Hb, string_app_nil_r, string_app_nil_l, log_text_snoc.
  - unfold drop_store, sync_file. rewrite Hn. cbn. eexists _, _. split; [done|].
    split; [done|]. unfold files. cbn. rewrite Hpath, lookup_insert_eq.
    by rewrite Hd, Hb, string_app_nil_r.
Qed.

(** The scan-based rename leaves the same result and the same file. *)
Lemma set_name_at_log f path n h vs st :
  healthy f -> is_v4 h = true -> replay_values new_state vs = Ok st ->
  files f !! path = Some (log_text h vs) ->
  (Z.of_nat (String.length (log_text h vs)) <= u64_max)%Z ->
  exists r f', set_name_at path n f = (r, f') /\
    match candidate_sequence st with
    | Err e => r = Err e /\ files f' !! path = Some (log_text h vs)
    | Ok q => r = Ok tt /\
        files f' !! path = Some (log_text h (vs ++ [to_value (name_fact q n)])%list)
    end.
Proof.
  intros Hh Hv Hr Hp Hlen.
  destruct (file_last_sequence_healthy _ _ _ Hh Hp) as (f1 & Hl & Hf1 & Hh1 & Hroot & Hdirs).
  unfold set_name_at. rewrite (m_bind_ok _ _ _ _ _ Hl), text_last_sequence_spec by done.
  rewrite <- Hf1 in Hp.
  destruct (last_line_sequence (log_text h vs)) as [last|] eqn:Hlast.
  - unfold m_lift, m_bind at 1. rewrite (last_line_candidate _ _ _ _ Hr Hlast).
    destruct (candidate_sequence st) as [q|e]; [|by eexists _, _].
    destruct (open_handle_healthy _ _ _ Hh1 Hp) as (hd & ck & f2 & Ho & Hs & Hd & Hb & Hn).
    rewrite (m_bind_ok _ _ _ _ _ Ho). cbn [fst]. rewrite Hn, Hd.
    destruct Hs as (Hf2 & Hh2 & _). unfold put_file, m_bind at 1.
    destruct (fs_call_healthy _ (with_files_healthy f2
      (<[path := log_text h vs +:+ (print (to_value (name_fact q n)) +:+ nl)]> (files f2)) Hh2))
      as (f3 & Hc & Hf3 & _).
    rewrite Hc. eexists _, _. split; [done|]. split; [done|].
    rewrite Hf3, log_text_snoc. unfold files at 1. cbn. by rewrite lookup_insert_eq.
  - by apply set_name_at_default_log.
Qed.

(** ** The name a listing shows *)

Lemma strip_return_none s : has_char carriage_return s = false -> strip_return s = s.
Proof.
  induction s as [|a s IH]; [done|]. cbn [has_char]. intros [Ha Hs]%orb_false_iff.
  cbn [strip_return]. destruct s; [by rewrite Ha|]. by rewrite (IH Hs).
Qed.

Lemma str_lines_log h vs : str_lines (log_text h vs) = log_lines h vs.
Proof.
  unfold str_lines, log_text.
  pose proof (split_unlines (log_lines h vs) "" (log_lines_ok h vs)) as H.
  rewrite string_app_nil_r in H. rewrite H. simpl (split_char newline "").
  rewrite last_snoc, removelast_last. unfold log_lines. simpl.
  rewrite strip_return_none by apply print_no_return. f_equal.
  rewrite map_map. apply map_ext. intros v. apply strip_return_none, print_no_return.
Qed.

Lemma is_name_fact_spec v :
  is_name_fact v = true <->
  str_field "kind" v = Some "fact" /\ str_field "fact" v = Some "name".
Proof. unfold is_name_fact. by rewrite andb_true_iff, !bool_decide_eq_true. Qed.

(** A validated mutation changes the name exactly when it is a name fact. *)
Lemma commit_name st v m :
  validate st v = Ok m ->
  state_name (commit st m) =
    (if is_name_fact v then str_field "name" v else state_name st).
Proof.
  intros H. pose proof (validate_kind _ _ _ H) as Hk. clear H.
  destruct (str_field "kind" v) as [k|] eqn:Hkind; [|done].
  destruct (String.eqb_spec k "lane") as [->|Hlane].
  { unfold is_name_fact. rewrite Hkind. simpl. unfold validate_lane in Hk. bind_ok Hk.
    repeat case_match; simplify_eq; done. }
  destruct (String.eqb_spec k "entry") as [->|Hentry].
  { unfold is_name_fact. rewrite Hkind. simpl. unfold validate_entry in Hk.
    bind_ok Hk. bind_ok Hk. destruct (contains _ _); [done|]. bind_ok Hk.
    case_bool_decide; [|done]. by injection Hk as <-. }
  destruct (String.eqb_spec k "record") as [->|Hrecord].
  { unfold is_name_fact. rewrite Hkind. simpl. unfold validate_record in Hk. bind_ok Hk.
    repeat case_match; simplify_eq; done. }
  destruct (String.eqb_spec k "fact") as [->|Hfact]; [|done].
  unfold validate_fact in Hk. bind_ok Hk. apply ok_or_ok in Heqr.
  unfold is_name_fact. rewrite Hkind, Heqr.
  destruct (String.eqb_spec t "name") as [->|Hname].
  - by injection Hk as <-.
  - rewrite (bool_decide_eq_false_2 (Some t = _)) by (by intros [= ->]).
    rewrite andb_false_r. destruct (String.eqb t "label"); [|done].
    bind_ok Hk. bind_ok Hk. destruct (contains _ _); [|done]. by injection Hk as <-.
Qed.

Lemma scan_name_step v name :
  foldl (fun n line => match parse line with
                       | Some v => if is_name_fact v then str_field "name" v else n
                       | None => n
                       end) name [print v]
  = (if is_name_fact v then str_field "name" v else name).
Proof. simpl. by rewrite parse_print. Qed.

(** The listing's scan ends at the name the replay ends at. *)
Lemma scan_name_replay vs st :
  replay_values new_state vs = Ok st -> scan_name (map print vs) = state_name st.
Proof.
  revert st. induction vs as [|v vs IH] using rev_ind; intros st Hr.
  - by injection Hr as <-.
  - rewrite replay_values_app in Hr. bind_ok Hr. cbn [replay_values result_bind] in Hr.
    bind_ok Hr. injection Hr as <-. unfold apply_loaded_mutation in Heqr0. bind_ok Heqr0.
    injection Heqr0 as <-. rewrite (commit_name _ _ _ Heqr1), <- (IH _ eq_refl).
    unfold scan_name. rewrite map_app, foldl_app. apply scan_name_step.
Qed.

Lemma list_file_log f path h vs st :
  healthy f -> is_jsonl path = true -> is_v4 h = true ->
  replay_values new_state vs = Ok st ->
  files f !! path = Some (log_text h vs) ->
  exists f' modified, list_file path f =
    (Ok [{| metadata_id := v4_id h; created_at_ms := v4_created_at h;
            metadata_cwd := v4_cwd h;
            metadata_parent_session_id := v4_parent_session_id h;
            metadata_path := path; modified_at_ms := modified;
            metadata_name := state_name st;
            metadata_ownership := v4_ownership h |}], f') /\ same_files f f'.
Proof.
  intros Hh Hj Hv Hr Hp.
  destruct (read_to_string_healthy _ _ _ Hh Hp (log_lines_utf8 h vs))
    as (f1 & Hc & Hf1 & Hh1 & Hr1 & Hd1).
  unfold list_file. rewrite Hj. cbn [negb]. rewrite (m_bind_ok _ _ _ _ _ Hc), str_lines_log.
  unfold log_lines, text_header. rewrite header_line_loads, Hv by done.
  destruct (fs_call_healthy _ Hh1) as (f2 & Hc2 & Hf2 & Hh2 & Hr2 & Hd2).
  rewrite (m_bind_ok _ _ _ _ _ Hc2), (scan_name_replay _ _ Hr).
  unfold m_bind, m_get, m_ret. eexists _, _. split; [done|].
  repeat split; try congruence; apply Hh2.
Qed.

End Scan.
