(* ===== verification/StoreIndex.v ===== *)
(** Forking: the ancestor loop of [fork] ends and agrees with [branch], and the
    new session's branch is a copy of the chosen one. *)

From S2P Require Import Prelude Lines Scalar Json Message StoreModel StoreState.
From S2P Require Import StoreSession StoreInv StoreLaws StoreFactory StoreLog.
From S2P Require Import StoreOpen.
Open Scope string_scope.
Open Scope rust_scope.

Lemma m_bind_inv {S E A B} (c : M S E A) (k : A -> M S E B) s b s'' :
  m_bind c k s = (Ok b, s'') -> exists a s', c s = (Ok a, s') /\ k a s' = (Ok b, s'').
Proof. unfold m_bind. destruct (c s) as [[a|e] s']; [eauto|done]. Qed.

(** Splits the first step of a successful computation. *)
Ltac m_inv H :=
  let a := fresh "a" in let s := fresh "s" in let Ha := fresh "Hstep" in
  apply m_bind_inv in H as (a & s & Ha & H).

(** ** The ancestor loop *)

Lemma fork_loop_sound fuel st c acc p :
  fork_loop fuel st c acc = Some (Ok p) ->
  exists q, p = (q ++ acc)%list /\ ancestors st c q.
Proof.
  revert c acc. induction fuel as [|fuel IH]; intros c acc H; [done|].
  simpl in H. destruct c as [id|].
  - destruct (state_entries st !! id) as [e|] eqn:He; [|done].
    apply IH in H as (q & -> & Hq). exists (q ++ [e])%list.
    split; [by rewrite <- app_assoc|by constructor].
  - injection H as <-. exists []. split; [done|constructor].
Qed.

Lemma fork_loop_complete fuel st c acc q :
  ancestors st c q -> length q < fuel -> fork_loop fuel st c acc = Some (Ok (q ++ acc)%list).
Proof.
  intros Hq. revert fuel acc. induction Hq as [|id e q He Hq IH]; intros [|fuel] acc Hf;
    simpl in *; try done; try lia.
  rewrite He, <- app_assoc. apply IH. rewrite length_app in Hf. simpl in Hf. lia.
Qed.

(** On a well-formed log the loop, which has no cycle check, ends within one
    step per entry, with what the cycle-checked walk gives. *)
Lemma fork_loop_branch st leaf :
  state_wf st -> fork_loop (branch_fuel st) st (Some leaf) [] = Some (state_branch st leaf).
Proof.
  intros Hwf. destruct (state_entries st !! leaf) as [e|] eqn:He.
  - assert (leaf ∈ entry_order st) as Hin by (apply (wf_order_dom _ Hwf); eauto).
    apply list_elem_of_lookup in Hin as [i Hi].
    destruct (ancestors_at st Hwf i leaf Hi) as (p & Hp & _ & _ & Hlen).
    rewrite (state_branch_ancestors st Hwf leaf p Hp).
    rewrite (fork_loop_complete _ _ _ _ p Hp); [by rewrite app_nil_r|].
    apply lookup_lt_Some in Hi. rewrite (order_length st Hwf) in Hi.
    unfold branch_fuel. lia.
  - unfold state_branch, branch_fuel. simpl. rewrite He.
    by rewrite bool_decide_eq_false_2 by apply not_elem_of_empty.
Qed.

(** ** Stored payloads never collide with entry fields *)

Definition payloads_disjoint (st : SessionState) : Prop :=
  forall id e, state_entries st !! id = Some e -> disjoint_keys entry_fields (entry_payload e).

Lemma without_disjoint keys m : disjoint_keys keys (without keys m).
Proof.
  apply Forall_forall. intros k Hk. rewrite lookup_without. by rewrite decide_True.
Qed.

Section Fork.
Context {R : RigTypes} {CC : ContentCodec R} {JT : JsonText}.

Lemma decoded_entry_disjoint v m :
  from_value (T := EntryMutation) v = Ok m ->
  disjoint_keys entry_fields (entry_payload (em_entry m)).
Proof.
  intros H. unfold from_value, from_value_entry_mutation in H.
  repeat bind_ok H. injection H as <-. exact (without_disjoint entry_fields t).
Qed.

Lemma commit_disjoint st v m :
  payloads_disjoint st -> validate st v = Ok m -> payloads_disjoint (commit st m).
Proof.
  intros Hd Hv. destruct m as [x|x|x|q n|q t l]; try exact Hd.
  intros id e. simpl. destruct (decide (id = entry_id (em_entry x))) as [->|];
    simplify_map_eq; [|apply Hd]. intros [= <-].
  apply validate_kind in Hv. destruct (str_field "kind" v) as [k|]; [|done].
  repeat case_match; simplify_eq; try done.
  - unfold validate_lane in Hv. bind_ok Hv. repeat case_match; simplify_eq.
  - unfold validate_entry in Hv. bind_ok Hv. bind_ok Hv.
    destruct (contains _ _); [done|]. bind_ok Hv. case_bool_decide; [|done].
    injection Hv as <-. by eapply decoded_entry_disjoint, map_err_ok.
  - unfold validate_record in Hv. bind_ok Hv. repeat case_match; simplify_eq.
  - unfold validate_fact in Hv. bind_ok Hv. destruct (String.eqb t _); [done|].
    destruct (String.eqb t _); [|done]. bind_ok Hv. bind_ok Hv.
    by destruct (contains _ _).
Qed.

Lemma replay_lines_inv (P : SessionState -> Prop) st lines rest st' tail :
  (forall st v m, P st -> validate st v = Ok m -> P (commit st m)) ->
  P st -> replay_lines st lines rest = Ok (st', tail) -> P st'.
Proof.
  intros Hstep. revert st lines. induction rest as [|l rest IH]; intros st lines HP H;
    cbn [replay_lines] in H.
  - by injection H as <- _.
  - destruct (parse l) as [v|].
    + bind_ok H. unfold apply_loaded_mutation in Heqr. bind_ok Heqr.
      injection Heqr as <-. eapply IH; [|done]. by eapply Hstep.
    + destruct rest; [|done]. by injection H as <- _.
Qed.

(** Whatever text loads, the projection is well formed. *)
Lemma load_inv content h st tail :
  load content = Ok (h, st, tail) -> state_wf st /\ payloads_disjoint st.
Proof.
  unfold load. destruct (split_lines content) as [|l rest]; [done|]. intros H.
  bind_ok H. destruct (negb _); [done|]. bind_ok H. destruct t0 as [st' tail'].
  injection H as _ <- _. split; (eapply replay_lines_inv; [..|exact Heqr0]).
  - intros. by eapply validated_commit_wf.
  - apply new_state_wf.
  - intros. by eapply commit_disjoint.
  - intros id e. simpl. by rewrite lookup_empty.
Qed.

Lemma fs_call_inv f f' : fs_call f = (Ok tt, f') -> files f' = files f.
Proof.
  unfold fs_call, fs_call_outcome, m_bind, m_ret, m_fail.
  destruct (fs_calls _ _); intros [= <-]; done.
Qed.

Lemma open_loaded path f t f' :
  open path f = (Ok t, f') -> exists content h st tail,
    files f !! path = Some content /\ load content = Ok (h, st, tail) /\
    jsonl_state t = st /\ jsonl_session_id t = v4_id h.
Proof.
  unfold open. intros H. m_inv H. unfold read_to_string in Hstep.
  m_inv Hstep. destruct a0. apply fs_call_inv in Hstep0. m_inv Hstep.
  unfold file_content in Hstep1. injection Hstep1 as Hc <-.
  apply ok_or_ok in Hc. rewrite Hstep0 in Hc.
  destruct (utf8_valid a0); [|done]. injection Hstep as <- <-.
  m_inv H. unfold m_lift in Hstep. injection Hstep as Hl <-. destruct a as [[h st] tail].
  m_inv H. m_inv H. destruct a1 as [hd ck].
  exists a0, h, st, tail. split; [done|]. split; [done|].
  destruct tail; [|by injection H as <- _].
  destruct (ends_with_char newline a0); [by injection H as <- _|].
  m_inv H. m_inv H. injection H as <- _. unfold on_store in Hstep2.
  destruct (write_line "" _) as [[[]|e] g]; [by injection Hstep2 as <- _|].
  by m_inv Hstep2.
Qed.

Lemma on_store_inv {A} (op : M JsonlSessionStore StoreError A) s f a s' f' :
  on_store op s f = (Ok (a, s'), f') -> op s = (Ok a, s').
Proof.
  unfold on_store. destruct (op s) as [[x|e] s1]; [by intros [= -> ->]|].
  unfold m_bind. by destruct (drop_store s1 f) as [[]].
Qed.

Lemma create_with_new options owner f t f' :
  create_with options owner f = (Ok t, f') -> jsonl_state t = new_state /\
    jsonl_session_id t = create_session_id options.
Proof.
  unfold create_with. intros H. do 5 m_inv H. m_inv H. destruct a4 as [[] t1].
  apply on_store_inv in Hstep4. m_inv H. destruct a4 as [[] t2].
  apply on_store_inv in Hstep5. m_inv H. injection H as <- _. simpl in *.
  unfold append in Hstep4. destruct (write_line _ _). injection Hstep4 as _ <-.
  unfold jsonl_sync in Hstep5. destruct (sync_file _). by injection Hstep5 as _ <-.
Qed.

(** ** Copying a branch *)

Section Copies.
Context {S : Type} `{SessionStoreLaws S}.

(** Copied entries keep their identifier, kind and payload. *)
Definition same_content (a b : SessionEntry) : Prop :=
  entry_id b = entry_id a /\ entry_kind b = entry_kind a /\ entry_payload b = entry_payload a.

Lemma append_copies_branch l es (s s' : S) b :
  store_wf s -> Forall (fun e => disjoint_keys entry_fields (entry_payload e)) es ->
  lane_branch s l = Ok b -> append_copies l es s = (Ok tt, s') ->
  exists es', lane_branch s' l = Ok (b ++ es')%list /\ Forall2 same_content es es'.
Proof.
  intros Hwf Hd. revert s b Hwf. induction Hd as [|e es He Hes IH]; intros s b Hwf Hb Hc.
  - injection Hc as <-. exists []. by rewrite app_nil_r.
  - simpl in Hc. m_inv Hc.
    pose proof (append_entry_wf s l (copied_entry e) Hwf) as Hwf'. rewrite Hstep in Hwf'.
    destruct (append_entry_grows s l (copied_entry e) (entry_payload e) _ _ _ Hwf eq_refl He Hb Hstep)
      as (Hid & Hk & Hp & _ & Hbr & _).
    destruct (IH _ _ Hwf' Hbr Hc) as (es' & Hes' & Hf). exists (a :: es').
    rewrite Hes', <- app_assoc. split; [done|]. constructor; [|done]. done.
Qed.

End Copies.

Lemma ancestors_in st c p e : ancestors st c p -> e ∈ p -> exists id, state_entries st !! id = Some e.
Proof.
  induction 1 as [|id x p Hx Hp IH]; [by intros ?%not_elem_of_nil|].
  intros [?| ->%list_elem_of_singleton]%elem_of_app; eauto.
Qed.

Lemma branch_disjoint st leaf b :
  payloads_disjoint st -> state_branch st leaf = Ok b ->
  Forall (fun e => disjoint_keys entry_fields (entry_payload e)) b.
Proof.
  intros Hd Hb%state_branch_sound. apply Forall_forall. intros e He.
  destruct (ancestors_in _ _ _ _ Hb He) as [id Hid]. by eapply Hd.
Qed.

Lemma create_lane_root l (s s' : JsonlSessionStore) :
  jsonl_state s = new_state ->
  create_lane l None s = (Ok tt, s') -> lane s' l = None /\ state_wf (jsonl_state s').
Proof.
  intros Hs [H1 <-]%pair_eta. pose proof (create_lane_outcome l None s) as Ho.
  pose proof (outcome_wf s _ _ _ ltac:(rewrite Hs; apply new_state_wf) Ho) as Hwf.
  rewrite H1 in Ho. apply outcome_ok in Ho as (m & v & _ & Hst & q & ->).
  split; [|done]. destruct (commit_lane_tree (jsonl_state s) q l None) as (Hl & _).
  rewrite <- Hst in Hl. exact Hl.
Qed.

(** The branch of a filled fork is the branch it was given. *)
Lemma fill_fork_branch l b (s s' : JsonlSessionStore) :
  jsonl_state s = new_state ->
  Forall (fun e => disjoint_keys entry_fields (entry_payload e)) b ->
  fill_fork l b s = (Ok tt, s') ->
  exists b', lane_branch s' l = Ok b' /\ Forall2 same_content b b'.
Proof.
  intros Hs Hb H. unfold fill_fork in H. m_inv H. destruct a.
  assert (state_wf (jsonl_state s0) /\ lane s0 l = None) as [Hwf Hl].
  { destruct (String.eqb (as_str l) "main") eqn:He.
    - injection Hstep as <-. rewrite Hs. split; [apply new_state_wf|].
      apply String.eqb_eq in He. simpl. rewrite Hs.
      replace l with main_lane by (by apply string_id_eq).
      unfold state_lane. simpl. by rewrite lookup_singleton_eq.
    - by apply create_lane_root in Hstep as [? ?]. }
  pose proof (append_copies_branch (S := JsonlSessionStore) l b s0 s' []) as Hcopies.
  destruct (Hcopies Hwf Hb) as (b' & Hb' & Hf); [unfold lane_branch; by rewrite Hl|done|by exists b'].
Qed.

Lemma fork_copies_branch source options f t f' :
  fork source options f = (Ok t, f') ->
  exists content h st tail b b',
    files f !! source = Some content /\ load content = Ok (h, st, tail) /\
    state_branch st (source_leaf options) = Ok b /\
    lane_branch t (fork_lane options) = Ok b' /\ Forall2 same_content b b'.
Proof.
  unfold fork. intros H. m_inv H. apply open_loaded in Hstep as (c & h & st & tail & Hc & Hl & Hst & _).
  pose proof (load_inv _ _ _ _ Hl) as [Hwf Hd].
  m_inv H. unfold m_lift, fork_branch in Hstep.
  rewrite Hst, fork_loop_branch in Hstep by done. injection Hstep as Hb <-.
  m_inv H. apply create_with_new in Hstep as [Hnew _].
  m_inv H. destruct a2 as [[] t']. apply on_store_inv in Hstep.
  m_inv H. injection H as <- _. simpl.
  destruct (fill_fork_branch _ _ _ _ Hnew (branch_disjoint _ _ _ Hd Hb) Hstep) as (b' & Hb' & Hf).
  by exists c, h, st, tail, a0, b'.
Qed.

End Fork.

(** The identity scans: which logs [headers], [header] and [delete] see. *)

Open Scope string_scope.
Open Scope rust_scope.

Lemma same_files_refl f : healthy f -> same_files f f.
Proof. intros Hh. do 3 (split; [done|]). done. Qed.

Lemma same_files_trans f f1 f2 : same_files f f1 -> same_files f1 f2 -> same_files f f2.
Proof.
  intros (Hf & _ & Hr & Hd) (Hf' & Hh & Hr' & Hd'). split; [by rewrite Hf', Hf|].
  split; [done|]. by rewrite Hr', Hr, Hd', Hd.
Qed.

Lemma collect_files_map {A} (body : string -> F (list A)) (g : string -> list A) f0 l f r f' :
  (forall x f a f', x ∈ l -> same_files f0 f -> body x f = (Ok a, f') ->
    same_files f0 f' /\ a = g x) ->
  same_files f0 f -> collect_files body l f = (Ok r, f') ->
  same_files f0 f' /\ r = concat (map g l).
Proof.
  revert f r. induction l as [|x l IH]; intros f r Hbody Hf H; cbn [collect_files] in H.
  - by injection H as <- <-.
  - m_inv H. m_inv H. injection H as <- <-.
    apply Hbody in Hstep as [Hs ->]; [|apply list_elem_of_here|done].
    apply IH in Hstep0 as [Hs' ->]; [done| |done].
    intros y f1 b f2 Hy. apply Hbody. by apply list_elem_of_further.
Qed.

Lemma fs_call_inv_healthy f u f' :
  healthy f -> fs_call f = (Ok u, f') -> same_files f f'.
Proof.
  intros Hh H. destruct (fs_call_healthy f Hh) as (f1 & Hc & Hs).
  rewrite Hc in H. by injection H as _ <-.
Qed.

Section Index.
Context {R : RigTypes} {CC : ContentCodec R} {JT : JsonText}.

(** The header [scan_headers] reads off one file, if it takes the file. *)
Definition path_headers (m : gmap string string) (session_id : option SessionId)
  (path : string) : list SessionHeader :=
  if negb (is_jsonl path)
     || from_option (fun id => negb (ends_with ("_" +:+ as_str id +:+ ".jsonl")
                                       (path_file_name path))) false session_id
  then []
  else match content ← m !! path; text_header (first_line content) with
       | None => []
       | Some header =>
           if from_option (fun id => bool_decide (id <> v4_id header)) false session_id
           then []
           else [{| header_id := v4_id header; header_cwd := v4_cwd header;
                    header_ownership := v4_ownership header; header_path := path |}]
       end.

Lemma scan_file_headers session_id path f r f' :
  healthy f -> scan_file session_id path f = (Ok r, f') ->
  same_files f f' /\ r = path_headers (files f) session_id path.
Proof.
  intros Hh H. unfold scan_file, path_headers in *.
  destruct (negb (is_jsonl path) || _); [by injection H as <- <-; split; [apply same_files_refl|]|].
  m_inv H. unfold fs_call_outcome in Hstep. rewrite (healthy_calls _ Hh) in Hstep.
  injection Hstep as <- <-. m_inv H. unfold file_content in Hstep.
  injection Hstep as Hc <-. apply ok_or_ok in Hc. change (files f !! path = Some a) in Hc.
  rewrite Hc. cbn [mbind option_bind]. destruct (negb _); [done|].
  split.
  - repeat case_match; injection H as _ <-; repeat split; apply Hh.
  - repeat case_match; by injection H as <- _.
Qed.

Lemma directory_files_inv dir f r f' :
  healthy f -> directory_files dir f = (Ok r, f') ->
  same_files f f' /\ r = filter (fun p => path_parent p = dir) (elements (dom (files f))).
Proof.
  intros Hh H. unfold directory_files in H. m_inv H.
  apply fs_call_inv_healthy in Hstep; [|done]. m_inv H. unfold m_get in Hstep0.
  injection Hstep0 as <- <-. injection H as <- <-.
  destruct Hstep as (Hf & ?). by rewrite Hf.
Qed.

(** The directories scanned without a working directory. *)
Definition all_directories (f : JsonlStoreFactory) : list string :=
  if bool_decide (sessions_root f ∈ fs_dirs (factory_fs f)) then
    filter (fun d => path_parent d = sessions_root f) (elements (fs_dirs (factory_fs f)))
  else [].

Lemma session_directories_inv f r f' :
  healthy f -> session_directories None f = (Ok r, f') ->
  same_files f f' /\ r = all_directories f.
Proof.
  intros Hh H. unfold session_directories, all_directories in *. m_inv H.
  unfold m_get in Hstep. injection Hstep as <- <-.
  case_bool_decide; [|injection H as <- <-; split; [by apply same_files_refl|done]].
  m_inv H. apply fs_call_inv_healthy in Hstep; [|done]. by injection H as <- <-.
Qed.

Definition all_headers (f : JsonlStoreFactory) (session_id : option SessionId)
  : list SessionHeader :=
  concat (map (fun dir => concat (map (path_headers (files f) session_id)
    (filter (fun p => path_parent p = dir) (elements (dom (files f))))))
    (all_directories f)).

Lemma scan_headers_inv session_id f r f' :
  healthy f -> scan_headers None session_id f = (Ok r, f') ->
  same_files f f' /\ r = all_headers f session_id.
Proof.
  intros Hh H. unfold scan_headers in H. m_inv H.
  apply session_directories_inv in Hstep as [Hs ->]; [|done].
  eapply (collect_files_map _ (fun dir => concat (map (path_headers (files f) session_id)
    (filter (fun p => path_parent p = dir) (elements (dom (files f)))))) f) in H; [done| |done].
  intros dir f1 a f2 _ Hf1 Ha. m_inv Ha.
  apply directory_files_inv in Hstep as [Hs1 ->]; [|apply Hf1].
  assert (files f1 = files f) as Heq by apply Hf1. rewrite Heq in Ha.
  eapply (collect_files_map _ (path_headers (files f) session_id) f) in Ha; [done| |].
  - intros p f3 b f4 _ Hf3 Hb. apply scan_file_headers in Hb as [Hs4 ->]; [|apply Hf3].
    split; [by eapply same_files_trans|]. by replace (files f3) with (files f) by (symmetry; apply Hf3).
  - by eapply same_files_trans.
Qed.

(** ** Which sessions the scan finds *)

(** A log of [session_id] lies at [path] in a session directory. *)
Definition session_file (f : JsonlStoreFactory) (path : string) (h : V4Header) : Prop :=
  sessions_root f ∈ fs_dirs (factory_fs f) /\
  path_parent path ∈ fs_dirs (factory_fs f) /\
  path_parent (path_parent path) = sessions_root f /\
  is_jsonl path = true /\
  exists content, files f !! path = Some content /\ text_header (first_line content) = Some h.

Lemma elem_of_all_headers f x :
  x ∈ all_headers f None <->
  exists h, session_file f (header_path x) h /\
    x = {| header_id := v4_id h; header_cwd := v4_cwd h; header_ownership := v4_ownership h;
           header_path := header_path x |}.
Proof.
  unfold all_headers, all_directories, session_file. rewrite list_elem_of_In, in_concat.
  split.
  - intros (l & Hl & Hx). apply in_map_iff in Hl as (dir & <- & Hdir).
    apply in_concat in Hx as (l & Hl & Hx). apply in_map_iff in Hl as (p & <- & Hp).
    rewrite <- list_elem_of_In in Hp, Hdir. apply list_elem_of_filter in Hp as [Hpar _].
    case_bool_decide as Hroot; [|by apply not_elem_of_nil in Hdir].
    apply list_elem_of_filter in Hdir as [Hdp Hdir%elem_of_elements].
    unfold path_headers in Hx. simpl in Hx. rewrite orb_false_r in Hx.
    destruct (is_jsonl p) eqn:Hj; simpl in Hx; [|done].
    destruct (files f !! p) as [c|] eqn:Hc; [|done]. simpl in Hx.
    destruct (text_header (first_line c)) as [h|] eqn:Hh; [|done].
    destruct Hx as [<-|[]]. simpl. exists h. rewrite Hpar. eauto 10.
  - intros (h & (Hroot & Hdir & Hdp & Hj & c & Hc & Hh) & Hx).
    exists (concat (map (path_headers (files f) None)
      (filter (fun p => path_parent p = path_parent (header_path x)) (elements (dom (files f)))))).
    split.
    + apply in_map_iff. eexists. split; [done|]. rewrite <- list_elem_of_In.
      rewrite bool_decide_eq_true_2 by done. apply list_elem_of_filter.
      split; [done|by apply elem_of_elements].
    + apply in_concat. exists (path_headers (files f) None (header_path x)). split.
      * apply in_map. rewrite <- list_elem_of_In. apply list_elem_of_filter. split; [done|].
        apply elem_of_elements, elem_of_dom. by eexists.
      * unfold path_headers. rewrite Hj, Hc. simpl. rewrite Hh. by left.
Qed.

Lemma elem_of_fast_headers f id x :
  x ∈ all_headers f (Some id) -> x ∈ all_headers f None /\ header_id x = id.
Proof.
  unfold all_headers. rewrite !list_elem_of_In, !in_concat.
  intros (l & Hl & Hx). apply in_map_iff in Hl as (dir & <- & Hdir).
  apply in_concat in Hx as (l & Hl & Hx). apply in_map_iff in Hl as (p & <- & Hp).
  unfold path_headers in Hx. simpl in Hx.
  destruct (negb (is_jsonl p) || _) eqn:Hj; [done|]. apply orb_false_iff in Hj as [Hj _].
  destruct (files f !! p) as [c|] eqn:Hc; [|done]. simpl in Hx.
  destruct (text_header (first_line c)) as [h|] eqn:Hh; [|done].
  case_bool_decide as Hid; [done|]. destruct Hx as [<-|[]]. split.
  - eexists. split; [by apply in_map|]. apply in_concat. eexists. split; [by apply in_map|].
    unfold path_headers. rewrite Hj, Hc. simpl. rewrite Hh. by left.
  - simpl. destruct (decide (v4_id h = id)); [done|congruence].
Qed.

Lemma find_header_spec id l :
  match find_header id l with
  | Some x => x ∈ l /\ header_id x = id
  | None => forall x, x ∈ l -> header_id x <> id
  end.
Proof.
  unfold find_header. destruct (filter _ l) as [|x r] eqn:Hf; simpl.
  - intros x Hx Hid. assert (x ∈ filter (fun h => header_id h = id) l) as H.
    { by apply list_elem_of_filter. } rewrite Hf in H. by apply not_elem_of_nil in H.
  - assert (x ∈ filter (fun h => header_id h = id) l) as H.
    { rewrite Hf. apply list_elem_of_here. } by apply list_elem_of_filter in H as [? ?].
Qed.

(** The two-stage lookup answers for the identity, and finds it wherever it is. *)
Lemma header_lookup id f r f' :
  healthy f -> header id f = (Ok r, f') ->
  same_files f f' /\
  match r with
  | Some x => header_id x = id /\ exists h, session_file f (header_path x) h /\ v4_id h = id
  | None => forall path h, session_file f path h -> v4_id h <> id
  end.
Proof.
  intros Hh H. unfold header in H. m_inv H.
  apply scan_headers_inv in Hstep as [Hs ->]; [|done].
  destruct (head (all_headers f (Some id))) as [x|] eqn:Hx.
  - injection H as <- <-. split; [done|].
    destruct (all_headers f (Some id)) as [|y l] eqn:Hl; [done|]. injection Hx as ->.
    assert (x ∈ all_headers f (Some id)) as Hin by (rewrite Hl; apply list_elem_of_here).
    apply elem_of_fast_headers in Hin as [Hin Hid]. split; [done|].
    apply elem_of_all_headers in Hin as (h & Hf & Hxe). exists h. split; [done|].
    rewrite Hxe in Hid. done.
  - m_inv H. injection H as <- <-. unfold headers in Hstep.
    apply scan_headers_inv in Hstep as [Hs' ->]; [|apply Hs].
    split; [by eapply same_files_trans|].
    assert (all_headers s None = all_headers f None) as ->.
    { unfold all_headers, all_directories. destruct Hs as (-> & _ & -> & ->). done. }
    pose proof (find_header_spec id (all_headers f None)) as Hfind.
    destruct (find_header id (all_headers f None)) as [x|].
    + destruct Hfind as [Hin Hid]. split; [done|].
      apply elem_of_all_headers in Hin as (h & Hf & Hxe). exists h. split; [done|].
      rewrite Hxe in Hid. done.
    + intros path h Hf Hid.
      apply (Hfind {| header_id := v4_id h; header_cwd := v4_cwd h;
                      header_ownership := v4_ownership h; header_path := path |}); [|done].
      apply elem_of_all_headers. by exists h.
Qed.

(** ** Deletion *)

Lemma delete_all_files l f f' :
  healthy f -> delete_all l f = (Ok tt, f') ->
  healthy f' /\ forall path, files f' !! path =
    if decide (path ∈ map header_path l) then None else files f !! path.
Proof.
  revert f. induction l as [|x l IH]; intros f Hh H; cbn [delete_all] in H.
  - injection H as <-. split; [done|]. intros path.
    by rewrite decide_False by apply not_elem_of_nil.
  - m_inv H. unfold fs_call_outcome in Hstep. rewrite (healthy_calls _ Hh) in Hstep.
    injection Hstep as <- <-. m_inv H. injection Hstep as _ <-.
    apply IH in H as [Hh' Hf']; [|apply with_files_healthy; split; apply Hh].
    split; [done|]. intros path. rewrite Hf'. cbn [map]. unfold files at 1. simpl.
    destruct (decide (path ∈ map header_path l)) as [Hin|Hout].
    + by rewrite decide_True by (by apply list_elem_of_further).
    + unfold files at 1. simpl. destruct (decide (path = header_path x)) as [->|Hne].
      * rewrite lookup_delete_eq. by rewrite decide_True by apply list_elem_of_here.
      * rewrite lookup_delete_ne by done. rewrite decide_False; [done|].
        by intros [?|?]%elem_of_cons.
Qed.

Lemma delete_session_files id f f' :
  healthy f -> delete_session id f = (Ok tt, f') ->
  (forall path h, session_file f path h -> v4_id h = id -> files f' !! path = None) /\
  (forall path, (forall h, session_file f path h -> v4_id h <> id) ->
    files f' !! path = files f !! path).
Proof.
  intros Hh H. unfold delete_session in H. m_inv H.
  apply scan_headers_inv in Hstep as [Hs ->]; [|done].
  apply delete_all_files in H as [_ Hf]; [|apply Hs].
  assert (files s = files f) as Hfs by apply Hs. rewrite Hfs in Hf.
  split; intros path.
  - intros h Hsf Hid. rewrite Hf, decide_True; [done|].
    rewrite list_elem_of_In. apply in_map_iff.
    exists {| header_id := v4_id h; header_cwd := v4_cwd h;
              header_ownership := v4_ownership h; header_path := path |}.
    split; [done|]. rewrite <- list_elem_of_In. apply list_elem_of_filter. split; [done|].
    apply elem_of_all_headers. by exists h.
  - intros Hno. rewrite Hf, decide_False; [done|]. rewrite list_elem_of_In, in_map_iff.
    intros (x & <- & Hx). rewrite <- list_elem_of_In in Hx.
    apply list_elem_of_filter in Hx as [Hid Hx].
    apply elem_of_all_headers in Hx as (h & Hsf & Hxe). apply (Hno h Hsf).
    rewrite Hxe in Hid. done.
Qed.

End Index.

(** Creating a session: the new file holds exactly the header, on disk, and no
    other file of the store is touched. *)

Open Scope string_scope.
Open Scope rust_scope.

Lemma create_new_file_inv path f f' :
  create_new_file path f = (Ok tt, f') ->
  files f !! path = None /\ files f' = <[path := ""]> (files f).
Proof.
  unfold create_new_file. intros H. m_inv H. destruct a. apply fs_call_inv in Hstep.
  case_bool_decide as Hn; [done|]. case_bool_decide; [|done]. injection H as <-.
  rewrite <- Hstep. split; [by apply eq_None_not_Some|done].
Qed.

Lemma create_dir_all_inv dir f f' :
  create_dir_all dir f = (Ok tt, f') -> files f' = files f.
Proof.
  unfold create_dir_all. intros H. m_inv H. destruct a. apply fs_call_inv in Hstep.
  by injection H as <-.
Qed.

Lemma file_handle_inv path f hd ck f' :
  file_handle path f = (Ok (hd, ck), f') ->
  files f !! path = Some (disk hd) /\ buffered hd = "" /\ files f' = files f.
Proof.
  unfold file_handle. intros H. m_inv H. unfold file_content in Hstep.
  injection Hstep as Hc <-. apply ok_or_ok in Hc.
  destruct (fs_handles _ _) as [io clock]. by injection H as <- <- <-.
Qed.

Section Create.
Context {R : RigTypes} {CC : ContentCodec R} {JT : JsonText}.

Lemma on_store_ok {A} (op : M JsonlSessionStore StoreError A) s f a s' f' :
  on_store op s f = (Ok (a, s'), f') -> op s = (Ok a, s') /\ f' = f.
Proof.
  unfold on_store. destruct (op s) as [[x|e] s1]; [by intros [= -> -> ->]|].
  unfold m_bind. by destruct (drop_store s1 f) as [[]].
Qed.

Lemma append_written v s s' :
  append v s = (Ok tt, s') ->
  write_line (print v) (jsonl_file s) = (Ok tt, jsonl_file s') /\
  jsonl_state s' = jsonl_state s /\ jsonl_path s' = jsonl_path s.
Proof.
  unfold append. destruct (write_line _ _) as [r g] eqn:Hw. by intros [= -> <-].
Qed.

(** The created log is the header alone, and the store over it starts empty. *)
Lemma create_log_ok options owner f t f' :
  create_with options owner f = (Ok t, f') ->
  exists at_ms,
    log_ok t (header_new options at_ms owner) [] /\
    files f !! jsonl_path t = None /\
    files f' = <[jsonl_path t := disk (jsonl_file t)]> (files f).
Proof.
  unfold create_with. intros H. m_inv H. injection Hstep as <- <-. m_inv H.
  injection Hstep as <- <-. m_inv H. destruct a. apply create_dir_all_inv in Hstep.
  m_inv H. destruct a. apply create_new_file_inv in Hstep0 as [Hnone Hnew].
  m_inv H. destruct a as [hd ck]. apply file_handle_inv in Hstep0 as (Hd & Hb & Hf).
  m_inv H. destruct a as [[] t1]. apply on_store_ok in Hstep0 as [Ha ->].
  m_inv H. destruct a as [[] t2]. apply on_store_ok in Hstep0 as [Hs ->].
  m_inv H. injection Hstep0 as <- <-. injection H as <- <-.
  apply append_written in Ha as (Hw & Hst & Hp).
  cbn [snd fst jsonl_file jsonl_state jsonl_path] in *. unfold jsonl_sync in Hs.
  destruct (sync_file (jsonl_file t1)) as [r g] eqn:Hg. injection Hs as -> <-.
  apply write_line_done in Hw as (Hdisk & Hbuf & _).
  destruct (sync_file_disk _ _ _ Hg Hbuf) as [Hgd Hgb].
  rewrite Hnew, lookup_insert_eq in Hd. injection Hd as Hd.
  eexists. cbn [with_file jsonl_file jsonl_state jsonl_path]. rewrite Hp.
  split; [|split].
  - split; cbn [with_file jsonl_file jsonl_state]; [done| |done|by rewrite Hst].
    rewrite Hgd, Hdisk, <- Hd, Hb. unfold log_text, log_lines. simpl.
    by rewrite string_app_nil_r.
  - by rewrite Hstep in Hnone.
  - rewrite Hstep in Hnew. unfold files, with_files in *. cbn in *.
    by rewrite Hf, Hnew, insert_insert_eq.
Qed.

End Create.
