(* ===== verification/Samples.v ===== *)
(** Concrete instances of the library codecs, and concrete values, used to
    evaluate the theorems on examples. *)

From S2P Require Import Prelude Scalar Json Message StoreModel StoreState StoreSession.
From S2P Require Import StoreFactory.
Open Scope string_scope.

#[export] Existing Instance SampleText.sample_text.

#[export] Instance sample_rig : RigTypes := {| Usage := unit; RigAssistantMessage := unit |}.

Definition sample_metadata : AssistantMetadata (R := sample_rig) :=
  {| provider_id := "p"; model_id := "m"; stop_reason := EndTurn; raw_stop_reason := None;
     metadata_usage := {| usage_inner := tt |}; metadata_error := None;
     context_overflow := false |}.

(** An encoding of plain text messages, single tool calls and plain results. *)
Definition sample_to_value (c : MessageContent sample_rig) : option json :=
  match c with
  | System [Text s] => Some (JArray [JString "system"; JString s])
  | User [Text s] => Some (JArray [JString "user"; JString s])
  | Assistant [Text s] _ _ => Some (JArray [JString "assistant"; JString s])
  | Assistant [ToolCallBlock i n JNull None] _ _ =>
      Some (JArray [JString "call"; to_value i; JString n])
  | ToolResult i [Text s] false None None false =>
      Some (JArray [JString "result"; to_value i; JString s])
  | SlashCommand (Invocation i Builtin) =>
      Some (JArray [JString "invocation"; JString (original i); JString (invocation_name i);
                    JString (invocation_arguments i)])
  | SlashCommand (Output {| command := name; output_source := Builtin; output_status := StatusSucceeded;
                            output_blocks := [Text s] |}) =>
      Some (JArray [JString "output"; JString name; JString s])
  | _ => None
  end.

Definition sample_from_value (v : json) : result (MessageContent sample_rig) json_error :=
  match v with
  | JArray [JString "system"; JString s] => Ok (System [Text s])
  | JArray [JString "user"; JString s] => Ok (User [Text s])
  | JArray [JString "assistant"; JString s] => Ok (Assistant [Text s] sample_metadata None)
  | JArray [JString "call"; i; JString n] =>
      match from_value i with
      | Ok i => Ok (Assistant [ToolCallBlock i n JNull None] sample_metadata None)
      | Err e => Err e
      end
  | JArray [JString "result"; i; JString s] =>
      match from_value i with
      | Ok i => Ok (ToolResult i [Text s] false None None false)
      | Err e => Err e
      end
  | JArray [JString "invocation"; JString text; JString n; JString arguments] =>
      Ok (SlashCommand (Invocation {| original := text; invocation_name := n;
                                      invocation_arguments := arguments |} Builtin))
  | JArray [JString "output"; JString n; JString s] =>
      Ok (SlashCommand (Output {| command := n; output_source := Builtin; output_status := StatusSucceeded;
                                  output_blocks := [Text s] |}))
  | _ => Err (JsonError "content")
  end.

Definition sample_content_ok (c : MessageContent sample_rig) : Prop :=
  match c with
  | System [Text _] | User [Text _] => True
  | Assistant [Text _] m None => m = sample_metadata
  | Assistant [ToolCallBlock _ _ JNull None] m None => m = sample_metadata
  | ToolResult _ [Text _] false None None false => True
  | SlashCommand (Invocation _ Builtin) => True
  | SlashCommand (Output {| output_source := Builtin; output_status := StatusSucceeded;
                            output_blocks := [Text _] |}) => True
  | _ => False
  end.

#[export] Instance sample_usage_to : ToValue (ModelUsage sample_rig) := fun _ => JBool true.
#[export] Instance sample_usage_from : FromValue (ModelUsage sample_rig) :=
  fun _ => Ok {| usage_inner := tt |}.

Lemma sample_encodes c : sample_content_ok c ->
  exists v, sample_to_value c = Some v /\ sample_from_value v = Ok c.
Proof.
  destruct c as [bs|bs| |bs m [u|]|i bs [] [] [] []| | |[[] []|[? [] [] ?]]|]; simpl; try done;
    repeat case_match; intros ?; simplify_eq; try done;
    (eexists; split; [done|]); simpl; try done; by rewrite from_to_value.
Qed.

#[export] Instance sample_codec : ContentCodec sample_rig.
Proof.
  refine {| content_to_value := sample_to_value; content_from_value := sample_from_value;
            content_ok := sample_content_ok; usage_ok := fun _ => True |}.
  - apply sample_encodes.
  - intros [[]] _. done.
Defined.

(** ** Values *)

Definition sample_session : SessionId := MkId "session-1" I.
Definition time (z : Z) : TimestampMs := timestamp_clamp z.

Definition sample_header : V4Header :=
  {| v4_kind := Header; v4_version := 4; v4_id := sample_session;
     v4_created_at := time 1; v4_cwd := "/work"; v4_parent_session_id := None;
     v4_ownership := None |}.

Definition sample_clock : ClockHandle :=
  {| readings := fun n => time (Z.of_nat n); clock_count := 0 |}.

(** A fresh session over a file whose writes go as [io] says. *)
Definition sample_store (io : nat -> io_event) : JsonlSessionStore :=
  {| jsonl_session_id := sample_session; jsonl_path := "/s/--work--/1_session-1.jsonl";
     jsonl_clock := sample_clock;
     jsonl_file := {| disk := (print (to_value sample_header) +:+ nl)%string;
                      buffered := ""; io_events := io; io_count := 0 |};
     jsonl_state := new_state |}.

Definition sample_factory (m : gmap string string) (dirs : gset string)
  : JsonlStoreFactory :=
  {| sessions_root := "/s"; factory_clock := sample_clock;
     factory_fs := {| fs_files := m; fs_dirs := dirs; fs_modified := fun _ => 0%Z;
                      fs_calls := fun _ => FsDone; fs_call_count := 0;
                      fs_handles := fun _ => (fun _ => IoDone, fun n => time (Z.of_nat n));
                      fs_handle_count := 0 |} |}.

Definition entry_a : EntryId := MkId "entry-a" I.
Definition entry_b : EntryId := MkId "entry-b" I.
Definition custom_entry (i : EntryId) : NewEntry :=
  {| new_entry_id := i; new_entry_kind := KindCustom;
     new_entry_payload := JObject {[ "data" := JNull ]} |}.

(** A message said at time [z] with the given identifier. *)
Definition sample_turn : TurnId := MkId "turn-1" I.
Definition sample_message (i : MessageId) (z : Z) (c : MessageContent sample_rig)
  : AgentMessage sample_rig :=
  {| identity := {| message_id := i; turn_id := sample_turn |};
     timing := {| timestamp_ms := time z; started_at_ms := time z; ended_at_ms := time z |};
     content := c |}.
Definition hello : AgentMessage sample_rig :=
  sample_message (MkId "message-1" I) 1 (User [Text "hello"]).
Definition answer : AgentMessage sample_rig :=
  sample_message (MkId "message-2" I) 2 (Assistant [Text "hi"] sample_metadata None).
