(* ===== verification/KernelErrors.v ===== *)
(** The kernel's error type: [KernelError] of [crates/kernel/src/runtime.rs].
    Errors of the libraries the kernel calls are kept as the variants the
    kernel itself distinguishes, and their text. *)

From S2P Require Import Prelude Scalar Json Message StoreModel ToolContract.
Open Scope string_scope.
Open Scope rust_scope.

Inductive ModelError : Type :=
| AuthRequired (text : string)
| ModelCancelled
| ModelFailed (text : string).

Inductive KernelError : Type :=
| SharedMcpManagement (id : SessionId)
| OwnerUnavailable (id : SessionId)
| EventSinksInstalled
| Model (error : ModelError)
| Tool (error : ToolError)
| Store (error : StoreError)
| SessionPersistenceUncertain
| ExtensionFailed (text : string)
| Mcp (text : string)
| Skill (text : string)
| Prompt (text : string)
| Sink (text : string)
| SessionNotFound (id : SessionId)
| DuplicateSession (id : SessionId)
| SessionStarting
| SessionClosing
| SessionCwdMismatch (id : SessionId) (expected received : string)
| Protocol (text : string)
| ExtensionBlocked (reason : string)
| TurnLimit (turns : Z)
| Poisoned
| ExtensionCommandNotFound (name : string)
| SlashCommandRejected (text : string)
| ElicitationResolved (id : string)
| PlanApprovalResolved (id : string)
| NoContextToCompact
| SlashCommandCannotQueue (name : string) (source : SlashCommandSource)
| SessionNotRunning (id : SessionId)
| PendingMessageNotFound (id : QueueId)
| PromptCancelled.

(** [ScalarError]'s [Display] *)
Definition scalar_error_text (e : ScalarError) : string :=
  match e with
  | EmptyIdentifier kind => kind +:+ " must not be empty"
  | InvalidTimestamp => "timestamp must be an unsigned decimal millisecond string"
  | InvalidSequence =>
      "sequence must be between 1 and " +:+ u64_to_string MAX_SAFE_INTEGER
  | EmptySessionTitle => "session title must not be empty"
  | SessionTitleTooLong maximum =>
      "session title must not exceed " +:+ u64_to_string maximum +:+ " characters"
  end.

(** [MessageTimingError]'s [Display] *)
Definition timing_error_text (e : MessageTimingError) : string :=
  match e with
  | EndBeforeStart started ended =>
      "message ended at " +:+ timestamp_to_string ended
      +:+ " before it started at " +:+ timestamp_to_string started
  end.

(** [KernelError::for_insertion]; [display] is the error's [Display]. *)
Definition for_insertion (display : KernelError -> string) (e : KernelError) : KernelError :=
  match e with
  | PromptCancelled => PromptCancelled
  | SessionPersistenceUncertain => SessionPersistenceUncertain
  | SessionNotFound id => SessionNotFound id
  | SessionClosing => SessionClosing
  | ExtensionBlocked reason => ExtensionBlocked reason
  | Model (AuthRequired text) => Model (AuthRequired text)
  | other => Protocol (display other)
  end.

(** [KernelError::is_cancellation] *)
Definition is_cancellation (e : KernelError) : bool :=
  match e with
  | PromptCancelled | Model ModelCancelled | Tool ToolCancelled => true
  | _ => false
  end.
