(* ===== verification/Batching.v ===== *)
(** Merging adjacent streaming notifications before they leave the ACP adapter.
    [crates/acp/src/coalescing.rs]

    The message types are the agent-client-protocol crate's: of a notification
    the code uses the method and the params, of a request too, and anything else
    it passes on; what they hold besides is the class [RpcTypes].  Equality of
    JSON values is serde_json's, the class [ValueEq]. *)

From S2P Require Import Prelude Lines Scalar Json.
Open Scope string_scope.

Class RpcTypes := { RequestRest : Type; OtherMessage : Type; OtherFrame : Type }.

Class ValueEq := {
  value_eq : json -> json -> bool;
  value_eq_refl : forall a, value_eq a a = true;
  value_eq_trans : forall a b c, value_eq a b = true -> value_eq b c = true -> value_eq a c = true
}.

Abbreviation json_map := (gmap string json).

Inductive RawJsonRpcParams : Type :=
| ParamsObject (m : json_map)
| ParamsArray (l : list json).

(** [RawJsonRpcParams::into_value] *)
Definition into_value (p : RawJsonRpcParams) : json :=
  match p with ParamsObject m => JObject m | ParamsArray l => JArray l end.

Record RawNotification : Type := { method : string; params : option RawJsonRpcParams }.
Inductive RawJsonRpcMessage {T : RpcTypes} : Type :=
| Notification (n : RawNotification)
| Request (method : string) (params : option RawJsonRpcParams) (rest : RequestRest)
| Other (o : OtherMessage).
Arguments RawJsonRpcMessage T : clear implicits.

Definition json_as_object (v : json) : option json_map :=
  match v with JObject m => Some m | _ => None end.

Definition LAST_SEQUENCE_FIELD : string := "lastSequence".
(** [ProductIdentity::ACP_NAMESPACE] *)
Definition ACP_NAMESPACE : string := "clawcode".

Inductive ChunkKind : Type := Message | Thought.
#[export] Instance chunk_kind_eq_dec : EqDecision ChunkKind.
Proof. solve_decision. Defined.

(** [MessageKey], [RecoveryKey], [ChunkKey] *)
Record ChunkKey : Type := {
  kind : ChunkKind;
  session_id : string;
  message_id : string;
  annotations : option json;
  run_id : string;
  turn_id : string
}.

(** [StreamChunk], with its [SequenceRange] *)
Record StreamChunk : Type := { key : ChunkKey; first : Z; last : Z; text : string }.

Definition field_object (name : string) (m : json_map) : option json_map :=
  v ← m !! name; json_as_object v.
Definition field_str (name : string) (m : json_map) : option string :=
  v ← m !! name; json_as_str v.
Definition field_u64 (name : string) (m : json_map) : option Z :=
  v ← m !! name; json_as_u64 v.

(** [params["_meta"][namespace]] *)
Definition product_of (p : json_map) : option json_map :=
  meta ← field_object "_meta" p; field_object ACP_NAMESPACE meta.

(** The update's channel, message, annotations and text. *)
Definition update_chunk (p : json_map) : option (ChunkKind * string * option json * string) :=
  update ← field_object "update" p;
  name ← field_str "sessionUpdate" update;
  kind ← (if String.eqb name "agent_message_chunk" then Some Message
          else if String.eqb name "agent_thought_chunk" then Some Thought else None);
  message ← field_str "messageId" update;
  content ← field_object "content" update;
  type ← field_str "type" content;
  (if String.eqb type "text" then
     text ← field_str "text" content; Some (kind, message, content !! "annotations", text)
   else None).

(** The run, and the sequences the notification stands for. *)
Definition recovery_range (product : json_map) : option (string * Z * Z) :=
  first ← field_u64 "sequence" product;
  group ← field_object "sessionRecovery" product;
  index ← field_u64 "projectionIndex" group;
  count ← field_u64 "projectionCount" group;
  (if negb (index =? 0)%Z || negb (count =? 1)%Z || bool_decide (is_Some (group !! "operationPhase"))
   then None
   else
     run ← field_str "runId" group;
     last ← match group !! LAST_SEQUENCE_FIELD with
            | Some last => json_as_u64 last
            | None => Some first
            end;
     (if (first =? 0)%Z || (last <? first)%Z then None else Some (run, first, last))).

Section Coalescing.
Context {T : RpcTypes} {V : ValueEq}.
Abbreviation Msg := (RawJsonRpcMessage T).

Definition params_chunk (p : json_map) : option StreamChunk :=
  session ← field_str "sessionId" p;
  '(kind, message, annotations, text) ← update_chunk p;
  product ← product_of p;
  turn ← field_str "turnId" product;
  '(run, first, last) ← recovery_range product;
  Some {| key := {| kind := kind; session_id := session; message_id := message;
                    annotations := annotations; run_id := run; turn_id := turn |};
          first := first; last := last; text := text |}.

(** [StreamChunk::from_message] *)
Definition from_message (m : Msg) : option StreamChunk :=
  match m with
  | Notification {| method := method; params := Some (ParamsObject p) |} =>
      if String.eqb method "session/update" then params_chunk p else None
  | _ => None
  end.

(** The equality of [ChunkKey]. *)
Definition option_value_eq (a b : option json) : bool :=
  match a, b with
  | Some a, Some b => value_eq a b
  | None, None => true
  | _, _ => false
  end.
Definition key_eq (a b : ChunkKey) : bool :=
  bool_decide (kind a = kind b) && String.eqb (session_id a) (session_id b)
  && String.eqb (message_id a) (message_id b) && option_value_eq (annotations a) (annotations b)
  && String.eqb (run_id a) (run_id b) && String.eqb (turn_id a) (turn_id b).

(** Changing a field of nested objects, when they are there. *)
Definition alter_object (name : string) (f : json_map -> json_map) (m : json_map) : json_map :=
  alter (fun v => match v with JObject o => JObject (f o) | _ => v end) name m.

Definition push_str (more : string) (v : json) : json :=
  match v with JString s => JString (s +:+ more) | _ => v end.

Definition append_params (more : string) (last_sequence : Z) (p : json_map) : json_map :=
  alter_object "update" (alter_object "content" (alter (push_str more) "text"))
    (alter_object "_meta" (alter_object ACP_NAMESPACE
       (alter_object "sessionRecovery" (insert LAST_SEQUENCE_FIELD (json_u64 last_sequence)))) p).

(** [append_chunk]; its [unreachable!] branches leave the message alone. *)
Definition append_chunk (m : Msg) (more : string) (last_sequence : Z) : Msg :=
  match m with
  | Notification {| method := method; params := Some (ParamsObject p) |} =>
      Notification {| method := method;
                      params := Some (ParamsObject (append_params more last_sequence p)) |}
  | _ => m
  end.

(** [merge_adjacent]: the changed target when it merged. *)
Definition merge_adjacent (target source : Msg) : option Msg :=
  t ← from_message target;
  s ← from_message source;
  (if negb (key_eq (key t) (key s)) || (first s <=? last t)%Z then None
   else Some (append_chunk target (text s) (last s))).

(** [coalesce_updates] *)
Fixpoint coalesce_from (output messages : list Msg) : list Msg :=
  match messages with
  | [] => output
  | m :: rest =>
      match target ← list.last output; merge_adjacent target m with
      | Some merged => coalesce_from (removelast output ++ [merged]) rest
      | None => coalesce_from (output ++ [m]) rest
      end
  end.
Definition coalesce_updates (messages : list Msg) : list Msg := coalesce_from [] messages.

End Coalescing.

(** ** Changed fields *)

Lemma field_object_alter name f m :
  field_object name (alter_object name f m) = f <$> field_object name m.
Proof.
  unfold field_object, alter_object. rewrite lookup_alter_eq. by destruct (m !! name) as [[]|].
Qed.
Lemma lookup_alter_object name name' f m :
  name <> name' -> alter_object name' f m !! name = m !! name.
Proof. intros Hne. unfold alter_object. by rewrite lookup_alter_ne. Qed.
Lemma field_object_alter_ne name name' f m :
  name <> name' -> field_object name (alter_object name' f m) = field_object name m.
Proof. intros Hne. unfold field_object. by rewrite lookup_alter_object. Qed.
Lemma field_str_alter_ne name name' f m :
  name <> name' -> field_str name (alter_object name' f m) = field_str name m.
Proof. intros Hne. unfold field_str. by rewrite lookup_alter_object. Qed.
Lemma field_u64_alter_ne name name' f m :
  name <> name' -> field_u64 name (alter_object name' f m) = field_u64 name m.
Proof. intros Hne. unfold field_u64. by rewrite lookup_alter_object. Qed.

Section Received.
Context {T : RpcTypes} {V : ValueEq}.
Abbreviation Msg := (RawJsonRpcMessage T).

Lemma update_chunk_append more last p :
  update_chunk (append_params more last p)
  = (fun '(kind, message, annotations, text) => (kind, message, annotations, text +:+ more))
      <$> update_chunk p.
Proof.
  unfold update_chunk, append_params. rewrite field_object_alter, field_object_alter_ne by done.
  destruct (field_object "update" p) as [u|]; [|done]. cbn.
  rewrite !field_str_alter_ne by done. destruct (field_str "sessionUpdate" u) as [name|]; [|done]. cbn.
  destruct (if String.eqb name _ then _ else _) as [k|]; [|done]. cbn.
  destruct (field_str "messageId" u) as [m|]; [|done]. cbn.
  rewrite field_object_alter. destruct (field_object "content" u) as [c|]; [|done]. cbn.
  assert (forall name, name <> "text" -> field_str name (alter (push_str more) "text" c) = field_str name c)
    as Hother by (intros n Hn; unfold field_str; by rewrite lookup_alter_ne).
  rewrite (Hother "type") by done. destruct (field_str "type" c) as [ty|]; [|done]. cbn.
  destruct (String.eqb ty "text"); [|done]. unfold field_str.
  rewrite lookup_alter_eq, lookup_alter_ne by done. destruct (c !! "text") as [v|]; [|done]. cbn. by destruct v.
Qed.

Lemma product_of_append more last p :
  product_of (append_params more last p)
  = alter_object "sessionRecovery" (insert LAST_SEQUENCE_FIELD (json_u64 last)) <$> product_of p.
Proof.
  unfold product_of, append_params. rewrite field_object_alter_ne, field_object_alter by done.
  destruct (field_object "_meta" p); [|done]. cbn. apply field_object_alter.
Qed.

Lemma recovery_range_append product run first old last :
  recovery_range product = Some (run, first, old) -> (first <= last)%Z ->
  recovery_range (alter_object "sessionRecovery" (insert LAST_SEQUENCE_FIELD (json_u64 last)) product)
    = Some (run, first, last).
Proof.
  unfold recovery_range. rewrite field_u64_alter_ne, field_object_alter by done.
  destruct (field_u64 "sequence" product) as [n|]; [|done]. cbn.
  destruct (field_object "sessionRecovery" product) as [g|]; [|done]. cbn.
  assert (forall name, name <> LAST_SEQUENCE_FIELD ->
    (<[LAST_SEQUENCE_FIELD := json_u64 last]> g : json_map) !! name = g !! name) as Hother
    by (intros name Hn; by rewrite lookup_insert_ne).
  unfold field_u64, field_str. rewrite (Hother "projectionIndex"), (Hother "projectionCount"), (Hother "operationPhase"),
    (Hother "runId"), lookup_insert_eq by done.
  destruct (v ← g !! "projectionIndex"; json_as_u64 v) as [i|]; [|done]. cbn.
  destruct (v ← g !! "projectionCount"; json_as_u64 v) as [c|]; [|done]. cbn.
  destruct (_ || bool_decide _); [done|].
  destruct (v ← g !! "runId"; json_as_str v) as [r|]; [|done]. cbn.
  destruct (match g !! LAST_SEQUENCE_FIELD with Some _ => _ | None => _ end) as [o|]; [|done]. cbn.
  destruct (Z.eqb_spec n 0); [done|]. destruct (Z.ltb_spec o n); [done|]. cbn.
  intros [= -> -> ->] Hle. by rewrite (proj2 (Z.ltb_ge _ _)).
Qed.

Lemma recovery_range_le product run first last :
  recovery_range product = Some (run, first, last) -> (first <= last)%Z.
Proof.
  unfold recovery_range. destruct (field_u64 "sequence" product) as [n|]; [|done]. cbn.
  destruct (field_object "sessionRecovery" product) as [g|]; [|done]. cbn.
  destruct (field_u64 "projectionIndex" g) as [i|]; [|done]. cbn.
  destruct (field_u64 "projectionCount" g) as [c|]; [|done]. cbn.
  destruct (_ || bool_decide _); [done|].
  destruct (field_str "runId" g) as [r|]; [|done]. cbn.
  destruct (match g !! LAST_SEQUENCE_FIELD with Some _ => _ | None => _ end) as [o|]; [|done]. cbn.
  destruct (_ || (o <? n)%Z) eqn:Ho; [done|]. apply orb_false_iff in Ho as [_ Ho%Z.ltb_ge].
  by intros [= _ <- <-].
Qed.

(** A merged chunk is still a chunk, with both texts and both ranges. *)
Lemma from_message_append m c more last_sequence :
  from_message m = Some c -> (first c <= last_sequence)%Z ->
  from_message (append_chunk m more last_sequence)
    = Some {| key := key c; first := first c; last := last_sequence; text := text c +:+ more |}.
Proof.
  destruct m as [[method [[p|]|]]| |]; try done. cbn [from_message append_chunk].
  destruct (String.eqb method "session/update"); [|done]. unfold params_chunk.
  rewrite update_chunk_append, product_of_append.
  assert (field_str "sessionId" (append_params more last_sequence p) = field_str "sessionId" p) as ->
    by (unfold append_params; by rewrite !field_str_alter_ne).
  destruct (field_str "sessionId" p) as [s|]; [|done]. cbn.
  destruct (update_chunk p) as [[[[k i] a] t]|]; [|done]. cbn.
  destruct (product_of p) as [product|]; [|done]. cbn.
  rewrite field_str_alter_ne by done. destruct (field_str "turnId" product) as [turn|]; [|done]. cbn.
  destruct (recovery_range product) as [[[r f] l]|] eqn:Hr; [|done]. cbn. intros [= <-] Hle.
  by rewrite (recovery_range_append _ _ _ _ _ Hr Hle).
Qed.

Lemma from_message_range m c : from_message m = Some c -> (first c <= last c)%Z.
Proof.
  destruct m as [[method [[p|]|]]| |]; try done. cbn [from_message].
  destruct (String.eqb method "session/update"); [|done]. unfold params_chunk.
  destruct (field_str "sessionId" p) as [s|]; [|done]. cbn.
  destruct (update_chunk p) as [[[[k i] a] t]|]; [|done]. cbn.
  destruct (product_of p) as [product|]; [|done]. cbn.
  destruct (field_str "turnId" product) as [turn|]; [|done]. cbn.
  destruct (recovery_range product) as [[[r f] l]|] eqn:Hr; [|done]. cbn. intros [= <-]. cbn.
  by eapply recovery_range_le.
Qed.

Lemma key_eq_trans a b c : key_eq a b = true -> key_eq b c = true -> key_eq a c = true.
Proof.
  unfold key_eq. rewrite !andb_true_iff, !bool_decide_eq_true, !String.eqb_eq.
  intros (((((-> & ->) & ->) & Ha) & ->) & ->) (((((-> & ->) & ->) & Hb) & ->) & ->).
  split_and!; try done. revert Ha Hb. destruct (annotations a), (annotations b), (annotations c);
    cbn; try done. apply value_eq_trans.
Qed.

(** ** What a client makes of a stream of messages *)

Section Client.
Context {A : Type} (view : Msg -> A).

(** Text blocks it appends to, and everything else. *)
Inductive Item : Type :=
| TextBlock (c : StreamChunk)
| Update (a : A).

Definition receive (items : list Item) (m : Msg) : list Item :=
  match from_message m with
  | None => items ++ [Update (view m)]
  | Some c =>
      match list.last items with
      | Some (TextBlock d) =>
          if key_eq (key d) (key c)
          then removelast items
               ++ [TextBlock {| key := key d; first := first d; last := last c;
                                text := text d +:+ text c |}]
          else items ++ [TextBlock c]
      | _ => items ++ [TextBlock c]
      end
  end.

Lemma receive_merged items target source merged :
  merge_adjacent target source = Some merged ->
  receive items merged = receive (receive items target) source.
Proof.
  unfold merge_adjacent. destruct (from_message target) as [t|] eqn:Ht; [|done]. cbn.
  destruct (from_message source) as [s|] eqn:Hs; [|done]. cbn.
  destruct (key_eq (key t) (key s)) eqn:Hk; [|done]. cbn.
  destruct (Z.leb_spec (first s) (last t)) as [|Hlt]; [done|]. intros [= <-].
  pose proof (from_message_range _ _ Ht). pose proof (from_message_range _ _ Hs).
  unfold receive at 1 3. rewrite (from_message_append _ _ _ _ Ht) by lia. rewrite Ht.
  cbn [key first last text].
  assert (receive (items ++ [TextBlock t]) source
    = (items ++ [TextBlock {| key := key t; first := first t; last := last s;
                              text := text t +:+ text s |}])%list) as Hpush.
  { unfold receive. rewrite Hs, last_snoc, Hk. by rewrite removelast_last. }
  destruct (list.last items) as [[d|a]|] eqn:Hlast; [|by rewrite Hpush..].
  destruct (key_eq (key d) (key t)) eqn:Hd; [|by rewrite Hpush].
  unfold receive. rewrite Hs, last_snoc. cbn [key first last text].
  rewrite (key_eq_trans _ _ _ Hd Hk), removelast_last. cbn. by rewrite string_app_assoc.
Qed.

Lemma received_coalesce items messages : forall output,
  foldl receive items (coalesce_from output messages)
  = foldl receive (foldl receive items output) messages.
Proof.
  induction messages as [|m rest IH]; intros output; [done|]. cbn [coalesce_from foldl].
  assert (foldl receive items (output ++ [m]) = receive (foldl receive items output) m) as Hsnoc
    by (by rewrite foldl_app).
  destruct (list.last output) as [target|] eqn:Hlast; cbn; [|by rewrite IH, Hsnoc].
  destruct (merge_adjacent target m) as [merged|] eqn:Hm; [|by rewrite IH, Hsnoc].
  apply last_Some in Hlast as [before ->]. rewrite IH, removelast_last.
  f_equal. rewrite !foldl_app. cbn. by apply receive_merged.
Qed.

End Client.

Lemma coalesce_length messages : forall output,
  length (coalesce_from output messages) <= length output + length messages /\
  (output <> [] \/ messages <> [] -> coalesce_from output messages <> []).
Proof.
  induction messages as [|m rest IH]; intros output; [split; [cbn; lia|by intros [?|?]]|].
  cbn [coalesce_from]. destruct (target ← list.last output; merge_adjacent target m) as [x|] eqn:Hx.
  - destruct (list.last output) as [target|] eqn:Hlast; [|done].
    apply last_Some in Hlast as [before ->]. rewrite removelast_last.
    destruct (IH (before ++ [x])%list) as [Hle Hne]. rewrite !length_app in *. cbn in *.
    split; [lia|]. intros _. apply Hne. left. by destruct before.
  - destruct (IH (output ++ [m])%list) as [Hle Hne]. rewrite !length_app in *. cbn in *.
    split; [lia|]. intros _. apply Hne. left. by destruct output.
Qed.

End Received.

(** Carrying several queued updates of one session in one notification, for
    clients that say at [initialize] that they accept it.
    [crates/acp/src/batching.rs]

    A relay's source is the list of frames its channel will ever hold; whether
    the next one (or the channel's end) is already there when the relay polls is
    [queued], by the number of the poll.  [accepts_batches] is the flag the
    inbound relay sets, read at any time, and [sink_error] the error of sending
    a frame after that many others. *)

Open Scope string_scope.
Open Scope rust_scope.

Definition BATCH_KEY : string := "sessionUpdateBatch".
Definition BATCH_VERSION : Z := 1.

Inductive TransportFrame {T : RpcTypes} : Type :=
| Single (m : RawJsonRpcMessage T)
| Frame (f : OtherFrame).
Arguments TransportFrame T : clear implicits.

Section Batching.
Context {T : RpcTypes} {V : ValueEq}.
Abbreviation Msg := (RawJsonRpcMessage T).

Definition session_update_id (m : Msg) : option string :=
  match m with
  | Notification {| method := method; params := Some (ParamsObject p) |} =>
      if String.eqb method "session/update" then field_str "sessionId" p else None
  | _ => None
  end.

(** [entry(..).or_insert(Null)], a null replaced by an empty object. *)
Definition object_or_new (v : option json) : option json_map :=
  match v with
  | None | Some JNull => Some ∅
  | Some v => json_as_object v
  end.

(** [product_meta], with the way to put a changed product back.  It creates
    levels only where it succeeds. *)
Definition product_meta (m : Msg) : option (json_map * (json_map -> Msg)) :=
  match m with
  | Notification {| method := method; params := Some (ParamsObject p) |} =>
      meta ← object_or_new (p !! "_meta");
      product ← object_or_new (meta !! ACP_NAMESPACE);
      Some (product, fun product' =>
        Notification {| method := method;
          params := Some (ParamsObject
            (<["_meta" := JObject (<[ACP_NAMESPACE := JObject product']> meta)]> p)) |})
  | _ => None
  end.

(** ** The inbound relay *)

(** The version an [initialize] request declares. *)
Definition declared (p : option RawJsonRpcParams) : bool :=
  match p with
  | Some (ParamsObject p) =>
      bool_decide ((meta ← p !! "_meta"; product ← json_get ACP_NAMESPACE meta;
                    capability ← json_get BATCH_KEY product;
                    version ← json_get "version" capability; json_as_u64 version)
                   = Some BATCH_VERSION)
  | _ => false
  end.

(** [InboundRelay::observe]: the flag after a frame. *)
Definition observe (frame : TransportFrame T) (accepts : bool) : bool :=
  match frame with
  | Single (Request method params _) =>
      if String.eqb method "initialize" then declared params else accepts
  | _ => accepts
  end.

(** ** The outbound relay *)

Context {E : Type}.
Variable max_batch_size : nat.
Variable queued : nat -> bool.
Variable accepts_batches : nat -> bool.
Variable sink_error : nat -> option E.

Record RelayState : Type := { sent : list (TransportFrame T); polls : nat }.

Definition send (f : TransportFrame T) : M RelayState E unit := fun s =>
  match sink_error (length (sent s)) with
  | Some e => (Err e, s)
  | None => (Ok tt, {| sent := sent s ++ [f]; polls := polls s |})
  end.

Fixpoint send_all (fs : list (TransportFrame T)) : M RelayState E unit :=
  match fs with
  | [] => m_ret tt
  | f :: rest => let! _ := send f in send_all rest
  end.

Definition nested_value (m : Msg) : json :=
  match m with
  | Notification {| params := params |} => from_option into_value JNull params
  | _ => JNull
  end.

(** [OutboundRelay::frames] *)
Definition frames (accepts : bool) (messages : list Msg) : list (TransportFrame T) :=
  let messages := coalesce_updates messages in
  if Nat.ltb (length messages) 2 || negb accepts then Single <$> messages
  else
    match messages with
    | [] => []
    | outer :: messages =>
        match product_meta outer with
        | None => Single <$> outer :: messages
        | Some (product, put) =>
            [Single (put (<[BATCH_KEY := JArray (nested_value <$> messages)]> product))]
        end
    end.

(** The drain loop: the messages drained, a frame it must not drain, the rest
    of the source, whether the source was seen closed, and the polls made. *)
Fixpoint drain (session : string) (messages : list Msg) (source : list (TransportFrame T))
  (polls : nat)
  : list Msg * option (TransportFrame T) * list (TransportFrame T) * bool * nat :=
  if Nat.leb max_batch_size (length messages) then (messages, None, source, false, polls)
  else if negb (queued polls) then (messages, None, source, false, S polls)
  else
    match source with
    | [] => (messages, None, [], true, S polls)
    | Single m :: rest =>
        if bool_decide (session_update_id m = Some session)
        then drain session (messages ++ [m]) rest (S polls)
        else (messages, Some (Single m), rest, false, S polls)
    | f :: rest => (messages, Some f, rest, false, S polls)
    end.

Definition drained (session : string) (message : Msg) (source : list (TransportFrame T))
  : M RelayState E (list Msg * option (TransportFrame T) * list (TransportFrame T) * bool) :=
  fun s =>
    let '(messages, pending, source, closed, polls) := drain session [message] source (polls s) in
    (Ok (messages, pending, source, closed), {| sent := sent s; polls := polls |}).

(** [OutboundRelay::forward]; [None] when the fuel runs out. *)
Fixpoint forward (fuel : nat) (pending : option (TransportFrame T))
  (source : list (TransportFrame T)) : M RelayState E (option unit) :=
  match fuel with
  | 0 => m_ret None
  | S fuel =>
      match (match pending with Some f => Some (f, source)
             | None => match source with f :: rest => Some (f, rest) | [] => None end end) with
      | None => m_ret (Some tt)
      | Some (frame, source) =>
          match frame with
          | Frame _ => let! _ := send frame in forward fuel None source
          | Single message =>
              match session_update_id message with
              | None => let! _ := send (Single message) in forward fuel None source
              | Some session =>
                  let! (messages, pending, source, closed) := drained session message source in
                  let! s := m_get in
                  let! _ := send_all (frames (accepts_batches (polls s)) messages) in
                  if closed then m_ret (Some tt) else forward fuel pending source
              end
          end
      end
  end.

(** ** What a frame carries *)

(** The updates nested in a message. *)
Definition batch_of (m : Msg) : list json :=
  match product_meta m with
  | Some (product, _) => match product !! BATCH_KEY with Some (JArray l) => l | _ => [] end
  | None => []
  end.

Definition nested_message (v : json) : Msg :=
  Notification {| method := "session/update";
                  params := match v with JObject p => Some (ParamsObject p) | _ => None end |}.

(** A frame's messages, the outer one first. *)
Definition expand (f : TransportFrame T) : list (Msg + OtherFrame) :=
  match f with
  | Single m => inl m :: (inl ∘ nested_message <$> batch_of m)
  | Frame f => [inr f]
  end.

(** A message without its batch, its metadata levels present. *)
Definition canonical (m : Msg) : Msg :=
  match product_meta m with
  | Some (product, put) => put (delete BATCH_KEY product)
  | None => m
  end.

(** A client that appends adjacent text chunks and keeps everything else. *)
Definition receive_frame (items : list (Item (A := Msg + OtherFrame))) (x : Msg + OtherFrame)
  : list (Item (A := Msg + OtherFrame)) :=
  match x with
  | inl m => receive (inl ∘ canonical) items m
  | inr f => items ++ [Update (inr f)]
  end.
Definition client (items : list (Item (A := Msg + OtherFrame))) (fs : list (TransportFrame T))
  : list (Item (A := Msg + OtherFrame)) :=
  foldl receive_frame items (fs ≫= expand).

(** A message that carries nothing yet. *)
Definition carries_nothing (f : TransportFrame T) : Prop :=
  match f with Single m => batch_of m = [] | Frame _ => True end.

End Batching.
