(* ===== verification/CommandLine.v ===== *)
(** The shell check of plan mode: one quote-aware pass over a command line, and
    the programs and options that only read.
    [crates/tools/src/command_line.rs]

    Words come from [shlex::split], a library, which is the section variable
    [shlex_split]. *)

From S2P Require Import Prelude Chars.
Open Scope string_scope.
Open Scope rust_scope.

(** ** Tables *)

Definition PLAIN_READERS : list string :=
  ["cat"; "cd"; "cut"; "date"; "df"; "diff"; "du"; "echo"; "grep"; "head";
   "jq"; "ls"; "nl"; "ps"; "pwd"; "realpath"; "stat"; "tail"; "tr"; "uname";
   "wc"; "which"; "whoami"].

Definition GIT_READERS : list string :=
  ["blame"; "branch"; "describe"; "diff"; "grep"; "log"; "ls-files"; "remote";
   "rev-parse"; "shortlog"; "show"; "status"].

Definition GIT_BRANCH_LISTING : list string :=
  ["-a"; "-r"; "-v"; "-vv"; "--list"; "--show-current"].

Definition GIT_WRITERS : list string :=
  ["--output"; "--ext-diff"; "--open-files-in-pager"].

Definition FIND_WRITERS : list string :=
  ["-delete"; "-exec"; "-execdir"; "-ok"; "-okdir"; "-fprint"; "-fprint0";
   "-fprintf"; "-fls"].

(** ** Why a command is refused *)

Inductive ReadOnlyViolation : Type :=
| Unparsable
| Substitution
| Redirect
| Program (name : string)
| Argument (program argument : string)
| GitGlobalOption (name : string).

(** Its [Display] *)
Definition violation_text (v : ReadOnlyViolation) : string :=
  match v with
  | Unparsable => "the command could not be parsed in plan mode"
  | Substitution => "command substitution is not allowed in plan mode"
  | Redirect => "output redirection is not allowed in plan mode"
  | Program name => name +:+ " is not allowed in plan mode"
  | Argument program argument =>
      program +:+ " " +:+ argument +:+ " is not allowed in plan mode"
  | GitGlobalOption name =>
      "git global options are not allowed in plan mode: " +:+ name
  end.

(** ** The scan *)

Record ShellScan : Type := {
  segments : list string;
  violation : option ReadOnlyViolation
}.

(** [ShellScan::breach] *)
Definition breach (v : ReadOnlyViolation) (scan : ShellScan) : ShellScan :=
  {| segments := segments scan;
     violation := match violation scan with Some old => Some old | None => Some v end |}.

(** Characters up to the first that fails a test, and the rest. *)
Fixpoint span (p : char -> bool) (l : list char) : list char * list char :=
  match l with
  | c :: r => if p c then let '(a, b) := span p r in (c :: a, b) else ([], l)
  | [] => ([], [])
  end.

Definition is_blank (c : char) : bool := String.eqb c " " || String.eqb c tab.
Definition in_target (c : char) : bool :=
  negb (is_whitespace c) && negb (among [";"; "|"; "&"; "<"; ">"] c).

(** A second [>], which appends. *)
Definition skip_append (characters : list char) : list char :=
  match characters with
  | c :: r => if String.eqb c ">" then r else characters
  | [] => []
  end.

(** [ShellScan::consume_redirection]; an index into the characters is the
    list of those from it on. *)
Definition consume_redirection (scan : ShellScan) (characters : list char)
  : ShellScan * list char :=
  let characters := skip_append characters in
  let to_file :=
    let '(_, from_target) := span is_blank characters in
    let '(target, resumed) := span in_target from_target in
    (if String.eqb (collect target) "/dev/null" then scan else breach Redirect scan,
     resumed) in
  match characters with
  | c :: r =>
      if String.eqb c "&" then
        let '(descriptor, resumed) := span is_ascii_digit r in
        (match descriptor with [] => breach Redirect scan | _ => scan end, resumed)
      else to_file
  | [] => to_file
  end.

(** [ShellScan::dollar] *)
Definition dollar (next : option char) (double_quoted : bool) (scan : ShellScan)
  : ShellScan :=
  match next with
  | Some c =>
      if String.eqb c "{" || String.eqb c "[" then breach Substitution scan
      else if String.eqb c single_quote && negb double_quoted then breach Unparsable scan
      else scan
  | None => scan
  end.

(** [ShellScan::split]; the current segment is empty afterwards. *)
Definition split (current : list char) (scan : ShellScan) : ShellScan :=
  if trim_is_empty (collect current) then scan
  else {| segments := (segments scan ++ [collect current])%list;
          violation := violation scan |}.

(** [chars().last().is_none_or(char::is_whitespace)] *)
Definition ends_blank (current : list char) : bool :=
  match last current with Some c => is_whitespace c | None => true end.

(** The current segment without the file descriptor that belongs to a
    redirection: [truncate] drops bytes, and a digit is one. *)
Definition strip_descriptor (current : list char) : list char :=
  let digits := length (take_digits (reverse current)) in
  let before :=
    match reverse current !! digits with Some c => is_whitespace c | None => true end in
  if (0 <? digits)%nat && before then take (length current - digits) current
  else current.

(** The loop's variables; the characters from [index] on are [rest]. *)
Record ScanState : Type := {
  scan : ShellScan;
  current : list char;
  quote : option char;
  rest : list char
}.

(** Pushing a character and, after a backslash, the one it escapes. *)
Definition push_escaped (character : char) (st : ScanState) : ScanState :=
  match rest st with
  | next :: after =>
      {| scan := scan st; current := (current st ++ [character; next])%list;
         quote := quote st; rest := after |}
  | [] =>
      {| scan := scan st; current := (current st ++ [character])%list;
         quote := quote st; rest := [] |}
  end.

(** The loop's body; [rest] starts after [character]. *)
Definition scan_step (character : char) (st : ScanState) : ScanState :=
  let push scan quote :=
    {| scan := scan; current := (current st ++ [character])%list;
       quote := quote; rest := rest st |} in
  match quote st with
  | Some active =>
      if String.eqb character backslash && String.eqb active double_quote then
        push_escaped character st
      else if String.eqb character "$" && String.eqb active double_quote then
        push (dollar (head (rest st)) true (scan st)) (quote st)
      else if String.eqb character active then push (scan st) None
      else push (scan st) (quote st)
  | None =>
      if String.eqb character backslash then push_escaped character st
      else if String.eqb character single_quote || String.eqb character double_quote then
        push (scan st) (Some character)
      else if String.eqb character "$" then
        push (dollar (head (rest st)) false (scan st)) None
      else if String.eqb character "#" && ends_blank (current st) then
        {| scan := scan st; current := current st; quote := None;
           rest := (span (fun c => negb (String.eqb c nl)) (rest st)).2 |}
      else if String.eqb character "&" && bool_decide (head (rest st) = Some ">") then
        let '(scan, resumed) := consume_redirection (scan st) (tail (rest st)) in
        {| scan := scan; current := current st; quote := None; rest := resumed |}
      else if among [";"; "|"; "&"; nl] character then
        {| scan := split (current st) (scan st); current := []; quote := None;
           rest := rest st |}
      else if String.eqb character ">" then
        let '(scan, resumed) := consume_redirection (scan st) (rest st) in
        {| scan := scan; current := strip_descriptor (current st); quote := None;
           rest := resumed |}
      else push (scan st) None
  end.

(** The loop and the split after it; every step takes a character, so one
    unit of fuel more than there are characters is enough. *)
Fixpoint scan_loop (fuel : nat) (st : ScanState) : option ShellScan :=
  match fuel with
  | O => None
  | S fuel =>
      match rest st with
      | [] => Some (split (current st) (scan st))
      | character :: after =>
          scan_loop fuel
            (scan_step character
               {| scan := scan st; current := current st; quote := quote st;
                  rest := after |})
      end
  end.

Definition MARKERS : list string := ["$("; backquote; "<("; ">("].

Definition scan_empty : ShellScan := {| segments := []; violation := None |}.

Definition scan_start (command : string) : ScanState :=
  {| scan := if existsb (fun marker => str_contains marker command) MARKERS
             then breach Substitution scan_empty else scan_empty;
     current := []; quote := None; rest := chars command |}.

(** [ShellScan::from] *)
Definition scan_from (command : string) : ShellScan :=
  default scan_empty (scan_loop (S (length (chars command))) (scan_start command)).

(** ** One parsed command *)

Record CommandInvocation : Type := {
  executable : string;
  arguments : list string
}.

(** [Path::file_name] on Unix: the last component, unless it is [..] or there
    is none but the root or a leading dot. *)
Definition file_name (path : string) : option string :=
  match last (filter (fun p => negb (String.eqb p "" || String.eqb p ".") = true)
                (split_char "/" path)) with
  | Some name => if String.eqb name ".." then None else Some name
  | None => None
  end.

(** [CommandInvocation::program] *)
Definition program (i : CommandInvocation) : string :=
  default (executable i) (file_name (executable i)).

(** [OptionName]'s [Display] *)
Definition option_name (argument : string) : string :=
  if starts_with "--" argument then before_equals argument
  else
    match strip_prefix "-" argument with
    | Some cluster =>
        match chars cluster with flag :: _ => "-" +:+ flag | [] => argument end
    | None => argument
    end.

(** What [refuse_options] finds in one argument. *)
Definition refused_option (short : list char) (long : list string) (argument : string)
  : option string :=
  match strip_prefix "--" argument with
  | Some name =>
      let name := before_equals name in
      if negb (String.eqb name "")
         && existsb (fun option => starts_with name (trim_start_dashes option)) long
      then Some argument else None
  | None =>
      cluster ← strip_prefix "-" argument;
      flag ← head (filter (fun c => among short c = true) (chars cluster));
      Some ("-" +:+ flag)
  end.

(** [CommandInvocation::refuse_options] *)
Fixpoint refuse_options (short : list char) (long : list string)
  (refuse : string -> ReadOnlyViolation) (l : list string)
  : result unit ReadOnlyViolation :=
  match l with
  | [] => Ok tt
  | argument :: after =>
      match refused_option short long argument with
      | Some found => Err (refuse found)
      | None => refuse_options short long refuse after
      end
  end.

(** [CommandInvocation::git_read_only] *)
Definition git_read_only (i : CommandInvocation) : result unit ReadOnlyViolation :=
  match arguments i with
  | [] => Err (Program "git")
  | subcommand :: operands =>
      if starts_with "-" subcommand then Err (GitGlobalOption (option_name subcommand))
      else
        let program := "git " +:+ subcommand in
        if negb (among GIT_READERS subcommand) then Err (Program program)
        else
          let refuse argument := Argument program (option_name argument) in
          let only listed :=
            match head (filter (fun a => negb (among listed a) = true) operands) with
            | Some argument => Err (refuse argument)
            | None => Ok tt
            end in
          if String.eqb subcommand "branch" then only GIT_BRANCH_LISTING
          else if String.eqb subcommand "remote" then only ["-v"]
          else if String.eqb subcommand "grep" then
            refuse_options ["O"] GIT_WRITERS refuse (arguments i)
          else refuse_options [] GIT_WRITERS refuse (arguments i)
  end.

(** [CommandInvocation::read_only] *)
Definition invocation_read_only (i : CommandInvocation) : result unit ReadOnlyViolation :=
  let name := program i in
  let refuse argument := Argument name (option_name argument) in
  let without short long := refuse_options short long refuse (arguments i) in
  if String.eqb name "git" then git_read_only i
  else if String.eqb name "file" then without ["C"] ["--compile"]
  else if String.eqb name "rg" then without [] ["--pre"; "--pre-glob"]
  else if String.eqb name "fd" then without ["x"; "X"] ["--exec"; "--exec-batch"]
  else if String.eqb name "sort" then without ["o"] ["--output"; "--compress-program"]
  else if String.eqb name "printf" then without ["v"] []
  else if String.eqb name "tree" then without ["o"] []
  else if String.eqb name "find" then
    match head (filter (fun a => among FIND_WRITERS a = true) (arguments i)) with
    | Some argument => Err (refuse argument)
    | None => Ok tt
    end
  else if String.eqb name "uniq" then
    if (1 <? length (filter (fun a => negb (starts_with "-" a) = true) (arguments i)))%nat
    then Err (refuse "OUTPUT") else Ok tt
  else if among PLAIN_READERS name then Ok tt
  else Err (Program name).

(** ** The command line *)

Section Shlex.
Variable shlex_split : string -> option (list string).

(** [CommandInvocation::try_from] *)
Definition invocation_try_from (segment : string) : option CommandInvocation :=
  match shlex_split segment with
  | Some (first :: words) => Some {| executable := first; arguments := words |}
  | _ => None
  end.

Fixpoint segments_read_only (l : list string) : result unit ReadOnlyViolation :=
  match l with
  | [] => Ok tt
  | segment :: after =>
      let? i := ok_or (invocation_try_from segment) Unparsable in
      let? _ := invocation_read_only i in
      segments_read_only after
  end.

(** [ShellCommandLine::read_only] *)
Definition read_only (command : string) : result unit ReadOnlyViolation :=
  let scan := scan_from command in
  match violation scan with
  | Some v => Err v
  | None => segments_read_only (segments scan)
  end.

(** [ShellCommandLine::from] and [invocations], what the command guard reads *)
Definition invocations_from (command : string) : list CommandInvocation :=
  omap invocation_try_from (segments (scan_from command)).

End Shlex.
