(* ===== verification/CommandGrammar.v ===== *)
(** What the read-only check accepts, stated without its loop: a grammar of
    command lines in which every unquoted [>] discards output or duplicates a
    descriptor, and the invocations that only inspect. *)

From S2P Require Import Prelude Lines Chars Text CommandLine.
Open Scope string_scope.
Open Scope rust_scope.

(** ** Command lines *)

(** The rest of a redirection after its first [>], and what follows it. *)
Inductive harmless : list char -> list char -> Prop :=
| harmless_descriptor append digits after :
    append = [] \/ append = [">"] ->
    digits <> [] -> Forall (fun c => is_ascii_digit c = true) digits ->
    (forall c, head after = Some c -> is_ascii_digit c = false) ->
    harmless (append ++ "&" :: digits) after
| harmless_null append blanks target after :
    append = [] \/ append = [">"] ->
    Forall (fun c => is_blank c = true) blanks ->
    Forall (fun c => in_target c = true) target -> collect target = "/dev/null" ->
    (forall c, head after = Some c -> in_target c = false) ->
    harmless (append ++ blanks ++ target) after.

(** A [$] that cannot start an expansion which evaluates its text. *)
Definition plain_dollar (double_quoted : bool) (after : list char) : Prop :=
  forall c, head after = Some c ->
    c <> "{" /\ c <> "[" /\ (double_quoted = false -> c <> single_quote).

(** The inside of double quotes. *)
Inductive in_double : list char -> Prop :=
| in_double_nil : in_double []
| in_double_escape c body : in_double body -> in_double (backslash :: c :: body)
| in_double_char c body :
    c <> backslash -> c <> double_quote -> (c = "$" -> plain_dollar true body) ->
    in_double body -> in_double (c :: body).

(** The inside of a quote, and a quote the command never closes. *)
Definition quoted (q : char) (body : list char) : Prop :=
  (q = single_quote /\ single_quote ∉ body) \/ (q = double_quote /\ in_double body).
Definition unclosed (q : char) (body : list char) : Prop :=
  quoted q body \/
  (q = double_quote /\ exists inner, body = (inner ++ [backslash])%list /\ in_double inner).

(** A character that stands for itself outside quotes. *)
Definition plain (current : list char) (c : char) (after : list char) : Prop :=
  among [backslash; single_quote; double_quote; ";"; "|"; "&"; nl; ">"] c = false /\
  (c = "$" -> plain_dollar false after) /\
  (c = "#" -> ends_blank current = false).

(** A segment that is only blanks is dropped. *)
Definition segment_of (current : list char) : list string :=
  if trim_is_empty (collect current) then [] else [collect current].

(** [reads current rest segments]: with [current] read of the segment under
    way, [rest] is a command line whose remaining segments are [segments]. *)
Inductive reads : list char -> list char -> list string -> Prop :=
| reads_end current : reads current [] (segment_of current)
| reads_plain current c after segs :
    plain current c after -> reads (current ++ [c]) after segs ->
    reads current (c :: after) segs
| reads_escape current c after segs :
    reads (current ++ [backslash; c]) after segs ->
    reads current (backslash :: c :: after) segs
| reads_backslash current :
    reads current [backslash] (segment_of (current ++ [backslash]))
| reads_quote current q body after segs :
    quoted q body -> reads (current ++ q :: body ++ [q]) after segs ->
    reads current (q :: body ++ q :: after) segs
| reads_unclosed current q body :
    unclosed q body -> reads current (q :: body) (segment_of (current ++ q :: body))
| reads_comment current body after segs :
    ends_blank current = true -> nl ∉ body ->
    (forall c, head after = Some c -> c = nl) ->
    reads current after segs -> reads current ("#" :: body ++ after) segs
| reads_separator current c after segs :
    among [";"; "|"; "&"; nl] c = true -> ~ (c = "&" /\ head after = Some ">") ->
    reads [] after segs -> reads current (c :: after) (segment_of current ++ segs)
| reads_redirect current text after segs :
    harmless text after -> reads (strip_descriptor current) after segs ->
    reads current (">" :: text ++ after) segs
| reads_both current text after segs :
    harmless text after -> reads current after segs ->
    reads current ("&" :: ">" :: text ++ after) segs.

(** No text of the command starts a substitution, quoted or not. *)
Definition substitution_free (command : string) : Prop :=
  forall marker, marker ∈ MARKERS -> str_contains marker command = false.

(** ** Invocations *)

(** [--name] or [--name=value] for a long option or an abbreviation of it. *)
Definition names_long (option argument : string) : Prop :=
  exists name, name <> "" /\ has_char "=" name = false /\
    starts_with name option = true /\
    (argument = "--" +:+ name \/ exists value, argument = "--" +:+ name +:+ "=" +:+ value).

(** A short flag, alone or in a cluster. *)
Definition gives_flag (flag : char) (argument : string) : Prop :=
  exists cluster, argument = "-" +:+ cluster /\ starts_with "-" cluster = false /\
    flag ∈ chars cluster.

Definition avoids (short : list char) (long : list string) (l : list string) : Prop :=
  forall argument, argument ∈ l ->
    (forall option, option ∈ long -> ~ names_long option argument) /\
    (forall flag, flag ∈ short -> ~ gives_flag flag argument).

(** Readers with options that write or execute: the flags and the long options. *)
Inductive filtered : string -> list char -> list string -> Prop :=
| filtered_file : filtered "file" ["C"] ["compile"]
| filtered_rg : filtered "rg" [] ["pre"; "pre-glob"]
| filtered_fd : filtered "fd" ["x"; "X"] ["exec"; "exec-batch"]
| filtered_sort : filtered "sort" ["o"] ["output"; "compress-program"]
| filtered_printf : filtered "printf" ["v"] []
| filtered_tree : filtered "tree" ["o"] [].

Definition GIT_LONG : list string := ["output"; "ext-diff"; "open-files-in-pager"].

Inductive git_inspects : string -> list string -> Prop :=
| git_branch operands :
    operands ⊆ GIT_BRANCH_LISTING -> git_inspects "branch" operands
| git_remote operands : operands ⊆ ["-v"] -> git_inspects "remote" operands
| git_grep operands : avoids ["O"] GIT_LONG operands -> git_inspects "grep" operands
| git_other subcommand operands :
    subcommand ∈ GIT_READERS -> subcommand ∉ ["branch"; "remote"; "grep"] ->
    avoids [] GIT_LONG operands -> git_inspects subcommand operands.

Inductive inspects (i : CommandInvocation) : Prop :=
| inspects_plain : program i ∈ PLAIN_READERS -> inspects i
| inspects_filtered short long :
    filtered (program i) short long -> avoids short long (arguments i) -> inspects i
| inspects_find :
    program i = "find" -> (forall a, a ∈ arguments i -> a ∉ FIND_WRITERS) -> inspects i
| inspects_uniq :
    program i = "uniq" ->
    (length (filter (fun a => starts_with "-" a = false) (arguments i)) <= 1)%nat ->
    inspects i
| inspects_git subcommand operands :
    program i = "git" -> arguments i = subcommand :: operands ->
    git_inspects subcommand operands -> inspects i.

(** ** The scan reads exactly the grammar *)

Lemma span_spec p l :
  l = ((span p l).1 ++ (span p l).2)%list /\
  Forall (fun c => p c = true) (span p l).1 /\
  (forall c, head (span p l).2 = Some c -> p c = false).
Proof.
  induction l as [|c l IH]; cbn; [done|].
  destruct (p c) eqn:Hc; [|split_and!; cbn; [done|done|congruence]].
  destruct (span p l) as [a b]. cbn in *. destruct IH as (-> & Ha & Hb). by repeat constructor.
Qed.

Lemma span_app p body after :
  Forall (fun c => p c = true) body ->
  (forall c, head after = Some c -> p c = false) ->
  span p (body ++ after) = (body, after).
Proof.
  intros Hb Ha. induction Hb as [|c body Hc Hb IH]; cbn.
  - destruct after as [|c after]; [done|]. cbn. by rewrite (Ha c eq_refl).
  - by rewrite Hc, IH.
Qed.

Lemma span_length p l : (length (span p l).2 <= length l)%nat.
Proof.
  pose proof (span_spec p l) as (Hl & _). apply (f_equal length) in Hl.
  rewrite length_app in Hl. lia.
Qed.

(** *** Redirections *)

Lemma breach_violation v scan : violation (breach v scan) <> None.
Proof. unfold breach. cbn. by destruct (violation scan). Qed.

Lemma consume_harmless scan l :
  violation (consume_redirection scan l).1 = None ->
  exists text, l = (text ++ (consume_redirection scan l).2)%list /\
    harmless text (consume_redirection scan l).2 /\
    (consume_redirection scan l).1 = scan.
Proof.
  assert (exists append l', (append = [] \/ append = [">"]) /\ l = (append ++ l')%list /\
    skip_append l = l')
    as (append & l' & Happend & -> & Hl').
  { unfold skip_append. destruct l as [|c r]; [by exists [], []; auto|].
    destruct (String.eqb_spec c ">") as [->|Hc]; [by exists [">"], r; auto|].
    exists [], (c :: r). split_and!; [by left|done|done]. }
  unfold consume_redirection. rewrite Hl'. clear Hl'.
  assert (forall r : list char,
    let '(_, from_target) := span is_blank r in
    let '(target, resumed) := span in_target from_target in
    collect target = "/dev/null" ->
    exists text, (append ++ r)%list = (text ++ resumed)%list /\ harmless text resumed) as Hfile.
  { intros r. pose proof (span_spec is_blank r) as (Hr & Hb & _).
    destruct (span is_blank r) as [blanks from_target]. cbn in Hr, Hb.
    pose proof (span_spec in_target from_target) as (Hf & Ht & Hend).
    destruct (span in_target from_target) as [target resumed]. cbn in Hf, Ht, Hend.
    intros Hnull. exists (append ++ blanks ++ target)%list. subst.
    split; [by rewrite <- !app_assoc|]. by constructor. }
  specialize (Hfile l').
  destruct l' as [|c r].
  - cbn in *. intros H. by destruct (breach_violation _ _ H).
  - destruct (String.eqb_spec c "&") as [->|Hc].
    + pose proof (span_spec is_ascii_digit r) as (Hr & Hd & Hend).
      destruct (span is_ascii_digit r) as [digits resumed]. cbn in Hr, Hd, Hend |- *.
      destruct digits as [|d digits]; intros H; [by destruct (breach_violation _ _ H)|].
      exists (append ++ "&" :: d :: digits)%list. subst. split_and!; [by rewrite <- app_assoc| |done].
      by constructor.
    + destruct (span is_blank (c :: r)) as [blanks from_target].
      destruct (span in_target from_target) as [target resumed]. cbn [fst snd].
      destruct (String.eqb_spec (collect target) "/dev/null") as [Heq|]; intros H;
        [|by destruct (breach_violation _ _ H)].
      destruct (Hfile Heq) as (text & Ht & Hh). by exists text.
Qed.

(** *** From an accepted scan to the grammar *)

Lemma dollar_plain next double_quoted scan after :
  next = head after ->
  violation (dollar next double_quoted scan) = None ->
  plain_dollar double_quoted after /\ dollar next double_quoted scan = scan.
Proof.
  intros -> H. unfold dollar, plain_dollar in *. destruct (head after) as [c|]; [|done].
  destruct (String.eqb_spec c "{") as [|]; [by destruct (breach_violation _ _ H)|].
  destruct (String.eqb_spec c "[") as [|]; [by destruct (breach_violation _ _ H)|].
  cbn [orb] in *.
  destruct (String.eqb_spec c single_quote) as [Hq|Hq]; destruct double_quoted; cbn [andb negb] in *;
    try by destruct (breach_violation _ _ H).
  all: split; [|done]; intros ? [= <-]; split_and!; try done.
Qed.

(** Inside a quote: what is left of it, then what follows, or its end. *)
Definition reads_quoted (q : char) (current rest : list char) (segs : list string) : Prop :=
  (exists body after, rest = (body ++ q :: after)%list /\ quoted q body /\
     reads (current ++ body ++ [q]) after segs) \/
  (unclosed q rest /\ segs = segment_of (current ++ rest)).

Definition reads_from (st : ScanState) (segs : list string) : Prop :=
  match quote st with
  | None => reads (current st) (rest st) segs
  | Some q => reads_quoted q (current st) (rest st) segs
  end.

Definition quote_ok (q : option char) : Prop :=
  match q with Some q => q = single_quote \/ q = double_quote | None => True end.

Lemma quoted_plain q c body :
  quoted q body -> c <> q -> (q = double_quote -> c <> backslash) ->
  (c = "$" -> q = double_quote -> plain_dollar true body) -> quoted q (c :: body).
Proof.
  intros [[-> Hb]|[-> Hb]] Hq He Hd; [left|right]; (split; [done|]).
  - intros [?|?]%elem_of_cons; congruence.
  - constructor; auto.
Qed.

Lemma quoted_escape c body :
  quoted double_quote body -> quoted double_quote (backslash :: c :: body).
Proof. intros [[? _]|[_ Hb]]; [done|]. right. split; [done|]. by constructor. Qed.

Lemma unclosed_plain q c body :
  unclosed q body -> c <> q -> (q = double_quote -> c <> backslash) ->
  (c = "$" -> q = double_quote -> plain_dollar true body) -> unclosed q (c :: body).
Proof.
  intros [H|(-> & inner & -> & Hi)] Hq He Hd; [left; by apply quoted_plain|right].
  split; [done|]. exists (c :: inner). split; [done|]. constructor; auto.
  intros Hc d Hh. apply (Hd Hc eq_refl). by destruct inner.
Qed.

Lemma unclosed_escape c body :
  unclosed double_quote body -> unclosed double_quote (backslash :: c :: body).
Proof.
  intros [H|(_ & inner & -> & Hi)]; [left; by apply quoted_escape|right].
  split; [done|]. exists (backslash :: c :: inner). split; [done|]. by constructor.
Qed.

Lemma reads_quoted_plain q c current rest segs :
  c <> q -> (q = double_quote -> c <> backslash) ->
  (c = "$" -> q = double_quote -> plain_dollar true rest) ->
  reads_quoted q (current ++ [c]) rest segs -> reads_quoted q current (c :: rest) segs.
Proof.
  intros Hq He Hd [(body & after & -> & Hb & Hr)|[Hu ->]].
  - left. exists (c :: body), after. split_and!; [done| |by rewrite <- app_assoc in Hr].
    apply quoted_plain; try done. intros Hc Hqq d Hh. apply (Hd Hc Hqq). by destruct body.
  - right. rewrite <- app_assoc. split; [by apply unclosed_plain|done].
Qed.

Lemma reads_quoted_escape c current rest segs :
  reads_quoted double_quote (current ++ [backslash; c]) rest segs ->
  reads_quoted double_quote current (backslash :: c :: rest) segs.
Proof.
  intros [(body & after & -> & Hb & Hr)|[Hu ->]].
  - left. exists (backslash :: c :: body), after. rewrite <- app_assoc in Hr.
    split_and!; [done|by apply quoted_escape|done].
  - right. rewrite <- app_assoc. split; [by apply unclosed_escape|done].
Qed.

Lemma quoted_nil q : q = single_quote \/ q = double_quote -> quoted q [].
Proof. intros [->| ->]; [left|right]; split; try done; [apply not_elem_of_nil|constructor]. Qed.

(** One step of the scan, read backwards in the grammar. *)
Definition step_reads_statement (c : char) (st : ScanState) : Prop := forall segs,
  violation (scan (scan_step c st)) = None ->
  reads_from (scan_step c st) segs ->
  exists before,
    reads_from {| scan := scan st; current := current st; quote := quote st; rest := c :: rest st |}
      before /\
    (segments (scan st) ++ before = segments (scan (scan_step c st)) ++ segs)%list.

Lemma step_reads_in_quote c st q :
  quote st = Some q -> q = single_quote \/ q = double_quote -> step_reads_statement c st.
Proof.
  destruct st as [sc cur qu l]. cbn. intros -> Hok segs. unfold step_reads_statement, scan_step, reads_from. cbn.
  destruct (String.eqb_spec c backslash) as [->|Hbs]; cbn [andb].
  { destruct (String.eqb_spec q double_quote) as [->|Hdq]; cbn.
    - unfold push_escaped. cbn. destruct l as [|next after]; cbn; intros _ H; exists segs; (split; [|done]).
      + destruct H as [([|] & ? & ? & _)|[_ ->]]; try done.
        right. split; [|by rewrite app_nil_r]. right. split; [done|]. exists []. split; [done|constructor].
      + by apply reads_quoted_escape.
    - destruct Hok as [->|]; [|done]. cbn. intros _ H. exists segs. split; [|done].
      by apply reads_quoted_plain. }
  destruct (String.eqb_spec c "$") as [->|Hd]; cbn [andb].
  { destruct (String.eqb_spec q double_quote) as [->|Hdq]; cbn.
    - intros Hv H. destruct (dollar_plain _ true sc l eq_refl Hv) as [Hp ->].
      exists segs. split; [|done]. by apply reads_quoted_plain.
    - destruct Hok as [->|]; [|done]. cbn. intros _ H. exists segs. split; [|done].
      by apply reads_quoted_plain. }
  destruct (String.eqb_spec c q) as [->|Hq]; cbn; intros _ H; exists segs; (split; [|done]).
  - left. exists [], l. split_and!; [done|by apply quoted_nil|done].
  - by apply reads_quoted_plain.
Qed.

Lemma split_segments cur sc : segments (split cur sc) = (segments sc ++ segment_of cur)%list.
Proof. unfold split, segment_of. destruct (trim_is_empty _); [by rewrite app_nil_r|done]. Qed.

Lemma split_violation cur sc : violation (split cur sc) = violation sc.
Proof. unfold split. by destruct (trim_is_empty _). Qed.

Lemma open_quote_reads q current rest segs :
  reads_quoted q (current ++ [q]) rest segs -> reads current (q :: rest) segs.
Proof.
  intros [(body & after & -> & Hb & Hr)|[Hu ->]].
  - rewrite <- app_assoc in Hr. by apply reads_quote.
  - rewrite <- app_assoc. by apply reads_unclosed.
Qed.

Lemma step_reads_unquoted c st : quote st = None -> step_reads_statement c st.
Proof.
  destruct st as [sc cur qu l]. cbn. intros -> segs. unfold scan_step, reads_from. cbn [quote rest current scan].
  destruct (String.eqb_spec c backslash) as [->|Hbs].
  { unfold push_escaped. cbn. destruct l as [|next after]; cbn; intros _ H;
      [|exists segs; split; [by constructor|done]].
    inversion H; subst; eauto using reads. }
  destruct (String.eqb_spec c single_quote) as [->|Hsq]; cbn [orb].
  { cbn. intros _ H. exists segs. split; [by apply open_quote_reads|done]. }
  destruct (String.eqb_spec c double_quote) as [->|Hdq]; cbn [orb].
  { cbn. intros _ H. exists segs. split; [by apply open_quote_reads|done]. }
  destruct (String.eqb_spec c "$") as [->|Hd].
  { cbn. intros Hv H. destruct (dollar_plain _ false sc l eq_refl Hv) as [Hp Heq].
    exists segs. split; [|by rewrite Heq]. constructor; [by split_and!|done]. }
  destruct (String.eqb c "#" && ends_blank cur) eqn:Hc.
  { apply andb_true_iff in Hc as [->%String.eqb_eq Hb]. cbn. intros _ H.
    pose proof (span_spec (fun c => negb (String.eqb c nl)) l) as (Hl & Hall & Hend).
    exists segs. split; [|done]. rewrite Hl at 1. apply reads_comment; try done.
    - intros Hin. rewrite Forall_forall in Hall. by specialize (Hall _ Hin).
    - intros d Hh. specialize (Hend d Hh). apply negb_false_iff in Hend. by apply String.eqb_eq. }
  destruct (String.eqb c "&" && bool_decide (head l = Some ">")) eqn:Hamp.
  { apply andb_true_iff in Hamp as [->%String.eqb_eq Hh]. apply bool_decide_eq_true in Hh.
    destruct l as [|x l]; [done|]. injection Hh as ->. cbn [tail].
    pose proof (consume_harmless sc l) as Hcons. destruct (consume_redirection sc l) as [sc' resumed].
    cbn in *. intros Hv H. destruct (Hcons Hv) as (text & -> & Ht & ->).
    exists segs. split; [by apply reads_both|done]. }
  destruct (among [";"; "|"; "&"; nl] c) eqn:Hsep.
  { cbn. intros Hv H. exists (segment_of cur ++ segs)%list. rewrite split_segments, app_assoc.
    split; [|done]. apply reads_separator; try done. intros [-> Hh].
    apply andb_false_iff in Hamp as [Hamp|Hamp]; [done|].
    by apply bool_decide_eq_false in Hamp. }
  destruct (String.eqb_spec c ">") as [->|Hgt].
  { pose proof (consume_harmless sc l) as Hcons. destruct (consume_redirection sc l) as [sc' resumed].
    cbn in *. intros Hv H. destruct (Hcons Hv) as (text & -> & Ht & ->).
    exists segs. split; [by apply reads_redirect|done]. }
  cbn. intros _ H. exists segs. split; [|done]. constructor; [|done]. split_and!.
  - unfold among in *. cbn [existsb] in *. rewrite !orb_false_iff in *. destruct Hsep as (?&?&?&?&?).
    split_and!; try done; by apply String.eqb_neq.
  - done.
  - intros ->. by apply andb_false_iff in Hc as [|].
Qed.

Lemma step_reads c st : quote_ok (quote st) -> step_reads_statement c st.
Proof.
  destruct (quote st) as [q|] eqn:Hq; intros Hok;
    [by eapply step_reads_in_quote|by apply step_reads_unquoted].
Qed.

Lemma step_quote_ok c st : quote_ok (quote st) -> quote_ok (quote (scan_step c st)).
Proof.
  destruct st as [sc cur [q|] l]; cbn; unfold scan_step, push_escaped; cbn; intros H.
  - destruct (_ && _); [by destruct l|]. destruct (_ && _); [done|]. by destruct (String.eqb c q).
  - destruct (String.eqb c backslash); [by destruct l|].
    destruct (String.eqb_spec c single_quote); [by left|].
    destruct (String.eqb_spec c double_quote); [by right|]. cbn [orb].
    repeat (case_match; try done).
Qed.

Lemma consume_violation sc l :
  violation (consume_redirection sc l).1 = None -> violation sc = None.
Proof. intros H. destruct (consume_harmless sc l H) as (_ & _ & _ & Heq). by rewrite Heq in H. Qed.

Lemma dollar_violation next b sc : violation (dollar next b sc) = None -> violation sc = None.
Proof.
  destruct next as [c|]; [|done]. intros H.
  by destruct (dollar_plain (Some c) b sc [c] eq_refl H) as [_ Heq]; rewrite Heq in H.
Qed.

Lemma step_violation c st : violation (scan (scan_step c st)) = None -> violation (scan st) = None.
Proof.
  destruct st as [sc cur [q|] l]; unfold scan_step, push_escaped; cbn; intros H.
  - repeat case_match; cbn in *; eauto using dollar_violation.
  - repeat (case_match; cbn in *; eauto using dollar_violation).
    all: try (eapply (consume_violation sc); match goal with E : consume_redirection _ _ = _ |- _ =>
      by rewrite E end).
    by rewrite split_violation in H.
Qed.

Lemma loop_reads fuel st s :
  quote_ok (quote st) -> scan_loop fuel st = Some s -> violation s = None ->
  violation (scan st) = None /\
  exists segs, reads_from st segs /\ segments s = (segments (scan st) ++ segs)%list.
Proof.
  revert st. induction fuel as [|fuel IH]; intros [sc cur q l] Hok Hl Hv; [done|].
  cbn [scan_loop rest current scan quote] in *. destruct l as [|c l].
  - injection Hl as <-. rewrite split_violation in Hv. split; [done|].
    exists (segment_of cur). split; [|by rewrite split_segments].
    destruct q as [q|]; cbn; [|constructor]. right. split; [left; by apply quoted_nil|by rewrite app_nil_r].
  - set (st := {| scan := sc; current := cur; quote := q; rest := l |}) in *.
    destruct (IH _ (step_quote_ok c st Hok) Hl Hv) as (Hv' & segs & Hr & Hs).
    pose proof (step_violation _ _ Hv') as Hv0.
    destruct (step_reads c st Hok segs Hv' Hr) as (before & Hb & He).
    split; [done|]. exists before. split; [done|]. by rewrite Hs, <- He.
Qed.

(** The scan ends: a step never puts a character back. *)
Lemma step_length c st : (length (rest (scan_step c st)) <= length (rest st))%nat.
Proof.
  assert (forall sc l, (length (consume_redirection sc l).2 <= length l)%nat) as Hc.
  { intros sc l. unfold consume_redirection.
    assert (forall r : list char, (length (let '(_, from_target) := span is_blank r in
      let '(target, resumed) := span in_target from_target in
      (if String.eqb (collect target) "/dev/null" then sc else breach Redirect sc, resumed)).2
        <= length r)%nat) as Hf.
    { intros r. pose proof (span_length is_blank r). destruct (span is_blank r) as [a b].
      pose proof (span_length in_target b). destruct (span in_target b). cbn in *. lia. }
    set (r := skip_append l). assert (length r <= length l)%nat as Hr.
    { subst r. unfold skip_append. destruct l as [|x l]; [done|]. destruct (String.eqb x ">"); cbn; lia. }
    destruct r as [|x r]; [etrans; [apply Hf|done]|].
    destruct (String.eqb x "&"); [|etrans; [apply Hf|done]].
    pose proof (span_length is_ascii_digit r). destruct (span is_ascii_digit r). cbn in *. lia. }
  destruct st as [sc cur q l]. unfold scan_step, push_escaped. cbn.
  pose proof (Hc sc l). pose proof (Hc sc (tail l)).
  assert (length (tail l) <= length l)%nat by (destruct l; cbn; lia).
  pose proof (span_length (fun c => negb (String.eqb c nl)) l).
  destruct (consume_redirection sc l), (consume_redirection sc (tail l)).
  repeat (case_match; cbn in *; subst; try done; try lia).
Qed.

Lemma scan_loop_total fuel st :
  (length (rest st) < fuel)%nat -> is_Some (scan_loop fuel st).
Proof.
  revert st. induction fuel as [|fuel IH]; intros [sc cur q l] Hf; [lia|]. cbn in *.
  destruct l as [|c l]; [done|]. apply IH.
  pose proof (step_length c {| scan := sc; current := cur; quote := q; rest := l |}). cbn in *. lia.
Qed.

(** *** From the grammar to an accepted scan *)

Lemma in_target_head target after :
  Forall (fun c => in_target c = true) target -> target <> [] ->
  forall c, head (target ++ after) = Some c -> is_blank c = false.
Proof.
  intros [|c' target' Hc _] Hne c; [done|]. intros [= <-]. destruct (is_blank c') eqn:Hbl; [|done].
  apply orb_true_iff in Hbl as [->%String.eqb_eq| ->%String.eqb_eq]; discriminate.
Qed.

Lemma consume_accepts sc text after :
  harmless text after -> consume_redirection sc (text ++ after) = (sc, after).
Proof.
  intros [append digits after' Ha Hne Hd Hend|append blanks target after' Ha Hb Ht Hnull Hend].
  - assert (skip_append ((append ++ "&" :: digits) ++ after') = "&" :: digits ++ after')%list
      as Hskip by (by destruct Ha as [->| ->]).
    unfold consume_redirection. rewrite Hskip. cbn [String.eqb].
    rewrite (span_app is_ascii_digit digits after') by done. by destruct digits.
  - assert (Forall (fun c => in_target c = true) target -> target <> [] ->
            match blanks ++ target ++ after' with
            | c :: _ => c <> ">" /\ c <> "&" | [] => False end)%list as Hhead.
    { intros _ Hne. destruct Hb as [|b blanks Hb _]; cbn.
      - destruct Ht as [|c target Hc _]; [done|]. cbn. by split; intros ->.
      - by split; intros ->. }
    assert (target <> []) as Hne by (by intros ->).
    specialize (Hhead Ht Hne).
    assert (skip_append ((append ++ blanks ++ target) ++ after') = blanks ++ target ++ after')%list
      as Hskip.
    { destruct Ha as [->| ->]; cbn [app]; rewrite <- !app_assoc; [|done]. unfold skip_append.
      destruct (blanks ++ target ++ after')%list as [|c r]; [done|].
      by destruct (String.eqb_spec c ">") as [->|]; [destruct Hhead|]. }
    unfold consume_redirection. rewrite Hskip.
    rewrite (span_app is_blank blanks (target ++ after')%list Hb (in_target_head _ _ Ht Hne)).
    rewrite (span_app in_target target after') by done. rewrite Hnull. cbn.
    destruct (blanks ++ target ++ after')%list as [|c r]; [done|].
    destruct (String.eqb_spec c "&") as [->|]; [by destruct Hhead|done].
Qed.

Lemma dollar_accepts double_quoted after sc :
  plain_dollar double_quoted after -> dollar (head after) double_quoted sc = sc.
Proof.
  unfold plain_dollar, dollar. destruct (head after) as [c|]; [|done]. intros H.
  destruct (H c eq_refl) as (H1 & H2 & H3).
  rewrite (proj2 (String.eqb_neq _ _) H1), (proj2 (String.eqb_neq _ _) H2). cbn.
  destruct double_quoted; [by rewrite andb_false_r|].
  by rewrite (proj2 (String.eqb_neq _ _) (H3 eq_refl)).
Qed.

(** The loop inside a quote, up to what ends it. *)
Definition ends_quote (q : char) (t : list char) : Prop :=
  head t = Some q \/ t = [backslash] \/ t = [].

Lemma loop_body q body : quoted q body -> forall t sc cur fuel,
  ends_quote q t -> (length (body ++ t) < fuel)%nat ->
  exists fuel', (length t < fuel')%nat /\
    scan_loop fuel {| scan := sc; current := cur; quote := Some q; rest := body ++ t |}
    = scan_loop fuel' {| scan := sc; current := cur ++ body; quote := Some q; rest := t |}.
Proof.
  intros [[-> Hb]|[-> Hb]] t sc cur fuel Ht.
  - revert cur fuel. induction body as [|c body IH]; intros cur fuel Hf; cbn in *.
    { exists fuel. by rewrite app_nil_r. }
    apply not_elem_of_cons in Hb as [Hc Hb]. destruct fuel as [|fuel]; [lia|].
    destruct (IH Hb (cur ++ [c])%list fuel) as (fuel' & Hl & Heq); [lia|].
    exists fuel'. split; [done|]. rewrite <- app_assoc in Heq. cbn in Heq. rewrite <- Heq.
    cbn [scan_loop rest]. f_equal. unfold scan_step. cbn.
    destruct (String.eqb_spec c backslash), (String.eqb_spec c "$"); cbn; try congruence;
      by rewrite (proj2 (String.eqb_neq c single_quote)).
  - revert cur fuel. induction Hb as [|c body Hb IH|c body Hbs Hdq Hd Hb IH]; intros cur fuel Hf; cbn in *.
    + exists fuel. by rewrite app_nil_r.
    + destruct fuel as [|fuel]; [lia|].
      destruct (IH (cur ++ [backslash; c])%list fuel) as (fuel' & Hl & Heq); [lia|].
      exists fuel'. split; [done|]. rewrite <- app_assoc in Heq. exact Heq.
    + destruct fuel as [|fuel]; [lia|].
      destruct (IH (cur ++ [c])%list fuel) as (fuel' & Hl & Heq); [lia|].
      exists fuel'. split; [done|]. rewrite <- app_assoc in Heq. cbn in Heq. rewrite <- Heq.
      cbn [scan_loop rest]. f_equal. unfold scan_step. cbn [quote rest current scan].
      rewrite (proj2 (String.eqb_neq c backslash) Hbs), (proj2 (String.eqb_neq c double_quote) Hdq).
      cbn [andb]. destruct (String.eqb_spec c "$") as [->|]; [|done]. cbn.
      rewrite dollar_accepts; [done|]. intros d Hh. destruct body as [|e body].
      * destruct Ht as [Ht|[->| ->]]; [|by injection Hh as <-|done].
        cbn in Hh. rewrite Ht in Hh. by injection Hh as <-.
      * by apply (Hd eq_refl).
Qed.

Lemma loop_quoted q body after sc cur fuel :
  quoted q body -> (length (body ++ q :: after) < fuel)%nat ->
  exists fuel', (length after < fuel')%nat /\
    scan_loop fuel {| scan := sc; current := cur; quote := Some q; rest := body ++ q :: after |}
    = scan_loop fuel' {| scan := sc; current := cur ++ body ++ [q]; quote := None; rest := after |}.
Proof.
  intros Hb Hf. destruct (loop_body q body Hb (q :: after) sc cur fuel) as (fuel' & Hl & ->);
    [by left|done|].
  cbn in Hl. destruct fuel' as [|fuel']; [lia|]. exists fuel'. split; [lia|].
  cbn [scan_loop rest]. f_equal. unfold scan_step. cbn [quote rest current scan].
  rewrite app_assoc. by destruct Hb as [[-> _]|[-> _]].
Qed.

Lemma loop_unclosed q body sc cur fuel :
  unclosed q body -> (length body < fuel)%nat ->
  scan_loop fuel {| scan := sc; current := cur; quote := Some q; rest := body |}
  = Some (split (cur ++ body) sc).
Proof.
  intros [Hb|(-> & inner & -> & Hi)] Hf.
  - rewrite <- (app_nil_r body) at 1.
    destruct (loop_body q body Hb [] sc cur fuel) as (fuel' & Hl & ->);
      [by right; right|by rewrite app_nil_r|].
    cbn in Hl. destruct fuel' as [|fuel']; [lia|done].
  - destruct (loop_body double_quote inner (or_intror (conj eq_refl Hi)) [backslash] sc cur fuel)
      as (fuel' & Hl & ->); [by right; left|done|].
    cbn in Hl. destruct fuel' as [|[|fuel']]; [lia|lia|]. cbn. by rewrite app_assoc.
Qed.

Lemma scan_step_plain sc cur c after :
  plain cur c after ->
  scan_step c {| scan := sc; current := cur; quote := None; rest := after |}
  = {| scan := sc; current := cur ++ [c]; quote := None; rest := after |}.
Proof.
  intros (Hc & Hd & Hh). unfold among in Hc. cbn [existsb] in Hc. rewrite !orb_false_iff in Hc.
  destruct Hc as (H1 & H2 & H3 & H4 & H5 & H6 & H7 & H8 & _).
  unfold scan_step, among. cbn [quote rest current scan existsb].
  rewrite H1, H2, H3, H4, H5, H6, H7, H8. cbn [orb andb].
  destruct (String.eqb_spec c "$") as [->|Hne].
  - by rewrite (dollar_accepts false after sc (Hd eq_refl)).
  - destruct (String.eqb_spec c "#") as [->|]; [|done]. by rewrite (Hh eq_refl).
Qed.


Lemma reads_loop cur l segs : reads cur l segs -> forall fuel sc,
  (length l < fuel)%nat ->
  scan_loop fuel {| scan := sc; current := cur; quote := None; rest := l |}
  = Some {| segments := segments sc ++ segs; violation := violation sc |}.
Proof.
  assert (forall cur sc, Some (split cur sc)
    = Some {| segments := segments sc ++ segment_of cur; violation := violation sc |}) as Hsplit.
  { intros c sc. rewrite <- split_segments, <- (split_violation c sc). by destruct (split c sc). }
  induction 1 as [cur|cur c after segs Hp Hr IH|cur c after segs Hr IH|cur
    |cur q body after segs Hq Hr IH|cur q body Hu|cur body after segs Hb Hn Hh Hr IH
    |cur c after segs Hc Hnot Hr IH|cur text after segs Ht Hr IH|cur text after segs Ht Hr IH];
    intros fuel sc Hf; (destruct fuel as [|fuel]; [lia|]); cbn in Hf;
    cbn [scan_loop]; cbn [rest].
  - apply Hsplit.
  - cbn [scan current quote]. rewrite scan_step_plain by done. apply IH. lia.
  - destruct fuel as [|fuel]; [lia|]. apply IH. lia.
  - destruct fuel as [|fuel]; [lia|]. apply Hsplit.
  - assert (scan_step q {| scan := sc; current := cur; quote := None; rest := body ++ q :: after |}
      = {| scan := sc; current := cur ++ [q]; quote := Some q; rest := body ++ q :: after |}) as Hstep
      by (by destruct Hq as [[-> _]|[-> _]]).
    cbn [scan current quote]. rewrite Hstep.
    destruct (loop_quoted q body after sc (cur ++ [q]) fuel Hq) as (fuel' & Hl & ->); [lia|].
    rewrite <- app_assoc. by apply IH.
  - assert (scan_step q {| scan := sc; current := cur; quote := None; rest := body |}
      = {| scan := sc; current := cur ++ [q]; quote := Some q; rest := body |}) as Hstep
      by (by destruct Hu as [[[-> _]|[-> _]]|[-> _]]).
    cbn [scan current quote]. rewrite Hstep, loop_unclosed by (done || lia).
    rewrite <- app_assoc. apply Hsplit.
  - cbn [scan current quote].
    replace (scan_step _ _) with {| scan := sc; current := cur; quote := None; rest := after |}.
    + apply IH. rewrite length_app in Hf. lia.
    + unfold scan_step. cbn. rewrite Hb, span_app; [done| |].
      * apply Forall_forall. intros d Hd. apply negb_true_iff, String.eqb_neq. by intros ->.
      * intros d Hd. by rewrite (Hh d Hd).
  - cbn [scan current quote].
    replace (scan_step _ _) with
      {| scan := split cur sc; current := []; quote := None; rest := after |}.
    + rewrite (IH fuel (split cur sc)) by lia.
      by rewrite split_segments, split_violation, app_assoc.
    + unfold among in Hc. cbn [existsb] in Hc. rewrite !orb_true_iff, !String.eqb_eq in Hc.
      destruct Hc as [->|[->|[->|[->|?]]]]; try done. unfold scan_step. cbn.
      by rewrite bool_decide_eq_false_2 by naive_solver.
  - cbn [scan current quote].
    replace (scan_step _ _) with
      {| scan := sc; current := strip_descriptor cur; quote := None; rest := after |}.
    + apply IH. rewrite length_app in Hf. lia.
    + unfold scan_step. cbn. by rewrite consume_accepts.
  - cbn [scan current quote].
    replace (scan_step _ _) with {| scan := sc; current := cur; quote := None; rest := after |}.
    + apply IH. rewrite length_app in Hf. lia.
    + unfold scan_step. cbn. by rewrite consume_accepts.
Qed.

(** The scan accepts exactly the command lines of the grammar. *)
Lemma scan_from_reads command segs :
  violation (scan_from command) = None /\ segments (scan_from command) = segs <->
  substitution_free command /\ reads [] (chars command) segs.
Proof.
  unfold scan_from, scan_start, substitution_free.
  destruct (existsb _ _) eqn:Hm.
  - split.
    + intros [Hv _]. exfalso.
      set (st := {| scan := breach Substitution scan_empty; current := []; quote := None;
                    rest := chars command |}) in *.
      destruct (scan_loop_total (S (length (chars command))) st) as [s Hs]; [cbn; lia|].
      rewrite Hs in Hv. by destruct (loop_reads _ st s I Hs Hv) as [? _].
    + intros [Hfree _]. apply existsb_exists in Hm as (m & Hin & Hc).
      by rewrite Hfree in Hc by (by apply list_elem_of_In).
  - assert (forall marker, marker ∈ MARKERS -> str_contains marker command = false) as Hfree.
    { intros m Hin. destruct (str_contains m command) eqn:Hc; [|done].
      enough (existsb (fun marker => str_contains marker command) MARKERS = true) by congruence.
      apply existsb_exists. exists m. split; [by apply list_elem_of_In|done]. }
    set (st := {| scan := scan_empty; current := []; quote := None; rest := chars command |}).
    split.
    + intros [Hv <-]. split; [done|].
      destruct (scan_loop_total (S (length (chars command))) st) as [s Hs]; [cbn; lia|].
      rewrite Hs in *. cbn [default] in *.
      destruct (loop_reads _ st s I Hs Hv) as (_ & segs & Hr & Heq). cbn in Heq. by subst.
    + intros [_ Hr]. subst st. by rewrite (reads_loop _ _ _ Hr (S (length (chars command)))) by lia.
Qed.

(** ** The options *)

Lemma prefix_cons a b p s :
  String.prefix (String a p) (String b s) = if ascii_dec a b then String.prefix p s else false.
Proof. done. Qed.

Lemma starts_with_app p s : starts_with p s = true <-> exists r, s = p +:+ r.
Proof.
  unfold starts_with. revert s. induction p as [|a p IH]; intros s.
  - split; [intros _; by exists s|]. intros _. by destruct s.
  - destruct s as [|b s]; [by split; [|intros (r & [=])]|]. rewrite prefix_cons.
    destruct (ascii_dec a b) as [->|Hne].
    + rewrite IH. by split; intros (r & Hr); exists r; rewrite string_app_cons in *; simplify_eq.
    + split; [done|]. intros (r & Hr). rewrite string_app_cons in Hr. congruence.
Qed.

Lemma drop_prefix p r : str_drop (String.length p) (p +:+ r) = r.
Proof. by induction p as [|a p IH]; [|rewrite string_app_cons]. Qed.

Lemma before_equals_cons a s :
  before_equals (String a s) = if Ascii.eqb a "=" then "" else String a (before_equals s).
Proof.
  unfold before_equals. cbn [split_char]. destruct (Ascii.eqb a "="); [done|].
  destruct (split_char "=" s) as [|h t] eqn:Hs; [|done].
  destruct s as [|b s]; cbn in Hs; [done|]. destruct (Ascii.eqb b "="); [done|].
  by destruct (split_char "=" s).
Qed.

Lemma before_equals_name name :
  has_char "=" name = false ->
  before_equals name = name /\ forall value, before_equals (name +:+ "=" +:+ value) = name.
Proof.
  induction name as [|a name IH]; [done|].
  cbn [has_char]. intros [Ha Hn]%orb_false_iff. destruct (IH Hn) as [IH1 IH2].
  split; [|intros v; rewrite string_app_cons]; rewrite before_equals_cons, Ha; by f_equal.
Qed.

Lemma before_equals_spec s :
  has_char "=" (before_equals s) = false /\
  (s = before_equals s \/ exists value, s = before_equals s +:+ "=" +:+ value).
Proof.
  induction s as [|a s [Hn Hs]]; [by split; [|left]|]. rewrite before_equals_cons.
  destruct (Ascii.eqb_spec a "=") as [->|Hne]; [by split; [|right; exists s]|].
  cbn [has_char]. rewrite Hn, (proj2 (Ascii.eqb_neq _ _) Hne). split; [done|].
  destruct Hs as [Hs|(v & Hv)]; [left; by f_equal|right].
  exists v. rewrite string_app_cons. by f_equal.
Qed.

Lemma among_spec l s : among l s = true <-> s ∈ l.
Proof.
  unfold among. rewrite existsb_exists. split.
  - intros (x & Hin & ->%String.eqb_eq). by apply list_elem_of_In.
  - intros Hin. exists s. by rewrite String.eqb_refl, <- list_elem_of_In.
Qed.

Lemma head_filter_none {A} (P : A -> Prop) `{!forall x, Decision (P x)} l :
  head (filter P l) = None <-> forall x, x ∈ l -> ~ P x.
Proof.
  split.
  - intros Hnone x Hin Hp. assert (x ∈ filter P l) as Hf by (by apply list_elem_of_filter).
    destruct (filter P l); [by apply elem_of_nil in Hf|done].
  - intros Hall. destruct (filter P l) as [|x r] eqn:Hf; [done|].
    assert (x ∈ filter P l) as [Hp Hin]%list_elem_of_filter by (rewrite Hf; by left).
    by destruct (Hall x Hin).
Qed.

Lemma long_refused long argument :
  (match strip_prefix "--" argument with
   | Some name =>
       negb (String.eqb (before_equals name) "")
       && existsb (fun o => starts_with (before_equals name) (trim_start_dashes o)) long
   | None => false
   end) = true
  <-> exists o, o ∈ (trim_start_dashes <$> long) /\ names_long o argument.
Proof.
  unfold names_long. split.
  - destruct (strip_prefix "--" argument) as [name|] eqn:Hs; [|done].
    apply strip_prefix_spec in Hs as ->. intros [Hne Hex]%andb_true_iff.
    apply existsb_exists in Hex as (o & Hin%list_elem_of_In & Hp).
    destruct (before_equals_spec name) as [Hn Hname].
    exists (trim_start_dashes o). split; [by apply list_elem_of_fmap_2|].
    exists (before_equals name). split_and!; [|done|done|].
    + by apply negb_true_iff, String.eqb_neq in Hne.
    + destruct Hname as [Hname|(v & Hname)]; [left|right; exists v]; by rewrite Hname at 1.
  - intros (o & (o' & -> & Hin)%list_elem_of_fmap & name & Hne & Hn & Hp & Harg).
    destruct (before_equals_name name Hn) as [Hb Hv].
    assert (exists rest, argument = "--" +:+ rest /\ before_equals rest = name) as (r & -> & Hr).
    { destruct Harg as [->|(v & ->)]; eexists; (split; [done|]); auto. }
    rewrite (proj2 (strip_prefix_spec "--" _ r) eq_refl), Hr.
    rewrite (proj2 (String.eqb_neq _ _) Hne). cbn. apply existsb_exists.
    exists o'. split; [by apply list_elem_of_In|done].
Qed.

Lemma flag_refused short argument :
  strip_prefix "--" argument = None ->
  (exists cluster flag, strip_prefix "-" argument = Some cluster /\
     head (filter (fun c => among short c = true) (chars cluster)) = Some flag)
  <-> exists flag, flag ∈ short /\ gives_flag flag argument.
Proof.
  intros Hno. split.
  - intros (cluster & flag & Hs & Hh). exists flag.
    assert (flag ∈ filter (fun c => among short c = true) (chars cluster)) as Hin.
    { destruct (filter _ _); [done|]. injection Hh as ->. by left. }
    apply list_elem_of_filter in Hin as [Hp Hin]. split; [by apply among_spec|].
    apply strip_prefix_spec in Hs as ->. exists cluster. split_and!; [done| |done].
    destruct (starts_with "-" cluster) eqn:H; [|done].
    apply starts_with_app in H as (r & ->).
    assert (strip_prefix "--" ("-" +:+ "-" +:+ r) = Some r) as Hsome by (by apply strip_prefix_spec).
    congruence.
  - intros (flag & Hin & cluster & -> & Hd & Hc). exists cluster.
    destruct (head (filter (fun c => among short c = true) (chars cluster))) as [f|] eqn:Hh.
    + exists f. split; [by apply strip_prefix_spec|done].
    + rewrite head_filter_none in Hh. destruct (Hh flag Hc). by apply among_spec.
Qed.

Lemma refused_option_none short long argument :
  refused_option short long argument = None <->
  (forall o, o ∈ (trim_start_dashes <$> long) -> ~ names_long o argument) /\
  (forall flag, flag ∈ short -> ~ gives_flag flag argument).
Proof.
  pose proof (long_refused long argument) as Hlong. unfold refused_option.
  destruct (strip_prefix "--" argument) as [name|] eqn:Hs.
  - split.
    + destruct (_ && _) eqn:Hc; [done|]. intros _. split.
      * intros o Hin Hn. enough (false = true) by done. rewrite Hlong. by exists o.
      * intros flag _ (cluster & Ha & Hd & _). apply strip_prefix_spec in Hs. rewrite Ha in Hs.
        change ("--" +:+ name) with ("-" +:+ ("-" +:+ name)) in Hs.
        rewrite !string_app_cons, !string_app_nil_l in Hs. injection Hs as ->.
        by destruct name.
    + intros [Hl _]. destruct (_ && _); [|done].
      destruct (proj1 Hlong eq_refl) as (o & Hin & Hn). by destruct (Hl o Hin).
  - pose proof (flag_refused short argument Hs) as Hflag. split.
    + intros Hn. split.
      * intros o Hin Hno. enough (false = true) by done. rewrite Hlong. by exists o.
      * intros flag Hin Hg. destruct (proj2 Hflag) as (cl & f & Hcl & Hf); [by exists flag|].
        rewrite Hcl in Hn. cbn in Hn. by rewrite Hf in Hn.
    + intros [_ Hf]. destruct (strip_prefix "-" argument) as [cl|] eqn:Hcl; [|done]. cbn.
      destruct (head _) as [f|] eqn:Hh; [|done].
      destruct (proj1 Hflag) as (flag & Hin & Hg); [by exists cl, f|]. by destruct (Hf flag Hin).
Qed.

Lemma refuse_options_ok short long refuse l :
  refuse_options short long refuse l = Ok tt <->
  avoids short (trim_start_dashes <$> long) l.
Proof.
  unfold avoids. induction l as [|a l IH]; cbn.
  - split; [|done]. intros _ a Hin. by apply elem_of_nil in Hin.
  - pose proof (refused_option_none short long a) as Ha.
    destruct (refused_option short long a) as [f|].
    + split; [done|]. intros H. enough (Some f = None) by done. apply Ha, H. by left.
    + rewrite IH. split; intros H.
      * intros x [->|Hin]%elem_of_cons; [by apply Ha|by apply H].
      * intros x Hin. apply H. by right.
Qed.

(** ** The invocations *)

Lemma only_ok listed refuse operands :
  (match head (filter (fun a => negb (among listed a) = true) operands) with
   | Some argument => Err (refuse argument) | None => Ok tt end : result unit ReadOnlyViolation)
  = Ok tt <-> operands ⊆ listed.
Proof.
  destruct (head _) as [a|] eqn:Hh.
  - split; [done|]. intros Hsub. enough (Some a = None) by done. rewrite <- Hh.
    apply head_filter_none. intros x Hin. by rewrite (proj2 (among_spec _ _) (Hsub x Hin)).
  - split; [|done]. intros _ x Hin. rewrite head_filter_none in Hh. apply among_spec.
    specialize (Hh x Hin). by destruct (among listed x).
Qed.

Lemma avoids_cons_reader short long subcommand operands :
  subcommand ∈ GIT_READERS ->
  avoids short long (subcommand :: operands) <-> avoids short long operands.
Proof.
  intros Hin. assert (starts_with "-" subcommand = false) as Hd.
  { assert (Forall (fun s => starts_with "-" s = false) GIT_READERS) as Hall by by repeat constructor.
    rewrite Forall_forall in Hall. auto. }
  assert (forall r, subcommand <> "-" +:+ r) as Hno.
  { intros r ->. by rewrite (proj2 (starts_with_app _ _)) in Hd by eauto. }
  unfold avoids. split; intros H a Ha; [apply H; by right|].
  apply elem_of_cons in Ha as [->|Ha]; [|by apply H]. split.
  - intros o _ (name & _ & _ & _ & [Heq|(v & Heq)]); by apply (Hno _ Heq).
  - intros flag _ (cl & Heq & _). by apply (Hno _ Heq).
Qed.

Lemma git_read_only_ok i :
  git_read_only i = Ok tt <->
  exists subcommand operands, arguments i = subcommand :: operands /\
    git_inspects subcommand operands.
Proof.
  unfold git_read_only. destruct (arguments i) as [|sub ops].
  { split; [done|]. by intros (? & ? & ? & _). }
  destruct (among GIT_READERS sub) eqn:Hr.
  2:{ split; [by destruct (starts_with "-" sub)|]. intros (s & o & [= <- <-] & Hg).
      enough (among GIT_READERS sub = true) by congruence. apply among_spec.
      by destruct Hg; [apply among_spec..|]. }
  apply among_spec in Hr. cbn [negb].
  assert (starts_with "-" sub = false) as ->.
  { assert (Forall (fun s => starts_with "-" s = false) GIT_READERS) as Hall by by repeat constructor.
    rewrite Forall_forall in Hall. auto. }
  assert ((exists s o, sub :: ops = s :: o /\ git_inspects s o) <-> git_inspects sub ops) as ->
    by (split; [by intros (? & ? & [= <- <-] & ?)|by exists sub, ops]).
  destruct (String.eqb_spec sub "branch") as [->|Hb].
  { rewrite (only_ok GIT_BRANCH_LISTING (fun a => Argument ("git " +:+ "branch") (option_name a))).
    split; [by constructor|]. intros H. inversion H; subst; [done|].
    match goal with N : "branch" ∉ _ |- _ => destruct N; by left end. }
  destruct (String.eqb_spec sub "remote") as [->|Hre].
  { rewrite (only_ok ["-v"] (fun a => Argument ("git " +:+ "remote") (option_name a))).
    split; [by constructor|]. intros H. inversion H; subst; [done|].
    match goal with N : "remote" ∉ _ |- _ => destruct N; by right; left end. }
  destruct (String.eqb_spec sub "grep") as [->|Hg].
  { rewrite refuse_options_ok, avoids_cons_reader by done. split; [by constructor|].
    intros H. inversion H; subst; [done|].
    match goal with N : "grep" ∉ _ |- _ => destruct N; by right; right; left end. }
  rewrite refuse_options_ok, avoids_cons_reader by done. split.
  - intros H. apply git_other; [done| |done]. rewrite !elem_of_cons, elem_of_nil. by intros [->|[->|[->|[]]]].
  - intros H. by inversion H.
Qed.

Lemma uniq_ok i :
  (if (1 <? length (filter (fun a => negb (starts_with "-" a) = true) (arguments i)))%nat
   then Err (Argument (program i) "OUTPUT") else Ok tt : result unit ReadOnlyViolation) = Ok tt <->
  (length (filter (fun a => starts_with "-" a = false) (arguments i)) <= 1)%nat.
Proof.
  rewrite (list_filter_iff (fun a => negb (starts_with "-" a) = true) (fun a => starts_with "-" a = false))
    by (intros a; apply negb_true_iff).
  destruct (Nat.ltb_spec 1 (length (filter (fun a => starts_with "-" a = false) (arguments i))));
    split; try done; lia.
Qed.

Definition special : list string :=
  ["git"; "file"; "rg"; "fd"; "sort"; "printf"; "tree"; "find"; "uniq"].

Lemma special_not_plain name : name ∈ special -> name ∉ PLAIN_READERS.
Proof.
  intros Hs Hp%among_spec. apply among_spec in Hs. revert Hp.
  assert (forallb (fun n => negb (among PLAIN_READERS n)) special = true) as Hall by reflexivity.
  rewrite forallb_forall in Hall. apply among_spec, list_elem_of_In in Hs.
  specialize (Hall _ Hs). by apply negb_true_iff in Hall as ->.
Qed.

Lemma filtered_functional name s1 l1 s2 l2 :
  filtered name s1 l1 -> filtered name s2 l2 -> s1 = s2 /\ l1 = l2.
Proof. by intros []; inversion 1. Qed.

Lemma filtered_ok i short long :
  filtered (program i) short (trim_start_dashes <$> long) ->
  refuse_options short long (fun a => Argument (program i) (option_name a)) (arguments i) = Ok tt <->
  inspects i.
Proof.
  intros Hf. rewrite refuse_options_ok. split; [by apply inspects_filtered|].
  assert (program i ∈ special) as Hs by (inversion Hf; apply among_spec; reflexivity).
  intros [Hp|s l Hf' Ha|Hn _|Hn _|? ? Hn _ _].
  - by apply special_not_plain in Hs.
  - revert Ha. destruct (filtered_functional _ _ _ _ _ Hf Hf') as [-> ->]. done.
  - rewrite Hn in Hf. inversion Hf.
  - rewrite Hn in Hf. inversion Hf.
  - rewrite Hn in Hf. inversion Hf.
Qed.

Lemma find_ok i :
  program i = "find" ->
  (match head (filter (fun a => among FIND_WRITERS a = true) (arguments i)) with
   | Some argument => Err (Argument (program i) (option_name argument))
   | None => Ok tt end : result unit ReadOnlyViolation) = Ok tt <-> inspects i.
Proof.
  intros Hn. transitivity (forall a, a ∈ arguments i -> a ∉ FIND_WRITERS).
  - destruct (head _) as [a|] eqn:Hh.
    + split; [done|]. intros H. enough (Some a = None) by done. rewrite <- Hh.
      apply head_filter_none. intros x Hin Hc%among_spec. by apply (H x).
    + split; [|done]. intros _ a Hin Hc. rewrite head_filter_none in Hh.
      by apply (Hh a Hin), among_spec.
  - split; [by apply inspects_find|].
    intros [Hp|s l Hf' Ha|_ Ha|Hn' _|? ? Hn' _ _]; try done; rewrite Hn in *; try done.
    + by apply special_not_plain in Hp; [|apply among_spec; reflexivity].
    + inversion Hf'.
Qed.

Lemma inspects_by_name i (P : Prop) :
  program i ∈ special -> (forall s l, ~ filtered (program i) s l) ->
  (program i = "find" -> (forall a, a ∈ arguments i -> a ∉ FIND_WRITERS) -> P) ->
  (program i = "uniq" ->
    (length (filter (fun a => starts_with "-" a = false) (arguments i)) <= 1)%nat -> P) ->
  (program i = "git" -> forall s o, arguments i = s :: o -> git_inspects s o -> P) ->
  inspects i -> P.
Proof.
  intros Hs Hf Hfind Huniq Hgit [Hp|s l Hf' _|Hn Ha|Hn Ha|s o Hn Ha Hg]; eauto.
  - by apply special_not_plain in Hs.
  - by destruct (Hf s l).
Qed.

(** An invocation is accepted exactly when it only inspects. *)
Lemma invocation_read_only_ok i : invocation_read_only i = Ok tt <-> inspects i.
Proof.
  unfold invocation_read_only.
  destruct (String.eqb_spec (program i) "git") as [Hn|Hgit].
  { rewrite git_read_only_ok. split.
    - intros (s & o & Ha & Hg). by eapply inspects_git.
    - apply inspects_by_name; rewrite ?Hn; try done; [by apply among_spec|by inversion 1|].
      intros _ s o Ha Hg. by exists s, o. }
  destruct (String.eqb_spec (program i) "file") as [Hn|Hfile];
    [apply filtered_ok; rewrite Hn; constructor|].
  destruct (String.eqb_spec (program i) "rg") as [Hn|Hrg];
    [apply filtered_ok; rewrite Hn; constructor|].
  destruct (String.eqb_spec (program i) "fd") as [Hn|Hfd];
    [apply filtered_ok; rewrite Hn; constructor|].
  destruct (String.eqb_spec (program i) "sort") as [Hn|Hsort];
    [apply filtered_ok; rewrite Hn; constructor|].
  destruct (String.eqb_spec (program i) "printf") as [Hn|Hprintf];
    [apply filtered_ok; rewrite Hn; constructor|].
  destruct (String.eqb_spec (program i) "tree") as [Hn|Htree];
    [apply filtered_ok; rewrite Hn; constructor|].
  destruct (String.eqb_spec (program i) "find") as [Hn|Hfind]; [by apply find_ok|].
  destruct (String.eqb_spec (program i) "uniq") as [Hn|Huniq].
  { change (option_name "OUTPUT") with "OUTPUT". rewrite uniq_ok. split; [by apply inspects_uniq|].
    apply inspects_by_name; rewrite ?Hn; try done; [by apply among_spec|by inversion 1]. }
  destruct (among PLAIN_READERS (program i)) eqn:Hp.
  - split; [|done]. intros _. by apply inspects_plain, among_spec.
  - split; [done|]. intros [Hin|s l Hf _|Hn _|Hn _|? ? Hn _ _]; try done.
    + apply among_spec in Hin. congruence.
    + inversion Hf; congruence.
Qed.
