(* ===== verification/ShellOutput.v ===== *)
(** The bounds every tool puts on its text: whole lines from the head, whole
    lines from the tail, and a suffix of one line too long to keep.
    [crates/tools/src/truncation.rs]

    Lengths are byte counts of text already in memory, so they are naturals
    without overflow.  [one_decimal a b] is the standard library's rendering of
    the 64-bit float [a / b] with one decimal place. *)

From S2P Require Import Prelude Lines Chars Scalar Json Message.
Open Scope string_scope.

Definition DEFAULT_MAX_LINES : nat := 2000.
Definition DEFAULT_MAX_BYTES : nat := 50 * 1024.

Definition format_size (one_decimal : nat -> nat -> string) (bytes : nat) : string :=
  if Nat.ltb bytes 1024 then u64_to_string (Z.of_nat bytes) +:+ "B"
  else if Nat.ltb bytes (1024 * 1024) then one_decimal bytes 1024 +:+ "KB"
  else one_decimal bytes (1024 * 1024) +:+ "MB".

Definition counted_lines (content : string) : list string :=
  match content with
  | EmptyString => []
  | _ =>
      let lines := split_char newline content in
      if ends_with_char newline content then removelast lines else lines
  end.

(** The loop of [utf8_suffix]: [start] moves to the next character boundary,
    which is where a byte is not a continuation byte. *)
Fixpoint from_boundary (s : string) : string :=
  match s with
  | String a r => if cont a then from_boundary r else s
  | EmptyString => EmptyString
  end.
Definition utf8_suffix (content : string) (max_bytes : nat) : string :=
  if Nat.leb (String.length content) max_bytes then content
  else from_boundary (str_drop (String.length content - max_bytes) content).

(** The builder's fields both functions always set. *)
Definition details (content : string) (cut : bool) (by_ : option TruncationLimit)
  (all_lines all_bytes kept_lines : nat) (partial exceeds : bool) (lines bytes : nat)
  : TruncationDetails :=
  {| td_content := content; truncated := cut; truncated_by := by_;
     total_lines := Z.of_nat all_lines; total_bytes := Z.of_nat all_bytes;
     output_lines := Z.of_nat kept_lines; output_bytes := Z.of_nat (String.length content);
     last_line_partial := partial; first_line_exceeds_limit := exceeds;
     max_lines := Z.of_nat lines; max_bytes := Z.of_nat bytes |}.

(** The bytes a line adds to the selected ones, its separator included. *)
Definition line_bytes (selected : list string) (line : string) : nat :=
  String.length line + match selected with [] => 0 | _ :: _ => 1 end.

(** The limit reported when the loop stopped after [selected]. *)
Definition reported_limit (limit : TruncationLimit) (lines bytes max_lines max_bytes : nat)
  : TruncationLimit :=
  if Nat.leb max_lines lines && Nat.leb bytes max_bytes then LimitLines else limit.

Fixpoint head_loop (max_bytes : nat) (lines selected : list string) (bytes : nat)
  : list string * nat * TruncationLimit :=
  match lines with
  | [] => (selected, bytes, LimitLines)
  | line :: rest =>
      let added := line_bytes selected line in
      if Nat.ltb max_bytes (bytes + added) then (selected, bytes, LimitBytes)
      else head_loop max_bytes rest (selected ++ [line])%list (bytes + added)
  end.

Definition truncate_head (content : string) (max_lines max_bytes : nat) : TruncationDetails :=
  let lines := counted_lines content in
  let total_lines := length lines in
  let total_bytes := String.length content in
  if Nat.leb total_lines max_lines && Nat.leb total_bytes max_bytes then
    details content false None total_lines total_bytes total_lines false false max_lines max_bytes
  else
    match lines with
    | first :: _ =>
        if Nat.ltb max_bytes (String.length first) then
          details "" true (Some LimitBytes) total_lines total_bytes 0 false true
            max_lines max_bytes
        else
          let '(selected, bytes, limit) := head_loop max_bytes (take max_lines lines) [] 0 in
          details (join nl selected) true
            (Some (reported_limit limit (length selected) bytes max_lines max_bytes))
            total_lines total_bytes (length selected) false false max_lines max_bytes
    | [] =>
        details "" true (Some (reported_limit LimitLines 0 0 max_lines max_bytes))
          total_lines total_bytes 0 false false max_lines max_bytes
    end.

(** The loop of [truncate_tail]: [selected] is in the order lines are pushed,
    the last line first. *)
Fixpoint tail_loop (max_bytes : nat) (lines selected : list string) (bytes : nat)
  : list string * nat * TruncationLimit * bool :=
  match lines with
  | [] => (selected, bytes, LimitLines, false)
  | line :: rest =>
      let added := line_bytes selected line in
      if Nat.ltb max_bytes (bytes + added) then
        match selected with
        | [] =>
            let suffix := utf8_suffix line max_bytes in
            ([suffix], String.length suffix, LimitBytes, true)
        | _ :: _ => (selected, bytes, LimitBytes, false)
        end
      else tail_loop max_bytes rest (selected ++ [line])%list (bytes + added)
  end.

Definition truncate_tail (content : string) (max_lines max_bytes : nat) : TruncationDetails :=
  let lines := counted_lines content in
  let total_lines := length lines in
  let total_bytes := String.length content in
  if Nat.leb total_lines max_lines && Nat.leb total_bytes max_bytes then
    details content false None total_lines total_bytes total_lines false false max_lines max_bytes
  else
    let '(selected, bytes, limit, partial) :=
      tail_loop max_bytes (take max_lines (reverse lines)) [] 0 in
    details (join nl (reverse selected)) true
      (Some (reported_limit limit (length selected) bytes max_lines max_bytes))
      total_lines total_bytes (length selected) partial false max_lines max_bytes.

(** ** Lines *)

(** The bytes of joined lines. *)
Lemma join_snoc sep l x :
  l <> [] -> join sep (l ++ [x])%list = join sep l +:+ sep +:+ x.
Proof.
  induction l as [|a [|b l] IH]; [done|done|]. intros _.
  change (a +:+ sep +:+ join sep ((b :: l) ++ [x])%list = (a +:+ sep +:+ join sep (b :: l)) +:+ sep +:+ x).
  rewrite IH by done. by rewrite <- !string_app_assoc.
Qed.

Lemma join_cons sep x l : l <> [] -> join sep (x :: l) = x +:+ sep +:+ join sep l.
Proof. by destruct l. Qed.

Lemma join_length_snoc l x :
  String.length (join nl (l ++ [x])%list) = String.length (join nl l) + line_bytes l x.
Proof.
  destruct l as [|a l]; [unfold line_bytes; cbn; lia|]. rewrite join_snoc by done.
  rewrite !string_length_app. change (String.length nl) with 1. unfold line_bytes. lia.
Qed.

Lemma join_length_reverse_snoc l x :
  String.length (join nl (reverse (l ++ [x])))
    = String.length (join nl (reverse l)) + line_bytes l x.
Proof.
  rewrite reverse_snoc. destruct l as [|a l]; [unfold line_bytes; cbn; lia|]. rewrite join_cons.
  - rewrite !string_length_app. change (String.length nl) with 1. unfold line_bytes. lia.
  - rewrite reverse_cons. by destruct (reverse l).
Qed.

(** The head loop keeps a prefix of its lines, with a count of its bytes, that
    fits and that its next line would not. *)
Lemma head_loop_spec max_bytes lines : forall selected bytes,
  bytes = String.length (join nl selected) -> bytes <= max_bytes ->
  let '(kept, b, limit) := head_loop max_bytes lines selected bytes in
  exists more rest,
    kept = (selected ++ more)%list /\ lines = (more ++ rest)%list /\
    b = String.length (join nl kept) /\ b <= max_bytes /\
    match rest with
    | [] => limit = LimitLines
    | x :: _ => limit = LimitBytes /\ max_bytes < String.length (join nl (kept ++ [x])%list)
    end.
Proof.
  induction lines as [|x lines IH]; intros selected bytes Hb Hle; cbn [head_loop].
  - exists [], []. by rewrite app_nil_r.
  - destruct (Nat.ltb_spec max_bytes (bytes + line_bytes selected x)) as [Hlt|Hge].
    + exists [], (x :: lines). rewrite app_nil_r. split_and!; try done.
      rewrite join_length_snoc. lia.
    + specialize (IH (selected ++ [x])%list (bytes + line_bytes selected x)).
      destruct (head_loop _ _ _ _) as [[kept b] limit].
      destruct IH as (more & rest & -> & -> & Hrest); [rewrite join_length_snoc; lia|lia|].
      exists (x :: more), rest.
      split; [by rewrite <- app_assoc|]. split; [done|exact Hrest].
Qed.

(** The tail loop, the same from the other end; a first line that does not fit
    is kept in part. *)
Lemma tail_loop_spec max_bytes lines : forall selected bytes,
  bytes = String.length (join nl (reverse selected)) -> bytes <= max_bytes ->
  let '(kept, b, limit, partial) := tail_loop max_bytes lines selected bytes in
  (partial = false /\ exists more rest,
    kept = (selected ++ more)%list /\ lines = (more ++ rest)%list /\
    b = String.length (join nl (reverse kept)) /\ b <= max_bytes /\
    match rest with
    | [] => limit = LimitLines
    | x :: _ => kept <> [] /\ limit = LimitBytes /\
        max_bytes < String.length (join nl (reverse (kept ++ [x])))
    end) \/
  (partial = true /\ limit = LimitBytes /\ selected = [] /\
   exists x rest, lines = x :: rest /\ max_bytes < String.length x /\
     kept = [utf8_suffix x max_bytes] /\ b = String.length (utf8_suffix x max_bytes)).
Proof.
  induction lines as [|x lines IH]; intros selected bytes Hb Hle; cbn [tail_loop].
  - left. split; [done|]. exists [], []. by rewrite app_nil_r.
  - destruct (Nat.ltb_spec max_bytes (bytes + line_bytes selected x)) as [Hlt|Hge].
    + destruct selected as [|y selected].
      * right. cbn in Hb. subst bytes. cbn [line_bytes] in Hlt. split_and!; try done.
        exists x, lines. split_and!; try done; unfold line_bytes in Hlt; lia.
      * left. split; [done|]. exists [], (x :: lines). rewrite app_nil_r.
        split_and!; try done. rewrite join_length_reverse_snoc. lia.
    + specialize (IH (selected ++ [x])%list (bytes + line_bytes selected x)).
      destruct (tail_loop _ _ _ _) as [[[kept b] limit] partial].
      destruct IH as [(-> & more & rest & -> & -> & Hrest)|(_ & _ & Hnil & _)].
      * rewrite join_length_reverse_snoc. lia.
      * lia.
      * left. split; [done|]. exists (x :: more), rest.
        split; [by rewrite <- app_assoc|]. split; [done|exact Hrest].
      * by destruct selected.
Qed.

Lemma from_boundary_suffix s : exists p, s = p +:+ from_boundary s.
Proof.
  induction s as [|a s [p Hp]]; [by exists ""|]. cbn [from_boundary].
  destruct (cont a); [|by exists ""]. exists (String a p). by rewrite string_app_cons, <- Hp.
Qed.

Lemma str_drop_length n s : String.length (str_drop n s) = String.length s - n.
Proof. revert n. induction s as [|a s IH]; intros [|n]; simpl; done. Qed.

(** A suffix within the limit. *)
Lemma utf8_suffix_spec x max_bytes : exists p,
  x = p +:+ utf8_suffix x max_bytes /\ String.length (utf8_suffix x max_bytes) <= max_bytes.
Proof.
  unfold utf8_suffix. destruct (Nat.leb_spec (String.length x) max_bytes) as [Hle|Hgt]; [by exists ""|].
  set (n := String.length x - max_bytes). destruct (from_boundary_suffix (str_drop n x)) as [p Hp].
  exists (str_take n x +:+ p). split.
  - rewrite <- string_app_assoc, <- Hp. by rewrite str_take_drop.
  - apply (f_equal String.length) in Hp. rewrite string_length_app, str_drop_length in Hp. lia.
Qed.

(** The output of a shell command: counted exactly, kept in a rolling window,
    spilled to a file once it is too long, and shown as a bounded tail.
    [crates/tools/src/builtin/output.rs], [format_output] and [append_status] of
    [crates/tools/src/builtin/bash.rs]

    Bytes are byte strings, counts naturals.  The temporary file is the text
    written to it; each operation on it may fail, which [Io] says. *)

Open Scope string_scope.
Open Scope rust_scope.

(** ** The standard library's byte operations *)

(** [String::from_utf8_lossy]: each maximal prefix of a character that does not
    go on as one becomes U+FFFD. *)
Definition replacement : string := String "239" (String "191" (String "189" "")).

Definition second_of_three (x y : Z) : bool :=
  if (x =? 224)%Z then in_range y 160 191
  else if (x =? 237)%Z then in_range y 128 159 else in_range y 128 191.
Definition second_of_four (x y : Z) : bool :=
  if (x =? 240)%Z then in_range y 144 191
  else if (x =? 244)%Z then in_range y 128 143 else in_range y 128 191.

Fixpoint from_utf8_lossy (s : string) : string :=
  match s with
  | EmptyString => EmptyString
  | String a r =>
      let x := byte_of a in
      let skip_one := replacement +:+ from_utf8_lossy r in
      if (x <? 128)%Z then String a (from_utf8_lossy r)
      else if in_range x 194 223 then
        match r with
        | String b r2 =>
            if cont b then String a (String b (from_utf8_lossy r2)) else skip_one
        | EmptyString => skip_one
        end
      else if in_range x 224 239 then
        match r with
        | String b r2 =>
            if second_of_three x (byte_of b) then
              match r2 with
              | String c r3 =>
                  if cont c then String a (String b (String c (from_utf8_lossy r3)))
                  else replacement +:+ from_utf8_lossy r2
              | EmptyString => replacement
              end
            else skip_one
        | EmptyString => skip_one
        end
      else if in_range x 240 244 then
        match r with
        | String b r2 =>
            if second_of_four x (byte_of b) then
              match r2 with
              | String c r3 =>
                  if cont c then
                    match r3 with
                    | String d r4 =>
                        if cont d
                        then String a (String b (String c (String d (from_utf8_lossy r4))))
                        else replacement +:+ from_utf8_lossy r3
                    | EmptyString => replacement
                    end
                  else replacement +:+ from_utf8_lossy r2
              | EmptyString => replacement
              end
            else skip_one
        | EmptyString => skip_one
        end
      else skip_one
  end.

(** The number of newlines, and the bytes after the last one. *)
Fixpoint count_newlines (s : string) : nat :=
  match s with
  | EmptyString => 0
  | String a r => (if Ascii.eqb a newline then 1 else 0) + count_newlines r
  end.
Fixpoint after_last_newline (s : string) : option nat :=
  match s with
  | EmptyString => None
  | String a r =>
      match after_last_newline r with
      | Some n => Some n
      | None => if Ascii.eqb a newline then Some (String.length r) else None
      end
  end.

(** [find] of a newline and the text after it. *)
Fixpoint after_newline (s : string) : option string :=
  match s with
  | EmptyString => None
  | String a r => if Ascii.eqb a newline then Some r else after_newline r
  end.

(** ** The accumulator *)

Record OutputAccumulator : Type := {
  visible_lines : nat;
  visible_bytes : nat;
  max_rolling_bytes : nat;
  rolling : string;
  rolling_starts_at_line_boundary : bool;
  pending_chunks : list string;
  seen_bytes : nat;
  completed_lines : nat;
  current_line_bytes : nat;
  has_open_line : bool;
  full_output_path : option string;
  full_output_file : option string
}.

Record OutputSnapshot : Type := {
  snapshot_content : string;
  snapshot_truncation : TruncationDetails;
  snapshot_path : option string
}.

(** What the file operations of one call do: the path a new file gets, and the
    error and the bytes that got through when a write fails. *)
Record Io : Type := {
  new_path : result string string;
  write_fails : option (nat * string);
  close_fails : option string
}.

Definition accumulator_of (lines bytes rolling_bytes : nat) : OutputAccumulator :=
  {| visible_lines := lines; visible_bytes := bytes; max_rolling_bytes := rolling_bytes;
     rolling := ""; rolling_starts_at_line_boundary := true; pending_chunks := [];
     seen_bytes := 0; completed_lines := 0; current_line_bytes := 0; has_open_line := false;
     full_output_path := None; full_output_file := None |}.
(** [OutputAccumulator::new] *)
Definition accumulator_new : OutputAccumulator :=
  accumulator_of DEFAULT_MAX_LINES DEFAULT_MAX_BYTES (DEFAULT_MAX_BYTES * 2).

Definition seen_lines (a : OutputAccumulator) : nat :=
  completed_lines a + (if has_open_line a then 1 else 0).
Definition is_truncated (a : OutputAccumulator) : bool :=
  Nat.ltb (visible_bytes a) (seen_bytes a) || Nat.ltb (visible_lines a) (seen_lines a).

(** The counters after a chunk. *)
Definition count_chunk (data : string) (a : OutputAccumulator) : OutputAccumulator :=
  let '(completed, current, open) :=
    match after_last_newline data with
    | Some after => (completed_lines a + count_newlines data, after, Nat.ltb 0 after)
    | None =>
        match data with
        | EmptyString => (completed_lines a, current_line_bytes a, has_open_line a)
        | String _ _ => (completed_lines a, current_line_bytes a + String.length data, true)
        end
    end in
  {| visible_lines := visible_lines a; visible_bytes := visible_bytes a;
     max_rolling_bytes := max_rolling_bytes a; rolling := rolling a;
     rolling_starts_at_line_boundary := rolling_starts_at_line_boundary a;
     pending_chunks := pending_chunks a;
     seen_bytes := seen_bytes a + String.length data; completed_lines := completed;
     current_line_bytes := current; has_open_line := open;
     full_output_path := full_output_path a; full_output_file := full_output_file a |}.

Definition set_rolling (r : string) (boundary : bool) (a : OutputAccumulator)
  : OutputAccumulator :=
  {| visible_lines := visible_lines a; visible_bytes := visible_bytes a;
     max_rolling_bytes := max_rolling_bytes a; rolling := r;
     rolling_starts_at_line_boundary := boundary;
     pending_chunks := pending_chunks a; seen_bytes := seen_bytes a;
     completed_lines := completed_lines a; current_line_bytes := current_line_bytes a;
     has_open_line := has_open_line a; full_output_path := full_output_path a;
     full_output_file := full_output_file a |}.
Definition set_spool (chunks : list string) (path file : option string) (a : OutputAccumulator)
  : OutputAccumulator :=
  {| visible_lines := visible_lines a; visible_bytes := visible_bytes a;
     max_rolling_bytes := max_rolling_bytes a; rolling := rolling a;
     rolling_starts_at_line_boundary := rolling_starts_at_line_boundary a;
     pending_chunks := chunks; seen_bytes := seen_bytes a;
     completed_lines := completed_lines a; current_line_bytes := current_line_bytes a;
     has_open_line := has_open_line a; full_output_path := path;
     full_output_file := file |}.

(** The window after a chunk. *)
Definition roll_chunk (data : string) (a : OutputAccumulator) : OutputAccumulator :=
  let text := rolling a +:+ data in
  if Nat.ltb (max_rolling_bytes a * 2) (String.length text) then
    let start := String.length text - max_rolling_bytes a in
    set_rolling (str_drop start text)
      (Nat.eqb start 0 || bool_decide (String.get (start - 1) text = Some newline)) a
  else set_rolling text (rolling_starts_at_line_boundary a) a.

(** [ensure_full_output_file] *)
Definition ensure_full_output_file (io : Io) : M OutputAccumulator string unit := fun a =>
  match full_output_file a with
  | Some _ => (Ok tt, a)
  | None =>
      match write_fails io, new_path io with
      | Some (_, error), _ | None, Err error => (Err error, a)
      | None, Ok path =>
          (Ok tt, set_spool [] (Some path) (Some (String.concat "" (pending_chunks a))) a)
      end
  end.

(** The spool after a chunk. *)
Definition spool_chunk (io : Io) (data : string) : M OutputAccumulator string unit := fun a =>
  match full_output_file a with
  | Some file =>
      match write_fails io with
      | None => (Ok tt, set_spool (pending_chunks a) (full_output_path a) (Some (file +:+ data)) a)
      | Some (written, error) =>
          (Err error, set_spool (pending_chunks a) (full_output_path a)
                        (Some (file +:+ str_take written data)) a)
      end
  | None =>
      let a := set_spool (pending_chunks a ++ [data])%list (full_output_path a) None a in
      if is_truncated a then ensure_full_output_file io a else (Ok tt, a)
  end.

(** [OutputAccumulator::append] *)
Definition append_output (io : Io) (data : string) : M OutputAccumulator string unit := fun a =>
  spool_chunk io data (roll_chunk data (count_chunk data a)).

(** The part of the window that is shown. *)
Definition visible (a : OutputAccumulator) : string :=
  let decoded := from_utf8_lossy (rolling a) in
  if rolling_starts_at_line_boundary a then decoded
  else default decoded (after_newline decoded).

(** [OutputAccumulator::snapshot] *)
Definition output_snapshot (a : OutputAccumulator) : OutputSnapshot :=
  let t := truncate_tail (visible a) (visible_lines a) (visible_bytes a) in
  let limit :=
    if is_truncated a then
      match truncated_by t with
      | Some l => Some l
      | None => Some (if Nat.ltb (visible_bytes a) (seen_bytes a) then LimitBytes else LimitLines)
      end
    else None in
  {| snapshot_content := td_content t;
     snapshot_truncation :=
       {| td_content := td_content t; truncated := is_truncated a; truncated_by := limit;
          total_lines := Z.of_nat (seen_lines a); total_bytes := Z.of_nat (seen_bytes a);
          output_lines := output_lines t; output_bytes := output_bytes t;
          last_line_partial := last_line_partial t;
          first_line_exceeds_limit := first_line_exceeds_limit t;
          max_lines := Z.of_nat (visible_lines a); max_bytes := Z.of_nat (visible_bytes a) |};
     snapshot_path := full_output_path a |}.

(** [OutputAccumulator::finish] *)
Definition finish_output (io : Io) : M OutputAccumulator string OutputSnapshot :=
  let! a := m_get in
  let! _ := if is_truncated a then ensure_full_output_file io else m_ret tt in
  let! a := m_get in
  let! _ :=
    match full_output_file a with
    | None => m_ret tt
    | Some _ => fun a =>
        (match close_fails io with Some error => Err error | None => Ok tt end,
         set_spool (pending_chunks a) (full_output_path a) None a)
    end in
  let! a := m_get in
  m_ret (output_snapshot a).

(** ** What the model reads *)

(** [BashTool::format_output] *)
Definition format_output (one_decimal : nat -> nat -> string) (output : OutputSnapshot)
  (last_line_bytes : nat) (empty_text : string) (exit_code : option Z) (signal : option string)
  : string * ToolResultDetails :=
  let t := snapshot_truncation output in
  let text := if String.eqb (snapshot_content output) "" then empty_text
              else snapshot_content output in
  if negb (truncated t) then (text, BashDetails None None exit_code signal)
  else
    let path := default "" (snapshot_path output) in
    let start_line := (total_lines t - output_lines t + 1)%Z in
    let end_line := total_lines t in
    let lines := "[Showing lines " +:+ u64_to_string start_line +:+ "-" +:+ u64_to_string end_line
                 +:+ " of " +:+ u64_to_string (total_lines t) in
    let footer :=
      if last_line_partial t then
        "[Showing last " +:+ format_size one_decimal (Z.to_nat (output_bytes t)) +:+ " of line "
        +:+ u64_to_string end_line +:+ " (line is " +:+ format_size one_decimal last_line_bytes
        +:+ "). Full output: " +:+ path +:+ "]"
      else
        match truncated_by t with
        | Some LimitLines => lines +:+ ". Full output: " +:+ path +:+ "]"
        | _ => lines +:+ " (" +:+ format_size one_decimal DEFAULT_MAX_BYTES
               +:+ " limit). Full output: " +:+ path +:+ "]"
        end in
    (text +:+ nl +:+ nl +:+ footer, BashDetails (Some t) (snapshot_path output) exit_code signal).

(** [BashTool::append_status] *)
Definition append_status (output status : string) : string :=
  if String.eqb output "" then status else output +:+ nl +:+ nl +:+ status.

(** The chunks of a command, one after the other. *)
Fixpoint append_chunks (io : Io) (chunks : list string) : M OutputAccumulator string unit :=
  match chunks with
  | [] => m_ret tt
  | data :: rest => let! _ := append_output io data in append_chunks io rest
  end.
