(* ===== verification/Paths.v ===== *)
(** How a tool's path argument becomes a file's path, and the files the mutating
    tools work on.  [crates/tools/src/builtin/path.rs], [mutation.rs]

    Paths are UTF-8 text with Unix separators.  The home directory, the URL
    parser and Unicode's canonical decomposition are other code's: parameters. *)

From S2P Require Import Prelude Lines Chars Text ToolContract.
Open Scope string_scope.
Open Scope rust_scope.

(** [std::io::Error]: its kind, where the code asks for it, and its text. *)
Inductive IoErrorKind : Type := NotFound | PermissionDenied | OtherKind.
Record IoError : Type := { io_kind : IoErrorKind; io_text : string }.

(** [Path::is_absolute], [Path::join] *)
Definition is_absolute (p : string) : bool := starts_with "/" p.
Definition path_join (base p : string) : string :=
  if is_absolute p then p
  else if String.eqb base "" || ends_with_char "/" base then base +:+ p
  else base +:+ "/" +:+ p.

(** [str::trim_start_matches("~/")] *)
Fixpoint trim_tildes (s : string) : string :=
  match s with
  | String a (String b r) => if Ascii.eqb a "~" && Ascii.eqb b "/" then trim_tildes r else s
  | _ => s
  end.

Definition unicode_space (c : char) : bool :=
  let z := code_point c in
  ((z =? 160) || (8192 <=? z) && (z <=? 8202) || (z =? 8239) || (z =? 8287) || (z =? 12288))%Z.

Definition space_out (c : char) : char := if unicode_space c then " " else c.

Section Paths.
Variable home_dir : option string.
Variable url_file_path : string -> option string.

(** [ResolvedPath::new] *)
Definition resolved_path (input cwd : string) : result string ToolError :=
  let normalized := collect (space_out <$> chars input) in
  let normalized := default normalized (strip_prefix "@" normalized) in
  let? normalized :=
    if String.eqb normalized "~" || starts_with "~/" normalized then
      let? home := ok_or home_dir (ToolExecution "path" "home directory is unavailable") in
      Ok (if String.eqb normalized "~" then home else path_join home (trim_tildes normalized))
    else if starts_with "file://" normalized then
      ok_or (url_file_path normalized) (ToolExecution "path" ("invalid file URL: " +:+ input))
    else Ok normalized in
  Ok (if is_absolute normalized then normalized else path_join cwd normalized).

Variable nfd : string -> string.
(** [tokio::fs::try_exists] *)
Variable try_exists : string -> result bool string.

Definition narrow_space : char := String "226" (String "128" (String "175" "")).
Definition right_quote : char := String "226" (String "128" (String "153" "")).

(** [str::replace] of a pattern that is not empty. *)
Fixpoint replace_from (p new s : string) (skip : nat) : string :=
  match s with
  | EmptyString => EmptyString
  | String a r =>
      match skip with
      | S skip => replace_from p new r skip
      | 0 =>
          if starts_with p s then new +:+ replace_from p new r (String.length p - 1)
          else String a (replace_from p new r 0)
      end
  end.
Definition replace (p new s : string) : string := replace_from p new s 0.

(** The names a screenshot may have on macOS. *)
Definition read_candidates (raw : string) : list string :=
  ((fun marker =>
      replace marker (narrow_space +:+ default marker (strip_prefix " " marker)) raw)
     <$> filter (fun marker => str_contains marker raw = true) [" AM."; " PM."; " am."; " pm."])
  ++ [nfd raw; replace single_quote right_quote raw; replace single_quote right_quote (nfd raw)].

(** [ResolvedPath::for_read] *)
Definition path_for_read (input cwd : string) : result string ToolError :=
  let? resolved := resolved_path input cwd in
  match try_exists resolved with
  | Err error => Err (ToolExecution "read" error)
  | Ok true => Ok resolved
  | Ok false =>
      let found candidate :=
        negb (String.eqb candidate resolved)
        && match try_exists candidate with Ok b => b | Err _ => false end in
      Ok (default resolved (head (filter (fun c => found c = true) (read_candidates resolved))))
  end.

(** A path that is absolute comes out absolute, so no tool works on a file
    relative to the process's own directory. *)
Lemma resolved_path_absolute input cwd p :
  is_absolute cwd = true -> resolved_path input cwd = Ok p -> is_absolute p = true.
Proof.
  intros Hc. unfold resolved_path.
  match goal with |- context [result_bind ?r _] => destruct r as [n|]; [|done] end. cbn [result_bind]. intros [= <-].
  destruct (is_absolute n) eqn:Hn; [done|]. unfold path_join. rewrite Hn.
  unfold is_absolute in *. apply starts_with_spec in Hc as [after ->].
  destruct (_ || _); apply starts_with_spec; rewrite <- !string_app_assoc; by eexists.
Qed.

End Paths.

(** The file system as a reader of resources sees it, and [Path]'s parts.

    The files do not change while resources are discovered.  A path is its text;
    its components leave out empty ones and [.], as [Path::components] does. *)

Open Scope string_scope.
Open Scope rust_scope.

Inductive FileKind : Type := RegularFile | DirectoryFile | OtherFile.
#[export] Instance file_kind_eq_dec : EqDecision FileKind.
Proof. solve_decision. Defined.

Class ReadFs := {
  (** [fs::metadata]: links are followed. *)
  metadata : string -> result FileKind IoError;
  (** [fs::symlink_metadata]: [None] for a link. *)
  symlink_metadata : string -> result (option FileKind) IoError;
  (** [fs::read_to_string] *)
  read_to_string : string -> result string IoError;
  (** [fs::canonicalize] *)
  canonicalize : string -> result string IoError;
  (** [fs::read_dir]: the paths of its entries. *)
  read_dir : string -> result (list (result string IoError)) IoError
}.

Definition not_found (e : IoError) : bool :=
  match io_kind e with NotFound => true | _ => false end.

(** [Path::is_file], [Path::exists] *)
Definition is_file `{ReadFs} (p : string) : bool :=
  match metadata p with Ok k => bool_decide (k = RegularFile) | Err _ => false end.
Definition path_exists `{ReadFs} (p : string) : bool := is_ok (metadata p).

(** [Path::components] without the root *)
Definition components (p : string) : list string :=
  filter (fun c => c <> "" /\ c <> ".") (split_char "/" p).
(** The path of components. *)
Definition path_of (root : bool) (l : list string) : string :=
  (if root then "/" else "") +:+ join "/" l.

(** [Path::parent] *)
Definition parent_of (p : string) : option string :=
  match components p with
  | [] => None
  | l => Some (path_of (is_absolute p) (removelast l))
  end.

(** [Path::ancestors]: the path itself, then each parent. *)
Definition ancestors (p : string) : list string :=
  p :: reverse ((fun n => path_of (is_absolute p) (take n (components p)))
                  <$> seq 0 (length (components p))).

(** [Path::file_name], [file_stem], [extension] *)
Definition file_name (p : string) : option string :=
  match list.last (components p) with
  | Some name => if String.eqb name ".." then None else Some name
  | None => None
  end.
Fixpoint rsplit_dot (s : string) : option (string * string) :=
  match s with
  | EmptyString => None
  | String a r =>
      match rsplit_dot r with
      | Some (before, after) => Some (String a before, after)
      | None => if Ascii.eqb a "." then Some ("", r) else None
      end
  end.
Definition file_stem (p : string) : option string :=
  name ← file_name p;
  Some match rsplit_dot name with
       | Some (before, _) => if String.eqb before "" then name else before
       | None => name
       end.
Definition extension (p : string) : option string :=
  name ← file_name p;
  match rsplit_dot name with
  | Some (before, after) => if String.eqb before "" then None else Some after
  | None => None
  end.
Definition has_md_extension (p : string) : bool := bool_decide (extension p = Some "md").

(** [Path::starts_with] *)
Definition path_starts_with (p base : string) : bool :=
  Bool.eqb (is_absolute p) (is_absolute base)
  && bool_decide (take (length (components base)) (components p) = components base).

(** Equality of [Path]s. *)
Definition same_components (p q : string) : bool :=
  Bool.eqb (is_absolute p) (is_absolute q) && bool_decide (components p = components q).
