(* ===== verification/Template.v ===== *)
(** Prompt templates as text: Markdown documents with frontmatter, the arguments
    of a slash command, and the placeholders of a template.
    [crates/prompt/src/template/document.rs], [expansion.rs], and the parser of
    [crates/protocol/src/slash_command.rs]

    [str::find] gives byte offsets, so slices at what it finds are at character
    boundaries. *)

From S2P Require Import Prelude Lines Chars Text Message Paths.
Open Scope string_scope.

(** [s.split_once(p)] *)
Definition split_once (p s : string) : option (string * string) :=
  i ← str_find p s; Some (str_take i s, str_drop (i + String.length p) s).

(** [str::parse::<usize>] on a 64-bit machine *)
Definition parse_usize (s : string) : option Z :=
  parse_decimal_u64 (default s (Chars.strip_prefix "+" s)).

(** ** Markdown documents *)

Record MarkdownDocument : Type := { frontmatter : option string; body : string }.

(** [MarkdownDocument::parse] *)
Definition markdown_parse (content : string) : MarkdownDocument :=
  let normalized := to_lf content in
  let plain := {| frontmatter := None; body := normalized |} in
  match Chars.strip_prefix ("---" +:+ nl) normalized with
  | None => plain
  | Some after_delimiter =>
      match str_find (nl +:+ "---") after_delimiter with
      | None => plain
      | Some closing =>
          let after := str_drop closing after_delimiter in
          {| frontmatter := Some (str_take closing after_delimiter);
             body := trim (default after (Chars.strip_prefix (nl +:+ "---") after)) |}
      end
  end.

(** ** Arguments *)

Abbreviation CommandArguments := (list string) (only parsing).

(** The loop of [From<&str> for CommandArguments]. *)
Fixpoint parse_arguments (l : list char) (quote : option char) (current : list char)
  : CommandArguments :=
  let flush rest := match current with [] => rest | _ => collect current :: rest end in
  match l with
  | [] => flush []
  | c :: r =>
      match quote with
      | Some delimiter =>
          if String.eqb c delimiter then parse_arguments r None current
          else parse_arguments r quote (current ++ [c])
      | None =>
          if among [single_quote; double_quote] c then parse_arguments r (Some c) current
          else if is_whitespace c then flush (parse_arguments r None [])
          else parse_arguments r None (current ++ [c])
      end
  end.
Definition command_arguments (value : string) : CommandArguments :=
  parse_arguments (chars value) None [].

(** ** Placeholders *)

(** [position.checked_sub(1)] and the argument there. *)
Definition argument_at (args : CommandArguments) (position : option Z) : string :=
  match position with
  | Some p => if (p <=? 0)%Z then "" else default "" (args !! Z.to_nat (p - 1))
  | None => ""
  end.

(** The targets of a placeholder with a default. *)
Definition is_target (target : string) : bool :=
  (String.eqb target "@" || String.eqb target "ARGUMENTS" || forallb is_ascii_digit (chars target))
  && negb (String.eqb target "").

(** The arguments [${@:start:length}] selects. *)
Definition argument_slice (args : CommandArguments) (start : Z) (length_ : option Z)
  : CommandArguments :=
  let values := drop (Z.to_nat (start - 1)) args in
  match length_ with Some n => take (Z.to_nat n) values | None => values end.

(** What a slice expression replaces: [None] when [placeholder_replacement]
    returns none at once. *)
Definition slice_replacement (args : CommandArguments) (closing : nat) (slice : string)
  : option (nat * string) :=
  match split_char ":" slice with
  | [start] =>
      start ← parse_usize start; Some (closing + 3, join " " (argument_slice args start None))
  | [start; length_] =>
      start ← parse_usize start; n ← parse_usize length_;
      Some (closing + 3, join " " (argument_slice args start (Some n)))
  | _ => None
  end.

(** The placeholders [$ARGUMENTS], [$@] and [$1]. *)
Definition short_replacement (args : CommandArguments) (candidate : string)
  : option (nat * string) :=
  if starts_with "$ARGUMENTS" candidate then Some (String.length "$ARGUMENTS", join " " args)
  else if starts_with "$@" candidate then Some (2, join " " args)
  else
    rest ← Chars.strip_prefix "$" candidate;
    let digits := collect (take_digits (chars rest)) in
    if String.eqb digits "" then None
    else Some (String.length digits + 1, argument_at args (parse_usize digits)).

(** [CommandArguments::placeholder_replacement] *)
Definition placeholder_replacement (args : CommandArguments) (candidate : string)
  : option (nat * string) :=
  match
    expression ← Chars.strip_prefix "${" candidate;
    closing ← str_find "}" expression;
    Some (closing, str_take closing expression)
  with
  | None => short_replacement args candidate
  | Some (closing, body) =>
      match split_once ":-" body with
      | Some (target, default_value) =>
          if is_target target then
            let value :=
              if among ["@"; "ARGUMENTS"] target then join " " args
              else argument_at args (parse_usize target) in
            Some (closing + 3, if String.eqb value "" then default_value else value)
          else
            match Chars.strip_prefix "@:" body with
            | Some slice => slice_replacement args closing slice
            | None => short_replacement args candidate
            end
      | None =>
          match Chars.strip_prefix "@:" body with
          | Some slice => slice_replacement args closing slice
          | None => short_replacement args candidate
          end
      end
  end.

(** [CommandArguments::expand]: every round moves the cursor on, so one more
    round than the text has bytes is enough. *)
Fixpoint expand_from (fuel : nat) (args : CommandArguments) (remaining : string) : string :=
  match fuel with
  | 0 => ""
  | S fuel =>
      match str_find "$" remaining with
      | None => remaining
      | Some dollar =>
          let candidate := str_drop dollar remaining in
          str_take dollar remaining
          +:+ match placeholder_replacement args candidate with
              | Some (consumed, replacement) =>
                  replacement +:+ expand_from fuel args (str_drop consumed candidate)
              | None => "$" +:+ expand_from fuel args (str_drop 1 candidate)
              end
      end
  end.
Definition expand (args : CommandArguments) (template : string) : string :=
  expand_from (S (String.length template)) args template.

(** ** Invocations *)

Record TemplateInvocation : Type := { template_name : string; template_arguments : CommandArguments }.

(** The offset of the first white space. *)
Fixpoint find_whitespace (l : list char) (offset : nat) : option nat :=
  match l with
  | [] => None
  | c :: r => if is_whitespace c then Some offset else find_whitespace r (offset + String.length c)
  end.

(** [TryFrom<&str> for TemplateInvocation] *)
Definition template_invocation (value : string) : option TemplateInvocation :=
  command ← Chars.strip_prefix "/" value;
  if String.eqb command "" then None
  else
    let '(name, arguments) :=
      match find_whitespace (chars command) 0 with
      | Some i => (str_take i command, str_drop i command)
      | None => (command, "")
      end in
    if String.eqb name "" then None
    else Some {| template_name := name; template_arguments := command_arguments arguments |}.

Inductive SlashCommandParseError : Type := NotCommand | EmptyName.

(** [TryFrom<&str> for SlashCommandInvocation] *)
Definition slash_invocation (input : string) : result SlashCommandInvocation SlashCommandParseError :=
  match Chars.strip_prefix "/" input with
  | None => Err NotCommand
  | Some command =>
      let '(name, arguments) := default (command, "") (split_once " " command) in
      if String.eqb name "" then Err EmptyName
      else Ok {| original := input; invocation_name := name; invocation_arguments := arguments |}
  end.

(** The prompt templates of a session: discovery in the order of its sources,
    and the expansion of a command.  [crates/prompt/src/template/catalog.rs],
    [template/mod.rs], with the data of [crates/protocol/src/prompt] *)

Open Scope string_scope.
Open Scope rust_scope.

Inductive PromptSourceKind : Type := SystemSource | AppendSystemSource | InstructionSource | TemplateSource.
Inductive PromptSourceScope : Type := UserScope | ProjectScope | ConfigScope | ExtensionScope.
Record PromptSourceInfo : Type := {
  source_kind : PromptSourceKind;
  source_scope : PromptSourceScope;
  source_path : option string
}.
Record PromptCollision : Type := {
  collision_name : string;
  winner : PromptSourceInfo;
  loser : PromptSourceInfo
}.
Inductive PromptDiagnosticSeverity : Type := PromptWarning | PromptCollided.
Record PromptDiagnostic : Type := {
  severity : PromptDiagnosticSeverity;
  diagnostic_message : string;
  diagnostic_source : PromptSourceInfo;
  collision : option PromptCollision
}.

Inductive PromptError : Type :=
| ConfiguredResource (path reason : string)
| Frontmatter (message : string).

(** [PromptError]'s [Display] *)
Definition prompt_error_text (e : PromptError) : string :=
  match e with
  | ConfiguredResource path reason =>
      "configured Prompt resource '" +:+ path +:+ "' could not be loaded: " +:+ reason
  | Frontmatter message => "invalid Prompt frontmatter: " +:+ message
  end.

Inductive PromptTemplateRootRequirement : Type := Discovered | Required.
Record PromptTemplateRoot : Type := {
  root_path : string;
  root_scope : PromptSourceScope;
  requirement : PromptTemplateRootRequirement
}.

Record PromptTemplateInfo : Type := {
  info_name : string;
  info_description : string;
  argument_hint : option string;
  info_source : PromptSourceInfo
}.
Record PromptTemplate : Type := { template_info : PromptTemplateInfo; template_content : string }.

Record PromptTemplateMetadata : Type := { meta_description : string; meta_hint : option string }.

Record PromptTemplateCatalog : Type := {
  templates : list PromptTemplate;
  by_name : gmap string nat;
  diagnostics : list PromptDiagnostic
}.
Definition empty_catalog : PromptTemplateCatalog :=
  {| templates := []; by_name := ∅; diagnostics := [] |}.

Definition add_diagnostic (d : PromptDiagnostic) (c : PromptTemplateCatalog) : PromptTemplateCatalog :=
  {| templates := templates c; by_name := by_name c; diagnostics := diagnostics c ++ [d] |}.

Section Catalog.
Context `{ReadFs}.
(** The YAML parser on a template's frontmatter, with its error's text. *)
Variable yaml_metadata : string -> result PromptTemplateMetadata string.

(** [MarkdownDocument::metadata] *)
Definition document_metadata {T} (yaml : string -> result T string) (d : MarkdownDocument)
  : result T PromptError :=
  map_err Frontmatter (yaml (default "{}" (frontmatter d))).

Definition template_source (scope : PromptSourceScope) (path : string) : PromptSourceInfo :=
  {| source_kind := TemplateSource; source_scope := scope; source_path := Some path |}.

(** [PromptTemplateCatalog::push_warning] *)
Definition push_warning (path : string) (root : PromptTemplateRoot) (message : string)
  (c : PromptTemplateCatalog) : PromptTemplateCatalog :=
  add_diagnostic {| severity := PromptWarning; diagnostic_message := message;
                    diagnostic_source := template_source (root_scope root) path;
                    collision := None |} c.

(** [PromptTemplateCatalog::handle_root_error] *)
Definition handle_root_error (root : PromptTemplateRoot) (reason : string)
  (c : PromptTemplateCatalog) : result PromptTemplateCatalog PromptError :=
  match requirement root with
  | Required => Err (ConfiguredResource (root_path root) reason)
  | Discovered =>
      Ok (push_warning (root_path root) root
            ("failed to discover Prompt Template root: " +:+ reason) c)
  end.

(** The description a template without one gets: its first line with text. *)
Definition first_line_description (body : string) : string :=
  match head (filter (fun l => trim l <> "") (lines body)) with
  | Some line =>
      collect (take 60 (chars line))
      +:+ (if Nat.ltb 60 (length (chars line)) then "..." else "")
  | None => ""
  end.

(** [PromptTemplateCatalog::load_file] *)
Definition load_file (path : string) (root : PromptTemplateRoot) (c : PromptTemplateCatalog)
  : PromptTemplateCatalog :=
  match read_to_string path with
  | Err error => push_warning path root ("failed to read Prompt Template: " +:+ io_text error) c
  | Ok content =>
      let document := markdown_parse content in
      match document_metadata yaml_metadata document with
      | Err error => push_warning path root (prompt_error_text error) c
      | Ok metadata =>
          match file_stem path with
          | None => push_warning path root "Prompt Template filename is not valid UTF-8" c
          | Some name =>
              let source := template_source (root_scope root) path in
              match (index ← by_name c !! name; templates c !! index) with
              | Some first =>
                  add_diagnostic
                    {| severity := PromptCollided;
                       diagnostic_message :=
                         "Prompt Template '" +:+ name +:+ "' is shadowed by an earlier source";
                       diagnostic_source := source;
                       collision := Some {| collision_name := name;
                                            winner := info_source (template_info first);
                                            loser := source |} |} c
              | None =>
                  let description :=
                    if String.eqb (meta_description metadata) ""
                    then first_line_description (body document)
                    else meta_description metadata in
                  let hint := match meta_hint metadata with
                              | Some h => if String.eqb h "" then None else Some h
                              | None => None
                              end in
                  {| templates := templates c
                       ++ [{| template_info :=
                                {| info_name := name; info_description := description;
                                   argument_hint := hint; info_source := source |};
                              template_content := body document |}];
                     by_name := <[name := length (templates c)]> (by_name c);
                     diagnostics := diagnostics c |}
              end
          end
      end
  end.

(** One path of a directory. *)
Definition load_entry (root : PromptTemplateRoot) (c : PromptTemplateCatalog) (path : string)
  : PromptTemplateCatalog :=
  match symlink_metadata path with
  | Err error => push_warning path root ("failed to inspect Prompt Template: " +:+ io_text error) c
  | Ok kind =>
      let '(file, c) :=
        match kind with
        | Some k => (bool_decide (k = RegularFile), c)
        | None =>
            match metadata path with
            | Ok k => (bool_decide (k = RegularFile), c)
            | Err error =>
                (false, push_warning path root
                   ("failed to resolve Prompt Template symlink: " +:+ io_text error) c)
            end
        end in
      if file && has_md_extension path then load_file path root c else c
  end.

Definition name_before (p q : string) : bool :=
  match file_name p, file_name q with
  | None, Some _ => true
  | Some a, Some b => negb (String.leb b a)
  | _, None => false
  end.

(** The entries a directory lists, with a warning for each that cannot be read. *)
Fixpoint list_entries (root : PromptTemplateRoot) (l : list (result string IoError))
  (c : PromptTemplateCatalog) : list string * PromptTemplateCatalog :=
  match l with
  | [] => ([], c)
  | Ok path :: rest =>
      let '(paths, c) := list_entries root rest c in (path :: paths, c)
  | Err error :: rest =>
      list_entries root rest
        (push_warning (root_path root) root
           ("failed to read Prompt Template directory entry: " +:+ io_text error) c)
  end.

(** [PromptTemplateCatalog::load_root] *)
Definition load_root (root : PromptTemplateRoot) (c : PromptTemplateCatalog)
  : result PromptTemplateCatalog PromptError :=
  match metadata (root_path root) with
  | Err error =>
      match not_found error, requirement root with
      | true, Discovered => Ok c
      | _, _ => handle_root_error root (io_text error) c
      end
  | Ok RegularFile =>
      Ok (if has_md_extension (root_path root) then load_file (root_path root) root c else c)
  | Ok OtherFile =>
      handle_root_error root "path is neither a regular file nor a directory" c
  | Ok DirectoryFile =>
      match read_dir (root_path root) with
      | Err error => handle_root_error root (io_text error) c
      | Ok entries =>
          let '(paths, c) := list_entries root entries c in
          Ok (foldl (load_entry root) c (sort_by name_before paths))
      end
  end.

(** [PromptTemplateCatalog::discover] *)
Fixpoint load_roots (roots : list PromptTemplateRoot) (c : PromptTemplateCatalog)
  : result PromptTemplateCatalog PromptError :=
  match roots with
  | [] => Ok c
  | root :: rest => let? c := load_root root c in load_roots rest c
  end.
Definition discover (roots : list PromptTemplateRoot) : result PromptTemplateCatalog PromptError :=
  load_roots roots empty_catalog.

(** [PromptTemplateCatalog::expand] *)
Definition expand_command (c : PromptTemplateCatalog) (input : string) : string :=
  match template_invocation input with
  | None => input
  | Some invocation =>
      match (index ← by_name c !! Template.template_name invocation; templates c !! index) with
      | Some t => expand (template_arguments invocation) (template_content t)
      | None => input
      end
  end.
End Catalog.
