(* ===== verification/Prompts.v ===== *)
(** A session's prompt resources and the system prompt of a Turn.
    [crates/prompt/src/source.rs], [instruction.rs], [system.rs], [session.rs],
    [factory.rs] *)

From S2P Require Import Prelude Lines Chars Text Paths Message Template.
Open Scope string_scope.
Open Scope rust_scope.

Inductive PromptContentSource : Type := PathContent (path : string) | TextContent (text : string).

Record PromptPolicy : Type := {
  load_project_instructions : bool;
  load_templates : bool;
  system_prompt : option PromptContentSource;
  append_system_prompts : list PromptContentSource;
  template_paths : list string
}.

Record ProjectInstruction : Type := {
  instruction_path : string;
  instruction_content : string;
  instruction_source : PromptSourceInfo
}.

Record PromptResourceRequest : Type := {
  request_cwd : string;
  project_resources_allowed : bool;
  extension_prompt_paths : list string
}.

Section Prompts.
Context `{ReadFs}.

(** A computation that may add diagnostics. *)
Abbreviation Diagnosed A := (A * list PromptDiagnostic)%type.

Definition warning (kind : PromptSourceKind) (path : string) (scope : PromptSourceScope)
  (message : string) : PromptDiagnostic :=
  {| severity := PromptWarning; diagnostic_message := message;
     diagnostic_source := {| source_kind := kind; source_scope := scope; source_path := Some path |};
     collision := None |}.

(** ** System prompts: [source.rs] *)

Definition resolve_path (cwd path : string) : string :=
  if is_absolute path then path else path_join cwd path.

(** [PromptContentSource::read_from] *)
Definition read_from (s : PromptContentSource) (cwd : string) : result string PromptError :=
  match s with
  | TextContent content => Ok content
  | PathContent configured =>
      let path := resolve_path cwd configured in
      let failed e := ConfiguredResource path (io_text e) in
      let? kind := map_err failed (metadata path) in
      if negb (bool_decide (kind = RegularFile))
      then Err (ConfiguredResource path "path is not a regular file")
      else map_err failed (read_to_string path)
  end.

Fixpoint read_all (l : list PromptContentSource) (cwd : string) : result (list string) PromptError :=
  match l with
  | [] => Ok []
  | s :: rest => let? x := read_from s cwd in let? xs := read_all rest cwd in Ok (x :: xs)
  end.

(** The loop of [first_automatic]. *)
Fixpoint first_readable (kind : PromptSourceKind) (l : list (PromptSourceScope * string))
  (ds : list PromptDiagnostic) : Diagnosed (option string) :=
  match l with
  | [] => (None, ds)
  | (scope, path) :: rest =>
      match read_to_string path with
      | Ok content => (Some content, ds)
      | Err e =>
          first_readable kind rest
            (if not_found e then ds
             else ds ++ [warning kind path scope
                           ("failed to read automatic Prompt resource '" +:+ path +:+ "': " +:+ io_text e)])
      end
  end.

(** [PromptSourceDiscovery::first_automatic] *)
Definition first_automatic (global_root cwd : string) (allowed : bool) (kind : PromptSourceKind)
  (filename : string) (ds : list PromptDiagnostic) : Diagnosed (option string) :=
  first_readable kind
    ((if allowed then [(ProjectScope, path_join (path_join cwd ".pi") filename)] else [])
     ++ [(UserScope, path_join global_root filename)]) ds.

Record DiscoveredPromptSources : Type := {
  custom_prompt : option string;
  append_system_prompt : option string;
  source_diagnostics : list PromptDiagnostic
}.

(** [PromptSourceDiscovery::discover] *)
Definition discover_sources (global_root cwd : string) (allowed : bool) (policy : PromptPolicy)
  : result DiscoveredPromptSources PromptError :=
  let? (custom, ds) :=
    match system_prompt policy with
    | Some source => let? content := read_from source cwd in Ok (Some content, [])
    | None => Ok (first_automatic global_root cwd allowed SystemSource "SYSTEM.md" [])
    end in
  let? (append, ds) :=
    match append_system_prompts policy with
    | [] => Ok (first_automatic global_root cwd allowed AppendSystemSource "APPEND_SYSTEM.md" ds)
    | sources => let? content := read_all sources cwd in Ok (Some (join (nl +:+ nl) content), ds)
    end in
  Ok {| custom_prompt := custom; append_system_prompt := append; source_diagnostics := ds |}.

(** ** Instructions: [instruction.rs] *)

Definition INSTRUCTION_CANDIDATES : list string :=
  ["AGENTS.override.md"; "AGENTS.md"; "AGENTS.MD"; "CLAUDE.md"; "CLAUDE.MD"].

Definition instruction_warning := warning InstructionSource.

(** [InstructionDiscovery::load_from_directory] *)
Fixpoint load_candidates (directory : string) (scope : PromptSourceScope) (names : list string)
  (ds : list PromptDiagnostic) : Diagnosed (option ProjectInstruction) :=
  match names with
  | [] => (None, ds)
  | name :: rest =>
      let path := path_join directory name in
      match metadata path with
      | Err e =>
          load_candidates directory scope rest
            (if not_found e then ds
             else ds ++ [instruction_warning path scope
                           ("failed to inspect instruction file: " +:+ io_text e)])
      | Ok kind =>
          if negb (bool_decide (kind = RegularFile)) then load_candidates directory scope rest ds
          else
            match canonicalize path with
            | Err e =>
                load_candidates directory scope rest
                  (ds ++ [instruction_warning path scope
                            ("failed to normalize instruction file: " +:+ io_text e)])
            | Ok canonical =>
                match read_to_string canonical with
                | Ok content =>
                    (Some {| instruction_path := canonical; instruction_content := content;
                             instruction_source :=
                               {| source_kind := InstructionSource; source_scope := scope;
                                  source_path := Some canonical |} |}, ds)
                | Err e =>
                    load_candidates directory scope rest
                      (ds ++ [instruction_warning canonical scope
                                ("failed to read instruction file: " +:+ io_text e)])
                end
            end
      end
  end.
Definition load_from_directory (directory : string) (scope : PromptSourceScope)
  (ds : list PromptDiagnostic) : Diagnosed (option ProjectInstruction) :=
  load_candidates directory scope INSTRUCTION_CANDIDATES ds.

Definition result_ok {A E} (r : result A E) : option A :=
  match r with Ok a => Some a | Err _ => None end.

(** The git directory a worktree's [.git] file names, or its common directory. *)
Definition linked_git_directory (ancestor dot_git : string) : option string :=
  declaration ← result_ok (read_to_string dot_git);
  named ← Chars.strip_prefix "gitdir: " (trim declaration);
  git_directory ← result_ok (canonicalize (resolve_path ancestor named));
  if negb (is_file (path_join git_directory "HEAD")) then None
  else
    let common_file := path_join git_directory "commondir" in
    if is_file common_file then
      relative ← result_ok (read_to_string common_file);
      result_ok (canonicalize (path_join git_directory (trim relative)))
    else Some git_directory.

(** The nearest repository: its root and its common git directory.  [None] when
    the function returns at once. *)
Fixpoint find_repository (l : list string) : option (option (string * option string)) :=
  match l with
  | [] => Some None
  | ancestor :: rest =>
      let dot_git := path_join ancestor ".git" in
      match metadata dot_git with
      | Ok DirectoryFile => Some (Some (ancestor, result_ok (canonicalize dot_git)))
      | Ok RegularFile =>
          common ← linked_git_directory ancestor dot_git; Some (Some (ancestor, Some common))
      | _ => find_repository rest
      end
  end.

(** [InstructionDiscovery::shadowed_instruction_path] *)
Definition shadowed_instruction_path (cwd : string) : option string :=
  found ← find_repository (ancestors cwd);
  '(root, common) ← found;
  repository_root ← result_ok (canonicalize root);
  common_git_directory ← common;
  main_root ← parent_of common_git_directory;
  if same_components repository_root main_root || negb (path_starts_with repository_root main_root)
  then None
  else
    git ← result_ok (canonicalize (path_join main_root ".git"));
    if negb (same_components git common_git_directory) then None
    else
      name ← head (filter (fun n => is_file (path_join repository_root n) = true) INSTRUCTION_CANDIDATES);
      result_ok (canonicalize (path_join main_root name)).

(** The loop over the directories from the root down. *)
Fixpoint load_ancestors (shadowed : option string) (l : list string) (seen : gset string)
  (found : list ProjectInstruction) (ds : list PromptDiagnostic)
  : Diagnosed (list ProjectInstruction) :=
  match l with
  | [] => (found, ds)
  | ancestor :: rest =>
      let '(loaded, ds) := load_from_directory ancestor ProjectScope ds in
      match loaded with
      | None => load_ancestors shadowed rest seen found ds
      | Some i =>
          if bool_decide (shadowed = Some (instruction_path i)) then
            load_ancestors shadowed rest seen found ds
          else if bool_decide (instruction_path i ∈ seen) then
            load_ancestors shadowed rest seen found ds
          else load_ancestors shadowed rest (seen ∪ {[ instruction_path i ]}) (found ++ [i]) ds
      end
  end.

(** [InstructionDiscovery::discover] *)
Definition discover_instructions (global_root cwd : string) (enabled : bool)
  : result (Diagnosed (list ProjectInstruction)) PromptError :=
  let '(global, ds) := load_from_directory global_root UserScope [] in
  let found := option_list global in
  if negb enabled then Ok (found, ds)
  else
    let? cwd := map_err (fun e => ConfiguredResource cwd (io_text e)) (canonicalize cwd) in
    Ok (load_ancestors (shadowed_instruction_path cwd) (reverse (ancestors cwd))
          (list_to_set (instruction_path <$> found)) found ds).

End Prompts.
