(* ===== verification/Skills.v ===== *)
(** A session's skills: the ordered sources, discovery with its diagnostics, the
    selection rules, and the expansion of a skill command.
    [crates/skill/src/metadata.rs], [source.rs], [discovery.rs], [factory.rs],
    [catalog.rs], with the data of [crates/protocol/src/skill.rs]

    The walk over a directory is the [ignore] crate's: [SkillWalk] gives its
    entries for a depth limit and the filter the code passes. *)

From S2P Require Import Prelude Lines Chars Text Paths Message Template Prompts.
Open Scope string_scope.
Open Scope rust_scope.

Inductive SkillSourceKind : Type := KindConfigured | KindPi | KindAgents | KindExtension.
Inductive SkillSourceScope : Type := ScopeConfigured | ScopeProject | ScopeUser | ScopeExtension.
Inductive SkillDiscoveryMode : Type := ModePi | ModeAgents.
#[export] Instance skill_mode_eq_dec : EqDecision SkillDiscoveryMode.
Proof. solve_decision. Defined.

Record SkillSource : Type := {
  skill_kind : SkillSourceKind;
  skill_scope : SkillSourceScope;
  skill_root : string;
  origin_base_dir : string;
  discovery_mode : SkillDiscoveryMode
}.

Record SkillInfo : Type := {
  skill_name : string;
  skill_description : string;
  skill_path : string;
  reference_dir : string;
  skill_source : SkillSource;
  disable_model_invocation : bool
}.

Record SkillSelectionRule : Type := {
  rule_path : option string;
  rule_name : option string;
  rule_enabled : bool
}.

Inductive SkillDiagnosticSeverity : Type := SkillWarning | SkillFailure.
Inductive SkillDiagnosticCode : Type :=
| PathNotFound | UnsupportedPath | FileInfoFailed | DirectoryReadFailed | FileReadFailed
| FrontmatterInvalid | MetadataInvalid | NameCollision | SelectionRuleInvalid.
Record SkillCollision : Type := {
  skill_collision_name : string;
  winner_path : string;
  loser_path : string
}.
Record SkillDiagnostic : Type := {
  skill_severity : SkillDiagnosticSeverity;
  code : SkillDiagnosticCode;
  skill_message : string;
  skill_diagnostic_path : option string;
  skill_diagnostic_source : option SkillSource;
  skill_collision : option SkillCollision
}.

Definition skill_diagnostic (s : SkillDiagnosticSeverity) (c : SkillDiagnosticCode) (message path : string)
  (source : SkillSource) : SkillDiagnostic :=
  {| skill_severity := s; code := c; skill_message := message; skill_diagnostic_path := Some path;
     skill_diagnostic_source := Some source; skill_collision := None |}.

(** ** Metadata *)

Definition MAX_SKILL_NAME_CHARS : nat := 64.
Definition MAX_SKILL_DESCRIPTION_CHARS : nat := 1024.

Record SkillFrontmatter : Type := {
  frontmatter_name : option string;
  frontmatter_description : option string;
  frontmatter_disable : bool
}.
Record SkillMetadata : Type := {
  metadata_name : string;
  metadata_description : string;
  metadata_disable : bool
}.

(** [SkillMetadata::valid_name] *)
Fixpoint bytes_all (f : Z -> bool) (s : string) : bool :=
  match s with String a r => f (byte_of a) && bytes_all f r | EmptyString => true end.
Definition name_byte (z : Z) : bool := in_range z 97 122 || in_range z 48 57 || (z =? 45)%Z.
Definition valid_name (name : string) : bool :=
  negb (String.eqb name "") && Nat.leb (length (chars name)) MAX_SKILL_NAME_CHARS
  && negb (starts_with "-" name) && negb (ends_with_char "-" name)
  && negb (str_contains "--" name) && bytes_all name_byte name.

Definition not_blank (s : string) : bool := negb (String.eqb (trim s) "").
Definition keep_if {A} (f : A -> bool) (o : option A) : option A :=
  match o with Some a => if f a then Some a else None | None => None end.

Section Skills.
Context `{ReadFs}.
Variable yaml_frontmatter : string -> result SkillFrontmatter string.

(** [SkillMetadata::metadata_error] *)
Definition metadata_error (path : string) (source : SkillSource) (message : string) : SkillDiagnostic :=
  skill_diagnostic SkillWarning MetadataInvalid message path source.

(** [SkillMetadata::parse] *)
Definition metadata_parse (d : MarkdownDocument) (path : string) (source : SkillSource)
  : result (SkillMetadata * list SkillDiagnostic) SkillDiagnostic :=
  match frontmatter d with
  | None =>
      Err (skill_diagnostic SkillWarning FrontmatterInvalid
             ("Skill frontmatter is missing or incomplete: " +:+ path) path source)
  | Some _ =>
      let? f := map_err (fun e => skill_diagnostic SkillWarning FrontmatterInvalid
                           ("invalid Skill frontmatter '" +:+ path +:+ "': " +:+ prompt_error_text e)
                           path source)
                  (document_metadata yaml_frontmatter d) in
      let? name :=
        ok_or match keep_if not_blank (frontmatter_name f) with
              | Some name => Some name
              | None => p ← parent_of path; file_name p
              end (metadata_error path source "missing Skill name") in
      let? description :=
        ok_or (keep_if not_blank (frontmatter_description f))
          (metadata_error path source "missing Skill description") in
      let ds :=
        ((if valid_name name then []
          else [metadata_error path source
                  ("Skill name '" +:+ name
                   +:+ "' must contain at most 64 lowercase letters, digits, or non-consecutive interior hyphens")])
         ++ (if Nat.ltb MAX_SKILL_DESCRIPTION_CHARS (length (chars description))
             then [metadata_error path source "Skill description exceeds 1024 characters"] else []))%list in
      Ok ({| metadata_name := name; metadata_description := description;
             metadata_disable := frontmatter_disable f |}, ds)
  end.

(** ** Sources *)

Record SkillRoot : Type := { root_info : SkillSource; root_required : bool }.

(** [SkillPathResolver::resolve] *)
Definition skill_resolve (cwd user_home path : string) : string :=
  let expanded :=
    if negb (is_absolute path) && bool_decide (head (components path) = Some "~")
    then match tail (components path) with
         | [] => user_home
         | rest => path_join user_home (join "/" rest)
         end
    else path in
  resolve_path cwd expanded.

(** [SkillSourcePlan::same_path] *)
Definition same_path (left right : string) : bool :=
  match canonicalize left, canonicalize right with
  | Ok l, Ok r => same_components l r
  | _, _ => same_components left right
  end.

(** [SkillSourcePlan::ancestor_agents_roots] *)
Fixpoint agents_roots_until (git_root : option string) (l : list string) : list string :=
  match l with
  | [] => []
  | directory :: rest =>
      path_join directory ".agents/skills"
      :: match git_root with
         | Some root => if same_components root directory then [] else agents_roots_until git_root rest
         | None => agents_roots_until git_root rest
         end
  end.
Definition ancestor_agents_roots (cwd : string) : list string :=
  agents_roots_until (head (filter (fun d => path_exists (path_join d ".git") = true) (ancestors cwd)))
    (ancestors cwd).

Record SkillSourcePlan : Type := {
  plan_cwd : string;
  plan_global_root : string;
  plan_user_home : string;
  plan_configured_paths : list string;
  plan_project_allowed : bool;
  plan_extension_paths : list string
}.

Definition skill_root_of (kind : SkillSourceKind) (scope : SkillSourceScope) (mode : SkillDiscoveryMode)
  (required : bool) (base root : string) : SkillRoot :=
  {| root_info := {| skill_kind := kind; skill_scope := scope; skill_root := root;
                     origin_base_dir := base; discovery_mode := mode |};
     root_required := required |}.

(** [SkillSourcePlan::into_sources] *)
Definition into_sources (p : SkillSourcePlan) : result (list SkillRoot) IoError :=
  let? cwd := canonicalize (plan_cwd p) in
  let resolve := skill_resolve cwd (plan_user_home p) in
  let home_agents := path_join (plan_user_home p) ".agents/skills" in
  let configured :=
    (fun path => skill_root_of KindConfigured ScopeConfigured ModePi true cwd (resolve path))
      <$> plan_configured_paths p in
  let project :=
    if plan_project_allowed p then
      skill_root_of KindPi ScopeProject ModePi false (path_join cwd ".pi") (path_join cwd ".pi/skills")
      :: ((fun root => skill_root_of KindAgents ScopeProject ModeAgents false
                         (default root (parent_of root)) root)
            <$> filter (fun root => same_path root home_agents = false) (ancestor_agents_roots cwd))
    else [] in
  let user :=
    [skill_root_of KindPi ScopeUser ModePi false (plan_global_root p)
       (path_join (plan_global_root p) "skills");
     skill_root_of KindAgents ScopeUser ModeAgents false
       (path_join (plan_user_home p) ".agents") home_agents] in
  let extensions :=
    (fun path => skill_root_of KindExtension ScopeExtension ModePi true cwd (resolve path))
      <$> plan_extension_paths p in
  Ok (configured ++ project ++ user ++ extensions)%list.

(** ** Discovery *)

Record WalkEntry : Type := {
  entry_path : string;
  entry_depth : nat;
  entry_kind : option FileKind
}.
Class SkillWalk := {
  walk : string -> option nat -> (WalkEntry -> bool) -> list (result WalkEntry IoError)
}.
Context `{SkillWalk}.

Record SkillDiscovery : Type := {
  skills : gmap string SkillInfo;
  real_paths : gset string;
  skill_diagnostics : list SkillDiagnostic
}.
Definition discovery_default : SkillDiscovery :=
  {| skills := ∅; real_paths := ∅; skill_diagnostics := [] |}.
Definition report (ds : list SkillDiagnostic) (s : SkillDiscovery) : SkillDiscovery :=
  {| skills := skills s; real_paths := real_paths s; skill_diagnostics := skill_diagnostics s ++ ds |}.

(** [SkillDiscovery::unsupported_path] *)
Definition unsupported_path (source : SkillRoot) (s : SkillDiscovery) : SkillDiscovery :=
  report [skill_diagnostic (if root_required source then SkillFailure else SkillWarning) UnsupportedPath
            ("Skill path is not a Markdown file or directory: " +:+ skill_root (root_info source))
            (skill_root (root_info source)) (root_info source)] s.

(** [SkillDiscovery::insert] *)
Definition insert_skill (path : string) (source : SkillRoot) (s : SkillDiscovery) : SkillDiscovery :=
  match canonicalize path with
  | Err e =>
      report [skill_diagnostic SkillWarning FileInfoFailed
                ("failed to resolve Skill file '" +:+ path +:+ "': " +:+ io_text e) path (root_info source)] s
  | Ok canonical =>
      if bool_decide (canonical ∈ real_paths s) then s
      else
        match read_to_string canonical with
        | Err e =>
            report [skill_diagnostic SkillWarning FileReadFailed
                      ("failed to read Skill file '" +:+ canonical +:+ "': " +:+ io_text e)
                      canonical (root_info source)] s
        | Ok content =>
            match metadata_parse (markdown_parse content) canonical (root_info source) with
            | Err d => report [d] s
            | Ok (m, ds) =>
                let s := report ds s in
                match skills s !! metadata_name m with
                | Some first =>
                    report [{| skill_severity := SkillWarning; code := NameCollision;
                               skill_message :=
                                 "Skill name '" +:+ metadata_name m +:+ "' collision: keeping '"
                                 +:+ skill_path first +:+ "' and ignoring '" +:+ canonical +:+ "'";
                               skill_diagnostic_path := Some canonical;
                               skill_diagnostic_source := Some (root_info source);
                               skill_collision :=
                                 Some {| skill_collision_name := metadata_name m;
                                         winner_path := skill_path first;
                                         loser_path := canonical |} |}] s
                | None =>
                    {| skills :=
                         <[metadata_name m :=
                             {| skill_name := metadata_name m; skill_description := metadata_description m;
                                skill_path := canonical;
                                reference_dir := default canonical (parent_of canonical);
                                skill_source := root_info source;
                                disable_model_invocation := metadata_disable m |}]> (skills s);
                       real_paths := real_paths s ∪ {[ canonical ]};
                       skill_diagnostics := skill_diagnostics s |}
                end
            end
        end
  end.

(** The filter of [SkillDiscovery::walk_builder]. *)
Definition walk_filter (e : WalkEntry) : bool :=
  if Nat.eqb (entry_depth e) 0 then true
  else
    let name := default "" (file_name (entry_path e)) in
    if String.eqb name "node_modules" || starts_with "." name then false
    else negb (bool_decide (entry_kind e = Some DirectoryFile)
               && match parent_of (entry_path e) with
                  | Some parent => is_file (path_join parent "SKILL.md")
                  | None => false
                  end).

Definition is_entry_file (e : WalkEntry) : bool := bool_decide (entry_kind e = Some RegularFile).
Definition is_skill_file (e : WalkEntry) : bool := bool_decide (file_name (entry_path e) = Some "SKILL.md").

(** The loop of [SkillDiscovery::visit_directory]. *)
Definition visit_entry (source : SkillRoot) (s : SkillDiscovery) (entry : result WalkEntry IoError)
  : SkillDiscovery :=
  match entry with
  | Err e =>
      report [skill_diagnostic SkillWarning DirectoryReadFailed
                ("failed to discover Skill under '" +:+ skill_root (root_info source) +:+ "': " +:+ io_text e)
                (skill_root (root_info source)) (root_info source)] s
  | Ok e =>
      if Nat.eqb (entry_depth e) 0 || negb (is_entry_file e) then s
      else
        let root_markdown :=
          bool_decide (discovery_mode (root_info source) = ModePi) && Nat.eqb (entry_depth e) 1
          && has_md_extension (entry_path e) in
        if is_skill_file e || root_markdown then insert_skill (entry_path e) source s else s
  end.

(** [SkillDiscovery::visit_directory] *)
Definition visit_directory (source : SkillRoot) (s : SkillDiscovery) : SkillDiscovery :=
  let root := skill_root (root_info source) in
  let root_skill :=
    head (filter (fun e => Nat.eqb (entry_depth e) 1 && is_entry_file e && is_skill_file e = true)
            (omap (fun e => match e with Ok x => Some x | Err _ => None end)
               (walk root (Some 1) walk_filter))) in
  match root_skill with
  | Some e => insert_skill (entry_path e) source s
  | None => foldl (visit_entry source) s (walk root None walk_filter)
  end.

(** [SkillDiscovery::visit] *)
Definition visit (s : SkillDiscovery) (source : SkillRoot) : SkillDiscovery :=
  let root := skill_root (root_info source) in
  match metadata root with
  | Err e =>
      if not_found e then
        if root_required source then
          report [skill_diagnostic SkillFailure PathNotFound ("Skill path does not exist: " +:+ root)
                    root (root_info source)] s
        else s
      else report [skill_diagnostic SkillWarning FileInfoFailed
                     ("failed to inspect Skill path '" +:+ root +:+ "': " +:+ io_text e)
                     root (root_info source)] s
  | Ok RegularFile =>
      if has_md_extension root then insert_skill root source s else unsupported_path source s
  | Ok OtherFile => unsupported_path source s
  | Ok DirectoryFile => visit_directory source s
  end.

(** ** The catalog *)

Record SkillCatalog : Type := {
  catalog_skills : gmap string SkillInfo;
  catalog_diagnostics : list SkillDiagnostic
}.

(** One rule of [FilesystemSkillFactory::create]. *)
Definition apply_rule (cwd user_home : string) (found : gmap string SkillInfo)
  (index : nat) (rule : SkillSelectionRule) (acc : gmap string bool * list SkillDiagnostic)
  : gmap string bool * list SkillDiagnostic :=
  let '(enabled, ds) := acc in
  match rule_path rule, rule_name rule with
  | Some path, None =>
      let selected := skill_resolve cwd user_home path in
      let selected := match canonicalize selected with Ok p => p | Err _ => selected end in
      (map_imap (fun name on =>
         match found !! name with
         | Some skill => Some (if same_components (skill_path skill) selected then rule_enabled rule else on)
         | None => Some on
         end) enabled, ds)
  | None, Some name =>
      (match enabled !! name with Some _ => <[name := rule_enabled rule]> enabled | None => enabled end, ds)
  | _, _ =>
      (enabled, (ds ++ [{| skill_severity := SkillWarning; code := SelectionRuleInvalid;
                           skill_message := "Skill rule " +:+ u64_to_string (Z.of_nat index)
                             +:+ " must configure exactly one of path or name";
                           skill_diagnostic_path := None; skill_diagnostic_source := None;
                           skill_collision := None |}])%list)
  end.
Fixpoint apply_rules (cwd user_home : string) (found : gmap string SkillInfo) (index : nat)
  (rules : list SkillSelectionRule) (acc : gmap string bool * list SkillDiagnostic)
  : gmap string bool * list SkillDiagnostic :=
  match rules with
  | [] => acc
  | rule :: rest =>
      apply_rules cwd user_home found (S index) rest (apply_rule cwd user_home found index rule acc)
  end.

Record FilesystemSkillFactory : Type := {
  factory_global_root : string;
  factory_user_home : string;
  factory_configured_paths : list string;
  factory_rules : list SkillSelectionRule
}.

(** [FilesystemSkillFactory::create]; [allowed] and [extensions] are the request's. *)
Definition create_skills (f : FilesystemSkillFactory) (request_cwd : string) (allowed : bool)
  (extensions : list string) : result SkillCatalog IoError :=
  let? cwd := canonicalize request_cwd in
  let? sources := into_sources
    {| plan_cwd := cwd; plan_global_root := factory_global_root f; plan_user_home := factory_user_home f;
       plan_configured_paths := factory_configured_paths f; plan_project_allowed := allowed;
       plan_extension_paths := extensions |} in
  let d := foldl visit discovery_default sources in
  let '(enabled, ds) :=
    apply_rules cwd (factory_user_home f) (skills d) 0 (factory_rules f)
      ((fun _ => true) <$> skills d, skill_diagnostics d) in
  Ok {| catalog_skills := filter (fun p => default true (enabled !! p.1) = true) (skills d);
        catalog_diagnostics := ds |}.

(** ** Commands *)

Inductive SkillCommandExpansion : Type :=
| NotSkillCommand
| Expanded (text : string)
| FailedSkill (original : string) (diagnostic : SkillDiagnostic).

(** [TryFrom<&str> for SkillInvocation]: name and arguments *)
Definition skill_invocation (value : string) : option (string * string) :=
  command ← Chars.strip_prefix "/skill:" value;
  let '(name, arguments) :=
    match split_once " " command with
    | Some (name, arguments) => (name, trim arguments)
    | None => (command, "")
    end in
  if String.eqb name "" then None else Some (name, arguments).

(** [escape_xml] *)
Definition escape_xml (value : string) : string :=
  Paths.replace "'" "&apos;"
    (Paths.replace double_quote "&quot;"
       (Paths.replace ">" "&gt;" (Paths.replace "<" "&lt;" (Paths.replace "&" "&amp;" value)))).

(** [SkillCatalog::expanded_content] *)
Definition expanded_content (skill : SkillInfo) : result string IoError :=
  let? content := read_to_string (skill_path skill) in
  Ok ("<skill name=" +:+ double_quote +:+ escape_xml (skill_name skill) +:+ double_quote
      +:+ " location=" +:+ double_quote +:+ escape_xml (skill_path skill) +:+ double_quote +:+ ">" +:+ nl
      +:+ "References are relative to " +:+ escape_xml (reference_dir skill) +:+ "." +:+ nl +:+ nl
      +:+ trim (body (markdown_parse content)) +:+ nl +:+ "</skill>").

(** [SkillCatalog::expand_command] *)
Definition expand_skill (c : SkillCatalog) (input : string) : SkillCommandExpansion :=
  match skill_invocation input with
  | None => NotSkillCommand
  | Some (name, arguments) =>
      match catalog_skills c !! name with
      | None => NotSkillCommand
      | Some skill =>
          match expanded_content skill with
          | Err e =>
              FailedSkill input
                (skill_diagnostic SkillWarning FileReadFailed
                   ("failed to read Skill file '" +:+ skill_path skill +:+ "': " +:+ io_text e)
                   (skill_path skill) (skill_source skill))
          | Ok text =>
              Expanded (if String.eqb arguments "" then text else text +:+ nl +:+ nl +:+ arguments)
          end
      end
  end.

Inductive SkillError : Type :=
| SkillIo (e : IoError)
| InvalidFrontmatter (path reason : string)
| SkillNotFound (name : string).

(** [SkillCatalog::descriptors]: in the order of their names *)
Definition descriptors (c : SkillCatalog) : list SkillInfo :=
  snd <$> sort_by (fun a b => negb (String.leb b.1 a.1)) (map_to_list (catalog_skills c)).

(** [SkillCatalog::invoke] *)
Definition invoke_skill (c : SkillCatalog) (name : string) : result string SkillError :=
  match catalog_skills c !! name with
  | None => Err (SkillNotFound name)
  | Some skill => map_err SkillIo (expanded_content skill)
  end.
End Skills.
