(* ===== verification/PromptSession.v ===== *)
(** The prompt snapshot a session is created with, the system prompt built from
    it for every Turn, and the expansion of a prompt's input.
    [crates/prompt/src/factory.rs], [session.rs], [system.rs], and
    [crates/kernel/src/runtime/run/input.rs] *)

From S2P Require Import Prelude Lines Chars Text Paths Scalar Message.
From S2P Require Import Template Prompts Skills.
Open Scope string_scope.
Open Scope rust_scope.

Record PromptSession : Type := {
  session_cwd : string;
  session_custom_prompt : option string;
  session_append_prompt : option string;
  instructions : list ProjectInstruction;
  session_templates : PromptTemplateCatalog;
  session_diagnostics : list PromptDiagnostic
}.

Record ToolPromptContribution : Type := { snippet : option string; guidelines : list string }.
Record SystemPromptTool : Type := { prompt_tool_name : string; contribution : ToolPromptContribution }.

Section PromptSession.
Context `{ReadFs}.
Variable yaml_metadata : string -> result PromptTemplateMetadata string.

Definition template_root (path : string) (scope : PromptSourceScope)
  (requirement : PromptTemplateRootRequirement) : PromptTemplateRoot :=
  {| root_path := path; root_scope := scope; requirement := requirement |}.

(** The roots of [FilesystemPromptFactory::create], in order. *)
Definition template_roots (global_root cwd : string) (policy : PromptPolicy)
  (request : PromptResourceRequest) : list PromptTemplateRoot :=
  ((if load_templates policy then
      template_root (path_join global_root "prompts") UserScope Discovered
      :: (if project_resources_allowed request
          then [template_root (path_join cwd ".pi/prompts") ProjectScope Discovered] else [])
    else [])
   ++ ((fun path => template_root (resolve_path cwd path) ConfigScope Required) <$> template_paths policy)
   ++ ((fun path => template_root (resolve_path cwd path) ExtensionScope Discovered)
         <$> extension_prompt_paths request))%list.

(** [FilesystemPromptFactory::create] *)
Definition create_prompts (global_root : string) (policy : PromptPolicy) (request : PromptResourceRequest)
  : result PromptSession PromptError :=
  let? cwd := map_err (fun e => ConfiguredResource (request_cwd request) (io_text e))
                (canonicalize (request_cwd request)) in
  let? sources := discover_sources global_root cwd (project_resources_allowed request) policy in
  let? (instructions, ds) :=
    discover_instructions global_root cwd
      (project_resources_allowed request && load_project_instructions policy) in
  let? templates := discover yaml_metadata (template_roots global_root cwd policy request) in
  Ok {| session_cwd := cwd; session_custom_prompt := custom_prompt sources;
        session_append_prompt := append_system_prompt sources; instructions := instructions;
        session_templates := templates;
        session_diagnostics := (source_diagnostics sources ++ ds ++ diagnostics templates)%list |}.
End PromptSession.

(** ** System prompts *)

(** [str::split_whitespace] *)
Fixpoint split_blank (l : list char) (current : list char) : list string :=
  let flush rest := match current with [] => rest | _ => collect current :: rest end in
  match l with
  | [] => flush []
  | c :: r => if is_whitespace c then flush (split_blank r []) else split_blank r (current ++ [c])%list
  end.
Definition split_whitespace (s : string) : list string := split_blank (chars s) [].

Definition NAME : string := "Clawcode".

(** [filter_map] over the tools with a snippet. *)
Definition visible_tool (t : SystemPromptTool) : option string :=
  text ← snippet (contribution t);
  let line := join " " (split_whitespace text) in
  if String.eqb line "" then None else Some ("- " +:+ prompt_tool_name t +:+ ": " +:+ line).

(** A guideline not seen before is kept. *)
Definition add_guideline (acc : list string) (g : string) : list string :=
  if bool_decide (g ∈ acc) then acc else (acc ++ [g])%list.
Definition add_tool_guideline (acc : list string) (g : string) : list string :=
  if String.eqb (trim g) "" then acc else add_guideline acc (trim g).

Definition has_tool (tools : list SystemPromptTool) (name : string) : bool :=
  existsb (fun t => String.eqb (prompt_tool_name t) name) tools.

(** The guidelines of [default_system_prompt]. *)
Definition prompt_guidelines (tools : list SystemPromptTool) : list string :=
  let fallback :=
    if has_tool tools "bash" && negb (has_tool tools "grep" || has_tool tools "find" || has_tool tools "ls")
    then ["Use bash for file operations like ls, rg, find"] else [] in
  foldl add_guideline
    (foldl add_tool_guideline fallback (tools ≫= fun t => guidelines (contribution t)))
    ["Be concise in your responses"; "Show file paths clearly when working with files"].

(** [PromptSession::default_system_prompt] *)
Definition default_system_prompt (tools : list SystemPromptTool) : string :=
  let visible := omap visible_tool tools in
  let tools_list := match visible with [] => "(none)" | _ => join nl visible end in
  "You are an expert coding assistant operating inside " +:+ NAME
  +:+ ", an agent harness. You help users by reading files, executing commands, editing code, and writing new files."
  +:+ nl +:+ nl +:+ "Available tools:" +:+ nl +:+ tools_list +:+ nl +:+ nl
  +:+ "In addition to the tools above, you may have access to other custom tools depending on the project."
  +:+ nl +:+ nl +:+ "Guidelines:" +:+ nl
  +:+ join nl ((fun g => "- " +:+ g) <$> prompt_guidelines tools).

Definition attribute (value : string) : string := double_quote +:+ value +:+ double_quote.

Definition instruction_text (i : ProjectInstruction) : string :=
  "<project_instructions path=" +:+ attribute (escape_xml (instruction_path i)) +:+ ">" +:+ nl
  +:+ instruction_content i +:+ nl +:+ "</project_instructions>" +:+ nl +:+ nl.

Definition skill_text (s : SkillInfo) : string :=
  "  <skill>" +:+ nl +:+ "    <name>" +:+ escape_xml (skill_name s) +:+ "</name>" +:+ nl
  +:+ "    <description>" +:+ escape_xml (skill_description s) +:+ "</description>" +:+ nl
  +:+ "    <location>" +:+ escape_xml (skill_path s) +:+ "</location>" +:+ nl +:+ "  </skill>" +:+ nl.

Definition SKILL_PREAMBLE : string :=
  nl +:+ nl +:+ "The following skills provide specialized instructions for specific tasks." +:+ nl
  +:+ "Use the read tool to load a skill's file when the task matches its description." +:+ nl
  +:+ "When a skill file references a relative path, resolve it against the skill directory (parent of SKILL.md / dirname of the path) and use that absolute path in tool commands."
  +:+ nl +:+ nl +:+ "<available_skills>" +:+ nl.

Definition invocable (s : SkillInfo) : bool := negb (disable_model_invocation s).

(** [cwd.to_string_lossy().replace('\\', "/")] *)
Fixpoint forward_slashes (s : string) : string :=
  match s with
  | String a r => String (if Ascii.eqb a "\" then "/" else a)%char (forward_slashes r)
  | EmptyString => EmptyString
  end.

(** [PromptSession::build_system_prompt]: the text *)
Definition build_system_prompt (p : PromptSession) (tools : list SystemPromptTool)
  (skills : list SkillInfo) (include_skill_instructions : bool) : string :=
  default (default_system_prompt tools) (session_custom_prompt p)
  +:+ match keep_if (fun s => negb (String.eqb s "")) (session_append_prompt p) with
      | Some append => nl +:+ nl +:+ append
      | None => ""
      end
  +:+ match instructions p with
      | [] => ""
      | l => nl +:+ nl +:+ "<project_context>" +:+ nl +:+ nl
             +:+ "Project-specific instructions and guidelines:" +:+ nl +:+ nl
             +:+ String.concat "" (instruction_text <$> l) +:+ "</project_context>" +:+ nl
      end
  +:+ (if has_tool tools "read" && include_skill_instructions && existsb invocable skills
       then SKILL_PREAMBLE
            +:+ String.concat "" (skill_text <$> filter (fun s => invocable s = true) skills)
            +:+ "</available_skills>"
       else "")
  +:+ nl +:+ "Current working directory: " +:+ forward_slashes (session_cwd p).

(** ** Input *)

(** [PromptInputExpansion] *)
Inductive PromptInputExpansion : Type :=
| TextInput (text : string) (expansion : option SlashCommandExpansion) (diagnostic : option SkillDiagnostic)
| BlockInput (blocks : list ContentBlock) (text_projection : string).

(** [PromptInputExpansion::from_blocks] *)
Definition from_blocks (blocks : list ContentBlock) : PromptInputExpansion :=
  BlockInput blocks (join (nl +:+ nl) (omap block_text blocks)).

(** [PromptInputExpansion::text], [diagnostic], [message_content] *)
Definition input_text (e : PromptInputExpansion) : string :=
  match e with TextInput text _ _ => text | BlockInput _ text => text end.
Definition input_diagnostic (e : PromptInputExpansion) : option SkillDiagnostic :=
  match e with TextInput _ _ d => d | BlockInput _ _ => None end.
Definition message_content_of {R : RigTypes} (e : PromptInputExpansion) : MessageContent R :=
  match e with
  | TextInput text (Some expansion) _ => ExpandedUser expansion
  | TextInput text None _ => User [Message.Text text]
  | BlockInput blocks _ => User blocks
  end.

Section Input.
Context `{ReadFs}.

Definition expanded_input (invocation : option SlashCommandInvocation) (source : SlashCommandSource)
  (text : string) : PromptInputExpansion :=
  TextInput text
    ((fun i => {| invocation := i; expansion_source := source; model_blocks := [Message.Text text] |})
       <$> invocation) None.

(** [Session::expand_prompt_input] *)
Definition expand_prompt_input (skills : option SkillCatalog) (p : PromptSession) (input : string)
  : PromptInputExpansion :=
  let invocation := match slash_invocation input with Ok i => Some i | Err _ => None end in
  let from_template :=
    let is_template :=
      match invocation with
      | Some i => existsb (fun t => String.eqb (info_name (template_info t)) (invocation_name i))
                    (templates (session_templates p))
      | None => false
      end in
    if is_template
    then expanded_input invocation Message.PromptTemplate (expand_command (session_templates p) input)
    else TextInput input None None in
  match skills with
  | None => from_template
  | Some catalog =>
      match expand_skill catalog input with
      | Expanded text => expanded_input invocation SkillCommand text
      | FailedSkill original diagnostic => TextInput original None (Some diagnostic)
      | NotSkillCommand => from_template
      end
  end.
End Input.
