(* ===== verification/Commands.v ===== *)
(** Slash commands: the registry of the extensions' commands, the tiers a typed
    command is looked up in, and the list of commands a session shows its
    clients.  [crates/extension/src/dynamic.rs],
    [crates/kernel/src/runtime/command.rs], [command/builtin.rs], with the types
    of [crates/protocol/src/slash_command.rs] and [RunInput], [UserBashInput] of
    [session.rs]

    A command's handler is an extension's code: [Handler] is any type. *)

From S2P Require Import Prelude Lines Chars Text Scalar Json Message ToolContract.
From S2P Require Import Paths KernelErrors Template Skills PromptSession.
Open Scope string_scope.
Open Scope rust_scope.

Inductive SlashCommandAliasKind : Type := Canonical | Short.

Record SlashCommandDefinition : Type := {
  def_name : string;
  def_description : string;
  def_argument_hint : option string;
  def_source : SlashCommandSource;
  def_qualified_name : option string;
  def_alias_kind : SlashCommandAliasKind
}.

Inductive SlashCommandError : Type :=
| InvalidArguments (command usage : string)
| Busy (command : string)
| ExecutionFailed (command : string)
| Ambiguous (command : string) (candidates : list string).

(** [SlashCommandError]'s [Display] *)
Definition command_error_text (e : SlashCommandError) : string :=
  match e with
  | InvalidArguments command usage => "invalid arguments for /" +:+ command +:+ ": " +:+ usage
  | Busy command => "/" +:+ command +:+ " cannot run while the Session is busy"
  | ExecutionFailed command => "/" +:+ command +:+ " failed"
  | Ambiguous command candidates =>
      "/" +:+ command +:+ " is ambiguous"
      +:+ match candidates with
          | [] => ""
          | _ => "; use " +:+ join " or " ((fun c => "/" +:+ c) <$> candidates)
          end
  end.

(** [SlashCommandOutcome] *)
Inductive SlashCommandOutcome : Type :=
| HandledCommand (output : option SlashCommandOutput)
| ExpandedPrompt (expansion : SlashCommandExpansion)
| CommandNotFoundOutcome
| RejectedCommand (error : SlashCommandError).

(** ** Input *)

Inductive RunInput : Type := TextRunInput (text : string) | BlocksRunInput (blocks : list ContentBlock).

(** [RunInput::slash_command_text] *)
Definition slash_command_text (i : RunInput) : option string :=
  match i with TextRunInput text => Some text | BlocksRunInput _ => None end.

Record UserBashInput : Type := { shell_command : string; shell_excluded : bool }.

(** [UserBashInput::parse_prefixed] *)
Definition parse_prefixed (input : string) : option UserBashInput :=
  let exclude := starts_with "!!" input in
  rest ← Chars.strip_prefix (if exclude then "!!" else "!") input;
  let command := trim rest in
  if String.eqb command "" then None
  else Some {| shell_command := command; shell_excluded := exclude |}.

(** ** The extensions' commands *)

Section Registry.
Context {Handler : Type}.

Record ExtensionCommandDefinition : Type := {
  ext_name : string;
  ext_description : option string;
  ext_argument_hint : option string
}.
Record RegisteredCommand : Type := {
  owner : ExtensionId;
  definition : ExtensionCommandDefinition;
  handler : Handler
}.

Definition command_name (c : RegisteredCommand) : string := ext_name (definition c).

(** [RegisteredCommand::qualified_name], [bind_owner] *)
Definition qualified_name (c : RegisteredCommand) : string :=
  as_str (owner c) +:+ ":" +:+ command_name c.
Definition bind_owner (c : RegisteredCommand) (id : ExtensionId) : RegisteredCommand :=
  {| owner := id; definition := definition c; handler := handler c |}.

Inductive DynamicRegistryError : Type :=
| DuplicateCommand (name : string)
| CommandNotFound (name : string)
| AmbiguousCommand (name : string) (candidates : list string)
| RegistryPoisoned.

(** [DynamicRegistryError]'s [Display]; [quoted] is [Debug] of a list of names. *)
Definition registry_error_text (quoted : list string -> string) (e : DynamicRegistryError) : string :=
  match e with
  | DuplicateCommand name => "extension command already registered: " +:+ name
  | CommandNotFound name => "extension command not found: " +:+ name
  | AmbiguousCommand name candidates =>
      "extension command name is ambiguous: " +:+ name +:+ "; use one of: " +:+ quoted candidates
  | RegistryPoisoned => "extension dynamic registry lock poisoned"
  end.

(** [CommandRegistry] *)
Record CommandRegistry : Type := { commands : gmap string RegisteredCommand }.
Definition registry_default : CommandRegistry := {| commands := ∅ |}.

(** [CommandRegistry::new] *)
Fixpoint registry_extend (r : CommandRegistry) (l : list RegisteredCommand)
  : result CommandRegistry DynamicRegistryError :=
  match l with
  | [] => Ok r
  | c :: rest =>
      match commands r !! qualified_name c with
      | Some _ => Err (DuplicateCommand (qualified_name c))
      | None => registry_extend {| commands := <[qualified_name c := c]> (commands r) |} rest
      end
  end.
Definition registry_new (l : list RegisteredCommand) : result CommandRegistry DynamicRegistryError :=
  registry_extend registry_default l.

(** [CommandRegistry::commands] *)
Definition registered (r : CommandRegistry) : list RegisteredCommand := btree_values (commands r).

(** The commands of a short name. *)
Definition short_matches (r : CommandRegistry) (name : string) : list RegisteredCommand :=
  List.filter (fun c => String.eqb (command_name c) name) (registered r).

(** [CommandRegistry::resolve] *)
Definition registry_resolve (r : CommandRegistry) (name : string)
  : result RegisteredCommand DynamicRegistryError :=
  match commands r !! name with
  | Some c => Ok c
  | None =>
      match short_matches r name with
      | [c] => Ok c
      | [] => Err (CommandNotFound name)
      | many => Err (AmbiguousCommand name (qualified_name <$> many))
      end
  end.

(** [CommandRegistry::upsert], [remove], and the snapshots [DynamicCommandRegistry]
    publishes with them: a lookup in progress keeps the snapshot it took. *)
Definition registry_upsert (c : RegisteredCommand) (r : CommandRegistry) : CommandRegistry :=
  {| commands := <[qualified_name c := c]> (commands r) |}.
Definition registry_remove (id : ExtensionId) (name : string) (r : CommandRegistry)
  : bool * CommandRegistry :=
  let key := as_str id +:+ ":" +:+ name in
  (bool_decide (is_Some (commands r !! key)), {| commands := delete key (commands r) |}).
Definition dynamic_remove (id : ExtensionId) (name : string) (current : CommandRegistry)
  : bool * CommandRegistry :=
  let '(removed, next) := registry_remove id name current in
  (removed, if removed then next else current).
End Registry.
Arguments RegisteredCommand Handler : clear implicits.
Arguments CommandRegistry Handler : clear implicits.

(** ** The kernel's own commands *)

Inductive BuiltinSlashCommand : Type := CompactCommand | NameCommand | SessionCommand.

(** [BuiltinSlashCommand::name], [resolve], [definition], [definitions] *)
Definition builtin_name (b : BuiltinSlashCommand) : string :=
  match b with CompactCommand => "compact" | NameCommand => "name" | SessionCommand => "session" end.
Definition builtin_resolve (name : string) : option BuiltinSlashCommand :=
  if String.eqb name "compact" then Some CompactCommand
  else if String.eqb name "name" then Some NameCommand
  else if String.eqb name "session" then Some SessionCommand
  else None.
Definition builtin_definition (b : BuiltinSlashCommand) (description : string) (hint : option string)
  : SlashCommandDefinition :=
  {| def_name := builtin_name b; def_description := description; def_argument_hint := hint;
     def_source := Builtin; def_qualified_name := None; def_alias_kind := Canonical |}.
Definition builtin_definitions : list SlashCommandDefinition :=
  [builtin_definition CompactCommand "Manually compact the session context" (Some "[custom instructions]");
   builtin_definition NameCommand "Set or show the session display name" (Some "[name]");
   builtin_definition SessionCommand "Show session information and statistics" None].

(** ** Resolution *)

Section Resolution.
Context {Handler : Type}.

Inductive DirectSlashCommand : Type :=
| DirectBuiltin (command : BuiltinSlashCommand)
| DirectExtension (command : RegisteredCommand Handler).

(** [DirectSlashCommand::source] *)
Definition direct_source (c : DirectSlashCommand) : SlashCommandSource :=
  match c with DirectBuiltin _ => Builtin | DirectExtension _ => ExtensionCommand end.

Inductive DirectSlashCommandResolution : Type :=
| DirectCommand (command : DirectSlashCommand)
| DirectRejected (source : SlashCommandSource) (error : SlashCommandError)
| DirectNotFound.

(** [DirectSlashCommandResolution::source] *)
Definition resolution_source (r : DirectSlashCommandResolution) : option SlashCommandSource :=
  match r with
  | DirectCommand c => Some (direct_source c)
  | DirectRejected source _ => Some source
  | DirectNotFound => None
  end.

Variable quoted_names : list string -> string.

(** [Session::resolve_direct_slash_command] *)
Definition resolve_direct (r : CommandRegistry Handler) (name : string)
  : result DirectSlashCommandResolution KernelError :=
  match builtin_resolve name with
  | Some b => Ok (DirectCommand (DirectBuiltin b))
  | None =>
      match registry_resolve r name with
      | Ok c => Ok (DirectCommand (DirectExtension c))
      | Err (CommandNotFound _) => Ok DirectNotFound
      | Err (AmbiguousCommand n candidates) =>
          Ok (DirectRejected ExtensionCommand (Ambiguous n candidates))
      | Err e => Err (ExtensionBlocked (registry_error_text quoted_names e))
      end
  end.

(** [Session::ensure_queueable] *)
Definition ensure_queueable (r : CommandRegistry Handler) (input : RunInput) : result unit KernelError :=
  match slash_command_text input with
  | None => Ok tt
  | Some text =>
      match slash_invocation text with
      | Err _ => Ok tt
      | Ok invocation =>
          let? resolution := resolve_direct r (invocation_name invocation) in
          match resolution with
          | DirectCommand c =>
              Err (SlashCommandCannotQueue (invocation_name invocation) (direct_source c))
          | DirectRejected _ e => Err (SlashCommandRejected (command_error_text e))
          | DirectNotFound => Ok tt
          end
      end
  end.

(** ** The advertised list *)

(** [filter_map] over [used_names.insert(name).then(...)]: an item is kept when
    its name was not used yet. *)
Fixpoint keep_unused {A B} (name : A -> string) (make : A -> B) (used : gset string) (l : list A)
  : list B * gset string :=
  match l with
  | [] => ([], used)
  | x :: rest =>
      if bool_decide (name x ∈ used) then keep_unused name make used rest
      else let '(kept, used') := keep_unused name make ({[name x]} ∪ used) rest in
           (make x :: kept, used')
  end.

Definition by_def_name (l : list SlashCommandDefinition) : list SlashCommandDefinition :=
  sort_by (fun a b => negb (String.leb (def_name b) (def_name a))) l.

Definition extension_definition (c : RegisteredCommand Handler) (name : string)
  (qualified : option string) (kind : SlashCommandAliasKind) : SlashCommandDefinition :=
  {| def_name := name; def_description := default "" (ext_description (definition c));
     def_argument_hint := ext_argument_hint (definition c); def_source := ExtensionCommand;
     def_qualified_name := qualified; def_alias_kind := kind |}.
Definition canonical_definition (c : RegisteredCommand Handler) : SlashCommandDefinition :=
  extension_definition c (qualified_name c) None Canonical.
Definition short_definition (c : RegisteredCommand Handler) : SlashCommandDefinition :=
  extension_definition c (command_name c) (Some (qualified_name c)) Short.

(** [short_counts] *)
Definition short_count (l : list (RegisteredCommand Handler)) (name : string) : nat :=
  length (List.filter (fun c => String.eqb (command_name c) name) l).

Definition skill_command_name (s : SkillInfo) : string := "skill:" +:+ skill_name s.
Definition skill_definition (s : SkillInfo) : SlashCommandDefinition :=
  {| def_name := skill_command_name s; def_description := skill_description s;
     def_argument_hint := Some "[arguments]"; def_source := SkillCommand;
     def_qualified_name := None; def_alias_kind := Canonical |}.

Definition template_definition (t : PromptTemplateInfo) : SlashCommandDefinition :=
  {| def_name := info_name t; def_description := info_description t;
     def_argument_hint := argument_hint t; def_source := Message.PromptTemplate;
     def_qualified_name := None; def_alias_kind := Canonical |}.

(** [Kernel::available_commands] *)
Definition available_commands (r : CommandRegistry Handler) (catalog : option SkillCatalog)
  (prompts : PromptSession) : list SlashCommandDefinition :=
  let all := registered r in
  let used : gset string :=
    list_to_set (def_name <$> builtin_definitions) ∪ list_to_set (qualified_name <$> all) in
  let '(shorts, used) :=
    keep_unused command_name short_definition used
      (List.filter (fun c => Nat.eqb (short_count all (command_name c)) 1) all) in
  let used := list_to_set (command_name <$>
                List.filter (fun c => Nat.ltb 1 (short_count all (command_name c))) all) ∪ used in
  let '(skills, used) :=
    keep_unused skill_command_name skill_definition used
      (match catalog with Some c => descriptors c | None => [] end) in
  let '(expansions, _) :=
    keep_unused info_name template_definition used
      (template_info <$> templates (session_templates prompts)) in
  (builtin_definitions ++ by_def_name ((canonical_definition <$> all) ++ shorts)
   ++ by_def_name skills ++ by_def_name expansions)%list.
End Resolution.

(** ** Dispatch *)

(** What a text that a client typed becomes: the order in which
    [Kernel::run_until_settled] looks for a shell command, a direct command and
    an expansion, when no input hook changes the text. *)
Inductive Dispatch {Handler : Type} : Type :=
| RunsShell (input : UserBashInput)
| RunsDirect (invocation : SlashCommandInvocation) (command : DirectSlashCommand (Handler := Handler))
| RefusesDirect (invocation : SlashCommandInvocation) (source : SlashCommandSource)
    (error : SlashCommandError)
| StartsRun (input : PromptInputExpansion).

Section Dispatch.
Context {Handler : Type} `{ReadFs}.
Variable quoted_names : list string -> string.

Definition dispatch (r : CommandRegistry Handler) (catalog : option SkillCatalog) (prompts : PromptSession)
  (text : string) : result (Dispatch (Handler := Handler)) KernelError :=
  match parse_prefixed text with
  | Some input => Ok (RunsShell input)
  | None =>
      match slash_invocation text with
      | Err _ => Ok (StartsRun (expand_prompt_input catalog prompts text))
      | Ok invocation =>
          let? resolution := resolve_direct quoted_names r (invocation_name invocation) in
          Ok (match resolution with
              | DirectCommand c => RunsDirect invocation c
              | DirectRejected source e => RefusesDirect invocation source e
              | DirectNotFound => StartsRun (expand_prompt_input catalog prompts text)
              end)
      end
  end.

(** [direct] of [Kernel::admit_prompt]: the text skips the input hooks and the queue. *)
Definition is_direct (r : CommandRegistry Handler) (input : RunInput) : result bool KernelError :=
  match slash_command_text input with
  | None => Ok false
  | Some text =>
      match parse_prefixed text with
      | Some _ => Ok true
      | None =>
          match slash_invocation text with
          | Err _ => Ok false
          | Ok invocation =>
              let? resolution := resolve_direct quoted_names r (invocation_name invocation) in
              Ok (match resolution with DirectNotFound => false | _ => true end)
          end
      end
  end.
End Dispatch.
