(* ===== verification/Edit.v ===== *)
(** The edit tool: replacements matched against one snapshot of a file, exactly
    or by conservative normalisation, and applied together.
    [crates/tools/src/builtin/edit.rs]

    Text is UTF-8 bytes and offsets are byte offsets.  Unicode's compatibility
    composition and the diff of two texts are other crates' code: [nfkc] and
    [DiffOf] are parameters.  The file system is a map from paths to bytes; the
    class [EditIo] says which of its calls fail and when the Turn is cancelled.
    A call holds its file's queue, so nothing else the tools do happens to the
    file meanwhile. *)

From S2P Require Import Prelude Lines Chars Text Scalar Json Message.
From S2P Require Import ToolContract ShellOutput Paths.
Open Scope string_scope.
Open Scope rust_scope.

(** ** Arguments *)

Record EditReplacement : Type := { old_text : string; new_text : string }.
Record EditArguments : Type := { edit_path : string; edits : list EditReplacement }.

#[export] Instance from_value_replacement : FromValue EditReplacement := fun v =>
  let? m := as_object v in
  let? old := field "oldText" m in
  let? new := field "newText" m in
  Ok {| old_text := old; new_text := new |}.

#[export] Instance from_value_edit_arguments : FromValue EditArguments := fun v =>
  let? m := as_object v in
  let? path := field "path" m in
  let? edits := field "edits" m in
  Ok {| edit_path := path; edits := edits |}.

(** [EditArguments::try_from(Value)]: a stringified [edits] is parsed, the old
    single-edit fields become one more edit. *)
Definition normalize_arguments (parse : string -> option json) (m : gmap string json)
  : gmap string json :=
  let m :=
    match m !! "edits" with
    | Some (JString serialized) =>
        match parse serialized with Some parsed => <["edits" := parsed]> m | None => m end
    | _ => m
    end in
  let legacy := (m !! "oldText", m !! "newText") in
  let m := delete "newText" (delete "oldText" m) in
  match legacy with
  | (Some old, Some new) =>
      match default (JArray []) (m !! "edits") with
      | JArray l =>
          <["edits" := JArray (l ++ [JObject (<["oldText" := old]> {["newText" := new]})])]> m
      | other => <["edits" := other]> m
      end
  | _ => m
  end.
Definition edit_arguments_of_value (parse : string -> option json) (v : json)
  : result EditArguments json_error :=
  from_value match v with JObject m => JObject (normalize_arguments parse m) | _ => v end.

Definition edit_arguments (parse : string -> option json) (c : ToolCall)
  : result EditArguments ToolError :=
  map_err (fun e : json_error => let '(JsonError what) := e in
             ToolInvalidArguments (call_name c) what)
    (edit_arguments_of_value parse (call_arguments c)).

(** [EditArguments::validate] *)
Definition edit_validate (a : EditArguments) : result unit ToolError :=
  match edits a with
  | [] => Err (ToolInvalidArguments "edit"
                 "Edit tool input is invalid. edits must contain at least one replacement.")
  | _ => Ok tt
  end.

(** ** Matching *)

Record MatchedEdit : Type := {
  edit_index : nat;
  match_index : nat;
  match_length : nat;
  matched_new : string
}.
Definition match_end (e : MatchedEdit) : nat := match_index e + match_length e.

Record LineSpan : Type := { line_start : nat; line_end : nat }.
Record ReplacementGroup : Type := {
  start_line : nat;
  end_line : nat;
  replacement_indices : list nat
}.

Definition fails (message : string) : ToolError := ToolExecution "edit" message.
Definition num (n : nat) : string := u64_to_string (Z.of_nat n).

Section Edit.
Variable nfkc : string -> string.

(** The [char] map of [normalize_fuzzy]. *)
Definition plain_char (c : char) : char :=
  let z := code_point c in
  if ((8216 <=? z) && (z <=? 8219))%Z then single_quote
  else if ((8220 <=? z) && (z <=? 8223))%Z then double_quote
  else if ((8208 <=? z) && (z <=? 8213) || (z =? 8722))%Z then "-"
  else if ((z =? 160) || (8194 <=? z) && (z <=? 8202) || (z =? 8239) || (z =? 8287)
           || (z =? 12288))%Z then " "
  else c.

Definition normalize_fuzzy (content : string) : string :=
  collect (plain_char <$> chars (join nl (trim_end <$> split_char newline (nfkc content)))).

Definition normalized_edit (e : EditReplacement) : EditReplacement :=
  {| old_text := to_lf (old_text e); new_text := to_lf (new_text e) |}.

(** An edit whose text to replace is empty. *)
Fixpoint check_not_empty (path : string) (count index : nat) (l : list EditReplacement)
  : result unit ToolError :=
  match l with
  | [] => Ok tt
  | e :: rest =>
      if String.eqb (old_text e) "" then
        Err (fails (if Nat.eqb count 1 then "oldText must not be empty in " +:+ path +:+ "."
                    else "edits[" +:+ num index +:+ "].oldText must not be empty in "
                         +:+ path +:+ "."))
      else check_not_empty path count (S index) rest
  end.

Definition not_found (path : string) (count index : nat) : ToolError :=
  fails (if Nat.eqb count 1 then
    "Could not find the exact text in " +:+ path
    +:+ ". The old text must match exactly including all whitespace and newlines."
  else
    "Could not find edits[" +:+ num index +:+ "] in " +:+ path
    +:+ ". The oldText must match exactly including all whitespace and newlines.").

Definition not_unique (path : string) (count index occurrences : nat) : ToolError :=
  fails (if Nat.eqb count 1 then
    "Found " +:+ num occurrences +:+ " occurrences of the text in " +:+ path
    +:+ ". The text must be unique. Please provide more context to make it unique."
  else
    "Found " +:+ num occurrences +:+ " occurrences of edits[" +:+ num index +:+ "] in " +:+ path
    +:+ ". Each oldText must be unique. Please provide more context to make it unique.").

(** The loop that matches every edit. *)
Fixpoint match_edits (path base : string) (fuzzy : bool) (count index : nat)
  (l : list EditReplacement) : result (list MatchedEdit) ToolError :=
  match l with
  | [] => Ok []
  | e :: rest =>
      let target := if fuzzy then normalize_fuzzy (old_text e) else old_text e in
      match match_indices target base with
      | [] => Err (not_found path count index)
      | [at_] =>
          let? matched := match_edits path base fuzzy count (S index) rest in
          Ok ({| edit_index := index; match_index := at_; match_length := String.length target;
                 matched_new := new_text e |} :: matched)
      | more => Err (not_unique path count index (length more))
      end
  end.

(** The check of neighbours in the sorted list. *)
Fixpoint check_overlap (path : string) (l : list MatchedEdit) : result unit ToolError :=
  match l with
  | previous :: (current :: _) as rest =>
      if Nat.ltb (match_index current) (match_end previous) then
        Err (fails ("edits[" +:+ num (edit_index previous) +:+ "] and edits["
                    +:+ num (edit_index current) +:+ "] overlap in " +:+ path
                    +:+ ". Merge them into one edit or target disjoint regions."))
      else check_overlap path rest
  | _ => Ok tt
  end.

(** ** Applying *)

(** [apply_replacements]: from the last to the first. *)
Definition apply_replacements (content : string) (l : list MatchedEdit) (offset : nat) : string :=
  foldr (fun e result =>
           let start := match_index e - offset in
           replace_range result start (start + match_length e) (matched_new e)) content l.

(** The spans of the base text's lines. *)
Fixpoint line_spans (offset : nat) (lines : list string) : list LineSpan :=
  match lines with
  | [] => []
  | line :: rest =>
      {| line_start := offset; line_end := offset + String.length line |}
        :: line_spans (offset + String.length line) rest
  end.

(** The loop that moves [end_line] to the line the replacement ends in. *)
Fixpoint lines_before (lines : list LineSpan) (stop : nat) : nat :=
  match lines with
  | l :: rest => if Nat.ltb (line_end l) stop then S (lines_before rest stop) else 0
  | [] => 0
  end.

Definition outside : ToolError := fails "Replacement range is outside the base content.".

Fixpoint first_line (lines : list LineSpan) (at_ : nat) : option nat :=
  match lines with
  | l :: rest =>
      if Nat.leb (line_start l) at_ && Nat.ltb at_ (line_end l) then Some 0
      else S <$> first_line rest at_
  | [] => None
  end.

(** The lines a replacement rewrites. *)
Definition lines_of (lines : list LineSpan) (e : MatchedEdit) : result (nat * nat) ToolError :=
  match first_line lines (match_index e) with
  | None => Err outside
  | Some start =>
      let last := start + lines_before (drop start lines) (match_end e) in
      if Nat.leb (length lines) last then Err outside else Ok (start, S last)
  end.

(** A replacement joins the last group if it starts in it. *)
Definition add_to_groups (groups : list ReplacementGroup) (start stop index : nat)
  : list ReplacementGroup :=
  match list.last groups with
  | Some g =>
      if Nat.ltb start (end_line g) then
        (removelast groups
         ++ [{| start_line := start_line g; end_line := Nat.max (end_line g) stop;
                replacement_indices := replacement_indices g ++ [index] |}])%list
      else (groups ++ [{| start_line := start; end_line := stop;
                          replacement_indices := [index] |}])%list
  | None => [{| start_line := start; end_line := stop; replacement_indices := [index] |}]
  end.

Fixpoint group_replacements (lines : list LineSpan) (index : nat) (l : list MatchedEdit)
  (groups : list ReplacementGroup) : result (list ReplacementGroup) ToolError :=
  match l with
  | [] => Ok groups
  | e :: rest =>
      let? (start, stop) := lines_of lines e in
      group_replacements lines (S index) rest (add_to_groups groups start stop index)
  end.

(** The text of one group. *)
Definition group_text (base : string) (lines : list LineSpan) (l : list MatchedEdit)
  (g : ReplacementGroup) : string :=
  let start := from_option line_start 0 (lines !! start_line g) in
  let stop := from_option line_end (String.length base) (lines !! (end_line g - 1)) in
  apply_replacements (default "" (str_get base start stop))
    (omap (fun i => l !! i) (replacement_indices g)) start.

Fixpoint write_groups (base : string) (originals : list string) (lines : list LineSpan)
  (l : list MatchedEdit) (from : nat) (groups : list ReplacementGroup) : string :=
  match groups with
  | [] => String.concat "" (default [] (slice_get originals from (length originals)))
  | g :: rest =>
      String.concat "" (default [] (slice_get originals from (start_line g)))
      +:+ group_text base lines l g
      +:+ write_groups base originals lines l (end_line g) rest
  end.

(** [apply_replacements_preserving_unchanged_lines] *)
Definition apply_preserving (original base : string) (l : list MatchedEdit)
  : result string ToolError :=
  let originals := split_inclusive original in
  let lines := line_spans 0 (split_inclusive base) in
  if negb (Nat.eqb (length originals) (length lines)) then
    Err (fails "Cannot preserve unchanged lines because the base content has a different line count.")
  else
    let? groups := group_replacements lines 0 l [] in
    Ok (write_groups base originals lines l 0 groups).

(** [apply_edits] *)
Definition used_fuzzy (content : string) (l : list EditReplacement) : bool :=
  existsb (fun e => negb (str_contains (old_text e) content)) l.

Definition apply_edits (content : string) (edits : list EditReplacement) (path : string)
  : result (string * string) ToolError :=
  let normalized := normalized_edit <$> edits in
  let count := length normalized in
  let? _ := check_not_empty path count 0 normalized in
  let fuzzy := used_fuzzy content normalized in
  let base := if fuzzy then normalize_fuzzy content else content in
  let? matched := match_edits path base fuzzy count 0 normalized in
  let matched := sort_by_key match_index matched in
  let? _ := check_overlap path matched in
  let? edited := if fuzzy then apply_preserving content base matched
                 else Ok (apply_replacements base matched 0) in
  if String.eqb edited content then
    Err (fails (if Nat.eqb count 1 then
      "No changes made to " +:+ path
      +:+ ". The replacement produced identical content. This might indicate an issue with special characters or the text not existing as expected."
    else
      "No changes made to " +:+ path +:+ ". The replacements produced identical content."))
  else Ok (content, edited).

End Edit.

(** The edit and write tools' effects on the file system, and the diff an edit
    reports.  [EditDiff], [EditTool] and [IoDiagnostic] of
    [crates/tools/src/builtin/edit.rs], [crates/tools/src/builtin/write.rs]

    The file system is a map from paths to bytes.  A call holds its file's queue
    ([with_file_mutation]) from its first look at the file to its answer, so
    nothing else the tools do happens to the file meanwhile.  Which system calls
    fail, what a failed write leaves behind and whether the Turn is cancelled at
    each check are the answers of [Disk]. *)

Open Scope string_scope.
Open Scope rust_scope.

(** ** The diff *)

Inductive ChangeTag : Type := Delete | Insert | Equal.
Record Change : Type := {
  change_tag : ChangeTag;
  old_index : option nat;
  new_index : option nat;
  change_value : string
}.

(** What the [similar] crate answers for two texts: the changes of each group,
    all changes, and the unified patch under a path. *)
Class DiffOf := {
  grouped_changes : string -> string -> list (list Change);
  all_changes : string -> string -> list Change;
  unified_patch : string -> string -> string -> string
}.

Record EditDiff : Type := {
  display : string;
  patch : string;
  first_changed_line : option nat
}.

(** One line of the display diff. *)
Definition display_change (width : nat) (c : Change) : string :=
  let value := default (change_value c) (strip_suffix_nl (change_value c)) in
  let numbered sign index :=
    sign +:+ pad_left width (num (default 0 index + 1)) +:+ " " +:+ value in
  match change_tag c with
  | Delete => numbered "-" (old_index c)
  | Insert => numbered "+" (new_index c)
  | Equal => numbered " " (old_index c)
  end.

Fixpoint display_groups (width : nat) (first : bool) (groups : list (list Change))
  : list string :=
  match groups with
  | [] => []
  | g :: rest =>
      ((if first then [] else [" " +:+ pad_left width "" +:+ " ..."])
       ++ (display_change width <$> g) ++ display_groups width false rest)%list
  end.

Definition is_equal (t : ChangeTag) : bool := match t with Equal => true | _ => false end.

(** [EditDiff::between] *)
Definition diff_between `{DiffOf} (path old new : string) : EditDiff :=
  let width := String.length (num (Nat.max (length (split_char newline old))
                                           (length (split_char newline new)))) in
  {| display := join nl (display_groups width true (grouped_changes old new));
     patch := unified_patch path old new;
     first_changed_line :=
       c ← head (filter (fun c => is_equal (change_tag c) = false) (all_changes old new));
       S <$> match new_index c with Some i => Some i | None => old_index c end |}.

(** ** Files *)

(** [IoDiagnostic] *)
Definition io_diagnostic (e : IoError) : string :=
  match io_kind e with
  | NotFound => "Error code: ENOENT"
  | PermissionDenied => "Error code: EACCES"
  | OtherKind => "Error: " +:+ io_text e
  end.

Abbreviation Files := (gmap string string).

Record Disk : Type := {
  (** Whether the Turn is cancelled at the n-th check. *)
  cancelled_at : nat -> bool;
  read_fails : string -> option IoError;
  create_dir_fails : string -> option IoError;
  (** A failed write, and what it leaves of the file. *)
  write_fails : string -> option (IoError * option string)
}.

Section Tools.
Context `{JsonText} `{DiffOf}.
Variable nfkc : string -> string.
Variable home_dir : option string.
Variable url_file_path : string -> option string.
Variable parent : string -> option string.
(** [str::encode_utf16().count()] *)
Variable utf16_length : string -> nat.

Abbreviation F := (M Files ToolError).

(** [ToolExecutionContext::ensure_active] *)
Definition ensure_tool_active (d : Disk) (check : nat) : F unit :=
  if cancelled_at d check then m_fail ToolCancelled else m_ret tt.

(** [tokio::fs::read] *)
Definition read_file (d : Disk) (path : string) : M Files IoError string := fun files =>
  match read_fails d path with
  | Some e => (Err e, files)
  | None =>
      match files !! path with
      | Some bytes => (Ok bytes, files)
      | None => (Err {| io_kind := NotFound; io_text := "" |}, files)
      end
  end.

(** [tokio::fs::write] *)
Definition write_file (d : Disk) (path bytes : string) : M Files IoError unit := fun files =>
  match write_fails d path with
  | Some (e, left_) => (Err e, partial_alter (fun old => match left_ with Some s => Some s | None => old end) path files)
  | None => (Ok tt, <[path := bytes]> files)
  end.

Definition map_error {S E1 E2 A} (f : E1 -> E2) (c : M S E1 A) : M S E2 A :=
  fun s => let '(r, s) := c s in (map_err f r, s).

Definition bom : string := String "239" (String "187" (String "191" "")).

(** The byte order mark, the text after it, and the line ending of a file. *)
Definition split_bom (raw : string) : string * string :=
  match strip_prefix bom raw with Some content => (bom, content) | None => ("", raw) end.
Definition line_ending (content : string) : string :=
  match str_find crlf content, str_find nl content with
  | Some i, Some j => if Nat.ltb i j then crlf else nl
  | _, _ => nl
  end.

(** What an edit writes. *)
Definition restored (bom ending edited : string) : string :=
  bom +:+ (if String.eqb ending crlf then to_crlf edited else edited).

(** [EditTool::execute] *)
Definition edit_execute (d : Disk) (cwd : string) (c : ToolCall) : F ToolResultData :=
  let! a := m_lift (edit_arguments parse c) in
  let! _ := m_lift (edit_validate a) in
  let! path := m_lift (resolved_path home_dir url_file_path (edit_path a) cwd) in
  let! _ := ensure_tool_active d 0 in
  let! bytes := map_error (fun e => ToolExecution (call_name c)
                   ("Could not edit file: " +:+ edit_path a +:+ ". " +:+ io_diagnostic e +:+ "."))
                 (read_file d path) in
  let! _ := ensure_tool_active d 1 in
  let '(mark, content) := split_bom (from_utf8_lossy bytes) in
  let ending := line_ending content in
  let! (base, edited) := m_lift (apply_edits nfkc (to_lf content) (edits a) (edit_path a)) in
  let! _ := ensure_tool_active d 2 in
  let! _ := map_error (fun e => ToolExecution (call_name c) (io_text e))
              (write_file d path (restored mark ending edited)) in
  let! _ := ensure_tool_active d 3 in
  let diff := diff_between path base edited in
  m_ret (text_result (call_id c)
    ("Successfully replaced " +:+ num (length (edits a)) +:+ " block(s) in "
     +:+ edit_path a +:+ ".") false
    (Some (EditDetails path (display diff) (patch diff) (Z.of_nat <$> first_changed_line diff)))).

(** [EditTool::locations] *)
Definition edit_locations (cwd : string) (c : ToolCall) : list ToolLocation :=
  match edit_arguments parse c with
  | Ok a =>
      match resolved_path home_dir url_file_path (edit_path a) cwd with
      | Ok path => [{| location_path := path; location_line := None |}]
      | Err _ => []
      end
  | Err _ => []
  end.

(** ** The write tool *)

Record WriteArguments : Type := { write_path : string; write_content : string }.

#[export] Instance from_value_write_arguments : FromValue WriteArguments := fun v =>
  let? m := as_object v in
  let? path := field "path" m in
  let? content := field "content" m in
  Ok {| write_path := path; write_content := content |}.

Definition write_arguments (c : ToolCall) : result WriteArguments ToolError :=
  map_err (fun e : json_error => let '(JsonError what) := e in
             ToolInvalidArguments (call_name c) what)
    (from_value (call_arguments c)).

(** [WriteTool::execute] *)
Definition write_execute (d : Disk) (cwd : string) (c : ToolCall) : F ToolResultData :=
  let! a := m_lift (write_arguments c) in
  let! path := m_lift (resolved_path home_dir url_file_path (write_path a) cwd) in
  let! _ := ensure_tool_active d 0 in
  let! _ := match parent path with
            | Some dir =>
                match create_dir_fails d dir with
                | Some e => m_fail (ToolExecution (call_name c) (io_text e))
                | None => m_ret tt
                end
            | None => m_ret tt
            end in
  let! _ := ensure_tool_active d 1 in
  let! _ := map_error (fun e => ToolExecution (call_name c) (io_text e))
              (write_file d path (write_content a)) in
  let! _ := ensure_tool_active d 2 in
  m_ret (text_result (call_id c)
    ("Successfully wrote " +:+ num (utf16_length (write_content a)) +:+ " bytes to "
     +:+ write_path a) false None).

End Tools.
