(* ===== verification/EditLines.v ===== *)
(** What applying replacements does to a text: spliced texts, and texts whose
    touched lines are rewritten while the others stay. *)

From S2P Require Import Prelude Lines Chars Text Scalar Json Message ShellOutput.
From S2P Require Import ToolContract Paths Edit.
Open Scope string_scope.
Open Scope rust_scope.

(** [spliced pairs s t]: [t] is [s] with the first component of each pair, in
    this order, replaced by the second. *)
Inductive spliced : list (string * string) -> string -> string -> Prop :=
| spliced_end rest : spliced [] rest rest
| spliced_cons before old new pairs s t :
    spliced pairs s t ->
    spliced ((old, new) :: pairs) (before +:+ old +:+ s) (before +:+ new +:+ t).

(** [rewritten touched k os bs pairs t]: [t] is the original lines [os], the
    first of which has number [k], with runs of touched lines replaced by the
    splice of the base's lines in the same places. *)
Inductive rewritten (touched : nat -> Prop)
  : nat -> list string -> list string -> list (string * string) -> string -> Prop :=
| rewritten_end k : rewritten touched k [] [] [] ""
| rewritten_keep k o b os bs pairs t :
    rewritten touched (S k) os bs pairs t ->
    rewritten touched k (o :: os) (b :: bs) pairs (o +:+ t)
| rewritten_group k os1 bs1 os bs pairs1 pairs t1 t :
    length os1 = length bs1 -> bs1 <> [] ->
    (forall i, k <= i < k + length bs1 -> touched i) ->
    spliced pairs1 (String.concat "" bs1) t1 ->
    rewritten touched (k + length bs1) os bs pairs t ->
    rewritten touched k (os1 ++ os) (bs1 ++ bs) (pairs1 ++ pairs) (t1 +:+ t).

(** ** Splicing *)

Definition sub (s : string) (start len : nat) : string := str_take len (str_drop start s).

(** Replacements in order, disjoint, from [lo] on. *)
Fixpoint chained (lo : nat) (l : list MatchedEdit) : Prop :=
  match l with
  | [] => True
  | e :: rest => lo <= match_index e /\ chained (match_end e) rest
  end.

Definition pair_in (s : string) (offset : nat) (e : MatchedEdit) : string * string :=
  (sub s (match_index e - offset) (match_length e), matched_new e).

Lemma str_drop_drop n m s : str_drop n (str_drop m s) = str_drop (m + n) s.
Proof. revert s. induction m as [|m IH]; intros [|a s]; cbn; [done..|by destruct n|done]. Qed.

Lemma str_drop_app_length a b : str_drop (String.length a) (a +:+ b) = b.
Proof. induction a as [|x a IH]; [done|]. by rewrite string_app_cons. Qed.

Lemma str_take_app_length a b : str_take (String.length a) (a +:+ b) = a.
Proof.
  induction a as [|x a IH]; [by destruct b|]. rewrite string_app_cons. cbn. by rewrite IH.
Qed.

Lemma str_drop_take_add n m s :
  str_drop n s = sub s n m +:+ str_drop (n + m) s.
Proof. unfold sub. by rewrite <- str_drop_drop, str_take_drop. Qed.

Lemma apply_spliced content offset l : forall lo,
  offset <= lo -> lo - offset <= String.length content -> chained lo l ->
  Forall (fun e => match_end e - offset <= String.length content) l ->
  exists t,
    apply_replacements content l offset = str_take (lo - offset) content +:+ t /\
    spliced (pair_in content offset <$> l) (str_drop (lo - offset) content) t.
Proof.
  induction l as [|e l IH]; intros lo Hlo Hlen Hch Hall.
  - exists (str_drop (lo - offset) content). rewrite str_take_drop. split; [done|constructor].
  - destruct Hch as [Hi Hch]. inversion Hall as [|? ? He Hall']; subst.
    unfold match_end in He.
    destruct (IH (match_end e)) as (t & Ht & Hs); [unfold match_end; lia|unfold match_end; lia|done|done|].
    cbn [apply_replacements foldr]. change (foldr _ content l) with (apply_replacements content l offset).
    rewrite Ht. unfold replace_range. unfold match_end in *.
    set (start := match_index e - offset) in *.
    replace (match_index e + match_length e - offset) with (start + match_length e) in * by lia.
    exists (sub content (lo - offset) (start - (lo - offset)) +:+ matched_new e +:+ t). split.
    + rewrite str_take_app_le by (rewrite str_take_length; lia).
      rewrite str_take_take, Nat.min_l by lia.
      assert (str_drop (start + match_length e) (str_take (start + match_length e) content +:+ t) = t)
        as ->.
      { rewrite <- (str_drop_app_length (str_take (start + match_length e) content) t) at 2.
        f_equal. rewrite str_take_length. lia. }
      replace start with (lo - offset + (start - (lo - offset))) at 1 by lia.
      rewrite str_take_add. unfold sub. by rewrite <- !string_app_assoc.
    + rewrite fmap_cons. unfold pair_in at 1.
      rewrite (str_drop_take_add (lo - offset) (start - (lo - offset)) content).
      replace (lo - offset + (start - (lo - offset))) with start by lia.
      rewrite (str_drop_take_add start (match_length e) content). fold start.
      by constructor.
Qed.

(** ** Line offsets *)

Definition at_line (bs : list string) (i : nat) : nat := String.length (String.concat "" (take i bs)).

Lemma at_line_0 bs : at_line bs 0 = 0.
Proof. done. Qed.
Lemma at_line_cons b bs i : at_line (b :: bs) (S i) = String.length b + at_line bs i.
Proof. unfold at_line. cbn [take]. by rewrite str_concat_cons, string_length_app. Qed.
Lemma at_line_S bs i b : bs !! i = Some b -> at_line bs (S i) = at_line bs i + String.length b.
Proof.
  revert i. induction bs as [|c bs IH]; intros [|i]; cbn [lookup list_lookup]; [done..| |].
  - intros [= ->]. rewrite at_line_cons, !at_line_0. lia.
  - intros H. rewrite !at_line_cons, (IH i) by done. lia.
Qed.
Lemma at_line_mono bs i j : i <= j -> at_line bs i <= at_line bs j.
Proof.
  revert bs j. induction i as [|i IH]; intros bs j Hij; [rewrite at_line_0; lia|].
  destruct j as [|j]; [lia|]. destruct bs as [|b bs]; [by unfold at_line; rewrite !take_nil|].
  rewrite !at_line_cons. specialize (IH bs j). lia.
Qed.
Lemma at_line_length bs : at_line bs (length bs) = String.length (String.concat "" bs).
Proof. unfold at_line. by rewrite firstn_all. Qed.

Lemma line_spans_lookup bs i : forall offset,
  line_spans offset bs !! i
  = (fun b => {| line_start := offset + at_line bs i;
                 line_end := offset + at_line bs i + String.length b |}) <$> bs !! i.
Proof.
  revert i. induction bs as [|b bs IH]; intros [|i] offset; [done..| |]; cbn [line_spans].
  - cbn. do 2 f_equal; unfold at_line; cbn; lia.
  - change (line_spans (offset + String.length b) bs !! i
      = (fun c => {| line_start := offset + at_line (b :: bs) (S i);
                     line_end := offset + at_line (b :: bs) (S i) + String.length c |}) <$> bs !! i).
    rewrite IH, at_line_cons. destruct (bs !! i); [|done]. cbn [fmap option_fmap option_map].
    do 2 f_equal; lia.
Qed.

Lemma line_spans_length bs offset : length (line_spans offset bs) = length bs.
Proof. revert offset. induction bs as [|b bs IH]; intros offset; cbn; [done|by rewrite IH]. Qed.

(** The text of a run of lines. *)
Lemma str_get_lines bs i j : i <= j -> j <= length bs ->
  str_get (String.concat "" bs) (at_line bs i) (at_line bs j)
  = Some (String.concat "" (take (j - i) (drop i bs))).
Proof.
  intros Hij Hj. unfold str_get.
  rewrite (proj2 (Nat.leb_le _ _) (at_line_mono bs i j Hij)).
  rewrite <- at_line_length, (proj2 (Nat.leb_le _ _) (at_line_mono bs j _ Hj)). cbn [andb]. f_equal.
  assert (String.concat "" bs = String.concat "" (take i bs) +:+ String.concat "" (take (j - i) (drop i bs))
    +:+ String.concat "" (drop j bs)) as ->.
  { rewrite <- !str_concat_app. f_equal. rewrite <- (take_drop i bs) at 1. f_equal.
    rewrite <- (take_drop (j - i) (drop i bs)) at 1. by rewrite drop_drop, Nat.add_comm, Nat.sub_add. }
  assert (forall t, str_drop (at_line bs i) (String.concat "" (take i bs) +:+ t) = t) as ->
    by (intros t; apply str_drop_app_length).
  assert (at_line bs j - at_line bs i = String.length (String.concat "" (take (j - i) (drop i bs)))) as ->.
  { unfold at_line. rewrite <- (take_drop i (take j bs)), str_concat_app, string_length_app.
    rewrite take_take, Nat.min_l by done. rewrite skipn_firstn_comm. lia. }
  apply str_take_app_length.
Qed.

(** ** The lines of a replacement *)

Lemma first_line_spec bs at_ i : forall offset,
  first_line (line_spans offset bs) at_ = Some i ->
  i < length bs /\ offset + at_line bs i <= at_ /\ at_ < offset + at_line bs (S i).
Proof.
  revert i. induction bs as [|b bs IH]; intros i offset; cbn [line_spans first_line line_start line_end]; [done|].
  destruct (Nat.leb_spec offset at_) as [Hle|Hgt]; cbn [andb].
  - destruct (Nat.ltb_spec at_ (offset + String.length b)) as [Hlt|Hge].
    + intros [= <-]. rewrite at_line_cons, !at_line_0. cbn. lia.
    + destruct (first_line _ _) as [k|] eqn:Hk; [|done]. intros [= <-].
      apply IH in Hk as (? & ? & ?). rewrite !at_line_cons in *. cbn [length]. lia.
  - destruct (first_line _ _) as [k|] eqn:Hk; [|done]. intros [= <-].
    apply IH in Hk as (? & ? & ?). rewrite !at_line_cons in *. cbn [length]. lia.
Qed.

Lemma lines_before_spec bs stop : forall offset n,
  n = lines_before (line_spans offset bs) stop -> n < length bs ->
  (forall j, 0 < j <= n -> offset + at_line bs j < stop) /\ stop <= offset + at_line bs (S n).
Proof.
  induction bs as [|b bs IH]; intros offset n -> Hn; cbn [line_spans lines_before length line_end] in *; [lia|].
  destruct (Nat.ltb_spec (offset + String.length b) stop) as [Hlt|Hge].
  - destruct (IH (offset + String.length b) _ eq_refl) as [Hj Hs]; [lia|]. split.
    + intros [|j] Hj'; [lia|]. rewrite at_line_cons. destruct j as [|j]; [rewrite at_line_0; lia|].
      specialize (Hj (S j)). lia.
    + rewrite at_line_cons. lia.
  - split; [lia|]. rewrite at_line_cons, at_line_0. lia.
Qed.

Lemma drop_line_spans bs i offset : drop i (line_spans offset bs) = line_spans (offset + at_line bs i) (drop i bs).
Proof.
  revert bs offset. induction i as [|i IH]; intros bs offset; [by rewrite at_line_0, Nat.add_0_r|].
  destruct bs as [|b bs]; [done|]. cbn [drop line_spans]. rewrite IH, at_line_cons. by rewrite Nat.add_assoc.
Qed.

Lemma at_line_drop bs i j : at_line bs i + at_line (drop i bs) j = at_line bs (i + j).
Proof.
  revert bs. induction i as [|i IH]; intros bs; [by rewrite at_line_0|].
  destruct bs as [|b bs]; [unfold at_line; by rewrite drop_nil, !take_nil|].
  cbn [drop Nat.add]. rewrite !at_line_cons, <- IH. lia.
Qed.

(** A line that shares a byte with a replacement. *)
Definition touches (bs : list string) (e : MatchedEdit) (i : nat) : Prop :=
  match_index e < at_line bs (S i) /\ at_line bs i < match_end e.

Lemma lines_of_spec bs e start stop :
  0 < match_length e -> lines_of (line_spans 0 bs) e = Ok (start, stop) ->
  start < stop /\ stop <= length bs /\
  at_line bs start <= match_index e /\ match_index e < at_line bs (S start) /\
  match_end e <= at_line bs stop /\ forall i, start <= i < stop -> touches bs e i.
Proof.
  intros Hpos. unfold lines_of. destruct (first_line _ _) as [k|] eqn:Hk; [|done].
  rewrite line_spans_length, drop_line_spans.
  apply first_line_spec in Hk as (Hlen & Hlo & Hhi). cbn [Nat.add] in *.
  remember (lines_before (line_spans (at_line bs k) (drop k bs)) (match_end e)) as n eqn:Hn.
  destruct (Nat.leb_spec (length bs) (k + n)) as [|Hkn]; [done|]. intros [= <- <-].
  destruct (lines_before_spec _ _ _ _ Hn) as [Hj Hs]; [rewrite length_drop; lia|].
  rewrite at_line_drop in Hs. rewrite Nat.add_succ_r in Hs. split_and!; [lia|lia|lia|lia|done|].
  intros i Hi. unfold touches. split.
  - pose proof (at_line_mono bs (S k) (S i)). lia.
  - destruct (decide (i = k)) as [->|Hne]; [unfold match_end; lia|].
    specialize (Hj (i - k)). rewrite at_line_drop in Hj. replace (k + (i - k)) with i in Hj by lia. lia.
Qed.

(** ** Groups of lines *)

Lemma chained_snoc lo l e :
  chained lo l -> lo <= match_index e -> Forall (fun x => match_end x <= match_index e) l ->
  chained lo (l ++ [e]).
Proof.
  revert lo. induction l as [|x l IH]; intros lo Hc Hlo Hall; [done|].
  destruct Hc as [Hx Hc]. inversion Hall; subst. cbn. split; [done|]. by apply IH.
Qed.

Lemma chained_order lo l i j x y :
  chained lo l -> i < j -> l !! i = Some x -> l !! j = Some y -> match_end x <= match_index y.
Proof.
  revert lo i j. induction l as [|z l IH]; intros lo i j Hch Hij Hx Hy; [done|].
  destruct Hch as [Hz Hc].
  destruct j as [|j]; [lia|]. destruct i as [|i].
  - injection Hx as ->. clear -Hc Hy. change (l !! j = Some y) in Hy.
    revert j y Hy. generalize dependent (match_end x). clear.
    induction l as [|w l IH]; intros lo Hc j y Hy; [done|]. destruct Hc as [Hw Hc].
    destruct j as [|j]; [by injection Hy as ->|]. pose proof (IH _ Hc j y Hy). unfold match_end in *. lia.
  - apply (IH (match_end z) i j); [done|lia|done|done].
Qed.

Section Groups.
Context (bs : list string) (l : list MatchedEdit).
Abbreviation base := (String.concat "" bs).

Definition members (g : ReplacementGroup) : list MatchedEdit :=
  omap (fun i => l !! i) (replacement_indices g).

Record good (g : ReplacementGroup) : Prop := {
  good_some : members g <> [];
  good_lines : start_line g < end_line g;
  good_bound : end_line g <= length bs;
  good_chain : chained (at_line bs (start_line g)) (members g);
  good_end : Forall (fun e => match_end e <= at_line bs (end_line g)) (members g);
  good_touch : forall i, start_line g <= i < end_line g ->
    exists e, e ∈ members g /\ touches bs e i
}.

Fixpoint ordered (from : nat) (gs : list ReplacementGroup) : Prop :=
  match gs with
  | [] => from <= length bs
  | g :: rest => from <= start_line g /\ ordered (end_line g) rest
  end.

Lemma ordered_snoc from gs g :
  ordered from gs -> end_line g <= length bs ->
  match list.last gs with Some h => end_line h <= start_line g | None => from <= start_line g end ->
  ordered from (gs ++ [g]).
Proof.
  revert from. induction gs as [|h gs IH]; intros from Ho Hb Hl; [done|].
  destruct Ho as [Hh Ho]. cbn [app ordered]. split; [done|]. apply IH; [done..|]. destruct gs as [|r gs]; [exact Hl|].
  change (last (h :: r :: gs)) with (last (r :: gs)) in Hl.
  destruct (last (r :: gs)) eqn:Hr; [exact Hl|by apply last_None in Hr].
Qed.

Lemma ordered_grow from gs g g' :
  ordered from (gs ++ [g]) -> start_line g' = start_line g -> end_line g' <= length bs ->
  ordered from (gs ++ [g']).
Proof.
  revert from. induction gs as [|h gs IH]; intros from Ho Hs Hb.
  - destruct Ho as [Ho _]. cbn. by rewrite Hs.
  - destruct Ho as [Hh Ho]. cbn. split; [done|]. by apply IH.
Qed.

Record grouped (n : nat) (gs : list ReplacementGroup) : Prop := {
  grouped_good : Forall good gs;
  grouped_ordered : ordered 0 gs;
  grouped_all : concat (replacement_indices <$> gs) = seq 0 n
}.

Hypothesis Hchain : chained 0 l.
Hypothesis Hpos : Forall (fun e => 0 < match_length e) l.

Lemma members_before g n e x :
  (forall i, i ∈ replacement_indices g -> i < n) -> l !! n = Some e -> x ∈ members g ->
  match_end x <= match_index e.
Proof.
  intros Hi He (i & Hx & Hl)%list_elem_of_omap. by apply (chained_order 0 l i n); [|apply Hi| |].
Qed.

Lemma good_one n e start stop :
  l !! n = Some e -> lines_of (line_spans 0 bs) e = Ok (start, stop) ->
  good {| start_line := start; end_line := stop; replacement_indices := [n] |}.
Proof.
  intros He Hl. apply lines_of_spec in Hl as (? & ? & ? & _ & ? & Ht);
    [|by apply (Forall_lookup_1 _ _ _ _ Hpos He)].
  assert (members {| start_line := start; end_line := stop; replacement_indices := [n] |} = [e]) as Hm.
  { unfold members. cbn [replacement_indices]. cbn. change (list_lookup n l) with (l !! n). by rewrite He. }
  split; cbn [start_line end_line]; rewrite ?Hm; [done..|by split|by constructor|].
  intros i Hi. exists e. split; [apply list_elem_of_here|by apply Ht].
Qed.

Lemma good_more g n e start stop :
  good g -> (forall i, i ∈ replacement_indices g -> i < n) -> l !! n = Some e ->
  lines_of (line_spans 0 bs) e = Ok (start, stop) -> start < end_line g ->
  good {| start_line := start_line g; end_line := Nat.max (end_line g) stop;
          replacement_indices := replacement_indices g ++ [n] |}.
Proof.
  intros [Hs Hl Hb Hc He Ht] Hi Hn Hlines Hin.
  apply lines_of_spec in Hlines as (Hlt & Hstop & Hlo & Hhi & Hend & Htouch);
    [|by apply (Forall_lookup_1 _ _ _ _ Hpos Hn)].
  assert (members {| start_line := start_line g; end_line := Nat.max (end_line g) stop;
          replacement_indices := replacement_indices g ++ [n] |} = (members g ++ [e])%list) as Hm.
  { unfold members. cbn [replacement_indices]. rewrite omap_app. cbn.
    change (list_lookup n l) with (l !! n). by rewrite Hn. }
  assert (Forall (fun x => match_end x <= match_index e) (members g)) as Hbefore.
  { apply Forall_forall. intros x Hx. by apply (members_before g n). }
  split; cbn [start_line end_line]; rewrite ?Hm; try lia.
  - by destruct (members g).
  - apply chained_snoc; [done| |done]. destruct (members g) as [|x ms]; [done|].
    destruct Hc as [Hx _]. inversion Hbefore; subst. unfold match_end in *. lia.
  - apply Forall_app. split; [|constructor; [|done]].
    + eapply Forall_impl; [exact He|]. cbn. intros x Hx.
      pose proof (at_line_mono bs (end_line g) (Nat.max (end_line g) stop)). lia.
    + pose proof (at_line_mono bs stop (Nat.max (end_line g) stop)). lia.
  - intros i Hr. destruct (decide (i < end_line g)).
    + destruct (Ht i) as (x & Hx & Htx); [lia|]. exists x. split; [|done]. apply elem_of_app. by left.
    + exists e. split; [apply elem_of_app; right; apply list_elem_of_here|]. apply Htouch. lia.
Qed.

Lemma add_grouped n gs e start stop :
  grouped n gs -> l !! n = Some e -> lines_of (line_spans 0 bs) e = Ok (start, stop) ->
  grouped (S n) (add_to_groups gs start stop n).
Proof.
  intros [Hg Ho Ha] He Hl. unfold add_to_groups.
  assert (forall g i, g ∈ gs -> i ∈ replacement_indices g -> i < n) as Hlt.
  { intros g i Hin Hi. assert (i ∈ seq 0 n) as H%elem_of_seq; [|lia]. rewrite <- Ha.
    apply list_elem_of_In, in_concat. exists (replacement_indices g).
    split; apply list_elem_of_In; [|done]. apply list_elem_of_fmap. eauto. }
  pose proof (good_one n e start stop He Hl) as Hone.
  destruct (list.last gs) as [g|] eqn:Hlast.
  - apply last_Some in Hlast as [init ->]. rewrite fmap_app, concat_app in Ha. cbn in Ha.
    rewrite app_nil_r in Ha. apply Forall_app in Hg as [Hinit Hlastg]. inversion Hlastg as [|? ? Hgood _]; subst.
    assert (forall i, i ∈ replacement_indices g -> i < n) as Hltg
      by (intros i; apply Hlt, elem_of_app; right; apply list_elem_of_here).
    destruct (Nat.ltb_spec start (end_line g)) as [Hin|Hout].
    + rewrite removelast_last. pose proof (good_more g n e start stop Hgood Hltg He Hl Hin) as Hmore. split.
      * apply Forall_app. split; [done|]. by constructor.
      * apply (ordered_grow 0 init g); [done|done|apply good_bound, Hmore].
      * rewrite seq_S, fmap_app, concat_app. cbn. by rewrite app_nil_r, app_assoc, Ha.
    + split.
      * apply Forall_app. split; [by apply Forall_app|by constructor].
      * apply ordered_snoc; [done|apply (good_bound _ Hone)|]. by rewrite last_snoc.
      * rewrite seq_S, !fmap_app, !concat_app. cbn. by rewrite app_nil_r, Ha.
  - apply last_None in Hlast as ->. destruct n; [|done]. split; [by constructor| |done].
    cbn. split; [lia|apply (good_bound _ Hone)].
Qed.

Lemma group_replacements_spec rest : forall n gs gs',
  l = (take n l ++ rest)%list -> n <= length l -> grouped n gs ->
  group_replacements (line_spans 0 bs) n rest gs = Ok gs' -> grouped (length l) gs'.
Proof.
  induction rest as [|e rest IH]; intros n gs gs' Hl Hn Hg; cbn [group_replacements].
  - intros [= <-]. rewrite app_nil_r in Hl. assert (length l = n) as ->; [|done].
    apply (f_equal length) in Hl. rewrite length_take in Hl. lia.
  - destruct (lines_of _ e) as [[start stop]|] eqn:Hlines; [|done]. cbn [result_bind].
    assert (l !! n = Some e) as He.
    { rewrite Hl, lookup_app_r by (rewrite length_take; lia).
      rewrite length_take, Nat.min_l by lia. by rewrite Nat.sub_diag. }
    intros Hgr. apply (IH (S n) _ _) in Hgr; [done| |by apply lookup_lt_Some in He|by apply (add_grouped n gs e start stop)].
    rewrite (take_S_r _ _ e) by done. by rewrite <- app_assoc.
Qed.
End Groups.

(** ** The text written *)

Lemma sub_within a b c start len :
  start + len <= String.length b ->
  sub b start len = sub (a +:+ b +:+ c) (String.length a + start) len.
Proof.
  intros H. unfold sub. rewrite <- str_drop_drop, str_drop_app_length.
  rewrite str_drop_app by lia. by rewrite str_take_app_le by (rewrite str_drop_length; lia).
Qed.

Definition lines_text (bs : list string) (i j : nat) : string :=
  String.concat "" (take (j - i) (drop i bs)).

Lemma concat_split bs i j : i <= j ->
  String.concat "" bs = String.concat "" (take i bs) +:+ lines_text bs i j +:+ String.concat "" (drop j bs).
Proof.
  intros H. unfold lines_text. rewrite <- !str_concat_app. f_equal.
  rewrite <- (take_drop i bs) at 1. f_equal. rewrite <- (take_drop (j - i) (drop i bs)) at 1.
  by rewrite drop_drop, Nat.add_comm, Nat.sub_add.
Qed.

Lemma lines_text_length bs i j : i <= j ->
  String.length (lines_text bs i j) = at_line bs j - at_line bs i.
Proof.
  intros H. unfold lines_text, at_line. rewrite <- (take_drop i (take j bs)), str_concat_app, string_length_app.
  rewrite take_take, Nat.min_l by done. rewrite skipn_firstn_comm. lia.
Qed.

Lemma omap_seq {A} (p r : list A) :
  omap (fun i => (p ++ r)%list !! i) (seq (length p) (length r)) = r.
Proof.
  revert p. induction r as [|e r IH]; intros p; [done|]. cbn [length seq]. cbn [omap list_omap].
  rewrite lookup_app_r, Nat.sub_diag by lia. cbn [lookup list_lookup]. f_equal.
  specialize (IH (p ++ [e])%list). rewrite <- app_assoc, length_app, Nat.add_1_r in IH. exact IH.
Qed.

Lemma members_all (l : list MatchedEdit) gs :
  concat (replacement_indices <$> gs) = seq 0 (length l) -> concat (members l <$> gs) = l.
Proof.
  intros H. assert (concat (members l <$> gs) = omap (fun i => l !! i) (concat (replacement_indices <$> gs))) as ->.
  { clear. induction gs as [|g gs IH]; [done|]. cbn. rewrite omap_app. by rewrite <- IH. }
  rewrite H. apply (omap_seq [] l).
Qed.

Section Written.
Context (bs : list string) (l : list MatchedEdit) (originals : list string) (touched : nat -> Prop).
Abbreviation base := (String.concat "" bs).
Hypothesis Hlines : length originals = length bs.
Hypothesis Htouched : forall e i, e ∈ l -> touches bs e i -> touched i.

Lemma chained_starts lo ms : chained lo ms -> Forall (fun e => lo <= match_index e) ms.
Proof.
  revert lo. induction ms as [|e ms IH]; intros lo Hc; [done|]. destruct Hc as [Hlo Hc].
  constructor; [done|]. eapply Forall_impl; [apply (IH _ Hc)|]. cbn. unfold match_end. lia.
Qed.

Lemma group_text_spliced g : good bs l g ->
  spliced (pair_in base 0 <$> members l g) (lines_text bs (start_line g) (end_line g))
    (group_text base (line_spans 0 bs) l g).
Proof.
  intros [_ Hs Hb Hc He _]. unfold group_text.
  destruct (lookup_lt_is_Some_2 bs (start_line g)) as [b Hsb]; [lia|].
  destruct (lookup_lt_is_Some_2 bs (end_line g - 1)) as [b' Heb]; [lia|].
  rewrite !line_spans_lookup, Hsb, Heb. cbn [fmap option_fmap option_map from_option line_start line_end].
  cbn [Nat.add]. rewrite <- (at_line_S bs _ b') by done.
  replace (S (end_line g - 1)) with (end_line g) by lia.
  rewrite str_get_lines by lia. cbn [default]. fold (lines_text bs (start_line g) (end_line g)).
  set (text := lines_text bs (start_line g) (end_line g)).
  assert (String.length text = at_line bs (end_line g) - at_line bs (start_line g)) as Hlen
    by (apply lines_text_length; lia).
  pose proof (at_line_mono bs (start_line g) (end_line g)) as Hmono.
  destruct (apply_spliced text (at_line bs (start_line g)) (members l g) (at_line bs (start_line g)))
    as (t & Ht & Hsp); [done|lia|done| |].
  { eapply Forall_impl; [exact He|]. cbn. lia. }
  unfold id. fold (members l g). rewrite Ht, Nat.sub_diag. cbn [str_take str_drop] in *.
  rewrite string_app_nil_l. rewrite Nat.sub_diag in Hsp. cbn [str_drop] in Hsp.
  assert (pair_in base 0 <$> members l g
    = pair_in text (at_line bs (start_line g)) <$> members l g) as ->; [|done].
  apply list_fmap_ext. intros i e Hi. unfold pair_in. f_equal.
  pose proof (Forall_lookup_1 _ _ _ _ He Hi) as Hend. cbn in Hend.
  pose proof (Forall_lookup_1 _ _ _ _ (chained_starts _ _ Hc) Hi) as Hst. cbn in Hst.
  unfold match_end in Hend.
  rewrite (concat_split bs (start_line g) (end_line g)) by lia. fold text.
  rewrite (sub_within (String.concat "" (take (start_line g) bs)) text
             (String.concat "" (drop (end_line g) bs))) by lia.
  f_equal. unfold at_line at 1. unfold at_line in Hst. lia.
Qed.

Lemma rewritten_skip k os1 bs1 os bs' pairs t :
  length os1 = length bs1 -> rewritten touched (k + length bs1) os bs' pairs t ->
  rewritten touched k (os1 ++ os) (bs1 ++ bs') pairs (String.concat "" os1 +:+ t).
Proof.
  revert k bs1. induction os1 as [|o os1 IH]; intros k [|b bs1] Hl Hr; try done.
  - cbn in *. by rewrite Nat.add_0_r in Hr.
  - rewrite str_concat_cons, <- string_app_assoc. cbn [app]. constructor.
    apply IH; [by injection Hl|]. cbn in Hr. by rewrite Nat.add_succ_r in Hr.
Qed.

Lemma write_groups_rewritten gs : forall from,
  Forall (good bs l) gs -> ordered bs from gs ->
  rewritten touched from (drop from originals) (drop from bs)
    (pair_in base 0 <$> concat (members l <$> gs))
    (write_groups base originals (line_spans 0 bs) l from gs).
Proof.
  induction gs as [|g gs IH]; intros from Hg Ho; cbn [write_groups].
  - cbn in Ho. unfold slice_get. rewrite Nat.leb_refl, (proj2 (Nat.leb_le _ _)) by lia. cbn [andb default].
    rewrite take_ge by (rewrite length_drop; lia).
    pose proof (rewritten_skip from (drop from originals) (drop from bs) [] [] [] "") as H.
    rewrite !app_nil_r, string_app_nil_r in H.
    apply H; [rewrite !length_drop; lia|constructor].
  - destruct Ho as [Hf Ho]. inversion Hg as [|? ? Hgood Hrest]; subst.
    pose proof (good_lines _ _ _ Hgood). pose proof (good_bound _ _ _ Hgood).
    unfold slice_get. rewrite !(proj2 (Nat.leb_le _ _)) by lia. cbn [andb default]. unfold id.
    rewrite <- (take_drop (start_line g - from) (drop from originals)) at 1.
    rewrite <- (take_drop (start_line g - from) (drop from bs)).
    rewrite !drop_drop. replace (from + (start_line g - from)) with (start_line g) by lia.
    apply rewritten_skip; [rewrite !length_take, !length_drop; lia|].
    rewrite length_take, length_drop. replace (from + Nat.min (start_line g - from) (length bs - from)) with (start_line g) by lia.
    rewrite fmap_cons. cbn [concat]. rewrite fmap_app.
    rewrite <- (take_drop (end_line g - start_line g) (drop (start_line g) originals)).
    rewrite <- (take_drop (end_line g - start_line g) (drop (start_line g) bs)).
    rewrite !drop_drop. replace (start_line g + (end_line g - start_line g)) with (end_line g) by lia.
    assert (length (take (end_line g - start_line g) (drop (start_line g) bs)) = end_line g - start_line g)
      as Hlen by (rewrite length_take, length_drop; lia).
    apply rewritten_group.
    + rewrite !length_take, !length_drop. lia.
    + intros Hnil. rewrite Hnil in Hlen. cbn in Hlen. lia.
    + rewrite Hlen. intros i Hi. destruct (good_touch _ _ _ Hgood i) as (e & He & Ht); [lia|].
      apply (Htouched e); [|done]. unfold members in He.
      apply list_elem_of_omap in He as (j & _ & Hj). by apply list_elem_of_lookup_2 in Hj.
    + by apply group_text_spliced.
    + rewrite Hlen. replace (start_line g + (end_line g - start_line g)) with (end_line g) by lia. by apply IH.
Qed.


End Written.

(** A successful fuzzy application. *)
Lemma apply_preserving_rewritten original base l edited (touched : nat -> Prop) :
  chained 0 l -> Forall (fun e => 0 < match_length e) l ->
  (forall e i, e ∈ l -> touches (split_inclusive base) e i -> touched i) ->
  apply_preserving original base l = Ok edited ->
  rewritten touched 0 (split_inclusive original) (split_inclusive base) (pair_in base 0 <$> l) edited.
Proof.
  intros Hc Hp Ht. unfold apply_preserving. set (bs := split_inclusive base).
  assert (base = String.concat "" bs) as Hb
    by (symmetry; apply split_inclusive_concat).
  rewrite line_spans_length. destruct (Nat.eqb_spec (length (split_inclusive original)) (length bs)) as [Hl|];
    [|done]. cbn [negb].
  destruct (group_replacements _ _ _ _) as [gs|] eqn:Hg; [|done]. cbn [result_bind]. intros [= <-].
  apply (group_replacements_spec bs l Hc Hp l 0) in Hg as [Hgood Ho Ha];
    [|done|lia|by split; [|cbn; lia|]].
  rewrite Hb. rewrite <- (members_all l gs Ha) at 1.
  apply (write_groups_rewritten bs l _ touched Hl Ht gs 0 Hgood Ho).
Qed.
