(* ===== verification/Read.v ===== *)
(** The read tool: a page of a text file, or an image made fit to send.
    [crates/tools/src/builtin/read.rs]

    A 64-bit float is its value, an integer times a power of two; JSON has no
    other kind, and the check that a number is finite is kept.  The image codecs
    and base64 are other code's: the class [ImageLib]. *)

From S2P Require Import Prelude Lines Chars Text Scalar Json Message ToolContract ShellOutput Paths Edit.
Open Scope string_scope.
Open Scope rust_scope.

(** ** Numbers *)

Inductive F64 : Type :=
| Finite (mantissa exponent : Z)
| NotFinite.

(** An integer as the nearest float, ties to the even one. *)
Definition round53 (z : Z) : Z :=
  (if z <=? 2 ^ 53 then z
   else
     let unit := 2 ^ (Z.log2 z - 52) in
     let q := z / unit in
     let r := z mod unit in
     if (2 * r <? unit) || ((2 * r =? unit) && Z.even q) then q * unit else (q + 1) * unit)%Z.

(** The float with these bits. *)
Definition f64_of_bits (bits : Z) : F64 :=
  let sign := if Z.testbit bits 63 then (-1)%Z else 1%Z in
  let e := Z.land (Z.shiftr bits 52) 2047 in
  let frac := Z.land bits (2 ^ 52 - 1) in
  if (e =? 2047)%Z then NotFinite
  else if (e =? 0)%Z then Finite (sign * frac) (-1074)
  else Finite (sign * (frac + 2 ^ 52)) (e - 1075).

#[export] Instance from_value_f64 : FromValue F64 := fun v =>
  match v with
  | JNumber (PosInt n) => Ok (Finite (round53 n) 0)
  | JNumber (NegInt n) => Ok (Finite (if (n <? 0)%Z then - round53 (- n) else round53 n) 0)
  | JNumber (Float b) => Ok (f64_of_bits b)
  | _ => Err (JsonError "f64")
  end.

(** [x <= k] *)
Definition f64_le (m e k : Z) : bool :=
  (if 0 <=? e then m * 2 ^ e <=? k else m <=? k * 2 ^ (- e))%Z.
(** [f64::floor] *)
Definition f64_floor (m e : Z) : Z :=
  (if 0 <=? e then m * 2 ^ e else m / 2 ^ (- e))%Z.
(** The cast to [usize], which saturates. *)
Definition as_usize (z : Z) : Z := Z.max 0 (Z.min z u64_max).

(** ** Arguments *)

Record ReadArguments : Type := {
  read_path : string;
  offset : option F64;
  limit : option F64
}.
#[export] Instance from_value_read_arguments : FromValue ReadArguments := fun v =>
  let? m := as_object v in
  let? path := field "path" m in
  let? offset := opt_field "offset" m in
  let? limit := opt_field "limit" m in
  Ok {| read_path := path; offset := offset; limit := limit |}.
Definition read_arguments (c : ToolCall) : result ReadArguments ToolError :=
  map_err (fun e : json_error => let '(JsonError what) := e in
             ToolInvalidArguments (call_name c) what)
    (from_value (call_arguments c)).

(** [ReadArguments::start_line] *)
Definition start_line (a : ReadArguments) : result Z ToolError :=
  match offset a with
  | None => Ok 0%Z
  | Some NotFinite => Err (ToolInvalidArguments "read" "offset must be a finite number")
  | Some (Finite m e) =>
      if f64_le m e 1 then Ok 0%Z else Ok (as_usize (round53 (f64_floor m e - 1)))
  end.

(** [ReadArguments::line_limit] *)
Definition line_limit (a : ReadArguments) : result (option Z) ToolError :=
  match limit a with
  | None => Ok None
  | Some NotFinite => Err (ToolInvalidArguments "read" "limit must be a finite number")
  | Some (Finite m e) =>
      Ok (Some (if f64_le m e 0 then 0%Z else as_usize (f64_floor m e)))
  end.

(** [ReadTool::validate] *)
Definition read_validate (c : ToolCall) : result unit ToolError :=
  let? a := read_arguments c in
  let? _ := start_line a in
  let? _ := line_limit a in
  Ok tt.

(** ** Pages of text *)

(** What a page says after its text. *)
Inductive Notice : Type :=
| Nothing
| LongLine (line : nat) (size : string)
| Showing (first last total : nat) (by_bytes : bool)
| Remaining (more next : nat).

Section Pages.
Variable one_decimal : nat -> nat -> string.
Variable f64_text : F64 -> string.

Definition num_text (n : nat) : string := u64_to_string (Z.of_nat n).
Definition page_text (path content : string) (n : Notice) : string :=
  match n with
  | Nothing => content
  | LongLine line size =>
      "[Line " +:+ num_text line +:+ " is " +:+ size +:+ ", exceeds " +:+ format_size one_decimal DEFAULT_MAX_BYTES
      +:+ " limit. Use bash: sed -n '" +:+ num_text line +:+ "p' " +:+ path +:+ " | head -c "
      +:+ num_text DEFAULT_MAX_BYTES +:+ "]"
  | Showing first last total by_bytes =>
      content +:+ nl +:+ nl +:+ "[Showing lines " +:+ num_text first +:+ "-" +:+ num_text last +:+ " of "
      +:+ num_text total +:+ (if by_bytes then " (" +:+ format_size one_decimal DEFAULT_MAX_BYTES +:+ " limit)" else "")
      +:+ ". Use offset=" +:+ num_text (last + 1) +:+ " to continue.]"
  | Remaining more next =>
      content +:+ nl +:+ nl +:+ "[" +:+ num_text more +:+ " more lines in file. Use offset="
      +:+ num_text next +:+ " to continue.]"
  end.

(** The lines from [start] on that a limit lets through. *)
Definition end_of (limit : option Z) (start total : nat) : nat :=
  match limit with
  | Some limit => Z.to_nat (Z.min (u64_saturating_add (Z.of_nat start) limit) (Z.of_nat total))
  | None => total
  end.

Definition text_page (all : list string) (start : nat) (limit : option Z)
  : string * Notice * option TruncationDetails :=
  let total := length all in
  let stop := end_of limit start total in
  let selected := join nl (default [] (slice_get all start stop)) in
  let t := truncate_head selected DEFAULT_MAX_LINES DEFAULT_MAX_BYTES in
  let first := (start + 1)%nat in
  if first_line_exceeds_limit t then
    (td_content t, LongLine first (match all !! start with
                                   | Some line => format_size one_decimal (String.length line)
                                   | None => "0B"
                                   end), Some t)
  else if truncated t then
    let last := (first + Z.to_nat (output_lines t) - 1)%nat in
    (td_content t, Showing first last total (negb (match truncated_by t with Some LimitLines => true | _ => false end)), Some t)
  else if match limit with Some _ => Nat.ltb stop total | None => false end then
    (td_content t, Remaining (total - stop) (stop + 1), None)
  else (td_content t, Nothing, None).

(** The text part of [ReadTool::execute]: the page and what to say after it. *)
Definition read_page (tool : string) (a : ReadArguments) (text : string)
  : result (string * Notice * option TruncationDetails) ToolError :=
  let all := split_char newline text in
  let? start := start_line a in
  if (Z.of_nat (length all) <=? start)%Z then
    Err (ToolExecution tool ("Offset " +:+ f64_text (default (Finite 0 0) (offset a)) +:+ " is beyond end of file ("
      +:+ num_text (length all) +:+ " lines total)"))
  else
    let? limit := line_limit a in
    Ok (text_page all (Z.to_nat start) limit).
Definition read_text (tool : string) (a : ReadArguments) (text : string)
  : result (string * option ToolResultDetails) ToolError :=
  let? page := read_page tool a text in
  let '(content, notice, cut) := page in
  Ok (page_text (read_path a) content notice, ReadDetails <$> cut).
End Pages.

(** ** Images *)

Inductive ImageKind : Type := Jpeg | Png | Gif | Webp | Bmp.

Definition bytes_get (s : string) (from to : Z) : option string :=
  if (from <=? to)%Z && (to <=? Z.of_nat (String.length s))%Z
  then Some (str_take (Z.to_nat (to - from)) (str_drop (Z.to_nat from) s)) else None.
(** Bytes as a number, the least significant first. *)
Fixpoint little_endian (s : string) : Z :=
  match s with String a r => (byte_of a + 256 * little_endian r)%Z | EmptyString => 0%Z end.
Fixpoint big_endian (acc : Z) (s : string) : Z :=
  match s with String a r => big_endian (256 * acc + byte_of a) r | EmptyString => acc end.

(** [ImageHeader] *)
Definition u32_be (s : string) (offset : Z) : option Z := big_endian 0 <$> bytes_get s offset (offset + 4).
Definition u32_le (s : string) (offset : Z) : option Z := little_endian <$> bytes_get s offset (offset + 4).
Definition u16_le (s : string) (offset : Z) : option Z := little_endian <$> bytes_get s offset (offset + 2).

Definition png_signature : string :=
  String "137" (String "080" (String "078" (String "071" (String "013" (String "010" (String "026" (String "010" ""))))))).

(** The loop over a PNG's chunks. *)
Fixpoint png_chunks (fuel : nat) (s : string) (offset : Z) : option bool :=
  match fuel with
  | O => None
  | S fuel =>
      if (offset + 8 <=? Z.of_nat (String.length s))%Z then
        match u32_be s offset with
        | None => Some false
        | Some len =>
            let chunk := bytes_get s (offset + 4) (offset + 8) in
            if bool_decide (chunk = Some "acTL") then Some false
            else if bool_decide (chunk = Some "IDAT") then Some true
            else
              let next := (offset + 12 + len)%Z in
              if (next <=? offset)%Z || (Z.of_nat (String.length s) <? next)%Z then Some true
              else png_chunks fuel s next
        end
      else Some true
  end.

(** [ImageKind::is_still_png] *)
Definition is_still_png (s : string) : bool :=
  if Nat.ltb (String.length s) 16 || negb (bool_decide (u32_be s 8 = Some 13%Z))
     || negb (bool_decide (bytes_get s 12 16 = Some "IHDR")) then false
  else default false (png_chunks (S (String.length s)) s 8).

(** [ImageKind::is_bmp] *)
Definition is_bmp (s : string) : bool :=
  if Nat.ltb (String.length s) 26 then false
  else
    match u32_le s 2, u32_le s 10, u32_le s 14 with
    | Some declared, Some pixels, Some dib =>
        if (negb (declared =? 0) && (declared <? 26)
            || (pixels <? Z.min (14 + dib) u32_max)
            || negb (declared =? 0) && (declared <=? pixels))%Z then false
        else
          let depth :=
            if (dib =? 12)%Z then
              planes ← u16_le s 22; bits ← u16_le s 24; Some (planes, bits)
            else if ((40 <=? dib) && (dib <=? 124))%Z && Nat.leb 30 (String.length s) then
              planes ← u16_le s 26; bits ← u16_le s 28; Some (planes, bits)
            else None in
          match depth with
          | Some (planes, bits) => (planes =? 1)%Z && existsb (Z.eqb bits) [1; 4; 8; 16; 24; 32]%Z
          | None => false
          end
    | _, _, _ => false
    end.

(** [ImageKind::detect] *)
Definition detect (s : string) : option ImageKind :=
  if starts_with (String "255" (String "216" (String "255" ""))) s
     && negb (bool_decide (String.get 3 s = Some "247"%char)) then Some Jpeg
  else if starts_with png_signature s && is_still_png s then Some Png
  else if starts_with "GIF" s then Some Gif
  else if starts_with "RIFF" s && bool_decide (bytes_get s 8 12 = Some "WEBP") then Some Webp
  else if starts_with "BM" s && is_bmp s then Some Bmp
  else None.

Definition mime_type (k : ImageKind) : string :=
  match k with
  | Jpeg => "image/jpeg" | Png => "image/png" | Gif => "image/gif" | Webp => "image/webp" | Bmp => "image/bmp"
  end.

(** What the codecs do. *)
Class ImageLib := {
  Decoded : Type;
  load_image : ImageKind -> string -> option Decoded;
  dimensions : Decoded -> Z * Z;
  resize_exact : Decoded -> Z -> Z -> Decoded;
  encode_png : Decoded -> option string;
  encode_jpeg : Decoded -> Z -> option string;
  base64 : string -> string;
  (** The quotient of two integers with two decimal places. *)
  two_decimals : Z -> Z -> string
}.

Record ProcessedImage : Type := {
  image_data : string;
  image_mime : string;
  hints : list string
}.

Definition MAX_DIMENSION : Z := 2000.
Definition MAX_BASE64_BYTES : Z := 4718592.

(** The base64 length of some bytes. *)
Definition encoded_size (s : string) : Z := (div_ceil (Z.of_nat (String.length s)) 3 * 4)%Z.

(** The other side of an image whose longer side becomes the maximum. *)
Definition scaled (other side : Z) : Z := ((other * MAX_DIMENSION + side / 2) / side mod 2 ^ 32)%Z.
Definition target_size (width height : Z) : Z * Z :=
  let '(w, h) := if (MAX_DIMENSION <? width)%Z then (MAX_DIMENSION, scaled height width) else (width, height) in
  let '(w, h) := if (MAX_DIMENSION <? h)%Z then (scaled w h, MAX_DIMENSION) else (w, h) in
  (Z.max w 1, Z.max h 1).
Definition next_side (side : Z) : Z := if (side =? 1)%Z then 1%Z else Z.max (side * 3 / 4) 1.

Section Images.
Context `{ImageLib}.

Definition candidates (i : Decoded) : option (list (string * ImageKind)) :=
  png ← encode_png i;
  Some ((png, Png) :: omap (fun quality => (fun jpeg => (jpeg, Jpeg)) <$> encode_jpeg i quality) [80; 85; 70; 55; 40]%Z).

Definition converted_hint (from : option ImageKind) (to : ImageKind) : list string :=
  match from with
  | Some from => ["[Image converted from " +:+ mime_type from +:+ " to " +:+ mime_type to +:+ ".]"]
  | None => []
  end.

(** The loop over ever smaller sizes; [None] is out of fuel. *)
Fixpoint resize_loop (fuel : nat) (i : Decoded) (from : option ImageKind) (width height : Z)
  : option (option ProcessedImage) :=
  match fuel with
  | O => None
  | S fuel =>
      match candidates (resize_exact i width height) with
      | None => Some None
      | Some l =>
          match head (List.filter (fun c => (encoded_size c.1 <? MAX_BASE64_BYTES)%Z) l) with
          | Some (bytes, kind) =>
              let '(original_width, original_height) := dimensions i in
              Some (Some {| image_data := base64 bytes; image_mime := mime_type kind;
                hints := (converted_hint from kind ++
                  ["[Image: original " +:+ u64_to_string original_width +:+ "x" +:+ u64_to_string original_height
                   +:+ ", displayed at " +:+ u64_to_string width +:+ "x" +:+ u64_to_string height
                   +:+ ". Multiply coordinates by " +:+ two_decimals original_width width
                   +:+ " to map to original image.]"])%list |})
          | None =>
              if (width =? 1)%Z && (height =? 1)%Z then Some None
              else if (next_side width =? width)%Z && (next_side height =? height)%Z then Some None
              else resize_loop fuel i from (next_side width) (next_side height)
          end
      end
  end.

(** [ImageProcessor::process] *)
Definition process (kind : ImageKind) (bytes : string) : option ProcessedImage :=
  decoded ← load_image kind bytes;
  let '(width, height) := dimensions decoded in
  '(normalized, normalized_kind, from) ←
    match kind with
    | Bmp => png ← encode_png decoded; Some (png, Png, Some kind)
    | _ => Some (bytes, kind, None)
    end;
  if (width <=? MAX_DIMENSION)%Z && (height <=? MAX_DIMENSION)%Z
     && (encoded_size normalized <? MAX_BASE64_BYTES)%Z then
    Some {| image_data := base64 normalized; image_mime := mime_type normalized_kind;
            hints := converted_hint from normalized_kind |}
  else
    let '(w, h) := target_size width height in
    default None (resize_loop (Z.to_nat (w + h)) decoded from w h).

Definition image_blocks (kind : ImageKind) (p : option ProcessedImage) : list ContentBlock :=
  match p with
  | Some p =>
      [Text ("Read image file [" +:+ image_mime p +:+ "]"
             +:+ match hints p with [] => "" | l => nl +:+ join nl l end);
       Image (image_data p) (image_mime p)]
  | None =>
      [Text ("Read image file [" +:+ mime_type kind +:+ "]" +:+ nl +:+
             "[Image omitted: could not be converted to a supported inline image format.]")]
  end.

(** ** The tool *)

Variable one_decimal : nat -> nat -> string.
Variable f64_text : F64 -> string.
Variable home_dir : option string.
Variable url_file_path : string -> option string.
Variable nfd : string -> string.
Variable try_exists : string -> result bool string.

(** [ReadTool::execute] *)
Definition read_execute (d : Disk) (cwd : string) (c : ToolCall) : M Files ToolError ToolResultData :=
  let! _ := ensure_tool_active d 0 in
  let! a := m_lift (read_arguments c) in
  let! path := m_lift (path_for_read home_dir url_file_path nfd try_exists (read_path a) cwd) in
  let! bytes := map_error (fun e => ToolExecution (call_name c) (io_text e)) (read_file d path) in
  let! _ := ensure_tool_active d 1 in
  match detect bytes with
  | Some kind =>
      m_ret {| result_call_id := call_id c; result_blocks := image_blocks kind (process kind bytes);
               result_is_error := false; result_details := None; result_output := None; result_cancelled := false |}
  | None =>
      let! (output, details) := m_lift (read_text one_decimal f64_text (call_name c) a (from_utf8_lossy bytes)) in
      m_ret (text_result (call_id c) output false details)
  end.

(** [ReadTool::locations] *)
Definition read_locations (cwd : string) (c : ToolCall) : list ToolLocation :=
  match read_arguments c with
  | Err _ => []
  | Ok a =>
      match path_for_read home_dir url_file_path nfd try_exists (read_path a) cwd with
      | Err _ => []
      | Ok path =>
          let line := start ← (offset a ≫= fun _ => ok (start_line a));
                      let line := u64_saturating_add start 1 in
                      if (line <=? u32_max)%Z then Some line else None in
          [{| location_path := path; location_line := line |}]
      end
  end.
End Images.
