(* ===== verification/OutputWindow.v ===== *)
(** Why a bounded window of a command's output is enough: the counters are
    exact, the window is a suffix of everything printed, and the tail shown is
    the tail of all of it. *)

From S2P Require Import Prelude Lines Chars Scalar Json Message ShellOutput.
Open Scope string_scope.

(** ** Lines of a text *)

(** Every text is complete lines and an open one. *)
Lemma lines_of s : exists ls t, s = unlines ls +:+ t /\ Forall one_line ls /\ one_line t.
Proof.
  induction s as [|a s (ls & t & -> & Hls & Ht)]; [by exists [], ""|].
  destruct (Ascii.eqb a newline) eqn:Ha.
  - apply Ascii.eqb_eq in Ha as ->. exists ("" :: ls), t. split_and!; [done|by constructor|done].
  - assert (forall l, one_line l -> one_line (String a l)) as Hcons.
    { intros l Hl. unfold one_line. cbn [has_char]. by rewrite Ha. }
    destruct ls as [|l ls].
    + exists [], (String a t). split_and!; auto.
    + exists (String a l :: ls), t. apply Forall_cons in Hls as [Hl Hls].
      split_and!; [|constructor; auto|done]. cbn. by rewrite <- !string_app_assoc.
Qed.

Lemma counted_lines_of ls t :
  Forall one_line ls -> one_line t ->
  counted_lines (unlines ls +:+ t) = (ls ++ if String.eqb t "" then [] else [t])%list.
Proof.
  intros Hls Ht. unfold counted_lines.
  destruct (unlines ls +:+ t) as [|b s] eqn:Hs.
  - destruct ls as [|l ls]; [by destruct t|]. by destruct l.
  - rewrite <- Hs. rewrite split_unlines, split_char_none by done.
    destruct (String.eqb_spec t "") as [->|Hne].
    + rewrite string_app_nil_r, app_nil_r. rewrite unlines_ends.
      * apply removelast_last.
      * intros ->. discriminate Hs.
    + rewrite ends_with_char_app, ends_with_char_none by done. done.
Qed.

Lemma counted_lines_app ls t rest :
  Forall one_line ls -> t = "" ->
  counted_lines (unlines ls +:+ t +:+ rest) = (ls ++ counted_lines rest)%list.
Proof.
  intros Hls ->. rewrite string_app_nil_l. destruct (lines_of rest) as (ms & u & -> & Hms & Hu).
  rewrite string_app_assoc, <- unlines_app.
  rewrite !counted_lines_of by (done || by apply Forall_app). by rewrite <- app_assoc.
Qed.

Lemma counted_lines_one_line s : Forall one_line (counted_lines s).
Proof.
  destruct (lines_of s) as (ls & t & -> & Hls & Ht). rewrite counted_lines_of by done.
  apply Forall_app. split; [done|]. by destruct (String.eqb t ""); repeat constructor.
Qed.

(** A text is its lines joined, up to a final newline. *)
Lemma counted_lines_join s :
  s = join nl (counted_lines s) \/ s = join nl (counted_lines s) +:+ nl.
Proof.
  destruct (lines_of s) as (ls & t & -> & Hls & Ht). rewrite counted_lines_of by done.
  destruct (String.eqb_spec t "") as [->|Hne].
  - rewrite string_app_nil_r, app_nil_r. destruct ls as [|l ls]; [by left|].
    right. by rewrite join_unlines.
  - left. destruct ls as [|l ls]; [done|]. rewrite join_snoc by done.
    by rewrite <- join_unlines, <- string_app_assoc.
Qed.

(** ** The counters *)

Lemma count_newlines_app a b : count_newlines (a +:+ b) = count_newlines a + count_newlines b.
Proof.
  induction a as [|x a IH]; [done|]. rewrite string_app_cons. cbn [count_newlines]. lia.
Qed.

Lemma after_last_newline_app a b :
  after_last_newline (a +:+ b) =
    match after_last_newline b with
    | Some n => Some n
    | None => (fun n => n + String.length b) <$> after_last_newline a
    end.
Proof.
  induction a as [|x a IH].
  { rewrite string_app_nil_l. by destruct (after_last_newline b). }
  rewrite string_app_cons. cbn [after_last_newline]. rewrite IH.
  destruct (after_last_newline b); [done|]. destruct (after_last_newline a); [done|].
  cbn. destruct (Ascii.eqb x newline); [|done]. cbn. by rewrite string_length_app.
Qed.

(** The bytes of the open line. *)
Definition open_bytes (s : string) : nat := default (String.length s) (after_last_newline s).

Lemma one_line_counts t :
  one_line t -> count_newlines t = 0 /\ after_last_newline t = None.
Proof.
  unfold one_line. induction t as [|a t IH]; [done|].
  intros [Ha Ht]%orb_false_iff. destruct (IH Ht) as [Hc Hn]. cbn. by rewrite Ha, Hc, Hn.
Qed.

Lemma counts_of ls t :
  Forall one_line ls -> one_line t ->
  count_newlines (unlines ls +:+ t) = length ls /\ open_bytes (unlines ls +:+ t) = String.length t.
Proof.
  intros Hls Ht. destruct (one_line_counts t Ht) as [Hc Hn].
  assert (count_newlines (unlines ls) = length ls) as Hu.
  { induction Hls as [|l ls Hl Hls IH]; [done|].
    change (unlines (l :: ls)) with (l +:+ nl +:+ unlines ls).
    rewrite !count_newlines_app, IH. destruct (one_line_counts l Hl) as [-> _]. done. }
  split.
  - rewrite count_newlines_app, Hu, Hc. lia.
  - unfold open_bytes. rewrite after_last_newline_app, Hn.
    destruct (last ls) as [x|] eqn:Hl; [|apply last_None in Hl as ->; done].
    apply last_Some in Hl as [ls' ->]. rewrite unlines_snoc, !after_last_newline_app. done.
Qed.

Lemma counted_lines_length s :
  length (counted_lines s) = count_newlines s + (if Nat.ltb 0 (open_bytes s) then 1 else 0).
Proof.
  destruct (lines_of s) as (ls & t & -> & Hls & Ht).
  destruct (counts_of ls t Hls Ht) as [-> ->]. rewrite counted_lines_of by done.
  rewrite length_app. by destruct t.
Qed.

Lemma open_bytes_app a b :
  open_bytes (a +:+ b) =
    match after_last_newline b with Some n => n | None => open_bytes a + String.length b end.
Proof.
  unfold open_bytes. rewrite after_last_newline_app. destruct (after_last_newline b); [done|].
  destruct (after_last_newline a); [done|]. cbn. by rewrite string_length_app.
Qed.

(** ** What the accumulator knows of everything printed so far *)

Record counted (full : string) (a : OutputAccumulator) : Prop := {
  counted_seen : seen_bytes a = String.length full;
  counted_completed : completed_lines a = count_newlines full;
  counted_current : current_line_bytes a = open_bytes full;
  counted_open : has_open_line a = Nat.ltb 0 (open_bytes full)
}.

(** The window: a suffix, everything if short, and between its size and twice that. *)
Definition windowed (full : string) (a : OutputAccumulator) : Prop := exists dropped,
  full = dropped +:+ rolling a /\
  rolling_starts_at_line_boundary a = String.eqb dropped "" || ends_with_char newline dropped /\
  (dropped = "" \/ max_rolling_bytes a <= String.length (rolling a)) /\
  String.length (rolling a) <= max_rolling_bytes a * 2.

(** The spool: nothing while the output is short, and all of it after. *)
Definition spooled (full : string) (a : OutputAccumulator) : Prop :=
  match full_output_file a with
  | Some file => file = full /\ is_Some (full_output_path a)
  | None => String.concat "" (pending_chunks a) = full /\ is_truncated a = false
  end.

Lemma count_chunk_counted full data a :
  counted full a -> counted (full +:+ data) (count_chunk data a).
Proof.
  intros [Hs Hc Hl Ho]. unfold count_chunk.
  assert (forall c cur (open : bool),
    c = count_newlines (full +:+ data) -> cur = open_bytes (full +:+ data) ->
    open = Nat.ltb 0 (open_bytes (full +:+ data)) ->
    counted (full +:+ data) {| visible_lines := visible_lines a; visible_bytes := visible_bytes a;
      max_rolling_bytes := max_rolling_bytes a; rolling := rolling a;
      rolling_starts_at_line_boundary := rolling_starts_at_line_boundary a;
      pending_chunks := pending_chunks a;
      seen_bytes := seen_bytes a + String.length data; completed_lines := c;
      current_line_bytes := cur; has_open_line := open;
      full_output_path := full_output_path a; full_output_file := full_output_file a |}) as Hmake.
  { intros c cur open -> -> ->. split; cbn; try done. by rewrite Hs, string_length_app. }
  assert (after_last_newline data = None -> count_newlines data = 0) as Hnone.
  { clear. induction data as [|b data IH]; [done|]. cbn.
    destruct (after_last_newline data); [done|]. destruct (Ascii.eqb b newline); [done|auto]. }
  rewrite count_newlines_app, open_bytes_app in Hmake.
  destruct (after_last_newline data) as [n|]; [apply Hmake; auto|].
  destruct data as [|b data].
  - apply Hmake; [rewrite Hc; cbn; lia|rewrite Hl; cbn; lia|rewrite Ho; cbn; by rewrite Nat.add_0_r].
  - rewrite Hnone in Hmake by done. apply Hmake; [lia|by rewrite Hl|].
    symmetry. apply Nat.ltb_lt. cbn [String.length]. lia.
Qed.

Lemma get_last s : s <> "" ->
  bool_decide (String.get (String.length s - 1) s = Some newline) = ends_with_char newline s.
Proof.
  induction s as [|a s IH]; [done|]. intros _. destruct s as [|b s].
  - cbn. destruct (Ascii.eqb_spec a newline) as [->|Hne].
    + by apply bool_decide_eq_true_2.
    + apply bool_decide_eq_false_2. congruence.
  - specialize (IH ltac:(done)). cbn [String.length] in IH |- *.
    replace (S (S (String.length s)) - 1) with (S (String.length s)) by lia.
    cbn [String.get]. replace (S (String.length s) - 1) with (String.length s) in IH by lia.
    exact IH.
Qed.

Lemma get_app n a b : n < String.length a -> String.get n (a +:+ b) = String.get n a.
Proof.
  revert n. induction a as [|x a IH]; intros n Hn; [cbn in Hn; lia|].
  rewrite string_app_cons. destruct n; [done|]. cbn. apply IH. cbn in Hn. lia.
Qed.

Lemma roll_chunk_windowed full data a :
  0 < max_rolling_bytes a -> windowed full a -> windowed (full +:+ data) (roll_chunk data a).
Proof.
  intros Hpos (dropped & -> & Hflag & Hlen & Hmost). unfold roll_chunk.
  set (text := rolling a +:+ data).
  destruct (Nat.ltb_spec (max_rolling_bytes a * 2) (String.length text)) as [Hlt|Hge].
  - set (start := String.length text - max_rolling_bytes a).
    exists (dropped +:+ str_take start text). cbn.
    assert (String.length (str_take start text) = start) as Hstart
      by (rewrite str_take_length; lia).
    assert (str_take start text <> "") as Hne by (intros He; rewrite He in Hstart; cbn in Hstart; lia).
    split_and!.
    + rewrite <- (string_app_assoc dropped (str_take start text)), str_take_drop.
      unfold text. by rewrite <- string_app_assoc.
    + destruct (Nat.eqb_spec start 0); [lia|]. cbn [orb].
      rewrite ends_with_char_app by done. rewrite <- get_last, Hstart by done.
      assert (String.get (start - 1) text = String.get (start - 1) (str_take start text)) as ->;
        [|destruct (dropped +:+ str_take start text) eqn:He; [by destruct dropped|done]].
      rewrite <- (str_take_drop start text) at 1. apply get_app. lia.
    + right. rewrite str_drop_length. lia.
    + rewrite str_drop_length. lia.
  - exists dropped. cbn. unfold text. split_and!.
    + by rewrite string_app_assoc.
    + done.
    + destruct Hlen as [|Hlen]; [by left|right]. rewrite string_length_app. lia.
    + exact Hge.
Qed.

(** Fields a step leaves alone. *)
Definition limits (a : OutputAccumulator) := (visible_lines a, visible_bytes a, max_rolling_bytes a).

Lemma is_truncated_counted full a :
  counted full a ->
  is_truncated a = negb (Nat.leb (length (counted_lines full)) (visible_lines a)
                         && Nat.leb (String.length full) (visible_bytes a)).
Proof.
  intros [Hs Hc _ Ho]. unfold is_truncated, seen_lines.
  rewrite Hs, Hc, Ho, <- counted_lines_length, !Nat.ltb_antisym. by rewrite <- negb_andb, andb_comm.
Qed.

Lemma concat_snoc l x : String.concat "" (l ++ [x])%list = String.concat "" l +:+ x.
Proof.
  induction l as [|a [|b l] IH]; [done| |].
  - cbn. done.
  - change (String.concat "" ((a :: b :: l) ++ [x])%list)
      with (a +:+ "" +:+ String.concat "" ((b :: l) ++ [x])%list).
    rewrite IH. change (String.concat "" (a :: b :: l)) with (a +:+ "" +:+ String.concat "" (b :: l)).
    by rewrite <- !string_app_assoc.
Qed.

Record tracked (full : string) (a : OutputAccumulator) : Prop := {
  tracked_counted : counted full a;
  tracked_windowed : windowed full a;
  tracked_spooled : spooled full a
}.

Lemma append_tracked full io data a r a' :
  0 < max_rolling_bytes a -> tracked full a ->
  append_output io data a = (r, a') -> is_ok r = true ->
  tracked (full +:+ data) a' /\ limits a' = limits a.
Proof.
  intros Hpos [Hc Hw Hs] Hr Hok. unfold append_output in Hr.
  pose proof (count_chunk_counted full data a Hc) as Hc1.
  assert (windowed full (count_chunk data a) /\ limits (count_chunk data a) = limits a /\
    full_output_file (count_chunk data a) = full_output_file a /\
    full_output_path (count_chunk data a) = full_output_path a /\
    pending_chunks (count_chunk data a) = pending_chunks a) as (Hw1 & Hl1 & Hf1 & Hp1 & Hk1).
  { unfold count_chunk. destruct (after_last_newline data); [done|]. by destruct data. }
  set (b := count_chunk data a) in *.
  assert (windowed (full +:+ data) (roll_chunk data b)) as Hw2.
  { apply roll_chunk_windowed; [|done]. by injection Hl1 as _ _ ->. }
  assert (counted (full +:+ data) (roll_chunk data b) /\ limits (roll_chunk data b) = limits b /\
    full_output_file (roll_chunk data b) = full_output_file b /\
    full_output_path (roll_chunk data b) = full_output_path b /\
    pending_chunks (roll_chunk data b) = pending_chunks b) as (Hc2 & Hl2 & Hf2 & Hp2 & Hk2).
  { unfold roll_chunk. destruct (Nat.ltb _ _); (split_and!; [by destruct Hc1|done..]). }
  set (c := roll_chunk data b) in *. clearbody b c.
  unfold spool_chunk in Hr. unfold spooled in Hs. rewrite Hf2, Hf1 in Hr.
  destruct (full_output_file a) as [file|] eqn:Hfile.
  - destruct Hs as [-> Hpath].
    destruct (write_fails io) as [[? ?]|]; injection Hr as <- <-; [done|].
    split; [|cbn; unfold limits in *; cbn; congruence].
    split; [by destruct Hc2|exact Hw2|]. split; [done|]. cbn. by rewrite Hp2, Hp1.
  - destruct Hs as [Hpend _].
    set (d := set_spool (pending_chunks c ++ [data])%list (full_output_path c) None c) in *.
    assert (counted (full +:+ data) d) as Hd by (by destruct Hc2).
    assert (windowed (full +:+ data) d) as Hwd by exact Hw2.
    assert (String.concat "" (pending_chunks d) = full +:+ data) as Hcat.
    { cbn. by rewrite concat_snoc, Hk2, Hk1, Hpend. }
    assert (limits d = limits a) as Hld by (unfold limits in *; cbn; congruence).
    destruct (is_truncated d) eqn:Htrunc.
    + unfold ensure_full_output_file in Hr. cbn [d full_output_file set_spool] in Hr.
      destruct (write_fails io) as [[? ?]|]; [injection Hr as <- _; done|].
      destruct (new_path io); injection Hr as <- <-; [|done].
      split; [|exact Hld]. split; [by destruct Hd|exact Hwd|]. split; [exact Hcat|done].
    + injection Hr as <- <-. split; [|exact Hld]. split; [done..|]. by split.
Qed.

Lemma chunks_tracked io chunks : forall full a r a',
  0 < max_rolling_bytes a -> tracked full a ->
  append_chunks io chunks a = (r, a') -> is_ok r = true ->
  tracked (full +:+ String.concat "" chunks) a' /\ limits a' = limits a.
Proof.
  induction chunks as [|data chunks IH]; intros full a r a' Hpos Ht Hr Hok.
  - injection Hr as <- <-. cbn. by rewrite string_app_nil_r.
  - cbn [append_chunks] in Hr. unfold m_bind in Hr.
    destruct (append_output io data a) as [[[]|e] b] eqn:Hb; [|by injection Hr as <- _].
    destruct (append_tracked _ _ _ _ _ _ Hpos Ht Hb eq_refl) as [Ht' Hl].
    destruct (IH _ _ _ _ ltac:(by injection Hl as _ _ ->) Ht' Hr Hok) as [Hall Hl'].
    split; [|congruence]. replace (full +:+ String.concat "" (data :: chunks))
      with ((full +:+ data) +:+ String.concat "" chunks); [done|].
    rewrite <- string_app_assoc. f_equal. destruct chunks; [cbn; by rewrite string_app_nil_r|done].
Qed.

Lemma accumulator_tracked lines bytes rolling_bytes :
  tracked "" (accumulator_of lines bytes rolling_bytes).
Proof.
  split; [done|exists ""; split_and!; [done|done|by left|cbn; lia]|]. by split.
Qed.

(** ** Decoding a suffix of well-formed text *)

Lemma cont_range a : cont a = true -> (128 <= byte_of a <= 191)%Z.
Proof. unfold cont, in_range. rewrite andb_true_iff, !Z.leb_le. lia. Qed.

Lemma lossy_valid s : utf8_valid s = true -> from_utf8_lossy s = s.
Proof.
  remember (String.length s) as n eqn:Hn. revert s Hn.
  induction n as [n IH] using lt_wf_ind. intros s -> Hs.
  destruct s as [|a s]; [done|]. cbn [utf8_valid from_utf8_lossy] in *.
  destruct (byte_of a <? 128)%Z; [by rewrite (IH (String.length s)) by (cbn; auto with lia)|].
  destruct s as [|b s]; [done|].
  destruct (in_range (byte_of a) 194 223).
  { apply andb_true_iff in Hs as [-> Hs].
    by rewrite (IH (String.length s)) by (cbn; auto with lia). }
  destruct s as [|c s]; [done|].
  destruct (in_range (byte_of a) 224 239) eqn:H3.
  { apply andb_true_iff in Hs as [[Hb ->]%andb_true_iff Hs]. unfold second_of_three.
    unfold cont in Hb. rewrite Hb. by rewrite (IH (String.length s)) by (cbn; auto with lia). }
  destruct s as [|d s]; [done|].
  destruct (in_range (byte_of a) 240 244) eqn:H4; [|done].
  apply andb_true_iff in Hs as [[[Hb ->]%andb_true_iff ->]%andb_true_iff Hs]. unfold second_of_four.
  unfold cont in Hb. rewrite Hb. by rewrite (IH (String.length s)) by (cbn; auto with lia).
Qed.

Fixpoint all_cont (s : string) : bool :=
  match s with String a r => cont a && all_cont r | EmptyString => true end.

(** A suffix of well-formed text starts with the end of a character. *)
Lemma valid_suffix a : forall b, utf8_valid (a +:+ b) = true ->
  exists c v, b = c +:+ v /\ all_cont c = true /\ String.length c <= 3 /\ utf8_valid v = true.
Proof.
  remember (String.length a) as n eqn:Hn. revert a Hn.
  induction n as [n IH] using lt_wf_ind. intros a -> b Hab.
  destruct a as [|x a].
  { exists "", b. split_and!; [done|done|cbn; lia|done]. }
  assert (forall c v, b = c +:+ v -> all_cont c = true -> String.length c <= 3 ->
    utf8_valid v = true -> exists c v, b = c +:+ v /\ all_cont c = true /\
      String.length c <= 3 /\ utf8_valid v = true) as Hend by (intros c v ? ? ? ?; by exists c, v).
  rewrite string_app_cons in Hab. cbn [utf8_valid] in Hab.
  destruct (byte_of x <? 128)%Z; [by apply (IH (String.length a)) with (a := a); [cbn; lia|done|]|].
  destruct (a +:+ b) as [|y s] eqn:Hs; [done|].
  destruct (in_range (byte_of x) 194 223).
  { apply andb_true_iff in Hab as [Hy Hv]. destruct a as [|y' a].
    - rewrite string_app_nil_l in Hs. subst b. apply (Hend (String y "") s); [done|cbn; by rewrite Hy|cbn; lia|done].
    - rewrite string_app_cons in Hs. injection Hs as <- <-.
      by apply (IH (String.length a)) with (a := a); [cbn; lia|done|]. }
  destruct s as [|z s]; [done|].
  destruct (in_range (byte_of x) 224 239).
  { apply andb_true_iff in Hab as [[Hy Hz]%andb_true_iff Hv].
    assert (cont y = true) as Hyc.
    { revert Hy. unfold cont, in_range. repeat case_match; rewrite !andb_true_iff, !Z.leb_le; lia. }
    destruct a as [|y' a].
    - rewrite string_app_nil_l in Hs. subst b. apply (Hend (String y (String z "")) s);
        [done|cbn; by rewrite Hyc, Hz|cbn; lia|done].
    - rewrite string_app_cons in Hs. injection Hs as <- Hs. destruct a as [|z' a].
      + rewrite string_app_nil_l in Hs. subst b. apply (Hend (String z "") s); [done|cbn; by rewrite Hz|cbn; lia|done].
      + rewrite string_app_cons in Hs. injection Hs as <- <-.
        by apply (IH (String.length a)) with (a := a); [cbn; lia|done|]. }
  destruct s as [|w s]; [done|].
  destruct (in_range (byte_of x) 240 244); [|done].
  apply andb_true_iff in Hab as [[[Hy Hz]%andb_true_iff Hw]%andb_true_iff Hv].
  assert (cont y = true) as Hyc.
  { revert Hy. unfold cont, in_range. repeat case_match; rewrite !andb_true_iff, !Z.leb_le; lia. }
  destruct a as [|y' a].
  { rewrite string_app_nil_l in Hs. subst b. apply (Hend (String y (String z (String w ""))) s);
      [done|cbn; by rewrite Hyc, Hz, Hw|cbn; lia|done]. }
  rewrite string_app_cons in Hs. injection Hs as <- Hs. destruct a as [|z' a].
  { rewrite string_app_nil_l in Hs. subst b. apply (Hend (String z (String w "")) s);
      [done|cbn; by rewrite Hz, Hw|cbn; lia|done]. }
  rewrite string_app_cons in Hs. injection Hs as <- Hs. destruct a as [|w' a].
  { rewrite string_app_nil_l in Hs. subst b. apply (Hend (String w "") s); [done|cbn; by rewrite Hw|cbn; lia|done]. }
  rewrite string_app_cons in Hs. injection Hs as <- <-.
  by apply (IH (String.length a)) with (a := a); [cbn; lia|done|].
Qed.

(** The replacement characters for [n] stray bytes. *)
Fixpoint replacements (n : nat) : string :=
  match n with 0 => "" | S n => replacement +:+ replacements n end.

Lemma lossy_stray c v : all_cont c = true ->
  from_utf8_lossy (c +:+ v) = replacements (String.length c) +:+ from_utf8_lossy v.
Proof.
  induction c as [|a c IH]; [done|]. cbn [all_cont]. intros [Ha Hc]%andb_true_iff.
  rewrite string_app_cons. cbn [from_utf8_lossy String.length replacements].
  pose proof (cont_range a Ha). rewrite <- string_app_assoc, <- IH by done.
  assert ((byte_of a <? 128)%Z = false) as -> by (apply Z.ltb_ge; lia).
  assert (in_range (byte_of a) 194 223 = false) as ->
    by (unfold in_range; apply andb_false_iff; left; apply Z.leb_gt; clear -H; lia).
  assert (in_range (byte_of a) 224 239 = false) as ->
    by (unfold in_range; apply andb_false_iff; left; apply Z.leb_gt; clear -H; lia).
  assert (in_range (byte_of a) 240 244 = false) as ->
    by (unfold in_range; apply andb_false_iff; left; apply Z.leb_gt; clear -H; lia).
  done.
Qed.

Lemma stray_no_newline c : all_cont c = true -> has_char newline c = false.
Proof.
  induction c as [|a c IH]; [done|]. cbn [all_cont has_char]. intros [Ha Hc]%andb_true_iff.
  rewrite (IH Hc), orb_false_r. pose proof (cont_range a Ha).
  destruct (Ascii.eqb_spec a newline) as [->|]; [|done]. change (byte_of newline) with 10%Z in H. lia.
Qed.

Lemma replacements_no_newline n : has_char newline (replacements n) = false.
Proof. induction n as [|n IH]; [done|]. cbn [replacements]. by rewrite has_char_app, IH. Qed.

(** ** The end of a text *)

Lemma after_newline_app p s :
  has_char newline p = false -> after_newline (p +:+ s) = after_newline s.
Proof.
  induction p as [|a p IH]; [done|]. cbn [has_char]. intros [Ha Hp]%orb_false_iff.
  rewrite string_app_cons. cbn [after_newline]. by rewrite Ha, IH.
Qed.

Lemma after_newline_split s :
  match after_newline s with
  | Some r => exists p, s = p +:+ String newline r /\ has_char newline p = false
  | None => has_char newline s = false
  end.
Proof.
  induction s as [|a s IH]; [done|]. cbn [after_newline has_char].
  destruct (Ascii.eqb_spec a newline) as [->|Hne]; [by exists ""|].
  destruct (after_newline s) as [r|]; [|exact IH].
  destruct IH as (p & -> & Hp). exists (String a p). split; [done|].
  cbn. apply orb_false_iff. by split; [apply Ascii.eqb_neq|].
Qed.

Lemma str_drop_app_le n a b : str_drop (String.length a + n) (a +:+ b) = str_drop n b.
Proof. induction a as [|x a IH]; [done|]. rewrite string_app_cons. cbn. exact IH. Qed.

(** Only the last bytes decide a suffix. *)
Lemma utf8_suffix_app a v m :
  m <= String.length v -> m < String.length (a +:+ v) ->
  utf8_suffix (a +:+ v) m = from_boundary (str_drop (String.length v - m) v).
Proof.
  intros Hv Ha. unfold utf8_suffix. destruct (Nat.leb_spec (String.length (a +:+ v)) m); [lia|].
  rewrite string_length_app in *.
  replace (String.length a + String.length v - m) with (String.length a + (String.length v - m)) by lia.
  by rewrite str_drop_app_le.
Qed.

(** ** The tail of the window is the tail of everything *)

Lemma tail_loop_stops mb l1 l2 : forall sel b,
  let '(kept, b', limit, partial) := tail_loop mb l1 sel b in
  limit = LimitBytes -> tail_loop mb (l1 ++ l2)%list sel b = (kept, b', limit, partial).
Proof.
  induction l1 as [|x l1 IH]; intros sel b; [done|]. cbn [tail_loop app].
  destruct (Nat.ltb _ _); [by destruct sel|]. apply IH.
Qed.

Lemma tail_loop_goes_on mb l1 l2 : forall sel b,
  let '(kept, b', limit, _) := tail_loop mb l1 sel b in
  limit = LimitLines -> tail_loop mb (l1 ++ l2)%list sel b = tail_loop mb l2 kept b'.
Proof.
  induction l1 as [|x l1 IH]; intros sel b; [done|]. cbn [tail_loop app].
  destruct (Nat.ltb _ _); [by destruct sel|]. apply IH.
Qed.

Lemma join_length_suffix l1 l2 :
  String.length (join nl l2) <= String.length (join nl (l1 ++ l2)%list).
Proof.
  induction l1 as [|x l1 IH]; [done|]. cbn [app].
  destruct (decide (l1 ++ l2 = [])%list) as [He|Hne].
  - apply app_eq_nil in He as [-> ->]. cbn. lia.
  - rewrite join_cons by done. rewrite !string_length_app. lia.
Qed.

Lemma join_length_in l x : x ∈ l -> String.length x <= String.length (join nl l).
Proof.
  intros (l1 & l2 & ->)%list_elem_of_split. etrans; [|apply join_length_suffix].
  destruct l2; [done|]. rewrite join_cons by done. rewrite string_length_app. lia.
Qed.

(** What a truncation shows. *)
Definition shown (t : TruncationDetails) : string * Z * bool :=
  (td_content t, output_lines t, last_line_partial t).

(** The selection of a truncated text. *)
Definition selection (lines : list string) (ml mb : nat) : string * Z * bool :=
  let '(kept, _, _, partial) := tail_loop mb (take ml (reverse lines)) [] 0 in
  (join nl (reverse kept), Z.of_nat (length kept), partial).

Definition fits (s : string) (ml mb : nat) : bool :=
  Nat.leb (length (counted_lines s)) ml && Nat.leb (String.length s) mb.

Lemma shown_truncate_tail s ml mb :
  shown (truncate_tail s ml mb) =
    if fits s ml mb then (s, Z.of_nat (length (counted_lines s)), false)
    else selection (counted_lines s) ml mb.
Proof.
  unfold truncate_tail, selection, fits. destruct (_ && _); [done|].
  by destruct (tail_loop _ _ _ _) as [[[kept b] limit] partial].
Qed.

(** Lines that fit are all kept. *)
Lemma selection_all lines ml mb :
  length lines <= ml -> String.length (join nl lines) <= mb ->
  let '(kept, b, limit, partial) := tail_loop mb (reverse lines) [] 0 in
  kept = reverse lines /\ b = String.length (join nl lines) /\ limit = LimitLines /\ partial = false.
Proof.
  intros Hl Hb. pose proof (tail_loop_spec mb (reverse lines) [] 0 eq_refl (Nat.le_0_l _)) as Hspec.
  destruct (tail_loop mb (reverse lines) [] 0) as [[[kept b] limit] partial].
  destruct Hspec as [(-> & more & rest & -> & Hm & -> & Hle & Hrest)|(_ & _ & _ & x & rest & Hx & Hlt & _)].
  - cbn [app] in *. destruct rest as [|x rest].
    + rewrite app_nil_r in Hm. subst more. by rewrite reverse_involutive.
    + exfalso. destruct Hrest as (_ & _ & Hlt).
      apply (f_equal reverse) in Hm. rewrite reverse_involutive in Hm.
      assert (lines = (reverse rest ++ reverse (more ++ [x]))%list) as Hlines.
      { rewrite Hm, cons_middle, app_assoc. by rewrite reverse_app. }
      pose proof (join_length_suffix (reverse rest) (reverse (more ++ [x]))). rewrite <- Hlines in *. lia.
  - exfalso. assert (x ∈ lines) as Hin.
    { apply elem_of_reverse. rewrite Hx. apply list_elem_of_here. }
    pose proof (join_length_in _ _ Hin). lia.
Qed.

(** The lines [seen], with lines [before] of which the last is too long to join
    them: the selection from all is the selection from [seen]. *)
Lemma selection_window before seen ml mb :
  seen <> [] ->
  (forall q, last before = Some q ->
    mb < String.length (join nl seen) + 1 + String.length q) ->
  selection (before ++ seen)%list ml mb = selection seen ml mb.
Proof.
  intros Hne Hlong. unfold selection. rewrite reverse_app.
  destruct (decide (ml <= length seen)) as [Hle|Hgt].
  { by rewrite take_app_le by (by rewrite length_reverse). }
  rewrite take_app_ge, (take_ge (reverse seen)) by (rewrite length_reverse; lia).
  set (more := take _ (reverse before)).
  pose proof (tail_loop_stops mb (reverse seen) more [] 0) as Hstop.
  pose proof (tail_loop_goes_on mb (reverse seen) more [] 0) as Hgo.
  pose proof (tail_loop_spec mb (reverse seen) [] 0 eq_refl (Nat.le_0_l _)) as Hspec.
  destruct (tail_loop mb (reverse seen) [] 0) as [[[kept b] limit] partial].
  destruct limit; [|by rewrite Hstop]. rewrite Hgo by done.
  destruct Hspec as [(-> & all & rest & -> & Hm & Hb & Hle & Hrest)|(_ & Hbad & _)]; [|done].
  destruct rest as [|? ?]; [|by destruct Hrest as (_ & ? & _)]. cbn [app] in *.
  rewrite app_nil_r in Hm. subst all.
  rewrite reverse_involutive in Hb.
  unfold more. destruct (last before) as [q|] eqn:Hlast.
  - apply last_Some in Hlast as [before' ->]. rewrite reverse_snoc.
    destruct (ml - length (reverse seen)); [done|]. cbn [take tail_loop].
    assert (reverse seen <> []) as Hr.
    { intros He. apply Hne. by rewrite <- (reverse_involutive seen), He. }
    specialize (Hlong q eq_refl). unfold line_bytes.
    destruct (reverse seen) as [|y ys]; [done|].
    rewrite (proj2 (Nat.ltb_lt _ _)) by lia. done.
  - apply last_None in Hlast as ->. change (reverse (@nil string)) with (@nil string).
    by rewrite take_nil.
Qed.

(** Lines that fit, with a long one before them. *)
Lemma selection_fitting before seen ml mb :
  seen <> [] -> length seen <= ml -> String.length (join nl seen) <= mb ->
  (forall q, last before = Some q ->
    mb < String.length (join nl seen) + 1 + String.length q) ->
  selection (before ++ seen)%list ml mb = (join nl seen, Z.of_nat (length seen), false).
Proof.
  intros Hne Hl Hb Hlong. rewrite selection_window by done. unfold selection.
  rewrite take_ge by (by rewrite length_reverse).
  pose proof (selection_all seen ml mb Hl Hb) as Hall.
  destruct (tail_loop _ _ _ _) as [[[kept b] limit] partial]. destruct Hall as (-> & _ & _ & ->).
  by rewrite reverse_involutive, length_reverse.
Qed.

(** Up to a newline at its end. *)
Definition same_shown (x y : string * Z * bool) : Prop :=
  (x.1.1 = y.1.1 \/ x.1.1 = y.1.1 +:+ nl) /\ x.1.2 = y.1.2 /\ x.2 = y.2.

(** A window that starts at a line, or goes on after its first newline. *)
Lemma window_shown full before view ml mb :
  fits full ml mb = false -> view <> "" ->
  counted_lines full = (before ++ counted_lines view)%list ->
  (forall q, last before = Some q ->
    mb < String.length (join nl (counted_lines view)) + 1 + String.length q) ->
  same_shown (shown (truncate_tail view ml mb)) (shown (truncate_tail full ml mb)).
Proof.
  intros Hfull Hne Hlines Hlong. rewrite !shown_truncate_tail, Hfull, Hlines.
  assert (counted_lines view <> []) as Hsome.
  { intros He. pose proof (counted_lines_length view) as Hlen. rewrite He in Hlen.
    destruct (counted_lines_join view) as [Hj|Hj]; rewrite He in Hj; [done|].
    rewrite Hj in Hlen. vm_compute in Hlen. done. }
  destruct (fits view ml mb) eqn:Hfits.
  - apply andb_true_iff in Hfits as [Hl%Nat.leb_le Hb%Nat.leb_le].
    assert (String.length (join nl (counted_lines view)) <= mb) as Hj.
    { destruct (counted_lines_join view) as [Hj|Hj].
      - rewrite <- Hj. done.
      - apply (f_equal String.length) in Hj. rewrite string_length_app in Hj. lia. }
    rewrite selection_fitting by done. split; [|done]. exact (counted_lines_join view).
  - rewrite selection_window by done. split; [by left|done].
Qed.

Lemma selection_long_line ls w ml mb :
  mb < String.length w ->
  selection (ls ++ [w])%list ml mb =
    match ml with 0 => ("", 0%Z, false) | S _ => (utf8_suffix w mb, 1%Z, true) end.
Proof.
  intros Hw. unfold selection. rewrite reverse_snoc. destruct ml as [|ml]; [done|].
  cbn [take tail_loop]. unfold line_bytes. by rewrite (proj2 (Nat.ltb_lt _ _)) by lia.
Qed.

(** A line that ends a text is well formed from its start. *)
Lemma valid_after_newline a b :
  utf8_valid (a +:+ b) = true -> ends_with_char newline a = true -> utf8_valid b = true.
Proof.
  intros Hv Ha. destruct (lines_of a) as (ls & t & -> & _ & Ht).
  assert (t = "") as ->.
  { destruct t; [done|]. rewrite ends_with_char_app, ends_with_char_none in Ha by done. done. }
  rewrite string_app_nil_r in *.
  destruct (last ls) as [l|] eqn:Hl; [|by apply last_None in Hl as ->].
  apply last_Some in Hl as [ls' ->]. rewrite unlines_snoc, <- !string_app_assoc in Hv.
  change (nl +:+ b) with (String newline b) in Hv. rewrite string_app_assoc in Hv.
  destruct (valid_suffix _ _ Hv) as (c & v & Hc & Hcont & _ & Hok).
  destruct c as [|x c].
  - rewrite string_app_nil_l in Hc. subst v. exact Hok.
  - rewrite string_app_cons in Hc. injection Hc as <- _. discriminate Hcont.
Qed.

(** The parts of a window that starts inside a line. *)
Lemma open_line_of dropped x :
  dropped <> "" -> ends_with_char newline dropped = false -> one_line x ->
  exists ls t, dropped +:+ x = unlines ls +:+ (t +:+ x) /\ Forall one_line ls /\
    one_line (t +:+ x) /\ 0 < String.length t.
Proof.
  intros Hne Hend Hx. destruct (lines_of dropped) as (ls & t & -> & Hls & Ht).
  exists ls, t. rewrite <- string_app_assoc. split_and!; [done|done| |].
  - unfold one_line. by rewrite has_char_app, Ht, Hx.
  - destruct t as [|b t]; [|cbn; lia].
    rewrite string_app_nil_r in *. rewrite unlines_ends in Hend; [done|].
    intros ->. by apply Hne.
Qed.

Lemma replacements_length n : String.length (replacements n) = 3 * n.
Proof.
  induction n as [|n IH]; [done|]. cbn [replacements]. rewrite string_length_app, IH.
  change (String.length replacement) with 3. lia.
Qed.

(** The tail shown is the tail of everything printed, unless all that is left
    of the window is the end of one line and its newline: then nothing is. *)
Lemma snapshot_shown full a :
  tracked full a -> utf8_valid full = true ->
  visible_bytes a + 3 <= max_rolling_bytes a ->
  same_shown (shown (truncate_tail (visible a) (visible_lines a) (visible_bytes a)))
    (shown (truncate_tail full (visible_lines a) (visible_bytes a))) \/
  (visible a = "" /\ ends_with_char newline full = true /\
   exists l, last (counted_lines full) = Some l /\ max_rolling_bytes a <= String.length l + 1).
Proof.
  intros [Hc (dropped & Hfull & Hflag & Hlen & _) _] Hv Hroom.
  set (ml := visible_lines a) in *. set (mb := visible_bytes a) in *.
  destruct Hlen as [->|Hlen].
  { left. assert (visible a = full) as ->; [|by split; [left|]].
    unfold visible. rewrite Hflag. cbn. rewrite string_app_nil_l in Hfull.
    rewrite <- Hfull. by apply lossy_valid. }
  assert (fits full ml mb = false) as Hfits.
  { unfold fits. apply andb_false_iff. right. apply Nat.leb_gt.
    rewrite Hfull, string_length_app. lia. }
  destruct (rolling_starts_at_line_boundary a) eqn:Hb.
  - left. assert (counted_lines full = (counted_lines dropped ++ counted_lines (rolling a))%list /\
      utf8_valid (rolling a) = true) as [Hlines Hvr].
    { symmetry in Hflag. apply orb_true_iff in Hflag as [He%String.eqb_eq|He].
      - subst dropped. rewrite string_app_nil_l in Hfull. by rewrite <- Hfull.
      - split; [|by apply (valid_after_newline dropped); [rewrite <- Hfull|]].
        destruct (lines_of dropped) as (ls & t & -> & Hls & Ht).
        assert (t = "") as ->.
        { destruct t; [done|]. rewrite ends_with_char_app, ends_with_char_none in He by done. done. }
        rewrite Hfull, <- string_app_assoc, counted_lines_app, counted_lines_of by done.
        cbn. by rewrite app_nil_r. }
    assert (visible a = rolling a) as ->.
    { unfold visible. rewrite Hb. by apply lossy_valid. }
    apply (window_shown _ (counted_lines dropped)); [done| |done|].
    + intros He. rewrite He in Hlen. cbn in Hlen. lia.
    + intros q _. destruct (counted_lines_join (rolling a)) as [Hj|Hj];
        apply (f_equal String.length) in Hj; rewrite ?string_length_app in Hj;
        change (String.length nl) with 1 in Hj; lia.
  - symmetry in Hflag. apply orb_false_iff in Hflag as [Hne%String.eqb_neq Hend].
    rewrite Hfull in Hv. destruct (valid_suffix _ _ Hv) as (c & v & Hr & Hcont & Hc3 & Hvv).
    pose proof (stray_no_newline c Hcont) as Hcn.
    assert (visible a = default (replacements (String.length c) +:+ v) (after_newline v)) as Hvis.
    { unfold visible. rewrite Hb, Hr, lossy_stray, (lossy_valid v), after_newline_app by
        (done || apply replacements_no_newline). done. }
    pose proof (after_newline_split v) as Hsplit.
    rewrite Hr, string_length_app in Hlen. rewrite Hr in Hfull.
    destruct (after_newline v) as [r|]; cbn [from_option] in Hvis; unfold id in Hvis; rewrite Hvis.
    + destruct Hsplit as (p & -> & Hp).
      destruct (open_line_of dropped (c +:+ p)) as (ls & t & Hsum & Hls & Ht & Hlt); [done|done|by unfold one_line; rewrite has_char_app, Hcn|].
      set (q := t +:+ (c +:+ p)) in *.
      assert (full = unlines (ls ++ [q]) +:+ "" +:+ r) as Hfull'.
      { rewrite Hfull, unlines_snoc, string_app_nil_l.
        change (String newline r) with (nl +:+ r).
        rewrite (string_app_assoc c p), (string_app_assoc dropped), Hsum. by rewrite <- !string_app_assoc. }
      assert (Forall one_line (ls ++ [q])) as Hall by (apply Forall_app; split; [done|by constructor]).
      rewrite !string_length_app in *. cbn [String.length] in Hlen.
      assert (String.length q = String.length t + (String.length c + String.length p)) as Hq
        by (unfold q; by rewrite !string_length_app).
      destruct (String.eqb_spec r "") as [->|Hr0].
      * right. rewrite string_app_nil_l, string_app_nil_r in Hfull'. split; [done|]. rewrite Hfull'. split.
        -- apply unlines_ends. by destruct ls.
        -- exists q. rewrite <- (string_app_nil_r (unlines _)), counted_lines_of by done.
           cbn. rewrite app_nil_r, last_snoc. split; [done|]. cbn in Hlen. lia.
      * left. apply (window_shown _ (ls ++ [q])%list); [done|done|by rewrite Hfull', counted_lines_app|].
        intros q'. rewrite last_snoc. intros [= <-].
        destruct (counted_lines_join r) as [Hj|Hj];
          apply (f_equal String.length) in Hj; rewrite ?string_length_app in Hj;
          change (String.length nl) with 1 in Hj; lia.
    + left. destruct (open_line_of dropped (c +:+ v)) as (ls & t & Hsum & Hls & Ht & Hlt); [done|done|by unfold one_line; rewrite has_char_app, Hcn|].
      set (w := replacements (String.length c) +:+ v) in *.
      assert (String.length w = 3 * String.length c + String.length v) as Hvw
        by (unfold w; by rewrite string_length_app, replacements_length).
      assert (w <> "") as Hw by (intros He; rewrite He in Hvw; cbn in Hvw; lia).
      assert (counted_lines w = [w]) as Hone.
      { pose proof (counted_lines_of [] w (Forall_nil_2 _)) as Hone.
        cbn [unlines foldr app] in Hone. rewrite string_app_nil_l in Hone. rewrite Hone.
        - by apply String.eqb_neq in Hw as ->.
        - unfold one_line, w. by rewrite has_char_app, replacements_no_newline. }
      rewrite !shown_truncate_tail, Hfits.
      assert (fits w ml mb = false) as ->.
      { unfold fits. apply andb_false_iff. right. apply Nat.leb_gt. lia. }
      rewrite Hfull, Hsum, Hone, counted_lines_of by done.
      assert (String.length (t +:+ (c +:+ v))
        = String.length t + (String.length c + String.length v)) as Hl
        by (by rewrite !string_length_app).
      destruct (String.eqb_spec (t +:+ (c +:+ v)) "") as [He|_]; [rewrite He in Hl; cbn in Hl; lia|].
      change [w] with ([] ++ [w])%list. rewrite !selection_long_line by lia.
      destruct ml; [by split; [left|]|]. split; [left|done]. cbn [fst].
      unfold w. rewrite utf8_suffix_app by (fold w; lia).
      rewrite string_app_assoc. rewrite utf8_suffix_app; [done|lia|].
      rewrite <- string_app_assoc. lia.
Qed.
