(* ===== verification/Plan.v ===== *)
(** Plan mode: the persisted mode switch, the notes that state it to the model
    and the single plan waiting for approval.
    [crates/kernel/src/runtime/plan/{mod,note,gate}.rs] *)

From S2P Require Import Prelude Scalar Json Message StoreModel ToolContract.
From S2P Require Import StoreState KernelErrors CommandLine.
Open Scope string_scope.
Open Scope rust_scope.

(** [ProductIdentity::SLUG] *)
Definition SLUG : string := "clawcode".
Lemma slug_valid : Is_true (negb (trim_is_empty SLUG)).
Proof. done. Qed.

Definition MODE_CUSTOM_TYPE : string := "session_mode".

(** ** The persisted switch *)

Record ModeChange : Type := {
  change_mode : SessionMode;
  change_turn_id : TurnId
}.

Definition mode_data (change : ModeChange) : json :=
  JObject (<["mode" := to_value (change_mode change)]>
          {[ "turnId" := to_value (change_turn_id change) ]}).

(** [ModeChange::payload] *)
Definition mode_payload (change : ModeChange) : json_map :=
  <["extensionId" := JString SLUG]>
  (<["customType" := JString MODE_CUSTOM_TYPE]> {[ "data" := mode_data change ]}).

(** [ModeChange::from_entry] *)
Definition mode_from_entry (entry : SessionEntry) : option ModeChange :=
  let text key := v ← entry_payload entry !! key; json_as_str v in
  if negb (bool_decide (entry_kind entry = KindCustom))
     || negb (bool_decide (text "extensionId" = Some SLUG))
     || negb (bool_decide (text "customType" = Some MODE_CUSTOM_TYPE))
  then None
  else
    let data := entry_payload entry !! "data" in
    let mode := d ← data; m ← json_get "mode" d; ok (from_value (T := SessionMode) m) in
    let turn_id := d ← data; t ← json_get "turnId" d; s ← json_as_str t;
                   ok (id_try_from "turn" s) in
    match mode, turn_id with
    | Some mode, Some turn_id =>
        Some {| change_mode := mode; change_turn_id := turn_id |}
    | _, _ => None
    end.

(** [SessionPlanState::branch_mode] *)
Definition branch_mode (entries : list SessionEntry) : SessionMode :=
  match head (omap mode_from_entry (reverse entries)) with
  | Some change => change_mode change
  | None => ModeDefault
  end.

(** ** Notes *)

Definition ENTER_NOTE : string :=
  "Plan mode is active. Research and plan, but change nothing: edit, write, and other tools that modify files are refused, and bash accepts only read-only commands such as ls, cat, grep, find, and git log. Investigate the code and ask the user about anything unclear. When the plan is complete, call exit_plan_mode with the full plan as Markdown in its `plan` argument and wait for the user's decision. Do not claim to have started the work.".
Definition ENTER_DELEGATED_NOTE : string :=
  "Plan mode is active. Research only and change nothing: edit, write, and other tools that modify files are refused, and bash accepts only read-only commands. Investigate the task and give your findings as your final reply to the parent session.".
Definition EXIT_NOTE : string := "Plan mode has ended; you may edit files now.".

Record ModeNote : Type := { note_mode : SessionMode; note_delegated : bool }.

Definition note_text (n : ModeNote) : string :=
  match note_mode n, note_delegated n with
  | ModePlan, false => ENTER_NOTE
  | ModePlan, true => ENTER_DELEGATED_NOTE
  | ModeDefault, _ => EXIT_NOTE
  end.

Section Notes.
Context {R : RigTypes}.

Abbreviation Message := (AgentMessage R).

(** [ModeNote::message] *)
Definition note_message (n : ModeNote) (id : string) (turn : TurnId) (at_ms : TimestampMs)
  : result Message KernelError :=
  let? message_id := map_err (fun e => Protocol (scalar_error_text e))
                       (id_try_from "message" id) in
  let? timing := map_err (fun e => Protocol (timing_error_text e))
                   (message_timing_try_from at_ms at_ms at_ms) in
  let? extension := map_err (fun e => Protocol (scalar_error_text e))
                      (id_try_from "extension" SLUG) in
  Ok {| identity := {| message_id := message_id; turn_id := turn |};
        timing := timing;
        content := Extension
          {| extension_id := extension; custom_type := MODE_CUSTOM_TYPE;
             ext_blocks := [Text (note_text n)]; display := false;
             include_in_context := true;
             ext_details := Some (JObject {[ "mode" := to_value (note_mode n) ]}) |} |}.

(** [ModeNote::stated_mode] *)
Definition stated_mode (m : Message) : option SessionMode :=
  match content m with
  | Extension extension =>
      if String.eqb (custom_type extension) MODE_CUSTOM_TYPE
         && String.eqb (as_str (extension_id extension)) SLUG
      then d ← ext_details extension; v ← json_get "mode" d; ok (from_value v)
      else None
  | _ => None
  end.

(** The mode a context leaves the model with; none stated is the default. *)
Definition context_mode (context : list Message) : SessionMode :=
  match head (omap stated_mode (reverse context)) with
  | Some mode => mode
  | None => ModeDefault
  end.

(** [ModeNotes]: the notes held until tool results are in. *)
Record ModeNotes : Type := { deferred : list Message }.
Definition notes_default : ModeNotes := {| deferred := [] |}.

(** The last Assistant message's blocks and what follows it. *)
Fixpoint last_assistant (history : list Message)
  : option (list ContentBlock * list Message) :=
  match history with
  | [] => None
  | m :: rest =>
      match last_assistant rest with
      | Some found => Some found
      | None =>
          match content m with
          | Assistant blocks _ _ => Some (blocks, rest)
          | _ => None
          end
      end
  end.

Definition result_of (m : Message) : option ToolCallId :=
  match content m with
  | ToolResult tool_call_id _ _ _ _ _ => Some tool_call_id
  | _ => None
  end.

Definition is_result (m : Message) : bool := bool_decide (is_Some (result_of m)).

Definition unanswered (answered : gset ToolCallId) (b : ContentBlock) : bool :=
  match b with
  | ToolCallBlock tool_call_id _ _ _ => negb (bool_decide (tool_call_id ∈ answered))
  | _ => false
  end.

(** [ModeNotes::awaiting_results] *)
Definition awaiting_results (history : list Message) : bool :=
  match last_assistant history with
  | None => false
  | Some (blocks, after) =>
      existsb (unanswered (list_to_set (omap result_of after))) blocks
  end.

(** [ModeNotes::place], [ModeNotes::push] and [ModeNotes::clear]; the history
    they edit is returned beside the notes. *)
Definition place (notes : ModeNotes) (history : list Message) (note : Message)
  : ModeNotes * list Message :=
  if awaiting_results history then
    ({| deferred := (deferred notes ++ [note])%list |}, history)
  else (notes, (history ++ [note])%list).

Definition push (notes : ModeNotes) (history : list Message) (message : Message)
  : ModeNotes * list Message :=
  let '(notes, history) :=
    if is_result message then (notes, history)
    else (notes_default, (history ++ deferred notes)%list) in
  let history := (history ++ [message])%list in
  if is_result message && negb (awaiting_results history)
  then (notes_default, (history ++ deferred notes)%list)
  else (notes, history).

Definition clear (notes : ModeNotes) : ModeNotes := notes_default.

(** [ModeNote::after_compaction] *)
Definition after_compaction (n : ModeNote) (context : list Message) (notes : ModeNotes)
  (compaction_entry_id : EntryId) : result (ModeNotes * list Message) KernelError :=
  match head context with
  | None => Ok (notes, context)
  | Some summary =>
      if bool_decide (context_mode context = note_mode n) then Ok (notes, context)
      else
        let? note := note_message n ("session-mode-" +:+ as_str compaction_entry_id)
                       (turn_id (identity summary)) (ended_at_ms (timing summary)) in
        Ok (place notes context note)
  end.

End Notes.
Arguments ModeNotes R : clear implicits.

(** ** The plan waiting for approval *)

(** A waiting plan; the answer channel is open until its wait is dropped. *)
Record PendingPlanApproval : Type := {
  pending_request : PlanApprovalRequest;
  receiver_open : bool
}.

Record SessionPlanState : Type := {
  mode : SessionMode;
  approval : option PendingPlanApproval;
  (** Decisions delivered, to the request identifier they answered. *)
  delivered : list (string * PlanApprovalDecision)
}.

Definition plan_state_new (m : SessionMode) : SessionPlanState :=
  {| mode := m; approval := None; delivered := [] |}.

Definition with_approval (s : SessionPlanState) (a : option PendingPlanApproval)
  : SessionPlanState :=
  {| mode := mode s; approval := a; delivered := delivered s |}.

(** [SessionPlanState::begin]: the wait it returns carries the request's id. *)
Definition begin (request : PlanApprovalRequest)
  : M SessionPlanState KernelError (option string) := fun s =>
  match approval s with
  | Some _ => (Ok None, s)
  | None =>
      (Ok (Some (request_id request)),
       with_approval s (Some {| pending_request := request; receiver_open := true |}))
  end.

Definition names (id : string) (p : PendingPlanApproval) : bool :=
  String.eqb (request_id (pending_request p)) id.

(** [SessionPlanState::resolve] *)
Definition resolve (id : string) (decision : PlanApprovalDecision)
  : M SessionPlanState KernelError unit := fun s =>
  match approval s with
  | Some p =>
      if names id p then
        if receiver_open p then
          (Ok tt, {| mode := mode s; approval := None;
                     delivered := (delivered s ++ [(id, decision)])%list |})
        else (Err (PlanApprovalResolved id), with_approval s None)
      else (Err (PlanApprovalResolved id), s)
  | None => (Err (PlanApprovalResolved id), s)
  end.

(** [Drop for PlanApprovalWait] *)
Definition drop_wait (id : string) (s : SessionPlanState) : SessionPlanState :=
  match approval s with
  | Some p => if names id p then with_approval s None else s
  | None => s
  end.

(** [SessionPlanState::pending], [mode], [replace_mode] *)
Definition pending (s : SessionPlanState) : option PlanApprovalRequest :=
  pending_request <$> approval s.
Definition replace_mode (m : SessionMode) (s : SessionPlanState) : SessionPlanState :=
  {| mode := m; approval := approval s; delivered := delivered s |}.

(** ** The tool gate *)

(** [PlanModeGate] and the call it judges *)
Record PlanModeGate : Type := {
  gate_mode : SessionMode;
  kernel_owned : gset string
}.

Record GateCall : Type := { call_name : string; call_arguments : json }.

(** [PlanModeGate::check]; [shlex_split] is the library [CommandLine] splits
    words with. *)
Definition check (shlex_split : string -> option (list string)) (g : PlanModeGate)
  (call : GateCall) (read_only_hint : option bool) : result unit string :=
  if bool_decide (gate_mode g = ModeDefault)
     || bool_decide (call_name call ∈ kernel_owned g) then Ok tt
  else if String.eqb (call_name call) "bash" then
    match v ← json_get "command" (call_arguments call); json_as_str v with
    | Some command => map_err violation_text (read_only shlex_split command)
    | None => Err "plan mode needs a bash command to check"
    end
  else if bool_decide (read_only_hint = Some true) then Ok tt
  else Err ("Plan mode is active: " +:+ call_name call
            +:+ " is not allowed. Finish the plan and call exit_plan_mode.").

(** How plan-mode notes sit in the model context: they never come between a
    tool call and its results, none is lost, and after a compaction the context
    states the mode the branch is in. *)

Open Scope string_scope.
Open Scope rust_scope.

Section Notes.
Context {R : RigTypes}.
Abbreviation Message := (AgentMessage R).

Definition is_assistant_message (m : Message) : bool :=
  match content m with Assistant _ _ _ => true | _ => false end.

Lemma last_assistant_none (t : list Message) :
  Forall (fun m => is_assistant_message m = false) t -> last_assistant t = None.
Proof.
  induction 1 as [|m t Hm Ht IH]; [done|]. simpl. rewrite IH.
  unfold is_assistant_message in Hm. by destruct (content m).
Qed.

Lemma last_assistant_app (h t : list Message) :
  Forall (fun m => is_assistant_message m = false) t ->
  last_assistant (h ++ t)%list =
    (x ← last_assistant h; Some (x.1, (x.2 ++ t)%list)).
Proof.
  intros Ht. induction h as [|m h IH]; simpl; [by rewrite last_assistant_none|].
  rewrite IH. destruct (last_assistant h) as [[b a]|]; [done|]. simpl.
  by destruct (content m).
Qed.

(** Messages that are neither results nor assistant turns do not change whether
    results are due. *)
Lemma awaiting_app_other (h t : list Message) :
  Forall (fun m => is_assistant_message m = false) t -> omap result_of t = [] ->
  awaiting_results (h ++ t)%list = awaiting_results h.
Proof.
  intros Ht Hr. unfold awaiting_results. rewrite last_assistant_app by done.
  destruct (last_assistant h) as [[b a]|]; [|done]. simpl.
  by rewrite omap_app, Hr, app_nil_r.
Qed.

(** ** Note messages *)

Definition is_note (m : Message) : bool := bool_decide (is_Some (stated_mode m)).

Lemma id_try_from_ok kind s :
  Is_true (negb (trim_is_empty s)) -> exists i, id_try_from kind s = Ok i /\ as_str i = s.
Proof. intros H. unfold id_try_from. destruct (decide _); [by eexists|done]. Qed.

Lemma timing_same t :
  message_timing_try_from t t t =
    Ok {| timestamp_ms := t; started_at_ms := t; ended_at_ms := t |}.
Proof.
  unfold message_timing_try_from, timestamp_lt.
  by rewrite (proj2 (Z.ltb_ge _ _)) by lia.
Qed.

(** Note identifiers carry a non-blank prefix, so building a note never fails. *)
Lemma note_message_ok n s turn t :
  exists m, note_message (R := R) n ("session-mode-" +:+ s) turn t = Ok m.
Proof.
  unfold note_message.
  destruct (id_try_from_ok "message" ("session-mode-" +:+ s)) as (i & -> & _); [done|].
  rewrite timing_same. cbn [map_err result_bind].
  destruct (id_try_from_ok "extension" SLUG slug_valid) as (x & -> & _). by eexists.
Qed.

Lemma note_message_content n id turn t m :
  note_message (R := R) n id turn t = Ok m ->
  stated_mode m = Some (note_mode n) /\ is_assistant_message m = false /\ result_of m = None.
Proof.
  unfold note_message. destruct (id_try_from "message" id); [|done]. cbn [map_err result_bind].
  rewrite timing_same. cbn [map_err result_bind].
  destruct (id_try_from_ok "extension" SLUG slug_valid) as (x & -> & Hx).
  intros [= <-]. unfold stated_mode, is_assistant_message, result_of. cbn. rewrite Hx.
  by destruct (note_mode n).
Qed.

Lemma context_mode_snoc (c : list Message) m md :
  stated_mode m = Some md -> context_mode (c ++ [m])%list = md.
Proof.
  intros Hm. unfold context_mode. rewrite reverse_app. simpl. by rewrite Hm.
Qed.

(** ** Held notes *)

(** Placing and pushing, without the record. *)
Lemma place_total (ns : ModeNotes R) h n :
  let r := place ns h n in (r.2 ++ deferred r.1)%list ≡ₚ (h ++ deferred ns ++ [n])%list.
Proof.
  unfold place. destruct (awaiting_results h); simpl.
  - done.
  - rewrite <- app_assoc. f_equiv. apply Permutation_app_comm.
Qed.

Lemma push_total (ns : ModeNotes R) h m :
  let r := push ns h m in (r.2 ++ deferred r.1)%list ≡ₚ (h ++ deferred ns ++ [m])%list.
Proof.
  unfold push. destruct (is_result m); simpl.
  - destruct (negb _); simpl; rewrite ?app_nil_r, <- ?app_assoc; f_equiv;
      apply Permutation_app_comm.
  - rewrite app_nil_r, <- app_assoc. done.
Qed.

(** Notes are held only while results are due. *)
Definition notes_ok (ns : ModeNotes R) (h : list Message) : Prop :=
  deferred ns = [] \/ awaiting_results h = true.

Lemma place_notes_ok ns h n : notes_ok ns h -> notes_ok (place ns h n).1 (place ns h n).2.
Proof.
  unfold place, notes_ok. destruct (awaiting_results h) eqn:Ha; simpl; [by right|].
  intros [->|?]; [by left|done].
Qed.

Lemma push_notes_ok ns h m : notes_ok ns h -> notes_ok (push ns h m).1 (push ns h m).2.
Proof.
  unfold push, notes_ok. intros _. destruct (is_result m); simpl; [|by left].
  destruct (awaiting_results (h ++ [m])%list) eqn:Ha; simpl; [by right|by left].
Qed.

(** ** A batch of tool results with notes arriving among them *)

Inductive batch_event : Type := BatchResult (m : Message) | BatchNote (m : Message).

Definition batch_step (s : ModeNotes R * list Message) (e : batch_event)
  : ModeNotes R * list Message :=
  match e with
  | BatchResult m => push s.1 s.2 m
  | BatchNote m => place s.1 s.2 m
  end.

Definition batch_run (s : ModeNotes R * list Message) (es : list batch_event) :=
  foldl batch_step s es.

Definition batch_results (es : list batch_event) : list Message :=
  omap (fun e => match e with BatchResult m => Some m | _ => None end) es.
Definition batch_notes (es : list batch_event) : list Message :=
  omap (fun e => match e with BatchNote m => Some m | _ => None end) es.

Definition batch_ok (es : list batch_event) : Prop :=
  Forall (fun m => is_result m = true) (batch_results es).

(** While results are due, results go straight after their call and notes wait. *)
Lemma batch_waiting ns h es :
  batch_ok es ->
  (forall es', es' `prefix_of` es -> awaiting_results (h ++ batch_results es')%list = true) ->
  batch_run (ns, h) es =
    ({| deferred := (deferred ns ++ batch_notes es)%list |}, (h ++ batch_results es)%list).
Proof.
  revert ns h. induction es as [|e es IH]; intros ns h Hok Haw.
  - simpl. rewrite !app_nil_r. by destruct ns.
  - assert (awaiting_results h = true) as Ha.
    { specialize (Haw [] (prefix_nil _)). simpl in Haw. by rewrite app_nil_r in Haw. }
    unfold batch_run. cbn [foldl]. fold (batch_run (batch_step (ns, h) e) es).
    destruct e as [m|m]; cbn [batch_step fst snd].
    + assert (awaiting_results (h ++ [m])%list = true) as Hm.
      { apply (Haw [BatchResult m]), (prefix_cons _ [] es), prefix_nil. }
      inversion Hok as [|? ? Hres Hok']; subst. cbn in Hres.
      unfold push. rewrite Hres, Hm. cbn [negb andb]. rewrite IH; [|done|].
      * cbn. by rewrite <- app_assoc.
      * intros es' Hp. rewrite <- app_assoc. apply (Haw (BatchResult m :: es')).
        by apply prefix_cons.
    + unfold place. rewrite Ha. rewrite IH; [|done|].
      * cbn. by rewrite <- app_assoc.
      * intros es' Hp. apply (Haw (BatchNote m :: es')). by apply prefix_cons.
Qed.

(** The result that completes the batch releases every held note after it. *)
Lemma batch_complete ns h es m :
  batch_ok es -> is_result m = true ->
  (forall es', es' `prefix_of` es -> awaiting_results (h ++ batch_results es')%list = true) ->
  awaiting_results (h ++ batch_results es ++ [m])%list = false ->
  batch_run (ns, h) (es ++ [BatchResult m])%list =
    (notes_default,
     (h ++ (batch_results es ++ [m]) ++ deferred ns ++ batch_notes es)%list).
Proof.
  intros Hok Hm Haw Hdone. unfold batch_run. rewrite foldl_app.
  fold (batch_run (ns, h) es). rewrite batch_waiting by done. cbn [foldl batch_step fst snd].
  unfold push. rewrite Hm. rewrite <- app_assoc, Hdone. cbn. by rewrite <- !app_assoc.
Qed.

(** ** After a compaction *)

Lemma place_context ns h n md :
  stated_mode n = Some md -> deferred ns = [] ->
  context_mode ((place ns h n).2 ++ deferred (place ns h n).1)%list = md.
Proof.
  intros Hn Hd. unfold place. destruct (awaiting_results h); simpl; rewrite Hd; simpl.
  - by apply context_mode_snoc.
  - rewrite app_nil_r. by apply context_mode_snoc.
Qed.

Lemma after_compaction_total n c id :
  c <> [] -> exists ns c', after_compaction n c notes_default id = Ok (ns, c') /\
    context_mode (c' ++ deferred ns)%list = note_mode n /\
    (exists extra, (c' ++ deferred ns)%list = (c ++ extra)%list /\ length extra <= 1).
Proof.
  intros Hc. unfold after_compaction. destruct c as [|summary tail]; [done|]. cbn [head].
  case_bool_decide as Hm.
  - exists notes_default, (summary :: tail).
    cbn [notes_default deferred]. rewrite app_nil_r. split; [done|]. split; [done|].
    exists []. rewrite app_nil_r. split; [done|simpl; lia].
  - destruct (note_message_ok n (as_str id) (turn_id (identity summary))
      (ended_at_ms (timing summary))) as [note Hnote]. rewrite Hnote. cbn [result_bind].
    destruct (note_message_content _ _ _ _ _ Hnote) as (Hs & _ & _).
    destruct (place notes_default (summary :: tail) note) as [ns c'] eqn:Hp.
    exists ns, c'. split; [done|].
    pose proof (place_context notes_default (summary :: tail) note _ Hs eq_refl) as Hctx.
    rewrite Hp in Hctx. split; [done|]. exists [note]. split; [|simpl; lia].
    unfold place in Hp. destruct (awaiting_results _); injection Hp as <- <-; simpl;
      rewrite ?app_nil_r; done.
Qed.

End Notes.

(** ** The mode a branch ends in *)

Lemma branch_mode_snoc b e :
  branch_mode (b ++ [e])%list =
    match mode_from_entry e with Some c => change_mode c | None => branch_mode b end.
Proof.
  unfold branch_mode. rewrite reverse_app. simpl. by destruct (mode_from_entry e).
Qed.

(** The entry a switch is stored as reads back as that switch. *)
Lemma mode_from_payload e c :
  entry_kind e = KindCustom -> entry_payload e = mode_payload c ->
  mode_from_entry e = Some c.
Proof.
  intros Hk Hp. unfold mode_from_entry. rewrite Hk, Hp. unfold mode_payload, mode_data.
  simplify_map_eq. rewrite id_try_from_as_str, from_to_value. by destruct c.
Qed.
