(* ===== verification/Replay.v ===== *)
(** Rebuilding model context and replay items from a stored branch:
    [crates/kernel/src/runtime/session/replay.rs]. *)

From S2P Require Import Prelude Scalar Json Message StoreModel StoreState ToolContract KernelErrors Plan.
Open Scope string_scope.
Open Scope rust_scope.

Section Replay.
Context {R : RigTypes} {CC : ContentCodec R}.
Context {S : Type} `{SessionStore S}.
Abbreviation Message := (AgentMessage R).

(** The message a [Message] entry stores. *)
Definition entry_message (e : SessionEntry) : result Message KernelError :=
  map_err (fun '(JsonError what) =>
             Store (InvalidSession ("invalid message entry " +:+ as_str (entry_id e)
                      +:+ ": " +:+ what)))
    (from_value (JObject (entry_payload e))).

(** ** [replay_sequence_floor] *)

Definition is_assistant_content (c : MessageContent R) : bool :=
  match c with Assistant _ _ _ => true | _ => false end.

Fixpoint count_assistants (count : Z) (b : list SessionEntry) : result Z KernelError :=
  match b with
  | [] => Ok count
  | e :: r =>
      if bool_decide (entry_kind e = KindMessage) then
        let? message := entry_message e in
        count_assistants (if is_assistant_content (content message)
                          then u64_saturating_add count 1 else count) r
      else count_assistants count r
  end.

Definition replay_sequence_floor (store : S) (l : LaneId) : result Z KernelError :=
  match lane store l with
  | None => Ok (last_sequence store)
  | Some leaf =>
      let? b := map_err Store (branch store leaf) in
      let? count := count_assistants 0 b in
      Ok (u64_saturating_add (last_sequence store) count)
  end.

(** ** [session_transcript] *)

Definition branch_messages (b : list SessionEntry) : result (list Message) KernelError :=
  collect_results (map entry_message (filter (fun e => entry_kind e = KindMessage) b)).

(** ** [history_from_store] *)

(** The loop's state: [RebuiltHistory] and the mode reached. *)
Record Rebuild : Type := {
  rebuilt_messages : list Message;
  rebuilt_notes : ModeNotes R;
  rebuilt_mode : SessionMode
}.

Definition rebuild_empty : Rebuild :=
  {| rebuilt_messages := []; rebuilt_notes := notes_default; rebuilt_mode := ModeDefault |}.

(** The summary message a compaction entry stands for. *)
Definition summary_message (id : EntryId) (data : CompactionData R) (d : CompactionDetails)
  : result Message KernelError :=
  let? mid := map_err (fun e => Protocol (scalar_error_text e))
                (id_try_from "message" ("compaction-summary-" +:+ as_str id)) in
  let? timing := map_err (fun e => Protocol (timing_error_text e))
                   (message_timing_try_from (details_started_at_ms d)
                      (details_started_at_ms d) (details_ended_at_ms d)) in
  Ok {| identity := {| message_id := mid; turn_id := details_turn_id d |};
        timing := timing;
        content := CompactionSummary
          {| summary_entry_id := id; summary_text := summary data;
             summary_tokens_before := tokens_before data;
             summary_read_files := read_files d;
             summary_modified_files := modified_files d |} |}.

(** The context a compaction entry leaves: its summary, then the kept tail. *)
Definition compaction_context (id : EntryId) (data : CompactionData R)
  : result (list Message) KernelError :=
  let? d := ok_or (details data) (Protocol "compaction details are required") in
  let? summary := summary_message id data d in
  Ok (summary :: retained_tail data).

Definition rebuild_compaction (delegated : bool) (r : Rebuild) (e : SessionEntry)
  : result Rebuild KernelError :=
  let? data := map_err (fun err => Store (Json err))
                 (from_value (T := CompactionData R) (JObject (entry_payload e))) in
  let? context := compaction_context (entry_id e) data in
  let note := {| note_mode := rebuilt_mode r; note_delegated := delegated |} in
  let? (notes, history) := after_compaction note context (clear (rebuilt_notes r)) (entry_id e) in
  Ok {| rebuilt_messages := history; rebuilt_notes := notes; rebuilt_mode := rebuilt_mode r |}.

Definition rebuild_custom (delegated : bool) (r : Rebuild) (e : SessionEntry)
  : result Rebuild KernelError :=
  match mode_from_entry e with
  | None => Ok r
  | Some change =>
      let note := {| note_mode := change_mode change; note_delegated := delegated |} in
      let? message := note_message note ("session-mode-" +:+ as_str (entry_id e))
                        (change_turn_id change) (entry_timestamp_ms e) in
      let '(notes, history) := place (rebuilt_notes r) (rebuilt_messages r) message in
      Ok {| rebuilt_messages := history; rebuilt_notes := notes;
            rebuilt_mode := change_mode change |}
  end.

(** The body of the loop over the branch. *)
Definition rebuild_entry (delegated : bool) (r : Rebuild) (e : SessionEntry)
  : result Rebuild KernelError :=
  match entry_kind e with
  | KindMessage =>
      let? message := entry_message e in
      let '(notes, history) := push (rebuilt_notes r) (rebuilt_messages r) message in
      Ok {| rebuilt_messages := history; rebuilt_notes := notes;
            rebuilt_mode := rebuilt_mode r |}
  | KindCompaction => rebuild_compaction delegated r e
  | KindCustom => rebuild_custom delegated r e
  | KindModelChange | KindThinkingLevelChange | KindActiveToolsChange
  | KindBranchSummary => Ok r
  end.

Fixpoint rebuild (delegated : bool) (r : Rebuild) (b : list SessionEntry)
  : result Rebuild KernelError :=
  match b with
  | [] => Ok r
  | e :: rest => let? r' := rebuild_entry delegated r e in rebuild delegated r' rest
  end.

Definition history_from_store (store : S) (l : LaneId) (delegated : bool)
  : result Rebuild KernelError :=
  match lane store l with
  | None => Ok rebuild_empty
  | Some leaf =>
      let? b := map_err Store (branch store leaf) in
      rebuild delegated rebuild_empty b
  end.

(** ** [session_replay] *)

(** The items the branch contributes, with the Turns whose Assistant is on it.
    [resolve_window] is the catalog lookup of a model's context size. *)
Context (resolve_window : string -> string -> option Z).

Definition sequenced : Type := (Z * SessionReplayItem R)%type.

Definition replay_message (e : SessionEntry) (turns : gset TurnId)
  : result (gset TurnId * list sequenced) KernelError :=
  let? message := entry_message e in
  match content message with
  | Assistant _ metadata _ =>
      Ok ({[ turn_id (identity message) ]} ∪ turns,
          [(sequence_get (entry_sequence e),
            ReplayMessage message
              (resolve_window (provider_id metadata) (model_id metadata)))])
  | _ => Ok (turns, [(sequence_get (entry_sequence e), ReplayMessage message None)])
  end.

Definition replay_compaction (e : SessionEntry) : result (list sequenced) KernelError :=
  let? data := map_err (fun err => Store (Json err))
                 (from_value (T := CompactionData R) (JObject (entry_payload e))) in
  let? d := ok_or (details data)
              (Store (InvalidSession "compaction details are required")) in
  Ok [(sequence_get (entry_sequence e),
       ReplayCompaction (details_run_id d) (reason d)
         {| result_entry_id := entry_id e; result_turn_id := details_turn_id d;
            result_summary := summary data; result_tokens_before := tokens_before data;
            result_usage := compaction_usage data;
            result_started_at_ms := details_started_at_ms d;
            result_ended_at_ms := details_ended_at_ms d |})].

Fixpoint replay_branch (turns : gset TurnId) (b : list SessionEntry)
  : result (gset TurnId * list sequenced) KernelError :=
  match b with
  | [] => Ok (turns, [])
  | e :: rest =>
      let? (turns, items) :=
        match entry_kind e with
        | KindMessage => replay_message e turns
        | KindCompaction => let? items := replay_compaction e in Ok (turns, items)
        | _ => Ok (turns, [])
        end in
      let? (turns, more) := replay_branch turns rest in
      Ok (turns, (items ++ more)%list)
  end.

(** The Turn a settlement record stores; [TurnRecord]'s decoder is derived. *)
Context (turn_from_value : json -> result TurnRecord json_error).

Definition has_key (key : string) (m : json_map) : bool := bool_decide (is_Some (m !! key)).

Fixpoint replay_turns (l : LaneId) (active : gset TurnId) (runs : gmap RunId TurnId)
  (records : list SessionRecord)
  : result (gmap RunId TurnId * list sequenced) KernelError :=
  match records with
  | [] => Ok (runs, [])
  | r :: rest =>
      if negb (bool_decide (record_lane r = l))
         || negb (bool_decide (record_kind r = StepAttempt))
         || negb (has_key "turn_id" (record_payload r))
         || negb (has_key "outcome" (record_payload r))
      then replay_turns l active runs rest
      else
        let? turn := map_err (fun err => Store (Json err))
                       (turn_from_value (JObject (record_payload r))) in
        let id := turn_identity turn in
        if bool_decide (turn_turn_id id ∈ active) then
          let? (runs, more) :=
            replay_turns l active (<[turn_run_id id := turn_turn_id id]> runs) rest in
          Ok (runs, (sequence_get (record_sequence r), ReplayTurn turn) :: more)
        else replay_turns l active runs rest
  end.

Definition run_record_error {A} (r : SessionRecord) (before after : string)
  : result A KernelError :=
  Err (Store (InvalidSession (before +:+ as_str (record_id r) +:+ after))).

(** The outcome an [OperationFinished] record states. *)
Definition record_outcome (r : SessionRecord) : result AgentOutcome KernelError :=
  let text key := v ← record_payload r !! key; json_as_str v in
  match text "status" with
  | Some "completed" => Ok Succeeded
  | Some "cancelled" => Ok Cancelled
  | Some "failed" =>
      match text "error" with
      | Some message => Ok (Failed message)
      | None => run_record_error r "failed Run record " " is missing its error"
      end
  | Some status =>
      run_record_error r "Run record " (" has unsupported status " +:+ status)
  | None => run_record_error r "Run record " " is missing its status"
  end.

Fixpoint replay_runs (l : LaneId) (runs : gmap RunId TurnId) (records : list SessionRecord)
  : result (list sequenced) KernelError :=
  match records with
  | [] => Ok []
  | r :: rest =>
      if negb (bool_decide (record_lane r = l))
         || negb (bool_decide (record_kind r = OperationFinished))
      then replay_runs l runs rest
      else match run ← record_run_id r; turn ← runs !! run; Some (run, turn) with
      | None => replay_runs l runs rest
      | Some (run, turn) =>
          let? outcome := record_outcome r in
          let? more := replay_runs l runs rest in
          Ok ((sequence_get (record_sequence r),
               ReplayRunEnd run turn outcome (record_timestamp_ms r)) :: more)
      end
  end.

(** [sort_by_key]: a stable sort by sequence. *)
Fixpoint insert_sequenced (x : sequenced) (l : list sequenced) : list sequenced :=
  match l with
  | [] => [x]
  | y :: r => if (x.1 <=? y.1)%Z then x :: l else y :: insert_sequenced x r
  end.
Definition sort_sequenced (l : list sequenced) : list sequenced :=
  foldr insert_sequenced [] l.

Definition session_replay (b : list SessionEntry) (rs : list SessionRecord) (l : LaneId)
  : result (list (SessionReplayItem R)) KernelError :=
  let? (active, items) := replay_branch ∅ b in
  let? (runs, turns) := replay_turns l active ∅ rs in
  let? ends := replay_runs l runs rs in
  Ok (map snd (sort_sequenced (items ++ turns ++ ends)%list)).

End Replay.

Arguments Rebuild R : clear implicits.
