(* ===== verification/Transcript.v ===== *)
(** One lane's durable store and the model context kept beside it:
    [crates/kernel/src/runtime/session/transcript.rs].

    The state the Rust code keeps behind one mutex is threaded explicitly, so
    each operation here is one critical section.  The store is any
    implementation of [SessionStore]. *)

From S2P Require Import Prelude Scalar Json Message StoreModel StoreState ToolContract KernelErrors Plan.
From S2P Require Import Replay.
Open Scope string_scope.
Open Scope rust_scope.

Section Transcript.
Context {R : RigTypes} {CC : ContentCodec R}.
Context {S : Type} `{SessionStore S}.
Abbreviation Message := (AgentMessage R).

(** [SessionTranscript] with its [SessionTranscriptState]. *)
Record SessionTranscript : Type := {
  transcript_lane : LaneId;
  delegated : bool;
  transcript_store : S;
  history : list Message;
  notes : ModeNotes R;
  write_failed : bool;
  sealed : bool
}.

Definition set_store (t : SessionTranscript) (s : S) : SessionTranscript :=
  {| transcript_lane := transcript_lane t; delegated := delegated t;
     transcript_store := s; history := history t; notes := notes t;
     write_failed := write_failed t; sealed := sealed t |}.

Definition set_context (t : SessionTranscript) (c : ModeNotes R * list Message)
  : SessionTranscript :=
  {| transcript_lane := transcript_lane t; delegated := delegated t;
     transcript_store := transcript_store t; history := c.2; notes := c.1;
     write_failed := write_failed t; sealed := sealed t |}.

(** [state.write_failed = true] *)
Definition fail_writes (t : SessionTranscript) : SessionTranscript :=
  {| transcript_lane := transcript_lane t; delegated := delegated t;
     transcript_store := transcript_store t; history := history t; notes := notes t;
     write_failed := true; sealed := sealed t |}.

Abbreviation T := SessionTranscript.
Abbreviation K := (M SessionTranscript KernelError).

(** A store call whose error propagates with [?]. *)
Definition store_call {A} (op : M S StoreError A) : K A := fun t =>
  let '(r, s) := op (transcript_store t) in (map_err Store r, set_store t s).

(** A store call whose outcome the operation inspects. *)
Definition store_try {A} (op : M S StoreError A) : K (result A StoreError) := fun t =>
  let '(r, s) := op (transcript_store t) in (Ok r, set_store t s).

Definition m_modify (f : T -> T) : K unit := fun t => (Ok tt, f t).
Definition read {A} (f : T -> A) : K A := fun t => (Ok (f t), t).

(** [SessionTranscriptState::push_context] *)
Definition push_context (message : Message) : K unit :=
  m_modify (fun t => set_context t (push (notes t) (history t) message)).

(** [SessionTranscriptState::install] *)
Definition install (r : Rebuild R) : K unit :=
  m_modify (fun t => set_context t (rebuilt_notes r, rebuilt_messages r)).

(** [SessionTranscript::writable] *)
Definition writable : K unit := fun t =>
  if sealed t then (Err SessionClosing, t)
  else if write_failed t then (Err SessionPersistenceUncertain, t)
  else (Ok tt, t).

(** [SessionTranscript::seal] *)
Definition seal : K unit := m_modify (fun t =>
  {| transcript_lane := transcript_lane t; delegated := delegated t;
     transcript_store := transcript_store t; history := history t; notes := notes t;
     write_failed := write_failed t; sealed := true |}).

Definition ensure_writable : K unit := writable.

Definition lane_of (t : T) : option EntryId := lane (transcript_store t) (transcript_lane t).

(** [leaf.map(|leaf| store.branch(leaf)).transpose()?.unwrap_or_default()] *)
Definition branch_or_root (s : S) (leaf : option EntryId)
  : result (list SessionEntry) KernelError :=
  match leaf with
  | None => Ok []
  | Some leaf => map_err Store (branch s leaf)
  end.

(** [SessionTranscript::branch_at], [active_branch] *)
Definition branch_at (leaf : option EntryId) (t : T) : result (list SessionEntry) KernelError :=
  branch_or_root (transcript_store t) leaf.
Definition active_branch (t : T) : result (list SessionEntry) KernelError :=
  branch_at (lane_of t) t.

(** [SessionTranscript::history_from_store] *)
Definition rebuilt (t : T) : result (Rebuild R) KernelError :=
  history_from_store (transcript_store t) (transcript_lane t) (delegated t).

(** [SessionTranscript::restored] *)
Definition restored (s : S) (l : LaneId) (dlg : bool) : result T KernelError :=
  let? r := history_from_store s l dlg in
  Ok {| transcript_lane := l; delegated := dlg; transcript_store := s;
        history := rebuilt_messages r; notes := rebuilt_notes r;
        write_failed := false; sealed := false |}.

(** ** Appending *)

(** [commit_setting] *)
Definition commit_setting (entry : NewEntry) : K unit :=
  let! _ := writable in
  let! t := m_get in
  let! outcome := store_try (let! _ := append_entry (transcript_lane t) entry in sync) in
  match outcome with
  | Ok _ => m_ret tt
  | Err error => let! _ := m_modify fail_writes in m_fail (Store error)
  end.

Definition uncertain : K unit :=
  let! _ := m_modify fail_writes in m_fail SessionPersistenceUncertain.

Fixpoint append_records (rs : list NewRecord) : K unit :=
  match rs with
  | [] => m_ret tt
  | r :: rest =>
      let! outcome := store_try (append_record r) in
      match outcome with
      | Ok _ => append_records rest
      | Err _ => uncertain
      end
  end.

(** [commit_records] *)
Definition commit_records (rs : list NewRecord) : K unit :=
  let! _ := writable in
  let! _ := append_records rs in
  let! outcome := store_try sync in
  match outcome with Ok _ => m_ret tt | Err _ => uncertain end.

Definition message_entry (id : EntryId) (payload : json) : NewEntry :=
  {| new_entry_id := id; new_entry_kind := KindMessage; new_entry_payload := payload |}.

(** [serde_json::to_value(message)?] *)
Definition encode_message (m : Message) : K json :=
  m_lift (map_err (fun e => Store (Json e)) (message_to_value m)).

(** [commit_consumed] *)
Definition commit_consumed (id : EntryId) (message : Message) (record : NewRecord) : K unit :=
  let! payload := encode_message message in
  let! _ := writable in
  let! t := m_get in
  let! outcome := store_try (append_entry (transcript_lane t) (message_entry id payload)) in
  match outcome with
  | Err _ => uncertain
  | Ok _ =>
      let! _ := push_context message in
      let! recorded := store_try (append_record record) in
      match recorded with Ok _ => m_ret tt | Err _ => uncertain end
  end.

(** [append_context_message] *)
Definition append_context_message (id : EntryId) (message : Message) : K unit :=
  let! _ := writable in
  let! t := m_get in
  let! payload := encode_message message in
  let! _ := store_call (append_entry (transcript_lane t) (message_entry id payload)) in
  push_context message.

(** [append_mode_note] *)
Definition append_mode_note (id : EntryId) (change : ModeChange) : K unit :=
  let! _ := writable in
  let! t := m_get in
  let! entry := store_call (append_entry (transcript_lane t)
    {| new_entry_id := id; new_entry_kind := KindCustom;
       new_entry_payload := JObject (mode_payload change) |}) in
  let! note := m_lift (note_message
    {| note_mode := change_mode change; note_delegated := delegated t |}
    ("session-mode-" +:+ as_str (entry_id entry)) (change_turn_id change)
    (entry_timestamp_ms entry)) in
  m_modify (fun t => set_context t (place (notes t) (history t) note)).

(** [append_store_only_entry], [append_record], [append_extension_entry] *)
Definition append_store_only_entry (entry : NewEntry) : K SessionEntry :=
  let! _ := writable in
  let! t := m_get in
  store_call (append_entry (transcript_lane t) entry).
Definition transcript_append_record (record : NewRecord) : K SessionRecord :=
  let! _ := writable in store_call (append_record record).
Definition transcript_extension_entry (id : EntryId) (ext : ExtensionId)
  (custom_type : string) (data : json) : K SessionEntry :=
  let! _ := writable in
  let! t := m_get in
  store_call (append_extension_entry (transcript_lane t) id ext custom_type data).

(** [commit_compaction] *)
Definition commit_compaction (entry : NewEntry) (context : list Message) : K unit :=
  let! _ := writable in
  let! t := m_get in
  let! b := m_lift (active_branch t) in
  let note := {| note_mode := branch_mode b; note_delegated := delegated t |} in
  let! prepared := m_lift (after_compaction note context notes_default (new_entry_id entry)) in
  let! _ := store_call (append_entry (transcript_lane t) entry) in
  m_modify (fun t => set_context t prepared).

(** What [compaction.rs] commits once the summary is written: the encoded data
    and the context it stands for. *)
Definition finish_compaction (id : EntryId) (data : CompactionData R) : K unit :=
  let! context := m_lift (compaction_context id data) in
  let! payload := m_lift (map_err (fun e => Store (Json e)) (compaction_object data)) in
  commit_compaction {| new_entry_id := id; new_entry_kind := KindCompaction;
                       new_entry_payload := JObject payload |} context.

(** [sync], [set_name], [set_default_name], [set_label] *)
Definition transcript_sync : K unit := store_call sync.

Definition transcript_set_name (n : option string) : K unit :=
  let! _ := writable in store_call (set_name n).

Definition set_default_name (n : string) : K (option string) :=
  let! _ := writable in
  let! t := m_get in
  if was_named (transcript_store t) then m_ret None
  else let! _ := store_call (set_name (Some n)) in m_ret (Some n).

Definition transcript_set_label (id : EntryId) (l : option string) : K unit :=
  let! _ := writable in store_call (set_label id l).

(** ** Tree navigation *)

Record NavigationSnapshot : Type := {
  old_leaf_id : option EntryId;
  target : SessionEntry;
  old_branch : list SessionEntry;
  target_branch : list SessionEntry
}.

(** [navigation_snapshot] *)
Definition navigation_snapshot (target_id : EntryId) (t : T)
  : result NavigationSnapshot KernelError :=
  let s := transcript_store t in
  let? target := ok_or (get_entry s target_id) (Store (EntryNotFound target_id)) in
  let? old_branch := branch_or_root s (lane_of t) in
  let? target_branch := map_err Store (branch s target_id) in
  Ok {| old_leaf_id := lane_of t; target := target; old_branch := old_branch;
        target_branch := target_branch |}.

(** Brings model context in line with the lane the store kept, if it can be
    rebuilt; reports whether it was. *)
Definition reconcile : K bool := fun t =>
  match rebuilt t with
  | Ok r => (Ok true, set_context t (rebuilt_notes r, rebuilt_messages r))
  | Err _ => (Ok false, t)
  end.

(** [clear_navigation] *)
Definition clear_navigation : K (option EntryId) :=
  let! _ := writable in
  let! t := m_get in
  let old_leaf := lane_of t in
  let! _ := store_call (move_lane (transcript_lane t) None) in
  let old := (notes t, history t) in
  let! _ := m_modify (fun t => set_context t (notes_default, [])) in
  let! synced := store_try sync in
  match synced with
  | Ok _ => m_ret old_leaf
  | Err error =>
      let! restored := store_try (move_lane (transcript_lane t) old_leaf) in
      match restored with
      | Ok _ =>
          let! _ := m_modify (fun t => set_context t old) in
          let! _ := store_try sync in
          m_fail (Store error)
      | Err _ =>
          let! _ := reconcile in
          m_fail (Store error)
      end
  end.

Record NavigationCommit : Type := {
  commit_new_leaf : option EntryId;
  commit_target : EntryId;
  commit_summary : option NewEntry;
  commit_label : option string
}.

Record NavigationResult : Type := {
  summary_entry : option SessionEntry;
  new_leaf_id : option EntryId
}.

(** What the mutating closure of [commit_navigation] leaves in the variables
    it captured. *)
Record NavigationTrace : Type := {
  label_rollback : option (EntryId * option string);
  appended_summary : option SessionEntry;
  reached_sync : bool
}.

Definition trace_start : NavigationTrace :=
  {| label_rollback := None; appended_summary := None; reached_sync := false |}.

(** The closure after the lane moved and the summary, if any, was appended. *)
Definition navigation_tail (c : NavigationCommit) (summary : option SessionEntry) (t : T)
  : result (option EntryId * Rebuild R) KernelError * NavigationTrace * T :=
  let label_entry := from_option entry_id (commit_target c) summary in
  let rollback := match commit_label c with
                  | Some _ => Some (label_entry, label (transcript_store t) label_entry)
                  | None => None
                  end in
  let trace reached := {| label_rollback := rollback; appended_summary := summary;
                          reached_sync := reached |} in
  let '(labelled, t) :=
    match commit_label c with
    | Some text => store_call (set_label label_entry (Some text)) t
    | None => (Ok tt, t)
    end in
  match labelled with
  | Err e => (Err e, trace false, t)
  | Ok _ =>
      match rebuilt t with
      | Err e => (Err e, trace false, t)
      | Ok r =>
          match store_call sync t with
          | (Err e, t) => (Err e, trace true, t)
          | (Ok _, t) => (Ok (lane_of t, r), trace true, t)
          end
      end
  end.

(** The closure: its result, the trace and the transcript, whatever happens. *)
Definition navigation_mutation (c : NavigationCommit) (t : T)
  : result (option EntryId * Rebuild R) KernelError * NavigationTrace * T :=
  let l := transcript_lane t in
  match store_call (move_lane l (commit_new_leaf c)) t with
  | (Err e, t) => (Err e, trace_start, t)
  | (Ok _, t) =>
      match commit_summary c with
      | None => navigation_tail c None t
      | Some entry =>
          match store_call (append_entry l entry) t with
          | (Err e, t) => (Err e, trace_start, t)
          | (Ok summary, t) => navigation_tail c (Some summary) t
          end
      end
  end.

(** The compensation before a summary exists: label, then lane, then sync. *)
Definition navigation_rollback (trace : NavigationTrace) (old_leaf : option EntryId)
  : K unit :=
  let! t := m_get in
  let! _ := match label_rollback trace with
            | Some (id, previous) =>
                let! _ := store_try (set_label id previous) in m_ret tt
            | None => m_ret tt
            end in
  let! restored := store_try (move_lane (transcript_lane t) old_leaf) in
  match restored with
  | Ok _ => let! _ := store_try sync in m_ret tt
  | Err _ => let! _ := reconcile in m_ret tt
  end.

(** [commit_navigation] *)
Definition commit_navigation (c : NavigationCommit) : K NavigationResult :=
  let! _ := writable in
  let! t0 := m_get in
  let old_leaf := lane_of t0 in
  fun t =>
    match navigation_mutation c t with
    | (Ok (leaf, r), trace, t) =>
        (let! _ := install r in
         m_ret {| summary_entry := appended_summary trace; new_leaf_id := leaf |}) t
    | (Err error, trace, t) =>
        match appended_summary trace with
        | Some _ =>
            (let! reconciled := reconcile in
             let! synced := store_try sync in
             let! t := m_get in
             if reached_sync trace && reconciled && is_ok synced then
               m_ret {| summary_entry := appended_summary trace; new_leaf_id := lane_of t |}
             else m_fail error) t
        | None =>
            (let! _ := navigation_rollback trace old_leaf in m_fail error) t
        end
    end.

End Transcript.

Arguments SessionTranscript R S : clear implicits.
