(* ===== verification/Aligned.v ===== *)
(** Live model context is always what a rebuild from the store gives: every
    transcript operation keeps the two in step, over any store that satisfies
    [SessionStoreLaws], whether the operation succeeds or fails. *)

From S2P Require Import Prelude Scalar Json Message StoreModel ToolContract.
From S2P Require Import StoreState KernelErrors Plan Replay.
From S2P Require Import Transcript.
Open Scope string_scope.
Open Scope rust_scope.

(** ** Entries that carry no model context *)

Definition payload_text (p : json_map) (key : string) : option string :=
  v ← p !! key; json_as_str v.

Definition is_mode_payload (p : json_map) : bool :=
  bool_decide (payload_text p "extensionId" = Some SLUG) &&
  bool_decide (payload_text p "customType" = Some MODE_CUSTOM_TYPE).

Definition plain_entry (e : NewEntry) (p : json_map) : Prop :=
  new_entry_payload e = JObject p /\ disjoint_keys entry_fields p.

Definition context_free (e : NewEntry) : Prop :=
  exists p, plain_entry e p /\
    match new_entry_kind e with
    | KindMessage | KindCompaction => False
    | KindCustom => is_mode_payload p = false
    | _ => True
    end.

Definition plain_record (r : NewRecord) : Prop :=
  exists p, new_record_payload r = JObject p /\ disjoint_keys record_fields p.

Lemma mode_entry_payload e :
  is_mode_payload (entry_payload e) = false -> mode_from_entry e = None.
Proof.
  intros H. unfold mode_from_entry. cbv zeta. fold (payload_text (entry_payload e) "extensionId").
  fold (payload_text (entry_payload e) "customType").
  unfold is_mode_payload in H. apply andb_false_iff in H as [-> | ->]; simpl;
    by rewrite ?orb_true_r.
Qed.

Section Aligned.
Context {R : RigTypes} {CC : ContentCodec R}.
Context {S : Type} `{SessionStoreLaws S}.
Abbreviation Message := (AgentMessage R).
Abbreviation T := (SessionTranscript R S).

(** ** Rebuilding, entry by entry *)

Lemma rebuild_app dlg (r : Rebuild R) b b' :
  rebuild dlg r (b ++ b')%list = (let? r' := rebuild dlg r b in rebuild dlg r' b').
Proof.
  revert r. induction b as [|e b IH]; intros r; [done|]. simpl.
  destruct (rebuild_entry dlg r e); [apply IH|done].
Qed.

Lemma rebuild_entry_mode dlg (r r' : Rebuild R) e :
  rebuild_entry dlg r e = Ok r' ->
  rebuilt_mode r' =
    match mode_from_entry e with Some c => change_mode c | None => rebuilt_mode r end.
Proof.
  intros Hr. unfold rebuild_entry in Hr.
  destruct (entry_kind e) eqn:Hk; try (injection Hr as <-);
    try (unfold mode_from_entry; rewrite Hk; done).
  - destruct (entry_message e); [|done]. cbn [result_bind] in Hr.
    destruct (push _ _ _). injection Hr as <-. unfold mode_from_entry. by rewrite Hk.
  - unfold rebuild_compaction in Hr. destruct (map_err _ _); [|done]. cbn [result_bind] in Hr.
    destruct (compaction_context _ _); [|done]. cbn [result_bind] in Hr.
    destruct (after_compaction _ _ _ _) as [[]|]; [|done]. injection Hr as <-.
    unfold mode_from_entry. by rewrite Hk.
  - unfold rebuild_custom in Hr. destruct (mode_from_entry e) as [c|]; [|by injection Hr as <-].
    destruct (note_message _ _ _ _); [|done]. cbn [result_bind] in Hr.
    destruct (place _ _ _). by injection Hr as <-.
Qed.

(** The mode a rebuild tracks is the branch's. *)
Lemma rebuild_mode dlg b (r : Rebuild R) :
  rebuild dlg rebuild_empty b = Ok r -> rebuilt_mode r = branch_mode b.
Proof.
  revert r. induction b as [|e b IH] using rev_ind; intros r Hr.
  - by injection Hr as <-.
  - rewrite rebuild_app in Hr. destruct (rebuild dlg rebuild_empty b) as [r0|]; [|done].
    cbn [result_bind rebuild] in Hr.
    destruct (rebuild_entry dlg r0 e) as [r1|] eqn:He; [|done]. injection Hr as <-.
    rewrite branch_mode_snoc, (rebuild_entry_mode _ _ _ _ He). by rewrite (IH r0).
Qed.

Lemma history_lane_branch (s : S) l dlg :
  history_from_store (R := R) s l dlg =
    (let? b := map_err Store (lane_branch s l) in rebuild dlg rebuild_empty b).
Proof. unfold history_from_store, lane_branch. by destruct (lane s l). Qed.

Lemma history_same_tree (s s' : S) l dlg :
  same_tree s s' -> history_from_store (R := R) s' l dlg = history_from_store s l dlg.
Proof. intros Ht. rewrite !history_lane_branch. by rewrite Ht. Qed.

(** An entry that carries no context leaves a rebuild where it was. *)
Lemma rebuild_context_free dlg (r : Rebuild R) e x :
  context_free e -> entry_kind x = new_entry_kind e ->
  JObject (entry_payload x) = new_entry_payload e ->
  rebuild_entry dlg r x = Ok r.
Proof.
  intros (p & [Hp _] & Hk) Hkx Hpx. rewrite Hp in Hpx. injection Hpx as Hpx.
  unfold rebuild_entry. rewrite Hkx. destruct (new_entry_kind e); try done.
  unfold rebuild_custom. rewrite mode_entry_payload; [done|]. by rewrite Hpx.
Qed.

(** ** The invariant *)

Definition in_step (t : T) (r : Rebuild R) : Prop :=
  rebuilt_messages r = history t /\ rebuilt_notes r = notes t.

Definition aligned (t : T) : Prop :=
  store_wf (transcript_store t) /\ exists r, rebuilt t = Ok r /\ in_step t r.

(** The store moved on without changing any tree. *)
Lemma aligned_same_tree (t : T) s :
  aligned t -> store_wf s -> same_tree (transcript_store t) s -> aligned (set_store t s).
Proof.
  intros [_ (r & Hr & Hin)] Hwf Ht. split; [done|]. exists r. split; [|done].
  unfold rebuilt in *. simpl. by rewrite (history_same_tree _ _ _ _ Ht).
Qed.

Lemma aligned_flags (t t' : T) :
  transcript_lane t' = transcript_lane t -> delegated t' = delegated t ->
  transcript_store t' = transcript_store t -> history t' = history t ->
  notes t' = notes t -> aligned t -> aligned t'.
Proof.
  intros Hl Hd Hs Hh Hn [Hwf (r & Hr & Hm & Hk)]. split; [by rewrite Hs|].
  exists r. unfold rebuilt, in_step in *. by rewrite Hl, Hd, Hs, Hh, Hn.
Qed.

Lemma aligned_fail_writes (t : T) : aligned t -> aligned (fail_writes t).
Proof. by apply aligned_flags. Qed.

(** A rebuild of an aligned transcript reached the branch's mode. *)
Lemma aligned_branch (t : T) r :
  rebuilt t = Ok r ->
  exists b, lane_branch (transcript_store t) (transcript_lane t) = Ok b /\
    rebuild (delegated t) rebuild_empty b = Ok r /\ rebuilt_mode r = branch_mode b.
Proof.
  unfold rebuilt. rewrite history_lane_branch. intros Hr.
  destruct (lane_branch _ _) as [b|]; [|done]. cbn [map_err result_bind] in Hr.
  exists b. split; [done|]. split; [done|]. by eapply rebuild_mode.
Qed.

(** Appending to the transcript's lane extends the rebuild by one entry. *)
Lemma rebuilt_append (t : T) e p x s r :
  store_wf (transcript_store t) -> rebuilt t = Ok r -> plain_entry e p ->
  append_entry (transcript_lane t) e (transcript_store t) = (Ok x, s) ->
  store_wf s /\ rebuilt (set_store t s) = rebuild_entry (delegated t) r x /\
  entry_id x = new_entry_id e /\ entry_kind x = new_entry_kind e /\ entry_payload x = p.
Proof.
  intros Hwf Hr [Hp Hd] Ha. destruct (aligned_branch _ _ Hr) as (b & Hb & Hrb & _).
  destruct (append_entry_grows _ _ _ _ _ _ _ Hwf Hp Hd Hb Ha)
    as (Hid & Hk & Hpx & _ & Hbr & _).
  split.
  { pose proof (append_entry_wf (transcript_store t) (transcript_lane t) e Hwf) as Hw.
    by rewrite Ha in Hw. }
  split; [|done]. unfold rebuilt. simpl. rewrite history_lane_branch, Hbr.
  cbn [map_err result_bind]. rewrite rebuild_app, Hrb. cbn [result_bind rebuild].
  by destruct (rebuild_entry _ _ _).
Qed.

Lemma aligned_append_fails (t : T) e err s :
  aligned t ->
  append_entry (transcript_lane t) e (transcript_store t) = (Err err, s) ->
  aligned (set_store t s).
Proof.
  intros Hal Ha. pose proof Hal as [Hwf _].
  pose proof (append_entry_wf (transcript_store t) (transcript_lane t) e Hwf) as Hw.
  rewrite Ha in Hw. apply aligned_same_tree; [done..|]. by eapply append_entry_fails.
Qed.

Lemma aligned_append_free (t : T) e x s :
  aligned t -> context_free e ->
  append_entry (transcript_lane t) e (transcript_store t) = (Ok x, s) ->
  aligned (set_store t s).
Proof.
  intros [Hwf (r & Hr & Hin)] Hfree Ha. pose proof Hfree as (p & Hp & _).
  destruct (rebuilt_append _ _ _ _ _ _ Hwf Hr Hp Ha) as (Hw & Hrb & _ & Hk & Hpx).
  split; [done|]. exists r. split; [|done]. rewrite Hrb.
  apply (rebuild_context_free _ _ e); [done|done|]. rewrite Hpx. by destruct Hp as [-> _].
Qed.

(** ** A small Hoare logic: [keeps c] when [c] preserves alignment, whatever
    it returns. *)

Definition keeps {A} (c : M T KernelError A) : Prop :=
  forall t, aligned t -> aligned (c t).2.

Lemma keeps_ret {A} (a : A) : keeps (m_ret a).
Proof. by intros t. Qed.
Lemma keeps_fail {A} e : keeps (A := A) (m_fail e).
Proof. by intros t. Qed.
Lemma keeps_lift {A} (r : result A KernelError) : keeps (m_lift r).
Proof. by intros t. Qed.
Lemma keeps_get : keeps m_get.
Proof. by intros t. Qed.
Lemma keeps_bind {A B} (c : M T KernelError A) (k : A -> M T KernelError B) :
  keeps c -> (forall a, keeps (k a)) -> keeps (m_bind c k).
Proof.
  intros Hc Hk t Ht. unfold m_bind. pose proof (Hc t Ht) as Hc'.
  destruct (c t) as [[a|e] t']; [|done]. by apply Hk.
Qed.
Lemma keeps_writable : keeps writable.
Proof. intros t Ht. unfold writable. by destruct (sealed t), (write_failed t). Qed.
Lemma keeps_fail_writes : keeps (m_modify fail_writes).
Proof. intros t. apply aligned_fail_writes. Qed.
Lemma keeps_uncertain : keeps uncertain.
Proof. apply keeps_bind; [apply keeps_fail_writes|intros; apply keeps_fail]. Qed.

(** A store operation that never changes a tree. *)
Definition tree_neutral {A} (op : M S StoreError A) : Prop :=
  forall s, store_wf s -> store_wf (op s).2 /\ same_tree s (op s).2.

Lemma neutral_call {A} (op : M S StoreError A) : tree_neutral op -> keeps (store_call op).
Proof.
  intros Hop t Ht. pose proof Ht as [Hwf _]. destruct (Hop _ Hwf) as [Hw Hs].
  unfold store_call. destruct (op (transcript_store t)) as [r s]. by apply aligned_same_tree.
Qed.

Lemma neutral_try {A} (op : M S StoreError A) : tree_neutral op -> keeps (store_try op).
Proof.
  intros Hop t Ht. pose proof Ht as [Hwf _]. destruct (Hop _ Hwf) as [Hw Hs].
  unfold store_try. destruct (op (transcript_store t)) as [r s]. by apply aligned_same_tree.
Qed.

Lemma sync_neutral : tree_neutral sync.
Proof. intros s Hwf. split; [by apply sync_wf|apply sync_tree]. Qed.
Lemma set_name_neutral n : tree_neutral (set_name n).
Proof. intros s Hwf. split; [by apply set_name_wf|apply set_name_tree]. Qed.
Lemma set_label_neutral i n : tree_neutral (set_label i n).
Proof. intros s Hwf. split; [by apply set_label_wf|apply set_label_tree]. Qed.
Lemma append_record_neutral r : plain_record r -> tree_neutral (append_record r).
Proof.
  intros (p & Hp & Hd) s Hwf. pose proof (append_record_wf s r Hwf) as Hw.
  split; [done|]. destruct (append_record r s) as [[x|e] s'] eqn:Ha.
  - by destruct (append_record_adds _ _ _ _ _ Hp Hd Ha).
  - by destruct (append_record_fails _ _ _ _ Ha).
Qed.

End Aligned.

#[export] Hint Resolve keeps_ret keeps_fail keeps_lift keeps_get keeps_writable
  keeps_fail_writes keeps_uncertain sync_neutral set_name_neutral set_label_neutral
  append_record_neutral neutral_call neutral_try : kernel.

(** Walks a computation made of steps that keep alignment. *)
Ltac keeps_step :=
  repeat first
    [ apply keeps_bind; [|intros ?]
    | progress cbv beta
    | match goal with |- keeps (match ?x with _ => _ end) => destruct x end ];
  eauto with kernel.

(** Each transcript operation keeps model context in step with the store. *)

Open Scope string_scope.
Open Scope rust_scope.

(** ** Payloads the kernel writes never use an entry's own field names *)

Lemma mode_payload_disjoint c : disjoint_keys entry_fields (mode_payload c).
Proof. unfold disjoint_keys, entry_fields, mode_payload. repeat constructor; by simplify_map_eq. Qed.

Section Ops.
Context {R : RigTypes} {CC : ContentCodec R}.
Context {S : Type} `{SessionStoreLaws S}.
Abbreviation Message := (AgentMessage R).
Abbreviation T := (SessionTranscript R S).

Lemma message_object_disjoint (m : Message) o :
  message_object m = Some o -> disjoint_keys entry_fields o.
Proof.
  unfold message_object. destruct (content_to_value _); [|done]. intros [= <-].
  unfold disjoint_keys, entry_fields. repeat constructor; by simplify_map_eq.
Qed.

Lemma compaction_object_disjoint (d : CompactionData R) o :
  compaction_object d = Ok o -> disjoint_keys entry_fields o.
Proof.
  unfold compaction_object. destruct (collect_results _); [|done]. cbn [result_bind].
  intros [= <-]. unfold disjoint_keys, entry_fields, skip_none.
  destruct (compaction_usage d), (details d);
    rewrite ?(left_id_L ∅ (∪)), ?(right_id_L ∅ (∪)), <- ?insert_union_singleton_l;
    repeat constructor; by simplify_map_eq.
Qed.

(** ** Messages *)

(** A stored message entry rebuilds to the message pushed live. *)
Lemma aligned_message (t : T) id m payload x s :
  aligned t -> message_ok m -> message_to_value m = Ok payload ->
  append_entry (transcript_lane t) (message_entry id payload) (transcript_store t) = (Ok x, s) ->
  aligned (set_context (set_store t s) (push (notes t) (history t) m)).
Proof.
  intros [Hwf (r & Hr & Hm & Hn)] Hok Hv Ha.
  destruct (message_roundtrip m Hok) as (o & Ho & Ho' & Hd).
  rewrite Hv in Ho'. injection Ho' as ->.
  eapply (rebuilt_append _ _ o) in Ha as (Hw & Hrb & Hid & Hk & Hp);
    [|done|done|by split; [|eapply message_object_disjoint]].
  split; [done|]. unfold rebuild_entry, entry_message in Hrb.
  rewrite Hk, Hp, Hd in Hrb. cbn [new_entry_kind message_entry map_err result_bind] in Hrb.
  rewrite Hn, Hm in Hrb. destruct (push (notes t) (history t) m) as [ns h] eqn:Hpush.
  eexists. split; [exact Hrb|]. done.
Qed.

Lemma keeps_append_context_message id (m : Message) :
  message_ok m -> keeps (S := S) (append_context_message id m).
Proof.
  intros Hok t Ht. unfold append_context_message, m_bind, writable.
  destruct (sealed t); [done|]. destruct (write_failed t); [done|].
  unfold m_get, encode_message, m_lift. destruct (message_to_value m) as [payload|] eqn:Hv;
    [|done]. cbn [map_err]. unfold store_call.
  destruct (append_entry _ _ _) as [[x|e] s] eqn:Ha; cbn [map_err].
  - by apply (aligned_message t id m payload x s).
  - by eapply aligned_append_fails.
Qed.

Lemma keeps_commit_consumed id (m : Message) r :
  message_ok m -> plain_record r -> keeps (S := S) (commit_consumed id m r).
Proof.
  intros Hok Hr t Ht. unfold commit_consumed, encode_message, m_lift.
  unfold m_bind at 1. destruct (message_to_value m) as [payload|] eqn:Hv; [|done].
  cbn [map_err]. unfold m_bind at 1, writable.
  destruct (sealed t); [done|]. destruct (write_failed t); [done|].
  unfold m_bind at 1, m_get. unfold m_bind at 1, store_try at 1.
  destruct (append_entry _ _ _) as [[x|e] s] eqn:Ha.
  - unfold m_bind at 1, push_context, m_modify. cbn [history notes set_store].
    assert (keeps (S := S) (let! recorded := store_try (append_record r) in
      match recorded with Ok _ => m_ret tt | Err _ => uncertain end)) as Hk.
    { keeps_step. }
    apply Hk. by apply (aligned_message t id m payload x s).
  - apply keeps_uncertain. by eapply aligned_append_fails.
Qed.

(** ** Mode notes *)

Lemma keeps_append_mode_note id c : keeps (S := S) (R := R) (append_mode_note id c).
Proof.
  intros t Ht. unfold append_mode_note, m_bind, writable.
  destruct (sealed t); [done|]. destruct (write_failed t); [done|].
  unfold m_get, store_call.
  destruct (append_entry _ _ _) as [[x|e] s] eqn:Ha; cbn [map_err];
    [|by eapply aligned_append_fails].
  destruct Ht as [Hwf (r & Hr & Hm & Hn)].
  eapply (rebuilt_append _ _ (mode_payload c)) in Ha as (Hw & Hrb & Hid & Hk & Hp);
    [|done|done|split; [done|apply mode_payload_disjoint]].
  unfold rebuild_entry, rebuild_custom in Hrb. rewrite Hk in Hrb.
  cbn [new_entry_kind] in Hrb. rewrite (mode_from_payload x c Hk Hp) in Hrb.
  unfold m_lift. destruct (note_message_ok (R := R)
    {| note_mode := change_mode c; note_delegated := delegated t |}
    (as_str (entry_id x)) (change_turn_id c) (entry_timestamp_ms x)) as [note Hnote].
  rewrite Hnote in *. cbn [result_bind] in Hrb. rewrite Hn, Hm in Hrb.
  unfold m_modify. split; [done|]. simpl.
  destruct (place (notes t) (history t) note) as [ns h]. by eexists.
Qed.

(** ** Settings and other entries without context *)

Lemma keeps_commit_setting e : context_free e -> keeps (S := S) (R := R) (commit_setting e).
Proof.
  intros Hfree t Ht. unfold commit_setting, m_bind, writable.
  destruct (sealed t); [done|]. destruct (write_failed t); [done|].
  unfold m_get, store_try.
  destruct (append_entry _ _ _) as [[x|err] s] eqn:Ha.
  - pose proof (aligned_append_free _ _ _ _ Ht Hfree Ha) as Hs.
    pose proof (neutral_try sync sync_neutral _ Hs) as Hsync. unfold store_try in Hsync.
    cbn [transcript_store set_store] in Hsync.
    destruct (sync s) as [[[]|e'] s']; cbn in *; [done|].
    by apply (aligned_fail_writes (set_store (set_store t s) s')).
  - by eapply aligned_fail_writes, aligned_append_fails.
Qed.

Lemma keeps_append_free e :
  context_free e ->
  keeps (S := S) (R := R) (let! t := m_get in store_call (append_entry (transcript_lane t) e)).
Proof.
  intros Hfree t Ht. unfold m_bind, m_get, store_call.
  destruct (append_entry _ _ _) as [[x|err] s] eqn:Ha; cbn.
  - by eapply aligned_append_free.
  - by eapply aligned_append_fails.
Qed.

Lemma keeps_store_only e : context_free e -> keeps (S := S) (R := R) (append_store_only_entry e).
Proof. intros Hf. apply keeps_bind; [apply keeps_writable|intros _]. by apply keeps_append_free. Qed.

Lemma extension_context_free id (ext : ExtensionId) ct data :
  as_str ext <> SLUG \/ ct <> MODE_CUSTOM_TYPE ->
  context_free {| new_entry_id := id; new_entry_kind := KindCustom;
    new_entry_payload := JObject
      (<["extensionId" := to_value ext]>
      (<["customType" := JString ct]> {[ "data" := data ]})) |}.
Proof.
  intros Hne. eexists. split; [split; [done|]|].
  - unfold disjoint_keys, entry_fields. repeat constructor; by simplify_map_eq.
  - simpl. unfold is_mode_payload, payload_text. simplify_map_eq. cbn.
    apply andb_false_iff. rewrite !bool_decide_eq_false.
    destruct Hne; [left|right]; congruence.
Qed.

Lemma keeps_extension_entry id (ext : ExtensionId) ct data :
  as_str ext <> SLUG \/ ct <> MODE_CUSTOM_TYPE ->
  keeps (S := S) (R := R) (transcript_extension_entry id ext ct data).
Proof.
  intros Hne. apply keeps_bind; [apply keeps_writable|intros _].
  unfold append_extension_entry. by apply keeps_append_free, extension_context_free.
Qed.

(** ** Records, names and labels *)

Lemma keeps_append_records rs :
  Forall plain_record rs -> keeps (S := S) (R := R) (append_records rs).
Proof.
  induction 1 as [|r rs Hr _ IH]; simpl; [apply keeps_ret|].
  apply keeps_bind; [eauto with kernel|]. intros [x|e]; eauto with kernel.
Qed.

Lemma keeps_commit_records rs :
  Forall plain_record rs -> keeps (S := S) (R := R) (commit_records rs).
Proof.
  intros Hr. apply keeps_bind; [eauto with kernel|intros _].
  apply keeps_bind; [by apply keeps_append_records|intros _]. keeps_step.
Qed.

Lemma keeps_append_record r :
  plain_record r -> keeps (S := S) (R := R) (transcript_append_record r).
Proof. intros Hr. unfold transcript_append_record. keeps_step. Qed.

Lemma keeps_set_name n : keeps (S := S) (R := R) (transcript_set_name n).
Proof. unfold transcript_set_name. keeps_step. Qed.

Lemma keeps_set_default_name n : keeps (S := S) (R := R) (set_default_name n).
Proof. unfold set_default_name. keeps_step. Qed.

Lemma keeps_set_label i l : keeps (S := S) (R := R) (transcript_set_label i l).
Proof. unfold transcript_set_label. keeps_step. Qed.

Lemma keeps_transcript_sync : keeps (S := S) (R := R) transcript_sync.
Proof. unfold transcript_sync. eauto with kernel. Qed.

Lemma keeps_seal : keeps (S := S) (R := R) seal.
Proof. intros t Ht. by apply (aligned_flags t). Qed.

(** ** Compaction *)

Lemma keeps_finish_compaction id (d : CompactionData R) :
  compaction_ok d -> keeps (S := S) (finish_compaction id d).
Proof.
  intros Hok t Ht. unfold finish_compaction, m_lift. unfold m_bind at 1.
  destruct (compaction_context id d) as [context|e] eqn:Hc; [|done].
  unfold m_bind at 1. destruct (compaction_roundtrip d Hok) as (o & Ho & Hd). rewrite Ho.
  cbn [map_err]. unfold commit_compaction, m_bind, writable, m_lift, m_get.
  destruct (sealed t); [done|]. destruct (write_failed t); [done|].
  destruct (active_branch t) as [b|e] eqn:Hb; [|done].
  cbn [new_entry_id]. destruct (after_compaction _ context notes_default id)
    as [[ns h]|e] eqn:Hafter; [|done].
  unfold store_call. destruct (append_entry _ _ _) as [[x|e] s] eqn:Ha; cbn [map_err];
    [|by eapply aligned_append_fails].
  destruct Ht as [Hwf (r & Hr & Hm & Hn)].
  destruct (aligned_branch _ _ Hr) as (b' & Hb' & _ & Hmode).
  assert (b' = b) as ->.
  { unfold active_branch, branch_at, branch_or_root, lane_of in Hb.
    unfold lane_branch in Hb'. destruct (lane _ _); [|congruence].
    rewrite Hb' in Hb. by injection Hb. }
  eapply (rebuilt_append _ _ o) in Ha as (Hw & Hrb & Hid & Hk & Hp);
    [|done|done|by split; [|eapply compaction_object_disjoint]].
  unfold rebuild_entry, rebuild_compaction in Hrb. rewrite Hk, Hp, Hd, Hid in Hrb.
  cbn [new_entry_kind new_entry_id map_err result_bind] in Hrb.
  rewrite Hc in Hrb. cbn [result_bind] in Hrb. unfold clear in Hrb.
  rewrite Hmode, Hafter in Hrb. cbn [result_bind] in Hrb.
  unfold m_modify. split; [done|]. by eexists.
Qed.

End Ops.

(** Tree navigation: whichever of its store calls fail, the transcript ends in
    step with the store, or on a lane no rebuild can read. *)

Open Scope string_scope.
Open Scope rust_scope.

Section Navigation.
Context {R : RigTypes} {CC : ContentCodec R}.
Context {S : Type} `{SessionStoreLaws S}.
Abbreviation T := (SessionTranscript R S).

(** In step with the store, or the store's lane cannot be rebuilt at all. *)
Definition settled (t : T) : Prop :=
  store_wf (transcript_store t) /\ (aligned t \/ exists e, rebuilt t = Err e).

Lemma aligned_settled t : aligned t -> settled t.
Proof. intros Ht. split; [apply Ht|by left]. Qed.

Definition same_branches (s s' : S) : Prop := forall leaf, branch s' leaf = branch s leaf.

Lemma same_tree_branches s s' : same_tree s s' -> same_branches s s'.
Proof. by intros (_ & Hb & _). Qed.

Lemma lane_branch_moved (s s' : S) l :
  same_branches s s' -> lane s' l = lane s l -> lane_branch s' l = lane_branch s l.
Proof. intros Hb Hl. unfold lane_branch. rewrite Hl. by destruct (lane s l). Qed.

Lemma rebuilt_moved (t t' : T) :
  same_branches (transcript_store t) (transcript_store t') ->
  transcript_lane t' = transcript_lane t -> delegated t' = delegated t ->
  lane_of t' = lane_of t -> rebuilt t' = rebuilt t.
Proof.
  unfold rebuilt, lane_of. intros Hb Hl Hd Hleaf. rewrite Hl in *. rewrite Hd.
  by rewrite !history_lane_branch, (lane_branch_moved _ _ _ Hb Hleaf).
Qed.

Lemma reconcile_settled (t : T) : store_wf (transcript_store t) -> settled (reconcile t).2.
Proof.
  intros Hwf. unfold reconcile. destruct (rebuilt t) as [r|e] eqn:Hr; simpl.
  - apply aligned_settled. split; [done|]. by exists r.
  - split; [done|]. right. by exists e.
Qed.

Lemma reconcile_aligned (t : T) t' :
  store_wf (transcript_store t) -> reconcile t = (Ok true, t') -> aligned t'.
Proof.
  intros Hwf. unfold reconcile. destruct (rebuilt t) as [r|e] eqn:Hr; [|done].
  intros [= <-]. split; [done|]. by exists r.
Qed.

Lemma neutral_settled {A} (op : M S StoreError A) t :
  tree_neutral op -> settled t -> settled (store_try op t).2.
Proof.
  intros Hop [Hwf [Ht|(e & He)]].
  - by apply aligned_settled, neutral_try.
  - destruct (Hop _ Hwf) as [Hw Hs]. unfold store_try. destruct (op _) as [r s]. simpl in *.
    split; [done|]. right. exists e. unfold rebuilt in *. simpl.
    by rewrite (history_same_tree _ _ _ _ Hs).
Qed.

Lemma move_lane_branches (s : S) l to : same_branches s (move_lane l to s).2.
Proof.
  destruct (move_lane l to s) as [[[]|e] s'] eqn:Hm; simpl.
  - by destruct (move_lane_moves _ _ _ _ Hm) as (_ & _ & Hb & _).
  - by eapply same_tree_branches, move_lane_fails.
Qed.

Lemma store_try_ok {A} (op : M S StoreError A) (t : T) e t' :
  store_try op t = (Err e, t') -> False.
Proof. unfold store_try. by destruct (op _). Qed.

(** Moving the lane back to where [t] was brings its context back in step. *)
Lemma moved_back (t t1 : T) l :
  aligned t -> store_wf (transcript_store t1) ->
  same_branches (transcript_store t) (transcript_store t1) ->
  transcript_lane t1 = transcript_lane t -> delegated t1 = delegated t ->
  history t1 = history t -> notes t1 = notes t -> l = transcript_lane t ->
  match store_try (move_lane l (lane_of t)) t1 with
  | (Ok (Ok _), t2) => aligned t2
  | (_, t2) => store_wf (transcript_store t2)
  end.
Proof.
  intros [Hwf (r & Hr & Hm & Hn)] Hwf1 Hb Hl Hd Hh Hns ->. unfold store_try.
  pose proof (move_lane_wf (transcript_store t1) (transcript_lane t) (lane_of t) Hwf1) as Hw.
  pose proof (move_lane_branches (transcript_store t1) (transcript_lane t) (lane_of t)) as Hb2.
  destruct (move_lane _ _ _) as [[[]|e] s] eqn:Hmove; simpl in *; [|done].
  destruct (move_lane_moves _ _ _ _ Hmove) as (Hleaf & _).
  split; [done|]. exists r. split; [|by unfold in_step; simpl; rewrite Hh, Hns].
  rewrite <- Hr. apply rebuilt_moved; try done; simpl.
  - intros leaf. by rewrite Hb2, Hb.
  - unfold lane_of in *. simpl. by rewrite Hl.
Qed.

(** ** Root navigation *)

Lemma clear_navigation_settled (t : T) : aligned t -> settled (clear_navigation t).2.
Proof.
  intros Ht. pose proof Ht as [Hwf _]. unfold clear_navigation.
  unfold m_bind at 1, writable. destruct (sealed t); [by apply aligned_settled|].
  destruct (write_failed t); [by apply aligned_settled|].
  unfold m_bind at 1, m_get. unfold m_bind at 1, store_call.
  pose proof (move_lane_wf (transcript_store t) (transcript_lane t) None Hwf) as Hw.
  pose proof (move_lane_branches (transcript_store t) (transcript_lane t) None) as Hb.
  destruct (move_lane (transcript_lane t) None (transcript_store t)) as [[[]|e] s1] eqn:Hmove;
    cbn [map_err fst snd] in *.
  2: { apply aligned_settled, aligned_same_tree; [done..|]. by eapply move_lane_fails. }
  destruct (move_lane_moves _ _ _ _ Hmove) as (Hleaf & _).
  unfold m_bind at 1, m_modify. set (t1 := set_context (set_store t s1) (notes_default, [])).
  assert (aligned t1) as Ht1.
  { split; [done|]. exists rebuild_empty. split; [|done].
    unfold rebuilt, history_from_store. simpl. by rewrite Hleaf. }
  pose proof (neutral_try sync sync_neutral _ Ht1) as Ht2.
  unfold m_bind at 1. unfold store_try at 1. unfold store_try at 1 in Ht2.
  pose proof (sync_wf (transcript_store t1) Hw) as Hw2.
  pose proof (sync_tree (transcript_store t1)) as Hs2.
  destruct (sync (transcript_store t1)) as [[u|e] s2]; [by apply aligned_settled|].
  cbn [fst snd] in *.
  set (t2 := set_store t1 s2). set (t2' := set_context t2 (notes t, history t)).
  assert (same_branches (transcript_store t) s2) as Hb2.
  { intros leaf. destruct Hs2 as (_ & Hb2 & _). rewrite Hb2. apply Hb. }
  pose proof (moved_back t t2' (transcript_lane t) Ht Hw2 Hb2 eq_refl eq_refl eq_refl eq_refl
    eq_refl) as Hback.
  unfold m_bind at 1. unfold store_try at 1. unfold store_try in Hback.
  change (transcript_store t2') with (transcript_store t2) in Hback.
  destruct (move_lane (transcript_lane t) (lane_of t) (transcript_store t2))
    as [[[]|e'] s3]; cbn [fst snd] in *.
  - unfold m_bind at 1, m_modify. unfold m_bind at 1. unfold store_try.
    change (set_context (set_store t2 s3) (notes t, history t)) with (set_store t2' s3).
    pose proof (neutral_try sync sync_neutral _ Hback) as Ht4. unfold store_try in Ht4.
    destruct (sync (transcript_store (set_store t2' s3))) as [r s4].
    by apply aligned_settled.
  - unfold m_bind at 1.
    pose proof (reconcile_settled (set_store t2 s3) Hback) as Hset.
    by destruct (reconcile (set_store t2 s3)) as [[x|x] t4].
Qed.

(** ** Navigation to an entry *)

(** What the mutating closure leaves, by how far it got. *)
Inductive mutated (t t1 : T) : result (option EntryId * Rebuild R) KernelError ->
    NavigationTrace -> Prop :=
| mutated_done leaf r tr :
    rebuilt t1 = Ok r -> leaf = lane_of t1 -> mutated t t1 (Ok (leaf, r)) tr
| mutated_reversible e tr :
    appended_summary tr = None ->
    same_branches (transcript_store t) (transcript_store t1) ->
    mutated t t1 (Err e) tr
| mutated_summary e tr x : appended_summary tr = Some x -> mutated t t1 (Err e) tr.

Record same_context (t t1 : T) : Prop := {
  ctx_lane : transcript_lane t1 = transcript_lane t;
  ctx_delegated : delegated t1 = delegated t;
  ctx_history : history t1 = history t;
  ctx_notes : notes t1 = notes t;
  ctx_wf : store_wf (transcript_store t1)
}.

Lemma set_store_context t s : store_wf s -> same_context t (set_store t s).
Proof. by split. Qed.

Lemma same_context_trans t t1 t2 : same_context t t1 -> same_context t1 t2 -> same_context t t2.
Proof. intros [] []. split; congruence. Qed.

(** One store call inside the closure. *)
Lemma call_context {A} (op : M S StoreError A) (t : T) :
  store_wf (op (transcript_store t)).2 ->
  same_context t (store_call op t).2 /\
  transcript_store (store_call op t).2 = (op (transcript_store t)).2 /\
  (store_call op t).1 = map_err Store (op (transcript_store t)).1.
Proof.
  unfold store_call. destruct (op (transcript_store t)) as [r s]. simpl. intros Hw.
  split; [by apply set_store_context|done].
Qed.

(** The closure's tail: label, rebuild, sync. *)
Lemma mutation_tail (c : NavigationCommit) (summary : option SessionEntry) (t t1 : T) :
  same_context t t1 ->
  (summary = None -> same_branches (transcript_store t) (transcript_store t1)) ->
  let '(res, tr, t3) := navigation_tail c summary t1 in
  same_context t t3 /\ mutated t t3 res tr.
Proof.
  intros Hctx Hbr. unfold navigation_tail.
  set (label_entry := from_option entry_id (commit_target c) summary).
  assert (forall e tr (t3 : T), appended_summary tr = summary ->
    (summary = None -> same_branches (transcript_store t) (transcript_store t3)) ->
    mutated t t3 (Err e) tr) as Herr.
  { intros e tr t3 Htr Hb. destruct summary as [x|].
    - by eapply mutated_summary.
    - apply mutated_reversible; [done|by apply Hb]. }
  assert (exists labelled t2, match commit_label c with
      | Some text => store_call (set_label label_entry (Some text)) t1
      | None => (Ok tt, t1) end = (labelled, t2) /\ same_context t t2 /\
      (summary = None -> same_branches (transcript_store t) (transcript_store t2)))
    as (labelled & t2 & -> & Hctx2 & Hbr2).
  { destruct (commit_label c) as [text|]; [|by eexists _, _].
    pose proof (set_label_wf (transcript_store t1) label_entry (Some text) (ctx_wf _ _ Hctx)) as Hw.
    pose proof (set_label_tree (transcript_store t1) label_entry (Some text)) as Hs.
    unfold store_call. destruct (set_label _ _ _) as [r s]. eexists _, _. split; [done|].
    split; [by eapply same_context_trans, set_store_context|].
    intros Hn leaf. destruct Hs as (_ & Hs & _). simpl in *. rewrite Hs. by apply Hbr. }
  destruct labelled as [[]|e]; [|split; [done|by apply Herr]].
  destruct (rebuilt t2) as [r|e] eqn:Hr; [|split; [done|by apply Herr]].
  pose proof (sync_wf (transcript_store t2) (ctx_wf _ _ Hctx2)) as Hw.
  pose proof (sync_tree (transcript_store t2)) as Hs.
  unfold store_call. destruct (sync (transcript_store t2)) as [[u|e] s]; simpl in *.
  - split; [by eapply same_context_trans, set_store_context|].
    apply mutated_done; [|done]. unfold rebuilt in *. simpl.
    by rewrite (history_same_tree _ _ _ _ Hs).
  - assert (same_context t (set_store t2 s)) as Hctx3
      by (by eapply same_context_trans, set_store_context).
    split; [done|]. apply Herr; [done|]. intros Hn leaf. simpl.
    destruct Hs as (_ & Hs & _). rewrite Hs. by apply Hbr2.
Qed.

Lemma navigation_mutation_spec c (t : T) :
  store_wf (transcript_store t) ->
  let '(res, tr, t1) := navigation_mutation c t in same_context t t1 /\ mutated t t1 res tr.
Proof.
  intros Hwf. unfold navigation_mutation.
  pose proof (move_lane_wf (transcript_store t) (transcript_lane t) (commit_new_leaf c) Hwf) as Hw.
  pose proof (move_lane_branches (transcript_store t) (transcript_lane t) (commit_new_leaf c)) as Hb.
  destruct (call_context (move_lane (transcript_lane t) (commit_new_leaf c)) t Hw)
    as (Hctx & Hst & _).
  destruct (store_call (move_lane _ _) t) as [[[]|e] t1]; cbn [fst snd] in *;
    rewrite <- Hst in Hb.
  2: { split; [done|]. by apply mutated_reversible. }
  destruct (commit_summary c) as [entry|]; [|by apply mutation_tail].
  pose proof (append_entry_wf (transcript_store t1) (transcript_lane t) entry (ctx_wf _ _ Hctx)) as Hw1.
  unfold store_call.
  destruct (append_entry (transcript_lane t) entry (transcript_store t1)) as [[x|e] s] eqn:Ha;
    cbn [map_err fst snd] in *.
  - apply mutation_tail; [|done]. by eapply same_context_trans, set_store_context.
  - split; [by eapply same_context_trans, set_store_context|].
    apply mutated_reversible; [done|]. intros leaf. rewrite <- Hb.
    apply (same_tree_branches (transcript_store t1)). eapply append_entry_fails; [|exact Ha].
    apply Hctx.
Qed.

(** The rollback before a summary exists restores the old context. *)
Lemma rollback_settled tr (t t1 : T) :
  aligned t -> same_context t t1 ->
  same_branches (transcript_store t) (transcript_store t1) ->
  settled (navigation_rollback tr (lane_of t) t1).2.
Proof.
  intros Ht Hctx Hb. unfold navigation_rollback. unfold m_bind at 1, m_get.
  assert (exists t2, (match label_rollback tr with
      | Some (id, previous) => let! _ := store_try (set_label id previous) in m_ret tt
      | None => m_ret tt
      end : M T KernelError unit) t1 = (Ok tt, t2) /\ same_context t t2 /\
      same_branches (transcript_store t) (transcript_store t2)) as (t2 & Hstep & Hctx2 & Hb2).
  { destruct (label_rollback tr) as [[id previous]|]; [|by exists t1].
    pose proof (set_label_wf (transcript_store t1) id previous (ctx_wf _ _ Hctx)) as Hw.
    pose proof (set_label_tree (transcript_store t1) id previous) as Hs.
    unfold m_bind, store_try. destruct (set_label _ _ _) as [r s]. simpl in *.
    eexists. split; [done|]. split; [by eapply same_context_trans, set_store_context|].
    intros leaf. destruct Hs as (_ & Hs & _). simpl. rewrite Hs. apply Hb. }
  unfold m_bind at 1. rewrite Hstep.
  pose proof (moved_back t t2 (transcript_lane t1) Ht (ctx_wf _ _ Hctx2) Hb2
    (ctx_lane _ _ Hctx2) (ctx_delegated _ _ Hctx2) (ctx_history _ _ Hctx2)
    (ctx_notes _ _ Hctx2) (ctx_lane _ _ Hctx)) as Hback.
  unfold m_bind at 1. destruct (store_try (move_lane _ _) t2) as [[[u|e]|e] t3] eqn:Htry.
  - pose proof (neutral_try sync sync_neutral _ Hback) as H4. unfold m_bind.
    destruct (store_try sync t3) as [[x|x] t4]; by apply aligned_settled.
  - pose proof (reconcile_settled t3 Hback) as H4. unfold m_bind.
    by destruct (reconcile t3) as [[x|x] t4].
  - by apply store_try_ok in Htry.
Qed.

Lemma m_bind_writable {A} (k : unit -> M T KernelError A) (t : T) :
  m_bind writable k t =
    if sealed t then (Err SessionClosing, t)
    else if write_failed t then (Err SessionPersistenceUncertain, t) else k tt t.
Proof. unfold m_bind, writable. by destruct (sealed t), (write_failed t). Qed.

Lemma commit_navigation_settled c (t : T) :
  aligned t -> settled (commit_navigation c t).2 /\
  (forall res, (commit_navigation c t).1 = Ok res -> aligned (commit_navigation c t).2).
Proof.
  intros Ht. pose proof Ht as [Hwf _]. unfold commit_navigation.
  rewrite !(m_bind_writable _ t).
  destruct (sealed t); [by split; [apply aligned_settled|]|].
  destruct (write_failed t); [by split; [apply aligned_settled|]|].
  unfold m_bind, m_get.
  pose proof (navigation_mutation_spec c t Hwf) as Hspec.
  destruct (navigation_mutation c t) as [[res tr] t1]. destruct Hspec as [Hctx Hmut].
  destruct Hmut as [leaf r tr Hr Hleaf|e tr Hsum Hb|e tr x Hsum].
  - assert (aligned (set_context t1 (rebuilt_notes r, rebuilt_messages r))) as Hal.
    { split; [apply Hctx|]. by exists r. }
    split; [by apply aligned_settled|done].
  - rewrite Hsum. pose proof (rollback_settled tr t t1 Ht Hctx Hb) as Hset.
    destruct (navigation_rollback tr (lane_of t) t1) as [[u|u] t2]; done.
  - rewrite Hsum. pose proof (reconcile_settled t1 (ctx_wf _ _ Hctx)) as Hset.
    pose proof (reconcile_aligned t1) as Hrec.
    destruct (reconcile t1) as [[b|u] t2]; [|done]. cbn [snd] in Hset.
    pose proof (neutral_settled sync t2 sync_neutral Hset) as Hset2.
    assert (b = true -> aligned (store_try sync t2).2) as Hal.
    { intros ->. apply neutral_try; [apply sync_neutral|]. apply Hrec; [apply Hctx|done]. }
    destruct (store_try sync t2) as [[o|u] t3]; [|done]. cbn [snd] in *.
    destruct (reached_sync tr && b && is_ok o) eqn:Hok; [|done].
    split; [done|]. intros res _. apply Hal.
    by apply andb_true_iff in Hok as [[_ ?]%andb_true_iff _].
Qed.

End Navigation.

(** Every operation of a transcript as one value: sequences of operations keep
    model context in step with the store, and a transcript that was sealed or
    whose last commit is uncertain refuses them all. *)

Open Scope string_scope.
Open Scope rust_scope.

Section TranscriptOps.
Context {R : RigTypes} {CC : ContentCodec R}.
Context {S : Type} `{SessionStoreLaws S}.
Abbreviation T := (SessionTranscript R S).
Abbreviation K := (M (SessionTranscript R S) KernelError).

(** The transcript's operations on a lane it does not move. *)
Inductive transcript_op : Type :=
| TCommitSetting (e : NewEntry)
| TCommitRecords (rs : list NewRecord)
| TCommitConsumed (id : EntryId) (m : AgentMessage R) (r : NewRecord)
| TAppendMessage (id : EntryId) (m : AgentMessage R)
| TAppendModeNote (id : EntryId) (c : ModeChange)
| TAppendStoreOnly (e : NewEntry)
| TAppendRecord (r : NewRecord)
| TAppendExtension (id : EntryId) (ext : ExtensionId) (custom_type : string) (data : json)
| TFinishCompaction (id : EntryId) (d : CompactionData R)
| TSetName (n : option string)
| TSetDefaultName (n : string)
| TSetLabel (id : EntryId) (l : option string)
| TSync
| TSeal.

Definition ignore {A} (c : K A) : K unit := let! _ := c in m_ret tt.

Definition run_transcript_op (op : transcript_op) : K unit :=
  match op with
  | TCommitSetting e => commit_setting e
  | TCommitRecords rs => commit_records rs
  | TCommitConsumed id m r => commit_consumed id m r
  | TAppendMessage id m => append_context_message id m
  | TAppendModeNote id c => append_mode_note id c
  | TAppendStoreOnly e => ignore (append_store_only_entry e)
  | TAppendRecord r => ignore (transcript_append_record r)
  | TAppendExtension id ext ct data => ignore (transcript_extension_entry id ext ct data)
  | TFinishCompaction id d => finish_compaction id d
  | TSetName n => transcript_set_name n
  | TSetDefaultName n => ignore (set_default_name n)
  | TSetLabel id l => transcript_set_label id l
  | TSync => transcript_sync
  | TSeal => seal
  end.

(** A caller that carries on whatever each call returns. *)
Definition run_transcript_ops (ops : list transcript_op) (t : T) : T :=
  foldl (fun t op => (run_transcript_op op t).2) t ops.

(** What the kernel's own callers pass: settings and extension entries that
    carry no context, records with plain payloads, messages the codec encodes. *)
Definition transcript_op_ok (op : transcript_op) : Prop :=
  match op with
  | TCommitSetting e | TAppendStoreOnly e => context_free e
  | TCommitRecords rs => Forall plain_record rs
  | TCommitConsumed _ m r => message_ok m /\ plain_record r
  | TAppendMessage _ m => message_ok m
  | TAppendRecord r => plain_record r
  | TAppendExtension _ ext ct _ => as_str ext <> SLUG \/ ct <> MODE_CUSTOM_TYPE
  | TFinishCompaction _ d => compaction_ok d
  | TAppendModeNote _ _ | TSetName _ | TSetDefaultName _ | TSetLabel _ _ | TSync | TSeal => True
  end.

Lemma keeps_ignore {A} (c : K A) : keeps c -> keeps (ignore c).
Proof. intros Hc. unfold ignore. keeps_step. Qed.

Lemma keeps_transcript_op op : transcript_op_ok op -> keeps (run_transcript_op op).
Proof.
  destruct op; simpl; intros Hop; try apply keeps_ignore.
  - by apply keeps_commit_setting.
  - by apply keeps_commit_records.
  - destruct Hop. by apply keeps_commit_consumed.
  - by apply keeps_append_context_message.
  - by apply keeps_append_mode_note.
  - by apply keeps_store_only.
  - by apply keeps_append_record.
  - by apply keeps_extension_entry.
  - by apply keeps_finish_compaction.
  - by apply keeps_set_name.
  - by apply keeps_set_default_name.
  - by apply keeps_set_label.
  - by apply keeps_transcript_sync.
  - by apply keeps_seal.
Qed.

Lemma run_transcript_ops_aligned ops t :
  Forall transcript_op_ok ops -> aligned t -> aligned (run_transcript_ops ops t).
Proof.
  intros Hops. revert t. induction Hops as [|op ops Hop _ IH]; intros t Ht; [done|].
  by apply IH, keeps_transcript_op.
Qed.

(** A transcript restored from a well-formed store starts in step with it. *)
Lemma restored_aligned (s : S) l dlg t :
  store_wf s -> restored s l dlg = Ok t -> aligned t.
Proof.
  unfold restored. intros Hwf Hr.
  destruct (history_from_store s l dlg) as [r|e] eqn:Hh; [|done].
  injection Hr as <-. split; [done|]. exists r. by split.
Qed.

(** ** The write latch *)

Definition latched (t : T) : bool := sealed t || write_failed t.

Definition refuses {A} (c : K A) : Prop :=
  forall t, latched t = true -> exists e, c t = (Err e, t).

Lemma refuses_writable {A} (k : unit -> K A) : refuses (m_bind writable k).
Proof.
  intros t Ht. unfold latched in Ht. unfold m_bind, writable.
  destruct (sealed t); [by eexists|]. simpl in Ht. rewrite Ht. by eexists.
Qed.

Lemma refuses_lift {A B} (r : result B KernelError) (k : B -> K A) :
  (forall b, refuses (k b)) -> refuses (m_bind (m_lift r) k).
Proof.
  intros Hk t Ht. unfold m_bind, m_lift. destruct r as [b|e]; [by apply Hk|by eexists].
Qed.

Lemma refuses_ignore {A} (c : K A) : refuses c -> refuses (ignore c).
Proof.
  intros Hc t Ht. destruct (Hc t Ht) as [e He]. unfold ignore, m_bind. rewrite He. by eexists.
Qed.

(** The operations that write; [sync] and [seal] are always accepted. *)
Definition gated (op : transcript_op) : bool :=
  match op with TSync | TSeal => false | _ => true end.

Lemma gated_refuses op : gated op = true -> refuses (run_transcript_op op).
Proof.
  destruct op; simpl; intros Hg; try done; try apply refuses_ignore;
    try apply refuses_writable; apply refuses_lift; intros ?; try apply refuses_writable.
  apply refuses_lift. intros ?. apply refuses_writable.
Qed.

Lemma navigation_refuses : refuses clear_navigation /\ forall c, refuses (commit_navigation c).
Proof. split; intros; apply refuses_writable. Qed.

(** A latched transcript's stored and live state is frozen, whatever is tried. *)
Lemma run_gated_latched ops t :
  latched t = true -> Forall (fun op => gated op = true) ops -> run_transcript_ops ops t = t.
Proof.
  intros Ht. induction 1 as [|op ops Hop _ IH]; [done|]. simpl.
  destruct (gated_refuses op Hop t Ht) as [e He]. by rewrite He.
Qed.

(** ** Default names *)

Lemma set_default_name_spec n t r t' :
  latched t = false -> set_default_name n t = (Ok r, t') ->
  (was_named (transcript_store t) = true /\ r = None /\ t' = t) \/
  (was_named (transcript_store t) = false /\ r = Some n /\
   name (transcript_store t') = Some n /\ was_named (transcript_store t') = true /\
   history t' = history t /\ notes t' = notes t).
Proof.
  unfold latched. intros Hl%orb_false_iff. destruct Hl as [Hs Hw].
  unfold set_default_name, m_bind, writable, m_get. rewrite Hs, Hw.
  destruct (was_named (transcript_store t)) eqn:Hn.
  - intros [= <- <-]. by left.
  - unfold store_call. destruct (set_name (Some n) (transcript_store t)) as [[[]|e] s] eqn:Hset;
      simpl; [|done].
    intros [= <- <-]. right. simpl. by destruct (set_name_sets _ _ _ Hset) as [-> ->].
Qed.

Lemma set_default_name_flags n t r t' :
  set_default_name n t = (r, t') ->
  write_failed t' = write_failed t /\ sealed t' = sealed t.
Proof.
  unfold set_default_name, m_bind, writable, m_get.
  destruct (sealed t) eqn:Hs; [by intros [= _ <-]|].
  destruct (write_failed t) eqn:Hw; [by intros [= _ <-]|].
  destruct (was_named _); [by intros [= _ <-]|]. unfold store_call.
  destruct (set_name (Some n) (transcript_store t)) as [[[]|e] s]; by intros [= _ <-].
Qed.

End TranscriptOps.
