(* ===== verification/ToolSelection.v ===== *)
(** Which tools a session offers its model: the catalog's partitions, the
    explicit preferences persisted on the branch, and the updates that change
    them.  [crates/kernel/src/runtime/tools/state.rs], [selection.rs], and
    [ToolSelection] of [crates/protocol/src/tool.rs]

    The state's lock makes every update one step; the store commit of an update
    happens inside it.  The snapshot's search index is rebuilt by
    [ToolSearch.index_of]. *)

From S2P Require Import Prelude Lines Chars Text Scalar Json Message StoreModel StoreState.
From S2P Require Import ToolContract KernelErrors Plan Replay Transcript ToolSearch.
Open Scope string_scope.
Open Scope rust_scope.

(** ** Preferences *)

Record ToolSelection : Type := {
  selection_version : Z;
  loaded : gset string;
  disabled : gset string
}.
#[export] Instance tool_selection_eq_dec : EqDecision ToolSelection.
Proof. solve_decision. Defined.

Definition selection_default : ToolSelection :=
  {| selection_version := 1; loaded := ∅; disabled := ∅ |}.

(** [From<Vec<String>>] *)
Definition selection_of_names (names : list string) : ToolSelection :=
  {| selection_version := 1; loaded := list_to_set names; disabled := ∅ |}.

#[export] Instance to_value_selection : ToValue ToolSelection := fun s =>
  JObject (<["version" := json_u64 (selection_version s)]>
          (<["loaded" := to_value (registry_sorted (loaded s))]>
           {["disabled" := to_value (registry_sorted (disabled s))]})).

(** A [u8]. *)
Definition from_value_u8 (v : json) : result Z json_error :=
  match json_as_u64 v with
  | Some n => if (n <=? 255)%Z then Ok n else Err (JsonError "expected a u8")
  | None => Err (JsonError "expected a u8")
  end.

#[export] Instance from_value_selection : FromValue ToolSelection := fun v =>
  let? m := as_object v in
  let? version := match m !! "version" with
                  | Some v => from_value_u8 v
                  | None => Err (JsonError "missing field version")
                  end in
  let? loaded := field (T := list string) "loaded" m in
  let? disabled := field (T := list string) "disabled" m in
  Ok {| selection_version := version; loaded := list_to_set loaded;
        disabled := list_to_set disabled |}.

Definition disjoint_selection (s : ToolSelection) : Prop := loaded s ## disabled s.

(** ** The catalog *)

Definition EXIT_PLAN_MODE_TOOL : string := "exit_plan_mode".
Definition TODO_WRITE_TOOL : string := "todo_write".
Definition RESERVED_TOOL_NAMES : list string := [EXIT_PLAN_MODE_TOOL; TODO_WRITE_TOOL].

Section Selection.
Context `{UnicodeTables} `{Floats}.
Variable object_entries : gmap string json -> list (string * json).

Record SessionToolSnapshot : Type := {
  builtins : ToolRegistry;
  extensions : ToolRegistry;
  mcp : ToolRegistry;
  selection : ToolSelection;
  revision : Z;
  search_index : ToolSearchIndex;
  kernel_owned : gset string
}.
Abbreviation Snapshot := SessionToolSnapshot.

Definition with_selection (s : ToolSelection) (c : Snapshot) : Snapshot :=
  {| builtins := builtins c; extensions := extensions c; mcp := mcp c; selection := s;
     revision := revision c; search_index := search_index c; kernel_owned := kernel_owned c |}.
Definition next_revision (c : Snapshot) : Snapshot :=
  {| builtins := builtins c; extensions := extensions c; mcp := mcp c; selection := selection c;
     revision := u64_saturating_add (revision c) 1; search_index := search_index c;
     kernel_owned := kernel_owned c |}.

(** [available_registry]: extensions over builtins, MCP over both. *)
Definition available_registry (c : Snapshot) : ToolRegistry :=
  registry_overlay (mcp c) (registry_overlay (extensions c) (builtins c)).

(** [rebuild_search_index] *)
Definition deferred_documents (c : Snapshot) : list ToolSearchDocument :=
  omap (fun name =>
          match available_registry c !! name with
          | Some t =>
              if bool_decide (tool_exposure t = Deferred)
              then Some (document object_entries name t) else None
          | None => None
          end) (registry_names (available_registry c)).
Definition rebuild_search_index (c : Snapshot) : Snapshot :=
  {| builtins := builtins c; extensions := extensions c; mcp := mcp c; selection := selection c;
     revision := revision c; search_index := index_of (deferred_documents c);
     kernel_owned := kernel_owned c |}.

(** [has_extension] *)
Definition has_extension (c : Snapshot) (name : string) : bool :=
  bool_decide (is_Some (extensions c !! name)).

(** [declares] *)
Definition declares (c : Snapshot) (name : string) (exposure : ToolExposure) : bool :=
  bool_decide (exposure <> Hidden) && bool_decide (name ∉ disabled (selection c))
  && (bool_decide (exposure = Direct) || bool_decide (name ∈ loaded (selection c))).

(** [active_names_in], [active_names] *)
Definition is_active (c : Snapshot) (available : ToolRegistry) (name : string) : bool :=
  if String.eqb name "tool_search"
     && negb (index_available (search_index c) (disabled (selection c))) then false
  else match available !! name with
       | Some t => declares c name (tool_exposure t)
       | None => false
       end.
Definition active_names (c : Snapshot) : list string :=
  let available := available_registry c in
  filter (fun name => is_active c available name = true) (registry_names available).

(** [active_registry] *)
Definition active_registry (c : Snapshot) : result ToolRegistry ToolError :=
  registry_subset (available_registry c) (active_names c) ∅.

(** [available_names] *)
Definition selectable (available : ToolRegistry) (name : string) : bool :=
  match available !! name with
  | Some t => bool_decide (tool_exposure t <> Hidden)
  | None => false
  end.
Definition available_names (c : Snapshot) : list string :=
  let available := available_registry c in
  filter (fun name => selectable available name = true) (registry_names available).

(** [validate_active] *)
Fixpoint validate_names (available : ToolRegistry) (names : list string) : result unit ToolError :=
  match names with
  | [] => Ok tt
  | name :: rest =>
      if selectable available name then validate_names available rest else Err (ToolNotFound name)
  end.
Definition validate_active (c : Snapshot) (names : list string) : result unit ToolError :=
  validate_names (available_registry c) names.

(** The loop that refuses a selected name that is hidden now. *)
Fixpoint refuse_hidden (current : ToolRegistry) (names : list string) : result unit ToolError :=
  match names with
  | [] => Ok tt
  | name :: rest =>
      match current !! name with
      | Some t => if bool_decide (tool_exposure t = Hidden) then Err (ToolNotFound name)
                  else refuse_hidden current rest
      | None => refuse_hidden current rest
      end
  end.

(** The preference of one observed name. *)
Definition prefer (selected : gset string) (s : ToolSelection) (name : string) : ToolSelection :=
  if bool_decide (name ∈ selected) then
    {| selection_version := selection_version s; loaded := loaded s ∪ {[ name ]};
       disabled := disabled s ∖ {[ name ]} |}
  else
    {| selection_version := selection_version s; loaded := loaded s ∖ {[ name ]};
       disabled := disabled s ∪ {[ name ]} |}.

(** [replace_selection] *)
Definition replace_selection (observed : Snapshot) (names : list string) (c : Snapshot)
  : result Snapshot ToolError :=
  let? _ := validate_active observed names in
  let selected : gset string := list_to_set names in
  let? _ := refuse_hidden (available_registry c) (registry_sorted selected) in
  Ok (with_selection (foldl (prefer selected) (selection c) (available_names observed)) c).

(** The alias table of [migrate_selection]: [Some None] for an ambiguous name. *)
Definition old_name (r : McpToolRef) : string :=
  "mcp__" +:+ ref_server_id r +:+ "__" +:+ ref_remote_name r.
Definition add_alias (catalog : ToolRegistry) (aliases : gmap string (option string)) (name : string)
  : gmap string (option string) :=
  match (t ← catalog !! name; tool_mcp_ref t) with
  | Some reference =>
      <[old_name reference :=
          match aliases !! old_name reference with Some _ => None | None => Some name end]> aliases
  | None => aliases
  end.
Definition aliases (catalog : ToolRegistry) : gmap string (option string) :=
  foldl (add_alias catalog) ∅ (registry_names catalog).

Definition migrate_name (catalog : ToolRegistry) (name : string) : string :=
  match catalog !! name with
  | Some _ => name
  | None => default name (mjoin (aliases catalog !! name))
  end.

(** [migrate_selection] *)
Definition migrate_selection (c : Snapshot) (s : ToolSelection) : ToolSelection :=
  let rename : gset string -> gset string := set_map (migrate_name (available_registry c)) in
  {| selection_version := selection_version s;
     loaded := rename (loaded s) ∖ rename (disabled s);
     disabled := rename (disabled s) |}.

(** ** The state *)

(** [SessionToolState::new] *)
Definition tool_state_new (builtins extensions mcp : ToolRegistry) (s : ToolSelection) : Snapshot :=
  rebuild_search_index
    {| builtins := builtins; extensions := extensions; mcp := mcp; selection := s; revision := 1;
       search_index := index_of []; kernel_owned := ∅ |}.

(** [publish] *)
Definition publish (t : AgentTool) (owned : bool) (c : Snapshot) : Snapshot :=
  next_revision (rebuild_search_index
    {| builtins := builtins c; extensions := registry_upsert t (extensions c); mcp := mcp c;
       selection := selection c; revision := revision c; search_index := search_index c;
       kernel_owned := if owned then kernel_owned c ∪ {[ tool_name t ]}
                       else kernel_owned c ∖ {[ tool_name t ]} |}).

(** [register], [register_kernel] *)
Definition register_tool (t : AgentTool) : M Snapshot ToolError unit := fun c =>
  if bool_decide (tool_name t ∈ RESERVED_TOOL_NAMES) then (Err (ToolReservedName (tool_name t)), c)
  else (Ok tt, publish t false c).
Definition register_kernel (t : AgentTool) : M Snapshot ToolError unit := fun c =>
  (Ok tt, publish t true c).

(** [replace_mcp_partition] *)
Definition replace_mcp_partition (r : ToolRegistry) : M Snapshot ToolError unit := fun c =>
  let next := rebuild_search_index
    {| builtins := builtins c; extensions := extensions c; mcp := r; selection := selection c;
       revision := revision c; search_index := search_index c; kernel_owned := kernel_owned c |} in
  (Ok tt, next_revision (with_selection (migrate_selection next (selection next)) next)).

(** ** Durable updates *)

Context {R : RigTypes} {CC : ContentCodec R}.
Context {S : Type} `{SessionStore S}.

Record ToolWorld : Type := {
  tools : Snapshot;
  transcript : SessionTranscript R S
}.
Abbreviation W := (M ToolWorld KernelError).

(** [SessionToolState::update]: the new snapshot is published if the update
    succeeds; what it did to the transcript stays. *)
Definition update {A} (f : M ToolWorld KernelError A) : W A := fun w =>
  match f w with
  | (Ok a, w') => (Ok a, {| tools := next_revision (tools w'); transcript := transcript w' |})
  | (Err e, w') => (Err e, {| tools := tools w; transcript := transcript w' |})
  end.

Definition selection_payload (c : Snapshot) : json :=
  JObject (<["activeTools" := to_value (active_names c)]> {["selection" := to_value (selection c)]}).

(** [ToolSelectionUpdate::persist]; [id] is the identifier generator's answer. *)
Definition persist (id : string) : W unit := fun w =>
  match id_try_from "entry" id with
  | Err e => (Err (Protocol (scalar_error_text e)), w)
  | Ok id =>
      let '(r, t) :=
        commit_setting {| new_entry_id := id; new_entry_kind := KindActiveToolsChange;
                          new_entry_payload := selection_payload (tools w) |} (transcript w) in
      (r, {| tools := tools w; transcript := t |})
  end.

Definition set_tools (c : Snapshot) : W unit := fun w =>
  (Ok tt, {| tools := c; transcript := transcript w |}).

(** [ToolSelectionUpdate::adopt] *)
Definition adopt (id : string) (s : ToolSelection) : W unit :=
  update (let! w := m_get in
          let! _ := set_tools (with_selection s (tools w)) in
          persist id).

(** [ToolSelectionUpdate::replace] *)
Definition replace (id : string) (observed : Snapshot) (names : list string) : W unit :=
  update (let! w := m_get in
          let! next := m_lift (map_err Tool (replace_selection observed names (tools w))) in
          let! _ := set_tools next in
          if bool_decide (selection next = selection (tools w)) then m_ret tt else persist id).

Inductive ToolLoadSkipReason : Type :=
| Unavailable
| HiddenTool
| Disabled
| NotDeferred
| DefinitionTooLarge
| BudgetExceeded.

Record ToolLoadReport : Type := {
  report_loaded : list string;
  report_already : list string;
  report_skipped : list (string * ToolLoadSkipReason)
}.

Definition LOAD_BUDGET : nat := 32 * 1024.

Context `{JsonText}.
Definition definition_json (d : ToolDefinition) : json :=
  JObject (<["name" := JString (definition_name d)]>
          (<["description" := JString (definition_description d)]>
           {["parameters" := definition_parameters d]})).
(** The bytes [DefinitionBytes] counts before it refuses. *)
Definition definition_bytes (t : AgentTool) : nat :=
  String.length (print (definition_json (tool_definition t))).

(** Why a candidate cannot be loaded. *)
Definition skip_reason (available : ToolRegistry) (s : ToolSelection) (name : string)
  : option ToolLoadSkipReason :=
  match available !! name with
  | None => Some Unavailable
  | Some t =>
      if bool_decide (tool_exposure t = Hidden) then Some HiddenTool
      else if bool_decide (name ∈ disabled s) then Some Disabled
      else if bool_decide (tool_exposure t <> Deferred) then Some NotDeferred
      else None
  end.

Definition skipped (name : string) (reason : ToolLoadSkipReason) (r : ToolLoadReport)
  : ToolLoadReport :=
  {| report_loaded := report_loaded r; report_already := report_already r;
     report_skipped := report_skipped r ++ [(name, reason)] |}.

Definition load_name (name : string) (s : ToolSelection) : ToolSelection :=
  {| selection_version := selection_version s; loaded := loaded s ∪ {[ name ]};
     disabled := disabled s |}.

(** The loop of [load]. *)
Fixpoint load_loop (available : ToolRegistry) (names : list string) (seen : gset string)
  (used : nat) (s : ToolSelection) (r : ToolLoadReport) : ToolSelection * ToolLoadReport :=
  match names with
  | [] => (s, r)
  | name :: rest =>
      if bool_decide (name ∈ seen) then load_loop available rest seen used s r
      else
        let seen := seen ∪ {[ name ]} in
        match skip_reason available s name with
        | Some reason =>
            let shown := match reason with HiddenTool => "<hidden>" | _ => name end in
            load_loop available rest seen used s (skipped shown reason r)
        | None =>
            if bool_decide (name ∈ loaded s) then
              load_loop available rest seen used s
                {| report_loaded := report_loaded r; report_already := report_already r ++ [name];
                   report_skipped := report_skipped r |}
            else
              let size := from_option definition_bytes 0 (available !! name) in
              if Nat.ltb LOAD_BUDGET size
              then load_loop available rest seen used s (skipped name DefinitionTooLarge r)
              else if Nat.ltb LOAD_BUDGET (used + size)
              then load_loop available rest seen used s (skipped name BudgetExceeded r)
              else load_loop available rest seen (used + size) (load_name name s)
                     {| report_loaded := report_loaded r ++ [name];
                        report_already := report_already r; report_skipped := report_skipped r |}
        end
  end.

Definition empty_report : ToolLoadReport :=
  {| report_loaded := []; report_already := []; report_skipped := [] |}.

(** [ToolSelectionUpdate::load] *)
Definition load (id : string) (names : list string) : W ToolLoadReport :=
  update (let! w := m_get in
          let '(s, report) :=
            load_loop (available_registry (tools w)) names ∅ 0 (selection (tools w)) empty_report in
          let! _ := set_tools (with_selection s (tools w)) in
          let! _ := match report_loaded report with [] => m_ret tt | _ => persist id end in
          m_ret report).

(** ** Replay *)

(** One entry of [restore]'s loop. *)
Definition restore_entry (catalog : Snapshot) (s : ToolSelection) (e : SessionEntry)
  : result ToolSelection KernelError :=
  if negb (bool_decide (entry_kind e = KindActiveToolsChange)) then Ok s
  else
    match entry_payload e !! "selection" with
    | Some value =>
        let? s := map_err (fun err => Store (Json err)) (from_value value) in
        if negb (selection_version s =? 1)%Z || negb (bool_decide (loaded s ## disabled s))
        then Err (Protocol "unsupported or overlapping tool selection") else Ok s
    | None =>
        let? value := ok_or (entry_payload e !! "activeTools")
                        (Protocol "active-tools change has no selection") in
        let? names := map_err (fun err => Store (Json err)) (from_value (T := list string) value) in
        let s := migrate_selection catalog (selection_of_names names) in
        Ok {| selection_version := selection_version s; loaded := loaded s;
              disabled := list_to_set (filter (fun n => n ∉ loaded s) (available_names catalog)) |}
    end.

Fixpoint restore_entries (catalog : Snapshot) (l : list SessionEntry) (s : ToolSelection)
  : result ToolSelection KernelError :=
  match l with
  | [] => Ok s
  | e :: rest => let? s := restore_entry catalog s e in restore_entries catalog rest s
  end.

(** [ToolSelectionUpdate::restore] *)
Definition restore (l : list SessionEntry) (catalog : Snapshot) : result ToolSelection KernelError :=
  let? s := restore_entries catalog l selection_default in
  Ok (migrate_selection catalog s).

End Selection.
