(* ===== verification/Compaction.v ===== *)
(** Which part of a history a compaction summarises and which it keeps, the
    token estimates behind the choice, and when a compaction is due.
    [crates/kernel/src/runtime/compaction/context.rs] and the policy types of
    [crates/protocol/src/capability.rs]

    Rig's [Usage] is a type of the rig-core crate: its accessors are the class
    [UsageCounters].  The text [serde_json] gives a whole extension message is
    the section variable [extension_json]; its length alone is used. *)

From stdpp Require Import sorting.
From S2P Require Import Prelude Lines Chars Scalar Json Message.
Open Scope string_scope.

(** [usize] is 64 bits wide. *)
Definition saturating_add : Z -> Z -> Z := u64_saturating_add.

(** ** Policy and model limits *)

Record CompactionPolicy : Type := {
  enabled : bool;
  reserve_tokens : Z;
  keep_recent_tokens : Z
}.

Definition policy_default : CompactionPolicy :=
  {| enabled := true; reserve_tokens := 16384; keep_recent_tokens := 20000 |}.

(** The part of [ModelProfile] that limits tokens. *)
Record ModelProfile : Type := {
  profile_provider_id : string;
  profile_model_id : string;
  context_tokens : Z;
  max_output_tokens : Z;
  request_max_tokens : Z
}.

Class UsageCounters (R : RigTypes) := {
  input_tokens : Usage -> option Z;
  output_tokens : Usage -> option Z;
  usage_context_tokens : Usage -> option Z
}.

(** [Iterator::rev().find_map] with the index, and [rposition]. *)
Fixpoint rfind_map {A B} (f : A -> option B) (l : list A) : option (nat * B) :=
  match l with
  | [] => None
  | x :: r =>
      match rfind_map f r with
      | Some (i, b) => Some (S i, b)
      | None => (fun b => (0, b)) <$> f x
      end
  end.
Definition rposition {A} (p : A -> bool) (l : list A) : option nat :=
  fst <$> rfind_map (fun x => if p x then Some tt else None) l.

(** [usage.is_some_and(f)] *)
Definition is_some_and {A} (o : option A) (p : A -> bool) : bool :=
  match o with Some a => p a | None => false end.

Inductive OverflowRecovery : Type := CompactOnly | CompactAndRetry.

(** The byte order of [str]. *)
Definition path_le (a b : string) : Prop := String.leb a b = true.
#[export] Instance path_le_dec : RelDecision path_le.
Proof. intros a b. unfold path_le. apply _. Defined.

#[export] Instance stop_reason_eq_dec : EqDecision StopReason.
Proof. solve_decision. Defined.
#[export] Instance recovery_eq_dec : EqDecision OverflowRecovery.
Proof. solve_decision. Defined.

Section Compaction.
Context {R : RigTypes} {U : UsageCounters R} `{JsonText}.
Variable extension_json : ExtensionMessage -> string.
Abbreviation Message := (AgentMessage R).

(** [CompactionPolicyExt::overflow_recovery] *)
Definition overflow_recovery (policy : CompactionPolicy) (metadata : AssistantMetadata)
  (profile : ModelProfile) : option OverflowRecovery :=
  if negb (enabled policy)
     || negb (String.eqb (provider_id metadata) (profile_provider_id profile))
     || negb (String.eqb (model_id metadata) (profile_model_id profile))
  then None
  else
    let usage := usage_inner (metadata_usage metadata) in
    if bool_decide (stop_reason metadata = EndTurn)
       && is_some_and (input_tokens usage) (fun input => (context_tokens profile <? input)%Z)
    then Some CompactOnly
    else if bool_decide (stop_reason metadata = MaxTokens)
       && (is_some_and (output_tokens usage) (fun output => (output <? request_max_tokens profile)%Z)
           || is_some_and (input_tokens usage) (fun input =>
                (saturating_mul (context_tokens profile) 99 <=? saturating_mul input 100)%Z))
    then Some CompactAndRetry
    else if bool_decide (stop_reason metadata = StopError) && context_overflow metadata
    then Some CompactAndRetry
    else None.

(** ** Token estimates *)

Definition optional_count (s : option string) : Z := from_option char_count 0%Z s.

(** The characters one block counts for. *)
Definition block_characters (b : ContentBlock) : Z :=
  match b with
  | Text text | Reasoning text => char_count text
  | Image _ _ | Audio _ _ => 4800
  | EmbeddedResource uri mime_type content =>
      saturating_add (saturating_add (char_count uri) (optional_count mime_type))
        (match content with ResourceText text => char_count text | ResourceBlob _ => 4800 end)
  | ResourceLink _ uri name title description mime_type _ =>
      foldl (fun count value => saturating_add count (char_count value)) 0%Z
        (omap id [Some uri; Some name; title; description; mime_type])
  | Structured value => char_count (print value)
  | ToolCallBlock _ name arguments _ =>
      saturating_add (char_count name) (char_count (print arguments))
  end.

Definition blocks_tokens (blocks : list ContentBlock) : Z :=
  div_ceil (foldl (fun total b => saturating_add total (block_characters b)) 0%Z blocks) 4.

(** [EstimatedTokens::estimated_tokens] *)
Definition estimated_tokens (m : Message) : Z :=
  match content m with
  | System blocks | User blocks | Assistant blocks _ _ | ToolResult _ blocks _ _ _ _ =>
      blocks_tokens blocks
  | ExpandedUser expansion => blocks_tokens (model_blocks expansion)
  | BashExecution bash =>
      if exclude_from_context bash then 0%Z
      else div_ceil (char_count (bash_model_text bash)) 4
  | Extension extension =>
      if include_in_context extension
      then div_ceil (char_count (extension_json extension)) 4 else 0%Z
  | SlashCommand _ => 0%Z
  | CompactionSummary compaction => div_ceil (char_count (summary_text compaction)) 4
  end.

Definition total_tokens_from (total : Z) (l : list Message) : Z :=
  foldl (fun total m => saturating_add total (estimated_tokens m)) total l.
Definition total_tokens (l : list Message) : Z := total_tokens_from 0 l.

Definition is_summary (m : Message) : bool :=
  match content m with CompactionSummary _ => true | _ => false end.

Record ContextUsageEstimate : Type := {
  tokens : Z;
  usage_tokens : Z;
  trailing_tokens : Z;
  last_usage_index : option nat
}.

(** The usage an Assistant message reports for the context it was sent, unless
    it failed or is not later than the last compaction. *)
Definition reported_usage (boundary : option TimestampMs) (m : Message) : option Z :=
  match content m with
  | Assistant _ metadata _ =>
      if negb (bool_decide (stop_reason metadata = StopError)
               || bool_decide (stop_reason metadata = StopCancelled))
         && match boundary with
            | Some boundary => timestamp_lt boundary (timestamp_ms (timing m))
            | None => true
            end
      then usage_context_tokens (usage_inner (metadata_usage metadata))
      else None
  | _ => None
  end.

(** [ContextUsageEstimate::from_history] *)
Definition usage_from_history (history : list Message) : ContextUsageEstimate :=
  let boundary := snd <$> rfind_map (fun m =>
    if is_summary m then Some (timestamp_ms (timing m)) else None) history in
  match rfind_map (reported_usage boundary) history with
  | Some (index, usage_tokens) =>
      let trailing := total_tokens (drop (S index) history) in
      {| tokens := saturating_add usage_tokens trailing; usage_tokens := usage_tokens;
         trailing_tokens := trailing; last_usage_index := Some index |}
  | None =>
      let estimated := total_tokens history in
      {| tokens := estimated; usage_tokens := 0; trailing_tokens := estimated;
         last_usage_index := None |}
  end.

(** [ContextUsageEstimate::should_compact] *)
Definition should_compact (e : ContextUsageEstimate) (context_window : Z)
  (policy : CompactionPolicy) : bool :=
  enabled policy && (saturating_sub context_window (reserve_tokens policy) <? tokens e)%Z.

(** ** Cumulative file operations; each [BTreeSet] is a set listed in order *)

Record CompactionFileOperations : Type := { op_read : gset string; op_modified : gset string }.

Definition sorted_elements (s : gset string) : list string :=
  merge_sort path_le (elements s).

Definition extend_block (f : CompactionFileOperations) (b : ContentBlock)
  : CompactionFileOperations :=
  match b with
  | ToolCallBlock _ name arguments _ =>
      match v ← json_get "path" arguments; json_as_str v with
      | Some path =>
          if String.eqb name "read" then
            {| op_read := {[ path ]} ∪ op_read f; op_modified := op_modified f |}
          else if String.eqb name "write" || String.eqb name "edit" then
            {| op_read := op_read f; op_modified := {[ path ]} ∪ op_modified f |}
          else f
      | None => f
      end
  | _ => f
  end.

Definition assistant_blocks (m : Message) : list ContentBlock :=
  match content m with Assistant blocks _ _ => blocks | _ => [] end.

(** [CompactionFileOperations::extend] *)
Definition extend (f : CompactionFileOperations) (messages : list Message)
  : CompactionFileOperations :=
  foldl extend_block f (messages ≫= assistant_blocks).

(** [read_files], [modified_files] *)
Definition op_read_files (f : CompactionFileOperations) : list string :=
  sorted_elements (op_read f ∖ op_modified f).
Definition op_modified_files (f : CompactionFileOperations) : list string :=
  sorted_elements (op_modified f).

(** [From<&AgentMessage> for CompactionFileOperations] *)
Definition file_operations_of (m : Message) : CompactionFileOperations :=
  match content m with
  | CompactionSummary c =>
      {| op_read := list_to_set (summary_read_files c);
         op_modified := list_to_set (summary_modified_files c) |}
  | _ => {| op_read := ∅; op_modified := ∅ |}
  end.

(** ** The cut *)

Definition valid_cut (m : Message) : bool :=
  match content m with
  | User _ | ExpandedUser _ | Assistant _ _ _ | BashExecution _ => true
  | Extension extension => include_in_context extension
  | _ => false
  end.

Definition starts_turn (m : Message) : bool :=
  match content m with User _ | ExpandedUser _ | BashExecution _ => true | _ => false end.

Definition valid_cut_points (l : list Message) : list nat :=
  omap (fun im => if valid_cut im.2 then Some im.1 else None) (imap pair l).

(** The index at which the messages from the end first reach the budget, of
    the list given in reverse. *)
Fixpoint crossing (keep retained_tokens : Z) (reversed : list Message) : option nat :=
  match reversed with
  | [] => None
  | m :: older =>
      let retained_tokens := saturating_add retained_tokens (estimated_tokens m) in
      if (keep <=? retained_tokens)%Z then Some (length older)
      else crossing keep retained_tokens older
  end.

Definition first_kept (policy : CompactionPolicy) (compactable : list Message) : nat :=
  if (keep_recent_tokens policy =? 0)%Z then length compactable
  else
    let cuts := valid_cut_points compactable in
    let selected := default 0 (head cuts) in
    match crossing (keep_recent_tokens policy) 0 (reverse compactable) with
    | Some index => default selected (head (filter (fun cut => index <= cut) cuts))
    | None => selected
    end.

(** The start of the Turn the cut splits. *)
Definition split_turn (compactable : list Message) (first : nat) : option nat :=
  match compactable !! first with
  | Some m =>
      if starts_turn m then None else rposition starts_turn (take (S first) compactable)
  | None => None
  end.

Record CompactionPreparation : Type := {
  summarized : list Message;
  turn_prefix : list Message;
  prepared_tail : list Message;
  prepared_tokens_before : Z;
  previous_summary : option string;
  file_operations : CompactionFileOperations
}.

(** [CompactionPreparation::from_history] *)
Definition preparation (history : list Message) (policy : CompactionPolicy)
  : CompactionPreparation :=
  let boundary := rposition is_summary history in
  let previous := i ← boundary; history !! i in
  let compactable := match boundary with
                     | Some i => drop (S i) history
                     | None => history
                     end in
  let first := first_kept policy compactable in
  let turn_start := split_turn compactable first in
  let summarized := take (default first turn_start) compactable in
  let prefix := match turn_start with
                | Some start => drop start (take first compactable)
                | None => []
                end in
  let operations := match previous with
                    | Some m => file_operations_of m
                    | None => {| op_read := ∅; op_modified := ∅ |}
                    end in
  {| summarized := summarized;
     turn_prefix := prefix;
     prepared_tail :=
       filter (fun m => (0 <? estimated_tokens m)%Z = true) (drop first compactable);
     prepared_tokens_before := tokens (usage_from_history history);
     previous_summary :=
       m ← previous; match content m with
                     | CompactionSummary c => Some (summary_text c)
                     | _ => None
                     end;
     file_operations := extend (extend operations summarized) prefix |}.

End Compaction.

(** Lemmas on the compaction cut: the last match of a scan, the cut points, the
    token sums behind the budget, and tool batches that a cut does not split. *)

Open Scope string_scope.

(** ** Scans from the end *)

Lemma rfind_map_some {A B} (f : A -> option B) l i b :
  rfind_map f l = Some (i, b) ->
  (exists x, l !! i = Some x /\ f x = Some b) /\
  forall j y, i < j -> l !! j = Some y -> f y = None.
Proof.
  revert i b. induction l as [|x l IH]; intros i b; cbn; [done|].
  destruct (rfind_map f l) as [[k c]|] eqn:Hl.
  - intros [= <- <-]. destruct (IH k c eq_refl) as [Hx Hlate]. split; [done|].
    intros [|j] y Hj; [lia|]. cbn. apply Hlate. lia.
  - intros Hx. destruct (f x) as [c|] eqn:Hfx; [|done]. injection Hx as <- <-.
    split; [by exists x|]. intros [|j] y Hj; [lia|]. cbn.
    clear IH Hj. revert j. induction l as [|z l IHl]; intros j; [done|]. cbn in Hl.
    destruct (rfind_map f l) as [[]|]; [done|]. destruct (f z) eqn:Hz; [done|].
    destruct j as [|j]; cbn; [by intros [= <-]|by apply IHl].
Qed.

Lemma rfind_map_none {A B} (f : A -> option B) l :
  rfind_map f l = None <-> forall x, x ∈ l -> f x = None.
Proof.
  induction l as [|x l IH]; cbn.
  - split; [|done]. intros _ x Hx. by apply elem_of_nil in Hx.
  - destruct (rfind_map f l) as [[]|].
    + split; [done|]. intros Hall. enough (Some (n, b) = None) by done. apply IH.
      intros y Hy. apply Hall. by right.
    + split.
      * intros Hx y [->|Hy]%elem_of_cons; [by destruct (f x)|by apply IH].
      * intros Hall. by rewrite (Hall x) by left.
Qed.

Lemma rposition_some {A} (p : A -> bool) l i :
  rposition p l = Some i ->
  (exists x, l !! i = Some x /\ p x = true) /\ forall j y, i < j -> l !! j = Some y -> p y = false.
Proof.
  unfold rposition. destruct (rfind_map _ l) as [[k []]|] eqn:Hf; cbn; [|done]. intros [= <-].
  destruct (rfind_map_some _ _ _ _ Hf) as [(x & Hx & Hp) Hlate].
  split; [exists x; split; [done|by destruct (p x)]|].
  intros j y Hj Hy. specialize (Hlate j y Hj Hy). by destruct (p y).
Qed.

Lemma rposition_none {A} (p : A -> bool) l :
  rposition p l = None -> forall x, x ∈ l -> p x = false.
Proof.
  unfold rposition. destruct (rfind_map _ l) as [[]|] eqn:Hf; [done|]. intros _ x Hx.
  pose proof (proj1 (rfind_map_none _ l) Hf x Hx) as Hp. cbn in Hp. by destruct (p x).
Qed.

(** ** The estimates *)

Lemma saturating_add_nonneg a b : (0 <= a -> 0 <= b -> 0 <= saturating_add a b)%Z.
Proof. unfold saturating_add, u64_saturating_add, u64_max. lia. Qed.

Lemma saturating_add_pos a b : (0 <= a -> 0 < b -> 0 < saturating_add a b)%Z.
Proof. unfold saturating_add, u64_saturating_add, u64_max. lia. Qed.

Lemma char_count_nonneg s : (0 <= char_count s)%Z.
Proof. unfold char_count. lia. Qed.

Lemma char_count_pos s : s <> "" -> (0 < char_count s)%Z.
Proof.
  destruct s as [|a s]; [done|]. intros _. unfold char_count. cbn [chars].
  repeat case_match; cbn [length]; lia.
Qed.

Lemma foldl_saturating_nonneg {A} (f : A -> Z) l total :
  (forall x, 0 <= f x)%Z -> (0 <= total)%Z ->
  (0 <= foldl (fun t x => saturating_add t (f x)) total l)%Z.
Proof.
  intros Hf. revert total. induction l as [|x l IH]; intros total Ht; cbn; [done|].
  by apply IH, saturating_add_nonneg.
Qed.

Lemma foldl_saturating_pos {A} (f : A -> Z) l total x :
  (forall x, 0 <= f x)%Z -> (0 <= total)%Z -> x ∈ l -> (0 < f x)%Z ->
  (0 < foldl (fun t x => saturating_add t (f x)) total l)%Z.
Proof.
  intros Hf Ht Hin Hx.
  assert (forall l total, 0 < total -> 0 < foldl (fun t x => saturating_add t (f x)) total l)%Z as Hgrow.
  { intros l'. induction l' as [|y l' IH]; intros t Hp; cbn; [done|]. apply IH.
    unfold saturating_add, u64_saturating_add, u64_max. specialize (Hf y). lia. }
  revert total Ht. induction l as [|y l IH]; intros total Ht; [by apply elem_of_nil in Hin|]. cbn.
  apply elem_of_cons in Hin as [->|Hin].
  - by apply Hgrow, saturating_add_pos.
  - by apply IH, saturating_add_nonneg.
Qed.

Lemma div_ceil_nonneg a : (0 <= a -> 0 <= div_ceil a 4)%Z.
Proof. intros Ha. unfold div_ceil. apply Z.div_pos; lia. Qed.

Lemma div_ceil_pos a : (0 < a -> 0 < div_ceil a 4)%Z.
Proof. intros Ha. unfold div_ceil. apply Z.div_str_pos. lia. Qed.

Section Cut.
Context {R : RigTypes} {U : UsageCounters R} `{JsonText}.
Variable extension_json : ExtensionMessage -> string.
Abbreviation Message := (AgentMessage R).
Abbreviation estimated := (estimated_tokens extension_json).

(** Compact text is never empty: a cut-off object does not parse. *)
Lemma print_nonempty v : print v <> "".
Proof.
  intros Hv.
  assert (exists m, print (JObject m) <> "") as [m Hm].
  { destruct (String.eqb_spec (print (JObject ∅)) "") as [He|Hne]; [|by exists ∅].
    exists {[ "" := JNull ]}. intros He2.
    pose proof (parse_print (JObject ∅)) as H1. pose proof (parse_print (JObject {[ "" := JNull ]})) as H2.
    set (full := {[ "" := JNull ]} : gmap string json) in *. set (none := ∅ : gmap string json) in *.
    assert (none = full) as Heq by congruence.
    assert (none !! "" = Some JNull) as Hl by (rewrite Heq; apply lookup_singleton_eq).
    unfold none in Hl. by rewrite lookup_empty in Hl. }
  pose proof (parse_torn m 0) as Ht. cbn in Ht.
  pose proof (parse_print v) as Hp. rewrite Hv in Hp.
  destruct (print (JObject m)); [done|]. cbn in Ht. rewrite Ht in Hp by lia. done.
Qed.

Lemma block_characters_nonneg b : (0 <= block_characters b)%Z.
Proof.
  destruct b; unfold block_characters; try apply char_count_nonneg; try lia.
  - apply saturating_add_nonneg; [apply saturating_add_nonneg|]; try apply char_count_nonneg.
    + destruct mime_type; [apply char_count_nonneg|done].
    + destruct content; [apply char_count_nonneg|done].
  - apply (foldl_saturating_nonneg char_count); [apply char_count_nonneg|done].
  - apply saturating_add_nonneg; apply char_count_nonneg.
Qed.

Lemma blocks_tokens_nonneg blocks : (0 <= blocks_tokens blocks)%Z.
Proof.
  apply div_ceil_nonneg, foldl_saturating_nonneg; [apply block_characters_nonneg|done].
Qed.

Lemma estimated_nonneg (m : Message) : (0 <= estimated m)%Z.
Proof.
  unfold estimated_tokens. destruct (content m); try done; try apply blocks_tokens_nonneg.
  - destruct (exclude_from_context _); [done|]. apply div_ceil_nonneg, char_count_nonneg.
  - destruct (include_in_context _); [|done]. apply div_ceil_nonneg, char_count_nonneg.
  - apply div_ceil_nonneg, char_count_nonneg.
Qed.

(** The message calls a tool under this identifier. *)
Definition calls (m : Message) (id : ToolCallId) : Prop :=
  exists name arguments invalid, ToolCallBlock id name arguments invalid ∈ assistant_blocks m.

Lemma calls_estimated m id : calls m id -> (0 < estimated m)%Z.
Proof.
  intros (name & arguments & invalid & Hin). unfold assistant_blocks in Hin. unfold estimated_tokens.
  destruct (content m); try by apply elem_of_nil in Hin.
  apply div_ceil_pos. eapply foldl_saturating_pos; [apply block_characters_nonneg|done|done|].
  cbn. apply saturating_add_pos; [apply char_count_nonneg|]. apply char_count_pos, print_nonempty.
Qed.

(** The sum of the estimates, without saturation. *)
Fixpoint exact_tokens (l : list Message) : Z :=
  match l with [] => 0 | m :: r => estimated m + exact_tokens r end.

Lemma exact_nonneg l : (0 <= exact_tokens l)%Z.
Proof. induction l as [|m l IH]; cbn; [done|]. pose proof (estimated_nonneg m). lia. Qed.

Lemma exact_app a b : exact_tokens (a ++ b) = (exact_tokens a + exact_tokens b)%Z.
Proof. induction a as [|m a IH]; cbn; [done|]. rewrite IH. lia. Qed.

Lemma exact_drop_le l i j : i <= j -> (exact_tokens (drop j l) <= exact_tokens (drop i l))%Z.
Proof.
  intros Hij. rewrite <- (take_drop (j - i) (drop i l)), exact_app, drop_drop.
  replace (i + (j - i)) with j by lia. pose proof (exact_nonneg (take (j - i) (drop i l))). lia.
Qed.

(** ** The budget *)

Lemma crossing_spec keep l acc :
  (0 <= acc < keep)%Z -> (keep <= u64_max)%Z ->
  match crossing extension_json keep acc (reverse l) with
  | Some i => i < length l /\ (keep <= acc + exact_tokens (drop i l))%Z /\
              (acc + exact_tokens (drop (S i) l) < keep)%Z
  | None => (acc + exact_tokens l < keep)%Z
  end.
Proof.
  revert acc. induction l as [|m l IH] using rev_ind; intros acc Hacc Hk; cbn; [lia|].
  rewrite reverse_snoc. cbn [crossing]. rewrite length_reverse.
  assert (Hsat : (keep <= saturating_add acc (estimated m) <-> keep <= acc + estimated m)%Z)
    by (unfold saturating_add, u64_saturating_add; lia).
  assert (exact_tokens [m] = estimated m) as Hone by (cbn; lia).
  destruct (Z.leb_spec keep (saturating_add acc (estimated m))) as [Hc|Hc].
  - rewrite length_app, drop_app_length, (drop_ge (l ++ [m]) (S (length l)))
      by (rewrite length_app; cbn; lia). cbn [length exact_tokens]. lia.
  - assert (saturating_add acc (estimated m) = acc + estimated m)%Z as Hadd
      by (unfold saturating_add, u64_saturating_add in *; lia).
    pose proof (estimated_nonneg m).
    rewrite Hadd in Hc |- *. assert (0 <= acc + estimated m < keep)%Z as Hacc' by lia.
    specialize (IH _ Hacc' Hk).
    destruct (crossing extension_json keep _ (reverse l)) as [i|].
    + destruct IH as (Hi & Hle & Hlt).
      rewrite length_app, !drop_app_le, !exact_app by lia. cbn [length]. lia.
    + rewrite exact_app. lia.
Qed.

Lemma valid_cut_points_spec (l : list Message) i :
  i ∈ valid_cut_points l <-> exists m, l !! i = Some m /\ valid_cut m = true.
Proof.
  unfold valid_cut_points. rewrite list_elem_of_omap. split.
  - intros ([j m] & Hin & Heq). cbn in Heq. destruct (valid_cut m) eqn:Hv; [|done].
    injection Heq as ->. apply elem_of_lookup_imap in Hin as (k & x & [= -> ->] & Hl). by exists x.
  - intros (m & Hl & Hv). exists (i, m). cbn. rewrite Hv. split; [|done].
    apply elem_of_lookup_imap. by exists i, m.
Qed.

(** ** The cut, by its specification *)

(** A cut leaves less than the budget after the message it starts with. *)
Definition fits (keep : Z) (l : list Message) (cut : nat) : bool :=
  (exact_tokens (drop (S cut) l) <? keep)%Z.

(** The earliest cut point that fits, else the earliest one, else everything. *)
Definition reference_cut (keep : Z) (l : list Message) : nat :=
  let cuts := valid_cut_points l in
  default (default 0 (head cuts)) (head (filter (fun cut => fits keep l cut = true) cuts)).

Lemma fits_crossing keep l :
  (0 < keep <= u64_max)%Z ->
  match crossing extension_json keep 0 (reverse l) with
  | Some i => forall cut, fits keep l cut = true <-> i <= cut
  | None => forall cut, fits keep l cut = true
  end.
Proof.
  intros Hk. assert (0 <= 0 < keep)%Z as Hacc by lia.
  pose proof (crossing_spec keep l 0 Hacc ltac:(lia)) as Hc. unfold fits.
  destruct (crossing extension_json keep 0 (reverse l)) as [i|].
  - destruct Hc as (Hi & Hge & Hlt). intros cut. rewrite Z.ltb_lt. split.
    + intros Hf. destruct (Nat.lt_ge_cases cut i) as [Hci|]; [|done].
      pose proof (exact_drop_le l (S cut) i ltac:(lia)). lia.
    + intros Hic. pose proof (exact_drop_le l (S i) (S cut) ltac:(lia)). lia.
  - intros cut. apply Z.ltb_lt. pose proof (exact_drop_le l 0 (S cut) ltac:(lia)) as Hle.
    rewrite drop_0 in Hle. lia.
Qed.

Lemma first_kept_reference policy l :
  (0 < keep_recent_tokens policy <= u64_max)%Z ->
  first_kept extension_json policy l = reference_cut (keep_recent_tokens policy) l.
Proof.
  intros Hk. unfold first_kept, reference_cut. rewrite (proj2 (Z.eqb_neq _ _)) by lia.
  pose proof (fits_crossing _ l Hk) as Hf.
  destruct (crossing extension_json (keep_recent_tokens policy) 0 (reverse l)) as [i|].
  - f_equal. f_equal. apply list_filter_iff. intros cut. by rewrite Hf.
  - destruct (valid_cut_points l) as [|c cuts]; [done|].
    by rewrite filter_cons_True by apply Hf.
Qed.

(** A cut is at a cut point, or at an end of the list. *)
Definition cut_ok (l : list Message) (cut : nat) : Prop :=
  cut = 0 \/ length l <= cut \/ exists m, l !! cut = Some m /\ valid_cut m = true.

Lemma first_kept_ok policy l :
  (0 <= keep_recent_tokens policy <= u64_max)%Z -> cut_ok l (first_kept extension_json policy l).
Proof.
  intros Hk. destruct (Z.eq_dec (keep_recent_tokens policy) 0%Z) as [Hz|Hz].
  { unfold first_kept. rewrite Hz. by right; left. }
  rewrite first_kept_reference by lia. unfold reference_cut.
  assert (forall cuts : list nat, (forall i, i ∈ cuts -> i ∈ valid_cut_points l) ->
    forall i, head cuts = Some i -> cut_ok l i) as Hhead.
  { intros [|c cuts] Hin i [= <-]. right; right. apply valid_cut_points_spec, Hin. by left. }
  destruct (head (filter _ _)) as [i|] eqn:Hf; cbn.
  - apply (Hhead _ (fun i Hi => proj2 (proj1 (list_elem_of_filter _ _ _) Hi)) i Hf).
  - destruct (head (valid_cut_points l)) as [i|] eqn:Hh; cbn; [|by left]. by apply (Hhead _ (fun i Hi => Hi)).
Qed.

(** ** Tool batches *)

Definition result_id (m : Message) : option ToolCallId :=
  match content m with ToolResult id _ _ _ _ _ => Some id | _ => None end.

(** Every tool result follows the message that called it, with no cut point
    in between. *)
Definition batches_ok (l : list Message) : Prop := forall i m id,
  l !! i = Some m -> result_id m = Some id ->
  exists j caller, j < i /\ l !! j = Some caller /\ calls caller id /\
    forall k x, j < k <= i -> l !! k = Some x -> valid_cut x = false.

Lemma filter_split {A} (P : A -> Prop) `{!forall x, Decision (P x)} l pre m post :
  filter P l = (pre ++ m :: post)%list ->
  exists a b, l = (a ++ m :: b)%list /\ filter P a = pre /\ filter P b = post.
Proof.
  revert pre. induction l as [|x l IH]; intros pre Hl; [by destruct pre|].
  rewrite filter_cons in Hl. destruct (decide (P x)) as [Hp|Hp].
  - destruct pre as [|y pre]; injection Hl as -> Hl; [by exists [], l|].
    destruct (IH pre Hl) as (a & b & -> & <- & <-). exists (y :: a), b.
    by rewrite filter_cons_True.
  - destruct (IH pre Hl) as (a & b & -> & <- & <-). exists (x :: a), b.
    by rewrite filter_cons_False.
Qed.

(** A cut strands no result: whoever called it is kept before it. *)
Lemma cut_keeps_calls l cut pre m post id :
  batches_ok l -> cut_ok l cut ->
  filter (fun m => (0 <? estimated m)%Z = true) (drop cut l) = (pre ++ m :: post)%list ->
  result_id m = Some id -> exists caller, caller ∈ pre /\ calls caller id.
Proof.
  intros Hb Hcut Hfilter Hid.
  destruct (filter_split _ _ _ _ _ Hfilter) as (a & b & Hdrop & <- & _).
  assert (l !! (cut + length a) = Some m) as Hm.
  { rewrite <- lookup_drop, Hdrop. by apply list_lookup_middle. }
  destruct (Hb _ _ _ Hm Hid) as (j & caller & Hj & Hcaller & Hcalls & Hbetween).
  assert (cut <= j) as Hle.
  { destruct Hcut as [->|[Hlen|(x & Hx & Hv)]]; [lia| |].
    - apply lookup_lt_Some in Hm. lia.
    - destruct (Nat.lt_ge_cases j cut) as [Hlt|]; [|done].
      rewrite (Hbetween cut x) in Hv; [done|lia|done]. }
  exists caller. split; [|done]. apply list_elem_of_filter. split.
  - by apply Z.ltb_lt, calls_estimated with id.
  - assert (a !! (j - cut) = Some caller) as Ha; [|by apply list_elem_of_lookup_2 in Ha].
    rewrite <- (lookup_app_l a (m :: b)) by lia. rewrite <- Hdrop, lookup_drop.
    by replace (cut + (j - cut)) with j by lia.
Qed.

(** ** The ranges *)

Lemma split_turn_lt (l : list Message) first start :
  split_turn l first = Some start ->
  start < first /\ exists m, l !! start = Some m /\ starts_turn m = true.
Proof.
  unfold split_turn. destruct (l !! first) as [m|] eqn:Hl; [|done].
  destruct (starts_turn m) eqn:Hm; [done|]. intros Hr.
  destruct (rposition_some _ _ _ Hr) as [(x & Hx & Hs) _].
  pose proof (lookup_lt_Some _ _ _ Hx) as Hlt. rewrite length_take in Hlt.
  assert (l !! start = Some x) as Hx' by (by rewrite lookup_take_lt in Hx by lia).
  split; [|by exists x]. destruct (Nat.eq_dec start first) as [->|]; [congruence|lia].
Qed.

Lemma ranges_partition (l : list Message) first :
  (take (default first (split_turn l first)) l
   ++ match split_turn l first with
      | Some start => drop start (take first l) | None => [] end
   ++ drop first l)%list = l.
Proof.
  destruct (split_turn l first) as [start|] eqn:Hs; cbn; [|by rewrite take_drop].
  apply split_turn_lt in Hs as [Hlt _].
  rewrite app_assoc. replace (take start l) with (take start (take first l))
    by (rewrite take_take; f_equal; lia).
  by rewrite !take_drop.
Qed.

(** The messages after the last compaction summary. *)
Definition since_summary (history : list Message) : list Message :=
  match rposition is_summary history with Some i => drop (S i) history | None => history end.

Lemma since_summary_split (history : list Message) :
  exists before, history = (before ++ since_summary history)%list /\
    (before = [] \/ exists older s, before = (older ++ [s])%list /\ is_summary s = true) /\
    forall m, m ∈ since_summary history -> is_summary m = false.
Proof.
  unfold since_summary. destruct (rposition is_summary history) as [i|] eqn:Hr.
  - destruct (rposition_some _ _ _ Hr) as [(s & Hs & His) Hlate].
    exists (take (S i) history). split_and!; [by rewrite take_drop| |].
    + right. exists (take i history), s. by rewrite (take_S_r _ _ s).
    + intros m [j Hj]%list_elem_of_lookup. rewrite lookup_drop in Hj.
      apply (Hlate (S i + j) m); [lia|done].
  - exists []. split_and!; [done|by left|]. by apply rposition_none.
Qed.

Lemma turn_prefix_head (l : list Message) first :
  match split_turn l first with
  | Some start => exists m, head (drop start (take first l)) = Some m /\ starts_turn m = true
  | None => True
  end.
Proof.
  destruct (split_turn l first) as [start|] eqn:Hs; [|done].
  apply split_turn_lt in Hs as [Hlt (m & Hm & Ht)]. exists m. split; [|done].
  assert (take first l !! start = Some m) as Hl by (by rewrite lookup_take_lt).
  by rewrite (drop_S _ m).
Qed.

End Cut.
