(* ===== verification/Settings.v ===== *)
(** The model, thinking level and mode a session works with, and moving its lane
    through the tree: the model catalog ([crates/kernel/src/model.rs]), the
    selection ([runtime/session/model_state.rs]), its changes
    ([runtime/session/settings.rs]), its restoration
    ([RestoredSessionSettings] of [session/assembly.rs]), navigation
    ([runtime/session/tree.rs]), what a child session takes over from its owner
    ([AgentSnapshot] of [session/ownership.rs]) and the input a model without
    images gets ([ModelRequest::adapt_input] of [crates/protocol/src/model.rs]).

    A model handle is a provider's object: [Handle] is any type with the class
    [ModelHandle].  Identifiers the kernel generates are arguments, as are the
    hooks' decisions and generated summaries; the settings lock makes a change
    one step. *)

From S2P Require Import Prelude Lines Chars Text Scalar Json Message StoreModel StoreState.
From S2P Require Import ToolContract KernelErrors Template Plan Replay Transcript ToolSearch ToolSelection.
From S2P Require Import Compaction.
Open Scope string_scope.
Open Scope rust_scope.

(** ** Profiles *)

Inductive ModelInputModality : Type := TextInput | ImageInput.
#[export] Instance modality_eq_dec : EqDecision ModelInputModality.
Proof. solve_decision. Defined.

Inductive ModelInputModalitiesError : Type :=
| MissingText
| TextNotFirst
| DuplicateModality (modality : ModelInputModality).

(** [TryFrom<Vec<ModelInputModality>> for ModelInputModalities] *)
Fixpoint refuse_repeated (seen : list ModelInputModality) (l : list ModelInputModality)
  : result (list ModelInputModality) ModelInputModalitiesError :=
  match l with
  | [] => Ok seen
  | m :: rest => if bool_decide (m ∈ seen) then Err (DuplicateModality m) else refuse_repeated (m :: seen) rest
  end.
Definition modalities_try_from (value : list ModelInputModality)
  : result (list ModelInputModality) ModelInputModalitiesError :=
  let? seen := refuse_repeated [] value in
  if negb (bool_decide (TextInput ∈ seen)) then Err MissingText
  else if negb (bool_decide (head value = Some TextInput)) then Err TextNotFirst
  else Ok value.

Inductive PromptCacheRetention : Type := ShortRetention | LongRetention.

(** [ModelProfile]; [Compaction] reads its limits only. *)
Record FullProfile : Type := {
  full_limits : ModelProfile;
  full_display_name : string;
  full_input : list ModelInputModality;
  full_prompt_cache : option PromptCacheRetention
}.
#[export] Instance limits_eq_dec : EqDecision ModelProfile.
Proof. solve_decision. Defined.
#[export] Instance retention_eq_dec : EqDecision PromptCacheRetention.
Proof. solve_decision. Defined.
#[export] Instance profile_eq_dec : EqDecision FullProfile.
Proof. solve_decision. Defined.

(** [ModelInputModalities::supports] *)
Definition supports (p : FullProfile) (m : ModelInputModality) : bool := bool_decide (m ∈ full_input p).

Inductive ThinkingLevel : Type := Off | Minimal | Low | Medium | High | XHigh.
#[export] Instance thinking_level_eq_dec : EqDecision ThinkingLevel.
Proof. solve_decision. Defined.
Definition thinking_default : ThinkingLevel := Medium.

#[export] Instance to_value_level : ToValue ThinkingLevel := fun l =>
  JString (match l with Off => "off" | Minimal => "minimal" | Low => "low" | Medium => "medium"
           | High => "high" | XHigh => "x_high" end).
#[export] Instance from_value_level : FromValue ThinkingLevel := fun v =>
  match v with
  | JString "off" => Ok Off
  | JString "minimal" => Ok Minimal
  | JString "low" => Ok Low
  | JString "medium" => Ok Medium
  | JString "high" => Ok High
  | JString "x_high" => Ok XHigh
  | _ => Err (JsonError "unknown thinking level")
  end.
#[export] Instance roundtrip_level : Roundtrip ThinkingLevel.
Proof. by intros []. Qed.

Record LoginMethod : Type := { login_id : string; login_name : string }.

(** ** Catalogs *)

Class ModelHandle (Handle : Type) := {
  profile : Handle -> FullProfile;
  login_method : Handle -> option LoginMethod
}.

Section Catalog.
Context `{ModelHandle Handle}.

Record ModelCatalog : Type := {
  active_key : string;
  models : gmap string Handle
}.

Definition model_key (provider_id model_id : string) : string := provider_id +:+ "/" +:+ model_id.
Definition handle_key (h : Handle) : string :=
  let limits := full_limits (profile h) in
  model_key (profile_provider_id limits) (profile_model_id limits).

(** [ModelCatalog::single] *)
Definition catalog_single (h : Handle) : ModelCatalog :=
  {| active_key := handle_key h; models := {[ handle_key h := h ]} |}.

(** [ModelCatalog::new] *)
Fixpoint index_models (indexed : gmap string Handle) (l : list Handle) : result (gmap string Handle) ModelError :=
  match l with
  | [] => Ok indexed
  | h :: rest =>
      match indexed !! handle_key h with
      | Some _ => Err (ModelFailed ("model catalog contains duplicate " +:+ handle_key h))
      | None => index_models (<[handle_key h := h]> indexed) rest
      end
  end.
Definition catalog_new (provider_id model_id : string) (l : list Handle) : result ModelCatalog ModelError :=
  let? indexed := index_models ∅ l in
  match indexed !! model_key provider_id model_id with
  | None => Err (ModelFailed ("active model is absent from catalog: " +:+ model_key provider_id model_id))
  | Some _ => Ok {| active_key := model_key provider_id model_id; models := indexed |}
  end.

(** [ModelCatalog::active]: [None] is its panic. *)
Definition catalog_active (c : ModelCatalog) : option Handle := models c !! active_key c.

(** [ModelCatalog::resolve], [profiles] *)
Definition catalog_resolve (c : ModelCatalog) (provider_id model_id : string) : option Handle :=
  models c !! model_key provider_id model_id.
Definition profiles (c : ModelCatalog) : list FullProfile := profile <$> btree_values (models c).

(** [ModelCatalog::login_methods]: a map from identifiers, the first method of
    each kept. *)
Definition login_methods (c : ModelCatalog) : list LoginMethod :=
  btree_values
    (foldl (fun m method => match m !! login_id method with
                            | Some _ => m | None => <[login_id method := method]> m end)
       ∅ (omap login_method (btree_values (models c)))).

(** [ModelCatalog::sign_in]: the model a sign-in goes to. *)
Definition sign_in_model (c : ModelCatalog) (method_id : string) : result Handle ModelError :=
  ok_or (head (filter (fun h => login_id <$> login_method h = Some method_id) (btree_values (models c))))
    (ModelFailed ("no login method named " +:+ method_id)).

(** [SessionModelState::resolve_reference] *)
Definition resolve_reference (c : ModelCatalog) (reference : string) : result Handle string :=
  ok_or (pair ← split_once "/" reference; catalog_resolve c pair.1 pair.2)
    ("unknown model '" +:+ reference +:+ "'; configured models: "
     +:+ join ", " ((fun p => model_key (profile_provider_id (full_limits p)) (profile_model_id (full_limits p)))
                    <$> profiles c)).
End Catalog.
Arguments ModelCatalog Handle : clear implicits.

(** ** The persisted choices *)

Inductive SettingChange : Type :=
| ModelChange (provider model_id : string)
| LevelChange (level : ThinkingLevel).

(** [From<&SettingChange> for (EntryKind, Value)] *)
Definition setting_entry (id : EntryId) (change : SettingChange) : NewEntry :=
  match change with
  | ModelChange provider model_id =>
      {| new_entry_id := id; new_entry_kind := KindModelChange;
         new_entry_payload := JObject (<["provider" := JString provider]> {["modelId" := JString model_id]}) |}
  | LevelChange level =>
      {| new_entry_id := id; new_entry_kind := KindThinkingLevelChange;
         new_entry_payload := JObject {["thinkingLevel" := to_value level]} |}
  end.

(** [TryFrom<&SessionEntry> for SettingChange] *)
Definition setting_from_entry (e : SessionEntry) : result SettingChange KernelError :=
  let text key := v ← entry_payload e !! key; json_as_str v in
  match entry_kind e with
  | KindModelChange =>
      match text "provider", text "modelId" with
      | Some provider, Some model_id => Ok (ModelChange provider model_id)
      | _, _ => Err (Protocol ("model change " +:+ as_str (entry_id e) +:+ " has no provider or modelId"))
      end
  | KindThinkingLevelChange =>
      let? value := ok_or (entry_payload e !! "thinkingLevel")
                      (Protocol ("thinking change " +:+ as_str (entry_id e) +:+ " has no thinkingLevel")) in
      let? level := map_err (fun err => Store (Json err)) (from_value value) in
      Ok (LevelChange level)
  | _ => Err (Protocol ("entry " +:+ as_str (entry_id e) +:+ " is not a model or thinking change"))
  end.

Section Settings.
Context `{UnicodeTables} `{Floats}.
Variable object_entries : gmap string json -> list (string * json).
Context {R : RigTypes} {CC : ContentCodec R} {S : Type} `{SessionStore S} `{ModelHandle Handle}.
Abbreviation Message := (AgentMessage R).

(** [ModelSelection] and the mode beside it, live and as
    [RestoredSessionSettings]. *)
Record Choices : Type := {
  chosen_model : Handle;
  chosen_level : ThinkingLevel;
  chosen_mode : SessionMode
}.
Definition with_model (h : Handle) (c : Choices) : Choices :=
  {| chosen_model := h; chosen_level := chosen_level c; chosen_mode := chosen_mode c |}.
Definition with_level (l : ThinkingLevel) (c : Choices) : Choices :=
  {| chosen_model := chosen_model c; chosen_level := l; chosen_mode := chosen_mode c |}.
Definition with_mode (m : SessionMode) (c : Choices) : Choices :=
  {| chosen_model := chosen_model c; chosen_level := chosen_level c; chosen_mode := m |}.

(** [RestoredSessionSettings::load] *)
Definition load_change (catalog : ModelCatalog Handle) (c : Choices) (change : SettingChange) : Choices :=
  match change with
  | ModelChange provider model_id =>
      match catalog_resolve catalog provider model_id with Some h => with_model h c | None => c end
  | LevelChange level => with_level level c
  end.
Definition load_entry (catalog : ModelCatalog Handle) (c : Choices) (e : SessionEntry)
  : result Choices KernelError :=
  match entry_kind e with
  | KindModelChange | KindThinkingLevelChange =>
      let? change := setting_from_entry e in Ok (load_change catalog c change)
  | _ => Ok c
  end.
Fixpoint load_entries (catalog : ModelCatalog Handle) (c : Choices) (l : list SessionEntry)
  : result Choices KernelError :=
  match l with
  | [] => Ok c
  | e :: rest => let? c := load_entry catalog c e in load_entries catalog c rest
  end.
Definition load_settings (s : S) (l : LaneId) (catalog : ModelCatalog Handle) (active : Handle)
  : result Choices KernelError :=
  let start := {| chosen_model := active; chosen_level := thinking_default; chosen_mode := ModeDefault |} in
  match lane s l with
  | None => Ok start
  | Some leaf =>
      let? b := map_err Store (branch s leaf) in
      load_entries catalog (with_mode (branch_mode b) start) b
  end.

(** ** The session's part of the state *)

(** [SessionSettings] *)
Record SessionSettings : Type := {
  settings_model : FullProfile;
  settings_level : ThinkingLevel;
  settings_models : list FullProfile;
  settings_mode : SessionMode
}.

Record SettingsWorld : Type := {
  settings_transcript : SessionTranscript R S;
  settings_tools : SessionToolSnapshot;
  settings_choices : Choices;
  (** The [SettingsChanged] events clients were sent. *)
  published : list SessionSettings
}.
Abbreviation W := (M SettingsWorld KernelError).
Variable catalog : ModelCatalog Handle.

Definition choose (f : Choices -> Choices) : W unit := fun w =>
  (Ok tt, {| settings_transcript := settings_transcript w; settings_tools := settings_tools w;
             settings_choices := f (settings_choices w); published := published w |}).
Definition on_transcript {A} (op : M (SessionTranscript R S) KernelError A) : W A := fun w =>
  let '(r, t) := op (settings_transcript w) in
  (r, {| settings_transcript := t; settings_tools := settings_tools w;
         settings_choices := settings_choices w; published := published w |}).
Definition with_tools (c : SessionToolSnapshot) (w : SettingsWorld) : SettingsWorld :=
  {| settings_transcript := settings_transcript w; settings_tools := c;
     settings_choices := settings_choices w; published := published w |}.

Definition fresh_id (kind id : string) : W (string_id kind) :=
  m_lift (map_err (fun e => Protocol (scalar_error_text e)) (id_try_from kind id)).

(** [Session::settings] *)
Definition session_settings (w : SettingsWorld) : SessionSettings :=
  let c := settings_choices w in
  {| settings_model := profile (chosen_model c); settings_level := chosen_level c;
     settings_models := profiles catalog; settings_mode := chosen_mode c |}.

(** [SessionSettingsUpdate::publish]; [reported] is whether the event could be
    built and sent. *)
Definition publish_settings (reported : bool) : W unit := fun w =>
  (Ok tt, {| settings_transcript := settings_transcript w; settings_tools := settings_tools w;
             settings_choices := settings_choices w;
             published := if reported then published w ++ [session_settings w] else published w |}).

(** ** Changes *)

(** [SessionSettingsUpdate::persist] *)
Definition persist_setting (id : string) (change : SettingChange) : W unit :=
  let! entry_id := fresh_id "entry" id in
  let! _ := on_transcript (append_store_only_entry (setting_entry entry_id change)) in
  on_transcript transcript_sync.

(** [SessionSettingsUpdate::model]; [signed_in] is the provider's answer, and
    [context] the extension context's error. *)
Definition set_model (provider_id model_id : string) (signed_in : option ModelError) (id : string)
  (reported : bool) (context : option KernelError) : W FullProfile :=
  match catalog_resolve catalog provider_id model_id with
  | None => m_fail (Protocol ("model is not configured: " +:+ model_key provider_id model_id))
  | Some h =>
      match signed_in with
      | Some e => m_fail (Model e)
      | None =>
          let! w := m_get in
          let previous := profile (chosen_model (settings_choices w)) in
          if bool_decide (previous = profile h) then m_ret previous
          else
            let! _ := persist_setting id (ModelChange provider_id model_id) in
            let! _ := choose (with_model h) in
            let! _ := publish_settings reported in
            match context with Some e => m_fail e | None => m_ret (profile h) end
      end
  end.

(** [SessionSettingsUpdate::thinking_level] *)
Definition set_level (level : ThinkingLevel) (id : string) (reported : bool)
  (context : option KernelError) : W ThinkingLevel :=
  let! w := m_get in
  if bool_decide (chosen_level (settings_choices w) = level) then m_ret level
  else
    let! _ := persist_setting id (LevelChange level) in
    let! _ := choose (with_level level) in
    let! _ := publish_settings reported in
    match context with Some e => m_fail e | None => m_ret level end.

(** [SessionSettingsUpdate::mode] *)
Definition set_mode (mode : SessionMode) (turn id : string) (reported : bool) : W SessionMode :=
  let! w := m_get in
  if bool_decide (chosen_mode (settings_choices w) = mode) then m_ret mode
  else
    let! turn_id := fresh_id "turn" turn in
    let! entry_id := fresh_id "entry" id in
    let! _ := on_transcript (append_mode_note entry_id {| change_mode := mode; change_turn_id := turn_id |}) in
    let! _ := on_transcript transcript_sync in
    let! _ := choose (with_mode mode) in
    let! _ := publish_settings reported in
    m_ret mode.

(** ** Moving through the tree *)

(** [SessionToolState::update] over this state. *)
Definition tools_update {A} (f : W A) : W A := fun w =>
  match f w with
  | (Ok a, w') => (Ok a, with_tools (next_revision (settings_tools w')) w')
  | (Err e, w') => (Err e, with_tools (settings_tools w) w')
  end.
Definition select_tools (s : ToolSelection) : W unit := fun w =>
  (Ok tt, with_tools (with_selection s (settings_tools w)) w).

Record TreeNavigationPlan : Type := {
  plan_old_leaf : option EntryId;
  plan_target : EntryId;
  plan_new_leaf : option EntryId;
  plan_common : option EntryId;
  plan_summarize : list SessionEntry
}.

Fixpoint common_length (old target : list SessionEntry) : nat :=
  match old, target with
  | o :: old, t :: target => if bool_decide (entry_id o = entry_id t) then Datatypes.S (common_length old target) else 0
  | _, _ => 0
  end.

(** Whether the target is a user's message, which reopens in the editor. *)
Definition is_user_entry (e : SessionEntry) : bool :=
  bool_decide (entry_kind e = KindMessage) &&
  match from_value (T := Message) (JObject (entry_payload e)) with
  | Ok m => match content m with User _ | ExpandedUser _ => true | _ => false end
  | Err _ => false
  end.

(** [TreeNavigationPlan::capture] *)
Definition capture (s : NavigationSnapshot) : TreeNavigationPlan :=
  let common := common_length (old_branch s) (target_branch s) in
  {| plan_old_leaf := old_leaf_id s; plan_target := entry_id (target s);
     plan_new_leaf := if is_user_entry (target s) then parent_id (target s) else Some (entry_id (target s));
     plan_common := match common with
                    | O => None
                    | Datatypes.S i => entry_id <$> old_branch s !! i
                    end;
     plan_summarize := drop common (old_branch s) |}.

(** [TreeNavigationPlan::messages] *)
Fixpoint plan_messages (l : list SessionEntry) : result (list Message) KernelError :=
  match l with
  | [] => Ok []
  | e :: rest =>
      if bool_decide (entry_kind e = KindMessage) then
        let? m := map_err (fun err => Store (Json err)) (from_value (T := Message) (JObject (entry_payload e))) in
        let? ms := plan_messages rest in Ok (m :: ms)
      else plan_messages rest
  end.

(** What the extensions answer before a move: [SessionBeforeTreeResult] *)
Record BeforeTree : Type := {
  before_cancel : bool;
  before_summary : option (string * option json * option json);
  before_instructions : option string;
  before_replace : option bool;
  before_label : option string
}.

Definition BRANCH_SUMMARY_INSTRUCTION : string :=
  "Summarize the abandoned conversation branch for another agent. Preserve user requirements, decisions, completed work, unresolved problems, exact identifiers, and important technical details. Return only the summary.".

Definition summary_instruction (b : BeforeTree) : string :=
  match before_instructions b with
  | Some custom =>
      if bool_decide (before_replace b = Some true) then custom
      else BRANCH_SUMMARY_INSTRUCTION +:+ nl +:+ nl +:+ custom
  | None => BRANCH_SUMMARY_INSTRUCTION
  end.

(** The summary of what is left behind; [generate] is the model's. *)
Definition branch_summary (generate : list Message -> string -> result string KernelError)
  (p : TreeNavigationPlan) (b : BeforeTree) (summarize : bool) : result (option string) KernelError :=
  if negb summarize then Ok None
  else
    match before_summary b with
    | Some (text, _, _) => Ok (Some text)
    | None =>
        match plan_summarize p with
        | [] => Ok None
        | entries =>
            let? messages := plan_messages entries in
            match messages with
            | [] => Ok None
            | _ => let? text := generate messages (summary_instruction b) in Ok (Some text)
            end
        end
    end.

Definition json_option (o : option json) : json := default JNull o.
Definition summary_entry_of (id : EntryId) (p : TreeNavigationPlan) (b : BeforeTree) (summarize : bool)
  (text : string) : NewEntry :=
  let supplied := if summarize then before_summary b else None in
  {| new_entry_id := id; new_entry_kind := KindBranchSummary;
     new_entry_payload := JObject
       (<["fromId" := JString (from_option as_str "root" (plan_new_leaf p))]>
       (<["summary" := JString text]>
       (<["details" := json_option (x ← supplied; x.1.2)]>
       (<["usage" := json_option (x ← supplied; x.2)]>
        {["fromHook" := JBool (bool_decide (is_Some supplied))]})))) |}.

(** The closure under the tools' lock. *)
Definition move_settings (c : NavigationCommit) : W NavigationResult :=
  let! w := m_get in
  let! entries := m_lift (branch_at (commit_new_leaf c) (settings_transcript w)) in
  let! s := m_lift (ToolSelection.restore entries (settings_tools w)) in
  let! committed := on_transcript (commit_navigation c) in
  let! _ := select_tools s in
  let! _ := choose (with_mode (branch_mode entries)) in
  m_ret committed.

(** What of a call's surroundings can fail: the extension context it opens with,
    and the context and tree it ends with. *)
Record Surroundings : Type := {
  opening : option KernelError;
  closing : option KernelError
}.
Definition unless {A} (failure : option KernelError) (k : W A) : W A :=
  match failure with Some e => m_fail e | None => k end.

(** [Kernel::navigate_session_with_summary]; [false] when the lane is there. *)
Definition navigate (target : EntryId) (summarize : bool) (around : Surroundings)
  (before : TreeNavigationPlan -> BeforeTree)
  (generate : list Message -> string -> result string KernelError) (id : string) (reported : bool) : W bool :=
  let! w := m_get in
  let! snapshot := m_lift (navigation_snapshot target (settings_transcript w)) in
  let p := capture snapshot in
  if bool_decide (plan_old_leaf p = Some (plan_target p)) then unless (closing around) (m_ret false)
  else
    let! _ := unless (opening around) (m_ret tt) in
    let b := before p in
    if before_cancel b then m_fail (ExtensionBlocked "session tree navigation cancelled")
    else
      let! text := m_lift (branch_summary generate p b summarize) in
      let! summary := match text with
                      | None => m_ret None
                      | Some text => let! entry_id := fresh_id "entry" id in
                                     m_ret (Some (summary_entry_of entry_id p b summarize text))
                      end in
      let previous := chosen_mode (settings_choices w) in
      let! _ := tools_update (move_settings
                  {| commit_new_leaf := plan_new_leaf p; commit_target := plan_target p;
                     commit_summary := summary; commit_label := before_label b |}) in
      let! w := m_get in
      let! _ := if bool_decide (chosen_mode (settings_choices w) = previous) then m_ret tt
                else publish_settings reported in
      unless (closing around) (m_ret true).

(** [Kernel::navigate_session] to the root. *)
Definition navigate_root (around : Surroundings) : W (option EntryId) :=
  let! old := tools_update (let! old := on_transcript clear_navigation in
                            let! _ := select_tools selection_default in
                            let! _ := choose (with_mode ModeDefault) in
                            m_ret old) in
  unless (closing around) (m_ret old).

(** ** A child's start *)

Record AgentSnapshot : Type := {
  agent_model : Handle;
  agent_level : ThinkingLevel;
  agent_tools : ToolSelection;
  agent_mode : SessionMode
}.

(** [TryFrom<&Session> for AgentSnapshot], [without_tools] *)
Definition agent_snapshot (w : SettingsWorld) : AgentSnapshot :=
  let c := settings_choices w in
  {| agent_model := chosen_model c; agent_level := chosen_level c;
     agent_tools := selection (settings_tools w); agent_mode := chosen_mode c |}.
Definition without_tools (names : list string) (a : AgentSnapshot) : AgentSnapshot :=
  {| agent_model := agent_model a; agent_level := agent_level a;
     agent_tools := {| selection_version := selection_version (agent_tools a);
                       loaded := loaded (agent_tools a) ∖ list_to_set names;
                       disabled := disabled (agent_tools a) ∪ list_to_set names |};
     agent_mode := agent_mode a |}.

(** [ToolSelectionUpdate::adopt] over this state. *)
Definition adopt_tools (id : string) (s : ToolSelection) : W unit := fun w =>
  let '(r, tw) := adopt id s {| tools := settings_tools w; transcript := settings_transcript w |} in
  (r, {| settings_transcript := transcript tw; settings_tools := tools tw;
         settings_choices := settings_choices w; published := published w |}).

Definition commit_change (id : string) (change : SettingChange) : W unit :=
  let! entry_id := fresh_id "entry" id in
  on_transcript (commit_setting (setting_entry entry_id change)).

(** [AgentSnapshot::apply] to the child's state. *)
Definition apply_snapshot (a : AgentSnapshot) (model_entry level_entry turn mode_entry tools_entry : string) : W unit :=
  let limits := full_limits (profile (agent_model a)) in
  let! _ := commit_change model_entry (ModelChange (profile_provider_id limits) (profile_model_id limits)) in
  let! _ := commit_change level_entry (LevelChange (agent_level a)) in
  let! _ := choose (with_model (agent_model a)) in
  let! _ := choose (with_level (agent_level a)) in
  let! _ := if bool_decide (agent_mode a = ModePlan) then
              let! turn_id := fresh_id "turn" turn in
              let! entry_id := fresh_id "entry" mode_entry in
              let! _ := on_transcript (append_mode_note entry_id
                          {| change_mode := agent_mode a; change_turn_id := turn_id |}) in
              choose (with_mode (agent_mode a))
            else m_ret tt in
  adopt_tools tools_entry (agent_tools a).

(** ** Images for models without them *)

Definition USER_IMAGE_PLACEHOLDER : string := "(image omitted: model does not support images)".
Definition TOOL_IMAGE_PLACEHOLDER : string := "(tool image omitted: model does not support images)".

Definition is_image (b : ContentBlock) : bool := match b with Image _ _ => true | _ => false end.

(** The loop over one message's blocks: what it leaves, and whether it changed
    any. *)
Fixpoint adapt_blocks (placeholder : string) (previous : bool) (l : list ContentBlock)
  : bool * list ContentBlock :=
  match l with
  | [] => (false, [])
  | b :: rest =>
      if is_image b then
        let '(_, adapted) := adapt_blocks placeholder true rest in
        (true, if previous then adapted else Message.Text placeholder :: adapted)
      else
        let previous := match b with Message.Text text => String.eqb text placeholder | _ => false end in
        let '(changed, adapted) := adapt_blocks placeholder previous rest in
        (changed, b :: adapted)
  end.

Definition adapt_content (c : MessageContent R) : bool * MessageContent R :=
  match c with
  | User blocks =>
      let '(changed, blocks) := adapt_blocks USER_IMAGE_PLACEHOLDER false blocks in (changed, User blocks)
  | ExpandedUser e =>
      let '(changed, blocks) := adapt_blocks USER_IMAGE_PLACEHOLDER false (model_blocks e) in
      (changed, ExpandedUser {| invocation := invocation e; expansion_source := expansion_source e;
                                model_blocks := blocks |})
  | ToolResult i blocks error details output cancelled =>
      let '(changed, blocks) := adapt_blocks TOOL_IMAGE_PLACEHOLDER false blocks in
      (changed, ToolResult i blocks error details output cancelled)
  | Extension x =>
      if include_in_context x then
        let '(changed, blocks) := adapt_blocks USER_IMAGE_PLACEHOLDER false (ext_blocks x) in
        (changed, Extension {| extension_id := extension_id x; custom_type := custom_type x; ext_blocks := blocks;
                               display := display x; include_in_context := true; ext_details := ext_details x |})
      else (false, c)
  | _ => (false, c)
  end.

(** [ModelRequest::adapt_input] on the request's messages *)
Definition adapt_input (p : FullProfile) (messages : list Message) : bool * list Message :=
  if supports p ImageInput then (false, messages)
  else
    let adapted := (fun m => (adapt_content (content m)).1) <$> messages in
    (existsb id adapted,
     (fun m => {| identity := identity m; timing := timing m; content := (adapt_content (content m)).2 |}) <$> messages).
End Settings.
