(* ===== verification/Attempt.v ===== *)
(** The retry budget of one model generation, and the failures it judges.
    [crates/kernel/src/runtime/run/retry.rs], [RetryPolicy] of
    [crates/protocol/src/capability.rs], [ModelFailure] of
    [crates/protocol/src/model.rs], [ModelError] of [crates/kernel/src/model.rs] *)

From S2P Require Import Prelude Scalar Json Message ToolContract KernelErrors.
From S2P Require Import Compaction.
Open Scope string_scope.

Inductive ModelRetryDisposition : Type := Retryable | NonRetryable.
#[export] Instance disposition_eq_dec : EqDecision ModelRetryDisposition.
Proof. solve_decision. Defined.

Section Failures.
Context {R : RigTypes}.

Record ModelFailure : Type := {
  failure_summary : string;
  failure_status : option Z;
  retry_disposition : ModelRetryDisposition;
  retry_after_ms : option Z;
  failure_overflow : bool;
  failure_usage : option (ModelUsage R)
}.

(** [ModelFailure::is_retryable] *)
Definition is_retryable (f : ModelFailure) : bool :=
  negb (failure_overflow f) && bool_decide (retry_disposition f = Retryable).

(** A failure that carries no more than its text. *)
Definition plain_failure (summary : string) (d : ModelRetryDisposition) : ModelFailure :=
  {| failure_summary := summary; failure_status := None; retry_disposition := d;
     retry_after_ms := None; failure_overflow := false; failure_usage := None |}.

(** [ModelError] *)
Inductive ModelError : Type :=
| Unavailable (summary : string)
| Preflight (failure : ModelFailure)
| Request (failure : ModelFailure)
| Stream (failure : ModelFailure)
| ModelProtocol (summary : string)
| ModelCancelled
| AuthRequired (method_id : string).

End Failures.
Arguments ModelFailure R : clear implicits.
Arguments ModelError R : clear implicits.

Record RetryPolicy : Type := {
  retry_enabled : bool;
  max_retries : Z;
  base_delay_ms : Z;
  max_retry_delay_ms : Z
}.

Record RetrySchedule : Type := {
  schedule_attempt : Z;
  schedule_max : Z;
  delay_ms : Z
}.

Record RetryState : Type := {
  attempts : Z;
  retry_policy : RetryPolicy;
  provider_delay_limit_ms : Z
}.

(** [RetryState::new] *)
Definition retry_state_new (policy : RetryPolicy) (limit : Z) : RetryState :=
  {| attempts := 0; retry_policy := policy; provider_delay_limit_ms := limit |}.

Definition with_attempts (n : Z) (s : RetryState) : RetryState :=
  {| attempts := n; retry_policy := retry_policy s;
     provider_delay_limit_ms := provider_delay_limit_ms s |}.

(** The wait before an attempt: none when the server asks for too long a one. *)
Definition retry_delay (policy : RetryPolicy) (limit attempt : Z) (asked : option Z) : option Z :=
  match asked with
  | Some delay => if ((0 <? limit) && (limit <? delay))%Z then None else Some delay
  | None =>
      let factor := default u64_max (one_checked_shl (attempt - 1)) in
      let delay := saturating_mul (base_delay_ms policy) factor in
      Some (if (0 <? max_retry_delay_ms policy)%Z
            then Z.min delay (max_retry_delay_ms policy) else delay)
  end.

(** [RetryState::schedule] *)
Definition schedule {R : RigTypes} (failure : ModelFailure R) (s : RetryState)
  : option RetrySchedule * RetryState :=
  let policy := retry_policy s in
  if negb (is_retryable failure) || negb (retry_enabled policy)
     || (max_retries policy <=? attempts s)%Z
  then (None, s)
  else
    match u32_checked_add (attempts s) 1 with
    | None => (None, s)
    | Some attempt =>
        match retry_delay policy (provider_delay_limit_ms s) attempt (retry_after_ms failure) with
        | None => (None, s)
        | Some delay =>
            (Some {| schedule_attempt := attempt; schedule_max := max_retries policy;
                     delay_ms := delay |},
             with_attempts attempt s)
        end
    end.

(** [RetryState::reset] *)
Definition reset (s : RetryState) : RetryState := with_attempts 0 s.

(** ** What a schedule promises *)

(** The exponential back-off, without the machine's word size. *)
Definition backoff (policy : RetryPolicy) (attempt : Z) : Z :=
  let delay := Z.min (base_delay_ms policy * 2 ^ (attempt - 1)) u64_max in
  if (0 <? max_retry_delay_ms policy)%Z then Z.min delay (max_retry_delay_ms policy) else delay.

Definition policy_ok (p : RetryPolicy) : Prop :=
  (0 <= max_retries p <= u32_max)%Z /\ (0 <= base_delay_ms p <= u64_max)%Z /\
  (0 <= max_retry_delay_ms p <= u64_max)%Z.

Lemma u64_max_ge_shift : (u64_max < 2 ^ 64)%Z.
Proof. unfold u64_max. lia. Qed.

(** Shifting past the word saturates to the same wait. *)
Lemma retry_delay_backoff policy limit attempt :
  policy_ok policy -> (1 <= attempt)%Z ->
  retry_delay policy limit attempt None = Some (backoff policy attempt).
Proof.
  intros (_ & Hbase & Hcap) Ha. unfold retry_delay, backoff, one_checked_shl, saturating_mul.
  destruct (Z.ltb_spec (attempt - 1) 64) as [Hlt|Hge]; [done|]. cbn [default].
  assert (Z.min (base_delay_ms policy * u64_max) u64_max
    = Z.min (base_delay_ms policy * 2 ^ (attempt - 1)) u64_max) as ->; [|done].
  assert (2 ^ 64 <= 2 ^ (attempt - 1))%Z as Hp by (apply Z.pow_le_mono_r; lia).
  pose proof u64_max_ge_shift.
  destruct (Z.eq_dec (base_delay_ms policy) 0%Z) as [->|Hne]; [done|].
  rewrite !Z.min_r; [done| |]; nia.
Qed.

(** What a granted schedule says, and that a refusal changes nothing. *)
Lemma schedule_spec {R : RigTypes} (f : ModelFailure R) s :
  policy_ok (retry_policy s) -> (0 <= attempts s)%Z ->
  match (schedule f s).1 with
  | Some g =>
      (schedule f s).2 = with_attempts (attempts s + 1) s /\
      is_retryable f = true /\ retry_enabled (retry_policy s) = true /\
      schedule_attempt g = (attempts s + 1)%Z /\
      (attempts s < max_retries (retry_policy s))%Z /\
      schedule_max g = max_retries (retry_policy s) /\
      match retry_after_ms f with
      | Some asked => delay_ms g = asked /\
          ((0 < provider_delay_limit_ms s)%Z -> (asked <= provider_delay_limit_ms s)%Z)
      | None => delay_ms g = backoff (retry_policy s) (attempts s + 1)
      end
  | None => (schedule f s).2 = s
  end.
Proof.
  intros Hok Ha. unfold schedule.
  destruct (is_retryable f); cbn [negb orb]; [|done].
  destruct (retry_enabled (retry_policy s)) eqn:Hen; cbn [negb orb]; [|done].
  destruct (Z.leb_spec (max_retries (retry_policy s)) (attempts s)) as [|Hlt]; [done|].
  unfold u32_checked_add. destruct Hok as (Hmax & Hrest).
  rewrite (proj2 (Z.leb_le _ _)) by lia.
  destruct (retry_after_ms f) as [asked|].
  - cbn [retry_delay]. destruct (_ && _) eqn:Hlim; [done|]. cbn. split_and!; try done.
    intros Hpos. apply andb_false_iff in Hlim as [Hl|Hl]; [apply Z.ltb_ge in Hl; lia|by apply Z.ltb_ge].
  - rewrite retry_delay_backoff by (done || lia). cbn. by split_and!.
Qed.

(** One provider call and the Assistant message it becomes.
    [crates/kernel/src/runtime/run/attempt.rs], the stream types of
    [crates/protocol/src/model.rs]

    A native assistant message is a type of the rig-core crate: the display
    blocks [AssistantProjection] of [provider.rs] reads out of it are the section
    variable [native_blocks]; a usage without counters is [no_usage]. *)

Open Scope string_scope.
Open Scope rust_scope.

Section Attempt.
Context {R : RigTypes}.
Variable native_blocks : RigAssistantMessage -> result (list ContentBlock) (ModelError R).
Variable no_usage : ModelUsage R.
Abbreviation Message := (AgentMessage R).

Record ModelFinal : Type := {
  final_stop_reason : StopReason;
  final_raw_stop_reason : option string;
  final_usage : ModelUsage R;
  final_message : option RigAssistantMessage
}.

Inductive ModelStreamEvent : Type :=
| TextDelta (delta : string)
| ReasoningDelta (delta : string)
| ToolCallEvent (call : ToolCall)
| Finished (final : ModelFinal).

Record AssistantAttempt : Type := {
  attempt_identity : MessageIdentity;
  attempt_profile : ModelProfile;
  attempt_timestamp : TimestampMs;
  attempt_started : option TimestampMs;
  attempt_ended : option TimestampMs;
  attempt_blocks : list ContentBlock;
  attempt_final : option ModelFinal
}.

Inductive Settlement : Type :=
| SettleCompleted (settled_at_ms : TimestampMs)
| SettleFailed (error : ModelError R) (settled_at_ms : TimestampMs)
| SettleCancelled (settled_at_ms : TimestampMs).

Inductive AttemptResult : Type :=
| AttemptCompleted (message : Message)
| AttemptFailed (message : Message) (failure : ModelFailure R)
| AttemptCancelled (message : Message).

(** [AssistantAttempt::new] *)
Definition attempt_new (message_id : MessageId) (turn_id : TurnId) (profile : ModelProfile)
  (timestamp : TimestampMs) : AssistantAttempt :=
  {| attempt_identity := {| message_id := message_id; turn_id := turn_id |};
     attempt_profile := profile; attempt_timestamp := timestamp; attempt_started := None;
     attempt_ended := None; attempt_blocks := []; attempt_final := None |}.

(** Replaces the last block, or adds one when [last_mut] finds no match. *)
Definition push_text (delta : string) (blocks : list ContentBlock) : list ContentBlock :=
  match last blocks with
  | Some (Text text) => removelast blocks ++ [Text (text +:+ delta)]
  | _ => blocks ++ [Text delta]
  end.
Definition push_reasoning (delta : string) (blocks : list ContentBlock) : list ContentBlock :=
  match last blocks with
  | Some (Reasoning text) => removelast blocks ++ [Reasoning (text +:+ delta)]
  | _ => blocks ++ [Reasoning delta]
  end.
Definition call_block (c : ToolCall) : ContentBlock :=
  ToolCallBlock (call_id c) (call_name c) (call_arguments c) (invalid_arguments c).

(** Output arrived: the first one starts the message, the last one ends it. *)
Definition with_output (at_ms : TimestampMs) (blocks : list ContentBlock) (a : AssistantAttempt)
  : AssistantAttempt :=
  {| attempt_identity := attempt_identity a; attempt_profile := attempt_profile a;
     attempt_timestamp := attempt_timestamp a;
     attempt_started := Some (default at_ms (attempt_started a));
     attempt_ended := Some at_ms; attempt_blocks := blocks;
     attempt_final := attempt_final a |}.

(** [AssistantAttempt::apply] *)
Definition apply_event (event : ModelStreamEvent) (at_ms : TimestampMs)
  : M AssistantAttempt (ModelError R) unit := fun a =>
  match attempt_final a with
  | Some _ => (Err (ModelProtocol "model emitted data after terminal metadata"), a)
  | None =>
      match event with
      | TextDelta delta => (Ok tt, with_output at_ms (push_text delta (attempt_blocks a)) a)
      | ReasoningDelta delta =>
          (Ok tt, with_output at_ms (push_reasoning delta (attempt_blocks a)) a)
      | ToolCallEvent call =>
          (Ok tt, with_output at_ms (attempt_blocks a ++ [call_block call]) a)
      | Finished final =>
          (Ok tt, {| attempt_identity := attempt_identity a; attempt_profile := attempt_profile a;
                     attempt_timestamp := attempt_timestamp a;
                     attempt_started := attempt_started a; attempt_ended := attempt_ended a;
                     attempt_blocks := attempt_blocks a; attempt_final := Some final |})
      end
  end.

(** [AssistantAttempt::terminal_final] *)
Definition terminal_final (reason : StopReason) : ModelFinal :=
  {| final_stop_reason := reason; final_raw_stop_reason := None; final_usage := no_usage;
     final_message := None |}.

Definition attempt_timing (a : AssistantAttempt) (observed : TimestampMs)
  : result MessageTiming (ModelError R) :=
  map_err (fun e => ModelProtocol (timing_error_text e))
    (message_timing_try_from (attempt_timestamp a)
       (default (attempt_timestamp a) (attempt_started a))
       (default observed (attempt_ended a))).

(** [AssistantAttempt::snapshot] *)
Definition snapshot (a : AssistantAttempt) (observed : TimestampMs)
  : result Message (ModelError R) :=
  let final := default (terminal_final EndTurn) (attempt_final a) in
  let? timing := attempt_timing a observed in
  Ok {| identity := attempt_identity a; timing := timing;
        content := Assistant (attempt_blocks a)
          {| provider_id := profile_provider_id (attempt_profile a);
             model_id := profile_model_id (attempt_profile a);
             stop_reason := final_stop_reason final;
             raw_stop_reason := final_raw_stop_reason final;
             metadata_usage := final_usage final; metadata_error := None;
             context_overflow := false |} None |}.

(** The failure a model error stands for; [display] is the error's [Display]. *)
Definition failure_of (display : ModelError R -> string) (error : ModelError R) : ModelFailure R :=
  match error with
  | Preflight failure | Request failure | Stream failure => failure
  | Unavailable summary | ModelProtocol summary => plain_failure summary NonRetryable
  | AuthRequired _ | ModelCancelled => plain_failure (display error) NonRetryable
  end.

(** Terminal metadata, failure and cancellation by the way the stream ended. *)
Definition settled_cause (display : ModelError R -> string) (a : AssistantAttempt) (s : Settlement)
  : ModelFinal * option (ModelFailure R) * bool * TimestampMs :=
  match s with
  | SettleCompleted at_ms =>
      match attempt_final a with
      | Some final => (final, None, false, at_ms)
      | None =>
          (terminal_final StopError,
           Some (plain_failure "model stream ended without terminal metadata" Retryable),
           false, at_ms)
      end
  | SettleFailed ModelCancelled at_ms => (terminal_final StopCancelled, None, true, at_ms)
  | SettleFailed error at_ms =>
      (terminal_final StopError, Some (failure_of display error), false, at_ms)
  | SettleCancelled at_ms => (terminal_final StopCancelled, None, true, at_ms)
  end.

Definition with_usage (u : ModelUsage R) (f : ModelFinal) : ModelFinal :=
  {| final_stop_reason := final_stop_reason f; final_raw_stop_reason := final_raw_stop_reason f;
     final_usage := u; final_message := final_message f |}.

(** What the failed response reported, else what the stream had reported. *)
Definition reported (a : AssistantAttempt) (failure : option (ModelFailure R))
  : option (ModelUsage R) :=
  match failure ≫= failure_usage with
  | Some usage => Some usage
  | None => final_usage <$> attempt_final a
  end.

(** [AssistantAttempt::settle] *)
Definition settle (display : ModelError R -> string) (a : AssistantAttempt) (s : Settlement)
  : result AttemptResult (ModelError R) :=
  let '(final, failure, cancelled, settled_at_ms) := settled_cause display a s in
  let final :=
    if cancelled || bool_decide (is_Some failure)
    then match reported a failure with Some usage => with_usage usage final | None => final end
    else final in
  let? blocks := match final_message final with
                 | Some native => native_blocks native
                 | None => Ok (attempt_blocks a)
                 end in
  let blocks := match blocks, final_message final with
                | [], None => [Text ""]
                | _, _ => blocks
                end in
  let? timing := attempt_timing a settled_at_ms in
  let message :=
    {| identity := attempt_identity a; timing := timing;
       content := Assistant blocks
         {| provider_id := profile_provider_id (attempt_profile a);
            model_id := profile_model_id (attempt_profile a);
            stop_reason := final_stop_reason final;
            raw_stop_reason := final_raw_stop_reason final;
            metadata_usage := final_usage final;
            metadata_error := failure_summary <$> failure;
            context_overflow :=
              match failure with Some f => failure_overflow f | None => false end |}
         (final_message final) |} in
  Ok (if cancelled then AttemptCancelled message
      else match failure with
           | Some failure => AttemptFailed message failure
           | None => AttemptCompleted message
           end).

(** The loop of [stream_assistant] over an acquired stream: events with their
    times until the stream ends, fails or is cancelled. *)
Inductive StreamItem : Type :=
| Event (event : ModelStreamEvent) (at_ms : TimestampMs)
| StreamError (error : ModelError R) (at_ms : TimestampMs)
| SessionCancelled (at_ms : TimestampMs)
| StreamEnd (at_ms : TimestampMs).

(** [late] is the clock when [apply] refuses an event. *)
Fixpoint stream_loop (late : TimestampMs) (items : list StreamItem) (a : AssistantAttempt)
  : option Settlement * AssistantAttempt :=
  match items with
  | [] => (None, a)
  | Event event at_ms :: items =>
      match apply_event event at_ms a with
      | (Ok _, a) => stream_loop late items a
      | (Err error, a) => (Some (SettleFailed error late), a)
      end
  | StreamError error at_ms :: _ => (Some (SettleFailed error at_ms), a)
  | SessionCancelled at_ms :: _ => (Some (SettleCancelled at_ms), a)
  | StreamEnd at_ms :: _ => (Some (SettleCompleted at_ms), a)
  end.

End Attempt.
Arguments ModelFinal R : clear implicits.
Arguments ModelStreamEvent R : clear implicits.
Arguments AssistantAttempt R : clear implicits.
Arguments Settlement R : clear implicits.
Arguments AttemptResult R : clear implicits.
Arguments StreamItem R : clear implicits.
