(* ===== verification/Queue.v ===== *)
(** The pending queue of one session: its two scheduling lanes, the durable
    records that mirror it and the waiters its items answer.
    [crates/kernel/src/runtime/run/queue.rs], [queue/operations.rs],
    [insertion.rs], the queue part of [lifecycle.rs] and
    [crates/protocol/src/queue.rs].

    Each operation is one critical section of the queue lock.  Generated
    identifiers are arguments. *)

From S2P Require Import Prelude Scalar Json Message StoreModel StoreState ToolContract KernelErrors Plan.
From S2P Require Import Replay Transcript.
Open Scope string_scope.
Open Scope rust_scope.

Inductive QueueKind : Type := Steering | FollowUp.

#[export] Instance queue_kind_eq_dec : EqDecision QueueKind.
Proof. solve_decision. Defined.

#[export] Instance to_value_queue_kind : ToValue QueueKind := fun k =>
  JString (match k with Steering => "steering" | FollowUp => "followUp" end).
#[export] Instance from_value_queue_kind : FromValue QueueKind := fun v =>
  match v with
  | JString "steering" => Ok Steering
  | JString "followUp" => Ok FollowUp
  | _ => Err (JsonError "unknown queue kind")
  end.
#[export] Instance roundtrip_queue_kind : Roundtrip QueueKind.
Proof. by intros []. Qed.

(** [WhenBusy], its default and its conversions *)
Inductive WhenBusy : Type := Steer | BusyFollowUp.
Definition when_busy_default : WhenBusy := BusyFollowUp.
Definition queue_kind_from (w : WhenBusy) : QueueKind :=
  match w with Steer => Steering | BusyFollowUp => FollowUp end.

Inductive QueueCancellationReason : Type := Consumed | Removed | Cleared | Withdrawn.

#[export] Instance to_value_reason : ToValue QueueCancellationReason := fun r =>
  JString (match r with
           | Consumed => "consumed" | Removed => "removed"
           | Cleared => "cleared" | Withdrawn => "withdrawn"
           end).
#[export] Instance from_value_reason : FromValue QueueCancellationReason := fun v =>
  match v with
  | JString "consumed" => Ok Consumed
  | JString "removed" => Ok Removed
  | JString "cleared" => Ok Cleared
  | JString "withdrawn" => Ok Withdrawn
  | _ => Err (JsonError "unknown cancellation reason")
  end.
#[export] Instance roundtrip_reason : Roundtrip QueueCancellationReason.
Proof. by intros []. Qed.

(** ** Waiters: each is a one-shot sender some client may still listen to. *)

Inductive AnswerOutcome : Type :=
| AnswerCompleted
| AnswerCancelled
| AnswerFailed (message : string).

Record SubmissionAnswer : Type := {
  answer_message_id : option MessageId;
  answer_text : string;
  answer_outcome : AnswerOutcome
}.

(** [SubmissionAnswer::cancelled] *)
Definition answer_cancelled : SubmissionAnswer :=
  {| answer_message_id := None; answer_text := ""; answer_outcome := AnswerCancelled |}.

Inductive WaiterAnswer : Type :=
| AnswerInserted (message_id : MessageId)
| AnswerResolved (answer : SubmissionAnswer)
| AnswerRejected (error : KernelError).

(** The sender half, whether its receiver is alive, and what was sent. *)
Record Waiter : Type := {
  sender : bool;
  receiver_alive : bool;
  answers : list WaiterAnswer
}.

Definition waiter_new : Waiter :=
  {| sender := true; receiver_alive := true; answers := [] |}.

(** [InsertionNotice::is_listening] *)
Definition is_listening (w : Waiter) : bool := sender w && receiver_alive w.

(** [InsertionNotice::settle] and the receipt's [resolve]/[reject]: the first
    outcome takes the sender; later ones do nothing. *)
Definition settle (answer : WaiterAnswer) (w : Waiter) : Waiter :=
  if sender w then
    {| sender := false; receiver_alive := receiver_alive w;
       answers := if receiver_alive w then [answer] else [] |}
  else w.

Inductive QueueWaiter : Type :=
| WaitInsertion (n : nat)
| WaitReceipt (n : nat).

Section Queue.
Context {R : RigTypes} {CC : ContentCodec R}.
Context (display : KernelError -> string).

Record QueuedMessage : Type := {
  queue_id : QueueId;
  queued_kind : QueueKind;
  queued_message : AgentMessage R;
  submission_id : option string
}.

Record PendingQueueItem : Type := {
  queued : QueuedMessage;
  item_entry_id : EntryId;
  waiter : option QueueWaiter
}.

(** [PendingQueueItem::new] *)
Definition item_new (q : QueuedMessage) (e : EntryId) : PendingQueueItem :=
  {| queued := q; item_entry_id := e; waiter := None |}.

Definition item_id (i : PendingQueueItem) : QueueId := queue_id (queued i).
Definition item_kind (i : PendingQueueItem) : QueueKind := queued_kind (queued i).

Record PendingQueue : Type := {
  open : bool;
  steering : list PendingQueueItem;
  follow_up : list PendingQueueItem
}.

Definition queue_default : PendingQueue := {| open := false; steering := []; follow_up := [] |}.

Definition with_open (b : bool) (q : PendingQueue) : PendingQueue :=
  {| open := b; steering := steering q; follow_up := follow_up q |}.

(** ** [PendingQueue]'s own operations *)

Definition queue_push (i : PendingQueueItem) (q : PendingQueue) : PendingQueue :=
  match item_kind i with
  | Steering => {| open := open q; steering := (steering q ++ [i])%list;
                   follow_up := follow_up q |}
  | FollowUp => {| open := open q; steering := steering q;
                   follow_up := (follow_up q ++ [i])%list |}
  end.

(** The drop of an uncommitted claim puts it back at the front of its lane. *)
Definition queue_push_front (i : PendingQueueItem) (q : PendingQueue) : PendingQueue :=
  match item_kind i with
  | Steering => {| open := open q; steering := i :: steering q; follow_up := follow_up q |}
  | FollowUp => {| open := open q; steering := steering q; follow_up := i :: follow_up q |}
  end.

(** The first item of a lane with the given identifier, and the lane without it. *)
Fixpoint take_item (id : QueueId) (l : list PendingQueueItem)
  : option (PendingQueueItem * list PendingQueueItem) :=
  match l with
  | [] => None
  | i :: r =>
      if bool_decide (item_id i = id) then Some (i, r)
      else match take_item id r with
           | Some (x, r') => Some (x, i :: r')
           | None => None
           end
  end.

(** [PendingQueue::remove] *)
Definition queue_remove (id : QueueId) (q : PendingQueue)
  : option PendingQueueItem * PendingQueue :=
  match take_item id (steering q) with
  | Some (i, r) => (Some i, {| open := open q; steering := r; follow_up := follow_up q |})
  | None =>
      match take_item id (follow_up q) with
      | Some (i, r) => (Some i, {| open := open q; steering := steering q; follow_up := r |})
      | None => (None, q)
      end
  end.

Definition items (q : PendingQueue) : list PendingQueueItem :=
  (steering q ++ follow_up q)%list.

(** [PendingQueue::ids], [is_empty], [snapshot] *)
Definition ids (q : PendingQueue) : list QueueId := item_id <$> items q.
Definition is_empty (q : PendingQueue) : bool :=
  match steering q, follow_up q with [], [] => true | _, _ => false end.

Record PendingMessages : Type := {
  pending_steering : list QueuedMessage;
  pending_follow_up : list QueuedMessage
}.
Definition snapshot (q : PendingQueue) : PendingMessages :=
  {| pending_steering := queued <$> steering q;
     pending_follow_up := queued <$> follow_up q |}.

(** ** Durable records *)

(** [QueuedMessage]'s encoding, absent when its message has none. *)
Definition queued_object (q : QueuedMessage) : result json_map json_error :=
  let? message := message_to_value (queued_message q) in
  Ok (<["queueId" := to_value (queue_id q)]>
     (<["kind" := to_value (queued_kind q)]>
     (<["message" := message]> (skip_none "submissionId" (submission_id q))))).

#[export] Instance queued_from_value : FromValue QueuedMessage := fun v =>
  let? o := as_object v in
  let? id := field "queueId" o in
  let? kind := field "kind" o in
  let? message := field "message" o in
  let? submission := opt_field "submissionId" o in
  Ok {| queue_id := id; queued_kind := kind; queued_message := message;
        submission_id := submission |}.

(** [PendingQueueItem::enqueued_payload] *)
Definition enqueued_payload (i : PendingQueueItem) : result json_map KernelError :=
  map_err (fun e => Store (Json e))
    (let? q := queued_object (queued i) in
     Ok (<["queue" := JObject q]>
        (<["queueId" := to_value (item_id i)]>
        (<["target" := to_value (item_kind i)]>
        {[ "entryId" := to_value (item_entry_id i) ]})))).

Record QueueEnqueuedData : Type := {
  enqueued_queue : QueuedMessage;
  enqueued_id : QueueId;
  enqueued_target : QueueKind;
  enqueued_entry : EntryId
}.

#[export] Instance enqueued_from_value : FromValue QueueEnqueuedData := fun v =>
  let? o := as_object v in
  let? queue := field "queue" o in
  let? id := field "queueId" o in
  let? target := field "target" o in
  let? entry := field "entryId" o in
  Ok {| enqueued_queue := queue; enqueued_id := id; enqueued_target := target;
        enqueued_entry := entry |}.

(** [cancelled_payload] *)
Definition cancelled_payload (id : QueueId) (reason : QueueCancellationReason) : json_map :=
  <["queueId" := to_value id]> {[ "reason" := to_value reason ]}.

(** [QueueCancelledData], of which replay uses the identifier. *)
Definition cancelled_id (v : json) : result QueueId json_error :=
  let? o := as_object v in
  let? id := field "queueId" o in
  let? _ := field (T := QueueCancellationReason) "reason" o in
  Ok id.

(** One record of [from_records]'s loop. *)
Definition replay_record (q : PendingQueue) (r : SessionRecord)
  : result PendingQueue KernelError :=
  match record_kind r with
  | QueueEnqueued =>
      let? data := map_err (fun e => Store (Json e))
                     (from_value (T := QueueEnqueuedData) (JObject (record_payload r))) in
      if negb (bool_decide (queue_id (enqueued_queue data) = enqueued_id data))
         || negb (bool_decide (queued_kind (enqueued_queue data) = enqueued_target data))
      then Err (Protocol "queue record correlation fields disagree")
      else Ok (queue_push (item_new (enqueued_queue data) (enqueued_entry data))
                 (queue_remove (enqueued_id data) q).2)
  | QueueCancelled =>
      let? id := map_err (fun e => Store (Json e)) (cancelled_id (JObject (record_payload r))) in
      Ok (queue_remove id q).2
  | _ => Ok q
  end.

Fixpoint replay_records (q : PendingQueue) (rs : list SessionRecord)
  : result PendingQueue KernelError :=
  match rs with
  | [] => Ok q
  | r :: rest => let? q' := replay_record q r in replay_records q' rest
  end.

(** [PendingQueue::from_records] *)
Definition from_records (rs : list SessionRecord) : result PendingQueue KernelError :=
  replay_records queue_default rs.

(** The loop of [restore] over the recovered identifiers. *)
Fixpoint restore_loop (written : EntryId -> bool) (l : list QueueId) (q : PendingQueue)
  : PendingQueue :=
  match l with
  | [] => q
  | id :: r =>
      match queue_remove id q with
      | (Some i, q') =>
          restore_loop written r (if written (item_entry_id i) then q' else queue_push i q')
      | (None, q') => restore_loop written r q'
      end
  end.

(** [PendingQueue::restore] *)
Definition restore {S} `{SessionStore S} (s : S) : result PendingQueue KernelError :=
  let? q := from_records (records s) in
  Ok (restore_loop (fun e => bool_decide (is_Some (get_entry s e))) (ids q) q).

(** ** A session's queue operations *)

Context {S : Type} `{SessionStore S}.

(** The state they touch: the transcript, the queue, the claim in flight, the
    waiters, the receipts of the current run and the cancellation flag. *)
Record QueueSession : Type := {
  transcript : SessionTranscript R S;
  queue : PendingQueue;
  waiters : gmap nat Waiter;
  submissions : list nat;
  cancelled : bool
}.

Abbreviation Q := QueueSession.
Abbreviation K := (M QueueSession KernelError).

Definition set_queue (q : PendingQueue) (s : Q) : Q :=
  {| transcript := transcript s; queue := q; waiters := waiters s;
     submissions := submissions s; cancelled := cancelled s |}.
Definition set_transcript (t : SessionTranscript R S) (s : Q) : Q :=
  {| transcript := t; queue := queue s; waiters := waiters s;
     submissions := submissions s; cancelled := cancelled s |}.
Definition set_waiters (w : gmap nat Waiter) (s : Q) : Q :=
  {| transcript := transcript s; queue := queue s; waiters := w;
     submissions := submissions s; cancelled := cancelled s |}.

Definition on_transcript {A} (c : M (SessionTranscript R S) KernelError A) : K A := fun s =>
  let '(r, t) := c (transcript s) in (r, set_transcript t s).

Definition settle_waiter (n : nat) (answer : WaiterAnswer) (s : Q) : Q :=
  set_waiters (alter (settle answer) n (waiters s)) s.

(** [PendingQueueItem::reject] *)
Definition reject (error : KernelError) (s : Q) (i : PendingQueueItem) : Q :=
  match waiter i with
  | Some (WaitInsertion n) => settle_waiter n (AnswerRejected (for_insertion display error)) s
  | Some (WaitReceipt n) =>
      match error with
      | PromptCancelled => settle_waiter n (AnswerResolved answer_cancelled) s
      | error => settle_waiter n (AnswerRejected (for_insertion display error)) s
      end
  | None => s
  end.

Definition reject_all (error : KernelError) (l : list PendingQueueItem) (s : Q) : Q :=
  foldl (reject error) s l.

Definition modify (f : Q -> Q) : K unit := fun s => (Ok tt, f s).

(** [open_queue], [close_queue] *)
Definition open_queue : K unit :=
  modify (fun s => set_queue (with_open (negb (cancelled s)) (queue s)) s).
Definition close_queue : K unit :=
  modify (fun s => set_queue (with_open false (queue s)) s).

(** [claim_next_or_close] *)
Definition claim_next_or_close (allow_follow_up : bool) : K (option PendingQueueItem) :=
  fun s =>
    let q := queue s in
    match steering q with
    | i :: r => (Ok (Some i), set_queue {| open := open q; steering := r;
                                           follow_up := follow_up q |} s)
    | [] =>
        if allow_follow_up then
          match follow_up q with
          | i :: r => (Ok (Some i), set_queue {| open := open q; steering := [];
                                                 follow_up := r |} s)
          | [] => (Ok None, set_queue (with_open false q) s)
          end
        else (Ok None, s)
    end.

(** [Drop for ClaimedItem] of an uncommitted claim *)
Definition drop_claim (i : PendingQueueItem) (s : Q) : Q :=
  set_queue (queue_push_front i (queue s)) s.

Definition queue_record (id : RecordId) (run : option RunId) (kind : RecordKind)
  (payload : json_map) (s : Q) : NewRecord :=
  {| new_record_id := id; new_record_lane := transcript_lane (transcript s);
     new_record_run_id := run; new_record_kind := kind;
     new_record_payload := JObject payload |}.

(** [queue_cancellation_record] *)
Definition queue_cancellation_record (id : RecordId) (run : option RunId)
  (queue_id : QueueId) (reason : QueueCancellationReason) (s : Q) : NewRecord :=
  queue_record id run QueueCancelled (cancelled_payload queue_id reason) s.

(** [Session::enqueue_pending]; [cancel_requested] is the caller's token. *)
Definition enqueue_pending (record : NewRecord) (i : PendingQueueItem)
  (cancel_requested : bool) : K unit :=
  let! s := m_get in
  if cancel_requested then m_fail PromptCancelled
  else if negb (open (queue s)) then
    m_fail (SessionNotRunning (store_session_id (transcript_store (transcript s))))
  else
    let! _ := on_transcript (commit_records [record]) in
    modify (fun s => set_queue (queue_push i (queue s)) s).

(** The end of [Kernel::enqueue], once the message and identifiers are made. *)
Definition enqueue (record_id : RecordId) (run : RunId) (i : PendingQueueItem)
  (cancel_requested : bool) : K unit :=
  let! payload := m_lift (enqueued_payload i) in
  let! s := m_get in
  enqueue_pending (queue_record record_id (Some run) QueueEnqueued payload s) i
    cancel_requested.

(** [Session::remove_pending] *)
Definition remove_pending (record : NewRecord) (id : QueueId) : K unit :=
  let! s := m_get in
  if negb (bool_decide (id ∈ ids (queue s))) then m_ret tt
  else
    let! _ := on_transcript (commit_records [record]) in
    modify (fun s =>
      match queue_remove id (queue s) with
      | (Some i, q) => reject PromptCancelled (set_queue q s) i
      | (None, q) => set_queue q s
      end).

(** [Kernel::remove_pending_message] *)
Definition remove_pending_message (record_id : RecordId) (id : QueueId) : K unit :=
  let! s := m_get in
  if negb (bool_decide (id ∈ ids (queue s))) then m_ret tt
  else remove_pending (queue_cancellation_record record_id None id Removed s) id.

Definition cancellation_records (record_ids : list RecordId) (l : list QueueId)
  (reason : QueueCancellationReason) (s : Q) : list NewRecord :=
  zip_with (fun r id => queue_cancellation_record r None id reason s) record_ids l.

(** [Kernel::clear_pending_messages]; [record_ids] gives one identifier for
    each pending item. *)
Definition clear_pending_messages (record_ids : list RecordId) : K unit :=
  let! s := m_get in
  let! _ := on_transcript (commit_records
              (cancellation_records record_ids (ids (queue s)) Cleared s)) in
  modify (fun s =>
    let q := queue s in
    reject_all PromptCancelled (items q)
      (set_queue {| open := open q; steering := []; follow_up := [] |} s)).

Definition with_kind (k : QueueKind) (i : PendingQueueItem) : PendingQueueItem :=
  {| queued := {| queue_id := queue_id (queued i); queued_kind := k;
                  queued_message := queued_message (queued i);
                  submission_id := submission_id (queued i) |};
     item_entry_id := item_entry_id i; waiter := waiter i |}.

(** [Kernel::promote_pending_message] *)
Definition promote_pending_message (record_id : RecordId) (id : QueueId) : K bool :=
  let! s := m_get in
  if existsb (fun i => bool_decide (item_id i = id)) (steering (queue s)) then m_ret true
  else match take_item id (follow_up (queue s)) with
  | None => m_ret false
  | Some (i, _) =>
      let promoted := with_kind Steering i in
      let! payload := m_lift (enqueued_payload promoted) in
      let! _ := on_transcript (commit_records
                  [queue_record record_id None QueueEnqueued payload s]) in
      let! _ := modify (fun s =>
                  set_queue (queue_push promoted (queue_remove id (queue s)).2) s) in
      m_ret true
  end.

(** Whether [withdraw_pending] takes an item. *)
Definition withdrawable (ws : gmap nat Waiter) (i : PendingQueueItem) : bool :=
  match waiter i with
  | Some (WaitInsertion n) => from_option is_listening false (ws !! n)
  | Some (WaitReceipt _) => true
  | None => false
  end.

Definition withdraw_one (s : Q) (id : QueueId) : Q :=
  match queue_remove id (queue s) with
  | (Some i, q) => reject PromptCancelled (set_queue q s) i
  | (None, q) => set_queue q s
  end.

(** [Kernel::withdraw_pending] *)
Definition withdraw_pending (record_ids : list RecordId) : K unit :=
  let! _ := close_queue in
  let! s := m_get in
  let l := item_id <$> filter (fun i => withdrawable (waiters s) i = true) (items (queue s)) in
  match l with
  | [] => m_ret tt
  | _ => fun s =>
      match on_transcript (commit_records (cancellation_records record_ids l Withdrawn s)) s with
      | (Ok _, s') => (Ok tt, foldl withdraw_one s' l)
      | (Err error, s') =>
          (Err error,
           reject_all error (filter (fun i => item_id i ∈ l) (items (queue s'))) s')
      end
  end.

(** [Session::consume_claimed] *)
Definition consume_claimed (claimed : PendingQueueItem) (message : AgentMessage R)
  (record : NewRecord) : K unit := fun s =>
  if cancelled s then (Err PromptCancelled, drop_claim claimed s)
  else match on_transcript (commit_consumed (item_entry_id claimed) message record) s with
  | (Err error, s') => (Err error, reject error s' claimed)
  | (Ok _, s') =>
      match waiter claimed with
      | Some (WaitInsertion n) =>
          (Ok tt, settle_waiter n (AnswerInserted (message_id (identity message))) s')
      | Some (WaitReceipt n) =>
          (Ok tt, {| transcript := transcript s'; queue := queue s'; waiters := waiters s';
                     submissions := (submissions s' ++ [n])%list; cancelled := cancelled s' |})
      | None => (Ok tt, s')
      end
  end.

(** [settle_submissions] *)
Definition settle_submissions (answer : SubmissionAnswer) : K unit :=
  modify (fun s =>
    foldl (fun s n => settle_waiter n (AnswerResolved answer) s)
      {| transcript := transcript s; queue := queue s; waiters := waiters s;
         submissions := []; cancelled := cancelled s |}
      (submissions s)).

(** [cancel]: stops the operation and the queue's acceptance. *)
Definition cancel : K unit :=
  modify (fun s => set_queue (with_open false (queue s))
    {| transcript := transcript s; queue := queue s; waiters := waiters s;
       submissions := submissions s; cancelled := true |}).

End Queue.

Arguments QueuedMessage R : clear implicits.
Arguments PendingQueueItem R : clear implicits.
Arguments PendingQueue R : clear implicits.
Arguments QueueSession R S : clear implicits.
