(* ===== verification/QueueReplay.v ===== *)
(** The durable queue records replay to the queue they mirror: scheduling,
    recovery and the step relation of a session's queue. *)

From S2P Require Import Prelude Scalar Json Message StoreModel StoreState ToolContract KernelErrors Plan.
From S2P Require Import Replay Transcript Aligned Queue.
Open Scope string_scope.
Open Scope rust_scope.

Section Replay.
Context {R : RigTypes} {CC : ContentCodec R}.
Abbreviation Item := (PendingQueueItem R).
Abbreviation Queue := (PendingQueue R).

(** ** Well-formed queues *)

Record queue_ok (q : Queue) : Prop := {
  ok_ids : NoDup (ids q);
  ok_steering : Forall (fun i => item_kind i = Steering) (steering q);
  ok_follow_up : Forall (fun i => item_kind i = FollowUp) (follow_up q)
}.

Definition strip (i : Item) : Item := item_new (queued i) (item_entry_id i).

(** The queue as its records see it: no waiters, and no open flag. *)
Definition strip_queue (q : Queue) : Queue :=
  {| open := false; steering := strip <$> steering q; follow_up := strip <$> follow_up q |}.

Definition lane_without (id : QueueId) (l : list Item) : list Item :=
  filter (fun i => item_id i <> id) l.

Lemma take_item_some id l i r :
  take_item id l = Some (i, r) ->
  item_id i = id /\ exists a b, l = (a ++ i :: b)%list /\ r = (a ++ b)%list.
Proof.
  revert i r. induction l as [|x l IH]; intros i r H; [done|]. simpl in H.
  case_bool_decide as Hx.
  - injection H as <- <-. split; [done|]. by exists [], l.
  - destruct (take_item id l) as [[y r']|]; [|done]. injection H as <- <-.
    destruct (IH _ _ eq_refl) as (Hid & a & b & -> & ->). split; [done|]. by exists (x :: a), b.
Qed.

Lemma take_item_none id l : take_item id l = None <-> id ∉ item_id <$> l.
Proof.
  induction l as [|x l IH]; simpl.
  - split; [|done]. intros _. apply not_elem_of_nil.
  - case_bool_decide as Hx.
    + split; [done|]. intros H. exfalso. apply H. rewrite Hx. apply list_elem_of_here.
    + rewrite not_elem_of_cons. destruct (take_item id l) as [[y r]|].
      * split; [done|]. intros [_ H]. by apply IH in H.
      * split; [|done]. intros _. split; [done|by apply IH].
Qed.

Lemma lane_without_absent id l : id ∉ item_id <$> l -> lane_without id l = l.
Proof.
  induction l as [|x l IH]; [done|]. rewrite fmap_cons, not_elem_of_cons. intros [Hx Hl].
  unfold lane_without. rewrite filter_cons_True by done. f_equal. by apply IH.
Qed.

(** With distinct identifiers, taking an item leaves the other items. *)
Lemma take_item_without id l i r :
  NoDup (item_id <$> l) -> take_item id l = Some (i, r) ->
  r = lane_without id l /\ item_id i = id /\ i ∈ l.
Proof.
  intros Hnd (Hid & a & b & -> & ->)%take_item_some.
  rewrite fmap_app, fmap_cons in Hnd. apply NoDup_app in Hnd as (_ & Hdis & Hb).
  apply NoDup_cons in Hb as [Hib _]. split; [|split; [done|]].
  - unfold lane_without. rewrite filter_app, filter_cons_False by (intros H; by apply H).
    f_equal; symmetry; apply lane_without_absent.
    + intros Ha. apply (Hdis id Ha). rewrite <- Hid. apply list_elem_of_here.
    + by rewrite <- Hid.
  - rewrite elem_of_app. right. apply list_elem_of_here.
Qed.

Lemma ids_app (q : Queue) : ids q = ((item_id <$> steering q) ++ (item_id <$> follow_up q))%list.
Proof. unfold ids, items. by rewrite fmap_app. Qed.

(** Removing is filtering both lanes. *)
Lemma queue_remove_spec id q :
  queue_ok q ->
  (queue_remove id q).2 =
    {| open := open q; steering := lane_without id (steering q);
       follow_up := lane_without id (follow_up q) |} /\
  match (queue_remove id q).1 with
  | Some i => item_id i = id /\ i ∈ items q
  | None => id ∉ ids q
  end.
Proof.
  intros [Hnd _ _]. rewrite ids_app in Hnd. apply NoDup_app in Hnd as (Hs & Hdis & Hf).
  unfold queue_remove. destruct (take_item id (steering q)) as [[i r]|] eqn:Ht.
  - destruct (take_item_without _ _ _ _ Hs Ht) as (-> & Hid & Hin). simpl.
    split; [|split; [done|by apply elem_of_app; left]]. f_equal. symmetry.
    apply lane_without_absent. apply Hdis. rewrite <- Hid. by apply list_elem_of_fmap_2.
  - apply take_item_none in Ht. destruct (take_item id (follow_up q)) as [[i r]|] eqn:Hu.
    + destruct (take_item_without _ _ _ _ Hf Hu) as (-> & Hid & Hin). simpl.
      split; [|split; [done|by apply elem_of_app; right]]. f_equal. symmetry.
      by apply lane_without_absent.
    + apply take_item_none in Hu. simpl. rewrite !lane_without_absent by done.
      split; [by destruct q|]. rewrite ids_app, elem_of_app. tauto.
Qed.

Lemma lane_without_sub id l : lane_without id l `sublist_of` l.
Proof. apply sublist_filter. Qed.

Lemma sublist_nodup {A} (l k : list A) : sublist l k -> NoDup k -> NoDup l.
Proof. intros Hs Hk. by eapply sublist_NoDup. Qed.

Lemma Forall_lane_without (P : Item -> Prop) id l : Forall P l -> Forall P (lane_without id l).
Proof.
  rewrite !Forall_forall. intros H i [_ Hi]%list_elem_of_filter. by apply H.
Qed.

Lemma queue_ok_without id q : queue_ok q ->
  queue_ok {| open := open q; steering := lane_without id (steering q);
              follow_up := lane_without id (follow_up q) |}.
Proof.
  intros [Hnd Hs Hf]. split; simpl.
  - rewrite ids_app in *. simpl. eapply sublist_nodup; [|exact Hnd].
    apply sublist_app; apply fmap_sublist, lane_without_sub.
  - by apply Forall_lane_without.
  - by apply Forall_lane_without.
Qed.

Lemma queue_ok_remove id q : queue_ok q -> queue_ok (queue_remove id q).2.
Proof. intros Hok. destruct (queue_remove_spec id q Hok) as [-> _]. by apply queue_ok_without. Qed.

Lemma ids_push i q : ids (queue_push i q) ≡ₚ item_id i :: ids q.
Proof.
  rewrite !ids_app. unfold queue_push. destruct (item_kind i); simpl; rewrite fmap_app; simpl.
  - rewrite <- app_assoc. simpl. by rewrite Permutation_middle.
  - rewrite app_assoc. by rewrite <- Permutation_cons_append.
Qed.

Lemma ids_push_front i q : ids (queue_push_front i q) ≡ₚ item_id i :: ids q.
Proof.
  rewrite !ids_app. unfold queue_push_front. destruct (item_kind i); simpl.
  - done.
  - by rewrite Permutation_middle.
Qed.

Lemma queue_ok_push i q : queue_ok q -> item_id i ∉ ids q -> queue_ok (queue_push i q).
Proof.
  intros [Hnd Hs Hf] Hi. split.
  - rewrite ids_push. by constructor.
  - unfold queue_push. destruct (item_kind i) eqn:Hk; simpl; [|done].
    apply Forall_app. split; [done|by constructor].
  - unfold queue_push. destruct (item_kind i) eqn:Hk; simpl; [done|].
    apply Forall_app. split; [done|by constructor].
Qed.

Lemma queue_ok_push_front i q :
  queue_ok q -> item_id i ∉ ids q -> queue_ok (queue_push_front i q).
Proof.
  intros [Hnd Hs Hf] Hi. split.
  - rewrite ids_push_front. by constructor.
  - unfold queue_push_front. destruct (item_kind i) eqn:Hk; simpl; [by constructor|done].
  - unfold queue_push_front. destruct (item_kind i) eqn:Hk; simpl; [done|by constructor].
Qed.

(** ** Recovery *)

Definition queue_filter (keep : Item -> bool) (q : Queue) : Queue :=
  {| open := open q; steering := filter (fun i => keep i = true) (steering q);
     follow_up := filter (fun i => keep i = true) (follow_up q) |}.

(** Both lanes after the loop has cycled through a prefix of the recovered
    items: what is left, then what was kept. *)
Lemma restore_loop_lanes written b s1 s2 f1 f2 :
  let keep := fun i : Item => negb (written (item_entry_id i)) in
  queue_ok {| open := b; steering := (s1 ++ s2)%list; follow_up := (f1 ++ f2)%list |} ->
  restore_loop written (item_id <$> (s1 ++ f1)%list)
    {| open := b; steering := (s1 ++ s2)%list; follow_up := (f1 ++ f2)%list |} =
  {| open := b; steering := (s2 ++ filter (fun i => keep i = true) s1)%list;
     follow_up := (f2 ++ filter (fun i => keep i = true) f1)%list |}.
Proof.
  intros keep. revert s2 f2. induction s1 as [|x s1 IHs]; [|].
  - induction f1 as [|x f1 IHf]; intros s2 f2 Hok; [by rewrite !app_nil_r|].
    pose proof Hok as [Hnd Hs Hf]. rewrite ids_app in Hnd. simpl in *.
    apply NoDup_app in Hnd as (_ & Hdis & Hnd). apply NoDup_cons in Hnd as [Hx Hnd].
    assert (take_item (item_id x) s2 = None) as Ht.
    { apply take_item_none. intros Hin. apply (Hdis _ Hin), list_elem_of_here. }
    unfold queue_remove. simpl. rewrite Ht. rewrite bool_decide_eq_true_2 by done. simpl.
    inversion Hf as [|? ? Hkx Hf']; subst.
    assert (queue_ok {| open := b; steering := s2; follow_up := (f1 ++ f2)%list |}) as Hok'.
    { pose proof (queue_ok_remove (item_id x) _ Hok) as H. unfold queue_remove in H.
      simpl in H. by rewrite Ht, bool_decide_eq_true_2 in H. }
    destruct (written (item_entry_id x)) eqn:Hw;
      [rewrite (filter_cons_False (fun i => keep i = true)) by (unfold keep; by rewrite Hw)
      |rewrite (filter_cons_True (fun i => keep i = true)) by (unfold keep; by rewrite Hw)].
    + by apply (IHf s2 f2).
    + unfold queue_push. rewrite Hkx. simpl. rewrite <- app_assoc.
      eapply eq_trans; [apply (IHf s2 (f2 ++ [x])%list)|by rewrite <- app_assoc].
      pose proof (queue_ok_push x _ Hok') as H. unfold queue_push in H. rewrite Hkx in H.
        simpl in H. rewrite <- app_assoc in H. apply H. rewrite ids_app. simpl.
        rewrite elem_of_app. intros [Hin|Hin]; [|done].
        apply (Hdis _ Hin), list_elem_of_here.
  - intros s2 f2 Hok. pose proof Hok as [Hnd Hs Hf]. simpl in *.
    unfold queue_remove. simpl. rewrite bool_decide_eq_true_2 by done. simpl.
    inversion Hs as [|? ? Hkx Hs']; subst.
    assert (queue_ok {| open := b; steering := (s1 ++ s2)%list; follow_up := (f1 ++ f2)%list |}) as Hok'.
    { pose proof (queue_ok_remove (item_id x) _ Hok) as H. unfold queue_remove in H.
      simpl in H. by rewrite bool_decide_eq_true_2 in H. }
    destruct (written (item_entry_id x)) eqn:Hw;
      [rewrite (filter_cons_False (fun i => keep i = true)) by (unfold keep; by rewrite Hw)
      |rewrite (filter_cons_True (fun i => keep i = true)) by (unfold keep; by rewrite Hw)].
    + by apply (IHs s2 f2).
    + unfold queue_push. rewrite Hkx. simpl. rewrite <- app_assoc.
      eapply eq_trans; [apply (IHs (s2 ++ [x])%list f2)|by rewrite <- app_assoc].
      pose proof (queue_ok_push x _ Hok') as H. unfold queue_push in H. rewrite Hkx in H.
        simpl in H. rewrite <- app_assoc in H. apply H. clear H.
        rewrite ids_app in Hnd |- *. simpl in *. by apply NoDup_cons in Hnd as [? _].
Qed.

Lemma restore_loop_filter written q :
  queue_ok q ->
  restore_loop written (ids q) q = queue_filter (fun i => negb (written (item_entry_id i))) q.
Proof.
  intros Hok. destruct q as [b s f].
  pose proof (restore_loop_lanes written b s [] f []) as H. simpl in H.
  rewrite !app_nil_r in H. by apply H.
Qed.

(** ** Record payloads *)

Lemma queued_roundtrip (q : QueuedMessage R) :
  message_ok (queued_message q) -> exists o,
    queued_object q = Ok o /\ from_value (JObject o) = Ok q.
Proof.
  intros Hok. destruct (message_roundtrip _ Hok) as (m & _ & Hm & Hd).
  unfold queued_object. rewrite Hm. eexists. split; [done|].
  unfold from_value, queued_from_value, field, opt_field, skip_none.
  cbn [as_object result_bind]. destruct q as [i k msg [x|]]; simpl in *; simplify_map_eq;
    rewrite !from_to_value; cbn [result_bind]; by rewrite Hd.
Qed.

Lemma enqueued_roundtrip (i : Item) :
  message_ok (queued_message (queued i)) -> exists p,
    enqueued_payload i = Ok p /\ disjoint_keys record_fields p /\
    from_value (JObject p) =
      Ok {| enqueued_queue := queued i; enqueued_id := item_id i;
            enqueued_target := item_kind i; enqueued_entry := item_entry_id i |}.
Proof.
  intros Hok. destruct (queued_roundtrip _ Hok) as (o & Ho & Hd).
  unfold enqueued_payload. rewrite Ho. cbn [result_bind map_err]. eexists. split; [done|].
  split.
  - unfold disjoint_keys, record_fields. repeat constructor; by simplify_map_eq.
  - unfold from_value, enqueued_from_value, field. cbn [as_object result_bind].
    simplify_map_eq. rewrite Hd. cbn [result_bind]. by rewrite !from_to_value.
Qed.

Lemma cancelled_payload_ok id reason :
  disjoint_keys record_fields (cancelled_payload id reason) /\
  cancelled_id (JObject (cancelled_payload id reason)) = Ok id.
Proof.
  unfold cancelled_payload. split.
  - unfold disjoint_keys, record_fields. repeat constructor; by simplify_map_eq.
  - unfold cancelled_id, field. cbn [as_object result_bind]. simplify_map_eq.
    by rewrite !from_to_value.
Qed.

Lemma replay_records_app q (rs rs' : list SessionRecord) :
  replay_records (R := R) q (rs ++ rs')%list =
    (let? q' := replay_records q rs in replay_records q' rs').
Proof.
  revert q. induction rs as [|r rs IH]; intros q; [done|]. simpl.
  destruct (replay_record q r); [apply IH|done].
Qed.

Lemma replay_enqueued (q : Queue) (i : Item) p r :
  enqueued_payload i = Ok p -> message_ok (queued_message (queued i)) ->
  record_kind r = QueueEnqueued -> record_payload r = p ->
  replay_record q r = Ok (queue_push (strip i) (queue_remove (item_id i) q).2).
Proof.
  intros Hp Hok Hk Hpay. destruct (enqueued_roundtrip _ Hok) as (p' & Hp' & _ & Hd).
  rewrite Hp in Hp'. injection Hp' as <-. unfold replay_record.
  rewrite Hk, Hpay, Hd. cbn [map_err result_bind enqueued_queue enqueued_id enqueued_target].
  unfold item_id, item_kind. rewrite !bool_decide_eq_true_2 by done. done.
Qed.

Lemma replay_cancelled (q : Queue) id reason r :
  record_kind r = QueueCancelled -> record_payload r = cancelled_payload id reason ->
  replay_record q r = Ok (queue_remove id q).2.
Proof.
  intros Hk Hp. unfold replay_record. rewrite Hk, Hp.
  by rewrite (proj2 (cancelled_payload_ok id reason)).
Qed.

(** Records of other kinds leave the queue alone. *)
Definition queue_kind (k : RecordKind) : bool :=
  match k with QueueEnqueued | QueueCancelled => true | _ => false end.

Lemma replay_other (q : Queue) rs :
  Forall (fun r => queue_kind (record_kind r) = false) rs -> replay_records q rs = Ok q.
Proof.
  induction 1 as [|r rs Hr _ IH]; [done|]. simpl. unfold replay_record.
  by destruct (record_kind r).
Qed.

End Replay.
