(* ===== verification/QueueSteps.v ===== *)
(** A session's queue as a step relation: whatever interleaving of its
    operations, claims and crashes happens, recovery from the records gives the
    live queue with the claim in flight put back. *)

From S2P Require Import Prelude Scalar Json Message StoreModel StoreState ToolContract KernelErrors Plan.
From S2P Require Import Replay Transcript Aligned Queue.
From S2P Require Import QueueReplay.
Open Scope string_scope.
Open Scope rust_scope.

Section Algebra.
Context {R : RigTypes}.
Abbreviation Item := (PendingQueueItem R).
Abbreviation Queue := (PendingQueue R).

(** Both lanes without one identifier, and without several. *)
Definition queue_without (id : QueueId) (q : Queue) : Queue :=
  {| open := open q; steering := lane_without id (steering q);
     follow_up := lane_without id (follow_up q) |}.

Definition queue_without_all (l : list QueueId) (q : Queue) : Queue :=
  foldl (fun q id => queue_without id q) q l.

Lemma filter_comm {A} (P Q : A -> Prop) `{!forall x, Decision (P x), !forall x, Decision (Q x)}
  (l : list A) : filter P (filter Q l) = filter Q (filter P l).
Proof.
  rewrite !list_filter_filter. apply list_filter_iff. intros x. tauto.
Qed.

Lemma filter_without keep id q :
  queue_filter keep (queue_without id q) = queue_without id (queue_filter (R := R) keep q).
Proof. unfold queue_filter, queue_without, lane_without. simpl. f_equal; apply filter_comm. Qed.

Lemma fmap_strip_without id (l : list Item) :
  strip <$> lane_without id l = lane_without id (strip <$> l).
Proof.
  unfold lane_without. induction l as [|x l IH]; [done|]. rewrite fmap_cons.
  destruct (decide (item_id x = id)) as [Hx|Hx].
  - rewrite !filter_cons_False by (intros H; by apply H). done.
  - rewrite !filter_cons_True by done. by rewrite fmap_cons, IH.
Qed.

Lemma strip_without id (q : Queue) :
  strip_queue (queue_without id q) = queue_without id (strip_queue q).
Proof. unfold strip_queue, queue_without. simpl. by rewrite !fmap_strip_without. Qed.

Lemma strip_push (i : Item) q : strip_queue (queue_push i q) = queue_push (strip i) (strip_queue q).
Proof.
  unfold queue_push. change (item_kind (strip i)) with (item_kind i).
  unfold strip_queue. destruct (item_kind i); simpl; by rewrite fmap_app.
Qed.

Lemma strip_push_front (i : Item) q :
  strip_queue (queue_push_front i q) = queue_push_front (strip i) (strip_queue q).
Proof.
  unfold queue_push_front. change (item_kind (strip i)) with (item_kind i).
  unfold strip_queue. by destruct (item_kind i).
Qed.

Lemma filter_push keep (i : Item) q :
  keep i = true -> queue_filter keep (queue_push i q) = queue_push i (queue_filter keep q).
Proof.
  intros Hi. unfold queue_push, queue_filter. destruct (item_kind i); simpl; f_equal;
    rewrite filter_app; f_equal; by rewrite filter_cons_True.
Qed.

Lemma push_front_push (c i : Item) q :
  queue_push_front c (queue_push i q) = queue_push i (queue_push_front c q).
Proof. unfold queue_push_front, queue_push. by destruct (item_kind c), (item_kind i). Qed.

Lemma without_push_front id (c : Item) q :
  item_id c <> id -> queue_without id (queue_push_front c q) = queue_push_front c (queue_without id q).
Proof.
  intros Hc. unfold queue_without, queue_push_front, lane_without.
  destruct (item_kind c); simpl; f_equal; by rewrite filter_cons_True.
Qed.

Lemma without_push_front_same (c : Item) q :
  item_id c ∉ ids q -> queue_without (item_id c) (queue_push_front c q) = q.
Proof.
  rewrite ids_app, elem_of_app. intros Hc. unfold queue_without, queue_push_front.
  destruct (item_kind c); simpl; unfold lane_without;
    rewrite filter_cons_False by (intros H; by apply H);
    fold (lane_without (item_id c) (steering q)); fold (lane_without (item_id c) (follow_up q));
    rewrite !lane_without_absent by tauto; by destruct q.
Qed.

Lemma without_absent id (q : Queue) : id ∉ ids q -> queue_without id q = q.
Proof.
  rewrite ids_app, elem_of_app. intros H. unfold queue_without.
  rewrite !lane_without_absent by tauto. by destruct q.
Qed.

Lemma remove_without id (q : Queue) : queue_ok q -> (queue_remove id q).2 = queue_without id q.
Proof. intros Hok. by destruct (queue_remove_spec id q Hok). Qed.

Lemma ids_strip (q : Queue) : ids (strip_queue q) = ids q.
Proof. rewrite !ids_app. simpl. by rewrite <- !list_fmap_compose. Qed.

Lemma ids_without id (q : Queue) x : x ∈ ids (queue_without id q) <-> x ∈ ids q /\ x <> id.
Proof.
  rewrite !ids_app, !elem_of_app. unfold queue_without, lane_without. simpl.
  rewrite !list_elem_of_fmap. setoid_rewrite list_elem_of_filter. clear. naive_solver.
Qed.

Lemma without_ok id (q : Queue) : queue_ok q -> queue_ok (queue_without id q).
Proof. apply queue_ok_without. Qed.

Lemma without_all_ok l (q : Queue) : queue_ok q -> queue_ok (queue_without_all l q).
Proof.
  revert q. induction l as [|id l IH]; intros q Hq; [done|]. simpl. by apply IH, without_ok.
Qed.

Lemma filter_without_all keep l q :
  queue_filter keep (queue_without_all l q) = queue_without_all l (queue_filter (R := R) keep q).
Proof.
  revert q. induction l as [|id l IH]; intros q; [done|]. simpl.
  by rewrite IH, filter_without.
Qed.

Lemma strip_without_all l (q : Queue) :
  strip_queue (queue_without_all l q) = queue_without_all l (strip_queue q).
Proof.
  revert q. induction l as [|id l IH]; intros q; [done|]. simpl. by rewrite IH, strip_without.
Qed.

Lemma without_all_push_front l (c : Item) q :
  item_id c ∉ l ->
  queue_without_all l (queue_push_front c q) = queue_push_front c (queue_without_all l q).
Proof.
  revert q. induction l as [|id l IH]; intros q Hc; [done|].
  apply not_elem_of_cons in Hc as [Hid Hl]. simpl.
  by rewrite without_push_front, IH by done.
Qed.

Lemma lane_without_all_nil l (k : list Item) :
  (forall i, i ∈ k -> item_id i ∈ l) ->
  foldl (fun k id => lane_without id k) k l = [].
Proof.
  revert k. induction l as [|id l IH]; intros k Hk.
  - destruct k as [|i k]; [done|]. destruct (not_elem_of_nil (item_id i)).
    apply Hk, list_elem_of_here.
  - simpl. apply IH. intros i [Hi Hin]%list_elem_of_filter.
    by apply Hk, elem_of_cons in Hin as [?|?].
Qed.

Lemma without_all_lanes l (q : Queue) :
  queue_without_all l q =
    {| open := open q; steering := foldl (fun k id => lane_without id k) (steering q) l;
       follow_up := foldl (fun k id => lane_without id k) (follow_up q) l |}.
Proof.
  revert q. induction l as [|id l IH]; intros q; simpl; [by destruct q|]. by rewrite IH.
Qed.

Lemma without_all_ids (q : Queue) :
  queue_without_all (ids q) q = {| open := open q; steering := []; follow_up := [] |}.
Proof.
  rewrite without_all_lanes, !lane_without_all_nil; [done|..];
    intros i Hi; rewrite ids_app, elem_of_app; [right|left]; by apply list_elem_of_fmap_2.
Qed.

Lemma items_without id (q : Queue) i : i ∈ items (queue_without id q) -> i ∈ items q.
Proof.
  unfold items, queue_without, lane_without. simpl. rewrite !elem_of_app, !list_elem_of_filter.
  tauto.
Qed.

Lemma items_without_all l (q : Queue) i : i ∈ items (queue_without_all l q) -> i ∈ items q.
Proof.
  revert q. induction l as [|id l IH]; intros q; [done|]. simpl.
  intros Hi%IH. by eapply items_without.
Qed.

Lemma items_push (i : Item) q x : x ∈ items (queue_push i q) <-> x = i \/ x ∈ items q.
Proof.
  unfold items, queue_push. destruct (item_kind i); simpl; set_solver.
Qed.

Lemma items_push_front (i : Item) q x : x ∈ items (queue_push_front i q) <-> x = i \/ x ∈ items q.
Proof.
  unfold items, queue_push_front. destruct (item_kind i); simpl; set_solver.
Qed.

End Algebra.

Section Steps.
Context {R : RigTypes} {CC : ContentCodec R}.
Context (display : KernelError -> string).
Context {S : Type} `{SessionStoreLaws S}.
Abbreviation Item := (PendingQueueItem R).
Abbreviation Queue := (PendingQueue R).
Abbreviation T := (SessionTranscript R S).
Abbreviation Q := (QueueSession R S).

(** ** What the transcript's commits do to the records *)

Definition stored_as (r : NewRecord) (x : SessionRecord) : Prop :=
  record_kind x = new_record_kind r /\ new_record_payload r = JObject (record_payload x).

(** The records of [t'] are those of [t] and then [rs]; entries are as they were. *)
Record commits (t t' : T) (rs : list NewRecord) : Prop := {
  commits_records : exists xs, Forall2 stored_as rs xs /\
    records (transcript_store t') = (records (transcript_store t) ++ xs)%list;
  commits_entries : forall e, get_entry (transcript_store t') e = get_entry (transcript_store t) e;
  commits_wf : store_wf (transcript_store t) -> store_wf (transcript_store t');
  commits_latch : latched t' = latched t
}.

Lemma commits_nil t : commits t t [].
Proof. split; [exists []|..]; try done. by rewrite app_nil_r. Qed.

Lemma commits_append t r x s :
  plain_record r -> append_record r (transcript_store t) = (Ok x, s) ->
  commits t (set_store t s) [r].
Proof.
  intros (p & Hp & Hd) Ha. destruct (append_record_adds _ _ _ _ _ Hp Hd Ha)
    as ((_ & _ & Hg) & Hrec & _ & Hk & _ & Hpay).
  split; try done.
  - exists [x]. split; [|done]. constructor; [|done]. split; [done|]. by rewrite Hpay.
  - intros Hwf. pose proof (append_record_wf (transcript_store t) r Hwf) as Hw.
    by rewrite Ha in Hw.
Qed.

Lemma commits_trans t1 t2 t3 rs rs' :
  commits t1 t2 rs -> commits t2 t3 rs' -> commits t1 t3 (rs ++ rs')%list.
Proof.
  intros [(xs & Hx & Hr) He Hw Hl] [(ys & Hy & Hr') He' Hw' Hl']. split.
  - exists (xs ++ ys)%list. split; [by apply Forall2_app|]. by rewrite Hr', Hr, app_assoc.
  - intros e. by rewrite He', He.
  - auto.
  - by rewrite Hl', Hl.
Qed.

Lemma uncertain_latched (t : T) e (t' : T) : uncertain t = (Err e, t') -> latched t' = true.
Proof. intros [= _ <-]. unfold latched. simpl. apply orb_true_r. Qed.

Lemma uncertain_err (t : T) a t' : uncertain t <> (Ok a, t').
Proof. done. Qed.

Lemma append_records_commits rs t r t' :
  Forall plain_record rs -> append_records rs t = (r, t') ->
  match r with Ok _ => commits t t' rs | Err _ => latched t' = true end.
Proof.
  intros Hp. revert t. induction Hp as [|x rs Hx _ IH]; intros t Hr; simpl in Hr.
  - injection Hr as <- <-. apply commits_nil.
  - unfold m_bind, store_try in Hr.
    destruct (append_record x (transcript_store t)) as [[y|e] s] eqn:Ha.
    + pose proof (commits_append _ _ _ _ Hx Ha) as Hc. apply IH in Hr.
      destruct r; [|done]. by eapply (commits_trans _ _ _ [x]).
    + destruct r as [[]|e']; [by apply uncertain_err in Hr|].
      by eapply uncertain_latched.
Qed.

Lemma commits_sync t s :
  (sync (transcript_store t)).2 = s -> commits t (set_store t s) [].
Proof.
  intros <-. split; try done.
  - exists []. split; [done|]. simpl. by rewrite app_nil_r, sync_records.
  - intros e. simpl. by destruct (sync_tree (transcript_store t)) as (_ & _ & Hg).
  - apply sync_wf.
Qed.

Lemma writable_cases (t : T) :
  writable t = (Ok tt, t) /\ latched t = false \/
  exists e, writable t = (Err e, t) /\ latched t = true.
Proof.
  unfold writable, latched. destruct (sealed t); [right; by eexists|].
  destruct (write_failed t); [right; by eexists|by left].
Qed.

Lemma commit_records_commits rs t r t' :
  Forall plain_record rs -> commit_records rs t = (r, t') ->
  match r with Ok _ => latched t = false /\ commits t t' rs | Err _ => latched t' = true end.
Proof.
  intros Hp Hr. unfold commit_records in Hr. unfold m_bind at 1 in Hr.
  destruct (writable_cases t) as [[Hw Hl]|(e & Hw & Hl)]; rewrite Hw in Hr.
  2: { by injection Hr as <- <-. }
  unfold m_bind at 1 in Hr. destruct (append_records rs t) as [r1 t1] eqn:Ha.
  apply append_records_commits in Ha; [|done].
  destruct r1 as [[]|e1]; [|by injection Hr as <- <-].
  unfold m_bind, store_try in Hr. destruct (sync (transcript_store t1)) as [[u|e] s] eqn:Hs.
  - injection Hr as <- <-. split; [done|].
    pose proof (commits_sync t1 s) as Hc. rewrite Hs in Hc.
    pose proof (commits_trans _ _ _ _ _ Ha (Hc eq_refl)) as Hfin. by rewrite app_nil_r in Hfin.
  - destruct r as [[]|e']; [by apply uncertain_err in Hr|]. by eapply uncertain_latched.
Qed.

(** The insertion boundary: one entry, then one record. *)
Lemma commit_consumed_commits id m rec t r t' :
  message_ok m -> plain_record rec -> store_wf (transcript_store t) ->
  commit_consumed id m rec t = (r, t') ->
  match r with
  | Ok _ => latched t = false /\ latched t' = latched t /\ store_wf (transcript_store t') /\
      (exists x, stored_as rec x /\
        records (transcript_store t') = (records (transcript_store t) ++ [x])%list) /\
      (forall e, is_Some (get_entry (transcript_store t') e) <->
        is_Some (get_entry (transcript_store t) e) \/ e = id) /\
      (exists x, get_entry (transcript_store t') id = Some x /\ entry_kind x = KindMessage /\
        message_object m = Some (entry_payload x))
  | Err _ => latched t' = true
  end.
Proof.
  intros Hok Hrec Hwf Hr. unfold commit_consumed, encode_message, m_lift in Hr.
  destruct (message_roundtrip m Hok) as (o & Ho & Hm & _).
  unfold m_bind at 1 in Hr. rewrite Hm in Hr. cbn [map_err] in Hr.
  unfold m_bind at 1 in Hr.
  destruct (writable_cases t) as [[Hw Hl]|(e & Hw & Hl)]; rewrite Hw in Hr.
  2: { by injection Hr as <- <-. }
  unfold m_bind at 1, m_get in Hr. unfold m_bind at 1, store_try at 1 in Hr.
  pose proof (message_object_disjoint _ _ Ho) as Hd.
  destruct (append_entry (transcript_lane t) (message_entry id (JObject o)) (transcript_store t))
    as [[x|e] s] eqn:Ha.
  2: { destruct r as [[]|e']; [by apply uncertain_err in Hr|]. by eapply uncertain_latched. }
  pose proof (append_entry_wf (transcript_store t) (transcript_lane t)
    (message_entry id (JObject o)) Hwf) as Hws. rewrite Ha in Hws. simpl in Hws.
  pose proof (append_entry_records (transcript_store t) (transcript_lane t)
    (message_entry id (JObject o)) o eq_refl Hd) as Hrs. rewrite Ha in Hrs. simpl in Hrs.
  destruct (appended_entry _ _ _ (message_entry id (JObject o)) o _ Hwf eq_refl Hd Ha)
    as (Hid & Hkind & Hpayload & Hself & Hold & Hget).
  unfold m_bind at 1, push_context, m_modify in Hr. unfold m_bind, store_try in Hr.
  cbn [transcript_store set_store set_context] in Hr.
  destruct (append_record rec s) as [[y|e] s'] eqn:Hap.
  2: { destruct r as [[]|e']; [by apply uncertain_err in Hr|]. by eapply uncertain_latched. }
  injection Hr as <- <-. cbn [transcript_store set_store set_context].
  destruct Hrec as (p & Hp & Hdp).
  destruct (append_record_adds _ _ _ _ _ Hp Hdp Hap) as ((_ & _ & Hg) & Hrec' & _ & Hk & _ & Hpay).
  split; [done|]. split; [done|]. split; [|split; [|split]].
  - pose proof (append_record_wf s rec Hws) as Hw'. by rewrite Hap in Hw'.
  - exists y. split; [split; [done|by rewrite Hpay]|]. by rewrite Hrec', Hrs.
  - intros e. rewrite Hg. destruct (decide (e = entry_id x)) as [->|He].
    + rewrite Hself, Hid. split; [by right|]. by eexists.
    + rewrite Hget by done. split; [by left|]. rewrite Hid in He. by intros [?|?].
  - exists x. rewrite Hg. change (new_entry_id (message_entry id (JObject o))) with id in Hid.
    rewrite <- Hid. by rewrite Hpayload.
Qed.

(** ** The step relation *)

(** A session and the claim its run has in flight. *)
Definition config : Type := (Q * option Item)%type.

Definition store_of (s : Q) : S := transcript_store (transcript s).
Definition q_latched (s : Q) : bool := latched (transcript s).

(** The queue with the claim back where a drop would put it. *)
Definition logical (c : config) : Queue :=
  match c.2 with Some i => queue_push_front i (queue c.1) | None => queue c.1 end.

Definition written (s : Q) (e : EntryId) : bool := bool_decide (is_Some (get_entry (store_of s) e)).
Definition unwritten (s : Q) (i : Item) : bool := negb (written s (item_entry_id i)).

Inductive queue_step : config -> config -> Prop :=
| step_enqueue s c rid run i stop r s' :
    item_id i ∉ ids (logical (s, c)) ->
    item_entry_id i ∉ item_entry_id <$> items (logical (s, c)) ->
    unwritten s i = true -> message_ok (queued_message (queued i)) ->
    enqueue rid run i stop s = (r, s') -> queue_step (s, c) (s', c)
| step_remove s c rid id r s' :
    remove_pending_message display rid id s = (r, s') -> queue_step (s, c) (s', c)
| step_clear s c rids r s' :
    length rids = length (ids (queue s)) ->
    clear_pending_messages display rids s = (r, s') -> queue_step (s, c) (s', c)
| step_promote s c rid id r s' :
    (forall i, i ∈ items (queue s) -> message_ok (queued_message (queued i))) ->
    promote_pending_message rid id s = (r, s') -> queue_step (s, c) (s', c)
| step_withdraw s c rids r s' :
    length rids = length (filter (fun i => withdrawable (waiters s) i = true) (items (queue s))) ->
    withdraw_pending display rids s = (r, s') -> queue_step (s, c) (s', c)
| step_claim s allow i s' :
    claim_next_or_close allow s = (Ok (Some i), s') -> queue_step (s, None) (s', Some i)
| step_no_claim s allow s' :
    claim_next_or_close allow s = (Ok None, s') -> queue_step (s, None) (s', None)
| step_drop s i : queue_step (s, Some i) (drop_claim i s, None)
| step_consume s i m rid run r s' :
    message_ok m ->
    consume_claimed display i m
      (queue_cancellation_record rid run (item_id i) Consumed s) s = (r, s') ->
    queue_step (s, Some i) (s', None)
| step_open s c b : queue_step (s, c) (set_queue (with_open b (queue s)) s, c)
| step_waiters s c w l b : queue_step (s, c)
    ({| transcript := transcript s; queue := queue s; waiters := w; submissions := l;
        cancelled := b |}, c)
| step_other s c t xs :
    (q_latched s = true -> latched t = true) ->
    (store_wf (store_of s) -> store_wf (transcript_store t)) ->
    records (transcript_store t) = (records (store_of s) ++ xs)%list ->
    Forall (fun r => queue_kind (record_kind r) = false) xs ->
    (forall e x, get_entry (store_of s) e = Some x -> get_entry (transcript_store t) e = Some x) ->
    (forall i, i ∈ items (logical (s, c)) ->
      get_entry (store_of s) (item_entry_id i) = None ->
      get_entry (transcript_store t) (item_entry_id i) = None) ->
    queue_step (s, c) (set_transcript t s, c).

(** ** The invariant *)

Record in_sync (c : config) : Prop := {
  sync_wf_store : store_wf (store_of c.1);
  sync_ok : queue_ok (logical c);
  sync_entries : NoDup (item_entry_id <$> items (logical c));
  sync_replay : exists q0, from_records (records (store_of c.1)) = Ok q0 /\
    queue_ok q0 /\ queue_filter (unwritten c.1) q0 = strip_queue (logical c)
}.

Definition queue_inv (c : config) : Prop := q_latched c.1 = true \/ in_sync c.

Lemma unwritten_strip s i : unwritten s (strip i) = unwritten s i.
Proof. done. Qed.

(** A commit whose records replay to a queue that filters to the new logical one. *)
Lemma in_sync_commit s c s' c' rs q0 q1 xs :
  in_sync (s, c) -> from_records (records (store_of s)) = Ok q0 ->
  store_wf (store_of s') -> records (store_of s') = (records (store_of s) ++ xs)%list ->
  Forall2 stored_as rs xs -> replay_records q0 xs = Ok q1 -> queue_ok q1 ->
  queue_ok (logical (s', c')) -> NoDup (item_entry_id <$> items (logical (s', c'))) ->
  queue_filter (unwritten s') q1 = strip_queue (logical (s', c')) ->
  in_sync (s', c').
Proof.
  intros _ Hq0 Hwf Hrec _ Hreplay Hq1 Hok Hnd Hf. split; try done.
  exists q1. split; [|done]. simpl. rewrite Hrec. unfold from_records in *.
  by rewrite replay_records_app, Hq0.
Qed.

Lemma on_commit rs s r s' :
  Forall plain_record rs -> on_transcript (commit_records rs) s = (r, s') ->
  s' = set_transcript (transcript s') s /\
  match r with
  | Ok _ => q_latched s = false /\ commits (transcript s) (transcript s') rs
  | Err _ => q_latched s' = true
  end.
Proof.
  intros Hp. unfold on_transcript. destruct (commit_records rs (transcript s)) as [r0 t] eqn:Hc.
  intros [= <- <-]. split; [done|]. unfold q_latched. simpl.
  by apply commit_records_commits in Hc.
Qed.

Lemma cancellation_plain rids l reason s :
  Forall plain_record (cancellation_records (R := R) (S := S) rids l reason s).
Proof.
  unfold cancellation_records. revert l. induction rids as [|rid rids IH]; intros [|id l];
    simpl; try constructor; [|apply IH].
  eexists. split; [done|]. apply cancelled_payload_ok.
Qed.

(** Replaying one cancellation per identifier takes exactly those items out. *)
Lemma replay_cancellations rids l reason s xs (q : Queue) :
  length rids = length l -> queue_ok q ->
  Forall2 stored_as (cancellation_records (R := R) (S := S) rids l reason s) xs ->
  replay_records q xs = Ok (queue_without_all l q).
Proof.
  intros Hlen. unfold cancellation_records. revert l q xs Hlen.
  induction rids as [|rid rids IH]; intros [|id l] q xs Hlen Hq Hx; try done;
    simpl in Hx; inversion Hx as [|r x ? ys [Hk Hp] Hys]; subst; [done|].
  simpl. injection Hp as Hp.
  rewrite (replay_cancelled q id reason x) by done. cbn [result_bind].
  rewrite remove_without by done. apply (IH l); [by injection Hlen|by apply without_ok|done].
Qed.

Lemma sub_entries (q q' : Queue) :
  steering q' `sublist_of` steering q -> follow_up q' `sublist_of` follow_up q ->
  NoDup (item_entry_id <$> items q) -> NoDup (item_entry_id <$> items q').
Proof.
  intros Hs Hf Hnd. eapply sublist_nodup; [|exact Hnd].
  by apply fmap_sublist, sublist_app.
Qed.

Lemma without_entries id (q : Queue) :
  NoDup (item_entry_id <$> items q) -> NoDup (item_entry_id <$> items (queue_without id q)).
Proof. apply sub_entries; apply lane_without_sub. Qed.

Lemma without_all_entries l (q : Queue) :
  NoDup (item_entry_id <$> items q) -> NoDup (item_entry_id <$> items (queue_without_all l q)).
Proof.
  revert q. induction l as [|id l IH]; intros q Hq; [done|]. simpl. by apply IH, without_entries.
Qed.

(** Items cancelled by commit: the live queue without them is what replays. *)
Lemma cancelled_in_sync s c s' c' rids l reason :
  in_sync (s, c) -> length rids = length l ->
  commits (transcript s) (transcript s') (cancellation_records rids l reason s) ->
  logical (s', c') = queue_without_all l (logical (s, c)) ->
  in_sync (s', c').
Proof.
  intros Hin Hlen [(xs & Hx & Hrec) He Hw _] Hlog.
  pose proof Hin as [Hwf Hok Hnd (q0 & Hq0 & Hqok & Hf)].
  pose proof (replay_cancellations _ _ _ _ _ _ Hlen Hqok Hx) as Hreplay.
  eapply (in_sync_commit s c s' c' _ q0 _ xs); try done.
  - by apply Hw.
  - by apply without_all_ok.
  - rewrite Hlog. by apply without_all_ok.
  - rewrite Hlog. by apply without_all_entries.
  - rewrite filter_without_all, Hlog, strip_without_all. f_equal. rewrite <- Hf.
    unfold queue_filter, unwritten, written, store_of. f_equal; apply list_filter_iff;
      intros i; by rewrite He.
Qed.

(** Live items never share the claim's identifier. *)
Lemma logical_without_all s c l :
  queue_ok (logical (s, c)) -> (forall id, id ∈ l -> id ∈ ids (queue s)) ->
  logical (set_queue (queue_without_all l (queue s)) s, c) = queue_without_all l (logical (s, c)).
Proof.
  intros [Hnd _ _] Hl. unfold logical in *. destruct c as [i|]; [|done]. simpl in *.
  rewrite without_all_push_front; [done|]. intros Hi%Hl.
  rewrite ids_push_front in Hnd. by apply NoDup_cons in Hnd as [? _].
Qed.

Lemma queue_ok_live s c : queue_ok (logical (s, c)) -> queue_ok (queue s).
Proof.
  destruct c as [i|]; [|done]. intros Hok. unfold logical in Hok. simpl in Hok.
  destruct (decide (item_id i ∈ ids (queue s))) as [Hin|Hin].
  - destruct Hok as [Hnd _ _]. rewrite ids_push_front in Hnd.
    by apply NoDup_cons in Hnd as [? _].
  - rewrite <- (without_push_front_same i (queue s) Hin). by apply without_ok.
Qed.

(** Settling waiters touches neither the transcript nor the queue. *)
Lemma reject_frame error s i :
  transcript (reject (R := R) (S := S) display error s i) = transcript s /\
  queue (reject (R := R) (S := S) display error s i) = queue s.
Proof. unfold reject. destruct (waiter i) as [[n|n]|]; [done| |done]. by destruct error. Qed.

Lemma reject_all_frame error l s :
  transcript (reject_all (R := R) (S := S) display error l s) = transcript s /\
  queue (reject_all (R := R) (S := S) display error l s) = queue s.
Proof.
  unfold reject_all. revert s. induction l as [|i l IH]; intros s; [done|]. simpl.
  destruct (IH (reject display error s i)) as [-> ->]. apply reject_frame.
Qed.

Lemma withdraw_one_frame s id :
  queue_ok (queue s) ->
  transcript (withdraw_one (R := R) (S := S) display s id) = transcript s /\
  queue (withdraw_one (R := R) (S := S) display s id) = queue_without id (queue s).
Proof.
  intros Hok. unfold withdraw_one. pose proof (remove_without id _ Hok) as Hr.
  destruct (queue_remove id (queue s)) as [[i|] q]; simpl in Hr; subst q; [|done].
  destruct (reject_frame PromptCancelled (set_queue (queue_without id (queue s)) s) i)
    as [-> ->]. done.
Qed.

Lemma withdraw_all_frame l s :
  queue_ok (queue s) ->
  transcript (foldl (withdraw_one (R := R) (S := S) display) s l) = transcript s /\
  queue (foldl (withdraw_one (R := R) (S := S) display) s l) = queue_without_all l (queue s).
Proof.
  revert s. induction l as [|id l IH]; intros s Hok; [done|]. simpl.
  destruct (withdraw_one_frame s id Hok) as [Ht Hq].
  destruct (IH (withdraw_one display s id)) as [-> ->].
  - rewrite Hq. by apply without_ok.
  - by rewrite Ht, Hq.
Qed.

(** ** Each step keeps the invariant *)

Lemma same_logical_sync s c s' c' :
  in_sync (s, c) -> transcript s' = transcript s ->
  steering (logical (s', c')) = steering (logical (s, c)) ->
  follow_up (logical (s', c')) = follow_up (logical (s, c)) ->
  in_sync (s', c').
Proof.
  intros [Hwf Hok Hnd (q0 & Hq0 & Hqok & Hf)] Ht Hs Hfu.
  assert (strip_queue (logical (s', c')) = strip_queue (logical (s, c))) as Hlog.
  { unfold strip_queue. by rewrite Hs, Hfu. }
  split; simpl in *; unfold store_of in *; rewrite ?Ht; try done.
  - destruct Hok as [H1 H2 H3]. split; rewrite ?ids_app, ?Hs, ?Hfu; [|done|done].
    by rewrite ids_app in H1.
  - unfold items in *. by rewrite Hs, Hfu.
  - exists q0. rewrite Hlog, <- Hf. split; [done|]. split; [done|].
    unfold queue_filter, unwritten, written, store_of. by rewrite Ht.
Qed.

Lemma inv_transcript s c s' c' :
  queue_inv (s, c) -> transcript s' = transcript s ->
  steering (logical (s', c')) = steering (logical (s, c)) ->
  follow_up (logical (s', c')) = follow_up (logical (s, c)) ->
  queue_inv (s', c').
Proof.
  intros [Hl|Hin] Ht Hs Hf; [left|right].
  - unfold q_latched in *. simpl in *. by rewrite Ht.
  - by eapply same_logical_sync.
Qed.

(** A commit that went through was not latched, so the session was in step. *)
Lemma inv_unlatched s c : queue_inv (s, c) -> q_latched s = false -> in_sync (s, c).
Proof. intros [Hl|Hin] Hn; [|done]. simpl in Hl. congruence. Qed.

(** Cancelling committed items, then taking them out of the live queue. *)
Lemma inv_cancelled s c s1 s' rids l reason :
  in_sync (s, c) -> length rids = length l -> (forall id, id ∈ l -> id ∈ ids (queue s)) ->
  commits (transcript s) (transcript s1) (cancellation_records rids l reason s) ->
  transcript s' = transcript s1 ->
  steering (queue s') = steering (queue_without_all l (queue s)) ->
  follow_up (queue s') = follow_up (queue_without_all l (queue s)) ->
  queue_inv (s', c).
Proof.
  intros Hin Hlen Hl Hc Ht Hs Hf. right.
  pose proof (logical_without_all s c l (sync_ok _ Hin) Hl) as Hlog.
  assert (in_sync (set_queue (queue_without_all l (queue s)) (set_transcript (transcript s1) s), c))
    as Hin'.
  { eapply cancelled_in_sync; [done|done|exact Hc|]. rewrite <- Hlog. by destruct c. }
  eapply same_logical_sync; [exact Hin'|done|..];
    unfold logical; destruct c as [i|]; simpl; try done;
    unfold queue_push_front; destruct (item_kind i); simpl; rewrite ?Hs, ?Hf; done.
Qed.

Lemma inv_enqueue s c rid run i stop r s' :
  queue_inv (s, c) -> item_id i ∉ ids (logical (s, c)) ->
  item_entry_id i ∉ item_entry_id <$> items (logical (s, c)) ->
  unwritten s i = true -> message_ok (queued_message (queued i)) ->
  enqueue rid run i stop s = (r, s') -> queue_inv (s', c).
Proof.
  intros Hinv Hid Heid Hun Hok Hr. unfold enqueue in Hr.
  destruct (enqueued_roundtrip i Hok) as (p & Hp & Hd & _).
  unfold m_bind at 1, m_lift in Hr. rewrite Hp in Hr.
  unfold enqueue_pending, m_bind, m_get, m_fail in Hr.
  destruct stop; [by injection Hr as _ <-|].
  destruct (negb (open (queue s))); [by injection Hr as _ <-|].
  set (rec := queue_record rid (Some run) QueueEnqueued p s) in Hr.
  destruct (on_transcript (commit_records [rec]) s) as [r1 s1] eqn:Hc.
  assert (Forall plain_record [rec]) as Hplain.
  { constructor; [|done]. by eexists. }
  destruct (on_commit _ _ _ _ Hplain Hc) as [Hs1 Hres].
  destruct r1 as [[]|e]; [|injection Hr as _ <-; by left].
  destruct Hres as [Hl [(xs & Hx & Hrec) He Hw _]]. injection Hr as _ <-.
  pose proof (inv_unlatched _ _ Hinv Hl) as Hin. right.
  pose proof Hin as [Hwf Hlok Hnd (q0 & Hq0 & Hqok & Hf)].
  inversion Hx as [|? x ? ys [Hk Hpay] Hys]; subst. inversion Hys; subst.
  injection Hpay as Hpay.
  assert (logical (set_queue (queue_push i (queue s1)) s1, c) = queue_push i (logical (s, c)))
    as Hlog.
  { rewrite Hs1. unfold logical. destruct c; simpl; [by rewrite push_front_push|done]. }
  eapply (in_sync_commit s c _ c _ q0
    (queue_push (strip i) (queue_remove (item_id i) q0).2) [x]); try done.
  - by apply Hw.
  - cbn [replay_records]. rewrite (replay_enqueued q0 i p x Hp Hok Hk (eq_sym Hpay)).
    reflexivity.
  - apply queue_ok_push; [by apply queue_ok_remove|]. change (item_id (strip i)) with (item_id i).
    rewrite remove_without by done. rewrite ids_without. by intros [_ ?].
  - rewrite Hlog. by apply queue_ok_push.
  - rewrite Hlog. assert (item_entry_id <$> items (queue_push i (logical (s, c))) ≡ₚ
      item_entry_id i :: (item_entry_id <$> items (logical (s, c)))) as ->.
    { unfold items, queue_push. destruct (item_kind i); simpl; rewrite ?fmap_app; simpl;
        rewrite ?fmap_app; solve_Permutation. }
    by constructor.
  - rewrite Hlog, strip_push, <- Hf, remove_without by done.
    assert (forall q : Queue, queue_filter (unwritten (set_queue (queue_push i (queue s1)) s1)) q
      = queue_filter (unwritten s) q) as Hsame.
    { intros q. unfold queue_filter, unwritten, written, store_of. simpl.
      f_equal; apply list_filter_iff; intros j; by rewrite He. }
    rewrite Hsame, filter_push by done. f_equal.
    rewrite filter_without. apply without_absent.
    rewrite Hf, ids_strip. done.
Qed.

Lemma inv_remove s c rid id r s' :
  queue_inv (s, c) -> remove_pending_message display rid id s = (r, s') -> queue_inv (s', c).
Proof.
  intros Hinv Hr. unfold remove_pending_message, remove_pending, m_bind, m_get in Hr.
  case_bool_decide as Hid; simpl in Hr; [|by injection Hr as _ <-].
  rewrite bool_decide_eq_true_2 in Hr by done. simpl in Hr.
  destruct (on_transcript _ s) as [r1 s1] eqn:Hc.
  pose proof (cancellation_plain [rid] [id] Removed s) as Hplain.
  destruct (on_commit _ _ _ _ Hplain Hc) as [Hs1 Hres].
  destruct r1 as [[]|e]; [|injection Hr as _ <-; by left].
  destruct Hres as [Hl Hcom]. injection Hr as _ <-.
  pose proof (inv_unlatched _ _ Hinv Hl) as Hin.
  pose proof (queue_ok_live s c (sync_ok _ Hin)) as Hqok.
  assert (queue s1 = queue s) as Hq1 by (by rewrite Hs1).
  destruct (withdraw_one_frame s1 id ltac:(by rewrite Hq1)) as [Ht Hq].
  eapply (inv_cancelled s c s1 (withdraw_one display s1 id) [rid] [id]); try done.
  - by intros x ->%list_elem_of_singleton.
  - by rewrite Hq, Hq1.
  - by rewrite Hq, Hq1.
Qed.

Lemma inv_clear s c rids r s' :
  queue_inv (s, c) -> length rids = length (ids (queue s)) ->
  clear_pending_messages display rids s = (r, s') -> queue_inv (s', c).
Proof.
  intros Hinv Hlen Hr. unfold clear_pending_messages, m_bind, m_get in Hr.
  destruct (on_transcript _ s) as [r1 s1] eqn:Hc.
  destruct (on_commit _ _ _ _ (cancellation_plain _ _ _ _) Hc) as [Hs1 Hres].
  destruct r1 as [[]|e]; [|injection Hr as _ <-; by left].
  destruct Hres as [Hl Hcom]. injection Hr as _ <-.
  pose proof (inv_unlatched _ _ Hinv Hl) as Hin.
  destruct (reject_all_frame PromptCancelled (items (queue s1))
    (set_queue {| open := open (queue s1); steering := []; follow_up := [] |} s1)) as [Ht Hq].
  eapply (inv_cancelled s c s1 _ rids (ids (queue s))); try done;
    rewrite Hq, without_all_ids; done.
Qed.

Lemma inv_withdraw s c rids r s' :
  queue_inv (s, c) ->
  length rids = length (filter (fun i => withdrawable (waiters s) i = true) (items (queue s))) ->
  withdraw_pending display rids s = (r, s') -> queue_inv (s', c).
Proof.
  intros Hinv Hlen Hr. unfold withdraw_pending in Hr.
  unfold m_bind at 1, close_queue, modify in Hr. unfold m_bind, m_get in Hr.
  set (s0 := set_queue (with_open false (queue s)) s) in *.
  assert (queue_inv (s0, c)) as Hinv0.
  { eapply inv_transcript; [exact Hinv|done|..]; unfold logical; destruct c as [i|]; try done;
      simpl; unfold queue_push_front; by destruct (item_kind i). }
  change (items (queue s0)) with (items (queue s)) in Hr.
  change (waiters s0) with (waiters s) in Hr.
  set (l := item_id <$> filter _ (items (queue s))) in Hr.
  assert (length rids = length l) as Hlen' by (unfold l; by rewrite length_fmap).
  assert (forall id, id ∈ l -> id ∈ ids (queue s0)) as Hsub.
  { intros id (i & -> & Hi)%list_elem_of_fmap. apply list_elem_of_filter in Hi as [_ Hi].
    by apply list_elem_of_fmap_2. }
  clearbody l. destruct l as [|id0 l0] eqn:Hleq; [by injection Hr as _ <-|]. rewrite <- Hleq in *.
  clear Hleq. destruct (on_transcript _ s0) as [r1 s1] eqn:Hc.
  destruct (on_commit _ _ _ _ (cancellation_plain _ _ _ _) Hc) as [Hs1 Hres].
  destruct r1 as [[]|e].
  - destruct Hres as [Hl Hcom]. injection Hr as _ <-.
    pose proof (inv_unlatched _ _ Hinv0 Hl) as Hin.
    pose proof (queue_ok_live s0 c (sync_ok _ Hin)) as Hqok.
    assert (queue s1 = queue s0) as Hq1 by (by rewrite Hs1).
    destruct (withdraw_all_frame l s1 ltac:(by rewrite Hq1)) as [Ht Hq].
    eapply (inv_cancelled s0 c s1 _ rids l); try done; by rewrite Hq, Hq1.
  - injection Hr as _ <-. left. unfold q_latched in *. simpl.
    by rewrite (proj1 (reject_all_frame _ _ _)).
Qed.

Lemma promoted_entries (i : Item) (q : Queue) :
  queue_ok q -> i ∈ items q -> NoDup (item_entry_id <$> items q) ->
  item_entry_id i ∉ item_entry_id <$> items (queue_without (item_id i) q).
Proof.
  intros Hok Hi Hnd (j & Hj & Hin)%list_elem_of_fmap.
  assert (j ∈ items q) as Hjq by (by eapply items_without).
  assert (j = i) as ->.
  { apply list_elem_of_lookup in Hi as [n Hn]. apply list_elem_of_lookup in Hjq as [m Hm].
    assert (n = m) as ->; [|congruence].
    eapply NoDup_lookup; [exact Hnd|..]; rewrite list_lookup_fmap;
      [by rewrite Hn|rewrite Hm; simpl; by f_equal]. }
  unfold items, queue_without, lane_without in Hin. simpl in Hin.
  apply elem_of_app in Hin as [Hin|Hin]; apply list_elem_of_filter in Hin as [Hne _]; done.
Qed.

Lemma with_kind_push_entries k (i : Item) (q : Queue) :
  NoDup (item_entry_id <$> items q) -> item_entry_id i ∉ item_entry_id <$> items q ->
  NoDup (item_entry_id <$> items (queue_push (with_kind k i) q)).
Proof.
  intros Hnd Hi.
  assert (item_entry_id <$> items (queue_push (with_kind k i) q) ≡ₚ
    item_entry_id i :: (item_entry_id <$> items q)) as ->; [|by constructor].
  unfold items, queue_push. destruct (item_kind (with_kind k i)); simpl; rewrite ?fmap_app;
    simpl; rewrite ?fmap_app; solve_Permutation.
Qed.

Lemma inv_promote s c rid id r s' :
  queue_inv (s, c) -> (forall i, i ∈ items (queue s) -> message_ok (queued_message (queued i))) ->
  promote_pending_message rid id s = (r, s') -> queue_inv (s', c).
Proof.
  intros Hinv Hmsg Hr. unfold promote_pending_message, m_bind, m_get, m_ret in Hr.
  destruct (existsb _ _); [by injection Hr as _ <-|].
  destruct (take_item id (follow_up (queue s))) as [[i rest]|] eqn:Ht;
    [|by injection Hr as _ <-].
  destruct (take_item_some _ _ _ _ Ht) as (Hidi & a & b & Hlane & _).
  assert (i ∈ items (queue s)) as Hi by (unfold items; rewrite Hlane; set_solver).
  assert (id ∈ ids (queue s)) as Hid by (rewrite <- Hidi; by apply list_elem_of_fmap_2).
  pose proof (Hmsg i Hi) as Hok.
  destruct (enqueued_roundtrip (with_kind Steering i) Hok) as (p & Hp & Hd & _).
  unfold m_lift in Hr. rewrite Hp in Hr.
  set (rec := queue_record rid None QueueEnqueued p s) in Hr.
  destruct (on_transcript (commit_records [rec]) s) as [r1 s1] eqn:Hc.
  assert (Forall plain_record [rec]) as Hplain.
  { constructor; [|done]. by eexists. }
  destruct (on_commit _ _ _ _ Hplain Hc) as [Hs1 Hres].
  destruct r1 as [[]|e]; [|injection Hr as _ <-; by left].
  destruct Hres as [Hl [(xs & Hx & Hrec) He Hw _]]. injection Hr as _ <-.
  pose proof (inv_unlatched _ _ Hinv Hl) as Hin. right.
  pose proof Hin as [Hwf Hlok Hnd (q0 & Hq0 & Hqok & Hf)].
  pose proof (queue_ok_live s c Hlok) as Hqlive.
  inversion Hx as [|? x ? ys [Hk Hpay] Hys]; subst. inversion Hys; subst.
  injection Hpay as Hpay. set (j := with_kind Steering i) in *.
  assert (queue s1 = queue s) as Hq1 by (by rewrite Hs1).
  assert (logical (set_queue (queue_push j (queue_remove (item_id i) (queue s1)).2) s1, c)
    = queue_push j (queue_without (item_id i) (logical (s, c)))) as Hlog.
  { rewrite Hq1, remove_without by done.
    pose proof (logical_without_all s c [item_id i] Hlok) as Hwo. simpl in Hwo.
    rewrite <- Hwo by (by intros y ->%list_elem_of_singleton).
    unfold logical. destruct c; simpl; [by rewrite push_front_push|done]. }
  assert (item_id j ∉ ids (queue_without (item_id i) (logical (s, c)))) as Hfresh.
  { rewrite ids_without. by intros [_ ?]. }
  assert (i ∈ items (logical (s, c))) as Hilog.
  { unfold logical. destruct c; simpl; [by apply items_push_front; right|done]. }
  assert (unwritten s i = true) as Hun.
  { destruct (unwritten s i) eqn:Hun; [done|]. exfalso.
    assert (strip i ∈ items (strip_queue (logical (s, c)))) as Hst.
    { unfold items, strip_queue. simpl. rewrite <- fmap_app. by apply list_elem_of_fmap_2. }
    rewrite <- Hf in Hst. unfold items, queue_filter in Hst. simpl in Hst.
    apply elem_of_app in Hst as [Hst|Hst]; apply list_elem_of_filter in Hst as [Hst _];
      rewrite unwritten_strip in Hst; congruence. }
  eapply (in_sync_commit s c _ c _ q0
    (queue_push (strip j) (queue_remove (item_id j) q0).2) [x]); try done.
  - by apply Hw.
  - cbn [replay_records]. rewrite (replay_enqueued q0 j p x Hp Hok Hk (eq_sym Hpay)).
    reflexivity.
  - apply queue_ok_push; [by apply queue_ok_remove|]. change (item_id (strip j)) with (item_id j).
    rewrite remove_without by done. rewrite ids_without. by intros [_ ?].
  - rewrite Hlog. apply queue_ok_push; [by apply without_ok|done].
  - rewrite Hlog. apply with_kind_push_entries; [by apply without_entries|].
    by apply promoted_entries.
  - rewrite Hlog, strip_push, strip_without, <- Hf, (remove_without _ q0) by done.
    match goal with |- queue_filter (unwritten ?s2) ?q = _ =>
      assert (queue_filter (unwritten s2) q = queue_filter (unwritten s) q) as ->
    end.
    { unfold queue_filter, unwritten, written, store_of. simpl.
      f_equal; apply list_filter_iff; intros y; by rewrite He. }
    rewrite filter_push by done. f_equal. by rewrite filter_without.
Qed.

Lemma inv_claim s allow r s' :
  queue_inv (s, None) -> claim_next_or_close allow s = (Ok r, s') -> queue_inv (s', r).
Proof.
  intros Hinv Hr. unfold claim_next_or_close in Hr.
  assert (q_latched s = true \/ queue_ok (queue s)) as Hok.
  { destruct Hinv as [Hl|Hin]; [by left|right]. apply (sync_ok _ Hin). }
  destruct Hok as [Hl|[_ Hs Hf]].
  { left. repeat case_match; injection Hr as <- <-; done. }
  destruct (steering (queue s)) as [|i rest] eqn:Hst.
  - destruct allow; [|by injection Hr as <- <-].
    destruct (follow_up (queue s)) as [|i rest] eqn:Hfu; injection Hr as <- <-.
    + eapply inv_transcript; [exact Hinv|done..].
    + inversion Hf as [|? ? Hk _]; subst.
      eapply inv_transcript; [exact Hinv|done|..]; unfold logical; simpl;
        unfold queue_push_front; rewrite Hk; simpl; by rewrite ?Hst, ?Hfu.
  - injection Hr as <- <-. inversion Hs as [|? ? Hk _]; subst.
    eapply inv_transcript; [exact Hinv|done|..]; unfold logical; simpl;
      unfold queue_push_front; rewrite Hk; simpl; by rewrite ?Hst.
Qed.

Lemma logical_claimed_entries s i :
  NoDup (item_entry_id <$> items (logical (s, Some i))) ->
  item_entry_id i ∉ item_entry_id <$> items (queue s).
Proof.
  unfold logical. simpl. intros Hnd.
  assert (item_entry_id <$> items (queue_push_front i (queue s)) ≡ₚ
    item_entry_id i :: (item_entry_id <$> items (queue s))) as Hp.
  { unfold items, queue_push_front. destruct (item_kind i); simpl; [done|].
    rewrite !fmap_app. simpl. solve_Permutation. }
  rewrite Hp in Hnd. by apply NoDup_cons in Hnd as [? _].
Qed.

(** Filtering out one more reserved entry does nothing to items without it. *)
Lemma filter_fresh (keep keep' : Item -> bool) (q : Queue) e :
  (forall i, keep' i = keep i && negb (bool_decide (item_entry_id i = e))) ->
  e ∉ item_entry_id <$> items (queue_filter keep q) ->
  queue_filter keep' q = queue_filter keep q.
Proof.
  intros Hk He.
  assert (forall l : list Item, (forall i, i ∈ filter (fun i => keep i = true) l -> item_entry_id i <> e) ->
    filter (fun i => keep' i = true) l = filter (fun i => keep i = true) l) as Hl.
  { induction l as [|i l IH]; intros Hi; [done|].
    destruct (keep i) eqn:Hki.
    - rewrite (filter_cons_True (fun i => keep i = true)) in Hi |- * by done.
      rewrite filter_cons_True.
      + f_equal. apply IH. intros j Hj. by apply Hi, list_elem_of_further.
      + rewrite Hk, Hki, bool_decide_eq_false_2; [done|]. apply Hi, list_elem_of_here.
    - rewrite (filter_cons_False (fun i => keep i = true)) in Hi |- * by (by rewrite Hki).
      rewrite filter_cons_False by (by rewrite Hk, Hki). by apply IH. }
  unfold queue_filter in *. f_equal; apply Hl; intros i Hi Heq; apply He;
    unfold items; simpl; rewrite fmap_app; apply elem_of_app; [left|right];
    rewrite <- Heq; by apply list_elem_of_fmap_2.
Qed.

Lemma inv_consume s i m rid run r s' :
  queue_inv (s, Some i) -> message_ok m ->
  consume_claimed display i m
    (queue_cancellation_record rid run (item_id i) Consumed s) s = (r, s') ->
  queue_inv (s', None).
Proof.
  intros Hinv Hok Hr. unfold consume_claimed in Hr.
  destruct (cancelled s).
  { injection Hr as _ <-. by eapply inv_transcript; [exact Hinv|..]. }
  set (rec := queue_cancellation_record _ _ _ _ _) in Hr.
  assert (plain_record rec) as Hplain.
  { eexists. split; [done|]. apply cancelled_payload_ok. }
  destruct (on_transcript _ s) as [r1 s1] eqn:Hc.
  unfold on_transcript in Hc.
  destruct (commit_consumed _ _ _ (transcript s)) as [r2 t] eqn:Hcc. injection Hc as <- <-.
  destruct (q_latched s) eqn:Hlat.
  { left. assert (latched t = true).
    { unfold commit_consumed, encode_message, m_lift in Hcc.
      destruct (message_roundtrip m Hok) as (o & _ & Hm & _). unfold m_bind at 1 in Hcc.
      rewrite Hm in Hcc. cbn [map_err] in Hcc. unfold m_bind at 1 in Hcc.
      destruct (writable_cases (transcript s)) as [[_ Hl]|(e & Hw & Hl)].
      - unfold q_latched in Hlat. congruence.
      - rewrite Hw in Hcc. injection Hcc as _ <-. done. }
    unfold q_latched. simpl. repeat case_match; injection Hr as _ <-; simpl; try done;
      by rewrite (proj1 (reject_frame _ _ _)). }
  pose proof (inv_unlatched _ _ Hinv Hlat) as Hin.
  pose proof Hin as [Hwf Hlok Hnd (q0 & Hq0 & Hqok & Hf)]. cbn [fst] in Hwf, Hq0, Hf.
  pose proof (commit_consumed_commits _ _ _ _ _ _ Hok Hplain Hwf Hcc) as Hres.
  destruct r2 as [[]|e].
  2: { injection Hr as _ <-. left. unfold q_latched. simpl.
       by rewrite (proj1 (reject_frame _ _ _)). }
  destruct Hres as (_ & _ & Hwf' & (x & [Hk Hpay] & Hrec) & Hget).
  assert (transcript s' = t /\ queue s' = queue s) as [Ht Hq].
  { repeat case_match; injection Hr as _ <-; done. }
  right. injection Hpay as Hpay.
  assert (item_id i ∉ ids (queue s)) as Hidi.
  { destruct Hlok as [Hnd' _ _]. unfold logical in Hnd'. simpl in Hnd'.
    rewrite ids_push_front in Hnd'. by apply NoDup_cons in Hnd' as [? _]. }
  assert (queue_filter (unwritten s) (queue_without (item_id i) q0) = strip_queue (queue s)) as Hf'.
  { rewrite filter_without, Hf. unfold logical. simpl.
    rewrite <- strip_without, without_push_front_same; done. }
  assert (logical (s', None) = queue s) as Hlog by (by unfold logical).
  eapply (in_sync_commit s (Some i) s' None [rec] q0 (queue_without (item_id i) q0) [x]); try done.
  - unfold store_of. by rewrite Ht.
  - unfold store_of. by rewrite Ht.
  - constructor; [|done]. split; [done|]. simpl. by f_equal.
  - cbn [replay_records].
    rewrite (replay_cancelled q0 (item_id i) Consumed x Hk (eq_sym Hpay)), remove_without by done.
    reflexivity.
  - by apply without_ok.
  - rewrite Hlog. by apply (queue_ok_live s (Some i)).
  - rewrite Hlog. unfold logical in Hnd. simpl in Hnd.
    rewrite <- (without_push_front_same i (queue s)) by done. by apply without_entries.
  - rewrite Hlog, <- Hf'. apply (filter_fresh _ _ _ (item_entry_id i)).
    + intros y. unfold unwritten, written, store_of. rewrite Ht, <- negb_orb. f_equal.
      apply Bool.eq_iff_eq_true. rewrite orb_true_iff, !bool_decide_eq_true. apply Hget.
    + rewrite Hf'. unfold items, strip_queue. simpl. rewrite <- fmap_app, <- list_fmap_compose.
      by apply (logical_claimed_entries s i).
Qed.

Lemma inv_other s c t xs :
  queue_inv (s, c) ->
  (q_latched s = true -> latched t = true) ->
  (store_wf (store_of s) -> store_wf (transcript_store t)) ->
  records (transcript_store t) = (records (store_of s) ++ xs)%list ->
  Forall (fun r => queue_kind (record_kind r) = false) xs ->
  (forall e x, get_entry (store_of s) e = Some x -> get_entry (transcript_store t) e = Some x) ->
  (forall i, i ∈ items (logical (s, c)) ->
    get_entry (store_of s) (item_entry_id i) = None ->
    get_entry (transcript_store t) (item_entry_id i) = None) ->
  queue_inv (set_transcript t s, c).
Proof.
  intros [Hl|Hin] Hlat Hw Hrec Hxs Hmono Hres; [by left; apply Hlat|right].
  destruct Hin as [Hwf Hok Hnd (q0 & Hq0 & Hqok & Hf)].
  assert (logical (set_transcript t s, c) = logical (s, c)) as Hlog by (by destruct c).
  split; simpl; rewrite ?Hlog; try done; [by apply Hw|].
  exists q0. unfold from_records, store_of in *. simpl in *.
  rewrite Hrec, replay_records_app, Hq0. cbn [result_bind]. rewrite replay_other by done.
  split; [done|]. split; [done|]. rewrite <- Hf.
  assert (forall l : list Item, (forall i, i ∈ filter (fun i => unwritten s i = true) l ->
      get_entry (transcript_store t) (item_entry_id i) = None) ->
    filter (fun i => unwritten (set_transcript t s) i = true) l
      = filter (fun i => unwritten s i = true) l) as Hfil.
  { induction l as [|i l IH]; intros Hi; [done|].
    destruct (unwritten s i) eqn:Hu.
    - rewrite (filter_cons_True (fun i => unwritten s i = true)) in Hi |- * by done.
      rewrite filter_cons_True; [f_equal; apply IH; intros j Hj; by apply Hi, list_elem_of_further|].
      unfold unwritten, written, store_of. simpl.
      by rewrite (Hi i) by apply list_elem_of_here.
    - rewrite (filter_cons_False (fun i => unwritten s i = true)) in Hi |- * by (by rewrite Hu).
      rewrite filter_cons_False; [by apply IH|].
      unfold unwritten, written, store_of in *. simpl.
      apply negb_false_iff, bool_decide_eq_true in Hu as [x Hx]. rewrite bool_decide_eq_true_2; [done|].
      exists x. by apply Hmono. }
  assert (Forall (fun i => unwritten s i = true) (items (queue_filter (unwritten s) q0))) as Hun.
  { unfold items, queue_filter. simpl. apply Forall_app.
    split; apply Forall_forall; intros i Hi; by apply list_elem_of_filter in Hi as [Hi _]. }
  assert (forall i, i ∈ items (queue_filter (unwritten s) q0) ->
    get_entry (transcript_store t) (item_entry_id i) = None) as Hall.
  { intros i Hi. pose proof Hi as Hold. rewrite Hf in Hi.
    unfold items, strip_queue in Hi. simpl in Hi. rewrite <- fmap_app in Hi. apply list_elem_of_fmap in Hi as (y & -> & Hy).
    apply (Hres y); [done|].
    apply eq_None_not_Some. intros Hwr. rewrite Forall_forall in Hun.
    specialize (Hun _ Hold). unfold unwritten, written in Hun.
    by rewrite bool_decide_eq_true_2 in Hun. }
  unfold queue_filter. f_equal; apply Hfil; intros i Hi; apply Hall;
    unfold items; simpl; apply elem_of_app; [by left|by right].
Qed.

Lemma step_inv x y : queue_step x y -> queue_inv x -> queue_inv y.
Proof.
  destruct 1; intros Hinv.
  - by eapply inv_enqueue.
  - by eapply inv_remove.
  - by eapply inv_clear.
  - by eapply inv_promote.
  - by eapply inv_withdraw.
  - by eapply inv_claim.
  - by eapply inv_claim.
  - by eapply inv_transcript; [exact Hinv|..].
  - by eapply inv_consume.
  - eapply inv_transcript; [exact Hinv|done|..]; unfold logical; destruct c as [i|]; try done;
      simpl; unfold queue_push_front; by destruct (item_kind i).
  - by eapply inv_transcript; [exact Hinv|..].
  - by eapply inv_other.
Qed.

Lemma steps_inv x y : rtc queue_step x y -> queue_inv x -> queue_inv y.
Proof. induction 1; [done|]. intros Hx. by eapply IHrtc, step_inv. Qed.

(** Recovery from a session in step gives its logical queue. *)
Lemma in_sync_restore c :
  in_sync c -> restore (store_of c.1) = Ok (strip_queue (logical c)).
Proof.
  intros [_ _ _ (q0 & Hq0 & Hqok & Hf)]. unfold restore. rewrite Hq0. cbn [result_bind].
  rewrite restore_loop_filter by done. f_equal. rewrite <- Hf. done.
Qed.

(** A session opened on a store without queue records starts in step. *)
Lemma fresh_in_sync (s : Q) :
  store_wf (store_of s) ->
  Forall (fun r => queue_kind (record_kind r) = false) (records (store_of s)) ->
  steering (queue s) = [] -> follow_up (queue s) = [] -> in_sync (s, None).
Proof.
  intros Hwf Hrec Hs Hf. split; [done|..].
  - unfold logical. simpl. split; [|by rewrite Hs|by rewrite Hf].
    rewrite ids_app, Hs, Hf. constructor.
  - unfold logical, items. simpl. rewrite Hs, Hf. constructor.
  - exists queue_default. unfold from_records. rewrite replay_other by done.
    split; [done|]. split; [split; by constructor|].
    unfold logical, strip_queue. simpl. by rewrite Hs, Hf.
Qed.

End Steps.
