(* ===== verification/QueueKeeps.v ===== *)
(** No step of a session's queue loses a stored entry: the store stays well
    formed and every entry stays what it was. *)

From S2P Require Import Prelude Scalar Json Message StoreModel ToolContract.
From S2P Require Import StoreState KernelErrors Plan Replay Transcript Aligned.
From S2P Require Import Queue QueueReplay QueueSteps.
Open Scope string_scope.
Open Scope rust_scope.

Section Keeps.
Context {R : RigTypes} {CC : ContentCodec R} {S : Type} `{SessionStoreLaws S}.
Context (display : KernelError -> string).
Abbreviation T := (SessionTranscript R S).
Abbreviation Q := (QueueSession R S).

Definition kept (s s' : S) : Prop :=
  store_wf s' /\ forall e x, get_entry s e = Some x -> get_entry s' e = Some x.

Lemma kept_trans s1 s2 s3 : kept s1 s2 -> kept s2 s3 -> kept s1 s3.
Proof. intros [_ H12] [Hw H23]. split; auto. Qed.
Lemma kept_tree s s' : store_wf s' -> same_tree s s' -> kept s s'.
Proof. intros Hw (_ & _ & Hg). split; [done|]. intros e x. by rewrite Hg. Qed.

(** ** Operations of the transcript *)

Definition entries_stay {A} (m : M T KernelError A) : Prop := forall t r t',
  store_wf (transcript_store t) -> m t = (r, t') -> kept (transcript_store t) (transcript_store t').

Lemma stay_bind {A B} (m : M T KernelError A) (k : A -> M T KernelError B) :
  entries_stay m -> (forall a, entries_stay (k a)) -> entries_stay (m_bind m k).
Proof.
  intros Hm Hk t r t' Hwf Hr. unfold m_bind in Hr. destruct (m t) as [[a|e] t1] eqn:Hmt.
  - pose proof (Hm _ _ _ Hwf Hmt) as Hs. eapply kept_trans; [exact Hs|].
    eapply Hk; [apply Hs|exact Hr].
  - injection Hr as _ <-. by eapply Hm.
Qed.
Lemma stay_same {A} (m : M T KernelError A) :
  (forall t, transcript_store (m t).2 = transcript_store t) -> entries_stay m.
Proof.
  intros Hm t r t' Hwf Hr. specialize (Hm t). rewrite Hr in Hm. cbn in Hm. rewrite Hm.
  by split.
Qed.
Lemma stay_try {A} (op : M S StoreError A) :
  (forall s, store_wf s -> kept s (op s).2) -> entries_stay (store_try (R := R) op).
Proof.
  intros Hop t r t' Hwf Hr. unfold store_try in Hr. specialize (Hop _ Hwf).
  destruct (op (transcript_store t)) as [x s]. by injection Hr as _ <-.
Qed.
Lemma stay_writable : entries_stay writable.
Proof. apply stay_same. intros t. unfold writable. by repeat case_match. Qed.

Lemma kept_append_entry s l e o :
  store_wf s -> new_entry_payload e = JObject o -> disjoint_keys entry_fields o ->
  kept s (append_entry l e s).2.
Proof.
  intros Hwf Hp Hd. pose proof (append_entry_wf s l e Hwf) as Hw.
  destruct (append_entry l e s) as [[x|err] s'] eqn:Ha; cbn in *.
  - split; [done|]. by eapply appended_entry.
  - apply kept_tree; [done|]. by eapply append_entry_fails.
Qed.

Lemma kept_append_record s x : store_wf s -> plain_record x -> kept s (append_record x s).2.
Proof.
  intros Hwf (p & Hp & Hd). pose proof (append_record_wf s x Hwf) as Hw.
  destruct (append_record x s) as [[y|err] s'] eqn:Ha; cbn in *; apply kept_tree; try done.
  - by destruct (append_record_adds _ _ _ _ _ Hp Hd Ha) as [Ht _].
  - by destruct (append_record_fails _ _ _ _ Ha).
Qed.

Lemma stay_commit_consumed id m r : plain_record r -> entries_stay (commit_consumed id m r).
Proof.
  intros Hplain t x t' Hwf. unfold commit_consumed, m_bind at 1, encode_message, m_lift.
  unfold message_to_value. destruct (message_object m) as [o|] eqn:Ho; cbn [map_err];
    [|by intros [= _ <-]]. revert t x t' Hwf.
  apply stay_bind; [apply stay_writable|intros _].
  assert (forall l, entries_stay (let! outcome :=
      store_try (append_entry l (message_entry id (JObject o))) in
    match outcome with
    | Err _ => uncertain
    | Ok _ =>
        let! _ := push_context m in
        let! recorded := store_try (append_record r) in
        match recorded with Ok _ => m_ret tt | Err _ => uncertain end
    end)) as Hall; [|intros t x t' Hwf; by apply Hall].
  intros l. apply stay_bind.
  { apply stay_try. intros s Hwf. eapply kept_append_entry; [done|reflexivity|].
    by eapply message_object_disjoint. }
  intros [x|e]; [|by apply stay_same]. apply stay_bind; [by apply stay_same|intros _].
  apply stay_bind; [apply stay_try; intros s Hwf; by apply kept_append_record|].
  intros [y|e]; by apply stay_same.
Qed.

Lemma stay_commit_records rs : Forall plain_record rs -> entries_stay (commit_records rs).
Proof.
  intros Hplain. apply stay_bind; [apply stay_writable|intros _]. apply stay_bind.
  - induction Hplain as [|r rs Hr Hrs IH]; [by apply stay_same|]. cbn [append_records].
    apply stay_bind; [apply stay_try; intros s Hwf; by apply kept_append_record|].
    intros [x|e]; [exact IH|by apply stay_same].
  - intros _. apply stay_bind.
    { apply stay_try. intros s Hwf. apply kept_tree; [by apply sync_wf|apply sync_tree]. }
    intros [x|e]; by apply stay_same.
Qed.

(** ** Operations of the queue *)

Definition session_stays {A} (m : M Q KernelError A) : Prop := forall s r s',
  store_wf (store_of s) -> m s = (r, s') -> kept (store_of s) (store_of s').

Lemma session_bind {A B} (m : M Q KernelError A) (k : A -> M Q KernelError B) :
  session_stays m -> (forall a, session_stays (k a)) -> session_stays (m_bind m k).
Proof.
  intros Hm Hk s r s' Hwf Hr. unfold m_bind in Hr. destruct (m s) as [[a|e] s1] eqn:Hms.
  - pose proof (Hm _ _ _ Hwf Hms) as Hs. eapply kept_trans; [exact Hs|].
    eapply Hk; [apply Hs|exact Hr].
  - injection Hr as _ <-. by eapply Hm.
Qed.
Lemma session_same {A} (m : M Q KernelError A) :
  (forall s, transcript (m s).2 = transcript s) -> session_stays m.
Proof.
  intros Hm s r s' Hwf Hr. specialize (Hm s). rewrite Hr in Hm. unfold store_of. cbn in Hm.
  rewrite Hm. by split.
Qed.
Lemma session_commit rs : Forall plain_record rs -> session_stays (on_transcript (commit_records rs)).
Proof.
  intros Hp s r s' Hwf. unfold on_transcript.
  destruct (commit_records rs (transcript s)) as [x t] eqn:Hc. intros [= _ <-].
  by eapply stay_commit_records.
Qed.
Lemma session_get {A} (k : Q -> M Q KernelError A) :
  (forall s, session_stays (k s)) -> session_stays (m_bind m_get k).
Proof. intros Hk. by apply session_bind; [apply session_same|]. Qed.

Lemma reject_transcript error (s : Q) i : transcript (reject display error s i) = transcript s.
Proof. apply reject_frame. Qed.
Lemma withdraw_transcript (l : list QueueId) (s : Q) :
  transcript (foldl (withdraw_one display) s l) = transcript s.
Proof.
  revert s. induction l as [|id l IH]; intros s; [done|]. cbn. rewrite IH. unfold withdraw_one.
  by destruct (queue_remove id (queue s)) as [[i|] q]; [rewrite reject_transcript|].
Qed.

Lemma cancellation_is_plain rid run id reason (s : Q) :
  plain_record (queue_cancellation_record rid run id reason s).
Proof. eexists. split; [done|]. apply cancelled_payload_ok. Qed.

Lemma session_enqueue rid run i stop :
  message_ok (queued_message (queued i)) -> session_stays (enqueue rid run i stop).
Proof.
  intros Hok s r s' Hwf Hr. unfold enqueue, m_bind at 1, m_lift in Hr.
  destruct (enqueued_roundtrip i Hok) as (p & Hp & Hd & _). rewrite Hp in Hr.
  unfold m_bind at 1, m_get in Hr. revert Hr. generalize s at 1. intros s0 Hr.
  revert s r s' Hwf Hr. apply session_get. intros s.
  destruct stop; [by apply session_same|]. destruct (negb _); [by apply session_same|].
  apply session_bind; [|intros _; by apply session_same]. apply session_commit.
  constructor; [by exists p|constructor].
Qed.

Lemma session_remove rid id : session_stays (remove_pending_message display rid id).
Proof.
  apply session_get. intros s0. destruct (negb _); [by apply session_same|].
  apply session_get. intros s. destruct (negb _); [by apply session_same|].
  apply session_bind.
  { apply session_commit. constructor; [apply cancellation_is_plain|constructor]. }
  intros _. apply session_same. intros s1. cbn.
  by destruct (queue_remove id (queue s1)) as [[i|] q]; [rewrite reject_transcript|].
Qed.

Lemma session_clear rids : session_stays (clear_pending_messages display rids).
Proof.
  apply session_get. intros s. apply session_bind; [apply session_commit, cancellation_plain|].
  intros _. apply session_same. intros s1. cbn. by destruct (reject_all_frame display
    PromptCancelled (items (queue s1)) (set_queue {| open := open (queue s1); steering := [];
      follow_up := [] |} s1)) as [-> _].
Qed.

Lemma take_item_in id (l : list (PendingQueueItem R)) x r : take_item id l = Some (x, r) -> x ∈ l.
Proof.
  revert r. induction l as [|y l IH]; intros r; [done|]. cbn.
  case_bool_decide; [intros [= <- <-]; by left|].
  destruct (take_item id l) as [[z r']|]; [|done]. intros [= <- <-]. right. by eapply IH.
Qed.

Lemma kept_promote rid id (s s' : Q) r :
  (forall i, i ∈ items (queue s) -> message_ok (queued_message (queued i))) ->
  store_wf (store_of s) -> promote_pending_message rid id s = (r, s') ->
  kept (store_of s) (store_of s').
Proof.
  intros Hok Hwf Hr. unfold promote_pending_message in Hr. unfold m_bind at 1, m_get in Hr.
  destruct (existsb _ _); [by injection Hr as _ <-|].
  destruct (take_item id _) as [[i rest]|] eqn:Ht; [|by injection Hr as _ <-].
  assert (message_ok (queued_message (queued (with_kind Steering i)))) as Hi.
  { change (message_ok (queued_message (queued i))). apply Hok, elem_of_app. right. by eapply take_item_in. }
  destruct (enqueued_roundtrip _ Hi) as (p & Hp & Hd & _).
  unfold m_bind at 1, m_lift in Hr. rewrite Hp in Hr. revert Hr.
  apply session_bind; [|intros _; by apply session_same|done].
  apply session_commit. constructor; [by exists p|constructor].
Qed.

Lemma session_withdraw rids : session_stays (withdraw_pending display rids).
Proof.
  apply session_bind; [by apply session_same|intros _]. apply session_get. intros s0.
  destruct (item_id <$> _) as [|id l] eqn:Hl; [by apply session_same|].
  intros s r s' Hwf Hr. cbv zeta in Hr.
  destruct (on_transcript (commit_records (cancellation_records rids (id :: l) Withdrawn s)) s)
    as [x s1] eqn:Hc.
  assert (kept (store_of s) (store_of s1)) as Hk.
  { refine (session_commit _ _ _ _ _ Hwf Hc). apply cancellation_plain. }
  cbn -[withdraw_one foldl] in Hr. rewrite Hc in Hr. unfold store_of in *.
  destruct x as [u|e]; injection Hr as _ <-.
  - change (foldl (withdraw_one display) (withdraw_one display s1 id) l)
      with (foldl (withdraw_one display) s1 (id :: l)). by rewrite withdraw_transcript.
  - match goal with |- context [reject_all display ?e ?k s1] =>
      by destruct (reject_all_frame display e k s1) as [-> _] end.
Qed.

Lemma session_consume i m r : plain_record r -> session_stays (consume_claimed display i m r).
Proof.
  intros Hp s x s' Hwf Hr. unfold consume_claimed in Hr.
  destruct (cancelled s); [by injection Hr as _ <-|].
  destruct (on_transcript _ s) as [y s1] eqn:Hc.
  assert (kept (store_of s) (store_of s1)) as Hk.
  { unfold on_transcript in Hc. destruct (commit_consumed _ m r (transcript s)) as [z t] eqn:Hct.
    injection Hc as _ <-. by eapply stay_commit_consumed. }
  destruct y as [u|e]; [destruct (waiter i) as [[n|n]|]; by injection Hr as _ <-|].
  injection Hr as _ <-. unfold store_of in *. by rewrite reject_transcript.
Qed.

(** ** Every step *)

Lemma step_keeps x y :
  queue_step display x y -> store_wf (store_of x.1) -> kept (store_of x.1) (store_of y.1).
Proof.
  destruct 1; cbn [fst]; intros Hwf; try by split.
  - by eapply session_enqueue.
  - by eapply session_remove.
  - by eapply session_clear.
  - by eapply kept_promote.
  - by eapply session_withdraw.
  - revert Hwf H1. apply (session_same (claim_next_or_close allow)). intros s0.
    unfold claim_next_or_close. by repeat case_match.
  - revert Hwf H1. apply (session_same (claim_next_or_close allow)). intros s0.
    unfold claim_next_or_close. by repeat case_match.
  - eapply session_consume; [apply cancellation_is_plain|done|eassumption].
  - split; auto.
Qed.

Lemma steps_keep x y :
  rtc (queue_step display) x y -> store_wf (store_of x.1) -> kept (store_of x.1) (store_of y.1).
Proof.
  induction 1 as [x|x y z Hxy _ IH]; intros Hwf; [by split|].
  pose proof (step_keeps _ _ Hxy Hwf) as Hk. eapply kept_trans; [exact Hk|]. by apply IH, Hk.
Qed.

End Keeps.

(** What the transcript operations of a run do to the store's records and
    entries: they add records that are none of the queue's, and entries at
    identifiers nobody reserved. *)

Open Scope string_scope.
Open Scope rust_scope.

Section LaneSteps.
Context {R : RigTypes} {CC : ContentCodec R} {S : Type} `{SessionStoreLaws S}.
Variable reserved : EntryId -> Prop.
Abbreviation T := (SessionTranscript R S).

Record lane_step (t t' : T) : Prop := {
  lane_latched : latched t = true -> latched t' = true;
  lane_wf : store_wf (transcript_store t');
  lane_records : exists xs,
    records (transcript_store t') = (records (transcript_store t) ++ xs)%list /\
    Forall (fun r => queue_kind (record_kind r) = false) xs;
  lane_entries : forall e x, get_entry (transcript_store t) e = Some x ->
    get_entry (transcript_store t') e = Some x;
  lane_reserved : forall e, reserved e -> get_entry (transcript_store t) e = None ->
    get_entry (transcript_store t') e = None
}.

Lemma lane_step_refl t : store_wf (transcript_store t) -> lane_step t t.
Proof. intros Hwf. split; try done. exists []. by rewrite app_nil_r. Qed.

Lemma lane_step_trans t1 t2 t3 : lane_step t1 t2 -> lane_step t2 t3 -> lane_step t1 t3.
Proof.
  intros [Hl Hw (xs & Hr & Hq) He Hn] [Hl' Hw' (ys & Hr' & Hq') He' Hn'].
  split; auto. exists (xs ++ ys)%list. rewrite Hr', Hr, app_assoc. split; [done|].
  by apply Forall_app.
Qed.

(** Steps that change the store only, and only as the other fields say. *)
Lemma lane_step_store t s :
  store_wf s ->
  (exists xs, records s = (records (transcript_store t) ++ xs)%list /\
    Forall (fun r => queue_kind (record_kind r) = false) xs) ->
  (forall e x, get_entry (transcript_store t) e = Some x -> get_entry s e = Some x) ->
  (forall e, reserved e -> get_entry (transcript_store t) e = None -> get_entry s e = None) ->
  lane_step t (set_store t s).
Proof. done. Qed.

Lemma lane_step_tree t s :
  store_wf s -> same_tree (transcript_store t) s -> records s = records (transcript_store t) ->
  lane_step t (set_store t s).
Proof.
  intros Hwf (_ & _ & Hg) Hr. apply lane_step_store; [done|..].
  - exists []. by rewrite app_nil_r.
  - intros e x. by rewrite Hg.
  - intros e _. by rewrite Hg.
Qed.

Definition lane_steps {A} (op : M T KernelError A) : Prop :=
  forall t r t', store_wf (transcript_store t) -> op t = (r, t') -> lane_step t t'.

Lemma steps_ret {A} (a : A) : lane_steps (m_ret a).
Proof. intros t r t' Hwf [= _ <-]. by apply lane_step_refl. Qed.
Lemma steps_fail {A} e : lane_steps (m_fail (A := A) e).
Proof. intros t r t' Hwf [= _ <-]. by apply lane_step_refl. Qed.
Lemma steps_lift {A} (x : result A KernelError) : lane_steps (m_lift x).
Proof. intros t r t' Hwf [= _ <-]. by apply lane_step_refl. Qed.
Lemma steps_get : lane_steps m_get.
Proof. intros t r t' Hwf [= _ <-]. by apply lane_step_refl. Qed.
Lemma steps_writable : lane_steps writable.
Proof.
  intros t r t' Hwf Hr. destruct (writable_cases t) as [[Hw _]|(e & Hw & _)];
    rewrite Hw in Hr; injection Hr as _ <-; by apply lane_step_refl.
Qed.
Lemma steps_bind {A B} (c : M T KernelError A) (k : A -> M T KernelError B) :
  lane_steps c -> (forall a, lane_steps (k a)) -> lane_steps (m_bind c k).
Proof.
  intros Hc Hk t r t' Hwf Hr. unfold m_bind in Hr. destruct (c t) as [[a|e] t1] eqn:H1.
  - pose proof (Hc t _ t1 Hwf H1) as Hs. eapply lane_step_trans; [exact Hs|].
    eapply Hk; [by apply lane_wf in Hs|exact Hr].
  - injection Hr as _ <-. by eapply Hc.
Qed.

(** Context changes leave the store alone. *)
Lemma steps_context (f : T -> T) :
  (forall t, transcript_store (f t) = transcript_store t /\ (latched t = true -> latched (f t) = true)) ->
  lane_steps (m_modify f).
Proof.
  intros Hf t r t' Hwf [= _ <-]. destruct (Hf t) as [Hs Hl].
  split; rewrite ?Hs; try done. exists []. by rewrite app_nil_r.
Qed.

Lemma steps_append_entry (e : NewEntry) o :
  new_entry_payload e = JObject o -> disjoint_keys entry_fields o ->
  ~ reserved (new_entry_id e) ->
  lane_steps (let! t := m_get in store_call (append_entry (transcript_lane t) e)).
Proof.
  intros Hp Hd Hres t r t' Hwf Hr. unfold m_bind, m_get, store_call in Hr.
  pose proof (append_entry_wf _ (transcript_lane t) e Hwf) as Hw.
  pose proof (append_entry_records (transcript_store t) (transcript_lane t) e o Hp Hd) as Hrec.
  destruct (append_entry (transcript_lane t) e (transcript_store t)) as [[x|err] s] eqn:Ha;
    injection Hr as <- <-; simpl in Hw, Hrec.
  - destruct (appended_entry _ _ _ _ _ _ Hwf Hp Hd Ha) as (Hid & _ & _ & _ & Hold & Hother).
    apply lane_step_store; [done|..].
    + exists []. by rewrite app_nil_r.
    + exact Hold.
    + intros i Hi Hn. rewrite Hother; [done|]. intros ->. by rewrite Hid in Hi.
  - apply lane_step_tree; [done| |done]. by eapply append_entry_fails.
Qed.

Lemma steps_append_record (x : NewRecord) :
  plain_record x -> queue_kind (new_record_kind x) = false ->
  lane_steps (store_call (append_record x)).
Proof.
  intros (p & Hp & Hd) Hk t r t' Hwf Hr. unfold store_call in Hr.
  pose proof (append_record_wf _ x Hwf) as Hw.
  destruct (append_record x (transcript_store t)) as [[y|err] s] eqn:Ha;
    injection Hr as <- <-; simpl in Hw.
  - destruct (append_record_adds _ _ _ _ _ Hp Hd Ha) as (Htree & Hrec & _ & Hkind & _ & _).
    destruct Htree as (_ & _ & Hg). apply lane_step_store; [done|..].
    + exists [y]. split; [done|]. repeat constructor. by rewrite Hkind.
    + intros e z. by rewrite Hg.
    + intros e _. by rewrite Hg.
  - destruct (append_record_fails _ _ _ _ Ha). by apply lane_step_tree.
Qed.

Lemma steps_store_call {A} (op : M S StoreError A) :
  (forall s, store_wf s -> store_wf (op s).2 /\ same_tree s (op s).2 /\
    records (op s).2 = records s) -> lane_steps (store_call op).
Proof.
  intros Hop t r t' Hwf Hr. unfold store_call in Hr.
  destruct (Hop _ Hwf) as (Hw & Ht & Hrec). destruct (op (transcript_store t)) as [x s].
  injection Hr as _ <-. by apply lane_step_tree.
Qed.

Lemma steps_sync : lane_steps (transcript_sync (R := R)).
Proof.
  apply steps_store_call. intros s Hwf.
  split; [by apply sync_wf|]. split; [apply sync_tree|apply sync_records].
Qed.

Lemma steps_default_name n : lane_steps (set_default_name (R := R) n).
Proof.
  apply steps_bind; [apply steps_writable|intros _]. apply steps_bind; [apply steps_get|intros t].
  destruct (was_named _); [apply steps_ret|].
  apply steps_bind; [|intros _; apply steps_ret]. apply steps_store_call. intros s Hwf.
  split; [by apply set_name_wf|]. split; [apply set_name_tree|apply set_name_records].
Qed.

Lemma steps_set_name n : lane_steps (transcript_set_name (R := R) n).
Proof.
  apply steps_bind; [apply steps_writable|intros _]. apply steps_store_call. intros s Hwf.
  split; [by apply set_name_wf|]. split; [apply set_name_tree|apply set_name_records].
Qed.

Lemma steps_transcript_record (x : NewRecord) :
  plain_record x -> queue_kind (new_record_kind x) = false ->
  lane_steps (transcript_append_record (R := R) x).
Proof.
  intros Hp Hk. apply steps_bind; [apply steps_writable|intros _]. by apply steps_append_record.
Qed.

(** The shape both appending operations have: lift a value, then append. *)
Lemma steps_append_then {B} (e : NewEntry) o (k : SessionEntry -> M T KernelError B) :
  new_entry_payload e = JObject o -> disjoint_keys entry_fields o -> ~ reserved (new_entry_id e) ->
  (forall x, lane_steps (k x)) ->
  forall (t0 t : T) r t', store_wf (transcript_store t) -> transcript_lane t0 = transcript_lane t ->
    m_bind (store_call (append_entry (transcript_lane t0) e)) k t = (r, t') -> lane_step t t'.
Proof.
  intros Hp Hd Hres Hk t0 t r t' Hwf Hlane Hr. rewrite Hlane in Hr.
  assert (lane_steps (let! x := (let! t := m_get in
      store_call (append_entry (transcript_lane t) e)) in k x)) as Hall.
  { apply steps_bind; [by eapply steps_append_entry|exact Hk]. }
  by eapply Hall.
Qed.

Lemma steps_append_message id (m : AgentMessage R) :
  ~ reserved id -> lane_steps (append_context_message id m).
Proof.
  intros Hres. apply steps_bind; [apply steps_writable|intros _].
  intros t r t' Hwf Hr. unfold m_bind at 1, m_get in Hr. unfold encode_message in Hr.
  unfold m_bind at 1, m_lift in Hr. unfold message_to_value in Hr.
  destruct (message_object m) as [o|] eqn:Ho; cbn [map_err] in Hr;
    [|injection Hr as _ <-; by apply lane_step_refl].
  eapply (steps_append_then (message_entry id (JObject o)) o);
    [done|by eapply message_object_disjoint|done| |exact Hwf|reflexivity|exact Hr].
  intros x. by apply steps_context.
Qed.

Lemma steps_finish_compaction id (d : CompactionData R) :
  ~ reserved id -> lane_steps (finish_compaction id d).
Proof.
  intros Hres. unfold finish_compaction. apply steps_bind; [apply steps_lift|intros context].
  unfold m_bind, m_lift. intros t r t' Hwf Hr.
  destruct (compaction_object d) as [o|] eqn:Ho; cbn [map_err] in Hr;
    [|injection Hr as _ <-; by apply lane_step_refl].
  revert t r t' Hwf Hr. unfold commit_compaction.
  apply steps_bind; [apply steps_writable|intros _].
  intros t r t' Hwf Hr. unfold m_bind at 1, m_get in Hr.
  unfold m_bind at 1, m_lift at 1 in Hr.
  destruct (active_branch t) as [b|]; [|injection Hr as _ <-; by apply lane_step_refl].
  unfold m_bind at 1, m_lift in Hr.
  destruct (after_compaction _ _ _ _) as [prepared|];
    [|injection Hr as _ <-; by apply lane_step_refl].
  eapply (steps_append_then {| new_entry_id := id; new_entry_kind := KindCompaction;
                               new_entry_payload := JObject o |} o);
    [reflexivity|by eapply compaction_object_disjoint|done| |exact Hwf|reflexivity|exact Hr].
  intros x. by apply steps_context.
Qed.

End LaneSteps.
