(* ===== verification/Execution.v ===== *)
(** One live session's serialized lifecycle: the operation gate, cancellation of
    the current operation and of the prompts waiting for it, shutdown, the
    active Run, the client prompts a Run waits on, the event sequence and the
    order of admission.
    [crates/kernel/src/runtime/run/lifecycle.rs], the tickets of
    [admission.rs] and [WaiterCancellation] of [insertion.rs]

    Cancellation tokens are tokio-util's: the class [CancellationTokens].  A
    task is a number; the gate is the task that holds its guard.  An operation
    that waits is what it captured when it began and one poll of its [select!],
    which answers nothing while it must wait.  Wake-ups, log messages and
    poisoned locks are left out. *)

From S2P Require Import Prelude Scalar Json Message StoreModel StoreState ToolContract KernelErrors Plan Replay.
From S2P Require Import Transcript Queue.
Open Scope string_scope.
Open Scope rust_scope.

Class CancellationTokens := {
  Token : Type;
  TokenStore : Type;
  is_cancelled : TokenStore -> Token -> bool;
  new_token : TokenStore -> Token * TokenStore;
  child_token : Token -> TokenStore -> Token * TokenStore;
  cancel_token : Token -> TokenStore -> TokenStore;
  (** A token stays cancelled. *)
  new_keeps : forall ts t, is_cancelled ts t = true -> is_cancelled (new_token ts).2 t = true;
  child_keeps : forall p ts t,
    is_cancelled ts t = true -> is_cancelled (child_token p ts).2 t = true;
  cancel_keeps : forall c ts t, is_cancelled ts t = true -> is_cancelled (cancel_token c ts) t = true;
  cancel_sets : forall ts t, is_cancelled (cancel_token t ts) t = true;
  (** A new token is not cancelled, a child as its parent is. *)
  new_fresh : forall ts, is_cancelled (new_token ts).2 (new_token ts).1 = false;
  child_as_parent : forall p ts,
    is_cancelled (child_token p ts).2 (child_token p ts).1 = is_cancelled ts p
}.

Inductive SessionLifecycle : Type := Starting | Active | Closing | Closed.
#[export] Instance session_lifecycle_eq_dec : EqDecision SessionLifecycle.
Proof. solve_decision. Defined.

(** [AdmissionState]: the tickets issued, the one whose turn it is, and the
    ones after it already released. *)
Record AdmissionState : Type := { issued : Z; next : Z; released : gset Z }.
Definition admission_default : AdmissionState := {| issued := 0; next := 0; released := ∅ |}.

(** The loop of [AdmissionTicket::release]. *)
Fixpoint release_loop (fuel : nat) (next : Z) (released : gset Z) : Z * gset Z :=
  match fuel with
  | 0 => (next, released)
  | S fuel =>
      if bool_decide (next ∈ released)
      then release_loop fuel (next + 1) (released ∖ {[ next ]})
      else (next, released)
  end.

(** [AdmissionTicket::release] of a ticket not yet released. *)
Definition release_ticket (number : Z) (a : AdmissionState) : AdmissionState :=
  let all := released a ∪ {[ number ]} in
  let '(next, rest) := release_loop (S (size all)) (next a) all in
  {| issued := issued a; next := next; released := rest |}.

Section Execution.
Context {R : RigTypes} {C : CancellationTokens}.

(** [WaiterCancellation] *)
Inductive WaiterCancellation : Type :=
| Reject
| Ignore
| Captured (t : Token).

(** [WaiterCancellation::closing] *)
Definition waiter_closing (w : WaiterCancellation) : KernelError :=
  match w with Reject | Captured _ => PromptCancelled | Ignore => SessionClosing end.

Record SessionExecution : Type := {
  token_store : TokenStore;
  lifecycle : SessionLifecycle;
  closing : bool;
  gate : option nat;
  close_requested : Token;
  waiter_generation : Token;
  current_cancellation : Token;
  active_context : option (RunId * TurnId);
  user_waits : Z;
  pending_queue : PendingQueue R;
  event_sequence : Z;
  admission : AdmissionState
}.
Abbreviation X := SessionExecution.
Abbreviation K := (M SessionExecution KernelError).

Definition set_tokens (ts : TokenStore) (e : X) : X :=
  {| token_store := ts; lifecycle := lifecycle e; closing := closing e; gate := gate e;
     close_requested := close_requested e; waiter_generation := waiter_generation e;
     current_cancellation := current_cancellation e; active_context := active_context e;
     user_waits := user_waits e; pending_queue := pending_queue e;
     event_sequence := event_sequence e; admission := admission e |}.
Definition set_lifecycle (l : SessionLifecycle) (c : bool) (e : X) : X :=
  {| token_store := token_store e; lifecycle := l; closing := c; gate := gate e;
     close_requested := close_requested e; waiter_generation := waiter_generation e;
     current_cancellation := current_cancellation e; active_context := active_context e;
     user_waits := user_waits e; pending_queue := pending_queue e;
     event_sequence := event_sequence e; admission := admission e |}.
Definition set_gate (g : option nat) (e : X) : X :=
  {| token_store := token_store e; lifecycle := lifecycle e; closing := closing e; gate := g;
     close_requested := close_requested e; waiter_generation := waiter_generation e;
     current_cancellation := current_cancellation e; active_context := active_context e;
     user_waits := user_waits e; pending_queue := pending_queue e;
     event_sequence := event_sequence e; admission := admission e |}.
Definition set_close_requested (t : Token) (e : X) : X :=
  {| token_store := token_store e; lifecycle := lifecycle e; closing := closing e; gate := gate e;
     close_requested := t; waiter_generation := waiter_generation e;
     current_cancellation := current_cancellation e; active_context := active_context e;
     user_waits := user_waits e; pending_queue := pending_queue e;
     event_sequence := event_sequence e; admission := admission e |}.
Definition set_generation (t : Token) (q : PendingQueue R) (e : X) : X :=
  {| token_store := token_store e; lifecycle := lifecycle e; closing := closing e; gate := gate e;
     close_requested := close_requested e; waiter_generation := t;
     current_cancellation := current_cancellation e; active_context := active_context e;
     user_waits := user_waits e; pending_queue := q;
     event_sequence := event_sequence e; admission := admission e |}.
Definition set_cancellation (t : Token) (e : X) : X :=
  {| token_store := token_store e; lifecycle := lifecycle e; closing := closing e; gate := gate e;
     close_requested := close_requested e; waiter_generation := waiter_generation e;
     current_cancellation := t; active_context := active_context e;
     user_waits := user_waits e; pending_queue := pending_queue e;
     event_sequence := event_sequence e; admission := admission e |}.
Definition set_context (a : option (RunId * TurnId)) (waits : Z) (q : PendingQueue R) (e : X) : X :=
  {| token_store := token_store e; lifecycle := lifecycle e; closing := closing e; gate := gate e;
     close_requested := close_requested e; waiter_generation := waiter_generation e;
     current_cancellation := current_cancellation e; active_context := a;
     user_waits := waits; pending_queue := q;
     event_sequence := event_sequence e; admission := admission e |}.
Definition set_event_sequence (n : Z) (e : X) : X :=
  {| token_store := token_store e; lifecycle := lifecycle e; closing := closing e; gate := gate e;
     close_requested := close_requested e; waiter_generation := waiter_generation e;
     current_cancellation := current_cancellation e; active_context := active_context e;
     user_waits := user_waits e; pending_queue := pending_queue e;
     event_sequence := n; admission := admission e |}.
Definition set_admission (a : AdmissionState) (e : X) : X :=
  {| token_store := token_store e; lifecycle := lifecycle e; closing := closing e; gate := gate e;
     close_requested := close_requested e; waiter_generation := waiter_generation e;
     current_cancellation := current_cancellation e; active_context := active_context e;
     user_waits := user_waits e; pending_queue := pending_queue e;
     event_sequence := event_sequence e; admission := a |}.

Definition modify_execution (f : X -> X) : K unit := fun e => (Ok tt, f e).
Definition cancelled_now (t : Token) (e : X) : bool := is_cancelled (token_store e) t.

(** ** Lifecycle *)

(** [ensure_active] *)
Definition ensure_active (e : X) : result unit KernelError :=
  match lifecycle e with
  | Starting => Err SessionStarting
  | Active => Ok tt
  | Closing | Closed => Err SessionClosing
  end.

(** [finish_starting] *)
Definition finish_starting : K unit := fun e =>
  match lifecycle e with
  | Starting => (Ok tt, set_lifecycle Active (closing e) e)
  | _ => (Err (Protocol "only a starting Session can finish startup"), e)
  end.

(** [begin_closing]; its guard's drop is [settle_closing]. *)
Definition begin_closing : K unit := fun e =>
  match lifecycle e with
  | Starting => (Err SessionStarting, e)
  | Active => (Ok tt, set_lifecycle Closing true e)
  | Closing | Closed => (Err SessionClosing, e)
  end.
Definition settle_closing : K unit :=
  modify_execution (fun e => set_lifecycle (lifecycle e) false e).

Definition fresh_token (e : X) : Token * X :=
  let '(t, ts) := new_token (token_store e) in (t, set_tokens ts e).

(** [abort_closing] *)
Definition abort_closing : K unit := fun e =>
  match lifecycle e with
  | Closing =>
      let '(t, e) := fresh_token (set_lifecycle Active (closing e) e) in
      (Ok tt, set_close_requested t e)
  | _ => (Err (Protocol "only a closing Session can abort shutdown"), e)
  end.

(** [finish_closing] *)
Definition finish_closing : K unit :=
  modify_execution (fun e => set_lifecycle Closed (closing e) e).

(** ** Cancellation *)

(** [cancel] *)
Definition cancel_operation : K unit := modify_execution (fun e =>
  let ts := cancel_token (current_cancellation e) (token_store e) in
  let ts := cancel_token (waiter_generation e) ts in
  let '(t, ts) := new_token ts in
  set_generation t (with_open false (pending_queue e)) (set_tokens ts e)).

(** [request_close], in its two locked sections. *)
Definition signal_close : K unit := modify_execution (fun e =>
  set_tokens (cancel_token (close_requested e) (token_store e)) e).
Definition request_close : K unit := let! _ := signal_close in cancel_operation.

(** The token of an operation: a child of its parent's. *)
Definition operation_token (parent : option Token) (e : X) : Token * X :=
  match parent with
  | None => fresh_token e
  | Some p => let '(t, ts) := child_token p (token_store e) in (t, set_tokens ts e)
  end.

(** [install_cancellation], in its two locked sections: other tasks may act
    between them. *)
Definition prepare_cancellation (parent : option Token) : K Token := fun e =>
  let '(t, e) := operation_token parent e in
  (Ok t, if cancelled_now (close_requested e) e
         then set_tokens (cancel_token t (token_store e)) e else e).
Definition store_cancellation (t : Token) : K unit := modify_execution (set_cancellation t).
Definition install_cancellation (parent : option Token) : K Token :=
  let! t := prepare_cancellation parent in
  let! _ := store_cancellation t in
  m_ret t.

(** ** The gate *)

(** What an operation captures before it waits. *)
Definition operation_begin : K Token := fun e =>
  match ensure_active e with
  | Ok _ => (Ok (close_requested e), e)
  | Err error => (Err error, e)
  end.

(** An answer, or none while the operation must wait. *)
Definition poll (A : Type) : Type := option (result A KernelError).

(** The poll of [acquire_operation]. *)
Definition operation_poll (task : nat) (closing : Token) (e : X) : poll unit * X :=
  if cancelled_now closing e then (Some (Err SessionClosing), e)
  else
    match gate e with
    | Some _ => (None, e)
    | None =>
        match ensure_active e with
        | Ok _ => (Some (Ok tt), set_gate (Some task) e)
        | Err error => (Some (Err error), e)
        end
    end.

(** What a prompt captures before it waits. *)
Definition prompt_begin (w : WaiterCancellation) : K (Token * option Token) := fun e =>
  match ensure_active e with
  | Ok _ =>
      (Ok (close_requested e,
           match w with
           | Reject => Some (waiter_generation e)
           | Ignore => None
           | Captured t => Some t
           end), e)
  | Err error => (Err error, e)
  end.

Definition any_cancelled (t : option Token) (e : X) : bool :=
  match t with Some t => cancelled_now t e | None => false end.

(** [acquire_operation_for_prompt] once the gate is its own. *)
Definition prompt_admit (task : nat) (closing : Token) (parent waiting : option Token)
  (w : WaiterCancellation) (e : X) : result Token KernelError * X :=
  match ensure_active e with
  | Err SessionClosing => (Err (waiter_closing w), e)
  | Err error => (Err error, e)
  | Ok _ =>
      if any_cancelled waiting e || any_cancelled parent e then (Err PromptCancelled, e)
      else
        let '(t, e) := operation_token parent e in
        if cancelled_now closing e then
          match w with
          | Reject | Captured _ => (Err PromptCancelled, e)
          | Ignore =>
              (Ok t, set_gate (Some task)
                       (set_cancellation t (set_tokens (cancel_token t (token_store e)) e)))
          end
        else (Ok t, set_gate (Some task) (set_cancellation t e))
  end.

(** The poll of [acquire_operation_for_prompt]. *)
Definition prompt_poll (task : nat) (closing : Token) (parent waiting : option Token)
  (w : WaiterCancellation) (e : X) : poll Token * X :=
  if cancelled_now closing e then (Some (Err (waiter_closing w)), e)
  else if any_cancelled parent e then (Some (Err PromptCancelled), e)
  else if any_cancelled waiting e then (Some (Err PromptCancelled), e)
  else
    match gate e with
    | Some _ => (None, e)
    | None => let '(r, e) := prompt_admit task closing parent waiting w e in (Some r, e)
    end.

(** [try_acquire_operation] *)
Definition try_acquire_operation (task : nat) : K bool := fun e =>
  match ensure_active e with
  | Err error => (Err error, e)
  | Ok _ =>
      if cancelled_now (close_requested e) e then (Err SessionClosing, e)
      else
        match gate e with
        | Some _ => (Ok false, e)
        | None => (Ok true, set_gate (Some task) e)
        end
  end.

(** The poll of [acquire_close], after its [request_close]. *)
Definition close_poll (task : nat) (e : X) : poll unit * X :=
  match gate e with
  | Some _ => (None, e)
  | None =>
      match ensure_active e with
      | Ok _ => (Some (Ok tt), set_gate (Some task) e)
      | Err error => (Some (Err error), e)
      end
  end.

(** The guard's drop. *)
Definition release_gate (task : nat) (e : X) : X :=
  if bool_decide (gate e = Some task) then set_gate None e else e.

(** ** The active Run *)

(** [install_run] *)
Definition install_run (run : RunId) (turn : TurnId) : K unit := fun e =>
  match active_context e with
  | Some _ => (Err (Protocol "session already has an active run"), e)
  | None => (Ok tt, set_context (Some (run, turn)) 0 (pending_queue e) e)
  end.

(** The lease's drop, its receipts aside. *)
Definition drop_lease (run : RunId) (e : X) : X :=
  set_context
    (match active_context e with
     | Some (r, turn) => if bool_decide (r = run) then None else Some (r, turn)
     | None => None
     end) (user_waits e) (with_open false (pending_queue e)) e.

(** [begin_user_wait], [end_user_wait] *)
Definition begin_user_wait (e : X) : bool * X :=
  ((user_waits e =? 0)%Z,
   set_context (active_context e) ((user_waits e + 1) mod 2 ^ 64)%Z (pending_queue e) e).
Definition end_user_wait (e : X) : bool * X :=
  if (user_waits e =? 0)%Z then (false, e)
  else ((user_waits e =? 1)%Z,
        set_context (active_context e) (user_waits e - 1)%Z (pending_queue e) e).

(** [next_sequence] *)
Definition next_sequence : K Sequence := fun e =>
  let raw := event_sequence e in
  let e := set_event_sequence ((raw + 1) mod 2 ^ 64)%Z e in
  match u64_checked_add raw 1 with
  | None => (Err (Protocol "event sequence overflow"), e)
  | Some raw => (map_err (fun error => Protocol (scalar_error_text error)) (sequence_try_from raw), e)
  end.

(** ** Admission *)

(** [Kernel::admission_ticket]: a number and the stop generation. *)
Definition admission_ticket : K (Z * Token) := fun e =>
  let a := admission e in
  match u64_checked_add (issued a) 1 with
  | None => (Err (Protocol "admission sequence overflow"), e)
  | Some more =>
      (Ok (issued a, waiter_generation e),
       set_admission {| issued := more; next := next a; released := released a |} e)
  end.

(** One round of [AdmissionTicket::wait]. *)
Definition ticket_poll (number : Z) (cancellation : Token) (e : X) : poll unit :=
  if cancelled_now cancellation e then Some (Err PromptCancelled)
  else if (next (admission e) =? number)%Z then Some (Ok tt) else None.

End Execution.
