(* ===== verification/RunWorld.v ===== *)
(** What one run works on: its session, the values its Turns carry over, the
    events it hands to its sink, and everything it asks of other code.

    The code is asynchronous.  A run suspends at every [await]; what the other
    tasks of the session do meanwhile is [other_tasks], an arbitrary change of
    the session's state that the theorems constrain to be steps of the pending
    queue.  Clocks, identifiers, model streams, hooks of extensions and the sink
    answer through the class [RunEnv], indexed by a counter that every question
    advances, so no two answers are tied to each other.

    [EventEmitter] of [crates/kernel/src/runtime.rs], [AgentEventPayload] of
    [crates/protocol/src/event.rs], [TurnLoop] and [TurnContext] of
    [crates/kernel/src/runtime/run/turn.rs], and the helpers of [run.rs] and
    [session.rs] that every phase uses.  The sequence number an event carries
    is left out, so the list is the events in the order they were emitted. *)

From S2P Require Import Prelude Scalar Json Message StoreModel StoreState ToolContract KernelErrors Skills Plan Replay.
From S2P Require Import Transcript Compaction Attempt Queue.
Open Scope string_scope.
Open Scope rust_scope.

(** ** Values *)

Section Values.
Context {R : RigTypes}.

(** [CompactionOutcome] *)
Inductive CompactionOutcome : Type :=
| CompactionCompleted (result : CompactionResult R)
| CompactionFailed (message : string)
| CompactionCancelled.

(** The events a run publishes; a tool call's start also tells its working
    directory and the files it names, which only clients read. *)
Inductive RunEvent : Type :=
| RunStart (run_id : RunId)
| TurnStart (run_id : RunId)
| MessageStart (message_id : MessageId)
| MessageTextDelta (message_id : MessageId) (delta : string)
| MessageReasoningDelta (message_id : MessageId) (delta : string)
| MessageEnd (message : AgentMessage R)
| UsageUpdated (usage : ModelUsage R) (context_window : Z)
| RetryScheduled (run_id : RunId) (attempt max_attempts delay_ms : Z) (error : string)
| RetryStart (run_id : RunId) (attempt max_attempts : Z)
| RetryEnd (run_id : RunId) (attempt : Z) (success : bool) (final_error : option string)
| TurnEnd (turn : TurnRecord)
| RunEnd (run_id : RunId) (outcome : AgentOutcome)
| AgentSettled (run_id : RunId) (outcome : AgentOutcome) (usage : ModelUsage R)
| SessionTitleChanged (title : option string)
| CompactionStart (run_id : RunId) (reason : CompactionReason)
| CompactionEnd (run_id : RunId) (reason : CompactionReason)
    (outcome : CompactionOutcome)
| ToolExecutionStart (run_id : RunId) (call : ToolCall)
| ToolExecutionEnd (run_id : RunId) (result : ToolResultData)
| SkillDiagnosed (diagnostic : SkillDiagnostic)
| SlashCommandStart (run_id : RunId) (invocation : SlashCommandInvocation)
| SlashCommandEnd (run_id : RunId) (status : SlashCommandStatus) (message : option string)
| UserBashStarted (run_id : RunId) (message_id : MessageId) (command cwd : string)
    (exclude_from_context : bool)
| UserBashOutput (run_id : RunId) (message_id : MessageId) (output : string)
| UserBashFinished (run_id : RunId) (message_id : MessageId) (outcome : AgentOutcome)
    (result_emitted : bool).

Record PublishedEvent : Type := {
  event_turn_id : TurnId;
  event_timestamp_ms : TimestampMs;
  event_payload : RunEvent
}.

Record ToolBatchResult : Type := {
  batch_messages : list (AgentMessage R);
  batch_results : list ToolResultData;
  batch_cancelled : bool;
  batch_terminate : bool
}.

(** [ToolBatchResult::default()] *)
Definition batch_default : ToolBatchResult :=
  {| batch_messages := []; batch_results := []; batch_cancelled := false;
     batch_terminate := false |}.

(** [ModelRequest], without its tools and cache options, which only the
    provider reads. *)
Record ModelRequest : Type := {
  request_messages : list (AgentMessage R);
  request_max : option Z
}.

(** What an extension may supply instead of a generated summary. *)
Record ExtensionCompaction : Type := {
  supplied_summary : string;
  supplied_tail : list (AgentMessage R);
  supplied_tokens_before : Z
}.

End Values.
Arguments CompactionOutcome R : clear implicits.
Arguments RunEvent R : clear implicits.
Arguments PublishedEvent R : clear implicits.
Arguments ToolBatchResult R : clear implicits.
Arguments ExtensionCompaction R : clear implicits.
Arguments ModelRequest R : clear implicits.

(** The kernel's configuration a run reads. *)
Record KernelConfig : Type := {
  compaction_policy : CompactionPolicy;
  kernel_retry_policy : RetryPolicy;
  provider_retry_delay_limit_ms : Z;
  max_turns : option nat
}.

(** [TurnLoop]: what the Turns of one run carry over. *)
Record TurnLoop {R : RigTypes} : Type := {
  produced_messages : list (AgentMessage R);
  turns : list TurnRecord;
  next_initial_input : option (MessageContent R);
  next_queued_item : option (PendingQueueItem R);
  next_turn_id : option TurnId;
  retry_of : RetryState;
  overflow_recovery_attempted : bool;
  system_prompt_override : option string;
  before_agent_messages : option (list ExtensionMessage);
  retained_input : option (MessageContent R);
  user_message_inserted : bool;
  usage : ModelUsage R
}.
Arguments TurnLoop R : clear implicits.

Record World {R : RigTypes} {S : Type} : Type := {
  session : QueueSession R S;
  active_run : option (RunId * TurnId);
  loop : TurnLoop R;
  events : list (PublishedEvent R);
  asked : nat
}.
Arguments World R S : clear implicits.

(** Everything outside the modelled code, by the number of the question. *)
Class RunEnv (R : RigTypes) (S : Type) := {
  clock_reading : nat -> TimestampMs;
  generated_id : nat -> string;
  other_tasks : nat -> QueueSession R S -> QueueSession R S;
  emit_error : nat -> option KernelError;
  snapshot_error : nat -> option KernelError;
  (** Whether an extension handles message updates: registries are frozen. *)
  observes_updates : bool;
  active_model : nat -> ModelProfile;
  preflight_error : nat -> option (Attempt.ModelError R);
  model_stream : nat -> ModelRequest R ->
    result (list (StreamItem R)) (Attempt.ModelError R);
  backoff_first : nat -> bool;
  system_prompt : nat -> result (AgentMessage R) KernelError;
  before_agent_hooks : nat -> option string * list ExtensionMessage;
  message_end_hooks : nat -> AgentMessage R -> AgentMessage R;
  context_hooks : nat -> ModelRequest R -> ModelRequest R;
  compact_hooks : nat -> bool * option (ExtensionCompaction R);
  adapt_input : ModelProfile -> ModelRequest R -> ModelRequest R;
  native_text : RigAssistantMessage -> string;
  native_blocks_of : RigAssistantMessage -> result (list ContentBlock) (Attempt.ModelError R);
  native_matches : RigAssistantMessage -> list ContentBlock -> StopReason ->
    result bool (Attempt.ModelError R);
  usage_zero : ModelUsage R;
  usage_add : ModelUsage R -> ModelUsage R -> ModelUsage R;
  model_error_text : Attempt.ModelError R -> string;
  kernel_error_text : KernelError -> string
}.

Section World.
Context {R : RigTypes} {CC : ContentCodec R} {S : Type} `{SessionStore S} {E : RunEnv R S}.
Abbreviation W := (World R S).
Abbreviation K := (M (World R S) KernelError).
Abbreviation Message := (AgentMessage R).

Definition set_session (s : QueueSession R S) (w : W) : W :=
  {| session := s; active_run := active_run w; loop := loop w; events := events w;
     asked := asked w |}.
Definition set_loop (l : TurnLoop R) (w : W) : W :=
  {| session := session w; active_run := active_run w; loop := l; events := events w;
     asked := asked w |}.
Definition set_active (a : option (RunId * TurnId)) (w : W) : W :=
  {| session := session w; active_run := a; loop := loop w; events := events w;
     asked := asked w |}.
Definition set_events (l : list (PublishedEvent R)) (w : W) : W :=
  {| session := session w; active_run := active_run w; loop := loop w; events := l;
     asked := asked w |}.

Definition modify_world (f : W -> W) : K unit := fun w => (Ok tt, f w).
Definition modify_loop (f : TurnLoop R -> TurnLoop R) : K unit :=
  modify_world (fun w => set_loop (f (loop w)) w).

(** An answer of the environment. *)
Definition ask {A} (answers : nat -> A) : K A := fun w =>
  (Ok (answers (asked w)),
   {| session := session w; active_run := active_run w; loop := loop w; events := events w;
      asked := Datatypes.S (asked w) |}).
Definition ask_result {A} (answers : nat -> result A KernelError) : K A :=
  let! r := ask answers in m_lift r.
(** A call that only fails or succeeds. *)
Definition ask_error (answers : nat -> option KernelError) : K unit :=
  let! e := ask answers in match e with Some e => m_fail e | None => m_ret tt end.

(** What other tasks do while this one is suspended. *)
Definition await : K unit :=
  let! others := ask other_tasks in
  modify_world (fun w => set_session (others (session w)) w).

Definition on_session {A} (c : M (QueueSession R S) KernelError A) : K A := fun w =>
  let '(r, s) := c (session w) in (r, set_session s w).
Definition on_lane {A} (c : M (SessionTranscript R S) KernelError A) : K A :=
  on_session (on_transcript c).

(** A failure the code looks at instead of passing on. *)
Definition attempt {A} (c : K A) : K (result A KernelError) := fun w =>
  let '(r, w') := c w in (Ok r, w').

(** [CancellationToken::is_cancelled] of the run's token *)
Definition is_cancelled : K bool := fun w => (Ok (cancelled (session w)), w).

Definition now : K TimestampMs := ask clock_reading.

(** [KernelError::from] of a model's error *)
Definition from_model_error (e : Attempt.ModelError R) : KernelError :=
  Model (match e with
         | Attempt.AuthRequired method_id => KernelErrors.AuthRequired method_id
         | Attempt.ModelCancelled => KernelErrors.ModelCancelled
         | e => ModelFailed (model_error_text e)
         end).

(** An identifier of the generator, checked. *)
Definition fresh_id (kind : string) : K (string_id kind) :=
  let! raw := ask generated_id in
  m_lift (map_err (fun e => Protocol (scalar_error_text e)) (id_try_from kind raw)).

(** [Kernel::new_turn_id], [message_id] *)
Definition new_turn_id : K TurnId := fresh_id "turn".
Definition new_message_id : K MessageId := fresh_id "message".

Definition timing_of (timestamp started ended : TimestampMs) : K MessageTiming :=
  m_lift (map_err (fun e => Protocol (timing_error_text e))
            (message_timing_try_from timestamp started ended)).

(** [Kernel::message_now] *)
Definition message_now (turn : TurnId) (c : MessageContent R) : K Message :=
  let! timestamp := now in
  let! id := new_message_id in
  let! t := timing_of timestamp timestamp timestamp in
  m_ret {| identity := {| message_id := id; turn_id := turn |}; timing := t; content := c |}.

(** [materialize_extension_message]: the clock is read before the identifier. *)
Definition materialize_extension_message (turn : TurnId) (draft : ExtensionMessage) : K Message :=
  message_now turn (Extension draft).

(** [EventEmitter::emit_at], [emit] *)
Definition emit_at (turn : TurnId) (timestamp : TimestampMs) (payload : RunEvent R) : K unit :=
  let! _ := modify_world (fun w =>
    set_events (events w ++ [{| event_turn_id := turn; event_timestamp_ms := timestamp;
                                event_payload := payload |}])%list w) in
  let! _ := await in
  ask_error emit_error.
Definition emit (turn : TurnId) (payload : RunEvent R) : K unit :=
  let! timestamp := now in emit_at turn timestamp payload.

(** [message_end] hooks *)
Definition emit_message_end (m : Message) : K Message :=
  let! _ := await in
  let! hooks := ask message_end_hooks in
  m_ret (hooks m).

(** [Kernel::persist_message], at a fresh entry identifier *)
Definition persist_message (m : Message) : K unit :=
  let! id := fresh_id "entry" in
  on_lane (append_context_message id m).

(** [Kernel::record_operation] *)
Definition record_operation (run : RunId) (kind : RecordKind) (payload : json_map) : K unit :=
  let! id := fresh_id "record" in
  let! w := m_get in
  let! _ := on_lane (transcript_append_record
    {| new_record_id := id; new_record_lane := transcript_lane (transcript (session w));
       new_record_run_id := Some run; new_record_kind := kind;
       new_record_payload := JObject payload |}) in
  m_ret tt.

(** [Session::sync_store] *)
Definition sync_store : K unit := on_lane transcript_sync.

(** [SessionTranscript::history] *)
Definition read_history : K (list Message) := fun w => (Ok (history (transcript (session w))), w).

Definition publish_insertion (notice : option nat) (id : MessageId) : K unit :=
  match notice with
  | Some n => on_session (modify (settle_waiter n (AnswerInserted id)))
  | None => m_ret tt
  end.

End World.
