(* ===== verification/CompactionRun.v ===== *)
(** Carrying out one compaction: when it is due before a prompt, the summary
    requests with their retries, and the commit with its records and events.
    [crates/kernel/src/runtime/compaction.rs], [compaction/prompt.rs] and
    [compaction/lifecycle.rs], and the record payloads of
    [crates/protocol/src/capability.rs]

    The fixed prompt texts are the section variables [PROMPT]s. *)

From S2P Require Import Prelude Chars Scalar Json Message StoreModel StoreState ToolContract KernelErrors.
From S2P Require Import Plan Replay Transcript Compaction Attempt Queue RunWorld.
Open Scope string_scope.
Open Scope rust_scope.

(** ** Record payloads *)

Definition stop_reason_value (r : StopReason) : json :=
  JString (match r with
           | EndTurn => "end_turn" | ToolUse => "tool_use" | MaxTokens => "max_tokens"
           | Refusal => "refusal" | StopError => "error" | StopCancelled => "cancelled"
           end).

(** [CompactionOperationStarted], [CompactionStepAttempt], [CompactionUsageRecord] *)
Definition compaction_started_payload (leaf : option EntryId) (instruction : option string)
  (entry : EntryId) : json_map :=
  <["sourceLeafId" := to_value leaf]>
  {[ "intent" := JObject (<["kind" := JString "compaction"]>
                         (<["customInstructions" := to_value instruction]>
                         {[ "resultEntryId" := to_value entry ]})) ]}.
Definition compaction_attempt_payload (entry : EntryId) (reason : CompactionReason) : json_map :=
  <["step" := JString "compaction"]> (<["attempt" := json_u64 1]>
  (<["resultEntryId" := to_value entry]> {[ "compactionReason" := to_value reason ]})).
Definition compaction_usage_payload {R : RigTypes} {CC : ContentCodec R} (entry : EntryId)
  (reason : StopReason) (u : ModelUsage R) : json_map :=
  <["cause" := JString "compaction"]> (<["entryId" := to_value entry]>
  (<["attempt" := json_u64 1]> (<["stopReason" := stop_reason_value reason]>
  {[ "usage" := to_value u ]}))).
(** [CompactionOperationFinished] *)
Definition compaction_completed_payload : json_map := {[ "outcome" := JString "completed" ]}.
Definition compaction_failed_payload (cancelled : bool) (message : string) : json_map :=
  <["outcome" := JString (if cancelled then "aborted" else "failed")]>
  {[ "error" := JObject (<["code" := JString "compaction_failed"]>
                          {[ "message" := JString message ]}) ]}.

(** ** The summary prompt *)

Inductive SummaryTemplate : Type := Checkpoint | TurnPrefix.

Inductive SummaryProtocol : Type :=
| ProtocolCompaction (previous custom : option string)
| ProtocolTurnPrefix
| ProtocolBranch (instruction : string).

Section Run.
Context {R : RigTypes} {CC : ContentCodec R} {U : UsageCounters R} `{JsonText}.
Context {S : Type} `{SessionStore S} {E : RunEnv R S}.
Variable extension_json : ExtensionMessage -> string.
Variables SUMMARIZATION_SYSTEM_PROMPT SUMMARIZATION_PROMPT : string.
Variables UPDATE_SUMMARIZATION_PROMPT TURN_PREFIX_SUMMARIZATION_PROMPT : string.
Variable config : KernelConfig.
Abbreviation K := (M (World R S) KernelError).
Abbreviation Message := (AgentMessage R).

Definition reasoning_text (b : ContentBlock) : option string :=
  match b with Reasoning text => Some text | _ => None end.
Definition tool_call_text (b : ContentBlock) : option string :=
  match b with
  | ToolCallBlock _ name arguments _ => Some (name +:+ "(" +:+ print arguments +:+ ")")
  | _ => None
  end.
Definition when_some (text : string) (line : string -> string) : list string :=
  if String.eqb text "" then [] else [line text].

(** [2_000] characters of a tool result, and how many more there were. *)
Definition truncated_result (text : string) : string :=
  let count := char_count text in
  if (2000 <? count)%Z then
    collect (take 2000 (chars text)) +:+ nl +:+ nl +:+ "[... "
    +:+ u64_to_string (saturating_sub count 2000) +:+ " more characters truncated]"
  else text.

(** The lines one message adds to the conversation. *)
Definition conversation_lines (m : Message) : list string :=
  match content m with
  | User _ | ExpandedUser _ =>
      match text_content (content m) with Some text => ["[User]: " +:+ text] | None => [] end
  | Assistant blocks _ _ =>
      when_some (join nl (omap reasoning_text blocks)) (fun t => "[Assistant thinking]: " +:+ t)
      ++ when_some (join "" (omap block_text blocks)) (fun t => "[Assistant]: " +:+ t)
      ++ when_some (join "; " (omap tool_call_text blocks))
           (fun t => "[Assistant tool calls]: " +:+ t)
  | ToolResult _ _ _ _ _ _ =>
      match text_content (content m) with
      | Some text => ["[Tool result]: " +:+ truncated_result text]
      | None => []
      end
  | BashExecution bash =>
      if exclude_from_context bash then [] else ["[User]: " +:+ bash_model_text bash]
  | Extension extension =>
      if include_in_context extension
      then when_some (join "" (omap block_text (ext_blocks extension))) (fun t => "[User]: " +:+ t)
      else []
  | System _ | SlashCommand _ | CompactionSummary _ => []
  end.

(** [SummaryPrompt::render] *)
Definition render (messages : list Message) (previous custom : option string)
  (template : SummaryTemplate) : string :=
  "<conversation>" +:+ nl +:+ join (nl +:+ nl) (messages ≫= conversation_lines) +:+ nl
  +:+ "</conversation>" +:+ nl +:+ nl
  +:+ (match template with
       | Checkpoint =>
           match previous with
           | Some previous =>
               "<previous-summary>" +:+ nl +:+ previous +:+ nl +:+ "</previous-summary>" +:+ nl
               +:+ nl +:+ UPDATE_SUMMARIZATION_PROMPT
           | None => SUMMARIZATION_PROMPT
           end
       | TurnPrefix => TURN_PREFIX_SUMMARIZATION_PROMPT
       end)
  +:+ (match trim <$> custom with
       | Some custom =>
           if String.eqb custom "" then "" else nl +:+ nl +:+ "Additional focus: " +:+ custom
       | None => ""
       end).

(** ** One summary *)

Record GeneratedSummary : Type := {
  summary_text_of : string;
  summary_usage : ModelUsage R;
  summary_stop : StopReason
}.

Definition protocol_error (text : string) : result GeneratedSummary (Attempt.ModelError R) :=
  Err (ModelProtocol text).

(** The checks on a finished response. *)
Definition accept_summary (text : string) (final : option (ModelFinal R))
  : result GeneratedSummary (Attempt.ModelError R) :=
  match final with
  | None => protocol_error "compaction model returned no terminal usage"
  | Some final =>
      let text := trim (from_option native_text text (final_message final)) in
      if String.eqb text "" then protocol_error "compaction summary was empty"
      else match final_stop_reason final with
           | StopCancelled => Err Attempt.ModelCancelled
           | StopError | Refusal => protocol_error "compaction model returned an error outcome"
           | ToolUse => protocol_error "compaction model returned a tool-use outcome"
           | EndTurn | MaxTokens =>
               Ok {| summary_text_of := text; summary_usage := final_usage final;
                     summary_stop := final_stop_reason final |}
           end
  end.

(** The stream of one summary request. *)
Fixpoint read_summary (items : list (StreamItem R)) (text : string)
  (final : option (ModelFinal R)) : result GeneratedSummary (Attempt.ModelError R) :=
  match items with
  | [] | StreamEnd _ :: _ => accept_summary text final
  | SessionCancelled _ :: _ => Err Attempt.ModelCancelled
  | StreamError error _ :: _ => Err error
  | Event event _ :: items =>
      match event with
      | TextDelta delta => read_summary items (text +:+ delta) final
      | ReasoningDelta _ => read_summary items text final
      | Finished result => read_summary items text (Some result)
      | ToolCallEvent _ => protocol_error "compaction model returned a tool call"
      end
  end.

(** The failures that a retry may answer. *)
Definition retry_failure (e : Attempt.ModelError R) : option (ModelFailure R) :=
  match e with
  | Preflight failure | Request failure | Stream failure => Some failure
  | _ => None
  end.

Definition open_stream (request : ModelRequest R)
  : K (result (list (StreamItem R)) (Attempt.ModelError R)) :=
  let! _ := await in
  let! answer := ask model_stream in
  m_ret (answer request).

(** A wait of [tokio::select!] between cancellation and the back-off. *)
Definition sleep_cancelled : K bool :=
  let! _ := await in
  let! backoff := ask backoff_first in
  let! stop := is_cancelled in
  m_ret (stop && negb backoff).

(** The loop of [generate_compaction_summary]; [None] when the fuel runs out. *)
Fixpoint summary_loop (fuel : nat) (request : ModelRequest R) (state : RetryState)
  : K (option GeneratedSummary) :=
  match fuel with
  | 0 => m_ret None
  | Datatypes.S fuel =>
      let! stream := open_stream request in
      match (let? items := stream in read_summary items "" None) with
      | Ok generated => m_ret (Some generated)
      | Err error =>
          match failure ← retry_failure error; (schedule failure state).1 with
          | None => m_fail (from_model_error error)
          | Some _ =>
              let state := match retry_failure error with
                           | Some failure => (schedule failure state).2
                           | None => state
                           end in
              let! stopped := sleep_cancelled in
              if stopped then m_fail (from_model_error Attempt.ModelCancelled)
              else summary_loop fuel request state
          end
      end
  end.

(** One round for each retry the policy allows, and the first one. *)
Definition summary_fuel : nat :=
  Datatypes.S (Z.to_nat (max_retries (kernel_retry_policy config))).

(** [generate_compaction_summary] *)
Definition generate_compaction_summary (turn : TurnId) (timestamp : TimestampMs)
  (messages : list Message) (protocol : SummaryProtocol) : K (option GeneratedSummary) :=
  let reserve := reserve_tokens (compaction_policy config) in
  let '(system, user, max) :=
    match protocol with
    | ProtocolCompaction previous custom =>
        (SUMMARIZATION_SYSTEM_PROMPT, Some (render messages previous custom Checkpoint),
         Some (saturating_mul reserve 8 / 10)%Z)
    | ProtocolTurnPrefix =>
        (SUMMARIZATION_SYSTEM_PROMPT, Some (render messages None None TurnPrefix),
         Some (reserve / 2)%Z)
    | ProtocolBranch instruction => (instruction, None, None)
    end in
  let! system_id := new_message_id in
  let! timing := timing_of timestamp timestamp timestamp in
  let system_message :=
    {| identity := {| message_id := system_id; turn_id := turn |}; timing := timing;
       content := System [Text system] |} in
  let! rest :=
    match user with
    | Some user =>
        let! user_id := new_message_id in
        let! timing := timing_of timestamp timestamp timestamp in
        m_ret [{| identity := {| message_id := user_id; turn_id := turn |}; timing := timing;
                  content := User [Text user] |}]
    | None => m_ret messages
    end in
  let! _ := ask_error snapshot_error in
  let! profile := ask active_model in
  let! _ := await in
  let! preflight := ask preflight_error in
  let! _ := match preflight with Some e => m_fail (from_model_error e) | None => m_ret tt end in
  let max := (fun tokens => Z.min tokens (max_output_tokens profile)) <$> max in
  let request := adapt_input profile
                   {| request_messages := system_message :: rest; request_max := max |} in
  summary_loop summary_fuel request
    (retry_state_new (kernel_retry_policy config) (provider_retry_delay_limit_ms config)).

(** ** When a compaction is due before a prompt *)

(** [pre_prompt_compaction] over the persisted history *)
Definition pre_prompt_compaction (profile : ModelProfile) (history : list Message)
  : option (CompactionReason * option MessageId) :=
  let boundary := snd <$> rfind_map (fun m =>
    if is_summary m then Some (started_at_ms (timing m)) else None) history in
  let later m := match boundary with
                 | Some boundary => timestamp_lt boundary (ended_at_ms (timing m))
                 | None => true
                 end in
  let assistant m := match content m with
                     | Assistant _ metadata _ => if later m then Some (m, metadata) else None
                     | _ => None
                     end in
  let recovery :=
    latest ← snd <$> rfind_map assistant history;
    (fun recovery =>
       (Overflow, if bool_decide (recovery = CompactAndRetry)
                  then Some (message_id (identity latest.1)) else None))
    <$> overflow_recovery (compaction_policy config) latest.2 profile in
  match recovery with
  | Some recovery => Some recovery
  | None =>
      if should_compact (usage_from_history extension_json history) (context_tokens profile)
           (compaction_policy config)
      then Some (Threshold, None) else None
  end.

(** ** One compaction *)

Record CompactionExecution : Type := {
  execution_reason : CompactionReason;
  excluded_message_id : option MessageId;
  execution_identity : option (RunId * TurnId * TimestampMs);
  execution_instruction : option string
}.

(** The history a compaction works on: without failed and excluded attempts. *)
Definition compacted_history (excluded : option MessageId) (history : list Message)
  : list Message :=
  filter (fun m => match content m with
                   | Assistant _ metadata _ =>
                       bool_decide (metadata_error metadata = None) &&
                       match excluded with
                       | Some id => negb (bool_decide (id = message_id (identity m)))
                       | None => true
                       end
                   | _ => true
                   end = true) history.

Definition has_context (p : CompactionPreparation (R := R)) : bool :=
  existsb (fun m => (0 <? estimated_tokens extension_json m)%Z) (summarized p ++ turn_prefix p).

(** The lists of files added to a summary. *)
Definition with_files (tag : string) (files : list string) (summary : string) : string :=
  match files with
  | [] => summary
  | _ => summary +:+ nl +:+ nl +:+ "<" +:+ tag +:+ ">" +:+ nl +:+ join nl files +:+ nl
         +:+ "</" +:+ tag +:+ ">"
  end.

(** Runs a summary request to its end; the fuel always suffices
    ([summary_loop_total]), so running out is not an outcome of the code. *)
Definition summary_of (turn : TurnId) (timestamp : TimestampMs) (messages : list Message)
  (protocol : SummaryProtocol) : K GeneratedSummary :=
  let! generated := generate_compaction_summary turn timestamp messages protocol in
  match generated with
  | Some generated => m_ret generated
  | None => m_fail (Protocol "")
  end.

(** The summary of the history, of the start of the split Turn, or of both. *)
Definition generated_summary (turn : TurnId) (started : TimestampMs)
  (p : CompactionPreparation (R := R)) (instruction : option string) : K GeneratedSummary :=
  let protocol := ProtocolCompaction (previous_summary p) instruction in
  match turn_prefix p with
  | [] => summary_of turn started (summarized p) protocol
  | prefix =>
      let! history :=
        match summarized p with
        | [] => m_ret None
        | messages =>
            let! generated := summary_of turn started messages protocol in
            m_ret (Some generated)
        end in
      let! prefix_summary := summary_of turn started prefix ProtocolTurnPrefix in
      let history_text := from_option summary_text_of "No prior history." history in
      m_ret {| summary_text_of :=
                 history_text +:+ nl +:+ nl +:+ "---" +:+ nl +:+ nl
                 +:+ "**Turn Context (split turn):**" +:+ nl +:+ nl
                 +:+ summary_text_of prefix_summary;
               summary_usage :=
                 match history with
                 | Some history => usage_add (summary_usage history) (summary_usage prefix_summary)
                 | None => summary_usage prefix_summary
                 end;
               summary_stop := summary_stop prefix_summary |}
  end.

(** The body whose failure the lifecycle records. *)
Definition compaction_body (run : RunId) (turn : TurnId) (started : TimestampMs)
  (entry : EntryId) (reason : CompactionReason) (instruction : option string)
  (supplied : option (ExtensionCompaction R)) (p : CompactionPreparation (R := R))
  : K (CompactionResult R) :=
  let! _ := record_operation run StepAttempt (compaction_attempt_payload entry reason) in
  let! (summary, tail, before, usage) :=
    match supplied with
    | Some compaction =>
        m_ret (supplied_summary compaction, supplied_tail compaction,
               supplied_tokens_before compaction, None)
    | None =>
        let! generated := generated_summary turn started p instruction in
        let! _ := record_operation run RecordUsage
          (compaction_usage_payload entry (summary_stop generated) (summary_usage generated)) in
        m_ret (summary_text_of generated, prepared_tail p, prepared_tokens_before p,
               Some (summary_usage generated))
    end in
  let reads := op_read_files (file_operations p) in
  let writes := op_modified_files (file_operations p) in
  let summary := with_files "modified-files" writes (with_files "read-files" reads summary) in
  let! ended := now in
  let data :=
    {| summary := summary; retained_tail := tail; tokens_before := before;
       compaction_usage := usage;
       details := Some {| reason := reason; details_run_id := run; details_turn_id := turn;
                          details_started_at_ms := started; details_ended_at_ms := ended;
                          read_files := reads; modified_files := writes |} |} in
  let! _ := on_lane (finish_compaction entry data) in
  m_ret {| result_entry_id := entry; result_turn_id := turn; result_summary := summary;
           result_tokens_before := before; result_usage := usage;
           result_started_at_ms := started; result_ended_at_ms := ended |}.

(** [CompactionLifecycle::complete], [fail] *)
Definition lifecycle_complete (run : RunId) (turn : TurnId) (reason : CompactionReason)
  (result : CompactionResult R) : K unit :=
  let! _ := record_operation run OperationFinished compaction_completed_payload in
  let! _ := sync_store in
  emit_at turn (result_ended_at_ms result) (CompactionEnd run reason (CompactionCompleted result)).
Definition lifecycle_fail (run : RunId) (turn : TurnId) (reason : CompactionReason)
  (error : KernelError) : K unit :=
  let cancelled := match error with Model KernelErrors.ModelCancelled => true | _ => false end in
  let! _ := record_operation run OperationFinished
              (compaction_failed_payload cancelled (kernel_error_text error)) in
  let! _ := sync_store in
  let! at_ms := now in
  emit_at turn at_ms (CompactionEnd run reason
    (if cancelled then CompactionCancelled else CompactionFailed "context compaction failed")).

(** [perform_compaction] *)
Definition perform_compaction (x : CompactionExecution) : K (CompactionResult R) :=
  let reason := execution_reason x in
  let! live := read_history in
  let p := preparation extension_json (compacted_history (excluded_message_id x) live)
             (compaction_policy config) in
  if negb (has_context p) then m_fail NoContextToCompact
  else
    let! (run, turn, started) :=
      match execution_identity x with
      | Some identity => m_ret identity
      | None =>
          let! run := fresh_id "run" in
          let! turn := new_turn_id in
          let! at_ms := now in
          m_ret (run, turn, at_ms)
      end in
    let! entry := fresh_id "entry" in
    let! _ := ask_error snapshot_error in
    let! _ := await in
    let! (cancel, supplied) := ask compact_hooks in
    if cancel then m_fail (ExtensionBlocked "session compaction cancelled")
    else
      let! w := m_get in
      let leaf := lane_of (transcript (session w)) in
      let! _ := record_operation run OperationStarted
                  (compaction_started_payload leaf (execution_instruction x) entry) in
      let! _ := emit_at turn started (CompactionStart run reason) in
      let! outcome := attempt (compaction_body run turn started entry reason
                                 (execution_instruction x) supplied p) in
      match outcome with
      | Err error =>
          let! _ := attempt (lifecycle_fail run turn reason error) in
          m_fail error
      | Ok result =>
          let! terminal := attempt (lifecycle_complete run turn reason result) in
          let! _ := await in
          match terminal with
          | Ok _ => m_ret result
          | Err error => m_fail error
          end
      end.

End Run.
