(* ===== verification/ToolBatch.v ===== *)
(** The tool calls of one Turn: each is judged by hooks, plan mode and
    validation, runs beside its siblings, and is answered in source order.
    [crates/kernel/src/runtime/tools/batch.rs] and the block conversion of
    [crates/protocol/src/extension/result.rs]

    The registry's tools, the hooks and the output projection are the class
    [ToolEnv], with the plan mode and the kernel's own tools a Turn's snapshot
    holds; which pending call completes next is one of its answers.
    Intermediate progress updates are not modelled. *)

From S2P Require Import Prelude Scalar Json Message StoreModel StoreState ToolContract KernelErrors Plan Replay.
From S2P Require Import Transcript Compaction Attempt Queue RunWorld.
From stdpp Require Import sorting.
Open Scope string_scope.
Open Scope rust_scope.

(** [ToolBlock], [ToolCallResult] *)
Record ToolBlock : Type := { block_reason : string; block_terminate : bool }.
Inductive ToolCallResult : Type :=
| Continue
| Replace (arguments : json)
| Block (block : ToolBlock).

(** [From<(ToolCallId, ToolBlock)> for ToolResult] *)
Definition blocked_result (id : ToolCallId) (b : ToolBlock) : ToolResultData :=
  {| result_call_id := id; result_blocks := [Text (block_reason b)]; result_is_error := true;
     result_details := Some (Blocked (block_reason b) (block_terminate b));
     result_output := None; result_cancelled := false |}.

Definition error_result (id : ToolCallId) (text : string) (cancelled : bool) : ToolResultData :=
  {| result_call_id := id; result_blocks := [Text text]; result_is_error := true;
     result_details := None; result_output := None; result_cancelled := cancelled |}.

Class ToolEnv := {
  tool_call_hooks : nat -> ToolCall -> ToolCallResult;
  read_only_hint : string -> option bool;
  invalid_call : ToolCall -> option string;
  run_tool : nat -> ToolCall -> result ToolResultData (bool * string);
  tool_result_hooks : nat -> ToolCall -> ToolResultData -> ToolResultData;
  project_output : nat -> ToolCall -> ToolResultData -> result ToolResultData KernelError;
  next_completion : nat -> nat;
  plan_gate : nat -> PlanModeGate;
  shlex_split : string -> option (list string)
}.

Section Batch.
Context {R : RigTypes} {CC : ContentCodec R} {S : Type} `{SessionStore S} {E : RunEnv R S}.
Context {TE : ToolEnv}.
Abbreviation K := (M (World R S) KernelError).
Abbreviation Message := (AgentMessage R).

Definition with_arguments (arguments : json) (c : ToolCall) : ToolCall :=
  {| ToolContract.call_id := ToolContract.call_id c; ToolContract.call_name := ToolContract.call_name c;
     ToolContract.call_arguments := arguments; invalid_arguments := None |}.

(** The result a call gets without running: the first of a hook's block, plan
    mode's refusal, malformed arguments and a failed validation. *)
Definition judge (gate : PlanModeGate) (blocked : option ToolBlock) (c : ToolCall)
  : option ToolResultData :=
  let id := ToolContract.call_id c in
  match blocked with
  | Some block => Some (blocked_result id block)
  | None =>
      match check shlex_split gate
              {| Plan.call_name := ToolContract.call_name c;
                 Plan.call_arguments := ToolContract.call_arguments c |}
              (read_only_hint (ToolContract.call_name c)) with
      | Err reason =>
          Some (blocked_result id {| block_reason := reason; block_terminate := false |})
      | Ok _ =>
          match invalid_arguments c with
          | Some _ =>
              Some (error_result id
                "Tool arguments are invalid JSON; provide a complete JSON object." false)
          | None => (fun error => error_result id error false) <$> invalid_call c
          end
      end
  end.

Record PendingCall : Type := {
  pending_index : nat;
  pending_started : TimestampMs;
  pending_call : ToolCall;
  immediate_result : option ToolResultData
}.

(** One round of the first loop: announces the call and judges it. *)
Definition start_call (run : RunId) (turn : TurnId) (gate : PlanModeGate) (index : nat)
  (c : ToolCall) : K (PendingCall * bool) :=
  let! started := now in
  let! _ := ask_error snapshot_error in
  let! _ := await in
  let! _ := await in
  let! _ := emit_at turn started (ToolExecutionStart run c) in
  let! _ := await in
  let! hooks := ask tool_call_hooks in
  let '(call, blocked) :=
    match hooks c with
    | Continue => (c, None)
    | Replace arguments => (with_arguments arguments c, None)
    | Block block => (c, Some block)
    end in
  m_ret ({| pending_index := index; pending_started := started; pending_call := call;
            immediate_result := judge gate blocked call |},
         from_option block_terminate false blocked).

Fixpoint start_calls (run : RunId) (turn : TurnId) (gate : PlanModeGate) (index : nat)
  (calls : list ToolCall) : K (list PendingCall * bool) :=
  match calls with
  | [] => m_ret ([], false)
  | c :: rest =>
      let! (first, stop) := start_call run turn gate index c in
      let! (others, stops) := start_calls run turn gate (Datatypes.S index) rest in
      m_ret (first :: others, stop || stops)
  end.

(** The future of one call. *)
Definition run_call (p : PendingCall) : K ToolResultData :=
  match immediate_result p with
  | Some result => m_ret result
  | None =>
      let! tools := ask run_tool in
      m_ret (match tools (pending_call p) with
             | Ok result => result
             | Err (stopped, text) => error_result (ToolContract.call_id (pending_call p)) text stopped
             end)
  end.

Definition with_cancelled (b : bool) (r : ToolResultData) : ToolResultData :=
  {| result_call_id := result_call_id r; result_blocks := result_blocks r;
     result_is_error := result_is_error r; result_details := result_details r;
     result_output := result_output r; result_cancelled := b |}.

(** A plan the user did not approve ends the run. *)
Definition rejects_plan (r : ToolResultData) : bool :=
  match result_details r with Some (PlanApproval false _) => true | _ => false end.

Definition result_content (r : ToolResultData) : MessageContent R :=
  ToolResult (result_call_id r) (result_blocks r) (result_is_error r) (result_details r)
    (result_output r) (result_cancelled r).

(** A completed call: hooks, output projection, its events and its message. *)
Definition complete_call (run : RunId) (turn : TurnId) (p : PendingCall)
  : K (nat * (Message * ToolResultData) * bool) :=
  let! result := run_call p in
  let! stopped := is_cancelled in
  let cancelled_call := result_cancelled result || (result_is_error result && stopped) in
  let! _ := ask_error snapshot_error in
  let! _ := await in
  let! hooks := ask tool_result_hooks in
  let result := hooks (pending_call p) (with_cancelled cancelled_call result) in
  let result := with_cancelled (result_cancelled result || cancelled_call) result in
  let terminate := rejects_plan result in
  let! result :=
    match immediate_result p with
    | Some _ => m_ret result
    | None =>
        let! _ := await in
        let! project := ask project_output in
        m_lift (project (pending_call p) result)
    end in
  let! timestamp := now in
  let! _ := await in
  let! _ := emit_at turn timestamp (ToolExecutionEnd run result) in
  let! id := new_message_id in
  let! timing := timing_of (pending_started p) (pending_started p) timestamp in
  m_ret (pending_index p,
         ({| identity := {| message_id := id; turn_id := turn |}; timing := timing;
             content := result_content result |}, result),
         terminate).

(** The element at an index, and the list without it. *)
Fixpoint take_nth {A} (n : nat) (l : list A) : option (A * list A) :=
  match l, n with
  | [], _ => None
  | x :: r, 0 => Some (x, r)
  | x :: r, Datatypes.S n => prod_map id (cons x) <$> take_nth n r
  end.

(** The completion loop, one call a round. *)
Fixpoint complete_calls (fuel : nat) (run : RunId) (turn : TurnId) (pending : list PendingCall)
  (cancelled : bool) : K (list (nat * (Message * ToolResultData)) * bool * bool) :=
  match fuel with
  | 0 => m_ret ([], cancelled, false)
  | Datatypes.S fuel =>
      let! _ := await in
      let! stopped := is_cancelled in
      let cancelled := cancelled || stopped in
      let! pick := ask next_completion in
      match take_nth (pick mod length pending) pending with
      | None => m_ret ([], cancelled, false)
      | Some (p, rest) =>
          let! (done, stop) := complete_call run turn p in
          let! (others, cancelled, stops) := complete_calls fuel run turn rest cancelled in
          m_ret (done :: others, cancelled, stop || stops)
      end
  end.

(** The order of [sort_by_key]. *)
Definition by_index {A} (a b : nat * A) : Prop := a.1 <= b.1.
#[export] Instance by_index_dec {A} : RelDecision (@by_index A).
Proof. intros a b. unfold by_index. apply _. Defined.

(** [Kernel::execute_tool_batch] *)
Definition execute_tool_batch (run : RunId) (turn : TurnId) (gate : PlanModeGate)
  (calls : list ToolCall) : K (ToolBatchResult R) :=
  let! (pending, stop) := start_calls run turn gate 0 calls in
  let! (completed, cancelled, stops) :=
    complete_calls (length pending) run turn pending false in
  let sorted := snd <$> merge_sort by_index completed in
  m_ret {| batch_messages := fst <$> sorted; batch_results := snd <$> sorted;
           batch_cancelled := cancelled; batch_terminate := stop || stops |}.

End Batch.
