(* ===== verification/TurnLoop.v ===== *)
(** The Turn loop of one run: each Turn inserts its message, asks the model,
    runs the calls and is recorded; what follows it is decided by cancellation,
    overflow recovery, retry, failure and continuation, in that order.
    [crates/kernel/src/runtime/run/turn.rs] and [default_title] of
    [crates/protocol/src/message.rs]

    [run_id] and [insertion] are the values [RunScope] borrows: the run and the
    client's acceptance report.  Publishing a queue snapshot to clients and
    observer hooks without a result are awaits only. *)

From S2P Require Import Prelude Chars Scalar Json Message StoreModel StoreState ToolContract KernelErrors.
From S2P Require Import Plan Replay Transcript Compaction Attempt Queue RunWorld.
From S2P Require Import CompactionRun ToolBatch.
Open Scope string_scope.
Open Scope rust_scope.

(** [TurnContext] *)
Record TurnContext : Type := {
  context_turn_id : TurnId;
  context_started_at : TimestampMs;
  context_profile : ModelProfile
}.

(** [SettledAssistant] *)
Record SettledAssistant {R : RigTypes} : Type := {
  assistant_id : MessageId;
  settled_usage : ModelUsage R;
  settled_failure : option (ModelFailure R);
  settled_cancelled : bool;
  settled_recovery : option OverflowRecovery;
  settled_stop_reason : StopReason;
  settled_calls : list ToolCall
}.
Arguments SettledAssistant R : clear implicits.

(** [RunResult], [RunCompletion] *)
Record RunCompletion {R : RigTypes} : Type := {
  completed_messages : list (AgentMessage R);
  completed_turns : list TurnRecord;
  completed_turn_id : TurnId;
  completed_outcome : AgentOutcome;
  auto_compaction_reason : option CompactionReason
}.
Arguments RunCompletion R : clear implicits.

(** [TurnTiming::try_from] and its error's text *)
Definition turn_timing_try_from (started ended : TimestampMs) : result TurnTiming string :=
  if timestamp_lt ended started
  then Err ("turn ended at " +:+ timestamp_to_string ended +:+ " before it started at "
            +:+ timestamp_to_string started)
  else Ok {| turn_started_at_ms := started; turn_ended_at_ms := ended |}.

Definition turn_outcome_value (o : TurnOutcome) : json :=
  JObject (match o with
           | TurnCompleted reason =>
               <["type" := JString "completed"]> {[ "stop_reason" := stop_reason_value reason ]}
           | TurnCancelled => {[ "type" := JString "cancelled" ]}
           | TurnFailed message =>
               <["type" := JString "failed"]> {[ "message" := JString message ]}
           end).

(** [TurnRecord]'s encoding, its identity and timing flattened. *)
Definition turn_record_object (t : TurnRecord) : json_map :=
  <["run_id" := to_value (turn_run_id (turn_identity t))]>
  (<["turn_id" := to_value (turn_turn_id (turn_identity t))]>
  (<["started_at_ms" := to_value (turn_started_at_ms (turn_timing t))]>
  (<["ended_at_ms" := to_value (turn_ended_at_ms (turn_timing t))]>
  {[ "outcome" := turn_outcome_value (turn_outcome t) ]}))).

(** [AgentMessage::default_title] *)
Definition first_line (text : string) : option string :=
  (fun line => collect (take 80 (chars line)))
  <$> head (filter (fun line => negb (String.eqb line "") = true) (trim <$> split_char newline text)).
Definition default_title {R : RigTypes} (m : AgentMessage R) : option string :=
  match content m with
  | User blocks => head (omap first_line (omap block_text blocks))
  | ExpandedUser expansion => first_line (original (invocation expansion))
  | _ => None
  end.

Section Turns.
Context {R : RigTypes} {CC : ContentCodec R} {U : UsageCounters R} `{JsonText}.
Context {S : Type} `{SessionStore S} {E : RunEnv R S} {TE : ToolEnv}.
Variable extension_json : ExtensionMessage -> string.
Variables SUMMARIZATION_SYSTEM_PROMPT SUMMARIZATION_PROMPT : string.
Variables UPDATE_SUMMARIZATION_PROMPT TURN_PREFIX_SUMMARIZATION_PROMPT : string.
Variable config : KernelConfig.
Variable run_id : RunId.
Variable insertion : option nat.
Abbreviation W := (World R S).
Abbreviation K := (M (World R S) KernelError).
Abbreviation Message := (AgentMessage R).
Abbreviation Item := (PendingQueueItem R).

Definition compact : CompactionExecution -> K (CompactionResult R) :=
  perform_compaction extension_json SUMMARIZATION_SYSTEM_PROMPT SUMMARIZATION_PROMPT
    UPDATE_SUMMARIZATION_PROMPT TURN_PREFIX_SUMMARIZATION_PROMPT config.

Definition read_loop : K (TurnLoop R) := fun w => (Ok (loop w), w).

(** ** Changes of one field of [TurnLoop] *)

Definition set_queued (q : option Item) (l : TurnLoop R) : TurnLoop R :=
  {| produced_messages := produced_messages l; turns := turns l;
     next_initial_input := next_initial_input l; next_queued_item := q;
     next_turn_id := next_turn_id l; retry_of := retry_of l;
     overflow_recovery_attempted := overflow_recovery_attempted l;
     system_prompt_override := system_prompt_override l;
     before_agent_messages := before_agent_messages l; retained_input := retained_input l;
     user_message_inserted := user_message_inserted l; usage := usage l |}.
Definition set_initial (i : option (MessageContent R)) (l : TurnLoop R) : TurnLoop R :=
  {| produced_messages := produced_messages l; turns := turns l;
     next_initial_input := i; next_queued_item := next_queued_item l;
     next_turn_id := next_turn_id l; retry_of := retry_of l;
     overflow_recovery_attempted := overflow_recovery_attempted l;
     system_prompt_override := system_prompt_override l;
     before_agent_messages := before_agent_messages l; retained_input := retained_input l;
     user_message_inserted := user_message_inserted l; usage := usage l |}.
Definition set_next_turn (t : option TurnId) (l : TurnLoop R) : TurnLoop R :=
  {| produced_messages := produced_messages l; turns := turns l;
     next_initial_input := next_initial_input l; next_queued_item := next_queued_item l;
     next_turn_id := t; retry_of := retry_of l;
     overflow_recovery_attempted := overflow_recovery_attempted l;
     system_prompt_override := system_prompt_override l;
     before_agent_messages := before_agent_messages l; retained_input := retained_input l;
     user_message_inserted := user_message_inserted l; usage := usage l |}.
Definition set_retry (s : RetryState) (l : TurnLoop R) : TurnLoop R :=
  {| produced_messages := produced_messages l; turns := turns l;
     next_initial_input := next_initial_input l; next_queued_item := next_queued_item l;
     next_turn_id := next_turn_id l; retry_of := s;
     overflow_recovery_attempted := overflow_recovery_attempted l;
     system_prompt_override := system_prompt_override l;
     before_agent_messages := before_agent_messages l; retained_input := retained_input l;
     user_message_inserted := user_message_inserted l; usage := usage l |}.
Definition set_recovery_attempted (l : TurnLoop R) : TurnLoop R :=
  {| produced_messages := produced_messages l; turns := turns l;
     next_initial_input := next_initial_input l; next_queued_item := next_queued_item l;
     next_turn_id := next_turn_id l; retry_of := retry_of l;
     overflow_recovery_attempted := true;
     system_prompt_override := system_prompt_override l;
     before_agent_messages := before_agent_messages l; retained_input := retained_input l;
     user_message_inserted := user_message_inserted l; usage := usage l |}.
Definition set_before_agent (p : option string) (d : option (list ExtensionMessage))
  (l : TurnLoop R) : TurnLoop R :=
  {| produced_messages := produced_messages l; turns := turns l;
     next_initial_input := next_initial_input l; next_queued_item := next_queued_item l;
     next_turn_id := next_turn_id l; retry_of := retry_of l;
     overflow_recovery_attempted := overflow_recovery_attempted l;
     system_prompt_override := p; before_agent_messages := d;
     retained_input := retained_input l;
     user_message_inserted := user_message_inserted l; usage := usage l |}.
Definition set_inserted (l : TurnLoop R) : TurnLoop R :=
  {| produced_messages := produced_messages l; turns := turns l;
     next_initial_input := next_initial_input l; next_queued_item := next_queued_item l;
     next_turn_id := next_turn_id l; retry_of := retry_of l;
     overflow_recovery_attempted := overflow_recovery_attempted l;
     system_prompt_override := system_prompt_override l;
     before_agent_messages := before_agent_messages l; retained_input := retained_input l;
     user_message_inserted := true; usage := usage l |}.
Definition add_usage (u : ModelUsage R) (l : TurnLoop R) : TurnLoop R :=
  {| produced_messages := produced_messages l; turns := turns l;
     next_initial_input := next_initial_input l; next_queued_item := next_queued_item l;
     next_turn_id := next_turn_id l; retry_of := retry_of l;
     overflow_recovery_attempted := overflow_recovery_attempted l;
     system_prompt_override := system_prompt_override l;
     before_agent_messages := before_agent_messages l; retained_input := retained_input l;
     user_message_inserted := user_message_inserted l; usage := usage_add (usage l) u |}.
Definition set_produced (ms : list Message) (ts : list TurnRecord) (l : TurnLoop R) : TurnLoop R :=
  {| produced_messages := ms; turns := ts;
     next_initial_input := next_initial_input l; next_queued_item := next_queued_item l;
     next_turn_id := next_turn_id l; retry_of := retry_of l;
     overflow_recovery_attempted := overflow_recovery_attempted l;
     system_prompt_override := system_prompt_override l;
     before_agent_messages := before_agent_messages l; retained_input := retained_input l;
     user_message_inserted := user_message_inserted l; usage := usage l |}.
Definition produce (m : Message) : K unit :=
  modify_loop (fun l => set_produced (produced_messages l ++ [m])%list (turns l) l).

(** [TurnLoop::finish] *)
Definition finish (turn : TurnId) (outcome : AgentOutcome) (auto : option CompactionReason)
  : K (RunCompletion R) :=
  let! l := read_loop in
  let! _ := modify_loop (set_produced [] []) in
  m_ret {| completed_messages := produced_messages l; completed_turns := turns l;
           completed_turn_id := turn; completed_outcome := outcome;
           auto_compaction_reason := auto |}.

(** ** The phases of a Turn *)

(** [SessionExecution::set_active_turn] *)
Definition set_active_turn (turn : TurnId) : K unit := fun w =>
  match active_run w with
  | None => (Err (Protocol "session has no active run"), w)
  | Some (run, _) =>
      if bool_decide (run = run_id) then (Ok tt, set_active (Some (run, turn)) w)
      else (Err (Protocol "active run changed while updating its Turn"), w)
  end.

(** [begin_turn] *)
Definition begin_turn (queued_item : option Item) : K TurnContext :=
  let! turn :=
    match queued_item with
    | Some item => m_ret (turn_id (identity (queued_message (queued item))))
    | None =>
        let! l := read_loop in
        match next_turn_id l with
        | Some turn => let! _ := modify_loop (set_next_turn None) in m_ret turn
        | None => new_turn_id
        end
    end in
  let! started := now in
  let! _ := ask_error snapshot_error in
  let! profile := ask active_model in
  let! _ := await in
  let! preflight := ask preflight_error in
  let! _ := match preflight with Some e => m_fail (from_model_error e) | None => m_ret tt end in
  let! _ := set_active_turn turn in
  let! _ := emit turn (TurnStart run_id) in
  let! _ := ask_error snapshot_error in
  let! _ := await in
  m_ret {| context_turn_id := turn; context_started_at := started; context_profile := profile |}.

(** A claim that a failure drops goes back to the queue. *)
Definition drop_queued (queued_item : option Item) (w : W) : W :=
  match queued_item with
  | Some item => set_session (drop_claim item (session w)) w
  | None => w
  end.
Definition holding {A} (queued_item : option Item) (c : K A) : K A := fun w =>
  match c w with
  | (Ok a, w') => (Ok a, w')
  | (Err e, w') => (Err e, drop_queued queued_item w')
  end.

Definition fail_if (b : bool) (e : KernelError) : K unit :=
  if b then m_fail e else m_ret tt.

(** [SessionRename::default_on]: the announcement's failure is not the run's. *)
Definition rename_default (turn : TurnId) (title : string) : K unit :=
  let! _ := await in
  let! stored := on_lane (set_default_name title) in
  match stored with
  | None => m_ret tt
  | Some title =>
      let! _ := sync_store in
      let! _ := attempt (emit turn (SessionTitleChanged (Some title))) in
      let! _ := ask_error snapshot_error in
      await
  end.

(** The message of the Turn, if it has one, as the hooks leave it; a client's
    prompt and a claimed item give way to a cancellation. *)
Definition prepare_user_message (turn : TurnId) (queued_item : option Item)
  : K (option Message) :=
  let! message :=
    match queued_item with
    | Some item => m_ret (Some (queued_message (queued item)))
    | None =>
        let! l := read_loop in
        let! _ := modify_loop (set_initial None) in
        match next_initial_input l with
        | Some content => let! m := message_now turn content in m_ret (Some m)
        | None => m_ret None
        end
    end in
  let! stop := is_cancelled in
  let! _ := fail_if (bool_decide (is_Some insertion) && bool_decide (queued_item = None)
                     && bool_decide (is_Some message) && stop) PromptCancelled in
  match message with
  | None => m_ret None
  | Some message =>
      let! _ := emit_at turn (timestamp_ms (timing message))
                  (MessageStart (message_id (identity message))) in
      let! _ := await in
      let! message := emit_message_end message in
      let! stop := is_cancelled in
      let! _ := fail_if (bool_decide (is_Some queued_item) && stop) PromptCancelled in
      m_ret (Some message)
  end.

(** The insertion itself. *)
Definition insert_message (queued_item : option Item) (message : Message) : K unit :=
  match queued_item with
  | Some item =>
      let! record := holding queued_item (fresh_id "record") in
      let! w := m_get in
      on_session (consume_claimed kernel_error_text item message
        (queue_cancellation_record record (Some run_id) (item_id item) Consumed (session w)))
  | None =>
      let! stop := is_cancelled in
      let! _ := fail_if (bool_decide (is_Some insertion) && stop) PromptCancelled in
      let! _ := persist_message message in
      let! _ := modify_loop set_inserted in
      publish_insertion insertion (message_id (identity message))
  end.

(** [insert_user_message] *)
Definition insert_user_message (turn : TurnId) (queued_item : option Item) : K unit :=
  let! message := holding queued_item (prepare_user_message turn queued_item) in
  match message with
  | None => m_ret tt
  | Some message =>
      let! _ := insert_message queued_item message in
      let! _ := match default_title message with
                | Some title => rename_default turn title
                | None => m_ret tt
                end in
      let! _ := emit_at turn (timestamp_ms (timing message)) (MessageEnd message) in
      produce message
  end.

(** The drafts of [before_agent_start] hooks, inserted one by one. *)
Fixpoint insert_drafts (turn : TurnId) (drafts : list ExtensionMessage) : K (list Message) :=
  match drafts with
  | [] => m_ret []
  | draft :: rest =>
      let! message := materialize_extension_message turn draft in
      let! _ := await in
      let! message := emit_message_end message in
      let! _ := persist_message message in
      let! _ := emit turn (MessageEnd message) in
      let! _ := produce message in
      let! others := insert_drafts turn rest in
      m_ret (message :: others)
  end.

(** Failed attempts stay in the store but leave the next request. *)
Definition sent_history (history : list Message) : list Message :=
  filter (fun m => match content m with
                   | Assistant _ metadata _ => bool_decide (metadata_error metadata = None)
                   | _ => true
                   end = true) history.

Definition with_system_text (text : option string) (m : Message) : Message :=
  match text with
  | Some text => {| identity := identity m; timing := timing m; content := System [Text text] |}
  | None => m
  end.

(** [model_request] *)
Definition model_request (turn : TurnContext) : K (ModelRequest R * PlanModeGate) :=
  let! live := read_history in
  let! _ := ask_error snapshot_error in
  let! gate := ask plan_gate in
  let! prompt := ask_result system_prompt in
  let! l := read_loop in
  let prompt := with_system_text (system_prompt_override l) prompt in
  let! _ := modify_loop (fun l => set_before_agent (system_prompt_override l) None l) in
  let! drafts := insert_drafts (context_turn_id turn) (default [] (before_agent_messages l)) in
  let! _ := await in
  let! hooks := ask context_hooks in
  m_ret (adapt_input (context_profile turn)
           (hooks {| request_messages := prompt :: sent_history live ++ drafts;
                     request_max := None |}), gate).

(** The loop over the stream: applies each event, publishes deltas. *)
Fixpoint assistant_stream (turn : TurnId) (id : MessageId) (items : list (StreamItem R))
  (a : AssistantAttempt R) : K (Settlement R * AssistantAttempt R) :=
  match items with
  | [] | StreamEnd _ :: _ => let! at_ms := now in m_ret (SettleCompleted at_ms, a)
  | SessionCancelled _ :: _ => let! at_ms := now in m_ret (SettleCancelled at_ms, a)
  | StreamError error _ :: _ => let! at_ms := now in m_ret (SettleFailed error at_ms, a)
  | Event event _ :: rest =>
      let! at_ms := now in
      match apply_event event at_ms a with
      | (Err error, a) => let! at_ms := now in m_ret (SettleFailed error at_ms, a)
      | (Ok _, a) =>
          let! _ := match event with
                    | TextDelta delta => emit_at turn at_ms (MessageTextDelta id delta)
                    | ReasoningDelta delta => emit_at turn at_ms (MessageReasoningDelta id delta)
                    | ToolCallEvent _ | Finished _ => m_ret tt
                    end in
          let! _ := match event with
                    | Finished _ => m_ret tt
                    | _ => if observes_updates
                           then let! _ := m_lift (map_err from_model_error (Attempt.snapshot usage_zero a at_ms))
                                in await
                           else m_ret tt
                    end in
          assistant_stream turn id rest a
      end
  end.

(** [stream_assistant] *)
Definition stream_assistant (turn : TurnContext) (request : ModelRequest R)
  : K (MessageId * AttemptResult R) :=
  let turn_id := context_turn_id turn in
  let! id := new_message_id in
  let! timestamp := now in
  let a := attempt_new id turn_id (context_profile turn) timestamp in
  let! _ := emit_at turn_id timestamp (MessageStart id) in
  let! _ := m_lift (map_err from_model_error (Attempt.snapshot usage_zero a timestamp)) in
  let! _ := await in
  let! _ := ask_error snapshot_error in
  let! stream := open_stream request in
  let! (settlement, a) :=
    match stream with
    | Ok items => assistant_stream turn_id id items a
    | Err Attempt.ModelCancelled => let! at_ms := now in m_ret (SettleCancelled at_ms, a)
    | Err error => let! at_ms := now in m_ret (SettleFailed error at_ms, a)
    end in
  let! result := m_lift (map_err from_model_error
                   (Attempt.settle native_blocks_of usage_zero model_error_text a settlement)) in
  m_ret (id, result).

Definition with_stop (reason : StopReason) (m : AssistantMetadata (R := R))
  : AssistantMetadata (R := R) :=
  {| provider_id := provider_id m; model_id := model_id m; stop_reason := reason;
     raw_stop_reason := raw_stop_reason m; metadata_usage := metadata_usage m;
     metadata_error := metadata_error m; context_overflow := context_overflow m |}.
Definition with_failure (f : ModelFailure R) (m : AssistantMetadata (R := R))
  : AssistantMetadata (R := R) :=
  {| provider_id := provider_id m; model_id := model_id m; stop_reason := StopError;
     raw_stop_reason := raw_stop_reason m; metadata_usage := metadata_usage m;
     metadata_error := Some (failure_summary f); context_overflow := failure_overflow f |}.

(** What the final snapshot says of the attempt: hooks may stop a successful
    one but cannot revive a failed or cancelled one. *)
Definition final_metadata (failure : option (ModelFailure R)) (cancelled : bool)
  (m : AssistantMetadata (R := R))
  : AssistantMetadata (R := R) * option (ModelFailure R) :=
  if cancelled then (with_stop StopCancelled m, failure)
  else match failure with
  | Some f => (with_failure f m, failure)
  | None =>
      match stop_reason m with
      | StopError | Refusal =>
          (m, Some {| failure_summary :=
                        default "MessageEnd ended the turn with an error" (metadata_error m);
                      failure_status := None; retry_disposition := NonRetryable;
                      retry_after_ms := None; failure_overflow := context_overflow m;
                      failure_usage := None |})
      | _ => (m, None)
      end
  end.

Definition requested_call (b : ContentBlock) : option ToolCall :=
  match b with
  | ToolCallBlock id name arguments invalid =>
      Some {| ToolContract.call_id := id; ToolContract.call_name := name;
              ToolContract.call_arguments := arguments; invalid_arguments := invalid |}
  | _ => None
  end.

Definition requested_calls (failure : option (ModelFailure R)) (cancelled : bool)
  (reason : StopReason) (blocks : list ContentBlock) : list ToolCall :=
  match failure, cancelled, reason with
  | None, false, (ToolUse | MaxTokens) => omap requested_call blocks
  | _, _, _ => []
  end.

(** [settle_assistant] *)
Definition settle_assistant (turn : TurnContext) (id : MessageId) (result : AttemptResult R)
  : K (Message * SettledAssistant R) :=
  let '(message, failure, cancelled) :=
    match result with
    | AttemptCompleted m => (m, None, false)
    | AttemptFailed m failure => (m, Some failure, false)
    | AttemptCancelled m => (m, None, true)
    end in
  let! _ := match content message with
            | Assistant _ metadata _ => modify_loop (add_usage (metadata_usage metadata))
            | _ => m_ret tt
            end in
  let! message := emit_message_end message in
  match content message with
  | Assistant blocks metadata native =>
      let cancelled := cancelled || bool_decide (stop_reason metadata = StopCancelled) in
      let '(metadata, failure) := final_metadata failure cancelled metadata in
      let! native :=
        match native with
        | None => m_ret None
        | Some native =>
            let! same := m_lift (map_err from_model_error
                           (native_matches native blocks (stop_reason metadata))) in
            m_ret (if same then Some native else None)
        end in
      let message := {| identity := identity message; timing := timing message;
                        content := Assistant blocks metadata native |} in
      m_ret (message,
        {| assistant_id := id; settled_usage := metadata_usage metadata;
           settled_failure := failure; settled_cancelled := cancelled;
           settled_recovery :=
             overflow_recovery (compaction_policy config) metadata (context_profile turn);
           settled_stop_reason := stop_reason metadata;
           settled_calls := requested_calls failure cancelled (stop_reason metadata) blocks |})
  | _ => m_fail (Protocol "settled Assistant message lost its role")
  end.

(** [publish_assistant] *)
Definition publish_assistant (turn : TurnContext) (message : Message) (u : ModelUsage R) : K unit :=
  let! _ := persist_message message in
  let! _ := produce message in
  let! _ := emit (context_turn_id turn) (MessageEnd message) in
  emit (context_turn_id turn) (UsageUpdated u (context_tokens (context_profile turn))).

(** A replaced result keeps the cancellation the Turn decided. *)
Definition keep_cancelled (before after : Message) : Message :=
  match content before, content after with
  | ToolResult _ _ _ _ _ true, ToolResult id blocks is_error details output _ =>
      {| identity := identity after; timing := timing after;
         content := ToolResult id blocks is_error details output true |}
  | _, _ => after
  end.

Fixpoint insert_results (turn : TurnId) (messages : list Message) : K unit :=
  match messages with
  | [] => m_ret tt
  | message :: rest =>
      let! _ := emit turn (MessageStart (message_id (identity message))) in
      let! _ := await in
      let! replaced := emit_message_end message in
      let message := keep_cancelled message replaced in
      let! _ := persist_message message in
      let! _ := produce message in
      let! _ := emit turn (MessageEnd message) in
      insert_results turn rest
  end.

Definition with_settled_cancelled (b : bool) (s : SettledAssistant R) : SettledAssistant R :=
  {| assistant_id := assistant_id s; settled_usage := settled_usage s;
     settled_failure := settled_failure s; settled_cancelled := b;
     settled_recovery := settled_recovery s; settled_stop_reason := settled_stop_reason s;
     settled_calls := [] |}.

(** [run_tools]: the batch and the settled attempt after it. *)
Definition run_tools (turn : TurnContext) (s : SettledAssistant R) (gate : PlanModeGate)
  : K (SettledAssistant R * ToolBatchResult R) :=
  let! batch :=
    if settled_cancelled s then m_ret batch_default
    else execute_tool_batch run_id (context_turn_id turn) gate (settled_calls s) in
  let s := with_settled_cancelled (settled_cancelled s || batch_cancelled batch) s in
  let! _ := insert_results (context_turn_id turn) (batch_messages batch) in
  m_ret (s, batch).

Definition outcome_of_turn (s : SettledAssistant R) : TurnOutcome :=
  if settled_cancelled s then TurnCancelled
  else match settled_failure s with
       | Some failure => TurnFailed (failure_summary failure)
       | None => TurnCompleted (settled_stop_reason s)
       end.

(** [record_turn] *)
Definition record_turn (turn : TurnContext) (s : SettledAssistant R) : K unit :=
  let! ended := now in
  let! timing := m_lift (map_err Protocol
                   (turn_timing_try_from (context_started_at turn) ended)) in
  let record :=
    {| turn_identity := {| turn_run_id := run_id; turn_turn_id := context_turn_id turn |};
       turn_timing := timing; turn_outcome := outcome_of_turn s |} in
  let! _ := record_operation run_id StepAttempt (turn_record_object record) in
  let! _ := sync_store in
  let! _ := emit (context_turn_id turn) (TurnEnd record) in
  let! _ := await in
  let! _ := sync_store in
  modify_loop (fun l => set_produced (produced_messages l) (turns l ++ [record])%list l).

(** Overflow recovery: compacts without the failed attempt, then a new Turn. *)
Definition recover_overflow (s : SettledAssistant R) : K (option (RunCompletion R)) :=
  let! _ := modify_loop set_recovery_attempted in
  let! _ := compact {| execution_reason := Overflow;
                       excluded_message_id := Some (assistant_id s);
                       execution_identity := None; execution_instruction := None |} in
  let! turn := new_turn_id in
  let! _ := modify_loop (set_next_turn (Some turn)) in
  m_ret None.

(** A granted retry: waits, then a newly correlated Turn. *)
Definition retry_turn (turn : TurnId) (failure : ModelFailure R) (g : RetrySchedule)
  : K (option (RunCompletion R)) :=
  let! _ := emit turn (RetryScheduled run_id (schedule_attempt g) (schedule_max g) (delay_ms g)
                         (failure_summary failure)) in
  let! stopped := sleep_cancelled in
  if stopped then
    let! _ := emit turn (RetryEnd run_id (schedule_attempt g) false (Some "Retry cancelled")) in
    let! done := finish turn Cancelled None in
    m_ret (Some done)
  else
    let! next := new_turn_id in
    let! _ := emit next (RetryStart run_id (schedule_attempt g) (schedule_max g)) in
    let! _ := modify_loop (set_next_turn (Some next)) in
    m_ret None.

(** One terminal report of a retry sequence. *)
Definition report_retries (turn : TurnId) (failure : option (ModelFailure R)) : K unit :=
  let! l := read_loop in
  let made := attempts (retry_of l) in
  if (0 <? made)%Z then
    match failure with
    | None =>
        let! _ := emit turn (RetryEnd run_id made true None) in
        modify_loop (set_retry (reset (retry_of l)))
    | Some f => emit turn (RetryEnd run_id made false (Some (failure_summary f)))
    end
  else m_ret tt.

(** The compaction that follows a run. *)
Definition auto_compaction (turn : TurnContext) (recovery : option OverflowRecovery)
  (history : list Message) : option CompactionReason :=
  let due := should_compact (usage_from_history extension_json history)
               (context_tokens (context_profile turn)) (compaction_policy config) in
  match recovery with
  | Some CompactOnly => Some Overflow
  | Some CompactAndRetry | None => if due then Some Threshold else None
  end.

(** [next_action] after overflow recovery and retry declined. *)
Definition conclude (turn : TurnContext) (s : SettledAssistant R) (continue_for_tools : bool)
  : K (option (RunCompletion R)) :=
  let turn_id := context_turn_id turn in
  let! _ := report_retries turn_id (settled_failure s) in
  match settled_failure s with
  | Some failure =>
      let! done := finish turn_id (Failed (failure_summary failure)) None in m_ret (Some done)
  | None =>
      let! claimed := on_session (claim_next_or_close (negb continue_for_tools)) in
      let! _ := modify_loop (set_queued claimed) in
      if continue_for_tools || bool_decide (is_Some claimed) then m_ret None
      else
        let! live := read_history in
        let! done := finish turn_id Succeeded (auto_compaction turn (settled_recovery s) live) in
        m_ret (Some done)
  end.

(** [next_action] *)
Definition next_action (turn : TurnContext) (s : SettledAssistant R) (continue_for_tools : bool)
  : K (option (RunCompletion R)) :=
  let turn_id := context_turn_id turn in
  if settled_cancelled s then
    let! done := finish turn_id Cancelled None in m_ret (Some done)
  else
    let! l := read_loop in
    if bool_decide (settled_recovery s = Some CompactAndRetry)
       && negb (overflow_recovery_attempted l)
    then recover_overflow s
    else
      match settled_failure s with
      | None => conclude turn s continue_for_tools
      | Some failure =>
          let '(granted, state) := schedule failure (retry_of l) in
          let! _ := modify_loop (set_retry state) in
          match granted with
          | Some g => retry_turn turn_id failure g
          | None => conclude turn s continue_for_tools
          end
      end.

(** The Turn after its message was inserted. *)
Definition answer_turn (turn : TurnContext) : K (option (RunCompletion R)) :=
  let! (request, gate) := model_request turn in
  let! (id, attempted) := stream_assistant turn request in
  let! (message, s) := settle_assistant turn id attempted in
  let! _ := publish_assistant turn message (settled_usage s) in
  let has_tool_calls := negb (bool_decide (settled_calls s = [])) in
  let! (s, batch) := run_tools turn s gate in
  let! _ := record_turn turn s in
  next_action turn s (negb (batch_terminate batch) && has_tool_calls).

(** [run_turn] *)
Definition run_turn : K (option (RunCompletion R)) :=
  let! l := read_loop in
  let queued_item := next_queued_item l in
  let! _ := modify_loop (set_queued None) in
  let! turn := holding queued_item
    (let! _ := match max_turns config with
               | Some most => fail_if (Nat.leb most (length (turns l))) (TurnLimit (Z.of_nat most))
               | None => m_ret tt
               end in
     begin_turn queued_item) in
  let! _ := insert_user_message (context_turn_id turn) queued_item in
  answer_turn turn.

(** [start_agent] *)
Definition start_agent : K unit :=
  let! _ := ask_error snapshot_error in
  let! _ := await in
  let! (prompt, drafts) := ask before_agent_hooks in
  let! _ := modify_loop (set_before_agent prompt (Some drafts)) in
  let! _ := await in
  let! profile := ask active_model in
  let! live := read_history in
  match pre_prompt_compaction extension_json config profile live with
  | Some (reason, excluded) =>
      let! _ := compact {| execution_reason := reason; excluded_message_id := excluded;
                           execution_identity := None; execution_instruction := None |} in
      m_ret tt
  | None => m_ret tt
  end.

(** The loop of [execute]; [None] when the fuel runs out. *)
Fixpoint turn_loop (fuel : nat) : K (option (RunCompletion R)) :=
  match fuel with
  | 0 => m_ret None
  | Datatypes.S fuel =>
      let! done := run_turn in
      match done with
      | Some done => m_ret (Some done)
      | None => turn_loop fuel
      end
  end.

(** [execute] *)
Definition execute (fuel : nat) : K (option (RunCompletion R)) :=
  let! _ := start_agent in turn_loop fuel.

End Turns.
