(* ===== verification/RunSettlement.v ===== *)
(** The end of a run: its queue closes, its terminal record becomes durable
    before it is announced, and every input it took is answered once; and the
    run as a whole, once its input is expanded.
    [crates/kernel/src/runtime/run/settlement.rs], [settle] of [turn.rs],
    [crates/kernel/src/runtime/run.rs], [install_run] and the release of the
    lease in [lifecycle.rs], [SubmissionAnswer] of [insertion.rs] *)

From S2P Require Import Prelude Chars Scalar Json Message StoreModel StoreState ToolContract KernelErrors.
From S2P Require Import Plan Replay Transcript Compaction Attempt Queue RunWorld.
From S2P Require Import CompactionRun ToolBatch TurnLoop.
Open Scope string_scope.
Open Scope rust_scope.

(** [RunSettlement::record_payload] *)
Definition settlement_payload (o : AgentOutcome) : json_map :=
  match o with
  | Succeeded => {[ "status" := JString "completed" ]}
  | Cancelled => {[ "status" := JString "cancelled" ]}
  | Failed message =>
      <["status" := JString "failed"]> {[ "error" := JString message ]}
  end.

(** [From<(&AgentOutcome, &[AgentMessage])> for SubmissionAnswer] *)
Definition answer_of {R : RigTypes} (o : AgentOutcome) (messages : list (AgentMessage R))
  : SubmissionAnswer :=
  let message := last (filter (fun m => is_assistant (content m) = true) messages) in
  {| answer_message_id := (fun m => message_id (identity m)) <$> message;
     answer_text := default "" (m ← message; text_content (content m));
     answer_outcome := match o with
                       | Succeeded => AnswerCompleted
                       | Cancelled => AnswerCancelled
                       | Failed message => AnswerFailed message
                       end |}.

(** [RunResult] *)
Record RunResult {R : RigTypes} : Type := {
  result_messages : list (AgentMessage R);
  result_turns : list TurnRecord
}.
Arguments RunResult R : clear implicits.

Section Settlement.
Context {R : RigTypes} {CC : ContentCodec R} {U : UsageCounters R} `{JsonText}.
Context {S : Type} `{SessionStore S} {E : RunEnv R S} {TE : ToolEnv}.
Variable extension_json : ExtensionMessage -> string.
Variables SUMMARIZATION_SYSTEM_PROMPT SUMMARIZATION_PROMPT : string.
Variables UPDATE_SUMMARIZATION_PROMPT TURN_PREFIX_SUMMARIZATION_PROMPT : string.
Variable config : KernelConfig.
Variable run_id : RunId.
Variable insertion : option nat.
Abbreviation W := (World R S).
Abbreviation K := (M (World R S) KernelError).
Abbreviation Message := (AgentMessage R).

Abbreviation compact := (TurnLoop.compact extension_json SUMMARIZATION_SYSTEM_PROMPT
  SUMMARIZATION_PROMPT UPDATE_SUMMARIZATION_PROMPT TURN_PREFIX_SUMMARIZATION_PROMPT config).
Abbreviation execute := (TurnLoop.execute extension_json SUMMARIZATION_SYSTEM_PROMPT
  SUMMARIZATION_PROMPT UPDATE_SUMMARIZATION_PROMPT TURN_PREFIX_SUMMARIZATION_PROMPT config
  run_id insertion).

(** [RunSettlement::settle] *)
Definition settle_run (turn : TurnId) (outcome : AgentOutcome) (messages : list Message)
  (auto : option CompactionReason) (u : ModelUsage R) : K SubmissionAnswer :=
  let answer := answer_of outcome messages in
  let! _ := record_operation run_id OperationFinished (settlement_payload outcome) in
  let! _ := sync_store in
  let! _ := emit turn (RunEnd run_id outcome) in
  let! _ := ask_error snapshot_error in
  let! _ := await in
  let! _ := match auto with
            | Some reason =>
                let! _ := compact {| execution_reason := reason; excluded_message_id := None;
                                     execution_identity := None;
                                     execution_instruction := None |} in
                m_ret tt
            | None => m_ret tt
            end in
  let! _ := sync_store in
  let! _ := emit turn (AgentSettled run_id outcome u) in
  let! _ := await in
  let! _ := sync_store in
  let! _ := on_session (settle_submissions answer) in
  m_ret answer.

(** [RetainedInput::settle] *)
Definition settle_retained (turn : TurnId) (c : MessageContent R)
  : K (RunResult R * option SubmissionAnswer) :=
  let! message := message_now turn c in
  let! _ := emit turn (MessageStart (message_id (identity message))) in
  let! _ := persist_message message in
  let! _ := emit turn (MessageEnd message) in
  let! answer := settle_run turn Cancelled [message] None usage_zero in
  m_ret ({| result_messages := [message]; result_turns := [] |}, Some answer).

Fixpoint fresh_ids (kind : string) (n : nat) : K (list (string_id kind)) :=
  match n with
  | 0 => m_ret []
  | Datatypes.S n =>
      let! id := fresh_id kind in
      let! rest := fresh_ids kind n in
      m_ret (id :: rest)
  end.

(** [Kernel::withdraw_pending], its records' identifiers made first. *)
Definition withdraw : K unit :=
  let! _ := ask_error snapshot_error in
  let! _ := on_session close_queue in
  let! w := m_get in
  let s := session w in
  let! ids := fresh_ids "record"
    (length (filter (fun i => withdrawable (waiters s) i = true) (items (queue s)))) in
  on_session (withdraw_pending kernel_error_text ids).

Definition succeeded (x : result (RunCompletion R) KernelError) : bool :=
  match x with
  | Ok done => match completed_outcome done with Succeeded => true | _ => false end
  | Err _ => false
  end.

(** [RunScope::settle] *)
Definition settle_scope (execution : result (RunCompletion R) KernelError) (first_turn : TurnId)
  : K (RunResult R * option SubmissionAnswer) :=
  let! l := read_loop in
  let! _ := modify_world (drop_queued (next_queued_item l)) in
  let! _ := modify_loop (set_queued None) in
  let! _ := on_session close_queue in
  let! _ := if succeeded execution then m_ret tt else withdraw in
  match execution with
  | Ok done =>
      let! answer := settle_run (completed_turn_id done) (completed_outcome done)
                       (completed_messages done) (auto_compaction_reason done) (usage l) in
      m_ret ({| result_messages := completed_messages done;
                result_turns := completed_turns done |}, Some answer)
  | Err error =>
      if negb (user_message_inserted l) && is_cancellation error then
        match retained_input l with
        | Some c => settle_retained first_turn c
        | None =>
            let! _ := settle_run first_turn Cancelled [] None (usage l) in
            m_fail PromptCancelled
        end
      else
        let! _ := settle_run first_turn (Failed (kernel_error_text error)) [] None (usage l) in
        m_fail error
  end.

(** The [TurnLoop] a run starts with. *)
Definition loop_start (c : MessageContent R) (first_turn : TurnId) : TurnLoop R :=
  {| produced_messages := []; turns := []; next_initial_input := Some c;
     next_queued_item := None; next_turn_id := Some first_turn;
     retry_of := retry_state_new (kernel_retry_policy config)
                   (provider_retry_delay_limit_ms config);
     overflow_recovery_attempted := false; system_prompt_override := None;
     before_agent_messages := None;
     retained_input := match insertion with None => Some c | Some _ => None end;
     user_message_inserted := false; usage := usage_zero |}.

(** [install_run] *)
Definition install_run (first_turn : TurnId) : K unit := fun w =>
  match active_run w with
  | Some _ => (Err (Protocol "session already has an active run"), w)
  | None => (Ok tt, set_active (Some (run_id, first_turn)) w)
  end.

(** The answer of a run that ended before its settlement. *)
Definition unsettled_answer : SubmissionAnswer :=
  {| answer_message_id := None; answer_text := "";
     answer_outcome := AnswerFailed "run ended before settlement" |}.

(** [Drop for ActiveRunLease] *)
Definition release_run (w : W) : W :=
  let s := (settle_submissions unsettled_answer (close_queue (session w)).2).2 in
  let w := set_session s w in
  match active_run w with
  | Some (run, _) => if bool_decide (run = run_id) then set_active None w else w
  | None => w
  end.

Definition leased {A} (c : K A) : K A := fun w => let '(r, w') := c w in (r, release_run w').

(** [run_until_settled] once its input is expanded; [None] when the fuel runs out. *)
Definition run_agent (fuel : nat) (first_turn : TurnId) (c : MessageContent R)
  : K (option (RunResult R * option SubmissionAnswer)) :=
  let! _ := modify_world (set_loop (loop_start c first_turn)) in
  let! _ := record_operation run_id OperationStarted {[ "operation" := JString "agent" ]} in
  let! _ := on_session open_queue in
  let! execution := attempt (execute fuel) in
  match execution with
  | Ok None => m_ret None
  | Ok (Some done) => let! r := settle_scope (Ok done) first_turn in m_ret (Some r)
  | Err error => let! r := settle_scope (Err error) first_turn in m_ret (Some r)
  end.

End Settlement.
