(* ===== verification/DirectRun.v ===== *)
(** A request from its input to its settlement: the user's shell command, the
    slash commands that bypass the agent, and the run that an expanded input
    starts.  [crates/kernel/src/runtime/run.rs], [command/execution.rs],
    [command/builtin.rs], [command/user_bash.rs], [command/session_stats.rs],
    [announced_on] of [session/rename.rs], [transform_input] of [run/turn.rs],
    [insert_handled] of [run/admission.rs]

    Waiting for the operation gate, which [Execution] models, gives an answer
    here: whether the gate was had, or the error the wait ended with.  The shell,
    the handlers of the extensions' commands and their hooks answer through
    [DirectEnv].  The outputs a running shell reports are a list; the ones a
    client hears of are those that were current when the reporting task woke. *)

From S2P Require Import Prelude Lines Chars Text Scalar Json Message StoreModel ToolContract.
From S2P Require Import StoreState KernelErrors Paths Template Skills PromptSession Commands.
From S2P Require Import Plan Replay Transcript Compaction Attempt Queue RunWorld.
From S2P Require Import CompactionRun ToolBatch TurnLoop RunSettlement.
Open Scope string_scope.
Open Scope rust_scope.

(** [InputResult] *)
Inductive InputResult : Type :=
| InputContinue
| InputTransform (text : string)
| InputHandled.

Record ShellExecution : Type := {
  shell_snapshots : list string;
  shell_reported : list string;
  shell_result : result UserBashResult KernelError
}.

Class DirectEnv (Handler : Type) := {
  gate_wait : nat -> option KernelError;
  gate_try : nat -> result bool KernelError;
  token_error : nat -> option KernelError;
  close_was_requested : nat -> bool;
  command_handler : nat -> RegisteredCommand Handler -> string -> bool;
  user_bash_hooks : nat -> UserBashInput -> option UserBashResult;
  shell : nat -> UserBashInput -> ShellExecution;
  input_hooks : nat -> string -> InputResult
}.

(** The fields of rig's usage that a report shows and nothing else reads. *)
Class UsageReport (R : RigTypes) := {
  cached_input_tokens : Usage -> option Z;
  cache_creation_input_tokens : Usage -> option Z;
  total_tokens : Usage -> option Z
}.

(** ** Titles *)

Definition MAX_SESSION_TITLE_CHARS : Z := 120.

(** [TryFrom<String> for SessionTitle] *)
Definition session_title_try_from (value : string) : result string ScalarError :=
  let normalized := trim value in
  if String.eqb normalized "" then Err EmptySessionTitle
  else if (MAX_SESSION_TITLE_CHARS <? char_count normalized)%Z
  then Err (SessionTitleTooLong MAX_SESSION_TITLE_CHARS)
  else Ok normalized.

(** ** Statistics *)

Section Statistics.
Context {R : RigTypes} {U : UsageCounters R} {UR : UsageReport R}.
Variable usage_zero : ModelUsage R.
Variable usage_add : ModelUsage R -> ModelUsage R -> ModelUsage R.

Record SessionStatistics : Type := {
  stats_user : Z;
  stats_assistant : Z;
  stats_results : Z;
  stats_calls : Z;
  stats_usage : ModelUsage R
}.

Definition valid_call (b : ContentBlock) : bool :=
  match b with ToolCallBlock _ _ _ None => true | _ => false end.

Definition count_message (s : SessionStatistics) (m : AgentMessage R) : SessionStatistics :=
  match content m with
  | User _ | ExpandedUser _ =>
      {| stats_user := stats_user s + 1; stats_assistant := stats_assistant s;
         stats_results := stats_results s; stats_calls := stats_calls s; stats_usage := stats_usage s |}
  | Assistant blocks metadata _ =>
      {| stats_user := stats_user s; stats_assistant := stats_assistant s + 1;
         stats_results := stats_results s;
         stats_calls := stats_calls s + Z.of_nat (length (List.filter valid_call blocks));
         stats_usage := usage_add (stats_usage s) (metadata_usage metadata) |}
  | ToolResult _ _ _ _ _ _ =>
      {| stats_user := stats_user s; stats_assistant := stats_assistant s;
         stats_results := stats_results s + 1; stats_calls := stats_calls s; stats_usage := stats_usage s |}
  | _ => s
  end%Z.

(** [SessionStatistics::from_transcript] *)
Definition statistics (transcript : list (AgentMessage R)) : SessionStatistics :=
  foldl count_message
    {| stats_user := 0; stats_assistant := 0; stats_results := 0; stats_calls := 0;
       stats_usage := usage_zero |} transcript.

Definition count_line (label : string) (count : option Z) : string :=
  "- " +:+ label +:+ ": " +:+ match count with Some n => u64_to_string n | None => "unknown" end.

(** [SessionStatistics]'s [Display] *)
Definition statistics_text (id : SessionId) (session_name : option string) (s : SessionStatistics) : string :=
  let usage := usage_inner (stats_usage s) in
  join nl
    (["## Session"; "- Session ID: `" +:+ as_str id +:+ "`"]
     ++ match session_name with Some n => ["- Name: " +:+ n] | None => [] end
     ++ ["- User messages: " +:+ u64_to_string (stats_user s);
         "- Assistant messages: " +:+ u64_to_string (stats_assistant s);
         "- Tool calls: " +:+ u64_to_string (stats_calls s);
         "- Tool results: " +:+ u64_to_string (stats_results s);
         count_line "Input tokens" (input_tokens usage);
         count_line "Output tokens" (output_tokens usage);
         count_line "Cache read tokens" (cached_input_tokens usage);
         count_line "Cache write tokens" (cache_creation_input_tokens usage);
         count_line "Total tokens" (total_tokens usage)])%list.
End Statistics.

Section Direct.
Context {R : RigTypes} {CC : ContentCodec R} {U : UsageCounters R} {UR : UsageReport R} `{JsonText}.
Context {S : Type} `{SessionStore S} {E : RunEnv R S} {TE : ToolEnv}.
Context {Handler : Type} {DE : DirectEnv Handler} `{ReadFs}.
Variable extension_json : ExtensionMessage -> string.
Variables SUMMARIZATION_SYSTEM_PROMPT SUMMARIZATION_PROMPT : string.
Variables UPDATE_SUMMARIZATION_PROMPT TURN_PREFIX_SUMMARIZATION_PROMPT : string.
Variable config : KernelConfig.
Variable insertion : option nat.
(** The session's working directory, commands, skills and prompts, and whether
    the request came with an admission ticket. *)
Variable cwd : string.
Variable quoted_names : list string -> string.
Variable registry : CommandRegistry Handler.
Variable catalog : option SkillCatalog.
Variable prompts : PromptSession.
Variable admitted : bool.
Abbreviation W := (World R S).
Abbreviation K := (M (World R S) KernelError).
Abbreviation Message := (AgentMessage R).

Abbreviation compact := (TurnLoop.compact extension_json SUMMARIZATION_SYSTEM_PROMPT
  SUMMARIZATION_PROMPT UPDATE_SUMMARIZATION_PROMPT TURN_PREFIX_SUMMARIZATION_PROMPT config).
Abbreviation run_agent := (RunSettlement.run_agent extension_json SUMMARIZATION_SYSTEM_PROMPT
  SUMMARIZATION_PROMPT UPDATE_SUMMARIZATION_PROMPT TURN_PREFIX_SUMMARIZATION_PROMPT config).

(** ** The operation gate *)

Definition set_cancelled (b : bool) (s : QueueSession R S) : QueueSession R S :=
  {| transcript := transcript s; queue := queue s; waiters := waiters s;
     submissions := submissions s; cancelled := b |}.

(** [install_cancellation]: a new token, cancelled when a close was requested. *)
Definition install_token : K unit :=
  let! _ := ask_error token_error in
  let! closing := ask close_was_requested in
  on_session (modify (set_cancelled closing)).

(** [acquire_operation_for_prompt] *)
Definition acquire_for_prompt : K unit :=
  let! _ := await in
  let! _ := ask_error gate_wait in
  install_token.

Definition fail_when (b : bool) (e : KernelError) : K unit :=
  if b then m_fail e else m_ret tt.

(** ** The user's shell commands *)

(** Whether the first output of a running shell was seen: its time. *)
Definition output_time (snapshots : list string) : K (option TimestampMs) :=
  if existsb (fun output => negb (String.eqb output "")) snapshots
  then let! at_ms := now in m_ret (Some at_ms)
  else m_ret None.

Fixpoint report_outputs (run : RunId) (turn : TurnId) (id : MessageId) (outputs : list string) : K unit :=
  match outputs with
  | [] => m_ret tt
  | output :: rest =>
      let! _ := attempt (emit turn (UserBashOutput run id output)) in
      report_outputs run turn id rest
  end.

(** [UserBashOperation::execute] *)
Definition user_bash_operation (run : RunId) (turn : TurnId) (id : MessageId) (started : TimestampMs)
  (input : UserBashInput) : K (Message * UserBashResult) :=
  let! _ := ask_error snapshot_error in
  let! _ := await in
  let! hooked := ask user_bash_hooks in
  let! (output_at, done) :=
    match hooked input with
    | Some result => let! at_ms := now in m_ret (Some at_ms, result)
    | None =>
        let! execution := ask shell in
        let x := execution input in
        let! output_at := output_time (shell_snapshots x) in
        let! _ := report_outputs run turn id (shell_reported x) in
        let! _ := await in
        let! result := m_lift (shell_result x) in
        m_ret (output_at, result)
    end in
  let! ended := now in
  let! t := timing_of started (default ended output_at) ended in
  let message :=
    {| identity := {| message_id := id; turn_id := turn |}; timing := t;
       content := BashExecution
         {| bash_command := shell_command input; bash_result := done;
            exclude_from_context := shell_excluded input; bash_cwd := Some cwd |} |} in
  let! _ := persist_message message in
  let! _ := sync_store in
  let! _ := emit_at turn ended (MessageEnd message) in
  m_ret (message, done).

(** How an accepted shell command ended, and whether its message was emitted. *)
Definition shell_outcome (execution : result (Message * UserBashResult) KernelError) : AgentOutcome * bool :=
  match execution with
  | Ok (_, done) => (if bash_cancelled done then Cancelled else Succeeded, true)
  | Err e => (if is_cancellation e then Cancelled else Failed (kernel_error_text e), false)
  end.

(** [Kernel::execute_user_bash_operation] *)
Definition execute_user_bash (input : UserBashInput) : K (RunId * Message * UserBashResult) :=
  let! _ := acquire_for_prompt in
  let! run := fresh_id "run" in
  let! turn := new_turn_id in
  let! _ := install_run run turn in
  leased run (
    let! stopped := is_cancelled in
    let! _ := fail_when (match insertion with Some _ => stopped | None => false end) PromptCancelled in
    let! id := new_message_id in
    let! started := now in
    let! _ := emit_at turn started
                (UserBashStarted run id (shell_command input) cwd (shell_excluded input)) in
    let! _ := publish_insertion insertion id in
    let! execution := attempt (user_bash_operation run turn id started input) in
    let '(outcome, emitted) := shell_outcome execution in
    let! _ := emit turn (UserBashFinished run id outcome emitted) in
    let! (message, done) := m_lift execution in
    m_ret (run, message, done)).

(** [Kernel::try_execute_user_bash_request] *)
Definition try_user_bash (input : RunInput) : K (option (RunResult R)) :=
  match (text ← slash_command_text input; parse_prefixed text) with
  | None => m_ret None
  | Some bash =>
      let! (_, message, _) := execute_user_bash bash in
      m_ret (Some {| result_messages := [message]; result_turns := [] |})
  end.

(** ** Slash commands *)

(** [SlashCommandExecution], whose session, sink and trace are the world's. *)
Record SlashExecution : Type := {
  slash_session_id : SessionId;
  slash_run : RunId;
  slash_turn : TurnId;
  slash_started : TimestampMs;
  slash_invoked : SlashCommandInvocation
}.

Definition slash_name (x : SlashExecution) : string := invocation_name (slash_invoked x).

Definition slash_message (x : SlashExecution) (t : MessageTiming) (id : MessageId) (m : SlashCommandMessage)
  : Message :=
  {| identity := {| message_id := id; turn_id := slash_turn x |}; timing := t; content := SlashCommand m |}.

(** [SlashCommandExecution::invocation_message], [output_message] *)
Definition invocation_message (x : SlashExecution) (source : SlashCommandSource) : K Message :=
  let! id := new_message_id in
  let! t := timing_of (slash_started x) (slash_started x) (slash_started x) in
  m_ret (slash_message x t id (Invocation (slash_invoked x) source)).
Definition output_message (x : SlashExecution) (output : SlashCommandOutput) (ended : TimestampMs)
  : K Message :=
  let! id := new_message_id in
  let! t := timing_of ended ended ended in
  m_ret (slash_message x t id (Output output)).

(** [Kernel::persist_and_emit_slash_message] *)
Definition persist_and_emit (m : Message) : K unit :=
  let! _ := emit_at (turn_id (identity m)) (timestamp_ms (timing m))
              (MessageStart (message_id (identity m))) in
  let! _ := persist_message m in
  let! _ := sync_store in
  emit_at (turn_id (identity m)) (ended_at_ms (timing m)) (MessageEnd m).

(** An output of one text block. *)
Definition text_output (name : string) (source : SlashCommandSource) (status : SlashCommandStatus)
  (text : string) : SlashCommandOutput :=
  {| command := name; output_source := source; output_status := status; output_blocks := [Message.Text text] |}.

(** [BuiltinSlashCommand::output] *)
Definition builtin_output (b : BuiltinSlashCommand) (status : SlashCommandStatus) (text : string)
  : SlashCommandOutcome :=
  HandledCommand (Some (text_output (builtin_name b) Builtin status text)).

Definition read_name : K (option string) := fun w =>
  (Ok (name (transcript_store (transcript (session w)))), w).
Definition read_transcript : K (list Message) := fun w =>
  (let? b := active_branch (transcript (session w)) in branch_messages b, w).

(** [SessionRename::announced_on] *)
Definition announced_on (title : option string) (turn : TurnId) : K unit :=
  let! _ := await in
  let! _ := on_lane (transcript_set_name title) in
  let! _ := sync_store in
  let! _ := attempt (emit turn (SessionTitleChanged title)) in
  let! _ := ask_error snapshot_error in
  await.

(** [Kernel::execute_builtin_slash_command] *)
Definition execute_builtin (x : SlashExecution) (b : BuiltinSlashCommand) : K SlashCommandOutcome :=
  let arguments := invocation_arguments (slash_invoked x) in
  match b with
  | CompactCommand =>
      let! _ := compact {| execution_reason := Manual; excluded_message_id := None;
                           execution_identity := Some (slash_run x, slash_turn x, slash_started x);
                           execution_instruction := non_empty arguments |} in
      m_ret (HandledCommand None)
  | NameCommand =>
      if String.eqb arguments "" then
        let! current := read_name in
        m_ret (match current with
               | None => builtin_output b StatusFailed "Usage: /name <name>"
               | Some n => builtin_output b StatusSucceeded ("Session name: " +:+ n)
               end)
      else
        match session_title_try_from arguments with
        | Err _ =>
            m_ret (RejectedCommand
                     (InvalidArguments (builtin_name b) "/name <name> (maximum 120 characters)"))
        | Ok title =>
            let! _ := announced_on (Some title) (slash_turn x) in
            m_ret (builtin_output b StatusSucceeded ("Session name set: " +:+ title))
        end
  | SessionCommand =>
      if negb (String.eqb arguments "") then
        m_ret (RejectedCommand (InvalidArguments (builtin_name b) "/session"))
      else
        let! current := read_name in
        let! messages := read_transcript in
        m_ret (builtin_output b StatusSucceeded
                 (statistics_text (slash_session_id x) current (statistics usage_zero usage_add messages)))
  end.

(** The extension's handler runs once the gate is given back. *)
Definition execute_extension (x : SlashExecution) (c : RegisteredCommand Handler) : K SlashCommandOutcome :=
  let! _ := ask_error snapshot_error in
  let! _ := await in
  let! handle := ask command_handler in
  m_ret (if handle c (invocation_arguments (slash_invoked x)) then HandledCommand None
         else RejectedCommand (ExecutionFailed (slash_name x))).

(** What a resolved command does; a resolution without a command starts none. *)
Definition command_outcome (x : SlashExecution) (r : DirectSlashCommandResolution (Handler := Handler))
  : K SlashCommandOutcome :=
  match r with
  | DirectRejected _ e => m_ret (RejectedCommand e)
  | DirectCommand (DirectBuiltin b) => execute_builtin x b
  | DirectCommand (DirectExtension c) => execute_extension x c
  | DirectNotFound => m_fail (Protocol "resolved Slash Command disappeared during execution")
  end.

(** The output and status a command settles with, before a stop is looked at. *)
Definition outcome_output (x : SlashExecution) (source : SlashCommandSource) (o : SlashCommandOutcome)
  : result (option SlashCommandOutput * SlashCommandStatus) KernelError :=
  match o with
  | HandledCommand output => Ok (output, from_option output_status StatusSucceeded output)
  | RejectedCommand e =>
      Ok (Some (text_output (slash_name x) source StatusFailed (command_error_text e)), StatusFailed)
  | ExpandedPrompt _ | CommandNotFoundOutcome =>
      Err (Protocol "direct Slash Command returned a non-direct outcome")
  end.

Definition status_failed (s : SlashCommandStatus) : bool :=
  match s with StatusFailed => true | _ => false end.

(** A failed command that was stopped settles as cancelled. *)
Definition stopped_output (x : SlashExecution) (source : SlashCommandSource) (stopped : bool)
  (settled : option SlashCommandOutput * SlashCommandStatus)
  : option SlashCommandOutput * SlashCommandStatus :=
  if status_failed settled.2 && stopped
  then (Some (text_output (slash_name x) source StatusCancelled
                ("/" +:+ slash_name x +:+ " was cancelled")), StatusCancelled)
  else settled.

(** The summary of a failure: the first text of its output. *)
Definition failure_text (settled : option SlashCommandOutput * SlashCommandStatus) : option string :=
  if status_failed settled.2
  then (output ← settled.1; head (omap block_text (output_blocks output)))
  else None.

Definition busy_output (x : SlashExecution) (source : SlashCommandSource) : SlashCommandOutput :=
  text_output (slash_name x) source StatusFailed (command_error_text (Busy (slash_name x))).

(** A command that finds the session busy. *)
Definition refuse_busy (x : SlashExecution) (source : SlashCommandSource) : K (RunResult R) :=
  let! invoked := invocation_message x source in
  let! _ := persist_and_emit invoked in
  let! _ := publish_insertion insertion (message_id (identity invoked)) in
  let! at_ms := now in
  let! output := output_message x (busy_output x source) at_ms in
  let! _ := persist_and_emit output in
  m_ret {| result_messages := [invoked; output]; result_turns := [] |}.

(** What follows the command's own work. *)
Definition settle_command (x : SlashExecution) (source : SlashCommandSource) (invoked : Message)
  (outcome : result SlashCommandOutcome KernelError) : K (RunResult R) :=
  let '(outcome, stopped) :=
    match outcome with
    | Ok o => (o, false)
    | Err e => (RejectedCommand (ExecutionFailed (slash_name x)), is_cancellation e)
    end in
  let! settled := m_lift (outcome_output x source outcome) in
  let! cancelled_now := is_cancelled in
  let settled := stopped_output x source (stopped || cancelled_now) settled in
  let! messages :=
    match settled.1 with
    | Some output =>
        let! at_ms := now in
        let! m := output_message x output at_ms in
        let! _ := persist_and_emit m in
        m_ret [invoked; m]
    | None => m_ret [invoked]
    end in
  let! _ := sync_store in
  let! _ := emit (slash_turn x) (SlashCommandEnd (slash_run x) settled.2 (failure_text settled)) in
  m_ret {| result_messages := messages; result_turns := [] |}.

(** A command that has the gate. *)
Definition run_command (x : SlashExecution) (source : SlashCommandSource)
  (r : DirectSlashCommandResolution (Handler := Handler)) : K (RunResult R) :=
  let! stopped := is_cancelled in
  let! _ := fail_when (admitted && stopped) PromptCancelled in
  let! _ := emit_at (slash_turn x) (slash_started x) (SlashCommandStart (slash_run x) (slash_invoked x)) in
  let! persisted :=
    attempt (let! m := invocation_message x source in
             let! _ := persist_and_emit m in
             m_ret m) in
  match persisted with
  | Err e =>
      let! _ := attempt (emit (slash_turn x) (SlashCommandEnd (slash_run x) StatusFailed None)) in
      m_fail e
  | Ok invoked =>
      let! _ := publish_insertion insertion (message_id (identity invoked)) in
      let! outcome := attempt (command_outcome x r) in
      settle_command x source invoked outcome
  end.

(** [Kernel::try_execute_direct_slash_command] *)
Definition try_slash_command (x : SlashExecution) : K (option (RunResult R)) :=
  let! r := m_lift (resolve_direct quoted_names registry (slash_name x)) in
  match resolution_source r with
  | None => m_ret None
  | Some source =>
      let! free :=
        if admitted then (let! _ := acquire_for_prompt in m_ret true) else ask_result gate_try in
      if free then
        let! _ := if admitted then m_ret tt else install_token in
        let! result := run_command x source r in
        m_ret (Some result)
      else
        let! result := refuse_busy x source in
        m_ret (Some result)
  end.

(** ** Requests *)

(** [insert_handled]: input that an extension took is shown to the client and
    kept nowhere. *)
Definition insert_handled (turn : TurnId) (text : string) (notice : nat) : K unit :=
  let! _ := sync_store in
  let! message := message_now turn (User [Message.Text text]) in
  let! _ := emit turn (MessageStart (message_id (identity message))) in
  let! stopped := is_cancelled in
  let! _ := fail_when stopped PromptCancelled in
  let! _ := emit turn (MessageEnd message) in
  publish_insertion (Some notice) (message_id (identity message)).

(** [RunScope::transform_input] *)
Definition transform_input (input : RunInput) (processed : bool) (turn : TurnId) : K (option RunInput) :=
  match input with
  | BlocksRunInput _ => m_ret (Some input)
  | TextRunInput text =>
      let! result :=
        if processed then m_ret InputContinue
        else let! _ := await in let! hooks := ask input_hooks in m_ret (hooks text) in
      match result with
      | InputContinue => m_ret (Some (TextRunInput text))
      | InputTransform text => m_ret (Some (TextRunInput text))
      | InputHandled =>
          let! _ := match insertion with
                    | Some notice => insert_handled turn text notice
                    | None => sync_store
                    end in
          m_ret None
      end
  end.

(** The input a run starts with. *)
Definition expanded (input : RunInput) : PromptInputExpansion :=
  match input with
  | TextRunInput text => expand_prompt_input catalog prompts text
  | BlocksRunInput blocks => from_blocks blocks
  end.

(** The part of [run_until_settled] that holds the run's lease. *)
Definition run_leased (run : RunId) (fuel : nat) (turn : TurnId) (input : RunInput) (processed : bool)
  : K (option (RunResult R * option SubmissionAnswer)) :=
  let! _ := ask_error snapshot_error in
  let! transformed := transform_input input processed turn in
  match transformed with
  | None => m_ret (Some ({| result_messages := []; result_turns := [] |}, None))
  | Some input =>
      let! _ := emit turn (RunStart run) in
      let e := expanded input in
      let! _ := match input_diagnostic e with
                | Some d => emit turn (SkillDiagnosed d)
                | None => m_ret tt
                end in
      run_agent run insertion fuel turn (message_content_of e)
  end.

(** A command the input names, unless hooks already processed it. *)
Definition direct_command (session : SessionId) (run : RunId) (turn : TurnId) (started : TimestampMs)
  (input : RunInput) (processed : bool) : K (option (RunResult R)) :=
  if processed then m_ret None
  else
    match (text ← slash_command_text input;
           match slash_invocation text with Ok i => Some i | Err _ => None end) with
    | None => m_ret None
    | Some invoked =>
        try_slash_command {| slash_session_id := session; slash_run := run; slash_turn := turn;
                             slash_started := started; slash_invoked := invoked |}
    end.

(** [Kernel::run_until_settled]; [None] when the fuel runs out. *)
Definition run_until_settled (session : SessionId) (fuel : nat) (input : RunInput) (processed : bool)
  : K (option (RunResult R * option SubmissionAnswer)) :=
  let! bash := if processed then m_ret None else try_user_bash input in
  match bash with
  | Some result => m_ret (Some (result, None))
  | None =>
      let! run := fresh_id "run" in
      let! turn := new_turn_id in
      let! started := now in
      let! direct := direct_command session run turn started input processed in
      match direct with
      | Some result => m_ret (Some (result, None))
      | None =>
          let! _ := acquire_for_prompt in
          let! _ := install_run run turn in
          leased run (run_leased run fuel turn input processed)
      end
  end.
End Direct.
