(* ===== verification/RunFrames.v ===== *)
(** A run is a sequence of queue steps: each phase, whatever the environment
    answers and wherever it fails, takes the session from one configuration of
    the pending queue to another by steps of [queue_step], with a claim it holds
    counted where a drop would put it.

    The hypotheses on the environment are those of the callers it stands for:
    other tasks take queue steps, identifiers that accepted messages reserved
    are never generated again, and hooks keep messages encodable. *)

From S2P Require Import Prelude Chars Scalar Json Message StoreModel.
From S2P Require Import ToolContract StoreState KernelErrors Plan Replay.
From S2P Require Import Transcript Aligned Compaction Attempt Queue QueueReplay.
From S2P Require Import QueueSteps QueueKeeps RunWorld CompactionRun ToolBatch.
From S2P Require Import TurnLoop RunSettlement.
Open Scope string_scope.
Open Scope rust_scope.

Create HintDb frame discriminated.

Section RunSteps.
Context {R : RigTypes} {CC : ContentCodec R} {S : Type} `{SessionStoreLaws S} {E : RunEnv R S}.
Abbreviation W := (World R S).
Abbreviation K := (M (World R S) KernelError).
Abbreviation Item := (PendingQueueItem R).
Abbreviation Q := (QueueSession R S).

Variable reserved : EntryId -> Prop.

(** What a run relies on: a well-formed store, and pending messages that can be
    encoded, at reserved entry identifiers. *)
Definition pending_ok (s : Q) (c : option Item) : Prop :=
  store_wf (store_of s) /\
  forall i, i ∈ items (logical (s, c)) ->
    reserved (item_entry_id i) /\ message_ok (queued_message (queued i)).

Abbreviation step := (queue_step (R := R) (S := S) kernel_error_text).

Record env_ok : Prop := {
  env_others : forall n s c, pending_ok s c ->
    rtc step (s, c) (other_tasks n s, c) /\ pending_ok (other_tasks n s) c;
  env_fresh : forall n id, id_try_from "entry" (generated_id n) = Ok id -> ~ reserved id;
  env_hooks : forall n m, message_ok m -> message_ok (message_end_hooks n m)
}.

(** A message some entry of the store holds, and the worlds that announced no
    message before its entry was stored. *)
Definition stored (s : Q) (m : AgentMessage R) : Prop := exists e x,
  get_entry (store_of s) e = Some x /\ entry_kind x = KindMessage /\
  message_object m = Some (entry_payload x).
Definition announced (w : W) : Prop := forall ev m,
  ev ∈ events w -> event_payload ev = MessageEnd m -> stored (session w) m.

(** From one world to a later one, with a claim [c] before and [c'] after. *)
Record moves (w : W) (c : option Item) (w' : W) (c' : option Item) : Prop := {
  moves_steps : rtc step (session w, c) (session w', c');
  moves_pending : pending_ok (session w') c';
  moves_announced : announced w -> announced w'
}.

Lemma stored_steps x y m :
  rtc step x y -> store_wf (store_of x.1) -> stored x.1 m -> stored y.1 m.
Proof.
  intros Hs Hwf (e & z & Hg & Hrest). destruct (steps_keep _ _ _ Hs Hwf) as [_ Hk].
  exists e, z. split; [by apply Hk|done].
Qed.

(** Moves whose events grew by ones that announce nothing new. *)
Lemma moves_events w c w' c' l :
  rtc step (session w, c) (session w', c') -> pending_ok (session w) c ->
  pending_ok (session w') c' -> events w' = (events w ++ l)%list ->
  (forall ev m, ev ∈ l -> event_payload ev = MessageEnd m -> stored (session w) m) ->
  moves w c w' c'.
Proof.
  intros Hs [Hwf _] Hp He Hl. split; [done..|]. intros Hann ev m Hev Hm.
  apply (stored_steps _ _ m Hs Hwf). rewrite He in Hev. apply elem_of_app in Hev as [Hev|Hev].
  - by eapply Hann.
  - by eapply Hl.
Qed.
Lemma moves_silent w c w' c' :
  rtc step (session w, c) (session w', c') -> pending_ok (session w) c ->
  pending_ok (session w') c' -> events w' = events w -> moves w c w' c'.
Proof.
  intros Hs Hp Hp' He. apply (moves_events _ _ _ _ []); try done; [by rewrite app_nil_r|].
  by intros ev m ?%not_elem_of_nil.
Qed.

Lemma moves_trans w1 c1 w2 c2 w3 c3 :
  moves w1 c1 w2 c2 -> moves w2 c2 w3 c3 -> moves w1 c1 w3 c3.
Proof. intros [Hs1 _ Ha1] [Hs2 Hp Ha2]. split; [by etrans|done|auto]. Qed.

Lemma moves_same w c w' :
  session w' = session w -> events w' = events w -> pending_ok (session w) c -> moves w c w' c.
Proof. intros Hs He Hp. apply moves_silent; rewrite ?Hs; done. Qed.

Lemma moves_stored w c w' c' m :
  moves w c w' c' -> pending_ok (session w) c -> stored (session w) m -> stored (session w') m.
Proof. intros [Hs _ _] [Hwf _]. exact (stored_steps _ _ m Hs Hwf). Qed.

(** A phase that neither takes nor gives up a claim, and leaves the loop's; with
    [ends] false it also leaves the Turns the loop has recorded. *)
Definition frame (ends : bool) {A} (m : K A) : Prop := forall c w r w',
  m w = (r, w') -> pending_ok (session w) c ->
  moves w c w' c /\ next_queued_item (loop w') = next_queued_item (loop w) /\
  (ends = false -> turns (loop w') = turns (loop w)).

(** The same for what runs after a message is stored. *)
Definition frame_after (m0 : AgentMessage R) (ends : bool) {A} (m : K A) : Prop := forall c w r w',
  stored (session w) m0 -> m w = (r, w') -> pending_ok (session w) c ->
  moves w c w' c /\ next_queued_item (loop w') = next_queued_item (loop w) /\
  (ends = false -> turns (loop w') = turns (loop w)).

Section Frame.
Variable ends : bool.
Abbreviation frame := (frame ends).

Lemma frame_ret {A} (a : A) : frame (m_ret a).
Proof. intros c w r w' [= _ <-] Hp. by split; [apply moves_same|]. Qed.
Lemma frame_fail {A} e : frame (m_fail (A := A) e).
Proof. intros c w r w' [= _ <-] Hp. by split; [apply moves_same|]. Qed.
Lemma frame_lift {A} (x : result A KernelError) : frame (m_lift x).
Proof. intros c w r w' [= _ <-] Hp. by split; [apply moves_same|]. Qed.
Lemma frame_get : frame m_get.
Proof. intros c w r w' [= _ <-] Hp. by split; [apply moves_same|]. Qed.
Lemma frame_read {A} (f : W -> A) : frame (fun w => (Ok (f w), w)).
Proof. intros c w r w' [= _ <-] Hp. by split; [apply moves_same|]. Qed.
Lemma frame_ask {A} (answers : nat -> A) : frame (ask (S := S) answers).
Proof. intros c w r w' [= _ <-] Hp. by split; [apply moves_same|]. Qed.
Lemma frame_bind {A B} (m : K A) (k : A -> K B) :
  frame m -> (forall a, frame (k a)) -> frame (m_bind m k).
Proof.
  intros Hm Hk c w r w' Hr Hp. unfold m_bind in Hr. destruct (m w) as [[a|e] w1] eqn:Hmw.
  - destruct (Hm c w _ w1 Hmw Hp) as (Hs & Hn & Ht).
    destruct (Hk a c w1 r w' Hr (moves_pending _ _ _ _ Hs)) as (Hs' & Hn' & Ht').
    split; [by eapply moves_trans|]. split; [by rewrite Hn', Hn|].
    intros He. by rewrite Ht', Ht.
  - injection Hr as _ <-. by eapply Hm.
Qed.
Lemma frame_attempt {A} (m : K A) : frame m -> frame (attempt m).
Proof.
  intros Hm c w r w' Hr Hp. unfold attempt in Hr. destruct (m w) as [x w1] eqn:Hmw.
  injection Hr as _ <-. by eapply Hm.
Qed.
Lemma frame_modify (f : W -> W) :
  (forall w, session (f w) = session w /\ events (f w) = events w /\
     next_queued_item (loop (f w)) = next_queued_item (loop w) /\
     (ends = false -> turns (loop (f w)) = turns (loop w))) ->
  frame (modify_world f).
Proof.
  intros Hf c w r w' [= _ <-] Hp. destruct (Hf w) as (Hs & He & Hn & Ht).
  by split; [apply moves_same|].
Qed.
Lemma frame_modify_loop (f : TurnLoop R -> TurnLoop R) :
  (forall l, next_queued_item (f l) = next_queued_item l /\ (ends = false -> turns (f l) = turns l)) ->
  frame (modify_loop f).
Proof. intros Hf. apply frame_modify. intros w. destruct (Hf (loop w)). by repeat split. Qed.

Lemma frame_ask_result {A} (answers : nat -> result A KernelError) : frame (ask_result (S := S) answers).
Proof. apply frame_bind; [apply frame_ask|intros; apply frame_lift]. Qed.
Lemma frame_ask_error (answers : nat -> option KernelError) : frame (ask_error (S := S) answers).
Proof.
  apply frame_bind; [apply frame_ask|]. intros [e|]; [apply frame_fail|apply frame_ret].
Qed.
Lemma frame_on_session {A} (m : M Q KernelError A) :
  (forall c s r s', m s = (r, s') -> pending_ok s c -> rtc step (s, c) (s', c) /\ pending_ok s' c) ->
  frame (on_session m).
Proof.
  intros Hm c w r w' Hr Hp. unfold on_session in Hr. destruct (m (session w)) as [x s] eqn:Hx.
  injection Hr as _ <-. destruct (Hm _ _ _ _ Hx Hp). split; [|done]. by apply moves_silent.
Qed.

Lemma pending_ok_logical s s' c c' :
  store_of s' = store_of s -> (forall i, i ∈ items (logical (s', c')) -> i ∈ items (logical (s, c))) ->
  pending_ok s c -> pending_ok s' c'.
Proof. intros Hs Hi [Hwf Hall]. split; [by rewrite Hs|]. auto. Qed.

(** Operations on the lane alone. *)
Lemma frame_on_lane {A} (m : M (SessionTranscript R S) KernelError A) :
  lane_steps reserved m -> frame (on_lane m).
Proof.
  intros Hm. apply frame_on_session. intros c s r s' Hr [Hwf Hall].
  unfold on_transcript in Hr. destruct (m (transcript s)) as [x t] eqn:Hx.
  injection Hr as _ <-. pose proof (Hm _ _ _ Hwf Hx) as [Hl Hw (xs & Hrec & Hq) He Hn].
  assert (items (logical (set_transcript t s, c)) = items (logical (s, c))) as Hlog
    by (by destruct c).
  split; [|split; [done|by rewrite Hlog]].
  apply rtc_once. eapply step_other; [exact Hl|by intros _|exact Hrec|exact Hq|exact He|].
  intros i Hi. apply Hn, (Hall i Hi).
Qed.

Lemma frame_waiters (f : Q -> Q) :
  (forall s, transcript (f s) = transcript s /\ queue (f s) = queue s) ->
  frame (on_session (modify f)).
Proof.
  intros Hf. apply frame_on_session. intros c s r s' [= _ <-] Hp. destruct (Hf s) as [Ht Hq].
  assert (f s = {| transcript := transcript s; queue := queue s; waiters := waiters (f s);
                   submissions := submissions (f s); cancelled := cancelled (f s) |}) as Heq.
  { destruct (f s); cbn in *. by subst. }
  rewrite Heq. split; [apply rtc_once, step_waiters|].
  by apply (pending_ok_logical s _ c c).
Qed.

Lemma frame_open (b : Q -> bool) :
  frame (on_session (modify (fun s => set_queue (with_open (b s) (queue s)) s))).
Proof.
  apply frame_on_session. intros c s r s' [= _ <-] Hp.
  split; [apply rtc_once, step_open|].
  apply (pending_ok_logical s _ c c); [done| |exact Hp].
  intros i. destruct c as [x|]; unfold logical; simpl; [|done].
  unfold queue_push_front. by destruct (item_kind x).
Qed.

(** ** After a message is stored *)

Lemma appended_stored id m (s : Q) u t :
  append_context_message id m (transcript s) = (Ok u, t) -> store_wf (store_of s) ->
  stored (set_transcript t s) m.
Proof.
  intros Ha Hwf. unfold append_context_message in Ha. unfold m_bind at 1 in Ha.
  destruct (writable_cases (transcript s)) as [[Hw _]|(e & Hw & _)]; rewrite Hw in Ha; [|done].
  unfold m_bind at 1, m_get, encode_message, m_bind at 1, m_lift, message_to_value in Ha.
  destruct (message_object m) as [o|] eqn:Ho; cbn [map_err] in Ha; [|done].
  unfold m_bind, store_call, push_context, m_modify in Ha.
  destruct (append_entry _ _ _) as [[x|e] st] eqn:Hap; [|done]. injection Ha as _ <-.
  destruct (appended_entry _ _ _ (message_entry id (JObject o)) o _ Hwf eq_refl
    (message_object_disjoint _ _ Ho) Hap) as (_ & Hk & Hp & Hg & _).
  exists (entry_id x), x. split; [exact Hg|]. by rewrite Hp.
Qed.


Lemma after_frame m0 {A} (m : K A) : frame m -> frame_after m0 ends m.
Proof. intros Hm c w r w' _. apply Hm. Qed.
Lemma after_bind m0 {A B} (m : K A) (k : A -> K B) :
  frame_after m0 ends m -> (forall a, frame_after m0 ends (k a)) -> frame_after m0 ends (m_bind m k).
Proof.
  intros Hm Hk c w r w' Hst Hr Hp. unfold m_bind in Hr. destruct (m w) as [[a|e] w1] eqn:Hmw.
  - destruct (Hm c w _ w1 Hst Hmw Hp) as (Hs & Hn & Ht).
    pose proof (moves_stored _ _ _ _ _ Hs Hp Hst) as Hst1.
    destruct (Hk a c w1 r w' Hst1 Hr (moves_pending _ _ _ _ Hs)) as (Hs' & Hn' & Ht').
    split; [by eapply moves_trans|]. split; [by rewrite Hn', Hn|].
    intros He. by rewrite Ht', Ht.
  - injection Hr as _ <-. by eapply Hm.
Qed.

Section Env.
Hypothesis env : env_ok.

Lemma frame_await : frame await.
Proof.
  intros c w r w' Hr Hp. unfold await, m_bind, ask, modify_world in Hr.
  injection Hr as _ <-. split; [|done]. destruct (env_others env (asked w) _ _ Hp).
  by apply moves_silent.
Qed.

(** Events other than a message's end announce nothing. *)
Definition is_message_end (e : RunEvent R) : bool :=
  match e with MessageEnd _ => true | _ => false end.

Lemma after_push m0 turn at_ms e :
  (is_message_end e = false \/ e = MessageEnd m0) ->
  frame_after m0 ends (modify_world (S := S) (fun w =>
    set_events (events w ++ [{| event_turn_id := turn; event_timestamp_ms := at_ms;
                                event_payload := e |}])%list w)).
Proof.
  intros He c w r w' Hst [= _ <-] Hp. split; [|done].
  eapply moves_events; [by apply rtc_refl|done|done|reflexivity|].
  intros ev m ->%list_elem_of_singleton Hm. cbn in Hm. subst e.
  by destruct He as [He|[= ->]].
Qed.

Lemma after_emit_at m0 turn at_ms e :
  (is_message_end e = false \/ e = MessageEnd m0) -> frame_after m0 ends (emit_at turn at_ms e).
Proof.
  intros He. apply after_bind; [by apply after_push|intros _].
  apply after_frame, frame_bind; [apply frame_await|intros _; apply frame_ask_error].
Qed.
Lemma after_emit m0 turn e :
  (is_message_end e = false \/ e = MessageEnd m0) -> frame_after m0 ends (emit turn e).
Proof.
  intros He. apply after_bind; [by apply after_frame, frame_ask|].
  intros at_ms. by apply after_emit_at.
Qed.

Lemma frame_emit_at turn at_ms e : is_message_end e = false -> frame (emit_at turn at_ms e).
Proof.
  intros He. apply frame_bind.
  - intros c w r w' [= _ <-] Hp. split; [|done].
    eapply moves_events; [by apply rtc_refl|done|done|reflexivity|].
    intros ev m ->%list_elem_of_singleton Hm. cbn in Hm. by subst e.
  - intros _. apply frame_bind; [apply frame_await|intros _; apply frame_ask_error].
Qed.
Lemma frame_emit turn e : is_message_end e = false -> frame (emit turn e).
Proof. intros He. apply frame_bind; [apply frame_ask|intros at_ms; by apply frame_emit_at]. Qed.

Lemma frame_fresh_entry {A} (k : EntryId -> K A) :
  (forall id, ~ reserved id -> frame (k id)) -> frame (m_bind (fresh_id "entry") k).
Proof.
  intros Hk c w r w' Hr Hp. unfold m_bind, fresh_id, ask, m_lift in Hr. unfold m_bind in Hr.
  destruct (id_try_from "entry" (generated_id (asked w))) as [id|e] eqn:Hid; cbn in Hr.
  - pose proof (env_fresh env _ _ Hid) as Hres. destruct (Hk id Hres c _ _ _ Hr Hp) as (Hs & Hn & Ht). split; [|done].
    eapply moves_trans; [|exact Hs]. by apply moves_same.
  - injection Hr as _ <-. by split; [apply moves_same|].
Qed.

Lemma frame_fresh_id kind : frame (fresh_id (S := S) kind).
Proof. apply frame_bind; [apply frame_ask|intros; apply frame_lift]. Qed.

Lemma frame_persist m : frame (persist_message m).
Proof.
  apply frame_fresh_entry. intros id Hid. by apply frame_on_lane, steps_append_message.
Qed.

(** A message that was persisted is stored for whatever follows. *)
Lemma persisted_stored m w u w' :
  persist_message m w = (Ok u, w') -> store_wf (store_of (session w)) -> stored (session w') m.
Proof.
  intros Hw Hwf. unfold persist_message, m_bind at 1, fresh_id in Hw. unfold m_bind, ask, m_lift in Hw.
  destruct (map_err _ _) as [id|e]; [|done]. unfold on_lane, on_session in Hw. cbn [session] in Hw.
  unfold on_transcript in Hw.
  destruct (append_context_message id m (transcript (session w))) as [x t] eqn:Ha.
  injection Hw as -> <-. by eapply appended_stored.
Qed.

Lemma frame_persist_then {A} m (k : unit -> K A) :
  (forall u, frame_after m ends (k u)) -> frame (m_bind (persist_message m) k).
Proof.
  intros Hk c w r w' Hr Hp. unfold m_bind in Hr.
  destruct (persist_message m w) as [[u|e] w1] eqn:Hw.
  - destruct (frame_persist m c w _ w1 Hw Hp) as (Hs & Hn & Ht).
    pose proof (persisted_stored _ _ _ _ Hw (proj1 Hp)) as Hst.
    destruct (Hk u c w1 r w' Hst Hr (moves_pending _ _ _ _ Hs)) as (Hs' & Hn' & Ht').
    split; [by eapply moves_trans|]. split; [by rewrite Hn', Hn|].
    intros He. by rewrite Ht', Ht.
  - injection Hr as _ <-. by eapply frame_persist.
Qed.

Lemma frame_record run kind payload :
  disjoint_keys record_fields payload -> queue_kind kind = false ->
  frame (record_operation run kind payload).
Proof.
  intros Hd Hk. apply frame_bind; [apply frame_fresh_id|intros id].
  apply frame_bind; [apply frame_get|intros w]. apply frame_bind; [|intros; apply frame_ret].
  apply frame_on_lane, steps_transcript_record; [|done]. by exists payload.
Qed.

Lemma frame_sync : frame sync_store.
Proof. apply frame_on_lane, steps_sync. Qed.

End Env.
End Frame.

Lemma frame_weaken {A} (m : K A) b : frame false m -> frame b m.
Proof. intros Hm c w r w' Hr Hp. destruct (Hm c w r w' Hr Hp) as (? & ? & Ht). auto. Qed.

End RunSteps.

(** The phases of a run that hold no claim of their own: compaction, the tool
    batch, the model's answer and the records of a Turn are frames of
    [run_frames] hints. *)

Open Scope string_scope.
Open Scope rust_scope.

(** One step on the shape of the computation. *)
Ltac frame_step env :=
  match goal with
  | |- forall _, _ => intros ?
  | |- RunFrames.frame _ _ (let _ := _ in _) => intros ?
  | |- RunFrames.frame _ _ ?m =>
      lazymatch m with
      | m_bind (persist_message _) _ => apply (frame_persist_then _ _ env)
      | m_bind (fresh_id "entry") _ => apply (frame_fresh_entry _ _ env)
      | m_bind _ _ => apply frame_bind
      | attempt _ => apply frame_attempt
      | m_ret _ => apply frame_ret
      | m_fail _ => apply frame_fail
      | m_lift _ => apply frame_lift
      | m_get => apply frame_get
      | await => apply (frame_await _ _ env)
      | sync_store => apply frame_sync
      | ask _ => apply frame_ask
      | ask_result _ => apply frame_ask_result
      | ask_error _ => apply frame_ask_error
      | fresh_id _ => apply frame_fresh_id
      | new_message_id => apply frame_fresh_id
      | new_turn_id => apply frame_fresh_id
      | record_operation _ _ _ => apply frame_record; [by repeat constructor; simplify_map_eq|done]
      | modify_loop _ => apply frame_modify_loop; solve [intros; split; [done|intros; cbn; congruence]]
      | emit _ _ => apply (frame_emit _ _ env); reflexivity
      | emit_at _ _ _ => apply (frame_emit_at _ _ env); reflexivity
      | (fun w => (Ok _, w)) => apply frame_read
      | match ?x with _ => _ end => destruct x
      | _ => solve [auto with frame nocore]
      end
  | |- RunFrames.frame_after _ _ _ ?m =>
      lazymatch m with
      | m_bind _ _ => apply after_bind
      | emit _ (MessageEnd _) => apply (after_emit _ _ env); by right
      | emit_at _ _ (MessageEnd _) => apply (after_emit_at _ _ env); by right
      | match ?x with _ => _ end => destruct x
      | _ => apply after_frame
      end
  end.
Ltac frame_go env := repeat frame_step env.

Section Frames.
Context {R : RigTypes} {CC : ContentCodec R} {U : UsageCounters R} `{JsonText}.
Context {S : Type} `{SessionStoreLaws S} {E : RunEnv R S} {TE : ToolEnv}.
Variable reserved : EntryId -> Prop.
Hypothesis env : env_ok reserved.
Variable ends : bool.
Variable extension_json : ExtensionMessage -> string.
Variables SUMMARIZATION_SYSTEM_PROMPT SUMMARIZATION_PROMPT : string.
Variables UPDATE_SUMMARIZATION_PROMPT TURN_PREFIX_SUMMARIZATION_PROMPT : string.
Variable config : KernelConfig.
Variable run_id : RunId.
Variable insertion : option nat.
Abbreviation frame := (RunFrames.frame reserved ends).
Abbreviation K := (M (World R S) KernelError).

Lemma frame_cancelled : frame is_cancelled.
Proof. apply frame_read. Qed.
Lemma frame_history : frame read_history.
Proof. apply frame_read. Qed.
Lemma frame_loop : frame read_loop.
Proof. apply frame_read. Qed.
Hint Resolve eq_refl : frame.
Hint Resolve frame_cancelled frame_history frame_loop : frame.

Lemma frame_message_end m : frame (emit_message_end m).
Proof. unfold emit_message_end. frame_go env. Qed.
Lemma frame_timing a b c : frame (timing_of a b c).
Proof. apply frame_lift. Qed.
Lemma frame_now : frame now.
Proof. apply frame_ask. Qed.
Hint Resolve frame_message_end frame_timing frame_now : frame.
Lemma frame_message_now turn c : frame (message_now turn c).
Proof. unfold message_now. frame_go env. Qed.
Lemma frame_materialize turn draft : frame (materialize_extension_message turn draft).
Proof. apply frame_message_now. Qed.
Hint Resolve frame_message_now frame_materialize : frame.

(** ** Compaction *)

Lemma frame_sleep : frame sleep_cancelled.
Proof. unfold sleep_cancelled. frame_go env. Qed.
Lemma frame_open_stream request : frame (open_stream request).
Proof. unfold open_stream. frame_go env. Qed.
Hint Resolve frame_sleep frame_open_stream : frame.

Lemma frame_summary_loop fuel request state : frame (summary_loop fuel request state).
Proof.
  revert state. induction fuel as [|fuel IH]; intros state; cbn [summary_loop]; frame_go env;
    try apply IH.
Qed.
Hint Resolve frame_summary_loop : frame.

Lemma frame_generate turn at_ms messages protocol :
  frame (generate_compaction_summary SUMMARIZATION_SYSTEM_PROMPT SUMMARIZATION_PROMPT
    UPDATE_SUMMARIZATION_PROMPT TURN_PREFIX_SUMMARIZATION_PROMPT config turn at_ms messages protocol).
Proof. unfold generate_compaction_summary. destruct protocol; frame_go env. Qed.
Hint Resolve frame_generate : frame.

Lemma frame_summary_of turn at_ms messages protocol :
  frame (summary_of SUMMARIZATION_SYSTEM_PROMPT SUMMARIZATION_PROMPT
    UPDATE_SUMMARIZATION_PROMPT TURN_PREFIX_SUMMARIZATION_PROMPT config turn at_ms messages protocol).
Proof. unfold summary_of. frame_go env. Qed.
Hint Resolve frame_summary_of : frame.

Lemma frame_generated turn at_ms p instruction :
  frame (generated_summary SUMMARIZATION_SYSTEM_PROMPT SUMMARIZATION_PROMPT
    UPDATE_SUMMARIZATION_PROMPT TURN_PREFIX_SUMMARIZATION_PROMPT config turn at_ms p instruction).
Proof. unfold generated_summary. frame_go env. Qed.
Hint Resolve frame_generated : frame.

Lemma frame_compaction_body run turn started entry reason instruction supplied p :
  ~ reserved entry ->
  frame (compaction_body SUMMARIZATION_SYSTEM_PROMPT SUMMARIZATION_PROMPT
    UPDATE_SUMMARIZATION_PROMPT TURN_PREFIX_SUMMARIZATION_PROMPT config run turn started entry
    reason instruction supplied p).
Proof.
  intros Hres. unfold compaction_body. frame_go env.
  by apply frame_on_lane, steps_finish_compaction.
Qed.
Hint Resolve frame_compaction_body : frame.

Lemma frame_lifecycle_complete run turn reason result :
  frame (lifecycle_complete run turn reason result).
Proof. unfold lifecycle_complete. frame_go env. Qed.
Lemma frame_lifecycle_fail run turn reason error : frame (lifecycle_fail run turn reason error).
Proof. unfold lifecycle_fail. frame_go env. Qed.
Hint Resolve frame_lifecycle_complete frame_lifecycle_fail : frame.

Abbreviation compact := (TurnLoop.compact extension_json SUMMARIZATION_SYSTEM_PROMPT
  SUMMARIZATION_PROMPT UPDATE_SUMMARIZATION_PROMPT TURN_PREFIX_SUMMARIZATION_PROMPT config).

Lemma frame_compact x : frame (compact x).
Proof. unfold TurnLoop.compact, perform_compaction. frame_go env. Qed.
Hint Resolve frame_compact : frame.

(** ** The tool batch *)

Lemma frame_start_call run turn gate i call : frame (start_call run turn gate i call).
Proof. unfold start_call. frame_go env. Qed.
Hint Resolve frame_start_call : frame.

Lemma frame_start_calls run turn gate i calls : frame (start_calls run turn gate i calls).
Proof.
  revert i. induction calls as [|call calls IH]; intros i; cbn [start_calls]; frame_go env;
    try apply IH.
Qed.
Hint Resolve frame_start_calls : frame.

Lemma frame_run_call p : frame (run_call p).
Proof. unfold run_call. frame_go env. Qed.
Hint Resolve frame_run_call : frame.

Lemma frame_complete_call run turn p : frame (complete_call run turn p).
Proof. unfold complete_call. frame_go env. Qed.
Hint Resolve frame_complete_call : frame.

Lemma frame_complete_calls fuel run turn pending b :
  frame (complete_calls fuel run turn pending b).
Proof.
  revert pending b. induction fuel as [|fuel IH]; intros pending b; cbn [complete_calls];
    frame_go env; try apply IH.
Qed.
Hint Resolve frame_complete_calls : frame.

Lemma frame_tool_batch run turn gate calls : frame (execute_tool_batch run turn gate calls).
Proof. unfold execute_tool_batch. frame_go env. Qed.
Hint Resolve frame_tool_batch : frame.

(** ** The Turn around them *)

Lemma frame_produce m : frame (produce m).
Proof. unfold produce. frame_go env. Qed.
Hint Resolve frame_produce : frame.

Lemma frame_finish turn outcome auto : ends = true -> frame (finish turn outcome auto).
Proof. unfold finish. frame_go env. Qed.
Hint Resolve frame_finish : frame.

Lemma frame_set_active turn : frame (set_active_turn run_id turn).
Proof.
  intros c w r w' Hr Hp. unfold set_active_turn in Hr.
  destruct (active_run w) as [[run t]|]; [|by injection Hr as _ <-; split; [apply moves_same|]].
  case_bool_decide; injection Hr as _ <-; by split; [apply moves_same|].
Qed.
Hint Resolve frame_set_active : frame.

Lemma frame_begin_turn item : frame (begin_turn run_id item).
Proof. unfold begin_turn. frame_go env. Qed.
Hint Resolve frame_begin_turn : frame.

Lemma frame_fail_if b e : frame (fail_if b e).
Proof. unfold fail_if. frame_go env. Qed.
Hint Resolve frame_fail_if : frame.

Lemma frame_rename turn title : frame (rename_default turn title).
Proof.
  unfold rename_default. frame_go env. apply frame_on_lane, steps_default_name.
Qed.
Hint Resolve frame_rename : frame.

Lemma frame_prepare turn item : frame (prepare_user_message insertion turn item).
Proof. unfold prepare_user_message. frame_go env. Qed.
Hint Resolve frame_prepare : frame.

Lemma frame_insert_drafts turn drafts : frame (insert_drafts turn drafts).
Proof.
  induction drafts as [|d drafts IH]; cbn [insert_drafts]; frame_go env.
Qed.
Hint Resolve frame_insert_drafts : frame.

Lemma frame_model_request turn : frame (model_request turn).
Proof. unfold model_request. frame_go env. Qed.
Hint Resolve frame_model_request : frame.

Lemma frame_assistant_stream turn id items a : frame (assistant_stream turn id items a).
Proof.
  revert a. induction items as [|[e t|e t|t|t] items IH]; intros a; cbn [assistant_stream];
    frame_go env; try apply IH.
Qed.
Hint Resolve frame_assistant_stream : frame.

Lemma frame_stream_assistant turn request : frame (stream_assistant turn request).
Proof. unfold stream_assistant. frame_go env. Qed.
Hint Resolve frame_stream_assistant : frame.

Lemma frame_settle_assistant turn id x : frame (settle_assistant config turn id x).
Proof. unfold settle_assistant. frame_go env. Qed.
Hint Resolve frame_settle_assistant : frame.

Lemma frame_publish turn m u : frame (publish_assistant turn m u).
Proof. unfold publish_assistant. frame_go env. Qed.
Hint Resolve frame_publish : frame.

Lemma frame_insert_results turn messages : frame (insert_results turn messages).
Proof.
  induction messages as [|m messages IH]; cbn [insert_results]; frame_go env.
Qed.
Hint Resolve frame_insert_results : frame.

Lemma frame_run_tools turn s gate : frame (run_tools run_id turn s gate).
Proof. unfold run_tools. frame_go env. Qed.
Hint Resolve frame_run_tools : frame.

Lemma frame_record_turn turn s : ends = true -> frame (record_turn run_id turn s).
Proof. unfold record_turn. frame_go env. Qed.
Hint Resolve frame_record_turn : frame.

Abbreviation recover_overflow := (TurnLoop.recover_overflow extension_json
  SUMMARIZATION_SYSTEM_PROMPT SUMMARIZATION_PROMPT UPDATE_SUMMARIZATION_PROMPT
  TURN_PREFIX_SUMMARIZATION_PROMPT config).
Lemma frame_recover s : frame (recover_overflow s).
Proof. unfold TurnLoop.recover_overflow. frame_go env. Qed.
Lemma frame_retry_turn turn f g : ends = true -> frame (retry_turn run_id turn f g).
Proof. unfold retry_turn. frame_go env. Qed.
Lemma frame_report turn f : frame (report_retries run_id turn f).
Proof. unfold report_retries. frame_go env. Qed.

Abbreviation start_agent := (TurnLoop.start_agent extension_json
  SUMMARIZATION_SYSTEM_PROMPT SUMMARIZATION_PROMPT UPDATE_SUMMARIZATION_PROMPT
  TURN_PREFIX_SUMMARIZATION_PROMPT config).
Lemma frame_start_agent : frame start_agent.
Proof. unfold TurnLoop.start_agent. frame_go env. Qed.

End Frames.

#[export] Hint Resolve eq_refl frame_sleep frame_open_stream frame_cancelled frame_history frame_loop
  frame_message_end frame_timing frame_now frame_message_now
  frame_materialize frame_compact frame_tool_batch frame_produce
  frame_finish frame_begin_turn frame_fail_if frame_rename frame_prepare frame_model_request
  frame_stream_assistant frame_settle_assistant frame_publish frame_run_tools frame_record_turn
  frame_recover frame_retry_turn frame_report frame_start_agent : frame.
