(* ===== verification/RunMoves.v ===== *)
(** The phases of a run that take a claim, insert it, give it back or withdraw
    what waits, and the run as a whole, as queue steps. *)

From S2P Require Import Prelude Chars Scalar Json Message StoreModel.
From S2P Require Import ToolContract StoreState KernelErrors Plan Replay.
From S2P Require Import Transcript Aligned Compaction Attempt Queue QueueReplay.
From S2P Require Import QueueSteps QueueKeeps RunWorld CompactionRun ToolBatch.
From S2P Require Import TurnLoop RunSettlement RunFrames.
Open Scope string_scope.
Open Scope rust_scope.

(** ** What one critical section of the queue does to what is pending *)

Section Pending.
Context {R : RigTypes} {CC : ContentCodec R} {S : Type} `{SessionStoreLaws S}.
Context (display : KernelError -> string) (reserved : EntryId -> Prop).
Abbreviation Item := (PendingQueueItem R).
Abbreviation Q := (QueueSession R S).

Lemma drop_logical (s : Q) i : logical (drop_claim i s, None) = logical (s, Some i).
Proof. done. Qed.

Lemma claim_logical allow (s s' : Q) c :
  claim_next_or_close allow s = (Ok c, s') ->
  transcript s' = transcript s /\
  forall i, i ∈ items (logical (s', c)) -> i ∈ items (logical (s, None)).
Proof.
  unfold claim_next_or_close. intros Hr.
  assert (forall (q : PendingQueue R) i x, x ∈ items (queue_push_front i q) <-> x = i \/ x ∈ items q)
    as Hfront by (intros; apply items_push_front).
  destruct (steering (queue s)) as [|x st] eqn:Hs.
  - destruct allow; [|by injection Hr as <- <-].
    destruct (follow_up (queue s)) as [|x fu] eqn:Hf; injection Hr as <- <-; split; try done;
      intros i; unfold logical; cbn; rewrite Hfront; unfold items; cbn; rewrite ?Hs, ?Hf; cbn.
    rewrite !elem_of_cons. by intros [->|Hi]; [left|right].
  - injection Hr as <- <-. split; [done|]. intros i. unfold logical. cbn. rewrite Hfront.
    unfold items. cbn. rewrite Hs. cbn. rewrite !elem_of_cons. by intros [->|Hi]; [left|right].
Qed.

Definition keeps_wf {A} (m : M (SessionTranscript R S) KernelError A) : Prop :=
  forall t r t', store_wf (transcript_store t) -> m t = (r, t') -> store_wf (transcript_store t').

Lemma wf_bind {A B} (m : M (SessionTranscript R S) KernelError A)
  (k : A -> M (SessionTranscript R S) KernelError B) :
  keeps_wf m -> (forall a, keeps_wf (k a)) -> keeps_wf (m_bind m k).
Proof.
  intros Hm Hk t r t' Hwf Hr. unfold m_bind in Hr. destruct (m t) as [[a|e] t1] eqn:H1.
  - eapply Hk; [|exact Hr]. by eapply Hm.
  - injection Hr as _ <-. by eapply Hm.
Qed.
Lemma wf_same {A} (m : M (SessionTranscript R S) KernelError A) :
  (forall t, transcript_store (m t).2 = transcript_store t) -> keeps_wf m.
Proof. intros Hm t r t' Hwf Hr. specialize (Hm t). rewrite Hr in Hm. by rewrite <- Hm in Hwf. Qed.
Lemma wf_try {A} (op : M S StoreError A) :
  (forall s, store_wf s -> store_wf (op s).2) -> keeps_wf (store_try (R := R) op).
Proof.
  intros Hop t r t' Hwf Hr. unfold store_try in Hr. specialize (Hop _ Hwf).
  destruct (op (transcript_store t)) as [x s]. by injection Hr as _ <-.
Qed.

Lemma commit_consumed_wf id m r : keeps_wf (commit_consumed id m r).
Proof.
  apply wf_bind; [by apply wf_same|intros payload].
  apply wf_bind; [apply wf_same; intros t; unfold writable; by repeat case_match|intros _].
  intros t x t' Hwf. unfold m_bind at 1, m_get. revert t x t' Hwf.
  assert (forall l, keeps_wf (let! outcome := store_try (append_entry l (message_entry id payload)) in
    match outcome with
    | Err _ => uncertain
    | Ok _ =>
        let! _ := push_context m in
        let! recorded := store_try (append_record r) in
        match recorded with Ok _ => m_ret tt | Err _ => uncertain end
    end)) as Hall.
  { intros l. apply wf_bind; [apply wf_try; intros s; apply append_entry_wf|].
    intros [x|e]; [|by apply wf_same].
    apply wf_bind; [by apply wf_same|intros _].
    apply wf_bind; [apply wf_try; intros s; apply append_record_wf|].
    intros [y|e]; by apply wf_same. }
  intros t x t' Hwf. by apply Hall.
Qed.

Lemma commit_records_wf rs : keeps_wf (commit_records rs).
Proof.
  apply wf_bind; [apply wf_same; intros t; unfold writable; by repeat case_match|intros _].
  apply wf_bind.
  - induction rs as [|r rs IH]; [by apply wf_same|]. cbn [append_records].
    apply wf_bind; [apply wf_try; intros s; apply append_record_wf|].
    intros [x|e]; [exact IH|by apply wf_same].
  - intros _. apply wf_bind; [apply wf_try; intros s; apply sync_wf|].
    intros [x|e]; by apply wf_same.
Qed.

Lemma take_item_subset id (l : list Item) x r i : take_item id l = Some (x, r) -> i ∈ r -> i ∈ l.
Proof.
  revert r. induction l as [|y l IH]; intros r; [done|]. cbn.
  case_bool_decide; [intros [= <- <-]; by right|].
  destruct (take_item id l) as [[z r']|]; [|done]. intros [= <- <-].
  rewrite !elem_of_cons. intros [->|Hi]; [by left|right; by eapply IH].
Qed.

Lemma queue_remove_subset id (q : PendingQueue R) i :
  i ∈ items (queue_remove id q).2 -> i ∈ items q.
Proof.
  unfold queue_remove. destruct (take_item id (steering q)) as [[x r]|] eqn:Hs.
  - unfold items. cbn. rewrite !elem_of_app. intros [Hi|Hi]; [left|by right].
    by eapply take_item_subset.
  - destruct (take_item id (follow_up q)) as [[x r]|] eqn:Hf; [|done].
    unfold items. cbn. rewrite !elem_of_app. intros [Hi|Hi]; [by left|right].
    by eapply take_item_subset.
Qed.

Lemma withdraw_one_subset (s : Q) id :
  transcript (withdraw_one display s id) = transcript s /\
  forall i, i ∈ items (queue (withdraw_one display s id)) -> i ∈ items (queue s).
Proof.
  unfold withdraw_one. pose proof (queue_remove_subset id (queue s)) as Hsub.
  destruct (queue_remove id (queue s)) as [[x|] q]; [|done].
  destruct (reject_frame display PromptCancelled (set_queue q s) x) as [-> ->]. done.
Qed.

Lemma withdraw_all_subset (l : list QueueId) (s : Q) :
  transcript (foldl (withdraw_one display) s l) = transcript s /\
  forall i, i ∈ items (queue (foldl (withdraw_one display) s l)) -> i ∈ items (queue s).
Proof.
  revert s. induction l as [|id l IH]; intros s; [done|]. cbn.
  destruct (IH (withdraw_one display s id)) as [Ht Hi].
  destruct (withdraw_one_subset s id) as [Ht' Hi']. rewrite Ht, Ht'. by split; [|auto].
Qed.

(** A withdrawal leaves the store well formed and adds nothing to the queue. *)
Lemma withdraw_pending_subset rids (s s' : Q) r :
  withdraw_pending display rids s = (r, s') -> store_wf (store_of s) ->
  store_wf (store_of s') /\ forall i, i ∈ items (queue s') -> i ∈ items (queue s).
Proof.
  intros Hr Hwf. unfold withdraw_pending in Hr.
  unfold m_bind at 1, close_queue, modify in Hr. unfold m_bind, m_get in Hr.
  set (s0 := set_queue (with_open false (queue s)) s) in *.
  destruct (item_id <$> _) as [|id l] eqn:Hl; [by injection Hr as _ <-|]. rewrite <- Hl in Hr.
  unfold on_transcript in Hr.
  destruct (commit_records _ (transcript s0)) as [[x|e] t] eqn:Hc; injection Hr as _ <-.
  - match goal with |- context [foldl (withdraw_one display) ?s1 ?l1] =>
      destruct (withdraw_all_subset l1 s1) as [Ht Hi] end.
    split; [|done]. unfold store_of. rewrite Ht. by eapply commit_records_wf.
  - match goal with |- context [reject_all display ?e ?l1 ?s1] =>
      destruct (reject_all_frame display e l1 s1) as [Ht Hq] end.
    unfold store_of. rewrite Ht, Hq. split; [|done]. by eapply commit_records_wf.
Qed.

(** What consuming a claim leaves. *)
Lemma consume_subset (s s' : Q) i m rec r :
  consume_claimed display i m rec s = (r, s') -> store_wf (store_of s) ->
  store_wf (store_of s') /\
  forall x, x ∈ items (logical (s', None)) -> x ∈ items (logical (s, Some i)).
Proof.
  unfold consume_claimed. intros Hr Hwf.
  destruct (cancelled s); [by injection Hr as _ <-|].
  unfold on_transcript in Hr.
  destruct (commit_consumed _ m rec (transcript s)) as [[x|e] t] eqn:Hc.
  - assert (store_wf (transcript_store t)) as Hw by (by eapply commit_consumed_wf).
    assert (forall x, x ∈ items (queue s) -> x ∈ items (logical (s, Some i))) as Hsub
      by (intros y Hy; unfold logical; cbn; apply items_push_front; by right).
    destruct (waiter i) as [[n|n]|]; injection Hr as _ <-; by split.
  - injection Hr as _ <-.
    destruct (reject_frame display e (set_transcript t s) i) as [Ht Hq].
    unfold store_of, logical. cbn. rewrite Ht, Hq. split; [by eapply commit_consumed_wf|].
    intros y Hy. apply items_push_front. by right.
Qed.

(** A consumed message is stored. *)
Lemma consume_stored (s s' : Q) i m rec u :
  consume_claimed display i m rec s = (Ok u, s') -> message_ok m -> plain_record rec ->
  store_wf (store_of s) -> stored s' m.
Proof.
  unfold consume_claimed. intros Hr Hm Hrec Hwf.
  destruct (cancelled s); [done|]. unfold on_transcript in Hr.
  destruct (commit_consumed _ m rec (transcript s)) as [[x|e] t] eqn:Hc; [|done].
  destruct (commit_consumed_commits _ _ _ _ _ _ Hm Hrec Hwf Hc) as (_ & _ & _ & _ & _ & z & Hz).
  destruct (waiter i) as [[n|n]|]; injection Hr as _ <-; by exists (item_entry_id i), z.
Qed.

End Pending.

(** ** The run *)

Section Moves.
Context {R : RigTypes} {CC : ContentCodec R} {U : UsageCounters R} `{JsonText}.
Context {S : Type} `{SessionStoreLaws S} {E : RunEnv R S} {TE : ToolEnv}.
Variable reserved : EntryId -> Prop.
Hypothesis env : env_ok reserved.
Variable extension_json : ExtensionMessage -> string.
Variables SUMMARIZATION_SYSTEM_PROMPT SUMMARIZATION_PROMPT : string.
Variables UPDATE_SUMMARIZATION_PROMPT TURN_PREFIX_SUMMARIZATION_PROMPT : string.
Variable config : KernelConfig.
Variable run_id : RunId.
Variable insertion : option nat.
Abbreviation W := (World R S).
Abbreviation K := (M (World R S) KernelError).
Abbreviation Item := (PendingQueueItem R).
Abbreviation frame := (RunFrames.frame reserved true).
Abbreviation moves := (RunFrames.moves reserved).
Abbreviation pending_ok := (RunFrames.pending_ok reserved).

Lemma moves_drop w i : pending_ok (session w) (Some i) -> moves w (Some i) (drop_queued (Some i) w) None.
Proof. intros Hp. apply moves_silent; try done. apply rtc_once, step_drop. Qed.

(** What the loop keeps of its claim and its Turns. *)
Definition same_loop (w w' : W) : Prop :=
  next_queued_item (loop w') = next_queued_item (loop w) /\ turns (loop w') = turns (loop w).
Lemma same_loop_trans w1 w2 w3 : same_loop w1 w2 -> same_loop w2 w3 -> same_loop w1 w3.
Proof. intros [H12 Ht12] [H23 Ht23]. split; congruence. Qed.
Lemma frame_same {A} (m : K A) c w r w' :
  RunFrames.frame reserved false m -> m w = (r, w') -> pending_ok (session w) c ->
  moves w c w' c /\ same_loop w w'.
Proof. intros Hm Hr Hp. destruct (Hm _ _ _ _ Hr Hp) as (Hs & Hn & Ht). split; [done|]. split; [done|]. by apply Ht. Qed.

Lemma moves_holding {A} (item : option Item) (m : K A) w r w' :
  RunFrames.frame reserved false m -> holding item m w = (r, w') -> pending_ok (session w) item ->
  same_loop w w' /\
  match r with Ok _ => moves w item w' item | Err _ => moves w item w' None end.
Proof.
  intros Hm Hr Hp. unfold holding in Hr. destruct (m w) as [[a|e] w1] eqn:Hw1;
    injection Hr as <- <-; destruct (frame_same _ _ _ _ _ Hm Hw1 Hp) as [Hs Hn]; [done|].
  destruct item as [i|]; cbn; [|done]. split; [done|].
  eapply moves_trans; [exact Hs|]. by eapply moves_drop, moves_pending.
Qed.

(** The message a claimed item becomes is the hooks' version of its own. *)
Lemma prepare_claimed turn (i : Item) w m w' :
  prepare_user_message insertion turn (Some i) w = (Ok (Some m), w') ->
  message_ok (queued_message (queued i)) -> message_ok m.
Proof.
  intros Hr Hok. unfold prepare_user_message in Hr. cbv [m_bind m_ret is_cancelled] in Hr.
  destruct (fail_if _ _ w) as [[u|e] w1]; [|done].
  destruct (emit_at _ _ _ w1) as [[u'|e] w2]; [|done].
  destruct (await w2) as [[u2|e] w3]; [|done].
  unfold emit_message_end, m_bind, m_ret in Hr.
  destruct (await w3) as [[u3|e] w4]; [|done].
  unfold ask in Hr. cbn [fst snd] in Hr.
  destruct (fail_if _ _ _) as [[u5|e] w5]; [|done].
  injection Hr as <- _. by apply (env_hooks _ env).
Qed.

Lemma moves_consume w i m rid r s' :
  consume_claimed kernel_error_text i m
    (queue_cancellation_record rid (Some run_id) (item_id i) Consumed (session w)) (session w)
    = (r, s') ->
  message_ok m -> pending_ok (session w) (Some i) -> moves w (Some i) (set_session s' w) None.
Proof.
  intros Hr Hm Hp. apply moves_silent; try done.
  - apply rtc_once. by eapply step_consume.
  - destruct Hp as [Hwf Hall]. destruct (consume_subset _ _ _ _ _ _ _ Hr Hwf) as [Hw Hsub].
    split; [done|]. auto.
Qed.

(** From here on a claim, if there is one, is the argument. *)
Lemma moves_insert_message item m w r w' :
  insert_message run_id insertion item m w = (r, w') ->
  (item <> None -> message_ok m) -> pending_ok (session w) item ->
  same_loop w w' /\ moves w item w' None /\
  match r with Ok _ => stored (session w') m | Err _ => True end.
Proof.
  intros Hr Hm Hp. destruct item as [i|]; cbn [insert_message] in Hr.
  - unfold m_bind at 1 in Hr.
    destruct (holding (Some i) (fresh_id "record") w) as [x w1] eqn:Hh.
    destruct (moves_holding _ _ _ _ _ (frame_fresh_id reserved false "record") Hh Hp) as [Hn Hmv].
    destruct x as [rid|e]; [|by injection Hr as <- <-].
    pose proof (moves_pending _ _ _ _ _ Hmv) as Hp1.
    unfold m_bind, m_get, on_session in Hr. destruct (consume_claimed _ _ _ _ _) as [y s'] eqn:Hc.
    injection Hr as <- <-. cbn [loop set_session session]. split; [done|]. split.
    + eapply moves_trans; [exact Hmv|]. eapply moves_consume; [exact Hc|by apply Hm|done].
    + destruct y as [u|e]; [|done].
      eapply consume_stored; [exact Hc|by apply Hm|apply cancellation_is_plain|apply Hp1].
  - unfold m_bind at 1, is_cancelled in Hr. unfold m_bind at 1 in Hr.
    destruct (fail_if _ _ w) as [x w1] eqn:Hfail.
    destruct (frame_same _ _ _ _ _ (frame_fail_if reserved false _ _) Hfail Hp) as [Hm1 Hn1].
    destruct x as [u|e]; [|by injection Hr as <- <-].
    unfold m_bind at 1 in Hr. destruct (persist_message m w1) as [x w2] eqn:Hper.
    pose proof (moves_pending _ _ _ _ _ Hm1) as Hp1.
    destruct (frame_same _ _ _ _ _ (frame_persist _ false env m) Hper Hp1) as [Hm2 Hn2].
    destruct x as [u2|e]; [|injection Hr as <- <-; split; [by eapply same_loop_trans|split; [by eapply moves_trans|done]]].
    pose proof (persisted_stored _ _ _ _ Hper (proj1 Hp1)) as Hst.
    assert (RunFrames.frame reserved false (let! _ := modify_loop set_inserted in
      publish_insertion insertion (message_id (identity m)))) as Hf.
    { unfold publish_insertion. frame_go env. by apply frame_waiters. }
    pose proof (moves_pending _ _ _ _ _ Hm2) as Hp2.
    destruct (frame_same _ _ _ _ _ Hf Hr Hp2) as [Hm3 Hn3].
    split; [eapply same_loop_trans; [exact Hn1|by eapply same_loop_trans]|]. split.
    + eapply moves_trans; [exact Hm1|]. by eapply moves_trans.
    + destruct r; [|done]. by eapply moves_stored.
Qed.

(** The rest of the Turn, whose claim is gone. *)
Lemma moves_insert turn item w r w' :
  insert_user_message run_id insertion turn item w = (r, w') -> pending_ok (session w) item ->
  same_loop w w' /\ moves w item w' None.
Proof.
  intros Hr Hp. unfold insert_user_message in Hr. unfold m_bind at 1 in Hr.
  destruct (holding item _ w) as [x w1] eqn:Hh.
  destruct (moves_holding _ _ _ _ _ (frame_prepare reserved env false insertion turn item) Hh Hp)
    as [Hn Hm].
  destruct x as [[m|]|e]; [|injection Hr as _ <-|by injection Hr as _ <-].
  - unfold m_bind at 1 in Hr. destruct (insert_message run_id insertion item m w1) as [y w2] eqn:Hi.
    assert (item <> None -> message_ok m) as Hok.
    { intros Hsome. destruct item as [i|]; [|done]. unfold holding in Hh.
      destruct (prepare_user_message insertion turn (Some i) w) as [[z|z] w3] eqn:Hprep; [|done].
      injection Hh as -> ->. eapply prepare_claimed; [exact Hprep|].
      destruct Hp as [_ Hall]. apply (Hall i). apply items_push_front. by left. }
    destruct (moves_insert_message _ _ _ _ _ Hi Hok (moves_pending _ _ _ _ _ Hm))
      as (Hn2 & Hm2 & Hst).
    destruct y as [u|e].
    + assert (RunFrames.frame_after reserved m false
               (let! _ := match default_title m with
                          | Some title => rename_default turn title
                          | None => m_ret tt
                          end in
                let! _ := emit_at turn (timestamp_ms (timing m)) (MessageEnd m) in
                produce m)) as Hf by frame_go env.
      destruct (Hf None w2 r w' Hst Hr (moves_pending _ _ _ _ _ Hm2)) as (Hm3 & Hn3 & Ht3).
      split; [|eapply moves_trans; [exact Hm|]; by eapply moves_trans].
      eapply same_loop_trans; [exact Hn|]. eapply same_loop_trans; [exact Hn2|]. by split; auto.
    + injection Hr as _ <-. split; [by eapply same_loop_trans|]. by eapply moves_trans.
  - (* A Turn without a message has no claim either. *)
    destruct item as [i|]; [|by split]. exfalso.
    unfold holding in Hh.
    destruct (prepare_user_message insertion turn (Some i) w) as [[z|z] w3] eqn:Hprep; [|done].
    injection Hh as -> ->. revert Hprep. unfold prepare_user_message.
    cbv [m_bind m_ret is_cancelled]. repeat (case_match; try done).
Qed.

(** ** What a settled Turn leads to *)

Abbreviation next_action := (TurnLoop.next_action extension_json SUMMARIZATION_SYSTEM_PROMPT
  SUMMARIZATION_PROMPT UPDATE_SUMMARIZATION_PROMPT TURN_PREFIX_SUMMARIZATION_PROMPT config run_id).
Abbreviation answer_turn := (TurnLoop.answer_turn extension_json SUMMARIZATION_SYSTEM_PROMPT
  SUMMARIZATION_PROMPT UPDATE_SUMMARIZATION_PROMPT TURN_PREFIX_SUMMARIZATION_PROMPT config run_id).
Abbreviation run_turn := (TurnLoop.run_turn extension_json SUMMARIZATION_SYSTEM_PROMPT
  SUMMARIZATION_PROMPT UPDATE_SUMMARIZATION_PROMPT TURN_PREFIX_SUMMARIZATION_PROMPT config run_id
  insertion).
Abbreviation turn_loop := (TurnLoop.turn_loop extension_json SUMMARIZATION_SYSTEM_PROMPT
  SUMMARIZATION_PROMPT UPDATE_SUMMARIZATION_PROMPT TURN_PREFIX_SUMMARIZATION_PROMPT config run_id
  insertion).
Abbreviation execute := (TurnLoop.execute extension_json SUMMARIZATION_SYSTEM_PROMPT
  SUMMARIZATION_PROMPT UPDATE_SUMMARIZATION_PROMPT TURN_PREFIX_SUMMARIZATION_PROMPT config run_id
  insertion).
Abbreviation settle_scope := (RunSettlement.settle_scope extension_json SUMMARIZATION_SYSTEM_PROMPT
  SUMMARIZATION_PROMPT UPDATE_SUMMARIZATION_PROMPT TURN_PREFIX_SUMMARIZATION_PROMPT config run_id).
Abbreviation run_agent := (RunSettlement.run_agent extension_json SUMMARIZATION_SYSTEM_PROMPT
  SUMMARIZATION_PROMPT UPDATE_SUMMARIZATION_PROMPT TURN_PREFIX_SUMMARIZATION_PROMPT config run_id
  insertion).

(** A phase that starts without a claim and may leave one to the loop. *)
Definition carries {A} (m : K A) : Prop := forall w r w',
  m w = (r, w') -> pending_ok (session w) None -> next_queued_item (loop w) = None ->
  moves w None w' (next_queued_item (loop w')).

Lemma carries_frame {A} (m : K A) : frame m -> carries m.
Proof.
  intros Hf w r w' Hr Hp Hn. destruct (Hf None w r w' Hr Hp) as (Hm & Hn' & _). by rewrite Hn', Hn.
Qed.

Lemma carries_bind {A B} (m : K A) (k : A -> K B) :
  frame m -> (forall a, carries (k a)) -> carries (m_bind m k).
Proof.
  intros Hm Hk w r w' Hr Hp Hn. unfold m_bind in Hr. destruct (m w) as [[a|e] w1] eqn:Hw1;
    destruct (Hm None w _ w1 Hw1 Hp) as (Hs & Hn1 & _).
  - eapply moves_trans; [exact Hs|]. eapply Hk; [exact Hr|apply (moves_pending _ _ _ _ _ Hs)|congruence].
  - injection Hr as _ <-. by rewrite Hn1, Hn.
Qed.

(** The claim itself. *)
Lemma carries_claim {A} allow (k : option Item -> K A) :
  (forall c, frame (k c)) ->
  carries (let! claimed := on_session (claim_next_or_close allow) in
           let! _ := modify_loop (set_queued claimed) in k claimed).
Proof.
  intros Hk w r w' Hr Hp _. unfold m_bind at 1, on_session in Hr.
  destruct (claim_next_or_close allow (session w)) as [[c|e] s] eqn:Hc.
  - unfold m_bind, modify_loop, modify_world in Hr. cbn [set_session] in Hr.
    destruct (claim_logical allow _ _ _ Hc) as [Ht Hi].
    match type of Hr with k c ?w1 = _ => set (w1' := w1) in Hr end.
    assert (moves w None w1' c) as Hmv.
    { apply moves_silent; [| done | split |done].
      - apply rtc_once. destruct c as [i|]; [by eapply step_claim|by eapply step_no_claim].
      - unfold store_of, w1'. cbn. rewrite Ht. apply Hp.
      - intros i Hin. apply (proj2 Hp), Hi, Hin. }
    destruct (Hk c c w1' r w' Hr (moves_pending _ _ _ _ _ Hmv)) as (Hmv2 & Hn & _). rewrite Hn.
    by eapply moves_trans.
  - unfold claim_next_or_close in Hc. by repeat case_match.
Qed.

Lemma carries_conclude turn s b : carries (conclude extension_json config run_id turn s b).
Proof.
  apply carries_bind; [by apply frame_report|intros _].
  destruct (settled_failure s) as [f|]; [apply carries_frame; frame_go env|].
  apply (carries_claim _ (fun claimed => if b || bool_decide (is_Some claimed) then m_ret None
    else _)). intros c. frame_go env.
Qed.

Lemma carries_next_action turn s b : carries (next_action turn s b).
Proof.
  unfold TurnLoop.next_action. destruct (settled_cancelled s); [apply carries_frame; frame_go env|].
  apply carries_bind; [apply frame_loop|intros l].
  destruct (_ && _); [by apply carries_frame, frame_recover|].
  destruct (settled_failure s) as [f|]; [|apply carries_conclude].
  destruct (schedule f (retry_of l)) as [g st].
  apply carries_bind; [frame_go env|intros _].
  destruct g as [g|]; [by apply carries_frame, frame_retry_turn|apply carries_conclude].
Qed.

Lemma carries_answer_turn turn : carries (answer_turn turn).
Proof.
  apply carries_bind; [by apply frame_model_request|intros [request gate]].
  apply carries_bind; [by apply frame_stream_assistant|intros [id attempted]].
  apply carries_bind; [by apply frame_settle_assistant|intros [m s]].
  apply carries_bind; [by apply frame_publish|intros _].
  apply carries_bind; [by apply frame_run_tools|intros [s' batch]].
  apply carries_bind; [by apply frame_record_turn|intros _]. apply carries_next_action.
Qed.

(** One Turn, from the claim it starts with to the one it leaves. *)
Lemma moves_run_turn w r w' :
  run_turn w = (r, w') -> pending_ok (session w) (next_queued_item (loop w)) ->
  moves w (next_queued_item (loop w)) w' (next_queued_item (loop w')).
Proof.
  intros Hr Hp. unfold TurnLoop.run_turn in Hr. unfold m_bind at 1, read_loop in Hr.
  set (item := next_queued_item (loop w)) in *.
  unfold m_bind at 1, modify_loop, modify_world in Hr.
  set (w0 := set_loop _ w) in Hr.
  cut (moves w0 item w' (next_queued_item (loop w'))).
  { intros Hm. eapply moves_trans; [|exact Hm]. by apply moves_same. }
  change (session w) with (session w0) in Hp.
  unfold m_bind at 1 in Hr. destruct (holding item _ w0) as [x w1] eqn:Hh.
  assert (RunFrames.frame reserved false (let! _ := match max_turns config with
                           | Some most => fail_if (Nat.leb most (length (turns (loop w))))
                                            (TurnLimit (Z.of_nat most))
                           | None => m_ret tt
                           end in begin_turn run_id item)) as Hf by frame_go env.
  destruct (moves_holding _ _ _ _ _ Hf Hh Hp) as [[Hn _] Hm].
  destruct x as [turn|e].
  - unfold m_bind at 1 in Hr.
    destruct (insert_user_message run_id insertion (context_turn_id turn) item w1) as [y w2] eqn:Hi.
    destruct (moves_insert _ _ _ _ _ Hi (moves_pending _ _ _ _ _ Hm)) as [[Hn2 _] Hm2].
    assert (next_queued_item (loop w2) = None) as Hnone by (rewrite Hn2, Hn; done).
    destruct y as [u|e].
    + pose proof (carries_answer_turn turn w2 r w' Hr (moves_pending _ _ _ _ _ Hm2) Hnone) as Hm3.
      eapply moves_trans; [exact Hm|]. by eapply moves_trans.
    + injection Hr as _ <-. rewrite Hnone. by eapply moves_trans.
  - injection Hr as _ <-. by rewrite Hn.
Qed.

Lemma moves_turn_loop fuel w r w' :
  turn_loop fuel w = (r, w') -> pending_ok (session w) (next_queued_item (loop w)) ->
  moves w (next_queued_item (loop w)) w' (next_queued_item (loop w')).
Proof.
  revert w r w'. induction fuel as [|fuel IH]; intros w r w' Hr Hp; cbn [TurnLoop.turn_loop] in Hr.
  - injection Hr as _ <-. by apply moves_same.
  - unfold m_bind in Hr. destruct (run_turn w) as [x w1] eqn:Ht.
    pose proof (moves_run_turn _ _ _ Ht Hp) as Hm.
    destruct x as [[done|]|e]; [by injection Hr as _ <-| |by injection Hr as _ <-].
    eapply moves_trans; [exact Hm|]. eapply IH; [exact Hr|apply (moves_pending _ _ _ _ _ Hm)].
Qed.

Lemma moves_execute fuel w r w' :
  execute fuel w = (r, w') -> pending_ok (session w) None -> next_queued_item (loop w) = None ->
  moves w None w' (next_queued_item (loop w')).
Proof.
  intros Hr Hp Hn. unfold TurnLoop.execute, m_bind in Hr.
  destruct (TurnLoop.start_agent _ _ _ _ _ _ w) as [[u|e] w1] eqn:Hs;
    pose proof (frame_start_agent reserved env true extension_json SUMMARIZATION_SYSTEM_PROMPT
      SUMMARIZATION_PROMPT UPDATE_SUMMARIZATION_PROMPT TURN_PREFIX_SUMMARIZATION_PROMPT config
      None w _ w1 Hs Hp) as (Hm & Hn1 & _).
  - eapply moves_trans; [exact Hm|]. rewrite Hn in Hn1.
    pose proof (moves_turn_loop fuel w1 r w' Hr) as Hl. rewrite Hn1 in Hl. apply Hl, Hm.
  - injection Hr as _ <-. by rewrite Hn1, Hn.
Qed.

(** ** Its end *)

Lemma frame_settle_submissions a : frame (on_session (settle_submissions (R := R) (S := S) a)).
Proof.
  apply frame_waiters. intros s.
  assert (forall n b (q : QueueSession R S), transcript (settle_waiter n b q) = transcript q /\
    queue (settle_waiter n b q) = queue q) as Hone by done.
  assert (forall l b (q : QueueSession R S),
    transcript (foldl (fun q n => settle_waiter n b q) q l) = transcript q /\
    queue (foldl (fun q n => settle_waiter n b q) q l) = queue q) as Hfold.
  { induction l as [|n l IH]; intros b q; [done|]. cbn [foldl].
    destruct (IH b (settle_waiter n b q)) as [-> ->]. apply Hone. }
  exact (Hfold (submissions s) (AnswerResolved a) {| transcript := transcript s; queue := queue s;
    waiters := waiters s; submissions := []; cancelled := cancelled s |}).
Qed.

Lemma frame_settle_run turn outcome messages auto u :
  frame (settle_run extension_json SUMMARIZATION_SYSTEM_PROMPT SUMMARIZATION_PROMPT
    UPDATE_SUMMARIZATION_PROMPT TURN_PREFIX_SUMMARIZATION_PROMPT config run_id turn outcome
    messages auto u).
Proof.
  unfold settle_run. apply frame_bind.
  { unfold settlement_payload. destruct outcome; apply frame_record; try done;
      by repeat constructor; simplify_map_eq. }
  frame_go env. apply frame_settle_submissions.
Qed.

#[local] Hint Resolve frame_settle_submissions frame_settle_run : frame.

Lemma frame_settle_retained turn c :
  frame (settle_retained extension_json SUMMARIZATION_SYSTEM_PROMPT SUMMARIZATION_PROMPT
    UPDATE_SUMMARIZATION_PROMPT TURN_PREFIX_SUMMARIZATION_PROMPT config run_id turn c).
Proof.
  unfold settle_retained, message_now. frame_go env.
Qed.

#[local] Hint Resolve frame_settle_retained : frame.

Lemma fresh_ids_length kind n (w w' : W) l :
  fresh_ids kind n w = (Ok l, w') -> length l = n /\ session w' = session w /\ loop w' = loop w.
Proof.
  revert w w' l. induction n as [|n IH]; intros w w' l; cbn [fresh_ids]; [by intros [= <- <-]|].
  unfold m_bind at 1. unfold fresh_id, m_bind, ask, m_lift, m_ret.
  destruct (map_err _ _) as [id|e]; [|done].
  destruct (fresh_ids kind n _) as [[rest|e] w1] eqn:Hf; [|done]. intros [= <- <-].
  destruct (IH _ _ _ Hf) as (Hl & Hs & Hlp). cbn. by rewrite Hl, Hs, Hlp.
Qed.

Lemma frame_fresh_ids kind n : frame (fresh_ids kind n).
Proof. induction n as [|n IH]; cbn [fresh_ids]; frame_go env. Qed.

(** The withdrawal holds no claim. *)
Lemma moves_withdraw w r w' :
  withdraw w = (r, w') -> pending_ok (session w) None ->
  moves w None w' None /\ next_queued_item (loop w') = next_queued_item (loop w).
Proof.
  intros Hr Hp. unfold withdraw in Hr. unfold m_bind at 1 in Hr.
  destruct (ask_error snapshot_error w) as [x w1] eqn:Ha.
  destruct (frame_ask_error reserved true snapshot_error None w x w1 Ha Hp) as (Hm & Hn & _).
  destruct x as [u|e]; [|by injection Hr as _ <-].
  unfold m_bind at 1 in Hr. destruct (on_session close_queue w1) as [x w2] eqn:Hc.
  destruct (frame_open reserved true (fun _ => false) None w1 x w2 Hc (moves_pending _ _ _ _ _ Hm))
    as (Hm2 & Hn2 & _).
  destruct x as [u2|e]; [|done].
  unfold m_bind at 1, m_get in Hr. unfold m_bind in Hr.
  destruct (fresh_ids "record" _ w2) as [x w3] eqn:Hf.
  destruct (frame_fresh_ids "record" _ None w2 x w3 Hf (moves_pending _ _ _ _ _ Hm2)) as (Hm3 & Hn3 & _).
  destruct x as [ids|e].
  2: { injection Hr as _ <-. split; [|congruence]. eapply moves_trans; [exact Hm|].
       by eapply moves_trans. }
  destruct (fresh_ids_length _ _ _ _ _ Hf) as (Hlen & Hs & _).
  unfold on_session in Hr. destruct (withdraw_pending _ ids (session w3)) as [y s] eqn:Hw.
  injection Hr as _ <-. cbn [loop set_session]. split; [|congruence].
  eapply moves_trans; [exact Hm|]. eapply moves_trans; [exact Hm2|].
  eapply moves_trans; [exact Hm3|].
  destruct (moves_pending _ _ _ _ _ Hm3) as [Hwf Hall].
  apply moves_silent; [|by split| |done]; cbn; [|split].
  - apply rtc_once. eapply step_withdraw; [|exact Hw]. etrans; [exact Hlen|by rewrite Hs].
  - by eapply withdraw_pending_subset.
  - intros i Hi. apply Hall. by eapply (withdraw_pending_subset _ _ _ _ _ Hw Hwf).
Qed.

(** What holds no claim and leaves the loop's item. *)
Definition quiet {A} (m : K A) : Prop := forall w r w',
  m w = (r, w') -> pending_ok (session w) None ->
  moves w None w' None /\ next_queued_item (loop w') = next_queued_item (loop w).

Lemma quiet_frame {A} (m : K A) : frame m -> quiet m.
Proof. intros Hm w r w' Hr Hp. by destruct (Hm _ _ _ _ Hr Hp) as (? & ? & _). Qed.
Lemma quiet_bind {A B} (m : K A) (k : A -> K B) :
  quiet m -> (forall a, quiet (k a)) -> quiet (m_bind m k).
Proof.
  intros Hm Hk w r w' Hr Hp. unfold m_bind in Hr. destruct (m w) as [[a|e] w1] eqn:Hmw.
  - destruct (Hm w _ w1 Hmw Hp) as [Hs Hn]. destruct (Hk a w1 r w' Hr (moves_pending _ _ _ _ _ Hs)) as [Hs' Hn'].
    split; [by eapply moves_trans|by rewrite Hn', Hn].
  - injection Hr as _ <-. by eapply Hm.
Qed.

(** Settlement first gives back what the loop still holds. *)
Lemma moves_settle_scope execution first_turn w r w' :
  settle_scope execution first_turn w = (r, w') ->
  pending_ok (session w) (next_queued_item (loop w)) ->
  moves w (next_queued_item (loop w)) w' None.
Proof.
  intros Hr Hp. unfold RunSettlement.settle_scope in Hr. unfold m_bind at 1, read_loop in Hr.
  set (item := next_queued_item (loop w)) in *.
  unfold m_bind at 1, modify_world in Hr. set (w1 := drop_queued item w) in Hr.
  assert (moves w item w1 None) as Hm1.
  { destruct item as [i|]; [by apply moves_drop|by apply moves_same]. }
  unfold m_bind at 1, modify_loop, modify_world in Hr. set (w2 := set_loop _ w1) in Hr.
  assert (moves w1 None w2 None) as Hm2 by (apply moves_same; [done|done|apply Hm1]).
  match type of Hr with ?m w2 = _ => assert (quiet m) as Hall end.
  { apply quiet_bind; [apply quiet_frame, (frame_open reserved true (fun _ => false))|intros _].
    apply quiet_bind.
    { destruct (succeeded execution); [apply quiet_frame, frame_ret|].
      intros v x v'. apply moves_withdraw. }
    intros _. apply quiet_frame. destruct execution as [done|e];
      frame_go env; first [apply frame_settle_run|apply frame_settle_retained|apply frame_settle_submissions|idtac]. }
  eapply moves_trans; [exact Hm1|]. eapply moves_trans; [exact Hm2|].
  by apply (Hall w2 r w' Hr), Hm2.
Qed.

(** ** The whole of it *)

Lemma moves_release w : pending_ok (session w) None -> moves w None (release_run run_id w) None.
Proof.
  intros Hp. unfold release_run.
  set (s1 := (close_queue (session w)).2).
  destruct (frame_open reserved true (fun _ => false) None w _ (set_session s1 w) eq_refl Hp) as [Hm _].
  set (s2 := (settle_submissions unsettled_answer s1).2).
  assert (moves (set_session s1 w) None (set_session s2 w) None) as Hm2.
  { apply (frame_settle_submissions unsettled_answer None (set_session s1 w) _
             (set_session s2 w) eq_refl (moves_pending _ _ _ _ _ Hm)). }
  eapply moves_trans; [exact Hm|]. eapply moves_trans; [exact Hm2|].
  apply moves_same; [| |apply Hm2]; cbn; by repeat case_match.
Qed.

(** With no claim before, and none after unless the fuel ran out. *)
Definition ends {A} (m : K (option A)) : Prop := forall w r w',
  m w = (r, w') -> r <> Ok None -> pending_ok (session w) None -> moves w None w' None.
Definition starts {A} (m : K (option A)) : Prop := forall w r w',
  m w = (r, w') -> r <> Ok None -> pending_ok (session w) None ->
  next_queued_item (loop w) = None -> moves w None w' None.

Lemma ends_bind {A B} (m : K A) (k : A -> K (option B)) :
  quiet m -> (forall a, ends (k a)) -> ends (m_bind m k).
Proof.
  intros Hm Hk w r w' Hr Hf Hp. unfold m_bind in Hr. destruct (m w) as [[a|e] w1] eqn:Hmw.
  - destruct (Hm w _ w1 Hmw Hp) as [Hs _]. eapply moves_trans; [exact Hs|]. by eapply Hk, Hs.
  - injection Hr as _ <-. by eapply Hm.
Qed.
Lemma starts_bind {A B} (m : K A) (k : A -> K (option B)) :
  quiet m -> (forall a, starts (k a)) -> starts (m_bind m k).
Proof.
  intros Hm Hk w r w' Hr Hf Hp Hn. unfold m_bind in Hr. destruct (m w) as [[a|e] w1] eqn:Hmw.
  - destruct (Hm w _ w1 Hmw Hp) as [Hs Hn1]. eapply moves_trans; [exact Hs|].
    eapply Hk; [exact Hr|exact Hf|apply Hs|congruence].
  - injection Hr as _ <-. by eapply Hm.
Qed.

(** A run takes the session by queue steps, and ends with no claim. *)
Lemma moves_run_agent fuel first_turn c : ends (run_agent fuel first_turn c).
Proof.
  intros w0 x v Hv Hf Hp. unfold RunSettlement.run_agent, m_bind at 1, modify_world in Hv.
  eapply moves_trans; [by apply (moves_same reserved w0 None (set_loop (loop_start config insertion c
    first_turn) w0))|].
  revert Hv Hf. cut (starts (A := RunResult R * option SubmissionAnswer) (
    let! _ := record_operation run_id OperationStarted {[ "operation" := JString "agent" ]} in
    let! _ := on_session open_queue in
    let! execution := attempt (execute fuel) in
    match execution with
    | Ok None => m_ret None
    | Ok (Some done) => let! r := settle_scope (Ok done) first_turn in m_ret (Some r)
    | Err error => let! r := settle_scope (Err error) first_turn in m_ret (Some r)
    end)).
  { intros Hs Hv Hf. by apply (Hs _ _ _ Hv Hf). }
  clear w0 x v Hp.
  apply starts_bind; [apply quiet_frame; frame_go env|intros _].
  apply starts_bind; [apply quiet_frame, (frame_open reserved true (fun s => negb (cancelled s)))|intros _].
  intros u y u' Hu Hf Hpu Hn. unfold m_bind at 1, attempt in Hu.
  destruct (execute fuel u) as [z u1] eqn:Hx.
  pose proof (moves_execute _ _ _ _ Hx Hpu Hn) as Hm. eapply moves_trans; [exact Hm|].
  assert (forall z, (let! r := settle_scope z first_turn in m_ret (Some r)) u1 = (y, u') ->
    moves u1 (next_queued_item (loop u1)) u' None) as Hend.
  { intros z' Hz. unfold m_bind in Hz. destruct (settle_scope _ _ u1) as [q u2] eqn:Hs.
    pose proof (moves_settle_scope _ _ _ _ _ Hs (moves_pending _ _ _ _ _ Hm)) as Hm2.
    destruct q; by injection Hz as _ <-. }
  destruct z as [[done|]|e]; [by apply Hend in Hu| |by apply Hend in Hu].
  by injection Hu as <- _.
Qed.

End Moves.

(** Both loops of a run end: the summary requests within the retry budget, and
    the Turns within the configured limit. *)

Open Scope string_scope.
Open Scope rust_scope.

Section Ends.
Context {R : RigTypes} {CC : ContentCodec R} {U : UsageCounters R} `{JsonText}.
Context {S : Type} `{SessionStoreLaws S} {E : RunEnv R S} {TE : ToolEnv}.
Variable extension_json : ExtensionMessage -> string.
Variables SUMMARIZATION_SYSTEM_PROMPT SUMMARIZATION_PROMPT : string.
Variables UPDATE_SUMMARIZATION_PROMPT TURN_PREFIX_SUMMARIZATION_PROMPT : string.
Variable config : KernelConfig.
Variable run_id : RunId.
Variable insertion : option nat.
Abbreviation W := (World R S).
Abbreviation K := (M (World R S) KernelError).

(** ** Summary requests *)

Lemma schedule_counts (f : ModelFailure R) s g s' :
  schedule f s = (Some g, s') ->
  (attempts s < max_retries (retry_policy s))%Z /\
  attempts s' = (attempts s + 1)%Z /\ retry_policy s' = retry_policy s.
Proof.
  unfold schedule, u32_checked_add. destruct (_ || _) eqn:Hc; [done|].
  apply orb_false_iff in Hc as [_ Hlt%Z.leb_gt].
  destruct (attempts s + 1 <=? u32_max)%Z; [|done]. destruct (retry_delay _ _ _ _); [|done].
  by intros [= _ <-].
Qed.

(** Each round but the last spends one retry. *)
Lemma summary_loop_total fuel request state (w : W) :
  (max_retries (retry_policy state) - attempts state < Z.of_nat fuel)%Z -> 0 < fuel ->
  (summary_loop fuel request state w).1 <> Ok None.
Proof.
  revert state w. induction fuel as [|fuel IH]; intros state w Hfuel Hpos; [lia|].
  cbn [summary_loop]. unfold m_bind. destruct (open_stream request w) as [[stream|e] w1]; [|done].
  destruct (result_bind _ _) as [generated|error]; [done|].
  destruct (retry_failure error) as [failure|]; cbn; [|done].
  destruct (schedule failure state) as [[g|] state'] eqn:Hs; cbn; [|done].
  destruct (schedule_counts _ _ _ _ Hs) as (Hlt & Ha & Hp).
  destruct (_ && _); [done|].
  apply IH; rewrite ?Ha, ?Hp; lia.
Qed.

(** The fuel a summary is given is never what stops it. *)
Lemma generate_total turn at_ms messages protocol (w : W) :
  (generate_compaction_summary SUMMARIZATION_SYSTEM_PROMPT SUMMARIZATION_PROMPT
     UPDATE_SUMMARIZATION_PROMPT TURN_PREFIX_SUMMARIZATION_PROMPT config turn at_ms messages
     protocol w).1 <> Ok None.
Proof.
  assert (forall request (v : W), (summary_loop (summary_fuel config) request
    (retry_state_new (kernel_retry_policy config) (provider_retry_delay_limit_ms config)) v).1
    <> Ok None) as Hloop.
  { intros request v. apply summary_loop_total; cbn [retry_policy attempts retry_state_new];
      unfold summary_fuel; lia. }
  assert (forall A (m : K A) (k : A -> K (option GeneratedSummary)),
    (forall a v, (k a v).1 <> Ok None) -> forall v, (m_bind m k v).1 <> Ok None) as Hbind.
  { intros A m k Hk v. unfold m_bind. destruct (m v) as [[a|e] v']; [apply Hk|done]. }
  unfold generate_compaction_summary.
  destruct protocol; repeat first [apply Hloop | apply Hbind; intros ? ?].
Qed.

(** ** Turns *)

Variable reserved : EntryId -> Prop.
Hypothesis env : env_ok reserved.
Abbreviation frame := (RunFrames.frame reserved false).
Abbreviation pending_ok := (RunFrames.pending_ok reserved).

Abbreviation next_action := (TurnLoop.next_action extension_json SUMMARIZATION_SYSTEM_PROMPT
  SUMMARIZATION_PROMPT UPDATE_SUMMARIZATION_PROMPT TURN_PREFIX_SUMMARIZATION_PROMPT config run_id).
Abbreviation answer_turn := (TurnLoop.answer_turn extension_json SUMMARIZATION_SYSTEM_PROMPT
  SUMMARIZATION_PROMPT UPDATE_SUMMARIZATION_PROMPT TURN_PREFIX_SUMMARIZATION_PROMPT config run_id).
Abbreviation run_turn := (TurnLoop.run_turn extension_json SUMMARIZATION_SYSTEM_PROMPT
  SUMMARIZATION_PROMPT UPDATE_SUMMARIZATION_PROMPT TURN_PREFIX_SUMMARIZATION_PROMPT config run_id
  insertion).
Abbreviation turn_loop := (TurnLoop.turn_loop extension_json SUMMARIZATION_SYSTEM_PROMPT
  SUMMARIZATION_PROMPT UPDATE_SUMMARIZATION_PROMPT TURN_PREFIX_SUMMARIZATION_PROMPT config run_id
  insertion).

(** A phase after which the loop goes on has recorded [n] more Turns. *)
Definition goes_on (n : nat) {A} (m : K (option A)) : Prop := forall w w',
  m w = (Ok None, w') -> pending_ok (session w) None ->
  length (turns (loop w')) = n + length (turns (loop w)).

Lemma goes_frame {A} (m : K (option A)) : frame m -> goes_on 0 m.
Proof. intros Hm w w' Hr Hp. destruct (Hm _ _ _ _ Hr Hp) as (_ & _ & Ht). by rewrite Ht. Qed.
Lemma goes_some {A B} (m : K A) (f : A -> B) n : goes_on n (let! a := m in m_ret (Some (f a))).
Proof. intros w w' Hr. unfold m_bind in Hr. by destruct (m w) as [[a|e] w1]. Qed.
Lemma goes_bind {A B} (m : K A) (k : A -> K (option B)) n :
  frame m -> (forall a, goes_on n (k a)) -> goes_on n (m_bind m k).
Proof.
  intros Hm Hk w w' Hr Hp. unfold m_bind in Hr. destruct (m w) as [[a|e] w1] eqn:Hmw; [|done].
  destruct (Hm _ _ _ _ Hmw Hp) as (Hs & _ & Ht).
  rewrite (Hk a _ _ Hr (moves_pending _ _ _ _ _ Hs)). by rewrite Ht.
Qed.

Ltac goes := repeat first
  [ progress intros | apply goes_some | apply goes_bind; [solve [frame_go env]|]
  | match goal with |- goes_on _ (match ?x with _ => _ end) => destruct x end
  | apply goes_frame; solve [frame_go env] ].

Lemma goes_retry turn f g : goes_on 0 (retry_turn run_id turn f g).
Proof. unfold retry_turn. goes. Qed.

Lemma goes_conclude turn s b : goes_on 0 (conclude extension_json config run_id turn s b).
Proof.
  unfold conclude. goes.
  intros w w' Hr Hp. unfold m_bind at 1, on_session in Hr.
  destruct (claim_next_or_close _ (session w)) as [[c|e] q]; [|done].
  unfold m_bind at 1, modify_loop, modify_world in Hr. destruct (b || _); [by injection Hr as <-|].
  unfold m_bind at 1, read_history in Hr. unfold m_bind in Hr. by destruct (finish _ _ _ _) as [[d|e] v].
Qed.

Lemma goes_next_action turn s b : goes_on 0 (next_action turn s b).
Proof.
  unfold TurnLoop.next_action. destruct (settled_cancelled s); [goes|].
  apply goes_bind; [frame_go env|intros l].
  destruct (_ && _); [apply goes_frame; frame_go env|].
  destruct (settled_failure s) as [f|]; [|apply goes_conclude].
  destruct (schedule f (retry_of l)) as [g st].
  apply goes_bind; [frame_go env|intros _]. destruct g as [g|]; [apply goes_retry|apply goes_conclude].
Qed.

(** A phase that records [n] Turns when it succeeds. *)
Definition records_turns (n : nat) {A} (m : K A) : Prop := forall w a w',
  m w = (Ok a, w') -> pending_ok (session w) None ->
  length (turns (loop w')) = n + length (turns (loop w)).

Lemma records_bind {A B} (m : K A) (k : A -> K B) n :
  frame m -> (forall a, records_turns n (k a)) -> records_turns n (m_bind m k).
Proof.
  intros Hm Hk w b w' Hr Hp. unfold m_bind in Hr. destruct (m w) as [[a|e] w1] eqn:Hmw; [|done].
  destruct (Hm _ _ _ _ Hmw Hp) as (Hs & _ & Ht).
  rewrite (Hk a _ _ _ Hr (moves_pending _ _ _ _ _ Hs)). by rewrite Ht.
Qed.

Lemma record_turn_records turn s : records_turns 1 (record_turn run_id turn s).
Proof.
  unfold record_turn. repeat (apply records_bind; [solve [frame_go env]|intros ?]).
  intros w u w' [= _ <-] _. cbn. rewrite length_app. cbn. lia.
Qed.

Lemma goes_answer_turn turn : goes_on 1 (answer_turn turn).
Proof.
  unfold TurnLoop.answer_turn. goes.
  intros w w' Hr Hp. unfold m_bind in Hr.
  destruct (record_turn _ _ _ w) as [[u|e] w1] eqn:Hw; [|done].
  pose proof (record_turn_records _ _ _ _ _ Hw Hp) as Hn.
  destruct (frame_record_turn reserved env true run_id _ _ eq_refl _ _ _ _ Hw Hp) as (Hs & _).
  by rewrite (goes_next_action _ _ _ _ _ Hr (moves_pending _ _ _ _ _ Hs)).
Qed.

(** A Turn after which the loop goes on was within the limit, and is recorded. *)
Lemma run_turn_counts w w' :
  run_turn w = (Ok None, w') -> pending_ok (session w) (next_queued_item (loop w)) ->
  (forall most, max_turns config = Some most -> length (turns (loop w)) < most) /\
  length (turns (loop w')) = Datatypes.S (length (turns (loop w))).
Proof.
  intros Hr Hp. unfold TurnLoop.run_turn in Hr. unfold m_bind at 1, read_loop in Hr.
  set (item := next_queued_item (loop w)) in *.
  unfold m_bind at 1, modify_loop, modify_world in Hr.
  set (w0 := set_loop _ w) in Hr. change (session w) with (session w0) in Hp.
  unfold m_bind at 1 in Hr. destruct (holding item _ w0) as [[turn|e] w1] eqn:Hh; [|done].
  assert (turns (loop w1) = turns (loop w) /\ pending_ok (session w1) item /\
    (forall most, max_turns config = Some most -> length (turns (loop w)) < most))
    as (Ht1 & Hp1 & Hmost).
  { unfold holding in Hh. 
    match type of Hh with (let (_, _) := ?m w0 in _) = _ =>
      assert (frame m) as Hf by frame_go env; destruct (m w0) as [[a|e] v] eqn:Hv; [|done] end.
    destruct (Hf _ _ _ _ Hv Hp) as (Hs & _ & Ht). injection Hh as -> ->. split_and!.
    - by rewrite Ht.
    - apply (moves_pending _ _ _ _ _ Hs).
    - intros most Hm. rewrite Hm in Hv. unfold m_bind at 1, fail_if in Hv.
      destruct (Nat.leb most _) eqn:Hle; [done|]. by apply Nat.leb_gt in Hle. }
  split; [exact Hmost|].
  unfold m_bind in Hr.
  destruct (insert_user_message run_id insertion (context_turn_id turn) item w1) as [[u|e] w2]
    eqn:Hi; [|done].
  destruct (moves_insert reserved env run_id insertion _ _ _ _ _ Hi Hp1) as [[_ Ht2] Hm2].
  rewrite (goes_answer_turn turn _ _ Hr (moves_pending _ _ _ _ _ Hm2)).
  by rewrite Ht2, Ht1.
Qed.

(** With a limit on Turns, one round more than the limit always ends the loop. *)
Lemma turn_loop_total fuel most w :
  max_turns config = Some most -> most < fuel + length (turns (loop w)) ->
  length (turns (loop w)) <= most -> pending_ok (session w) (next_queued_item (loop w)) ->
  (turn_loop fuel w).1 <> Ok None.
Proof.
  intros Hmost. revert w. induction fuel as [|fuel IH]; intros w Hfuel Hlen Hp; [lia|].
  cbn [TurnLoop.turn_loop]. unfold m_bind. destruct (run_turn w) as [[[d|]|e] w1] eqn:Hr; [done| |done].
  destruct (run_turn_counts _ _ Hr Hp) as [Hlt Hn]. specialize (Hlt _ Hmost).
  apply IH; [lia|lia|]. 
  exact (moves_pending _ _ _ _ _ (moves_run_turn reserved env extension_json
    SUMMARIZATION_SYSTEM_PROMPT SUMMARIZATION_PROMPT UPDATE_SUMMARIZATION_PROMPT
    TURN_PREFIX_SUMMARIZATION_PROMPT config run_id insertion _ _ _ Hr Hp)).
Qed.

Abbreviation execute := (TurnLoop.execute extension_json SUMMARIZATION_SYSTEM_PROMPT
  SUMMARIZATION_PROMPT UPDATE_SUMMARIZATION_PROMPT TURN_PREFIX_SUMMARIZATION_PROMPT config run_id
  insertion).
Abbreviation run_agent := (RunSettlement.run_agent extension_json SUMMARIZATION_SYSTEM_PROMPT
  SUMMARIZATION_PROMPT UPDATE_SUMMARIZATION_PROMPT TURN_PREFIX_SUMMARIZATION_PROMPT config run_id
  insertion).

(** Started on an empty loop, it does not run out of fuel. *)
Definition never_out {A} (m : K (option A)) : Prop := forall w,
  pending_ok (session w) None -> next_queued_item (loop w) = None -> turns (loop w) = [] ->
  (m w).1 <> Ok None.

Lemma never_bind {A B} (m : K A) (k : A -> K (option B)) :
  frame m -> (forall a, never_out (k a)) -> never_out (m_bind m k).
Proof.
  intros Hm Hk w Hp Hn Ht. unfold m_bind. destruct (m w) as [[a|e] w1] eqn:Hmw; [|done].
  destruct (Hm _ _ _ _ Hmw Hp) as (Hs & Hn1 & Ht1).
  apply Hk; [apply (moves_pending _ _ _ _ _ Hs)|congruence|by rewrite Ht1].
Qed.

Lemma never_execute fuel most :
  max_turns config = Some most -> most < fuel -> never_out (execute fuel).
Proof.
  intros Hmost Hfuel. apply never_bind; [frame_go env|]. intros _ w Hp Hn Ht.
  eapply turn_loop_total; [exact Hmost|rewrite Ht; cbn; lia..|by rewrite Hn].
Qed.

Lemma run_agent_total fuel most first_turn c (w : W) :
  max_turns config = Some most -> most < fuel -> pending_ok (session w) None ->
  (run_agent fuel first_turn c w).1 <> Ok None.
Proof.
  intros Hmost Hfuel Hpv. unfold RunSettlement.run_agent.
  unfold m_bind at 1, modify_world.
  match goal with |- (?m ?w1).1 <> _ => assert (never_out m) as Hn; [|by apply Hn] end.
  apply never_bind; [frame_go env|intros _].
  apply never_bind; [apply (frame_open reserved false (fun s => negb (cancelled s)))|intros _].
  intros u Hpu Hnu Htu. unfold m_bind at 1, attempt.
  pose proof (never_execute fuel most Hmost Hfuel u Hpu Hnu Htu) as Hx.
  destruct (execute fuel u) as [[[d|]|e] u1]; cbn in Hx |- *; [|done|];
    unfold m_bind; by destruct (settle_scope _ _ _ _ _ _ _ _ _ u1) as [[r|e'] u2].
Qed.

End Ends.
