(* ===== verification/DirectMoves.v ===== *)
(** A whole request -- a shell command, a slash command or a run -- takes the
    session by queue steps, announces only what is stored, and ends. *)

From S2P Require Import Prelude Lines Chars Text Scalar Json Message StoreModel ToolContract.
From S2P Require Import StoreState KernelErrors Paths Template Skills PromptSession Commands.
From S2P Require Import Plan Replay Transcript Aligned Compaction Attempt Queue QueueReplay.
From S2P Require Import QueueSteps QueueKeeps RunWorld CompactionRun ToolBatch TurnLoop RunSettlement.
From S2P Require Import DirectRun RunFrames RunMoves.
Open Scope string_scope.
Open Scope rust_scope.

Section Direct.
Context {R : RigTypes} {CC : ContentCodec R} {U : UsageCounters R} {UR : UsageReport R} `{JsonText}.
Context {S : Type} `{SessionStoreLaws S} {E : RunEnv R S} {TE : ToolEnv}.
Context {Handler : Type} {DE : DirectEnv Handler} `{ReadFs}.
Variable reserved : EntryId -> Prop.
Hypothesis env : env_ok reserved.
Variable extension_json : ExtensionMessage -> string.
Variables SUMMARIZATION_SYSTEM_PROMPT SUMMARIZATION_PROMPT : string.
Variables UPDATE_SUMMARIZATION_PROMPT TURN_PREFIX_SUMMARIZATION_PROMPT : string.
Variable config : KernelConfig.
Variable insertion : option nat.
Variable cwd : string.
Variable quoted_names : list string -> string.
Variable registry : CommandRegistry Handler.
Variable catalog : option SkillCatalog.
Variable prompts : PromptSession.
Variable admitted : bool.
Abbreviation W := (World R S).
Abbreviation K := (M (World R S) KernelError).
Abbreviation frame := (RunFrames.frame reserved true).
Abbreviation pending_ok := (RunFrames.pending_ok reserved).
Abbreviation moves := (RunFrames.moves reserved).

(** ** Phases *)

Lemma frame_publish_insertion n id : frame (publish_insertion n id).
Proof. unfold publish_insertion. frame_go env. by apply frame_waiters. Qed.
Lemma frame_install_token : frame install_token.
Proof. unfold install_token. frame_go env. by apply frame_waiters. Qed.
Lemma frame_fail_when b e : frame (fail_when b e).
Proof. unfold fail_when. frame_go env. Qed.
Hint Resolve frame_publish_insertion frame_install_token frame_fail_when : frame.
Lemma frame_acquire : frame acquire_for_prompt.
Proof. unfold acquire_for_prompt. frame_go env. Qed.
Hint Resolve frame_acquire : frame.

Lemma frame_output_time l : frame (output_time l).
Proof. unfold output_time. frame_go env. Qed.
Lemma frame_report_outputs run turn id l : frame (report_outputs run turn id l).
Proof. induction l as [|o l IH]; cbn [report_outputs]; frame_go env. Qed.
Hint Resolve frame_output_time frame_report_outputs : frame.

Lemma frame_user_bash_operation run turn id started input :
  frame (user_bash_operation cwd run turn id started input).
Proof. unfold user_bash_operation. frame_go env. Qed.
Hint Resolve frame_user_bash_operation : frame.

Lemma frame_persist_and_emit m : frame (persist_and_emit m).
Proof. unfold persist_and_emit. frame_go env. Qed.
Hint Resolve frame_persist_and_emit : frame.
Lemma frame_invocation x source : frame (invocation_message x source).
Proof. unfold invocation_message. frame_go env. Qed.
Lemma frame_output x output ended : frame (output_message x output ended).
Proof. unfold output_message. frame_go env. Qed.
Hint Resolve frame_invocation frame_output : frame.

Lemma frame_announced_on title turn : frame (announced_on title turn).
Proof. unfold announced_on. frame_go env. apply frame_on_lane, steps_set_name. Qed.
Hint Resolve frame_announced_on : frame.
Lemma frame_read_name : frame read_name.
Proof. apply frame_read. Qed.
Lemma frame_read_transcript : frame read_transcript.
Proof. intros c w r w' [= _ <-] Hp. by split; [apply moves_same|]. Qed.
Hint Resolve frame_read_name frame_read_transcript : frame.

Abbreviation command_outcome := (DirectRun.command_outcome extension_json SUMMARIZATION_SYSTEM_PROMPT
  SUMMARIZATION_PROMPT UPDATE_SUMMARIZATION_PROMPT TURN_PREFIX_SUMMARIZATION_PROMPT config).
Abbreviation run_command := (DirectRun.run_command extension_json SUMMARIZATION_SYSTEM_PROMPT
  SUMMARIZATION_PROMPT UPDATE_SUMMARIZATION_PROMPT TURN_PREFIX_SUMMARIZATION_PROMPT config insertion
  admitted).

Lemma frame_command_outcome x r : frame (command_outcome x r).
Proof.
  unfold DirectRun.command_outcome, execute_builtin, execute_extension. frame_go env.
Qed.
Hint Resolve frame_command_outcome : frame.

Lemma frame_settle_command x source m outcome : frame (settle_command x source m outcome).
Proof. unfold settle_command. frame_go env. Qed.
Hint Resolve frame_settle_command : frame.

Lemma frame_run_command x source r : frame (run_command x source r).
Proof. unfold DirectRun.run_command. frame_go env. Qed.
Lemma frame_refuse_busy x source : frame (refuse_busy insertion x source).
Proof. unfold refuse_busy. frame_go env. Qed.
Hint Resolve frame_run_command frame_refuse_busy : frame.

Lemma frame_slash x :
  frame (try_slash_command extension_json SUMMARIZATION_SYSTEM_PROMPT
    SUMMARIZATION_PROMPT UPDATE_SUMMARIZATION_PROMPT TURN_PREFIX_SUMMARIZATION_PROMPT config insertion
    quoted_names registry admitted x).
Proof. unfold try_slash_command. frame_go env. Qed.
Hint Resolve frame_slash : frame.

Lemma frame_direct_command session run turn started input processed :
  frame (direct_command extension_json SUMMARIZATION_SYSTEM_PROMPT
    SUMMARIZATION_PROMPT UPDATE_SUMMARIZATION_PROMPT TURN_PREFIX_SUMMARIZATION_PROMPT config insertion
    quoted_names registry admitted session run turn started input processed).
Proof. unfold direct_command. frame_go env. Qed.
Hint Resolve frame_direct_command : frame.

(** ** Requests *)

(** What an extension took is shown to a client and stored nowhere. *)
Definition told : Prop := insertion = None \/ forall n text, input_hooks n text <> InputHandled.

(** A phase that starts and ends without a claim, when its result is [fine]. *)
Definition lands {A} (fine : result A KernelError -> Prop) (m : K A) : Prop := forall w r w',
  m w = (r, w') -> fine r -> pending_ok (session w) None ->
  rtc (queue_step kernel_error_text) (session w, None) (session w', None) /\
  pending_ok (session w') None /\ (told -> announced w -> announced w').
Definition any {A} (r : result A KernelError) : Prop := True.
Definition not_out {A} (r : result (option A) KernelError) : Prop := r <> Ok None.

Lemma lands_moves {A} (fine : result A KernelError -> Prop) (m : K A) :
  (forall w r w', m w = (r, w') -> fine r -> pending_ok (session w) None -> moves w None w' None) ->
  lands fine m.
Proof. intros Hm w r w' Hr Hf Hp. destruct (Hm w r w' Hr Hf Hp). auto. Qed.
Lemma lands_frame {A} fine (m : K A) : frame m -> lands fine m.
Proof. intros Hm. apply lands_moves. intros w r w' Hr _ Hp. by destruct (Hm _ _ _ _ Hr Hp) as (? & _). Qed.
Lemma lands_bind {A B} fine (m : K A) (k : A -> K B) :
  lands any m -> (forall a, lands fine (k a)) -> lands fine (m_bind m k).
Proof.
  intros Hm Hk w r w' Hr Hf Hp. unfold m_bind in Hr. destruct (m w) as [[a|e] w1] eqn:Hmw.
  - destruct (Hm w _ w1 Hmw I Hp) as (Hs1 & Hp1 & Ha1). destruct (Hk a w1 r w' Hr Hf Hp1) as (Hs2 & Hp2 & Ha2).
    split; [by etrans|]. auto.
  - injection Hr as _ <-. by apply (Hm w _ w1 Hmw I Hp).
Qed.

Lemma lands_bind_such {A B} fine (such : A -> Prop) (m : K A) (k : A -> K B) :
  lands any m -> (forall w a w', m w = (Ok a, w') -> such a) -> (forall a, such a -> lands fine (k a)) ->
  lands fine (m_bind m k).
Proof.
  intros Hm Hs Hk w r w' Hr Hf Hp. unfold m_bind in Hr. destruct (m w) as [[a|e] w1] eqn:Hmw.
  - destruct (Hm w _ w1 Hmw I Hp) as (Hs1 & Hp1 & Ha1).
    destruct (Hk a (Hs _ _ _ Hmw) w1 r w' Hr Hf Hp1) as (Hs2 & Hp2 & Ha2). split; [by etrans|]. auto.
  - injection Hr as _ <-. by apply (Hm w _ w1 Hmw I Hp).
Qed.

Lemma lands_leased {A} run turn fine (m : K A) :
  lands fine m -> lands fine (let! _ := install_run run turn in leased run m).
Proof.
  intros Hm w r w' Hr Hf Hp. unfold m_bind, install_run in Hr.
  destruct (active_run w); [by injection Hr as _ <-|]. unfold leased in Hr.
  set (w0 := set_active _ w) in Hr. destruct (m w0) as [x v] eqn:Hv. injection Hr as <- <-.
  change (session w) with (session w0) in Hp. destruct (Hm w0 x v Hv Hf Hp) as (Hs & Hp' & Ha).
  destruct (moves_release reserved run v Hp') as [Hs' Hp'' Ha'].
  split; [by etrans|]. split; [done|]. intros Ht Hann. apply Ha', (Ha Ht). exact Hann.
Qed.

(** Emitting changes the session in the same way whatever it tells. *)
Lemma lands_untold turn e : (told -> False) -> lands any (emit turn e).
Proof.
  intros Hno w r w' Hr _ Hp.
  assert (exists w'', emit turn (SessionTitleChanged None) w = (r, w'') /\ session w'' = session w') as (w'' & Hq & Hs).
  { revert Hr. unfold emit, emit_at, now, ask, await, modify_world, ask_error, ask, m_bind. cbn.
    destruct (emit_error _); intros [= <- <-]; eexists; by split. }
  destruct (frame_emit reserved true env turn (SessionTitleChanged None) eq_refl None w r w'' Hq Hp) as ([Hst Hpe _] & _).
  rewrite Hs in Hst, Hpe. split; [done|]. split; [done|]. by intros ?%Hno.
Qed.

Lemma lands_handled turn text notice : (told -> False) -> lands any (insert_handled turn text notice).
Proof.
  intros Hno. unfold insert_handled. do 5 (apply lands_bind; [apply lands_frame; frame_go env|intros ?]).
  apply lands_bind; [by apply lands_untold|intros _]. apply lands_frame, frame_publish_insertion.
Qed.

Lemma lands_transform input processed turn : lands any (transform_input insertion input processed turn).
Proof.
  unfold transform_input. destruct input as [text|blocks]; [|apply lands_frame; frame_go env].
  apply lands_bind_such with (fun a => a = InputHandled -> exists n, input_hooks n text = InputHandled).
  - apply lands_frame. frame_go env.
  - intros w a w'. destruct processed; [by intros [= <- _]|].
    unfold await, ask, modify_world, m_bind. cbn. intros [= <- _] He. by eexists.
  - intros [|other|] Hs; [apply lands_frame; frame_go env..|].
    apply lands_bind; [|intros; apply lands_frame; frame_go env].
    destruct insertion as [n|] eqn:Hi; [|apply lands_frame; frame_go env].
    apply lands_handled. intros [Hn|Hh]; [congruence|]. destruct (Hs eq_refl) as [k Hk]. by apply (Hh k text).
Qed.

Abbreviation run_agent := (RunSettlement.run_agent extension_json SUMMARIZATION_SYSTEM_PROMPT
  SUMMARIZATION_PROMPT UPDATE_SUMMARIZATION_PROMPT TURN_PREFIX_SUMMARIZATION_PROMPT config).
Abbreviation run_until_settled := (DirectRun.run_until_settled extension_json SUMMARIZATION_SYSTEM_PROMPT
  SUMMARIZATION_PROMPT UPDATE_SUMMARIZATION_PROMPT TURN_PREFIX_SUMMARIZATION_PROMPT config insertion cwd
  quoted_names registry catalog prompts admitted).

Lemma lands_user_bash input : lands any (try_user_bash insertion cwd input).
Proof.
  unfold try_user_bash. destruct (mbind _ _) as [bash|]; [|apply lands_frame; frame_go env].
  apply lands_bind; [|intros [[run m] done]; apply lands_frame; frame_go env].
  unfold execute_user_bash. do 3 (apply lands_bind; [apply lands_frame; frame_go env|intros ?]).
  apply lands_leased, lands_frame. frame_go env.
Qed.

(** The whole request. *)
Lemma lands_request session fuel input processed :
  lands not_out (run_until_settled session fuel input processed).
Proof.
  unfold DirectRun.run_until_settled.
  apply lands_bind; [destruct processed; [apply lands_frame; frame_go env|apply lands_user_bash]|].
  intros [r|]; [apply lands_frame; frame_go env|].
  do 4 (apply lands_bind; [apply lands_frame; frame_go env|intros ?]).
  match goal with |- lands _ (match ?x with _ => _ end) => destruct x as [r|] end; [apply lands_frame; frame_go env|].
  apply lands_bind; [apply lands_frame; frame_go env|intros _]. apply lands_leased. unfold run_leased.
  apply lands_bind; [apply lands_frame; frame_go env|intros _].
  apply lands_bind; [apply lands_transform|]. intros [done|]; [|apply lands_frame; frame_go env].
  do 2 (apply lands_bind; [apply lands_frame; frame_go env|intros ?]).
  apply lands_moves. intros w r w' Hr Hf Hp.
  by eapply (moves_run_agent reserved env).
Qed.

(** ** The end of a request *)

Definition never {A} (m : K (option A)) : Prop := forall w, pending_ok (session w) None -> (m w).1 <> Ok None.

Lemma never_after {A B} (m : K A) (k : A -> K (option B)) :
  lands any m -> (forall a, never (k a)) -> never (m_bind m k).
Proof.
  intros Hm Hk w Hp. unfold m_bind. destruct (m w) as [[a|e] w1] eqn:Hmw; [|done].
  apply Hk. by destruct (Hm _ _ _ Hmw I Hp) as (_ & ? & _).
Qed.
Lemma never_some {A} (a : A) : never (m_ret (Some a)).
Proof. done. Qed.

Lemma request_total session fuel most input processed :
  max_turns config = Some most -> most < fuel -> never (run_until_settled session fuel input processed).
Proof.
  intros Hmost Hfuel. unfold DirectRun.run_until_settled.
  apply never_after; [destruct processed; [apply lands_frame; frame_go env|apply lands_user_bash]|].
  intros [r|]; [apply never_some|].
  do 4 (apply never_after; [apply lands_frame; frame_go env|intros ?]).
  match goal with |- never (match ?x with _ => _ end) => destruct x as [r|] end; [apply never_some|].
  apply never_after; [apply lands_frame; frame_go env|intros _].
  intros w Hp. unfold m_bind at 1, install_run. destruct (active_run w); [done|]. unfold leased.
  match goal with |- (let (_, _) := ?m ?w0 in _).1 <> _ =>
    assert (never m) as Hm; [|pose proof (Hm w0 Hp); by destruct (m w0)] end.
  clear w Hp. unfold run_leased. apply never_after; [apply lands_frame; frame_go env|intros _].
  apply never_after; [apply lands_transform|]. intros [done|]; [|apply never_some].
  do 2 (apply never_after; [apply lands_frame; frame_go env|intros ?]).
  intros w Hp. by eapply run_agent_total.
Qed.
End Direct.
