(* ===== verification/RunSamples.v ===== *)
(** Concrete transcripts and queue sessions over the sample store. *)

From S2P Require Import Prelude Chars Scalar Json Message StoreModel.
From S2P Require Import ToolContract StoreState StoreSession StoreInv StoreLaws.
From S2P Require Import Samples KernelErrors Plan Replay Transcript Compaction.
From S2P Require Import Attempt Queue QueueReplay QueueSteps RunWorld.
From S2P Require Import CompactionRun ToolBatch TurnLoop RunSettlement.
From S2P Require Import Paths Template Skills PromptSession Commands DirectRun.
Open Scope string_scope.

Abbreviation SampleTranscript := (SessionTranscript sample_rig JsonlSessionStore).

Definition sample_transcript (io : nat -> io_event) : SampleTranscript :=
  {| transcript_lane := main_lane; delegated := false; transcript_store := sample_store io;
     history := []; notes := notes_default; write_failed := false; sealed := false |}.

Lemma sample_store_wf io : store_wf (sample_store io).
Proof. exact new_state_wf. Qed.

Lemma sample_restored io :
  restored (sample_store io) main_lane false = Ok (sample_transcript io).
Proof. reflexivity. Qed.

(** A running session whose queue is empty and accepts messages. *)
Abbreviation SampleSession := (QueueSession sample_rig JsonlSessionStore).

Definition sample_session_over (io : nat -> io_event) : SampleSession :=
  {| transcript := sample_transcript io;
     queue := {| open := true; steering := []; follow_up := [] |};
     waiters := ∅; submissions := []; cancelled := false |}.

Definition sample_item (i : QueueId) (e : EntryId) (k : QueueKind) (w : option QueueWaiter)
  : PendingQueueItem sample_rig :=
  {| queued := {| queue_id := i; queued_kind := k; queued_message := hello;
                  submission_id := None |};
     item_entry_id := e; waiter := w |}.
Definition item_one : PendingQueueItem sample_rig :=
  sample_item (MkId "queue-1" I) (MkId "entry-1" I) FollowUp (Some (WaitInsertion 0)).
Definition item_two : PendingQueueItem sample_rig :=
  sample_item (MkId "queue-2" I) (MkId "entry-2" I) Steering None.
Definition record_one : RecordId := MkId "record-1" I.
Definition record_two : RecordId := MkId "record-2" I.
Definition run_one : RunId := MkId "run-1" I.

(** How an error reads, for the answers a waiter gets. *)
Definition sample_display (e : KernelError) : string := "error".

(** Concrete runs: a session with one message queued, and an environment over the sample store: a client's prompt, a
    queued steering message, and a model that answers with one text. *)

Open Scope string_scope.

#[export] Instance sample_counters : UsageCounters sample_rig :=
  {| input_tokens := fun _ => None; output_tokens := fun _ => None;
     usage_context_tokens := fun _ => None |}.

Definition no_extension (_ : ExtensionMessage) : string := "".

Definition sample_profile : ModelProfile :=
  {| profile_provider_id := "p"; profile_model_id := "m"; context_tokens := 100000;
     max_output_tokens := 100; request_max_tokens := 100 |}.

Definition no_native (_ : RigAssistantMessage (RigTypes := sample_rig))
  : result (list ContentBlock) (ModelError sample_rig) := Ok [].

Definition sample_no_usage : ModelUsage sample_rig := {| usage_inner := tt |}.

(** A model whose every request goes as [stream] says; no other task acts. *)
Definition sample_env (stream : result (list (StreamItem sample_rig)) (Attempt.ModelError sample_rig))
  : RunEnv sample_rig JsonlSessionStore :=
  {| clock_reading := fun n => time (Z.of_nat n);
     generated_id := fun n => "id-" +:+ u64_to_string (Z.of_nat n);
     other_tasks := fun _ s => s; emit_error := fun _ => None; snapshot_error := fun _ => None; observes_updates := true;
     active_model := fun _ => sample_profile; preflight_error := fun _ => None;
     model_stream := fun _ _ => stream; backoff_first := fun _ => true;
     system_prompt := fun _ => Ok (sample_message (MkId "system" I) 1 (System [Text "be brief"]));
     before_agent_hooks := fun _ => (None, []); message_end_hooks := fun _ m => m;
     context_hooks := fun _ r => r; compact_hooks := fun _ => (false, None);
     adapt_input := fun _ r => r; native_text := fun _ => "";
     native_blocks_of := no_native; native_matches := fun _ _ _ => Ok true;
     usage_zero := sample_no_usage; usage_add := fun _ u => u;
     model_error_text := fun _ => "model failed"; kernel_error_text := sample_display |}.

Definition one_text : list (StreamItem sample_rig) :=
  [Event (TextDelta "hi") (time 3);
   Event (Finished {| final_stop_reason := EndTurn; final_raw_stop_reason := None;
                      final_usage := sample_no_usage; final_message := None |}) (time 4);
   StreamEnd (time 5)].

#[export] Instance answering : RunEnv sample_rig JsonlSessionStore := sample_env (Ok one_text).

(** Tools that echo their name. *)
#[export] Instance sample_tools : ToolEnv :=
  {| tool_call_hooks := fun _ _ => ToolBatch.Continue; read_only_hint := fun _ => None;
     invalid_call := fun _ => None;
     run_tool := fun _ c => Ok {| result_call_id := ToolContract.call_id c;
                                  result_blocks := [Text (ToolContract.call_name c)];
                                  result_is_error := false; result_details := None;
                                  result_output := None; result_cancelled := false |};
     tool_result_hooks := fun _ _ r => r; project_output := fun _ _ r => Ok r;
     next_completion := fun n => n; plan_gate := fun _ => {| gate_mode := ModeDefault; kernel_owned := ∅ |};
     shlex_split := fun _ => None |}.

Definition sample_config : KernelConfig :=
  {| compaction_policy := policy_default; kernel_retry_policy := 
       {| retry_enabled := true; max_retries := 2; base_delay_ms := 1000;
          max_retry_delay_ms := 60000 |};
     provider_retry_delay_limit_ms := 60000; max_turns := Some 3 |}.

Definition first_turn : TurnId := MkId "turn-0" I.

(** A session before a run, nothing yet asked of the environment. *)
Definition sample_world {E : RunEnv sample_rig JsonlSessionStore} (s : SampleSession)
  : World sample_rig JsonlSessionStore :=
  {| session := s; active_run := None;
     loop := loop_start sample_config None (User [Text "hello"]) first_turn;
     events := []; asked := 0 |}.

(** An idle session without commands, skills or templates, whose hooks pass
    every input on. *)
Definition no_files : ReadFs := {|
  metadata _ := Err {| io_kind := NotFound; io_text := "" |};
  symlink_metadata _ := Err {| io_kind := NotFound; io_text := "" |};
  read_to_string _ := Err {| io_kind := NotFound; io_text := "" |};
  canonicalize _ := Err {| io_kind := NotFound; io_text := "" |};
  read_dir _ := Err {| io_kind := NotFound; io_text := "" |}
|}.
#[export] Instance sample_report : UsageReport sample_rig :=
  {| cached_input_tokens := fun _ => None; cache_creation_input_tokens := fun _ => None;
     total_tokens := fun _ => None |}.
Definition sample_bash : UserBashResult :=
  {| disposition := BashCompleted; bash_output := "out"; bash_exit_code := Some 0%Z; bash_signal := None;
     bash_cancelled := false; bash_truncated := false; bash_full_output_path := None |}.
#[export] Instance sample_direct : DirectEnv unit :=
  {| gate_wait := fun _ => None; gate_try := fun _ => Ok true; token_error := fun _ => None;
     close_was_requested := fun _ => false; command_handler := fun _ _ _ => true;
     user_bash_hooks := fun _ _ => None;
     shell := fun _ _ => {| shell_snapshots := ["out"]; shell_reported := ["out"]; shell_result := Ok sample_bash |};
     input_hooks := fun _ _ => InputContinue |}.
Definition no_prompts : PromptSession :=
  {| session_cwd := "/w"; session_custom_prompt := None; session_append_prompt := None; instructions := [];
     session_templates := empty_catalog; session_diagnostics := [] |}.

Abbreviation sample_request text fuel s :=
  (run_until_settled (H1 := no_files) no_extension "" "" "" "" sample_config None "/w" (fun _ => "")
    registry_default None no_prompts false sample_session fuel (TextRunInput text) false (sample_world s)).
Abbreviation sample_run fuel s := (sample_request "hello" fuel s).

(** ** A session with a message queued *)

Definition good : nat -> io_event := fun _ => IoDone.

(** The session after one follow-up was enqueued. *)
Definition one_queued : SampleSession :=
  (enqueue record_one run_one item_one false (sample_session_over good)).2.

Lemma one_queued_step :
  queue_step sample_display (sample_session_over good, None) (one_queued, None).
Proof.
  eapply (step_enqueue sample_display _ None record_one run_one item_one false).
  - vm_compute. by intros ?%not_elem_of_nil.
  - vm_compute. by intros ?%not_elem_of_nil.
  - vm_compute. reflexivity.
  - exact I.
  - apply surjective_pairing.
Qed.
