(* ===== verification/Projection.v ===== *)
(** The projection of a session's events for its clients: one group of updates
    for each kernel event, the journal a client that lost its connection resumes
    from, and the watcher that sends a connection its groups
    ([crates/acp/src/projection.rs], [recovery.rs], [delivery.rs],
    [HiddenToolCalls] of [plan.rs], and the watcher of [server.rs]).

    The updates are the protocol library's: [WireUpdates] is what this code asks
    of one.  The mapping of an event to its updates ([mapping.rs]) and the items
    of a durable replay are arguments.  The broadcast channel is the list of
    everything sent on it; a receiver is a position in it. *)

From S2P Require Import Prelude Lines Chars Text Scalar Json Message StoreModel ToolContract KernelErrors.
From S2P Require Import Attempt Queue RunWorld Template Skills PromptSession Commands ToolSearch ToolSelection Compaction Settings.
Open Scope string_scope.
Open Scope rust_scope.

(** ** Kernel events *)

Module Event.
Section Events.
Context {R : RigTypes} {McpElicitationRequest McpElicitationResult : Type}.

Inductive AgentEventPayload : Type :=
| QueueChanged (pending : PendingMessages)
| RunStart (run_id : RunId)
| TurnStart (run_id : RunId)
| MessageStart (message_id : MessageId)
| MessageTextDelta (message_id : MessageId) (delta : string)
| MessageReasoningDelta (message_id : MessageId) (delta : string)
| MessageEnd (message : AgentMessage R)
| UsageUpdated (usage : ModelUsage R) (context_window : Z)
| RetryScheduled (run_id : RunId) (attempt max_attempts delay_ms : Z) (error : string)
| RetryStart (run_id : RunId) (attempt max_attempts : Z)
| RetryEnd (run_id : RunId) (attempt : Z) (success : bool) (final_error : option string)
| ToolExecutionStart (run_id : RunId) (call : ToolCall) (cwd : string) (locations : list ToolLocation)
| ToolExecutionUpdate (run_id : RunId) (result : ToolResultData)
| ToolExecutionEnd (run_id : RunId) (result : ToolResultData)
| TurnEnd (turn : TurnRecord)
| RunEnd (run_id : RunId) (outcome : AgentOutcome)
| AgentSettled (run_id : RunId) (outcome : AgentOutcome) (usage : ModelUsage R)
| SlashCommandStart (run_id : RunId) (invocation : SlashCommandInvocation)
| SlashCommandEnd (run_id : RunId) (status : SlashCommandStatus) (message : option string)
| ActionRequired (request_id : string)
| ActionResolved (request_id : string)
| UserBashStarted (run_id : RunId) (message_id : MessageId) (command cwd : string) (exclude_from_context : bool)
| UserBashOutput (run_id : RunId) (message_id : MessageId) (output : string)
| UserBashFinished (run_id : RunId) (message_id : MessageId) (outcome : AgentOutcome) (result_emitted : bool)
| SessionTitleChanged (title : option string)
| SettingsChanged (settings : SessionSettings)
| AvailableCommandsChanged (commands : list SlashCommandDefinition)
| CompactionStart (run_id : RunId) (reason : CompactionReason)
| CompactionEnd (run_id : RunId) (reason : CompactionReason) (outcome : CompactionOutcome R)
| ExtensionHandlerFailed (extension_id : ExtensionId) (point message : string)
| SkillDiagnosed (diagnostic : SkillDiagnostic)
| McpElicitationRequested (request : McpElicitationRequest)
| McpElicitationResolved (request_id : string) (result : McpElicitationResult)
| PlanApprovalRequested (request : PlanApprovalRequest)
| PlanApprovalResolved (request_id : string) (decision : PlanApprovalDecision).

Record EventMetadata : Type := {
  event_turn : TurnId;
  event_time : TimestampMs;
  event_sequence : Sequence
}.
Record AgentEvent : Type := { event_metadata : EventMetadata; payload : AgentEventPayload }.
End Events.
Arguments AgentEventPayload : clear implicits.
Arguments AgentEvent : clear implicits.
End Event.

(** ** Cursors and metadata *)

Inductive OperationPhase : Type := PhaseStart | PhaseEnd.
#[export] Instance phase_eq_dec : EqDecision OperationPhase.
Proof. solve_decision. Defined.
#[export] Instance to_value_phase : ToValue OperationPhase := fun p =>
  JString (match p with PhaseStart => "start" | PhaseEnd => "end" end).

Inductive OperationKind : Type := KindRun | KindSlashCommand | KindCompactionOperation | KindUserBash.
#[export] Instance operation_kind_eq_dec : EqDecision OperationKind.
Proof. solve_decision. Defined.

Inductive ForegroundState : Type := Running | RequiresAction | Idle.
#[export] Instance foreground_eq_dec : EqDecision ForegroundState.
Proof. solve_decision. Defined.
Definition foreground_default : ForegroundState := Idle.

Record SessionCursor : Type := {
  cursor_session : SessionId;
  cursor_run : RunId;
  cursor_next : Sequence
}.

#[export] Instance to_value_cursor : ToValue SessionCursor := fun c =>
  JObject (<["sessionId" := to_value (cursor_session c)]>
          (<["runId" := to_value (cursor_run c)]> {["nextSequence" := to_value (cursor_next c)]})).
#[export] Instance from_value_cursor : FromValue SessionCursor := fun v =>
  let? m := as_object v in
  let? session := field "sessionId" m in
  let? run := field "runId" m in
  let? next := field "nextSequence" m in
  Ok {| cursor_session := session; cursor_run := run; cursor_next := next |}.

Definition RECOVERY_VERSION : Z := 1.

Record RecoveryRequest : Type := {
  recovery_version : Z;
  recovery_sessions : list SessionCursor
}.
(** A [u32] field. *)
Definition u32_field (key : string) (m : json_map) : result Z json_error :=
  match m !! key with
  | Some (JNumber (PosInt n)) => if (n <? 2 ^ 32)%Z then Ok n else Err (JsonError "u32")
  | _ => Err (JsonError "u32")
  end.
#[export] Instance from_value_recovery : FromValue RecoveryRequest := fun v =>
  let? m := as_object v in
  let? version := u32_field "version" m in
  let? sessions := default_field [] "sessions" m in
  Ok {| recovery_version := version; recovery_sessions := sessions |}.

Inductive AcpRecoveryError : Type :=
| UnsupportedCursor (type : string)
| InvalidCursor (reason : string)
| InvalidInitialize (reason : string).

(** [RecoveryRequest::from_meta] *)
Definition recovery_from_meta (meta : option json_map) (namespace : string)
  : result (option RecoveryRequest) AcpRecoveryError :=
  match meta ≫= lookup namespace with
  | None => Ok None
  | Some product =>
      match json_get "sessionRecovery" product with
      | None => Ok None
      | Some recovery => map_err (fun e : json_error => let '(JsonError what) := e in InvalidInitialize what) (result_map Some (from_value recovery))
      end
  end.

(** The replay a client asks for, as the protocol library parsed it. *)
Inductive ReplayFrom : Type :=
| FromStart
| FromOther (type : string) (fields : json_map)
| FromUnknown.

Definition RECOVERY_CURSOR_TYPE : string := "_clawcode/event".

Record EventCursor : Type := { replay_run : RunId; replay_sequence : Sequence }.
Inductive AcpReplayRequest : Type :=
| ReplayNone
| ReplayStart
| ReplayEvent (cursor : EventCursor).

(** [TryFrom<Option<ReplayFrom>> for AcpReplayRequest] *)
Definition replay_request (from : option ReplayFrom) : result AcpReplayRequest AcpRecoveryError :=
  match from with
  | None => Ok ReplayNone
  | Some FromStart => Ok ReplayStart
  | Some (FromOther type fields) =>
      if negb (String.eqb type RECOVERY_CURSOR_TYPE) then Err (UnsupportedCursor type)
      else
        let? run := ok_or (fields !! "runId") (InvalidCursor "missing runId") in
        let? sequence := ok_or (fields !! "sequence") (InvalidCursor "missing sequence") in
        let? run := map_err (fun _ => InvalidCursor "invalid runId") (from_value run) in
        let? sequence := map_err (fun _ => InvalidCursor "invalid sequence") (from_value sequence) in
        Ok (ReplayEvent {| replay_run := run; replay_sequence := sequence |})
  | Some FromUnknown => Err (UnsupportedCursor "unknown")
  end.

Inductive RecoveryMode : Type := Watch | Resume.
#[export] Instance recovery_mode_eq_dec : EqDecision RecoveryMode.
Proof. solve_decision. Defined.
Record RecoveryPlan : Type := {
  plan_session : SessionId;
  plan_mode : RecoveryMode;
  plan_run : option RunId;
  plan_next : option Sequence;
  plan_running : option bool
}.

Record GroupMeta : Type := {
  meta_run : RunId;
  projection_index : nat;
  projection_count : nat;
  meta_phase : option OperationPhase
}.
#[export] Instance to_value_group_meta : ToValue GroupMeta := fun g =>
  JObject (skip_none "operationPhase" (meta_phase g) ∪
    (<["runId" := to_value (meta_run g)]>
    (<["projectionIndex" := JNumber (PosInt (Z.of_nat (projection_index g)))]>
     {["projectionCount" := JNumber (PosInt (Z.of_nat (projection_count g)))]}))).

(** ** Groups *)

Class WireUpdates (Update : Type) := {
  (** A [StateUpdate]: the state it reports, or none this code knows. *)
  state_update : Update -> option (option ForegroundState);
  is_notice : Update -> bool;
  (** The call a [ToolCallUpdate] is for. *)
  tool_card : Update -> option string;
  snapshot_state : ForegroundState -> Update;
  snapshot_state_reports : forall s, state_update (snapshot_state s) = Some (Some s)
}.

Section Projection.
Context {R : RigTypes} {McpElicitationRequest McpElicitationResult : Type}.
Context `{WireUpdates Update}.
Abbreviation Payload := (Event.AgentEventPayload R McpElicitationRequest McpElicitationResult).
Abbreviation AgentEvent := (Event.AgentEvent R McpElicitationRequest McpElicitationResult).

Inductive ElicitationChange : Type :=
| ElicitationRequested (request : McpElicitationRequest)
| ElicitationResolved (request_id : string).
Inductive PlanApprovalChange : Type :=
| ApprovalRequested (request : PlanApprovalRequest)
| ApprovalResolved (request_id : string).

Record EventGroup : Type := {
  group_run : option RunId;
  group_sequence : Sequence;
  group_metadata : json_map;
  updates : list Update;
  operation_phase : option OperationPhase;
  operation_kind : option OperationKind;
  elicitation : option ElicitationChange;
  plan_approval : option PlanApprovalChange;
  snapshot_of : option string
}.

(** [EventGroup::replayed] *)
Definition replayed (g : EventGroup) : option EventGroup :=
  match List.filter (fun u => negb (bool_decide (is_Some (state_update u)) || is_notice u)) (updates g) with
  | [] => None
  | kept =>
      Some {| group_run := group_run g; group_sequence := group_sequence g; group_metadata := group_metadata g;
              updates := kept; operation_phase := operation_phase g; operation_kind := operation_kind g;
              elicitation := None; plan_approval := None; snapshot_of := snapshot_of g |}
  end.

Inductive ProjectionError : Type :=
| CursorUnavailable
| Metadata (reason : string).

Record Notification : Type := {
  note_session : SessionId;
  note_update : Update;
  note_meta : json_map
}.

(** The envelope of one update. *)
Definition envelope (namespace : string) (g : EventGroup) (index : nat) : result json_map ProjectionError :=
  match group_run g with
  | None => Ok (group_metadata g)
  | Some run =>
      match default (JObject ∅) (group_metadata g !! namespace) with
      | JObject product =>
          let recovery := {| meta_run := run; projection_index := index;
                             projection_count := length (updates g); meta_phase := operation_phase g |} in
          Ok (<[namespace := JObject (<["sessionRecovery" := to_value recovery]> product)]> (group_metadata g))
      | _ => Err (Metadata ("ACP metadata namespace " +:+ namespace +:+ " is not an object"))
      end
  end.

(** [EventGroup::notifications] *)
Fixpoint notifications_from (namespace : string) (session : SessionId) (g : EventGroup) (index : nat)
  (l : list Update) : result (list Notification) ProjectionError :=
  match l with
  | [] => Ok []
  | u :: rest =>
      let? meta := envelope namespace g index in
      let? notes := notifications_from namespace session g (S index) rest in
      Ok ({| note_session := session; note_update := u; note_meta := meta |} :: notes)
  end.
Definition notifications (namespace : string) (session : SessionId) (g : EventGroup)
  : result (list Notification) ProjectionError := notifications_from namespace session g 0 (updates g).

(** ** The journal *)

Record OperationJournal : Type := {
  journal_run : RunId;
  journal_kind : OperationKind;
  baseline : list (SessionReplayItem R);
  groups : list EventGroup;
  running : bool;
  incremental_available : bool
}.

(** [ProjectionState], with what was sent on the channel. *)
Record ProjectionState : Type := {
  journal : option OperationJournal;
  last_sequence : option Sequence;
  foreground : ForegroundState;
  hidden_tool_calls : gset string;
  broadcast : list EventGroup
}.
Definition projection_new : ProjectionState :=
  {| journal := None; last_sequence := None; foreground := foreground_default;
     hidden_tool_calls := ∅; broadcast := [] |}.

Definition sequence_max (o : option Sequence) (s : Sequence) : option Sequence :=
  match o with
  | Some last => if (sequence_get last <? sequence_get s)%Z then Some s else Some last
  | None => Some s
  end.

Definition next_foreground (f : ForegroundState) (u : Update) : ForegroundState :=
  match state_update u with Some (Some s) => s | _ => f end.

(** [ProjectionState::record_broadcast], and the send after it. *)
Definition record_broadcast (g : EventGroup) (s : ProjectionState) : ProjectionState :=
  {| journal := journal s; last_sequence := sequence_max (last_sequence s) (group_sequence g);
     foreground := foldl next_foreground (foreground s) (updates g);
     hidden_tool_calls := hidden_tool_calls s; broadcast := (broadcast s ++ [g])%list |}.

Definition with_journal (j : option OperationJournal) (s : ProjectionState) : ProjectionState :=
  {| journal := j; last_sequence := last_sequence s; foreground := foreground s;
     hidden_tool_calls := hidden_tool_calls s; broadcast := broadcast s |}.

(** A later snapshot of the same key takes the place of an earlier one. *)
Definition supersede (g : EventGroup) (l : list EventGroup) : list EventGroup :=
  match snapshot_of g with
  | Some key => List.filter (fun kept => negb (bool_decide (snapshot_of kept = Some key))) l
  | None => l
  end.
Definition journal_group (g : EventGroup) (j : OperationJournal) : OperationJournal :=
  {| journal_run := journal_run j; journal_kind := journal_kind j; baseline := baseline j;
     groups := (supersede g (groups j) ++ [g])%list;
     running := negb (bool_decide (operation_phase g = Some PhaseEnd));
     incremental_available := incremental_available j |}.

(** Whether a journal takes the group. *)
Definition journals (g : EventGroup) (j : OperationJournal) : bool :=
  running j && bool_decide (group_run g = Some (journal_run j)).

(** [SessionProjection::append_group] *)
Definition append_group (g : EventGroup) (base : list (SessionReplayItem R)) : M ProjectionState ProjectionError unit :=
  fun s =>
    if bool_decide (operation_phase g = Some PhaseStart) then
      match group_run g with
      | None => (Err CursorUnavailable, s)
      | Some run =>
          (Ok tt, record_broadcast g (with_journal
             (Some {| journal_run := run; journal_kind := default KindRun (operation_kind g); baseline := base;
                      groups := [g]; running := true; incremental_available := true |}) s))
      end
    else
      let j := match journal s with
               | Some j => if journals g j then Some (journal_group g j) else Some j
               | None => None
               end in
      (Ok tt, record_broadcast g (with_journal j s)).

(** [publish_terminal_fallback] *)
Definition publish_terminal_fallback : M ProjectionState ProjectionError unit := fun s =>
  let next := match journal s ≫= (fun j => last (groups j)) with
              | Some g => u64_saturating_add (sequence_get (group_sequence g)) 1
              | None => 1%Z
              end in
  let ended := (fun j => {| journal_run := journal_run j; journal_kind := journal_kind j; baseline := baseline j;
                            groups := groups j; running := false; incremental_available := false |}) <$> journal s in
  let s := with_journal ended s in
  match sequence_try_from next with
  | Err e => (Err (Metadata (scalar_error_text e)), s)
  | Ok sequence =>
      (Ok tt, record_broadcast
         {| group_run := None; group_sequence := sequence; group_metadata := ∅;
            updates := [snapshot_state Idle]; operation_phase := None; operation_kind := None;
            elicitation := None; plan_approval := None; snapshot_of := None |} s)
  end.

(** ** Attaching *)

Record LiveFeed : Type := {
  live_receiver : nat;
  live_delivered : option Sequence;
  live_state : ForegroundState
}.
Record ProjectionFeed : Type := {
  feed_baseline : list (SessionReplayItem R);
  backlog : list EventGroup;
  receiver : nat;
  feed_run : RunId;
  feed_next : Sequence;
  tail_sequence : Sequence;
  feed_delivered : option Sequence;
  feed_state : ForegroundState;
  feed_running : bool
}.

(** [subscribe_live] *)
Definition subscribe_live (s : ProjectionState) : LiveFeed :=
  {| live_receiver := length (broadcast s); live_delivered := last_sequence s; live_state := foreground s |}.

(** Whether a journal covers the cursor: between its first group and one past
    its last. *)
Definition covers (j : OperationJournal) (sequence : Sequence) : option Sequence :=
  match head (groups j), last (groups j) with
  | Some first, Some final =>
      if (sequence_get sequence <? sequence_get (group_sequence first))%Z ||
         (u64_saturating_add (sequence_get (group_sequence final)) 1 <? sequence_get sequence)%Z
      then None else Some (group_sequence final)
  | _, _ => None
  end.
Definition addressed (run : RunId) (s : ProjectionState) : option OperationJournal :=
  match journal s with
  | Some j => if bool_decide (journal_run j = run) && incremental_available j then Some j else None
  | None => None
  end.
Definition groups_from (sequence : Sequence) (j : OperationJournal) : list EventGroup :=
  List.filter (fun g => (sequence_get sequence <=? sequence_get (group_sequence g))%Z) (groups j).

(** [snapshot_from] *)
Definition snapshot_from (run : RunId) (sequence : Sequence) (s : ProjectionState)
  : result (list EventGroup) ProjectionError :=
  let? j := ok_or (addressed run s) CursorUnavailable in
  let? _ := ok_or (covers j sequence) CursorUnavailable in
  Ok (groups_from sequence j).

(** [subscribe_from_cursor] *)
Definition subscribe_from_cursor (run : RunId) (sequence : Sequence) (s : ProjectionState)
  : result ProjectionFeed ProjectionError :=
  let? j := ok_or (addressed run s) CursorUnavailable in
  let? tail := ok_or (covers j sequence) CursorUnavailable in
  Ok {| feed_baseline := []; backlog := groups_from sequence j; receiver := length (broadcast s);
        feed_run := journal_run j; feed_next := sequence; tail_sequence := tail;
        feed_delivered := last_sequence s; feed_state := foreground s; feed_running := running j |}.

(** [subscribe_from_start] *)
Definition subscribe_from_start (s : ProjectionState) : result ProjectionFeed ProjectionError :=
  let? j := ok_or (journal s) CursorUnavailable in
  let? first := ok_or (head (groups j)) CursorUnavailable in
  let? final := ok_or (last (groups j)) CursorUnavailable in
  Ok {| feed_baseline := baseline j; backlog := groups j; receiver := length (broadcast s);
        feed_run := journal_run j; feed_next := group_sequence first; tail_sequence := group_sequence final;
        feed_delivered := last_sequence s; feed_state := foreground s; feed_running := running j |}.

(** [active_operation] *)
Definition active_operation (s : ProjectionState) : option (RunId * OperationKind) :=
  match journal s with
  | Some j => if running j then Some (journal_run j, journal_kind j) else None
  | None => None
  end.

Definition resume_plan (c : SessionCursor) (is_running : bool) : RecoveryPlan :=
  {| plan_session := cursor_session c; plan_mode := Resume; plan_run := None; plan_next := None;
     plan_running := Some is_running |}.

(** [SessionProjection::recovery_plan] *)
Definition session_recovery_plan (c : SessionCursor) (s : ProjectionState) : RecoveryPlan :=
  match journal s with
  | None => resume_plan c false
  | Some j =>
      let covered := incremental_available j && bool_decide (journal_run j = cursor_run c) &&
        match head (groups j) with
        | Some g => (sequence_get (group_sequence g) <=? sequence_get (cursor_next c))%Z
        | None => false
        end &&
        match last (groups j) with
        | Some g => (sequence_get (cursor_next c) <=? u64_saturating_add (sequence_get (group_sequence g)) 1)%Z
        | None => false
        end in
      if covered then
        {| plan_session := cursor_session c; plan_mode := Watch; plan_run := Some (cursor_run c);
           plan_next := Some (cursor_next c); plan_running := Some (running j) |}
      else resume_plan c (running j)
  end.

(** ** The sink *)

Definition todo_calls (m : AgentMessage R) : list string :=
  match content m with
  | Assistant blocks _ _ =>
      omap (fun b => match b with
                     | ToolCallBlock id name _ _ => if String.eqb name TODO_WRITE_TOOL then Some (as_str id) else None
                     | _ => None
                     end) blocks
  | _ => []
  end.

(** [HiddenToolCalls::apply] *)
Definition hidden_apply (p : Payload) (l : list Update) (hidden : gset string) : list Update * gset string :=
  let hidden := match p with
                | Event.ToolExecutionStart _ call _ _ =>
                    if String.eqb (call_name call) TODO_WRITE_TOOL
                    then {[ as_str (call_id call) ]} ∪ hidden else hidden
                | Event.MessageEnd m => list_to_set (todo_calls m) ∪ hidden
                | _ => hidden
                end in
  let kept := List.filter (fun u => match tool_card u with
                                    | Some call => negb (bool_decide (call ∈ hidden))
                                    | None => true
                                    end) l in
  let hidden := match p with
                | Event.MessageEnd m =>
                    match content m with
                    | ToolResult call _ _ _ _ _ => hidden ∖ {[ as_str call ]}
                    | _ => hidden
                    end
                | _ => hidden
                end in
  (kept, hidden).

(** [SessionProjection::hide_tool_calls] *)
Definition hide_tool_calls (p : Payload) (l : list Update) (s : ProjectionState) : list Update * ProjectionState :=
  let applied := hidden_apply p l (hidden_tool_calls s) in
  (applied.1, {| journal := journal s; last_sequence := last_sequence s; foreground := foreground s;
                 hidden_tool_calls := applied.2; broadcast := broadcast s |}).

(** The Operation an event belongs to and the boundary it is. *)
Definition boundary (active : option (RunId * OperationKind)) (p : Payload)
  : option RunId * option (OperationPhase * OperationKind) :=
  match p with
  | Event.RunStart run => (Some run, Some (PhaseStart, KindRun))
  | Event.SlashCommandStart run _ => (Some run, Some (PhaseStart, KindSlashCommand))
  | Event.AgentSettled run _ _ => (Some run, Some (PhaseEnd, KindRun))
  | Event.SlashCommandEnd run _ _ => (Some run, Some (PhaseEnd, KindSlashCommand))
  | Event.UserBashStarted run _ _ _ _ => (Some run, Some (PhaseStart, KindUserBash))
  | Event.UserBashFinished run _ _ _ => (Some run, Some (PhaseEnd, KindUserBash))
  | Event.CompactionStart run _ =>
      match active with
      | None => (Some run, Some (PhaseStart, KindCompactionOperation))
      | Some (recovery, _) => (Some recovery, None)
      end
  | Event.CompactionEnd run _ _ =>
      match active with
      | None => (Some run, None)
      | Some (recovery, kind) =>
          if bool_decide (recovery = run) && bool_decide (kind = KindCompactionOperation)
          then (Some run, Some (PhaseEnd, KindCompactionOperation))
          else (Some recovery, None)
      end
  | Event.TurnStart run | Event.RetryScheduled run _ _ _ _ | Event.RetryStart run _ _
  | Event.RetryEnd run _ _ _ | Event.ToolExecutionStart run _ _ _ | Event.ToolExecutionUpdate run _
  | Event.ToolExecutionEnd run _ | Event.RunEnd run _ => (Some run, None)
  | _ => (fst <$> active, None)
  end.

Definition snapshot_key (p : Payload) : option string :=
  match p with
  | Event.QueueChanged _ => Some "queue"
  | Event.UserBashOutput _ message _ => Some ("terminal:" +:+ as_str message)
  | Event.ToolExecutionUpdate _ r =>
      match result_details r with
      | Some (BashDetails _ _ _ _) => Some ("terminal:" +:+ as_str (result_call_id r))
      | _ => None
      end
  | _ => None
  end.

Definition elicitation_of (p : Payload) : option ElicitationChange :=
  match p with
  | Event.McpElicitationRequested request => Some (ElicitationRequested request)
  | Event.McpElicitationResolved id _ => Some (ElicitationResolved id)
  | _ => None
  end.
Definition approval_of (p : Payload) : option PlanApprovalChange :=
  match p with
  | Event.PlanApprovalRequested request => Some (ApprovalRequested request)
  | Event.PlanApprovalResolved id _ => Some (ApprovalResolved id)
  | _ => None
  end.

(** The group of one event, once its updates are mapped. *)
Definition group_of (active : option (RunId * OperationKind)) (e : AgentEvent) (meta : json_map)
  (l : list Update) : EventGroup :=
  let p := Event.payload e in
  let '(run, bound) := boundary active p in
  {| group_run := run; group_sequence := Event.event_sequence (Event.event_metadata e); group_metadata := meta;
     updates := l; operation_phase := fst <$> bound; operation_kind := snd <$> bound;
     elicitation := elicitation_of p; plan_approval := approval_of p; snapshot_of := snapshot_key p |}.

Inductive SinkError : Type := Consumer (reason : string).
Definition projection_error_text (e : ProjectionError) : string :=
  match e with
  | CursorUnavailable => "ACP Operation projection journal is unavailable"
  | Metadata reason => "invalid ACP projection metadata: " +:+ reason
  end.

(** [AcpEventMapper] *)
Record Mapper : Type := {
  map_metadata : AgentEvent -> result json_map string;
  map_updates : AgentEvent -> result (list Update) string
}.

(** [ProjectionSink::emit] on the session's projection; [history] is the
    kernel's replay of the session, read between the two locks. *)
Definition emit (mapper : Mapper) (history : result (list (SessionReplayItem R)) string) (e : AgentEvent)
  : M ProjectionState SinkError unit :=
  let! s := m_get in
  let active := active_operation s in
  let '(_, bound) := boundary active (Event.payload e) in
  let! base := if bool_decide (fst <$> bound = Some PhaseStart) then m_lift (map_err Consumer history)
               else m_ret [] in
  let! meta := m_lift (map_err Consumer (map_metadata mapper e)) in
  let! mapped := m_lift (map_err Consumer (map_updates mapper e)) in
  let! kept := (fun s => let '(kept, s) := hide_tool_calls (Event.payload e) mapped s in (Ok kept, s)) in
  fun s => let '(r, s) := append_group (group_of active e meta kept) base s in
           (map_err (fun err => Consumer (projection_error_text err)) r, s).

(** ** The registry *)

Abbreviation Registry := (gmap SessionId ProjectionState).

(** [ProjectionRegistry::projection] *)
Definition projection (session : SessionId) (r : Registry) : ProjectionState * Registry :=
  match r !! session with
  | Some s => (s, r)
  | None => (projection_new, <[session := projection_new]> r)
  end.
Definition on_projection {E A} (session : SessionId) (op : M ProjectionState E A) : M Registry E A := fun r =>
  let '(s, r) := projection session r in
  let '(a, s) := op s in (a, <[session := s]> r).
Definition registry_last_sequence (session : SessionId) (r : Registry) : option Sequence :=
  r !! session ≫= last_sequence.
Definition has_journal (session : SessionId) (r : Registry) : bool :=
  match r !! session with Some s => bool_decide (is_Some (journal s)) | None => false end.
Definition remove (session : SessionId) (r : Registry) : Registry := delete session r.
Definition recovery_plan (c : SessionCursor) (r : Registry) : RecoveryPlan :=
  match r !! cursor_session c with
  | Some s => session_recovery_plan c s
  | None => resume_plan c false
  end.

Inductive DurableResumeSelection : Type :=
| Retained (feed : ProjectionFeed)
| Live (replay : list (SessionReplayItem R)) (live : LiveFeed).

(** [select_durable_resume] *)
Definition select_durable_resume (live : LiveFeed) (replay : list (SessionReplayItem R)) (s : ProjectionState)
  : result DurableResumeSelection ProjectionError :=
  match subscribe_from_start s with
  | Ok feed => Ok (Retained feed)
  | Err CursorUnavailable => Ok (Live replay live)
  | Err e => Err e
  end.

(** ** The watcher of one connection *)

(** [ProjectionWatch], the connection's queue and the delivery's progress. *)
Record WatchState : Type := {
  position : nat;
  watch_run : option RunId;
  watch_next : option Sequence;
  progress : option Sequence;
  outbox : list Notification;
  (** The groups that were sent whole. *)
  delivered_groups : list EventGroup;
  (** The changes of requests, in the order they were passed on. *)
  passed_on : list (ElicitationChange + PlanApprovalChange);
  stopped : bool
}.

(** [From<ProjectionFeed>], [From<LiveFeed>] *)
Definition watch_feed (f : ProjectionFeed) : WatchState :=
  {| position := receiver f; watch_run := Some (feed_run f); watch_next := Some (feed_next f);
     progress := feed_delivered f; outbox := []; delivered_groups := []; passed_on := []; stopped := false |}.
Definition watch_live (f : LiveFeed) : WatchState :=
  {| position := live_receiver f; watch_run := None; watch_next := None; progress := live_delivered f;
     outbox := []; delivered_groups := []; passed_on := []; stopped := false |}.

(** [record_sent] *)
Definition record_sent (g : EventGroup) (w : WatchState) : WatchState :=
  match group_run g with
  | None => w
  | Some run =>
      {| position := position w; watch_run := Some run;
         watch_next := ok (sequence_try_from (sequence_get (group_sequence g) + 1)); progress := progress w;
         outbox := outbox w; delivered_groups := delivered_groups w; passed_on := passed_on w;
         stopped := stopped w |}
  end.

(** [sent_through] *)
Definition sent_through (s : Sequence) (w : WatchState) : WatchState :=
  {| position := position w; watch_run := watch_run w; watch_next := watch_next w;
     progress := match progress w with
                 | Some sent => if (sequence_get s <=? sequence_get sent)%Z then Some sent else Some s
                 | None => Some s
                 end;
     outbox := outbox w; delivered_groups := delivered_groups w; passed_on := passed_on w; stopped := stopped w |}.

Definition stop (w : WatchState) : WatchState :=
  {| position := position w; watch_run := watch_run w; watch_next := watch_next w; progress := progress w;
     outbox := outbox w; delivered_groups := delivered_groups w; passed_on := passed_on w; stopped := true |}.
Definition queue_note (n : Notification) (w : WatchState) : WatchState :=
  {| position := position w; watch_run := watch_run w; watch_next := watch_next w; progress := progress w;
     outbox := (outbox w ++ [n])%list; delivered_groups := delivered_groups w; passed_on := passed_on w;
     stopped := stopped w |}.
Definition group_done (g : EventGroup) (w : WatchState) : WatchState :=
  {| position := position w; watch_run := watch_run w; watch_next := watch_next w; progress := progress w;
     outbox := outbox w; delivered_groups := (delivered_groups w ++ [g])%list;
     passed_on := (passed_on w ++ from_option (fun c => [inl c]) [] (elicitation g)
                   ++ from_option (fun c => [inr c]) [] (plan_approval g))%list;
     stopped := stopped w |}.

(** [accepts] tells of each notification in turn whether the connection takes it. *)
Variable accepts : nat -> bool.
Fixpoint send_notes (l : list Notification) (w : WatchState) : bool * WatchState :=
  match l with
  | [] => (true, w)
  | n :: rest => if accepts (length (outbox w)) then send_notes rest (queue_note n w) else (false, w)
  end.

Variable namespace : string.
Variable session : SessionId.

(** One group in the watcher's loop. *)
Definition watch_group (g : EventGroup) (w : WatchState) : WatchState :=
  if stopped w then w
  else if match watch_next w with
          | Some next => (sequence_get (group_sequence g) <? sequence_get next)%Z
          | None => false
          end then w
  else
    match notifications namespace session g with
    | Err _ => stop w
    | Ok notes =>
        let '(sent, w) := send_notes notes w in
        if sent then sent_through (group_sequence g) (record_sent g (group_done g w)) else stop w
    end.
Definition watch_groups (l : list EventGroup) (w : WatchState) : WatchState := foldl (fun w g => watch_group g w) w l.

Definition moved_to_position (p : nat) (w : WatchState) : WatchState :=
  {| position := p; watch_run := watch_run w; watch_next := watch_next w; progress := progress w;
     outbox := outbox w; delivered_groups := delivered_groups w; passed_on := passed_on w; stopped := stopped w |}.

(** What the channel gives the watcher next. *)
Definition watch_received (s : ProjectionState) (w : WatchState) : WatchState :=
  match broadcast s !! position w with
  | Some g => watch_group g (moved_to_position (S (position w)) w)
  | None => w
  end.
(** The channel dropped what was before [p]. *)
Definition watch_lagged (p : nat) (s : ProjectionState) (w : WatchState) : WatchState :=
  let w := moved_to_position p w in
  match watch_run w, watch_next w with
  | Some run, Some next =>
      match snapshot_from run next s with
      | Ok l => watch_groups l w
      | Err _ => stop w
      end
  | _, _ => stop w
  end.

(** The backlog a watcher sends before it starts; [None] when the connection
    or a group's metadata fails. *)
Fixpoint send_backlog (l : list EventGroup) (w : WatchState) : option WatchState :=
  match l with
  | [] => Some w
  | g :: rest =>
      match replayed g with
      | None => send_backlog rest (record_sent g w)
      | Some kept =>
          match notifications namespace session kept with
          | Err _ => None
          | Ok notes =>
              let '(sent, w) := send_notes notes w in
              if sent then send_backlog rest (record_sent g w) else None
          end
      end
  end.

(** The title and state a resumed watcher reports after its backlog. *)
Definition report_state (title : option Update) (f : ForegroundState) (w : WatchState) : option WatchState :=
  let note u := {| note_session := session; note_update := u; note_meta := ∅ |} in
  let '(sent, w) := send_notes (note <$> (option_list title ++ [snapshot_state f])%list) w in
  if sent then Some w else None.

(** [watch_projection] up to its task; [title] is the session's, when it has one. *)
Definition watch_projection_feed (title : option Update) (f : ProjectionFeed) : option WatchState :=
  w ← send_backlog (backlog f) (watch_feed f); report_state title (feed_state f) w.
Definition watch_projection_live (resumed : bool) (title : option Update) (f : LiveFeed) : option WatchState :=
  if resumed then report_state title (live_state f) (watch_live f) else Some (watch_live f).
End Projection.
