(* ===== verification/Server.v ===== *)
(** The server's requests over sessions' projections: what an initialize answers
    for each cursor, where a resume takes a session's history from, the replay
    of durable items, the answers that wait for a connection's updates, and the
    options a client may set ([crates/acp/src/server.rs], [config.rs],
    [delivery.rs], and [validate_session_attachment] of
    [crates/kernel/src/runtime/session/open.rs]).

    What the kernel answers to a request is an argument, as is what other
    connections do to the projections while a request waits for it.  A
    notification that fails to be sent ends its handler. *)

From S2P Require Import Prelude Lines Chars Text Scalar Json Message StoreModel ToolContract KernelErrors.
From S2P Require Import Attempt Queue RunWorld Template Skills PromptSession Commands ToolSearch ToolSelection Compaction Settings.
From S2P Require Import Projection.
Open Scope string_scope.
Open Scope rust_scope.

(** ** Errors *)

Inductive AcpCode : Type := InvalidParams | InternalError | ResourceNotFound | AuthRequiredCode | RequestCancelled.
Record AcpError : Type := { acp_code : AcpCode; acp_data : option json }.
Definition invalid_params (text : string) : AcpError := {| acp_code := InvalidParams; acp_data := Some (JString text) |}.
Definition internal (text : string) : AcpError := {| acp_code := InternalError; acp_data := Some (JString text) |}.

(** [From<KernelFailure> for Error] *)
Definition kernel_failure (text : KernelError -> string) (e : KernelError) : AcpError :=
  match e with
  | PromptCancelled => {| acp_code := RequestCancelled; acp_data := None |}
  | KernelErrors.Model (KernelErrors.AuthRequired method) =>
      {| acp_code := AuthRequiredCode; acp_data := Some (JObject {["methodId" := JString method]}) |}
  | SessionPersistenceUncertain =>
      {| acp_code := InternalError;
         acp_data := Some (JObject (<["outcomeUnknown" := JBool true]> {["message" := JString (text e)]})) |}
  | e => internal (text e)
  end.

(** [From<UnavailableSession> for Error] *)
Definition unavailable_session (session : SessionId) : AcpError :=
  {| acp_code := ResourceNotFound; acp_data := Some (JObject {["sessionId" := to_value session]}) |}.

(** [active_watcher] *)
Definition active_watcher {W} (watchers : gmap SessionId W) (session : SessionId) : result W AcpError :=
  ok_or (watchers !! session) (unavailable_session session).

(** ** Prompt options *)

Record PromptOptions : Type := { when_busy : option WhenBusy; submission_id : option string }.

(** [TryFrom<Option<&Meta>> for PromptOptions] *)
Definition prompt_options (meta : option json_map) : result PromptOptions AcpError :=
  match meta ≫= lookup "clawcode" with
  | None => Ok {| when_busy := None; submission_id := None |}
  | Some (JObject product) =>
      let? busy := match product !! "whenBusy" with
                   | None => Ok None
                   | Some (JString "followUp") => Ok (Some BusyFollowUp)
                   | Some (JString "steer") => Ok (Some Steer)
                   | Some _ => Err (invalid_params "whenBusy must be followUp or steer")
                   end in
      let? id := match product !! "submissionId" with
                 | None => Ok None
                 | Some (JString id) =>
                     if negb (String.eqb id "") && Nat.leb (length (chars id)) 128 then Ok (Some id)
                     else Err (invalid_params "submissionId must contain 1 to 128 characters")
                 | Some _ => Err (invalid_params "submissionId must contain 1 to 128 characters")
                 end in
      Ok {| when_busy := busy; submission_id := id |}
  | Some _ => Err {| acp_code := InvalidParams; acp_data := None |}
  end.

(** ** Config options *)

Record SelectOption : Type := { option_value : string; option_name : string; option_description : option string }.
Record ConfigOption : Type := {
  config_id : string;
  config_name : string;
  config_current : string;
  config_choices : list SelectOption
}.

Definition ALL_LEVELS : list ThinkingLevel := [Off; Minimal; Low; Medium; High; XHigh].
Definition ALL_MODES : list SessionMode := [ModeDefault; ModePlan].

(** [ModelValue], [ThinkingValue], [ModeValue] *)
Definition model_value (p : FullProfile) : string :=
  profile_provider_id (full_limits p) +:+ "/" +:+ profile_model_id (full_limits p).
Definition level_id (l : ThinkingLevel) : string := default "" (json_as_str (to_value l)).
Definition level_name (l : ThinkingLevel) : string :=
  match l with
  | Off => "Off" | Minimal => "Minimal" | Low => "Low" | Medium => "Medium" | High => "High" | XHigh => "Extra high"
  end.
Definition mode_id (m : SessionMode) : string := match m with ModeDefault => "default" | ModePlan => "plan" end.
Definition mode_name (m : SessionMode) : string := match m with ModeDefault => "Default" | ModePlan => "Plan" end.

(** [From<ConfigOptionsOf> for Vec<SessionConfigOption>] *)
Definition config_options (s : SessionSettings) : list ConfigOption :=
  [ {| config_id := "model"; config_name := "Model"; config_current := model_value (settings_model s);
       config_choices := (fun p => {| option_value := model_value p; option_name := full_display_name p;
         option_description := Some (profile_provider_id (full_limits p) +:+ " · "
           +:+ u64_to_string (context_tokens (full_limits p)) +:+ " tokens context") |}) <$> settings_models s |};
    {| config_id := "thinking_level"; config_name := "Thinking"; config_current := level_id (settings_level s);
       config_choices := (fun l => {| option_value := level_id l; option_name := level_name l;
         option_description := None |}) <$> ALL_LEVELS |};
    {| config_id := "mode"; config_name := "Mode"; config_current := mode_id (settings_mode s);
       config_choices := (fun m => {| option_value := mode_id m; option_name := mode_name m;
         option_description := None |}) <$> ALL_MODES |} ].

Inductive ConfigChange : Type :=
| ChangeModel (provider model : string)
| ChangeLevel (level : ThinkingLevel)
| ChangeMode (mode : SessionMode).

(** [ConfigChange::try_from]; the value is [None] when it is not a select's. *)
Definition config_change (s : SessionSettings) (id : string) (value : option string) : result ConfigChange AcpError :=
  let? value := ok_or value (invalid_params (id +:+ " takes a select value")) in
  if String.eqb id "model" then
    match head (List.filter (fun p => String.eqb (model_value p) value) (settings_models s)) with
    | Some p => Ok (ChangeModel (profile_provider_id (full_limits p)) (profile_model_id (full_limits p)))
    | None => Err (invalid_params ("model is not offered: " +:+ value))
    end
  else if String.eqb id "thinking_level" then
    match head (List.filter (fun l => String.eqb (level_id l) value) ALL_LEVELS) with
    | Some l => Ok (ChangeLevel l)
    | None => Err (invalid_params ("thinking level is not offered: " +:+ value))
    end
  else if String.eqb id "mode" then
    match head (List.filter (fun m => String.eqb (mode_id m) value) ALL_MODES) with
    | Some m => Ok (ChangeMode m)
    | None => Err (invalid_params ("mode is not offered: " +:+ value))
    end
  else Err (invalid_params ("unknown config option: " +:+ id)).

(** ** Requests over projections *)

Record ResumeMeta : Type := {
  resume_mode : RecoveryMode;
  resume_run : option RunId;
  journal_tail_sequence : option Sequence;
  resume_running : bool
}.

Definition CURSOR_UNAVAILABLE_CODE : string := "_clawcode/session_recovery_cursor_unavailable".
(** [CursorErrorData] *)
Definition cursor_error_data (session : SessionId) (c : EventCursor) : json :=
  JObject (<["code" := JString CURSOR_UNAVAILABLE_CODE]> (<["sessionId" := to_value session]>
          (<["runId" := to_value (replay_run c)]> {["sequence" := to_value (replay_sequence c)]}))).

Section Requests.
Context {R : RigTypes} {McpElicitationRequest McpElicitationResult : Type} `{WireUpdates Update}.
Abbreviation State := (ProjectionState (R := R) (McpElicitationRequest := McpElicitationRequest) (Update := Update)).
Abbreviation Feed := (ProjectionFeed (R := R) (McpElicitationRequest := McpElicitationRequest) (Update := Update)).
Abbreviation Watcher := (WatchState (McpElicitationRequest := McpElicitationRequest) (Update := Update)).
Abbreviation Projections := (gmap SessionId State).
Abbreviation AgentEvent := (Event.AgentEvent R McpElicitationRequest McpElicitationResult).
Abbreviation Payload := (Event.AgentEventPayload R McpElicitationRequest McpElicitationResult).
Abbreviation Item := (SessionReplayItem R).

(** [KernelError]'s [Display] *)
Variable kernel_text : KernelError -> string.
Definition internal_kernel (e : KernelError) : AcpError := internal (kernel_text e).
Definition internal_projection (e : ProjectionError) : AcpError := internal (projection_error_text e).

(** *** Initialize *)

(** The recovery part of an initialize: a plan for each cursor. *)
Definition initialize_recovery (meta : option json_map) (namespace : string) (r : Projections)
  : result (option (list RecoveryPlan)) AcpError :=
  let? recovery := map_err (fun e => invalid_params (match e with
                      | UnsupportedCursor type => "unsupported session replay cursor " +:+ type
                      | InvalidCursor reason => "invalid session replay cursor: " +:+ reason
                      | InvalidInitialize reason => "invalid initialize session recovery metadata: " +:+ reason
                      end)) (recovery_from_meta meta namespace) in
  match recovery with
  | None => Ok None
  | Some recovery =>
      if negb (recovery_version recovery =? RECOVERY_VERSION)%Z
      then Err (invalid_params "unsupported session recovery version")
      else Ok (Some ((fun c => recovery_plan c r) <$> recovery_sessions recovery))
  end.

(** *** Replay *)

(** The events an item stands for. *)
Definition item_events (item : Item) : list (TurnId * TimestampMs * Payload) :=
  match item with
  | ReplayMessage message window =>
      let turn := turn_id (identity message) in
      let time := ended_at_ms (timing message) in
      ((turn, time, Event.MessageEnd message) ::
       match content message, window with
       | Assistant _ metadata _, Some window => [(turn, time, Event.UsageUpdated (metadata_usage metadata) window)]
       | _, _ => []
       end)
  | ReplayTurn turn =>
      [(turn_turn_id (turn_identity turn), turn_ended_at_ms (turn_timing turn), Event.TurnEnd turn)]
  | ReplayRunEnd run turn outcome time => [(turn, time, Event.RunEnd run outcome)]
  | ReplayCompaction run reason compacted =>
      [(result_turn_id compacted, result_ended_at_ms compacted,
        Event.CompactionEnd run reason (CompactionCompleted compacted))]
  end.

Variable mapper : Mapper (R := R) (McpElicitationRequest := McpElicitationRequest)
  (McpElicitationResult := McpElicitationResult) (Update := Update).
Variable session : SessionId.

(** A connection takes notifications one by one until it refuses one;
    [accepts] tells of each in turn whether it is taken. *)
Variable connection_error : AcpError.
Abbreviation Sent := (list (Notification (Update := Update))).
Fixpoint send_each (accepts : nat -> bool) (l sent : Sent) : Sent * result unit AcpError :=
  match l with
  | [] => (sent, Ok tt)
  | n :: rest =>
      if accepts (length sent) then send_each accepts rest (sent ++ [n])%list else (sent, Err connection_error)
  end.

(** What an event of the replay is sent as; [index] numbers it. *)
Definition map_event (index : Z) (turn : TurnId) (time : TimestampMs) (p : Payload)
  : result (json_map * list Update) AcpError :=
  let? sequence := map_err (fun e => internal (scalar_error_text e)) (sequence_try_from index) in
  let event := {| Event.event_metadata := {| Event.event_turn := turn; Event.event_time := time;
                                             Event.event_sequence := sequence |};
                  Event.payload := p |} in
  let? meta := map_err internal (map_metadata mapper event) in
  let? mapped := map_err internal (map_updates mapper event) in
  Ok (meta, mapped).

(** The events from an index on: those before one that fails were sent. *)
Fixpoint replay_events (accepts : nat -> bool) (index : Z) (hidden : gset string)
  (l : list (TurnId * TimestampMs * Payload)) (sent : Sent) : Sent * result unit AcpError :=
  match l with
  | [] => (sent, Ok tt)
  | (turn, time, p) :: rest =>
      let index := u64_saturating_add index 1 in
      match map_event index turn time p with
      | Err e => (sent, Err e)
      | Ok (meta, mapped) =>
          let '(kept, hidden) := hidden_apply p mapped hidden in
          match send_each accepts
                  ((fun u => {| note_session := session; note_update := u; note_meta := meta |}) <$>
                   List.filter (fun u => negb (bool_decide (is_Some (state_update u)))) kept) sent with
          | (sent, Err e) => (sent, Err e)
          | (sent, Ok _) => replay_events accepts index hidden rest sent
          end
      end
  end.

(** [AcpServer::send_replay_items]: what was sent, and how it ended. *)
Definition replay_items (accepts : nat -> bool) (items : list Item) : Sent * result unit AcpError :=
  replay_events accepts 0 ∅ (items ≫= item_events) [].

(** *** Resume *)

(** [Kernel::validate_session_attachment]; the live sessions with their working
    directories. *)
Definition validate_session_attachment (live : gmap SessionId string) (cwd : string) : result unit KernelError :=
  match live !! session with
  | None => Err (SessionNotFound session)
  | Some expected =>
      if String.eqb expected cwd then Ok tt else Err (SessionCwdMismatch session expected cwd)
  end.

Record Resumed : Type := {
  resumed_items : list Item;
  resumed_feed : Feed + LiveFeed;
  resumed_meta : ResumeMeta
}.
Definition retained_resume (mode : RecoveryMode) (f : Feed) : Resumed :=
  {| resumed_items := feed_baseline f; resumed_feed := inl f;
     resumed_meta := {| resume_mode := mode; resume_run := Some (feed_run f);
                        journal_tail_sequence := Some (tail_sequence f); resume_running := feed_running f |} |}.
Definition live_resume (items : list Item) (f : LiveFeed) : Resumed :=
  {| resumed_items := items; resumed_feed := inr f;
     resumed_meta := {| resume_mode := Resume; resume_run := None; journal_tail_sequence := None;
                        resume_running := false |} |}.

Variable live : gmap SessionId string.
Variable cwd : string.
(** What the kernel's resume answers, and its replay when the projections are
    these. *)
Variable resumed : result unit KernelError.
Variable stored : Projections -> result (list Item) KernelError.
(** What others do to the projections while the kernel resumes the session, and
    after the replay was read. *)
Variable others meanwhile : Projections -> Projections.

Definition pure_of {E A} (op : State -> result A E) : M State E A := fun s => (op s, s).
Definition lift_projection {A} (op : M State ProjectionError A) : M Projections AcpError A := fun r =>
  let '(a, r) := on_projection session op r in (map_err internal_projection a, r).

(** Whether a retained journal stands in for the store. *)
Definition use_retained (req : AcpReplayRequest) : M Projections AcpError bool := fun r =>
  match req with
  | ReplayStart =>
      if has_journal session r then
        match validate_session_attachment live cwd with
        | Ok _ => (Ok true, r)
        | Err (SessionNotFound _) => (Ok false, remove session r)
        | Err e => (Err (internal_kernel e), r)
        end
      else (Ok false, r)
  | _ => (Ok false, r)
  end.

(** Where a resume takes the session's history from, and the feed it attaches. *)
Definition resume_source (req : AcpReplayRequest) : M Projections AcpError Resumed :=
  let! retained := use_retained req in
  match req with
  | ReplayEvent c =>
      let! _ := m_lift (map_err internal_kernel (validate_session_attachment live cwd)) in
      let! f := (fun r => let '(a, r) := on_projection session (pure_of (subscribe_from_cursor (replay_run c) (replay_sequence c))) r in
                          (map_err (fun _ => {| acp_code := InvalidParams; acp_data := Some (cursor_error_data session c) |}) a, r)) in
      m_ret {| resumed_items := []; resumed_feed := inl f; resumed_meta := resumed_meta (retained_resume Watch f) |}
  | _ =>
      if retained then
        let! f := lift_projection (pure_of subscribe_from_start) in
        m_ret (retained_resume Resume f)
      else
        let! attached := lift_projection (pure_of (fun s => Ok (subscribe_live s))) in
        let! _ := (fun r => (map_err internal_kernel resumed, others r)) in
        match req with
        | ReplayStart =>
            let! items := (fun r => (map_err internal_kernel (stored r), meanwhile r)) in
            let! selected := lift_projection (pure_of (select_durable_resume attached items)) in
            m_ret (match selected with
                   | Retained f => retained_resume Resume f
                   | Live items attached => live_resume items attached
                   end)
        | _ => m_ret (live_resume [] attached)
        end
  end.

(** The notifications a resume sends before its watcher, and the watcher; it is
    [None] when the connection or a group of the backlog fails.  The list of
    commands, which is sent in between, is left out. *)
Definition start_watch (accepts : nat -> bool) (namespace : string) (title : option Update) (x : Resumed)
  : Sent * result (option Watcher) AcpError :=
  let '(sent, replayed) := replay_items accepts (resumed_items x) in
  let accepts i := accepts (length sent + i)%nat in
  (sent, match replayed with
         | Err e => Err e
         | Ok _ => Ok (match resumed_feed x with
                       | inl f => watch_projection_feed accepts namespace session title f
                       | inr f => watch_projection_live accepts session true title f
                       end)
         end).

(** *** Answers that follow a connection's updates *)

(** [SessionDelivery::wait_through]: what a waiter sees of a watcher; [None] is
    to wait on. *)
Definition wait_through (q : Sequence) (w : Watcher) : option (result unit AcpError) :=
  match progress w with
  | Some sent =>
      if (sequence_get q <=? sequence_get sent)%Z then Some (Ok tt)
      else if stopped w then Some (Err (internal "Session watcher stopped before delivering updates")) else None
  | None => if stopped w then Some (Err (internal "Session watcher stopped before delivering updates")) else None
  end.

(** How the close of the kernel's session went, as its waiter sees it. *)
Inductive CloseWait : Type :=
| Closed (r : result unit KernelError)
| CloseTaskEnded
| CloseElapsed.

(** [SessionClose::run]: its answer once the wait is over; [at_close] are the
    projections when the close had ended. *)
Definition close_answer (wait : CloseWait) (at_close : Projections) (w : Watcher) : option (result unit AcpError) :=
  match wait with
  | CloseTaskEnded => Some (Err (internal "Session close task ended without a result"))
  | CloseElapsed =>
      Some (Err {| acp_code := InternalError;
                   acp_data := Some (JObject (<["sessionId" := to_value session]> {["closing" := JBool true]})) |})
  | Closed (Err e) => Some (Err (internal_kernel e))
  | Closed (Ok _) =>
      match registry_last_sequence session at_close with
      | Some q => wait_through q w
      | None => Some (Ok tt)
      end
  end.
(** The task of the close: a session that was closed loses its projection. *)
Definition close_task (r : result unit KernelError) (p : Projections) : Projections :=
  if is_ok r then remove session p else p.

(** [SessionConfigUpdate::run]: the change the kernel is asked for, and the
    answer once it is [applied] and the projections were [at_change]. *)
Definition config_update (settings : result SessionSettings KernelError) (id : string) (value : option string)
  : result ConfigChange AcpError :=
  let? settings := map_err internal_kernel settings in
  config_change settings id value.
Definition config_answer (applied : result unit KernelError) (at_change : Projections)
  (settings : result SessionSettings KernelError) (w : Watcher) : option (result (list ConfigOption) AcpError) :=
  match applied with
  | Err e => Some (Err (kernel_failure kernel_text e))
  | Ok _ =>
      match match registry_last_sequence session at_change with
            | Some q => wait_through q w
            | None => Some (Ok tt)
            end with
      | None => None
      | Some (Err e) => Some (Err e)
      | Some (Ok _) => Some (map_err internal_kernel (result_map config_options settings))
      end
  end.
End Requests.
