(* ===== verification/StoreTheorems.v ===== *)
(** What the session store promises its clients: durability, crash recovery,
    the tree of entries, forks and the identity index. *)

From S2P Require Import Prelude Lines Scalar Json Message StoreModel StoreState StoreSession.
From S2P Require Import StoreInv StoreLaws StoreFactory StoreLog StoreOpen StoreIndex.
From S2P Require Import Samples.
Open Scope string_scope.
Open Scope rust_scope.

Section StoreTheorems.
Context {R : RigTypes} {CC : ContentCodec R} {JT : JsonText}.

Lemma run_op_wf op s : state_wf (jsonl_state s) -> state_wf (jsonl_state (run_op op s).2).
Proof.
  intros Hwf. destruct (run_op_effect op s) as [Hf Hs|v m Hv _ Hs|v m e _ _ Hs|r _ Hs];
    rewrite Hs; try done. by eapply validated_commit_wf.
Qed.

Lemma run_ops_wf ops s : state_wf (jsonl_state s) -> state_wf (jsonl_state (run_ops ops s)).
Proof.
  revert s. induction ops as [|op ops IH]; intros s Hs; [done|]. by apply IH, run_op_wf.
Qed.

(** C1: a session created in the store, driven by any sequence of operations
    whose writes succeed, leaves a file that loads back to exactly the state the
    live session holds, under the header it was created with. *)
Theorem created_session_reloads options owner f t f' ops :
  create_with options owner f = (Ok t, f') -> never_fails (jsonl_file t) ->
  exists h, load (disk (jsonl_file (run_ops ops t)))
      = Ok (h, jsonl_state (run_ops ops t), Whole) /\
    v4_id h = create_session_id options /\ v4_cwd h = create_cwd options /\
    v4_parent_session_id h = create_parent_session_id options /\ v4_ownership h = owner.
Proof.
  intros Hc Hnf. destruct (create_log_ok _ _ _ _ _ Hc) as (at_ms & Hlog & _).
  destruct (run_ops_log_ok ops t _ _ Hnf Hlog) as [ws Hws].
  eexists. split; [by eapply log_ok_loads|done].
Qed.

(** C2: however an operation on a stored session is interrupted -- any prefix
    of its line on disk, any write or sync refused -- and with files that can
    be reached again: if what is left is UTF-8, opening the file succeeds, leaves a whole log, and gives the state
    before the operation or that state with the one mutation, and an
    acknowledged operation is never lost; if it is not, because the line was cut
    inside a character, opening fails and leaves every file as it is. *)
Theorem crash_recovery op s h vs f path (left_on_disk := disk (jsonl_file (run_op op s).2)) :
  log_ok s h vs -> healthy f -> files f !! path = Some left_on_disk ->
  (utf8_valid left_on_disk = true ->
   exists t f' ws, open path f = (Ok t, f') /\ log_ok t h ws /\
    files f' !! path = Some (log_text h ws) /\
    (jsonl_state t = jsonl_state s \/
     exists v m, validate (jsonl_state s) v = Ok m /\
       jsonl_state t = commit (jsonl_state s) m) /\
    (is_ok (run_op op s).1 = true -> jsonl_state t = jsonl_state (run_op op s).2)) /\
  (utf8_valid left_on_disk = false -> exists f', open path f = (Err Io, f') /\ files f' = files f).
Proof.
  subst left_on_disk. intros Hlog Hf Hfile. split; intros Hutf.
  2:{ destruct (fs_call_healthy f Hf) as (f1 & Hc & Hs & _). exists f1. split; [|done].
      unfold open, read_to_string. unfold m_bind at 1. rewrite (m_bind_ok _ _ _ _ _ Hc).
      unfold file_content, m_bind. rewrite Hs, Hfile. cbn. by rewrite Hutf. }
  destruct (effect_load _ _ _ _ _ Hlog (run_op_effect op s))
    as (tail & ws & st & Hload & Hrep & Hst & Hws & Hack).
  destruct (open_healthy _ _ _ _ _ _ Hf Hfile Hutf Hload) as (t & f' & Ho & Hopened).
  rewrite Hrep in Hopened. exists t, f', ws.
  assert (log_ok t h ws) as Ht.
  { eapply opened_log_ok; [apply Hlog|exact Hst|exact Hopened]. }
  destruct Hopened as [_ _ Hstate _ _ _ Hfile' _]. rewrite Hstate.
  split; [done|]. split; [done|]. split; [done|]. split; [|done].
  destruct Hlog as [_ _ _ Hreplay]. destruct Hws as [->|[v ->]].
  - left. congruence.
  - right. rewrite replay_values_app, Hreplay in Hst. cbn [result_bind replay_values] in Hst.
    unfold apply_loaded_mutation in Hst. exists v.
    destruct (validate (jsonl_state s) v) as [m|e] eqn:Hv; [|done].
    exists m. split; [done|]. by injection Hst as <-.
Qed.

(** C5: whatever text was loaded and whatever the operations and the disk do
    afterwards, the projection stays well formed: distinct entries, every
    parent, lane and label naming an entry of the log, parents before children,
    distinct record identifiers, sequences strictly increasing. *)
Theorem projection_stays_well_formed content h st tail s ops :
  load content = Ok (h, st, tail) -> jsonl_state s = st ->
  state_wf (jsonl_state (run_ops ops s)).
Proof. intros [Hwf _]%load_inv <-. by apply run_ops_wf. Qed.

(** The parent walk of [branch] ends on every state, and on a well-formed
    one it gives the chain from the root to the leaf, or says the leaf is
    unknown; its cycle error is unreachable. *)
Theorem branch_walk st leaf :
  is_Some (branch_loop (branch_fuel st) st ∅ (Some leaf) []) /\
  (state_wf st ->
   match state_entries st !! leaf with
   | Some _ => exists p, state_branch st leaf = Ok p /\ ancestors st (Some leaf) p
   | None => state_branch st leaf = Err (EntryNotFound leaf)
   end).
Proof.
  split; [apply state_branch_fuel|]. intros Hwf.
  destruct (state_entries st !! leaf) eqn:He; [by apply state_branch_exists; [|eexists]|].
  unfold state_branch, branch_fuel. simpl. by rewrite He.
Qed.

(** Appending an entry to a well-formed session either extends exactly the
    named lane by the entry -- its own identifier, kind and payload, every
    other lane, branch and entry as before -- or is refused with no lane,
    branch or entry changed. *)
Theorem append_entry_extends_lane (s : JsonlSessionStore) l new payload :
  state_wf (jsonl_state s) ->
  new_entry_payload new = JObject payload -> disjoint_keys entry_fields payload ->
  exists b, lane_branch s l = Ok b /\
  match append_entry l new s with
  | (Ok x, s') =>
      entry_id x = new_entry_id new /\ entry_kind x = new_entry_kind new /\
      entry_payload x = payload /\
      lane_branch s' l = Ok (b ++ [x])%list /\
      (forall l', l' <> l -> lane s' l' = lane s l') /\
      (forall leaf b', branch s leaf = Ok b' -> branch s' leaf = Ok b') /\
      (forall i, get_entry s' i = if decide (i = entry_id x) then Some x else get_entry s i)
  | (Err _, s') => same_tree s s'
  end.
Proof.
  intros Hwf Hp Hd.
  assert (exists b, lane_branch s l = Ok b) as [b Hb].
  { unfold lane_branch. destruct (lane s l) as [leaf|] eqn:Hleaf; [|by eexists].
    pose proof (lane_branch_ok s l leaf Hwf Hleaf) as Hok.
    destruct (branch s leaf) as [b|]; [by exists b|done]. }
  exists b. split; [done|]. destruct (append_entry l new s) as [[x|e] s'] eqn:Ha.
  - destruct (append_entry_law _ _ _ _ _ _ _ Hwf Hp Hd Hb Ha)
      as (? & ? & ? & _ & ? & ? & ? & ?). done.
  - exact (append_entry_fails s l new e s' Hwf Ha).
Qed.

(** Renaming a session that is not loaded, by scanning for the last line,
    has the result and leaves the file of the default that opens, replays,
    names and syncs; and the file it leaves loads with the new name. *)
Theorem rename_without_replay f path n h vs st :
  healthy f -> is_v4 h = true -> replay_values new_state vs = Ok st ->
  files f !! path = Some (log_text h vs) ->
  (Z.of_nat (String.length (log_text h vs)) <= u64_max)%Z ->
  exists r f1 f2 text, set_name_at path n f = (r, f1) /\ set_name_at_default path n f = (r, f2) /\
    files f1 !! path = Some text /\ files f2 !! path = Some text /\
    match candidate_sequence st with
    | Err e => r = Err e /\ text = log_text h vs
    | Ok q => r = Ok tt /\ exists st', load text = Ok (h, st', Whole) /\
        state_name st' = n /\ named st' = true /\ lanes st' = lanes st /\
        state_entries st' = state_entries st /\ state_records st' = state_records st
    end.
Proof.
  intros Hf Hh Hst Hfile Hsize.
  destruct (set_name_at_log f path n h vs st Hf Hh Hst Hfile Hsize) as (r1 & f1 & H1 & Hr1).
  destruct (set_name_at_default_log f path n h vs st Hf Hh Hst Hfile) as (r2 & f2 & H2 & Hr2).
  destruct (candidate_sequence st) as [q|e] eqn:Hq.
  - destruct Hr1 as [-> Hf1], Hr2 as [-> Hf2].
    exists (Ok tt), f1, f2, (log_text h (vs ++ [to_value (name_fact q n)])%list).
    split; [done|]. split; [done|]. split; [done|]. split; [done|]. split; [done|].
    eexists. split.
    + apply load_log; [done|]. eapply replay_snoc; [done|]. by apply validate_name_ok.
    + done.
  - destruct Hr1 as [-> Hf1], Hr2 as [-> Hf2].
    exists (Err e), f1, f2, (log_text h vs). done.
Qed.

(** The backward scan with widening windows ends, and finds the sequence on
    the last complete line of any text; on the log of a session that is the
    session's last sequence. *)
Theorem backward_scan content :
  (Z.of_nat (String.length content) <= u64_max)%Z ->
  text_last_sequence content = last_line_sequence content /\
  forall h vs st, content = log_text h vs -> replay_values new_state vs = Ok st ->
    text_last_sequence content = if decide (vs = []) then None else Some (next_sequence st).
Proof.
  intros Hl. pose proof (text_last_sequence_spec content Hl) as Hs. split; [done|].
  intros h vs st -> Hst. rewrite Hs. by apply log_last_sequence.
Qed.

(** The name a listing shows, found by looking at lines alone, is the name
    a replay of the log ends with, and the rest of the row is the header's. *)
Theorem listed_name f path h vs st :
  healthy f -> is_jsonl path = true -> is_v4 h = true ->
  replay_values new_state vs = Ok st -> files f !! path = Some (log_text h vs) ->
  exists f' row, list_file path f = (Ok [row], f') /\ files f' = files f /\
    metadata_name row = state_name st /\ metadata_id row = v4_id h /\
    metadata_path row = path /\ metadata_ownership row = v4_ownership h /\
    metadata_parent_session_id row = v4_parent_session_id h.
Proof.
  intros Hf Hj Hh Hst Hfile.
  destruct (list_file_log f path h vs st Hf Hj Hh Hst Hfile) as (f' & modified & Hl & Hs & _).
  eexists f', _. split; [exact Hl|done].
Qed.

(** A fork that succeeds holds, on its lane, copies of exactly the branch
    that ends in the chosen entry of the source -- identifiers, kinds and
    payloads unchanged; the ancestor loop, which has no cycle check, ends. *)
Theorem fork_copies source options f t f' :
  fork source options f = (Ok t, f') ->
  exists content h st tail b b',
    files f !! source = Some content /\ load content = Ok (h, st, tail) /\
    fork_loop (branch_fuel st) st (Some (source_leaf options)) [] = Some (Ok b) /\
    state_branch st (source_leaf options) = Ok b /\
    lane_branch t (fork_lane options) = Ok b' /\ Forall2 same_content b b'.
Proof.
  intros Hfork.
  destruct (fork_copies_branch _ _ _ _ _ Hfork) as (content & h & st & tail & b & b' & Hc & Hl & Hb & H).
  exists content, h, st, tail, b, b'. split; [done|]. split; [done|]. split; [|by split].
  pose proof (load_inv _ _ _ _ Hl) as [Hwf _]. by rewrite fork_loop_branch, Hb.
Qed.

(** Looking a session up by identity answers with a log of that identity,
    and answers none only when no session directory holds one, wherever its
    file name disagrees with its header. *)
Theorem header_finds_session id f r f' :
  healthy f -> header id f = (Ok r, f') ->
  files f' = files f /\
  match r with
  | Some x => header_id x = id /\ exists h, session_file f (header_path x) h /\ v4_id h = id
  | None => forall path h, session_file f path h -> v4_id h <> id
  end.
Proof. intros Hf Hh. by destruct (header_lookup id f r f' Hf Hh) as [[Hs _] Hr]. Qed.

(** Deleting a session removes every log of that identity and leaves every
    other file of the store alone. *)
Theorem delete_is_exact id f f' :
  healthy f -> delete_session id f = (Ok tt, f') ->
  (forall path h, session_file f path h -> v4_id h = id -> files f' !! path = None) /\
  (forall path, (forall h, session_file f path h -> v4_id h <> id) ->
    files f' !! path = files f !! path).
Proof. apply delete_session_files. Qed.

Lemma candidate_sequence_cases st :
  state_wf st ->
  match candidate_sequence st with
  | Ok q => (sequence_get q = next_sequence st + 1)%Z /\ (next_sequence st < MAX_SAFE_INTEGER)%Z
  | Err e => e = SequenceExhausted /\ (MAX_SAFE_INTEGER <= next_sequence st)%Z
  end.
Proof.
  intros Hwf. pose proof (wf_sequence _ Hwf) as Hn. unfold candidate_sequence, u64_checked_add.
  destruct (Z.leb_spec (next_sequence st + 1) u64_max) as [Hle|Hgt]; cbn [ok_or result_bind].
  - destruct (sequence_in_range (next_sequence st + 1)) eqn:Hr.
    + destruct (sequence_try_from_in _ Hr) as (q & -> & Hq). cbn [map_err].
      apply andb_true_iff in Hr as [_ Hr%Z.leb_le]. split; [done|lia].
    + rewrite sequence_try_from_out by done. cbn [map_err].
      apply andb_false_iff in Hr as [Hr%Z.leb_gt|Hr%Z.leb_gt]; split; try done; lia.
  - split; [done|]. unfold u64_max, MAX_SAFE_INTEGER in *. lia.
Qed.

(** Every mutation needs a sequence before it touches anything. *)
Lemma exhausted_refuses (s : JsonlSessionStore) e op :
  candidate_sequence (jsonl_state s) = Err e -> op <> OpSync ->
  is_ok (run_op op s).1 = false /\ (run_op op s).2 = s.
Proof.
  intros Hc Hop. destruct op; try done; simpl; unfold m_bind, jsonl_create_lane, jsonl_move_lane,
    jsonl_append_entry, jsonl_append_record, jsonl_set_name, jsonl_set_label; rewrite ?Hc;
    repeat case_match; simplify_eq; done.
Qed.

(** C12: the sequence given to a mutation is one past the session's last and
    never leaves the range JavaScript numbers hold; past that range every
    mutating operation is refused and neither the file nor the state changes. *)
Theorem sequence_bounds (s : JsonlSessionStore) :
  state_wf (jsonl_state s) ->
  match candidate_sequence (jsonl_state s) with
  | Ok q => (sequence_get q = next_sequence (jsonl_state s) + 1)%Z /\
      (next_sequence (jsonl_state s) < MAX_SAFE_INTEGER)%Z
  | Err e => e = SequenceExhausted /\ (MAX_SAFE_INTEGER <= next_sequence (jsonl_state s))%Z /\
      forall op, op <> OpSync -> is_ok (run_op op s).1 = false /\
        jsonl_file (run_op op s).2 = jsonl_file s /\ jsonl_state (run_op op s).2 = jsonl_state s
  end.
Proof.
  intros Hwf. pose proof (candidate_sequence_cases _ Hwf) as Hc.
  destruct (candidate_sequence (jsonl_state s)) as [q|e] eqn:Hq; [done|].
  destruct Hc as [-> Hn]. split; [done|]. split; [done|]. intros op Hop.
  by destruct (exhausted_refuses s _ op Hq Hop) as [-> ->].
Qed.

(** C13: the lines the store writes read back as what was written: the v4
    header; the mutations of lanes, and of entries and records whose payload
    keeps off the fields the line flattens it among; and the facts, a name or a
    label of an entry the session has, which the next line's validation takes
    for the name or the label that was set. *)
Theorem stored_lines_roundtrip :
  (forall h : V4Header, is_v4 h = true -> from_text (print (to_value h)) = Ok h) /\
  (forall m : LaneMutation, from_text (print (to_value m)) = Ok m) /\
  (forall m : EntryMutation, disjoint_keys entry_fields (entry_payload (em_entry m)) ->
    from_text (print (to_value m)) = Ok m) /\
  (forall m : RecordMutation, disjoint_keys record_fields (record_payload (rm_record m)) ->
    from_text (print (to_value m)) = Ok m) /\
  (forall st q n, candidate_sequence st = Ok q ->
    exists v, parse (print (to_value (name_fact q n))) = Some v /\ validate st v = Ok (VName (sequence_get q) n)) /\
  (forall st q target label, candidate_sequence st = Ok q -> contains (state_entries st) target = true ->
    exists v, parse (print (to_value {| lf_kind := MutFact; lf_sequence := q; lf_fact := FactLabel;
                                        lf_target_id := target; lf_label := label |})) = Some v /\
      validate st v = Ok (VLabel (sequence_get q) target label)).
Proof.
  split; [apply header_line_loads|]. split_and!.
  - intros m. rewrite from_text_print. apply from_to_value.
  - intros m. rewrite from_text_print. apply entry_mutation_roundtrip.
  - intros m. rewrite from_text_print. apply record_mutation_roundtrip.
  - intros st q n Hq. eexists. split; [apply parse_print|by apply validate_name_ok].
  - intros st q target label Hq Ht. eexists. split; [apply parse_print|by apply validate_label_ok].
Qed.

End StoreTheorems.

(** ** The theorems at concrete sessions *)

Definition failing_flush (n : nat) : io_event :=
  match n with O => IoFailed 4000 0 | _ => IoDone end.

(** A flush that fails leaves its line in the writer's buffer.  A session
    that carries on gives the next mutation the same sequence, both lines reach
    the disk, and the file no longer loads although the live session is fine. *)
Example failed_flush_then_retry :
  let s := run_ops [OpAppendEntry main_lane (custom_entry entry_a);
                    OpAppendEntry main_lane (custom_entry entry_b)]
             (sample_store failing_flush) in
  is_ok (branch s entry_b) = true /\ is_ok (load (disk (jsonl_file s))) = false.
Proof. split; vm_compute; reflexivity. Qed.

Definition sample_options : SessionCreateOptions :=
  {| create_session_id := sample_session; create_cwd := "/work";
     create_parent_session_id := None |}.
Definition empty_factory : JsonlStoreFactory := sample_factory ∅ ∅.
Definition sample_ops : list store_op :=
  [OpAppendEntry main_lane (custom_entry entry_a); OpSetName (Some "demo");
   OpAppendEntry main_lane (custom_entry entry_b); OpMoveLane main_lane (Some entry_a); OpSync].

Lemma sample_files m d : files (sample_factory m d) = m.
Proof. done. Qed.
Lemma empty_factory_healthy m d : healthy (sample_factory m d).
Proof. by split. Qed.

Definition state_of {A} (r : result A StoreError * JsonlStoreFactory) (d : A) : A :=
  match r.1 with Ok a => a | Err _ => d end.
Lemma state_of_ok {A} (r : result A StoreError * JsonlStoreFactory) d :
  is_ok r.1 = true -> r = (Ok (state_of r d), r.2).
Proof. by destruct r as [[a|e] f]. Qed.
Definition created : JsonlSessionStore :=
  state_of (create_with sample_options None empty_factory) (sample_store (fun _ => IoDone)).

Lemma created_session_reloads_witness : exists h,
  load (disk (jsonl_file (run_ops sample_ops created)))
    = Ok (h, jsonl_state (run_ops sample_ops created), Whole) /\
  entry_order (jsonl_state (run_ops sample_ops created)) = [entry_a; entry_b].
Proof.
  destruct (created_session_reloads sample_options None empty_factory created
    (create_with sample_options None empty_factory).2 sample_ops) as (h & Hl & _).
  - apply state_of_ok. vm_compute. reflexivity.
  - intros n. vm_compute. reflexivity.
  - exists h. split; [exact Hl|vm_compute; reflexivity].
Defined.

Lemma sample_log_ok io : log_ok (sample_store io) sample_header [].
Proof.
  split; [done| |done|done]. unfold log_text, log_lines. simpl. by rewrite string_app_nil_r.
Qed.

(** A write of which twenty bytes reach the disk. *)
Definition torn_write (n : nat) : io_event := IoFailed 20 20.
Definition torn_store : JsonlSessionStore :=
  (run_op (OpAppendEntry main_lane (custom_entry entry_a)) (sample_store torn_write)).2.
Definition torn_path : string := "/s/--work--/1_session-1.jsonl".

Lemma crash_recovery_witness :
  is_ok (load (disk (jsonl_file torn_store))) = true /\
  exists t f' ws,
    open torn_path (sample_factory {[ torn_path := disk (jsonl_file torn_store) ]} ∅)
      = (Ok t, f') /\ log_ok t sample_header ws.
Proof.
  split; [vm_compute; reflexivity|].
  destruct (crash_recovery (OpAppendEntry main_lane (custom_entry entry_a))
    (sample_store torn_write) sample_header []
    (sample_factory {[ torn_path := disk (jsonl_file torn_store) ]} ∅) torn_path)
    as [Hgood _].
  - apply sample_log_ok.
  - apply empty_factory_healthy.
  - rewrite sample_files. apply lookup_singleton_eq.
  - destruct Hgood as (t & f' & ws & Ho & Hlog & _); [vm_compute; reflexivity|].
    exists t, f', ws. split; [exact Ho|exact Hlog].
Defined.

(** A label and an entry of the sample session, read back from their lines. *)
Definition labelled_state : SessionState :=
  jsonl_state (run_op (OpAppendEntry main_lane (custom_entry entry_a)) (sample_store (fun _ => IoDone))).2.
Definition second_sequence : Sequence := MkSequence 2 I.

Lemma stored_lines_roundtrip_witness :
  contains (state_entries labelled_state) entry_a = true /\
  from_text (print (to_value sample_header)) = Ok sample_header /\
  exists v, parse (print (to_value {| lf_kind := MutFact; lf_sequence := second_sequence;
                                      lf_fact := FactLabel; lf_target_id := entry_a;
                                      lf_label := Some "kept" |})) = Some v /\
    validate labelled_state v = Ok (VLabel 2 entry_a (Some "kept")).
Proof.
  split; [vm_compute; reflexivity|].
  destruct stored_lines_roundtrip as (Hheader & _ & _ & _ & _ & Hlabel). split.
  - apply Hheader. reflexivity.
  - apply (Hlabel labelled_state second_sequence); vm_compute; reflexivity.
Defined.

Lemma projection_stays_well_formed_witness :
  state_wf (jsonl_state (run_ops sample_ops (sample_store failing_flush))).
Proof.
  eapply projection_stays_well_formed; [|reflexivity].
  apply (log_ok_loads _ _ _ (sample_log_ok failing_flush)).
Defined.

Lemma append_entry_extends_lane_witness :
  is_ok (append_entry main_lane (custom_entry entry_a) (sample_store (fun _ => IoDone))).1 = true /\
  exists b, lane_branch (sample_store (fun _ => IoDone)) main_lane = Ok b.
Proof.
  split; [vm_compute; reflexivity|].
  destruct (append_entry_extends_lane (sample_store (fun _ => IoDone)) main_lane
    (custom_entry entry_a) {[ "data" := JNull ]}) as (b & Hb & _).
  - apply new_state_wf.
  - reflexivity.
  - repeat constructor.
  - exists b. exact Hb.
Defined.

(** A log with one name fact. *)
Definition first_sequence : Sequence := MkSequence 1 I.
Definition named_log : list json := [to_value (name_fact first_sequence (Some "old"))].
Definition named_state : SessionState := commit new_state (VName 1 (Some "old")).
Definition named_factory : JsonlStoreFactory :=
  sample_factory {[ torn_path := log_text sample_header named_log ]} {[ "/s"; "/s/--work--" ]}.

Lemma named_replay : replay_values new_state named_log = Ok named_state.
Proof.
  apply (replay_snoc [] _ new_state); [done|].
  apply (validate_name_ok new_state first_sequence (Some "old")). reflexivity.
Qed.

Lemma rename_without_replay_witness :
  text_last_sequence (log_text sample_header named_log) = Some 1%Z /\
  exists r f1 f2 text, set_name_at torn_path (Some "new") named_factory = (r, f1) /\
    set_name_at_default torn_path (Some "new") named_factory = (r, f2) /\
    files f1 !! torn_path = Some text /\ files f2 !! torn_path = Some text.
Proof.
  split; [vm_compute; reflexivity|].
  destruct (rename_without_replay named_factory torn_path (Some "new") sample_header named_log
    named_state) as (r & f1 & f2 & text & H1 & H2 & H3 & H4 & _).
  - apply empty_factory_healthy.
  - reflexivity.
  - apply named_replay.
  - unfold named_factory. rewrite sample_files. apply lookup_singleton_eq.
  - vm_compute. discriminate.
  - exists r, f1, f2, text. split; [exact H1|]. split; [exact H2|]. split; [exact H3|exact H4].
Defined.

Lemma backward_scan_witness :
  text_last_sequence (log_text sample_header named_log) =
    last_line_sequence (log_text sample_header named_log) /\
  last_line_sequence (log_text sample_header named_log) = Some 1%Z.
Proof.
  split; [apply backward_scan; vm_compute; discriminate|vm_compute; reflexivity].
Defined.

Lemma listed_name_witness : exists f' row,
  list_file torn_path named_factory = (Ok [row], f') /\ metadata_name row = Some "old".
Proof.
  destruct (listed_name named_factory torn_path sample_header named_log named_state)
    as (f' & row & Hl & _ & Hn & _).
  - apply empty_factory_healthy.
  - vm_compute. reflexivity.
  - reflexivity.
  - apply named_replay.
  - unfold named_factory. rewrite sample_files. apply lookup_singleton_eq.
  - exists f', row. split; [exact Hl|exact Hn].
Defined.

(** A store holding a session with two entries, to fork, find and delete. *)
Definition grown : JsonlSessionStore := run_ops sample_ops (sample_store (fun _ => IoDone)).
Definition grown_factory : JsonlStoreFactory :=
  sample_factory {[ torn_path := disk (jsonl_file grown) ]} {[ "/s"; "/s/--work--" ]}.
Definition fork_options : SessionForkOptions :=
  {| fork_create := {| create_session_id := MkId "session-2" I; create_cwd := "/work";
                       create_parent_session_id := None |};
     source_leaf := entry_b; fork_lane := main_lane |}.

Lemma fork_copies_witness : exists t f' b b',
  fork torn_path fork_options grown_factory = (Ok t, f') /\
  lane_branch t main_lane = Ok b' /\ Forall2 same_content b b' /\ length b' = 2.
Proof.
  assert (fork torn_path fork_options grown_factory =
    (Ok (state_of (fork torn_path fork_options grown_factory) grown),
     (fork torn_path fork_options grown_factory).2)) as Hf
    by (apply state_of_ok; vm_compute; reflexivity).
  destruct (fork_copies _ _ _ _ _ Hf) as (c & h & st & tail & b & b' & _ & _ & _ & _ & Hb' & Hs).
  exists (state_of (fork torn_path fork_options grown_factory) grown),
    (fork torn_path fork_options grown_factory).2, b, b'.
  split; [exact Hf|]. split; [exact Hb'|]. split; [exact Hs|].
  assert (result_map length (lane_branch
    (state_of (fork torn_path fork_options grown_factory) grown) main_lane) = Ok 2) as Hlen
    by (vm_compute; reflexivity).
  change (fork_lane fork_options) with main_lane in Hb'. rewrite Hb' in Hlen.
  by injection Hlen.
Defined.

Lemma header_finds_session_witness : exists x,
  (header sample_session grown_factory).1 = Ok (Some x) /\ header_id x = sample_session.
Proof.
  destruct (header sample_session grown_factory) as [r f'] eqn:Hh.
  assert (result_map (option_map header_path) (header sample_session grown_factory).1
    = Ok (Some torn_path)) as Hok by (vm_compute; reflexivity).
  rewrite Hh in Hok. destruct r as [[x|]|e]; [|discriminate Hok|discriminate Hok].
  exists x. split; [reflexivity|].
  destruct (header_finds_session sample_session grown_factory (Some x) f'
    (empty_factory_healthy _ _) Hh) as (_ & Hx & _). exact Hx.
Defined.

Lemma delete_is_exact_witness :
  files grown_factory !! torn_path <> None /\
  forall h, session_file grown_factory torn_path h -> v4_id h = sample_session ->
    files (delete_session sample_session grown_factory).2 !! torn_path = None.
Proof.
  split; [unfold grown_factory; rewrite sample_files, lookup_singleton_eq; discriminate|].
  intros h Hs Hid.
  destruct (delete_session sample_session grown_factory) as [r f'] eqn:Hd.
  assert (is_ok (delete_session sample_session grown_factory).1 = true) as Hok
    by (vm_compute; reflexivity).
  rewrite Hd in Hok. destruct r as [[]|e]; [|discriminate Hok].
  exact (proj1 (delete_is_exact sample_session grown_factory f'
    (empty_factory_healthy _ _) Hd) torn_path h Hs Hid).
Defined.

Lemma sequence_bounds_witness :
  (sequence_get first_sequence = next_sequence (jsonl_state (sample_store failing_flush)) + 1)%Z.
Proof.
  pose proof (sequence_bounds (sample_store failing_flush) new_state_wf) as H.
  change (candidate_sequence (jsonl_state (sample_store failing_flush)))
    with (Ok (E := StoreError) first_sequence) in H. apply H.
Defined.
