(* ===== verification/TranscriptTheorems.v ===== *)
(** What a session's transcript promises: model context is always what the store
    rebuilds to, also across failed calls and tree navigation; uncertain writes
    latch; default names never overwrite a name. *)

From S2P Require Import Prelude Lines Scalar Json Message StoreModel StoreState StoreSession.
From S2P Require Import StoreInv StoreLaws StoreFactory StoreLog ToolContract KernelErrors Plan.
From S2P Require Import Replay Transcript Aligned.
From S2P Require Import Samples RunSamples.
Open Scope string_scope.
Open Scope rust_scope.

Section TranscriptTheorems.
Context {R : RigTypes} {CC : ContentCodec R}.
Context {S : Type} `{SessionStoreLaws S}.
Abbreviation T := (SessionTranscript R S).

(** C3: over any store that keeps its interface's laws, after any operations on
    a restored transcript -- whichever of them fail, and wherever in their
    sequence of store calls -- rebuilding from the store gives exactly the
    messages and the held notes the live context holds. *)
Theorem live_context_is_rebuild (s : S) l dlg (t : T) ops :
  store_wf s -> restored s l dlg = Ok t -> Forall transcript_op_ok ops ->
  exists r, rebuilt (run_transcript_ops ops t) = Ok r /\
    rebuilt_messages r = history (run_transcript_ops ops t) /\
    rebuilt_notes r = notes (run_transcript_ops ops t).
Proof.
  intros Hwf Hr Hops.
  pose proof (run_transcript_ops_aligned ops t Hops (restored_aligned s l dlg t Hwf Hr))
    as [_ (r & Hreb & Hm & Hn)].
  by exists r.
Qed.

(** C8: tree navigation, with its rollbacks, ends with live context equal to
    what the store rebuilds to, or on a lane no rebuild can read; a navigation
    that reports success is always the former. *)
Theorem navigation_settles (t : T) c :
  aligned t ->
  settled (clear_navigation t).2 /\ settled (commit_navigation c t).2 /\
  (forall res, (commit_navigation c t).1 = Ok res -> aligned (commit_navigation c t).2).
Proof.
  intros Ht. split; [by apply clear_navigation_settled|]. by apply commit_navigation_settled.
Qed.

Lemma run_op_frozen op (t : T) :
  store_wf (transcript_store t) -> latched t = true ->
  latched (run_transcript_op op t).2 = true /\
  store_wf (transcript_store (run_transcript_op op t).2) /\
  same_tree (transcript_store t) (transcript_store (run_transcript_op op t).2) /\
  history (run_transcript_op op t).2 = history t /\
  records (transcript_store (run_transcript_op op t).2) = records (transcript_store t).
Proof.
  intros Hwf Ht. destruct (gated op) eqn:Hg.
  - destruct (gated_refuses op Hg t Ht) as [e ->]. done.
  - destruct op; try done; simpl.
    unfold transcript_sync, store_call.
    pose proof (sync_tree (transcript_store t)) as Hs.
    pose proof (sync_records (transcript_store t)) as Hr.
    pose proof (sync_wf _ Hwf) as Hw.
    by destruct (sync (transcript_store t)) as [r s].
Qed.

(** C9: once a transcript is sealed, or a commit left the store uncertain, every
    writing operation and every navigation is refused with nothing changed, and
    no sequence of operations changes a branch, a record or the live context
    again. *)
Theorem latched_transcript_is_frozen (t : T) :
  store_wf (transcript_store t) -> latched t = true ->
  (forall op, gated op = true -> exists e, run_transcript_op op t = (Err e, t)) /\
  (exists e, clear_navigation t = (Err e, t)) /\
  (forall c, exists e, commit_navigation c t = (Err e, t)) /\
  (forall ops, let t' := run_transcript_ops ops t in
    latched t' = true /\ same_tree (transcript_store t) (transcript_store t') /\
    history t' = history t /\ records (transcript_store t') = records (transcript_store t)).
Proof.
  intros Hwf Ht. split; [intros op Hop; by apply gated_refuses|].
  split; [by apply navigation_refuses|]. split; [intros c; by apply navigation_refuses|].
  intros ops. simpl. revert t Hwf Ht. induction ops as [|op ops IH]; intros t Hwf Ht; [done|].
  destruct (run_op_frozen op t Hwf Ht) as (Hl & Hw & Hs & Hh & Hr).
  destruct (IH _ Hw Hl) as (Hl' & Hs' & Hh' & Hr'). simpl. rewrite Hh', Hr', Hh, Hr.
  split; [done|]. split; [by etrans|done].
Qed.

(** A default name is given once: a session named by anyone keeps its name,
    and after a default name was set no later default replaces it. *)
Theorem default_name_once n (t : T) r t' :
  latched t = false -> set_default_name n t = (Ok r, t') ->
  (was_named (transcript_store t) = true /\ r = None /\ t' = t \/
   was_named (transcript_store t) = false /\ r = Some n /\
   name (transcript_store t') = Some n) /\
  (forall m, set_default_name m t' = (Ok None, t')) /\
  history t' = history t /\ notes t' = notes t.
Proof.
  intros Hl Hs. pose proof (set_default_name_flags n t (Ok r) t' Hs) as [Hw' Hs'].
  assert (was_named (transcript_store t') = true ->
    forall m, set_default_name m t' = (Ok None, t')) as Hagain.
  { intros Hn m. unfold latched in Hl. apply orb_false_iff in Hl as [Hl1 Hl2].
    unfold set_default_name, m_bind, writable, m_get. by rewrite Hs', Hw', Hl1, Hl2, Hn. }
  destruct (set_default_name_spec _ _ _ _ Hl Hs)
    as [(Hn & -> & ->)|(Hn & -> & Hname & Hnamed & Hh & Hno)].
  - split; [by left|]. by split; [apply Hagain|].
  - split; [by right|]. by split; [apply Hagain|].
Qed.

End TranscriptTheorems.

(** ** The theorems at a concrete session *)

Definition sample_change : ModeChange :=
  {| change_mode := ModePlan; change_turn_id := sample_turn |}.
Definition sample_transcript_ops : list (transcript_op (R := sample_rig)) :=
  [TAppendMessage entry_a hello; TAppendModeNote entry_b sample_change;
   TSetDefaultName "hello"; TSync].

Lemma sample_ops_ok : Forall transcript_op_ok sample_transcript_ops.
Proof. by repeat constructor. Qed.

Lemma live_context_is_rebuild_witness :
  length (history (run_transcript_ops sample_transcript_ops
    (sample_transcript (fun _ => IoDone)))) = 2 /\
  exists r, rebuilt (run_transcript_ops sample_transcript_ops
      (sample_transcript (fun n => if Nat.eqb n 1 then IoFailed 3 3 else IoDone))) = Ok r.
Proof.
  split; [vm_compute; reflexivity|].
  destruct (live_context_is_rebuild (R := sample_rig)
    (sample_store (fun n => if Nat.eqb n 1 then IoFailed 3 3 else IoDone)) main_lane false
    (sample_transcript (fun n => if Nat.eqb n 1 then IoFailed 3 3 else IoDone))
    sample_transcript_ops (sample_store_wf _) (sample_restored _) sample_ops_ok) as (r & Hr & _).
  exists r. exact Hr.
Defined.

Lemma sample_aligned io : aligned (sample_transcript io).
Proof. by apply (restored_aligned _ _ _ _ (sample_store_wf _) (sample_restored io)). Qed.

Lemma navigation_settles_witness :
  settled (clear_navigation (sample_transcript (fun n => IoFailed 0 0))).2 /\
  is_ok (clear_navigation (sample_transcript (fun n => IoDone))).1 = true.
Proof.
  split; [|vm_compute; reflexivity].
  destruct (navigation_settles (sample_transcript (fun n => IoFailed 0 0))
    {| commit_new_leaf := None; commit_target := entry_a; commit_summary := None;
       commit_label := None |} (sample_aligned _)) as (Hs & _). exact Hs.
Defined.

Lemma latched_transcript_is_frozen_witness : exists e,
  run_transcript_op (TAppendMessage entry_a hello)
    (fail_writes (sample_transcript (fun _ => IoDone)))
  = (Err e, fail_writes (sample_transcript (fun _ => IoDone))).
Proof.
  destruct (latched_transcript_is_frozen (fail_writes (sample_transcript (fun _ => IoDone)))
    (sample_store_wf _) eq_refl) as (Hg & _). apply (Hg (TAppendMessage entry_a hello) eq_refl).
Defined.

Lemma default_name_once_witness :
  set_default_name "second" (set_default_name "first" (sample_transcript (fun _ => IoDone))).2
    = (Ok None, (set_default_name "first" (sample_transcript (fun _ => IoDone))).2).
Proof.
  destruct (set_default_name "first" (sample_transcript (fun _ => IoDone))) as [r t'] eqn:Hr.
  assert (is_ok (set_default_name "first" (sample_transcript (fun _ => IoDone))).1 = true) as Hok
    by (vm_compute; reflexivity).
  rewrite Hr in Hok. destruct r as [r|e]; [|discriminate Hok].
  destruct (default_name_once "first" (sample_transcript (fun _ => IoDone)) r t' eq_refl Hr)
    as (_ & Hm & _). exact (Hm "second").
Defined.
