(* ===== verification/PlanTheorems.v ===== *)
(** What plan mode and replay promise: notes never split a tool-call batch, the
    rebuilt context always tells the model the branch's mode, a plan is decided
    once, and replay comes out in log order. *)

From Stdlib Require Import Sorting.Sorted.
From S2P Require Import Prelude Scalar Json Message StoreModel StoreState StoreSession.
From S2P Require Import StoreFactory StoreLog ToolContract KernelErrors Plan Replay Transcript.
From S2P Require Import Aligned Samples.
Open Scope string_scope.
Open Scope rust_scope.

Section Modes.
Context {R : RigTypes} {CC : ContentCodec R}.
Abbreviation Message := (AgentMessage R).

Definition stated_modes (c : list Message) : list SessionMode := omap stated_mode c.

Lemma omap_reverse {A B} (f : A -> option B) l : omap f (reverse l) = reverse (omap f l).
Proof.
  induction l as [|x l IH]; [done|]. rewrite reverse_cons, omap_app, IH. simpl.
  destruct (f x); simpl; [by rewrite reverse_cons|by rewrite app_nil_r].
Qed.

(** The mode a context leaves is a matter of the modes it states, in order. *)
Lemma context_mode_stated (c c' : list Message) :
  stated_modes c = stated_modes c' -> context_mode c = context_mode c'.
Proof. unfold stated_modes, context_mode. intros H. by rewrite !omap_reverse, H. Qed.

Lemma push_modes ns h (m : Message) :
  stated_mode m = None ->
  stated_modes ((push ns h m).2 ++ deferred (push ns h m).1)%list
    = stated_modes (h ++ deferred ns)%list.
Proof.
  intros Hm. unfold push, stated_modes. destruct (is_result m); simpl.
  - destruct (awaiting_results _); simpl; rewrite !omap_app; simpl; rewrite Hm;
      by rewrite ?app_nil_r.
  - rewrite !omap_app. simpl. by rewrite Hm, !app_nil_r.
Qed.

Lemma place_modes ns h (n : Message) :
  notes_ok ns h ->
  stated_modes ((place ns h n).2 ++ deferred (place ns h n).1)%list
    = (stated_modes (h ++ deferred ns) ++ stated_modes [n])%list.
Proof.
  intros Hok. unfold place, stated_modes. destruct (awaiting_results h) eqn:Ha; simpl.
  - by rewrite !omap_app, app_assoc.
  - destruct Hok as [Hd|?]; [|congruence]. by rewrite Hd, !app_nil_r, omap_app.
Qed.

Lemma after_compaction_notes_ok n c id ns c' :
  after_compaction (R := R) n c notes_default id = Ok (ns, c') -> notes_ok ns c'.
Proof.
  unfold after_compaction. destruct (head c) as [s|]; [|by intros [= <- <-]; left].
  case_bool_decide; [by intros [= <- <-]; left|].
  destruct (note_message _ _ _ _) as [m|]; [|done]. intros [= Hp].
  pose proof (place_notes_ok notes_default c m) as H1. rewrite Hp in H1. apply H1. by left.
Qed.

(** Notes held only while due, and the context so far states the mode reached. *)
Definition states_mode (r : Rebuild R) : Prop :=
  notes_ok (rebuilt_notes r) (rebuilt_messages r) /\
  context_mode (rebuilt_messages r ++ deferred (rebuilt_notes r))%list = rebuilt_mode r.

(** No stored message poses as a mode note. *)
Definition no_posing (e : SessionEntry) : Prop :=
  entry_kind e = KindMessage -> forall m : Message, entry_message e = Ok m -> stated_mode m = None.

Lemma rebuild_message_states dlg (r r' : Rebuild R) e :
  no_posing e -> entry_kind e = KindMessage -> states_mode r ->
  rebuild_entry dlg r e = Ok r' -> states_mode r'.
Proof.
  intros Hno Hk [Hok Hm] Hr. unfold rebuild_entry in Hr. rewrite Hk in Hr.
  destruct (entry_message e) as [m|] eqn:He; [|done]. cbn [result_bind] in Hr.
  pose proof (push_notes_ok _ _ m Hok) as Hok'.
  pose proof (push_modes (rebuilt_notes r) (rebuilt_messages r) m (Hno Hk m He)) as Hp.
  destruct (push _ _ m) as [ns h]. injection Hr as <-. split; [done|]. simpl in *.
  rewrite <- Hm. by apply context_mode_stated.
Qed.

Lemma rebuild_compaction_states dlg (r r' : Rebuild R) e :
  rebuild_compaction dlg r e = Ok r' -> states_mode r'.
Proof.
  unfold rebuild_compaction. destruct (map_err _ _) as [data|]; [|done]. cbn [result_bind].
  destruct (compaction_context (entry_id e) data) as [c|] eqn:Hc; [|done]. cbn [result_bind].
  assert (c <> []) as Hne.
  { unfold compaction_context in Hc. destruct (ok_or _ _); [|done]. cbn [result_bind] in Hc.
    destruct (summary_message _ _ _); [|done]. by injection Hc as <-. }
  unfold clear. destruct (after_compaction_total
    {| note_mode := rebuilt_mode r; note_delegated := dlg |} c (entry_id e) Hne)
    as (ns & c' & Ha & Hmode & _).
  rewrite Ha. intros [= <-]. split; [|done]. by eapply after_compaction_notes_ok.
Qed.

Lemma rebuild_custom_states dlg (r r' : Rebuild R) e :
  states_mode r -> rebuild_custom dlg r e = Ok r' -> states_mode r'.
Proof.
  intros [Hok Hm]. unfold rebuild_custom. destruct (mode_from_entry e) as [c|]; [|by intros [= <-]].
  destruct (note_message _ _ _ _) as [m|] eqn:Hn; [|done]. cbn [result_bind].
  destruct (note_message_content _ _ _ _ _ Hn) as (Hs & _ & _).
  pose proof (place_notes_ok _ _ m Hok) as Hok'. pose proof (place_modes _ _ m Hok) as Hp.
  destruct (place _ _ m) as [ns h]. intros [= <-]. split; [done|]. simpl in *.
  rewrite (context_mode_stated _
    ((rebuilt_messages r ++ deferred (rebuilt_notes r)) ++ [m])%list).
  - by apply context_mode_snoc.
  - rewrite Hp. unfold stated_modes. by rewrite (omap_app _ _ [m]).
Qed.

Lemma rebuild_states dlg b (r r' : Rebuild R) :
  Forall no_posing b -> states_mode r -> rebuild dlg r b = Ok r' -> states_mode r'.
Proof.
  intros Hb. revert r. induction Hb as [|e b He _ IH]; intros r Hr H; [by injection H as <-|].
  simpl in H. destruct (rebuild_entry dlg r e) as [r1|] eqn:H1; [|done].
  apply (IH r1); [|done]. clear IH H. destruct (entry_kind e) eqn:Hk.
  - by eapply rebuild_message_states.
  - unfold rebuild_entry in H1. rewrite Hk in H1. by injection H1 as <-.
  - unfold rebuild_entry in H1. rewrite Hk in H1. by injection H1 as <-.
  - unfold rebuild_entry in H1. rewrite Hk in H1. by injection H1 as <-.
  - unfold rebuild_entry in H1. rewrite Hk in H1. by eapply rebuild_compaction_states.
  - unfold rebuild_entry in H1. rewrite Hk in H1. by injection H1 as <-.
  - unfold rebuild_entry in H1. rewrite Hk in H1. by eapply rebuild_custom_states.
Qed.

(** C6: the context rebuilt from a branch, with the notes it still holds,
    always leaves the model with the mode the branch is in -- through messages,
    switches in the middle of tool batches, and compactions that may have
    dropped the last note. *)
Theorem context_states_branch_mode dlg b (r : Rebuild R) :
  Forall no_posing b -> rebuild dlg rebuild_empty b = Ok r ->
  context_mode (rebuilt_messages r ++ deferred (rebuilt_notes r))%list = branch_mode b.
Proof.
  intros Hb Hr. rewrite <- (rebuild_mode _ _ _ Hr). eapply rebuild_states; [exact Hb| |exact Hr].
  split; [by left|done].
Qed.

(** C7: while a batch of tool calls has results to come, results go straight
    after their call whatever notes arrive among them, and the result that
    completes the batch releases every held note, in order, after it. *)
Theorem notes_never_split_batch ns h es (m : Message) :
  batch_ok es -> is_result m = true ->
  (forall es', es' `prefix_of` es -> awaiting_results (h ++ batch_results es')%list = true) ->
  awaiting_results (h ++ batch_results es ++ [m])%list = false ->
  batch_run (ns, h) es =
    ({| deferred := (deferred ns ++ batch_notes es)%list |}, (h ++ batch_results es)%list) /\
  batch_run (ns, h) (es ++ [BatchResult m])%list =
    (notes_default,
     (h ++ (batch_results es ++ [m]) ++ deferred ns ++ batch_notes es)%list).
Proof. intros He Hm Hw Hd. split; [by apply batch_waiting|by apply batch_complete]. Qed.

(** The mode a switch persists is the mode the branch is in after it,
    until a later switch; any other entry leaves the mode alone. *)
Theorem mode_switch_roundtrip b e c :
  (entry_kind e = KindCustom -> entry_payload e = mode_payload c ->
   branch_mode (b ++ [e])%list = change_mode c /\ mode_from_entry e = Some c) /\
  (is_mode_payload (entry_payload e) = false -> branch_mode (b ++ [e])%list = branch_mode b).
Proof.
  split.
  - intros Hk Hp. pose proof (mode_from_payload e c Hk Hp) as Hm. by rewrite branch_mode_snoc, Hm.
  - intros Hm. by rewrite branch_mode_snoc, mode_entry_payload.
Qed.

End Modes.

(** ** The plan waiting for approval *)

Inductive plan_op : Type :=
| PBegin (request : PlanApprovalRequest)
| PResolve (id : string) (decision : PlanApprovalDecision)
| PDropWait (id : string)
| PReplaceMode (m : SessionMode).

Definition run_plan_op (s : SessionPlanState) (op : plan_op) : SessionPlanState :=
  match op with
  | PBegin request => (begin request s).2
  | PResolve id decision => (resolve id decision s).2
  | PDropWait id => drop_wait id s
  | PReplaceMode m => replace_mode m s
  end.

Definition begun (op : plan_op) : option string :=
  match op with PBegin request => Some (request_id request) | _ => None end.

Definition decided (s : SessionPlanState) : list string := fst <$> delivered s.

Record plan_inv (seen : list string) (s : SessionPlanState) : Prop := {
  plan_once : NoDup (decided s);
  plan_seen : forall id, id ∈ decided s -> id ∈ seen;
  plan_pending : forall p, approval s = Some p ->
    receiver_open p = true /\ request_id (pending_request p) ∈ seen /\
    request_id (pending_request p) ∉ decided s
}.

Lemma names_spec id p : names id p = true <-> request_id (pending_request p) = id.
Proof. apply String.eqb_eq. Qed.

Lemma plan_begin_inv seen s request :
  plan_inv seen s -> request_id request ∉ seen ->
  plan_inv (seen ++ [request_id request])%list (begin request s).2.
Proof.
  intros [Hnd Hs Hp] Hr. unfold begin. destruct (approval s) as [p|] eqn:Ha; simpl.
  - split; [done|set_solver|]. intros p' Hp'. destruct (Hp p') as (? & ? & ?); [congruence|].
    split; [done|]. split; [set_solver|done].
  - split; [done|unfold decided, with_approval in *; simpl; set_solver|].
    intros p' [= <-]. unfold decided in *. simpl. split; [done|]. split; [set_solver|].
    intros Hin. by apply Hr, Hs.
Qed.

Lemma plan_resolve_inv seen s id d : plan_inv seen s -> plan_inv seen (resolve id d s).2.
Proof.
  intros Hinv. pose proof Hinv as [Hnd Hs Hp]. unfold resolve.
  destruct (approval s) as [p|] eqn:Ha; [|exact Hinv].
  destruct (Hp p eq_refl) as (Ho & Hseen & Hnot).
  destruct (names id p) eqn:Hn; [|exact Hinv].
  apply names_spec in Hn as <-. rewrite Ho. simpl.
  split; unfold decided in *; simpl; rewrite ?fmap_app; simpl.
  - apply NoDup_app. split; [done|]. split; [|apply NoDup_singleton].
    intros x Hx ->%list_elem_of_singleton. done.
  - intros x [Hx| ->%list_elem_of_singleton]%elem_of_app; [by apply Hs|done].
  - done.
Qed.

Lemma plan_op_inv seen s op :
  plan_inv seen s -> (forall id, begun op = Some id -> id ∉ seen) ->
  plan_inv (seen ++ match begun op with Some id => [id] | None => [] end)%list (run_plan_op s op).
Proof.
  intros Hs Hb. destruct op as [request|id d|id|m]; simpl; rewrite ?app_nil_r.
  - apply plan_begin_inv; [done|]. by apply Hb.
  - by apply plan_resolve_inv.
  - unfold drop_wait. destruct (approval s) as [p|]; [|done].
    destruct (names id p); [|done]. destruct Hs. by split.
  - destruct Hs. by split.
Qed.

Lemma plan_ops_inv ops seen s :
  plan_inv seen s -> NoDup (seen ++ omap begun ops)%list ->
  plan_inv (seen ++ omap begun ops)%list (foldl run_plan_op s ops).
Proof.
  revert seen s. induction ops as [|op ops IH]; intros seen s Hs Hnd; simpl in *.
  - by rewrite app_nil_r.
  - assert (plan_inv (seen ++ match begun op with Some id => [id] | None => [] end)%list
      (run_plan_op s op)) as Hs'.
    { apply plan_op_inv; [done|]. intros id Hid Hin. rewrite Hid in Hnd.
      apply NoDup_app in Hnd as (_ & Hdis & _). eapply Hdis; [exact Hin|apply list_elem_of_here]. }
    specialize (IH _ _ Hs'). destruct (begun op) as [id|].
    + rewrite <- app_assoc in IH. by apply IH.
    + rewrite app_nil_r in IH. by apply IH.
Qed.

(** However proposals, answers, dropped waits and mode changes interleave,
    a proposed plan receives at most one decision, only proposals receive any,
    and an answer is accepted exactly when it names the plan then waiting. *)
Theorem plan_decided_once m ops :
  NoDup (omap begun ops) ->
  let s := foldl run_plan_op (plan_state_new m) ops in
  NoDup (decided s) /\
  (forall id, id ∈ decided s -> id ∈ omap begun ops) /\
  (forall id d, is_ok (resolve id d s).1 = true <-> request_id <$> pending s = Some id).
Proof.
  intros Hnd. assert (plan_inv [] (plan_state_new m)) as H0.
  { split; simpl; [constructor|by intros ? ?%not_elem_of_nil|done]. }
  destruct (plan_ops_inv ops [] _ H0 Hnd) as [Hs Hseen Hp]. simpl.
  split; [done|]. split; [done|]. intros id d. unfold resolve, pending.
  destruct (approval _) as [p|] eqn:Ha; [|by split]. destruct (Hp p eq_refl) as (Ho & _).
  simpl. destruct (names id p) eqn:Hn.
  - apply names_spec in Hn as <-. rewrite Ho. by split.
  - split; [done|]. intros [= Hid]. apply names_spec in Hid. congruence.
Qed.

(** ** Replay *)

Section ReplayOrder.
Context {R : RigTypes} {CC : ContentCodec R}.
Context (resolve_window : string -> string -> option Z).
Context (turn_from_value : json -> result TurnRecord json_error).
Abbreviation Item := (Z * SessionReplayItem R)%type.

Definition in_order (x y : Item) : Prop := (x.1 <= y.1)%Z.

Lemma insert_sequenced_perm (x : Item) l : insert_sequenced x l ≡ₚ x :: l.
Proof.
  induction l as [|y l IH]; simpl; [done|]. destruct (x.1 <=? y.1)%Z; [done|].
  rewrite IH. apply Permutation_swap.
Qed.

Lemma insert_sequenced_sorted (x : Item) l :
  Sorted in_order l -> Sorted in_order (insert_sequenced x l).
Proof.
  induction 1 as [|y l Hs IH Hhd]; simpl; [by repeat constructor|].
  destruct (Z.leb_spec x.1 y.1) as [Hle|Hgt]; [by repeat constructor|].
  constructor; [done|]. destruct l as [|z l]; simpl; [constructor; unfold in_order; lia|].
  inversion Hhd; subst.
  destruct (x.1 <=? z.1)%Z; constructor; [unfold in_order; lia|done].
Qed.

Lemma sort_sequenced_spec (l : list Item) :
  Sorted in_order (sort_sequenced l) /\ sort_sequenced l ≡ₚ l.
Proof.
  unfold sort_sequenced. induction l as [|x l [Hs Hp]]; simpl; [by split; [constructor|]|].
  split; [by apply insert_sequenced_sorted|]. by rewrite insert_sequenced_perm, Hp.
Qed.

Lemma replay_turns_active l active runs rs runs' items :
  replay_turns (R := R) turn_from_value l active runs rs = Ok (runs', items) ->
  (forall run turn, runs !! run = Some turn -> turn ∈ active) ->
  (forall run turn, runs' !! run = Some turn -> turn ∈ active) /\
  Forall (fun x => match x.2 with
    | ReplayTurn turn => turn_turn_id (turn_identity turn) ∈ active | _ => False end) items.
Proof.
  revert runs runs' items. induction rs as [|r rs IH]; intros runs runs' items H Hruns.
  - injection H as <- <-. by split.
  - cbn [replay_turns] in H. destruct (_ || _); [by eapply IH|].
    destruct (map_err _ _) as [turn|]; [|done]. cbn [result_bind] in H.
    case_bool_decide as Hin; [|by eapply IH].
    destruct (replay_turns _ _ _ _ _) as [[rs' more]|] eqn:Hm; [|done].
    injection H as <- <-. destruct (IH _ _ _ Hm) as [Hr Hf].
    + intros run t. rewrite lookup_insert_Some. intros [[_ <-]|[_ ?]]; eauto.
    + split; [done|]. by constructor.
Qed.

(** A session's replay holds exactly the branch's messages and
    compactions and the lane's Turn and Run endings, in the order of their log
    sequences, and only Turns with an assistant message on the branch. *)
Theorem replay_in_log_order b rs l items :
  session_replay resolve_window turn_from_value b rs l = Ok items ->
  exists active branch_items runs turns ends sorted,
    replay_branch resolve_window ∅ b = Ok (active, branch_items) /\
    replay_turns turn_from_value l active ∅ rs = Ok (runs, turns) /\
    replay_runs l runs rs = Ok ends /\
    items = map snd sorted /\ Sorted in_order sorted /\
    sorted ≡ₚ (branch_items ++ turns ++ ends)%list /\
    Forall (fun x => match x.2 with
      | ReplayTurn turn => turn_turn_id (turn_identity turn) ∈ active | _ => False end) turns.
Proof.
  unfold session_replay. intros H.
  destruct (replay_branch _ _ _) as [[active its]|]; [|done]. cbn [result_bind] in H.
  destruct (replay_turns _ _ _ _ _) as [[runs turns]|] eqn:Ht; [|done]. cbn [result_bind] in H.
  destruct (replay_runs _ _ _) as [ends|] eqn:He; [|done]. injection H as <-.
  exists active, its, runs, turns, ends, (sort_sequenced (its ++ turns ++ ends)%list).
  destruct (sort_sequenced_spec (its ++ turns ++ ends)%list) as [Hs Hp].
  destruct (replay_turns_active _ _ _ _ _ _ Ht) as [_ Hf]; [done|]. done.
Qed.

(** ** The floor a client's sequence numbers start from *)

Definition assistants (ms : list (AgentMessage R)) : nat :=
  length (filter (fun m => is_assistant_content (content m) = true) ms).

Lemma count_assistants_spec b count ms :
  (0 <= count <= u64_max)%Z -> branch_messages b = Ok ms ->
  count_assistants (R := R) count b = Ok (Z.min (count + Z.of_nat (assistants ms)) u64_max).
Proof.
  revert count ms. induction b as [|e b IH]; intros count ms Hc Hb.
  - injection Hb as <-. unfold assistants. simpl. f_equal. lia.
  - unfold branch_messages in *. simpl. case_bool_decide as Hk.
    + rewrite filter_cons_True in Hb by done. simpl in Hb.
      destruct (entry_message e) as [m|]; [|done]. cbn [result_bind] in *.
      destruct (collect_results _) as [ms'|] eqn:Hms; [|done]. injection Hb as <-.
      unfold assistants. destruct (is_assistant_content (content m)) eqn:Ha.
      * rewrite filter_cons_True by done.
        rewrite (IH _ ms') by (done || unfold u64_saturating_add, u64_max in *; lia).
        f_equal. cbn [length]. unfold assistants, u64_saturating_add. lia.
      * rewrite filter_cons_False by (by rewrite Ha). by apply IH.
    + rewrite filter_cons_False in Hb by done. by apply IH.
Qed.

(** The floor is the store's last sequence plus one for each assistant
    message of the branch, saturating, so it is never below either. *)
Theorem sequence_floor {S} `{SessionStore S} (s : S) l b ms :
  lane_branch s l = Ok b -> branch_messages b = Ok ms ->
  (0 <= last_sequence s <= u64_max)%Z ->
  replay_sequence_floor s l =
    Ok (Z.min (last_sequence s + Z.of_nat (assistants ms)) u64_max).
Proof.
  unfold lane_branch, replay_sequence_floor. intros Hb Hms Hs.
  destruct (lane s l) as [leaf|].
  - rewrite Hb. cbn [map_err result_bind].
    rewrite (count_assistants_spec b 0 ms) by (done || unfold u64_max; lia).
    cbn [result_bind]. f_equal. unfold u64_saturating_add. lia.
  - injection Hb as <-. injection Hms as <-. unfold assistants. simpl. f_equal. lia.
Qed.

End ReplayOrder.

(** ** The theorems at concrete branches *)

Definition stored (i : EntryId) (q : Sequence) (parent : option EntryId) (k : EntryKind)
  (p : json_map) : SessionEntry :=
  {| entry_id := i; entry_sequence := q; parent_id := parent; entry_timestamp_ms := time 5;
     entry_kind := k; entry_payload := p |}.

Definition plan_change : ModeChange :=
  {| change_mode := ModePlan; change_turn_id := sample_turn |}.
Definition stored_message (i : EntryId) (q : Sequence) (m : AgentMessage sample_rig)
  : SessionEntry := stored i q None KindMessage (from_option id ∅ (message_object m)).
Definition plan_branch : list SessionEntry :=
  [stored_message entry_a (MkSequence 1 I) hello;
   stored entry_b (MkSequence 2 I) (Some entry_a) KindCustom (mode_payload plan_change);
   stored_message (MkId "entry-c" I) (MkSequence 3 I) answer].

Lemma stored_message_reads i q m :
  message_ok m -> entry_message (stored_message i q m) = Ok m.
Proof.
  intros Hok. destruct (message_roundtrip m Hok) as (o & Ho & _ & Hd).
  unfold entry_message, stored_message. simpl. rewrite Ho. simpl. by rewrite Hd.
Qed.

Lemma plan_branch_rebuilds : is_ok (rebuild (R := sample_rig) false rebuild_empty plan_branch) = true.
Proof. vm_compute. reflexivity. Qed.

Lemma plan_branch_no_posing : Forall (no_posing (R := sample_rig)) plan_branch.
Proof.
  repeat constructor; intros Hk m Hm; try discriminate Hk;
    rewrite stored_message_reads in Hm by done; by injection Hm as <-.
Qed.

Lemma context_states_branch_mode_witness : exists r,
  rebuild (R := sample_rig) false rebuild_empty plan_branch = Ok r /\
  context_mode (rebuilt_messages r ++ deferred (rebuilt_notes r))%list = ModePlan.
Proof.
  pose proof plan_branch_rebuilds as Hok.
  destruct (rebuild (R := sample_rig) false rebuild_empty plan_branch) as [r|e] eqn:Hr;
    [|discriminate Hok].
  exists r. split; [reflexivity|].
  rewrite (context_states_branch_mode false plan_branch r plan_branch_no_posing Hr).
  vm_compute. reflexivity.
Defined.

(** A note that arrives between a call and its result. *)
Definition sample_call : ToolCallId := MkId "call-1" I.
Definition call_message : AgentMessage sample_rig :=
  sample_message (MkId "message-3" I) 3
    (Assistant [ToolCallBlock sample_call "read" JNull None] sample_metadata None).
Definition result_message : AgentMessage sample_rig :=
  sample_message (MkId "message-4" I) 4 (ToolResult sample_call [Text "ok"] false None None false).
Definition note_sample : AgentMessage sample_rig :=
  sample_message (MkId "message-5" I) 4 (System [Text "note"]).

Lemma notes_never_split_batch_witness :
  batch_run (notes_default, [hello; call_message]) ([BatchNote note_sample] ++ [BatchResult result_message])%list
    = (notes_default, [hello; call_message; result_message; note_sample]).
Proof.
  apply (notes_never_split_batch notes_default [hello; call_message] [BatchNote note_sample]
    result_message).
  - constructor.
  - vm_compute. reflexivity.
  - intros es' [k Hk]. destruct es' as [|x es']; [vm_compute; reflexivity|].
    injection Hk as Hx Hk. symmetry in Hk. apply app_nil in Hk as [-> _]. rewrite <- Hx.
    vm_compute. reflexivity.
  - vm_compute. reflexivity.
Defined.

Definition sample_request (i : string) : PlanApprovalRequest :=
  {| request_id := i; request_tool_call_id := sample_call; plan := "do it" |}.
Definition plan_ops : list plan_op :=
  [PBegin (sample_request "plan-1"); PBegin (sample_request "plan-2");
   PResolve "plan-1" Approve; PResolve "plan-1" KeepPlanning; PDropWait "plan-1"].

Lemma plan_decided_once_witness :
  delivered (foldl run_plan_op (plan_state_new ModePlan) plan_ops) = [("plan-1", Approve)] /\
  NoDup (decided (foldl run_plan_op (plan_state_new ModePlan) plan_ops)).
Proof.
  split; [vm_compute; reflexivity|].
  apply (plan_decided_once ModePlan plan_ops). simpl. apply NoDup_cons. split; [set_solver|].
  apply NoDup_singleton.
Defined.

Definition no_window (p m : string) : option Z := None.
(** A decoder of Turn records that knows one Turn. *)
Definition sample_turn_record (v : json) : result TurnRecord json_error :=
  Ok {| turn_identity := {| turn_run_id := MkId "run-1" I; turn_turn_id := sample_turn |};
        turn_timing := {| turn_started_at_ms := time 1; turn_ended_at_ms := time 2 |};
        turn_outcome := TurnCompleted EndTurn |}.
Definition turn_record : SessionRecord :=
  {| record_id := MkId "record-1" I; record_sequence := MkSequence 2 I;
     record_lane := main_lane; record_timestamp_ms := time 3; record_run_id := None;
     record_kind := StepAttempt;
     record_payload := <["turn_id" := JNull]> {[ "outcome" := JNull ]} |}.
Definition sample_replay : result (list (SessionReplayItem sample_rig)) KernelError :=
  session_replay no_window sample_turn_record plan_branch [turn_record] main_lane.

Lemma replay_in_log_order_witness : exists items sorted,
  sample_replay = Ok items /\ length items = 3 /\ items = map snd sorted /\
  Sorted in_order sorted.
Proof.
  assert (result_map length sample_replay = Ok 3) as Hok by (vm_compute; reflexivity).
  destruct sample_replay as [items|e] eqn:Hr; [|discriminate Hok].
  destruct (replay_in_log_order no_window sample_turn_record plan_branch [turn_record] main_lane
    items Hr) as (? & ? & ? & ? & ? & sorted & _ & _ & _ & Hi & Hs & _).
  exists items, sorted. split; [reflexivity|]. split; [|by split]. by injection Hok.
Defined.

Definition message_op (i : EntryId) (m : AgentMessage sample_rig) : store_op :=
  OpAppendEntry main_lane (message_entry i (JObject (from_option id ∅ (message_object m)))).
Definition talked : JsonlSessionStore :=
  run_ops [message_op entry_a hello; message_op entry_b answer] (sample_store (fun _ => IoDone)).
Definition talked_branch : list SessionEntry :=
  match lane_branch talked main_lane with Ok b => b | Err _ => [] end.
Definition talked_messages : list (AgentMessage sample_rig) :=
  match branch_messages talked_branch with Ok ms => ms | Err _ => [] end.

Lemma sequence_floor_witness : exists z,
  replay_sequence_floor (R := sample_rig) talked main_lane = Ok z /\ z = 3%Z.
Proof.
  eexists. split.
  - apply (sequence_floor (R := sample_rig) talked main_lane talked_branch talked_messages).
    + unfold talked_branch.
      assert (is_ok (lane_branch talked main_lane) = true) as Hok by (vm_compute; reflexivity).
      destruct (lane_branch talked main_lane); [reflexivity|discriminate Hok].
    + unfold talked_messages.
      assert (is_ok (branch_messages (R := sample_rig) talked_branch) = true) as Hok
        by (vm_compute; reflexivity).
      destruct (branch_messages talked_branch); [reflexivity|discriminate Hok].
    + vm_compute. split; discriminate.
  - vm_compute. reflexivity.
Defined.
