(* ===== verification/QueueTheorems.v ===== *)
(** What the pending queue promises: recovery gives the live queue back, claims
    follow the scheduling order and are undone exactly, and every waiter is
    answered at most once. *)

From S2P Require Import Prelude Lines Scalar Json Message StoreModel StoreState StoreSession.
From S2P Require Import StoreInv StoreLaws ToolContract KernelErrors Plan Replay Transcript.
From S2P Require Import Aligned Queue QueueReplay QueueSteps Samples.
From S2P Require Import RunSamples.
Open Scope string_scope.
Open Scope rust_scope.

Section QueueTheorems.
Context {R : RigTypes} {CC : ContentCodec R}.
Context (display : KernelError -> string).
Context {S : Type} `{SessionStoreLaws S}.
Abbreviation Item := (PendingQueueItem R).
Abbreviation Queue := (PendingQueue R).
Abbreviation Q := (QueueSession R S).

(** C4: start from a session without queue records; however enqueues, removals,
    clears, promotions, withdrawals, claims, drops, consumptions, cancellations
    and other transcript writes interleave, and whichever of their store calls
    fail, either the transcript is latched or recovery from the records gives
    exactly the live queue, in its lanes' order, with a claim still in flight
    back at the front of its lane. *)
Theorem queue_survives_restart (s0 s : Q) c :
  store_wf (store_of s0) ->
  Forall (fun r => queue_kind (record_kind r) = false) (records (store_of s0)) ->
  steering (queue s0) = [] -> follow_up (queue s0) = [] ->
  rtc (queue_step display) (s0, None) (s, c) ->
  q_latched s = true \/ restore (store_of s) = Ok (strip_queue (logical (s, c))).
Proof.
  intros Hwf Hrec Hs Hf Hsteps.
  destruct (steps_inv display _ _ Hsteps (or_intror (fresh_in_sync s0 Hwf Hrec Hs Hf)))
    as [Hl|Hin]; [by left|right]. exact (in_sync_restore _ Hin).
Qed.

Lemma replay_record_ok (q q' : Queue) r :
  queue_ok q -> replay_record q r = Ok q' -> queue_ok q'.
Proof.
  intros Hq. unfold replay_record. destruct (record_kind r); try by intros [= <-].
  - destruct (map_err _ _) as [data|]; [|done]. cbn [result_bind].
    destruct (negb _ || negb _) eqn:Hc; [done|]. intros [= <-].
    apply orb_false_iff in Hc as [Hid%negb_false_iff%bool_decide_eq_true _].
    apply queue_ok_push; [by apply queue_ok_remove|].
    rewrite remove_without by done. rewrite ids_without. intros [_ Hne]. by apply Hne.
  - destruct (map_err _ _) as [id|]; [|done]. intros [= <-]. by apply queue_ok_remove.
Qed.

Lemma replay_records_ok rs (q q' : Queue) :
  queue_ok q -> replay_records q rs = Ok q' -> queue_ok q'.
Proof.
  revert q. induction rs as [|r rs IH]; intros q Hq Hr; [by injection Hr as <-|].
  simpl in Hr. destruct (replay_record q r) as [q1|] eqn:H1; [|done].
  eapply IH; [|exact Hr]. by eapply replay_record_ok.
Qed.

(** Whatever records a store holds, a queue that recovery accepts has each
    identifier once and each item in the lane of its kind; it is what the
    records leave, in their order, without the items whose message is already
    an entry -- so nothing is inserted twice. *)
Theorem restored_queue (s : S) q :
  restore s = Ok q ->
  queue_ok q /\
  (forall i : Item, i ∈ items q -> get_entry s (item_entry_id i) = None) /\
  exists q0, from_records (records s) = Ok q0 /\
    q = queue_filter (fun i => negb (bool_decide (is_Some (get_entry s (item_entry_id i))))) q0.
Proof.
  unfold restore. destruct (from_records (records s)) as [q0|] eqn:Hq0; [|done].
  cbn [result_bind]. intros [= <-].
  assert (queue_ok q0) as Hok by (eapply replay_records_ok; [|exact Hq0]; split; by constructor).
  rewrite restore_loop_filter by done. split; [|split; [|by exists q0]].
  - destruct Hok as [Hnd Hs Hf]. split.
    + eapply sublist_nodup; [|exact Hnd]. rewrite !ids_app. simpl.
      apply sublist_app; apply fmap_sublist, sublist_filter.
    + simpl. rewrite Forall_forall in Hs |- *. intros i [_ Hi]%list_elem_of_filter. by apply Hs.
    + simpl. rewrite Forall_forall in Hf |- *. intros i [_ Hi]%list_elem_of_filter. by apply Hf.
  - intros i [Hi|Hi]%elem_of_app; simpl in Hi; apply list_elem_of_filter in Hi as [Hi _];
      apply negb_true_iff, bool_decide_eq_false in Hi; by apply eq_None_not_Some.
Qed.

(** A claim takes the oldest steering message, or the oldest follow-up when
    those are allowed and no steering waits; with nothing to take it closes the
    queue only at a follow-up boundary; and dropping an unconsumed claim puts
    the session back exactly as it was. *)
Theorem claim_order allow (s : Q) :
  queue_ok (queue s) ->
  match claim_next_or_close allow s with
  | (Ok (Some i), s') =>
      (head (steering (queue s)) = Some i \/
       steering (queue s) = [] /\ allow = true /\ head (follow_up (queue s)) = Some i) /\
      drop_claim i s' = s
  | (Ok None, s') =>
      steering (queue s) = [] /\
      if allow then follow_up (queue s) = [] /\ s' = set_queue (with_open false (queue s)) s
      else s' = s
  | (Err _, _) => False
  end.
Proof.
  intros [_ Hs Hf]. unfold claim_next_or_close.
  destruct s as [t [b [|i st] fu] w l cn]; simpl in *.
  - destruct allow; [|done]. destruct fu as [|i fu]; [done|].
    inversion Hf as [|? ? Hk _]; subst. split; [by right|].
    unfold drop_claim, queue_push_front. simpl. by rewrite Hk.
  - inversion Hs as [|? ? Hk _]; subst. split; [by left|].
    unfold drop_claim, queue_push_front. simpl. by rewrite Hk.
Qed.

(** A refused commit says the transcript is closing or uncertain. *)
Lemma commit_records_error rs (t : SessionTranscript R S) e t' :
  commit_records rs t = (Err e, t') -> e = SessionClosing \/ e = SessionPersistenceUncertain.
Proof.
  assert (forall rs (t : SessionTranscript R S) e t', append_records rs t = (Err e, t') ->
    e = SessionPersistenceUncertain) as Happ.
  { clear. induction rs as [|r rs IH]; intros t e t'; [done|]. simpl.
    unfold m_bind, store_try. destruct (append_record r _) as [[x|err] s1]; [by apply IH|].
    by intros [= <- _]. }
  unfold commit_records, m_bind, writable. destruct (sealed t); [intros [= <- _]; by left|].
  destruct (write_failed t); [intros [= <- _]; by right|].
  destruct (append_records rs t) as [[[]|e1] t1] eqn:Ha.
  - unfold store_try. destruct (sync _) as [[[]|err] s1]; [done|intros [= <- _]; by right].
  - intros [= <- _]. right. by eapply Happ.
Qed.

(** C10: an enqueue is refused, with nothing changed, once its caller cancelled
    or while no run accepts messages; otherwise it adds the item at the end of
    its lane and exactly one record that replays to that addition, or, when the
    store may have kept part of it, leaves the queue alone and the transcript
    latched. *)
Theorem enqueue_outcome rid run (i : Item) stop (s : Q) :
  message_ok (queued_message (queued i)) ->
  match enqueue rid run i stop s with
  | (Err PromptCancelled, s') => stop = true /\ s' = s
  | (Err e, s') =>
      stop = false /\
      (open (queue s) = false /\ s' = s \/ q_latched s' = true /\ queue s' = queue s)
  | (Ok _, s') =>
      stop = false /\ open (queue s) = true /\ queue s' = queue_push i (queue s) /\
      exists x, records (store_of s') = (records (store_of s) ++ [x])%list /\
        forall q, replay_record q x = Ok (queue_push (strip i) (queue_remove (item_id i) q).2)
  end.
Proof.
  intros Hok. destruct (enqueued_roundtrip i Hok) as (p & Hp & Hd & _).
  unfold enqueue, enqueue_pending, m_lift, m_bind, m_get, m_fail. rewrite Hp.
  destruct stop; [done|]. destruct (open (queue s)) eqn:Ho; simpl; [|by auto].
  destruct (on_transcript _ s) as [r s1] eqn:Hc.
  assert (Forall plain_record [queue_record rid (Some run) QueueEnqueued p s]) as Hplain
    by (constructor; [by eexists|done]).
  destruct (on_commit _ _ _ _ Hplain Hc) as [Hs1 Hres].
  assert (queue s1 = queue s) as Hq by (by rewrite Hs1).
  destruct r as [[]|e].
  - destruct Hres as [_ [(xs & Hx & Hrec) _ _ _]]. simpl.
    inversion Hx as [|? x ? ys [Hk Hpay] Hys]; subst. inversion Hys; subst.
    injection Hpay as Hpay. split; [done|]. split; [done|]. split; [by rewrite Hq|].
    exists x. split; [done|]. intros q. by eapply replay_enqueued.
  - unfold on_transcript in Hc. destruct (commit_records _ _) as [r t] eqn:Hr.
    injection Hc as -> <-. by destruct (commit_records_error _ _ _ _ Hr) as [-> | ->]; auto.
Qed.

(** Promoting a waiting follow-up moves that one item, with its message,
    entry and waiter, to the end of the steering lane and leaves the others in
    order; a message already steering, or gone, changes nothing. *)
Theorem promote_outcome rid id (s : Q) s' b :
  queue_ok (queue s) ->
  promote_pending_message rid id s = (Ok b, s') ->
  (b = false /\ s' = s /\ id ∉ ids (queue s)) \/
  (b = true /\ s' = s /\ exists i, i ∈ steering (queue s) /\ item_id i = id) \/
  (b = true /\ exists i, i ∈ follow_up (queue s) /\ item_id i = id /\
    open (queue s') = open (queue s) /\
    steering (queue s') = (steering (queue s) ++ [with_kind Steering i])%list /\
    follow_up (queue s') = lane_without id (follow_up (queue s)) /\
    waiters s' = waiters s).
Proof.
  intros Hok Hr. unfold promote_pending_message, m_bind, m_get, m_ret, m_lift in Hr.
  destruct (existsb _ _) eqn:He.
  { injection Hr as <- <-. right. left. apply existsb_exists in He as (i & Hi & Hid).
    apply bool_decide_eq_true in Hid. split; [done|]. split; [done|]. exists i.
    by rewrite list_elem_of_In. }
  assert (id ∉ item_id <$> steering (queue s)) as Hns.
  { intros (i & -> & Hi)%list_elem_of_fmap.
    assert (existsb (fun j => bool_decide (item_id j = item_id i)) (steering (queue s)) = true);
      [|congruence].
    apply existsb_exists. exists i. rewrite <- list_elem_of_In. split; [done|].
    by apply bool_decide_eq_true. }
  destruct (take_item id (follow_up (queue s))) as [[i rest]|] eqn:Ht.
  2: { injection Hr as <- <-. left. split; [done|]. split; [done|].
       apply take_item_none in Ht. rewrite ids_app, elem_of_app. tauto. }
  destruct (take_item_some _ _ _ _ Ht) as (Hid & a & c & Hlane & _).
  destruct (enqueued_payload (with_kind Steering i)) as [p|]; [|done].
  unfold on_transcript in Hr. destruct (commit_records _ _) as [[[]|e] t]; [|done].
  injection Hr as <- <-. right. right. split; [done|]. exists i. simpl.
  split; [rewrite Hlane; set_solver|]. split; [done|].
  rewrite remove_without by done. unfold queue_push. simpl.
  by rewrite lane_without_absent.
Qed.

Lemma elem_without_all l (q : Queue) i :
  i ∈ items (queue_without_all l q) <-> i ∈ items q /\ item_id i ∉ l.
Proof.
  revert q. induction l as [|id l IH]; intros q; simpl.
  - split; [|tauto]. intros Hi. split; [done|by apply not_elem_of_nil].
  - rewrite IH, not_elem_of_cons. unfold items, queue_without, lane_without. simpl.
    rewrite !elem_of_app, !list_elem_of_filter. tauto.
Qed.

Lemma item_id_inj (q : Queue) i j :
  queue_ok q -> i ∈ items q -> j ∈ items q -> item_id i = item_id j -> i = j.
Proof.
  intros [Hnd _ _] Hi Hj He. apply list_elem_of_lookup in Hi as [n Hn], Hj as [m Hm].
  assert (n = m) as ->; [|congruence].
  eapply NoDup_lookup; [exact Hnd|..]; unfold ids; rewrite list_lookup_fmap;
    [by rewrite Hn|rewrite Hm; simpl; by f_equal].
Qed.

(** What a committed withdrawal of the identifiers [l] leaves. *)
Lemma withdraw_success rids (s s' : Q) :
  queue_ok (queue s) -> withdraw_pending display rids s = (Ok tt, s') ->
  let l := item_id <$> filter (fun i => withdrawable (waiters s) i = true) (items (queue s)) in
  queue s' = queue_without_all l (with_open false (queue s)) /\
  exists xs, records (store_of s') = (records (store_of s) ++ xs)%list /\
    length xs = min (length rids) (length l).
Proof.
  intros Hok Hr. unfold withdraw_pending in Hr.
  unfold m_bind at 1, close_queue, modify in Hr. unfold m_bind, m_get in Hr.
  set (s0 := set_queue (with_open false (queue s)) s) in *. simpl.
  change (items (queue s0)) with (items (queue s)) in Hr.
  change (waiters s0) with (waiters s) in Hr.
  set (l := item_id <$> filter _ (items (queue s))) in *. clearbody l.
  destruct l as [|id0 l0] eqn:Hleq.
  { injection Hr as <-. split; [done|]. exists []. by rewrite app_nil_r, Nat.min_0_r. }
  rewrite <- Hleq in *. clear Hleq. destruct (on_transcript _ s0) as [r1 s1] eqn:Hc.
  destruct (on_commit _ _ _ _ (cancellation_plain _ _ _ _) Hc) as [Hs1 Hres].
  destruct r1 as [[]|e]; [|done]. destruct Hres as [_ [(xs & Hx & Hrec) _ _ _]].
  injection Hr as <-.
  assert (queue s1 = with_open false (queue s)) as Hq1 by (by rewrite Hs1).
  assert (queue_ok (queue s1)) as Hok1 by (rewrite Hq1; by destruct Hok).
  destruct (withdraw_all_frame display l s1 Hok1) as [Ht Hq].
  split; [by rewrite Hq, Hq1|]. exists xs. unfold store_of. rewrite Ht. split; [done|].
  apply Forall2_length in Hx. rewrite <- Hx. unfold cancellation_records.
  by rewrite length_zip_with.
Qed.

(** A withdrawal closes the queue and, once committed, leaves exactly the
    items no live client waits on: no listening insertion and no receipt stays
    queued, no other item goes, and each withdrawn item has one record. *)
Theorem withdraw_outcome rids (s s' : Q) :
  queue_ok (queue s) ->
  length rids = length (filter (fun i => withdrawable (waiters s) i = true) (items (queue s))) ->
  withdraw_pending display rids s = (Ok tt, s') ->
  open (queue s') = false /\
  (forall i, i ∈ items (queue s') <->
    i ∈ items (queue s) /\ withdrawable (waiters s) i = false) /\
  exists xs, records (store_of s') = (records (store_of s) ++ xs)%list /\ length xs = length rids.
Proof.
  intros Hok Hlen Hr. destruct (withdraw_success _ _ _ Hok Hr) as [Hq (xs & Hrec & Hx)].
  rewrite Hq. split; [by rewrite without_all_lanes|]. split.
  - intros i. rewrite elem_without_all. change (items (with_open _ _)) with (items (queue s)).
    split; intros [Hi Hw]; (split; [done|]).
    + apply not_true_is_false. intros Ht. apply Hw, list_elem_of_fmap_2.
      by apply list_elem_of_filter.
    + intros (j & Hid & Hj)%list_elem_of_fmap. apply list_elem_of_filter in Hj as [Hjw Hj].
      rewrite (item_id_inj _ _ _ Hok Hi Hj Hid) in Hw. congruence.
  - exists xs. split; [done|]. rewrite Hx, length_fmap, <- Hlen. lia.
Qed.

(** ** Waiters *)

(** The operations that can reach a waiter. *)
Inductive queue_op : Type :=
| QEnqueue (rid : RecordId) (run : RunId) (i : Item) (stop : bool)
| QRemove (rid : RecordId) (id : QueueId)
| QClear (rids : list RecordId)
| QPromote (rid : RecordId) (id : QueueId)
| QWithdraw (rids : list RecordId)
| QClaim (allow : bool)
| QDrop (i : Item)
| QConsume (i : Item) (m : AgentMessage R) (r : NewRecord)
| QSettle (answer : SubmissionAnswer)
| QOpen | QClose | QCancel.

Definition run_queue_op (op : queue_op) (s : Q) : Q :=
  match op with
  | QEnqueue rid run i stop => (enqueue rid run i stop s).2
  | QRemove rid id => (remove_pending_message display rid id s).2
  | QClear rids => (clear_pending_messages display rids s).2
  | QPromote rid id => (promote_pending_message rid id s).2
  | QWithdraw rids => (withdraw_pending display rids s).2
  | QClaim allow => (claim_next_or_close allow s).2
  | QDrop i => drop_claim i s
  | QConsume i m r => (consume_claimed display i m r s).2
  | QSettle answer => (settle_submissions answer s).2
  | QOpen => (open_queue s).2
  | QClose => (close_queue s).2
  | QCancel => (cancel s).2
  end.

(** A waiter only moves from unanswered to answered, once. *)
Definition waiter_le (w w' : Waiter) : Prop :=
  w' = w \/ sender w = true /\ sender w' = false /\ length (answers w') <= 1.

Definition waiters_le (m m' : gmap nat Waiter) : Prop :=
  forall n w, m !! n = Some w -> exists w', m' !! n = Some w' /\ waiter_le w w'.

#[local] Instance waiters_le_preorder : PreOrder waiters_le.
Proof.
  split.
  - intros m n w Hw. exists w. by split; [|left].
  - intros m1 m2 m3 H12 H23 n w Hw. destruct (H12 n w Hw) as (w2 & H2 & Hle2).
    destruct (H23 n w2 H2) as (w3 & H3 & Hle3). exists w3. split; [done|].
    destruct Hle2 as [->|(? & ? & ?)]; [done|].
    destruct Hle3 as [->|(? & _)]; [by right|congruence].
Qed.

Lemma settle_waiter_le n a (s : Q) : waiters_le (waiters s) (waiters (settle_waiter n a s)).
Proof.
  intros k w Hw. simpl. destruct (decide (k = n)) as [->|Hne].
  - exists (settle a w). rewrite lookup_alter_eq, Hw. split; [done|]. unfold settle.
    destruct (sender w) eqn:Hs; [|by left]. right. simpl.
    split; [done|]. split; [done|]. destruct (receiver_alive w); simpl; lia.
  - exists w. by rewrite lookup_alter_ne by done; split; [|left].
Qed.

Lemma reject_le e (s : Q) i : waiters_le (waiters s) (waiters (reject display e s i)).
Proof.
  unfold reject. destruct (waiter i) as [[n|n]|]; [|destruct e|done]; apply settle_waiter_le.
Qed.

Lemma foldl_le {A} (f : Q -> A -> Q) l s :
  (forall s x, waiters_le (waiters s) (waiters (f s x))) ->
  waiters_le (waiters s) (waiters (foldl f s l)).
Proof.
  intros Hf. revert s. induction l as [|x l IH]; intros s; [done|]. simpl.
  etrans; [apply Hf|apply IH].
Qed.

Lemma withdraw_one_le (s : Q) id : waiters_le (waiters s) (waiters (withdraw_one display s id)).
Proof.
  unfold withdraw_one. destruct (queue_remove id (queue s)) as [[i|] q]; [|done].
  apply (reject_le PromptCancelled (set_queue q s) i).
Qed.

Lemma on_transcript_waiters {A} (c : M (SessionTranscript R S) KernelError A) (s s' : Q) r :
  on_transcript c s = (r, s') -> waiters s' = waiters s.
Proof. unfold on_transcript. destruct (c _). by intros [= _ <-]. Qed.

Lemma consume_le i m r (s : Q) :
  waiters_le (waiters s) (waiters (consume_claimed display i m r s).2).
Proof.
  unfold consume_claimed. destruct (cancelled s); [done|].
  destruct (on_transcript _ s) as [res s1] eqn:Hc. apply on_transcript_waiters in Hc.
  rewrite <- Hc. destruct res as [[]|e]; [|apply reject_le].
  destruct (waiter i) as [[n|n]|]; [apply settle_waiter_le|done|done].
Qed.

Lemma remove_le rid id (s : Q) :
  waiters_le (waiters s) (waiters (remove_pending_message display rid id s).2).
Proof.
  unfold remove_pending_message, remove_pending, m_bind, m_get.
  case_bool_decide as Hid; simpl; [|done]. rewrite bool_decide_eq_true_2 by done. simpl.
  destruct (on_transcript _ s) as [[[]|e] s1] eqn:Hc; apply on_transcript_waiters in Hc;
    rewrite <- Hc; [|done]. simpl. apply withdraw_one_le.
Qed.

Lemma withdraw_le rids (s : Q) :
  waiters_le (waiters s) (waiters (withdraw_pending display rids s).2).
Proof.
  unfold withdraw_pending, m_bind, close_queue, modify, m_get. cbn [fst snd].
  destruct (item_id <$> _) as [|id0 l0] eqn:Hl; [done|]. rewrite <- Hl.
  destruct (on_transcript _ _) as [[[]|e] s1] eqn:Hc; apply on_transcript_waiters in Hc;
    simpl in Hc |- *; rewrite <- Hc; apply foldl_le; [apply withdraw_one_le|apply reject_le].
Qed.

Lemma clear_le rids (s : Q) :
  waiters_le (waiters s) (waiters (clear_pending_messages display rids s).2).
Proof.
  unfold clear_pending_messages, m_bind, m_get.
  destruct (on_transcript _ _) as [[[]|e] s1] eqn:Hc; apply on_transcript_waiters in Hc;
    simpl; rewrite <- Hc; [|done].
  change (waiters s1) with (waiters (set_queue
    {| open := open (queue s1); steering := []; follow_up := [] |} s1)).
  apply foldl_le, reject_le.
Qed.

Lemma settle_submissions_le a (s : Q) :
  waiters_le (waiters s) (waiters (settle_submissions a s).2).
Proof.
  unfold settle_submissions, modify. simpl.
  set (s1 := {| submissions := [] |}). change (waiters s) with (waiters s1).
  apply foldl_le. intros. apply settle_waiter_le.
Qed.

Lemma run_queue_op_le op (s : Q) : waiters_le (waiters s) (waiters (run_queue_op op s)).
Proof.
  destruct op; simpl; try done.
  - unfold enqueue, enqueue_pending, m_lift, m_bind, m_get, m_fail, modify.
    destruct (enqueued_payload i); simpl; [|done]. destruct stop; [done|].
    destruct (negb _); [done|]. destruct (on_transcript _ s) as [[[]|e] s1] eqn:Hc;
      apply on_transcript_waiters in Hc; simpl; by rewrite Hc.
  - apply remove_le.
  - apply clear_le.
  - unfold promote_pending_message, m_lift, m_bind, m_get, m_ret, modify.
    destruct (existsb _ _); [done|]. destruct (take_item _ _) as [[i rest]|]; [|done].
    destruct (enqueued_payload _); [|done].
    destruct (on_transcript _ s) as [[[]|e] s1] eqn:Hc;
      apply on_transcript_waiters in Hc; simpl; by rewrite Hc.
  - apply withdraw_le.
  - unfold claim_next_or_close. by repeat case_match.
  - apply consume_le.
  - apply settle_submissions_le.
Qed.

(** C11: a waiter hears at most one answer, and the first one stands: over any
    sequence of queue operations an answered waiter keeps its answer, whatever
    rejections, cancellations, withdrawals and settlements reach it later. *)
Theorem first_answer_stands ops (s : Q) n w :
  waiters s !! n = Some w -> (length (answers w) <= 1) ->
  let s' := foldl (fun s op => run_queue_op op s) s ops in
  exists w', waiters s' !! n = Some w' /\ length (answers w') <= 1 /\
    (sender w = false -> w' = w).
Proof.
  intros Hw Hlen. simpl.
  destruct (foldl_le (fun s op => run_queue_op op s) ops s
    (fun s op => run_queue_op_le op s) n w Hw) as (w' & Hw' & [->|(Hs & _ & Hl)]).
  - by exists w.
  - exists w'. split; [done|]. split; [done|]. congruence.
Qed.

End QueueTheorems.

(** ** The theorems at a concrete session *)

Lemma queue_survives_restart_witness :
  length (follow_up (queue one_queued)) = 1 /\
  (q_latched one_queued = true \/
   restore (store_of one_queued) = Ok (strip_queue (logical (one_queued, None)))).
Proof.
  split; [vm_compute; reflexivity|].
  apply (queue_survives_restart sample_display (sample_session_over good) one_queued None).
  - apply sample_store_wf.
  - constructor.
  - reflexivity.
  - reflexivity.
  - apply rtc_once, one_queued_step.
Defined.

Lemma restored_queue_witness : exists q,
  restore (store_of one_queued) = Ok q /\ queue_ok q /\ length (items q) = 1.
Proof.
  assert (result_map (fun q => length (items q)) (restore (R := sample_rig) (store_of one_queued))
    = Ok 1) as Hok by (vm_compute; reflexivity).
  destruct (restore (R := sample_rig) (store_of one_queued)) as [q|e] eqn:Hr;
    [|discriminate Hok].
  exists q. split; [reflexivity|]. injection Hok as Hl. split; [|exact Hl].
  apply (restored_queue (store_of one_queued) q Hr).
Defined.

Lemma one_queued_ok : queue_ok (queue one_queued).
Proof.
  assert (queue one_queued = queue_push item_one (queue (sample_session_over good))) as ->.
  { vm_compute. reflexivity. }
  apply queue_ok_push; [split; constructor|]. by intros ?%not_elem_of_nil.
Qed.

Lemma claim_order_witness :
  match claim_next_or_close true one_queued with
  | (Ok (Some i), s') => drop_claim i s' = one_queued
  | _ => False
  end.
Proof.
  pose proof (claim_order true one_queued one_queued_ok) as Hc.
  destruct (claim_next_or_close true one_queued) as [[[i|]|e] s'] eqn:Hr.
  - apply Hc.
  - destruct Hc as [_ [Hf _]]. vm_compute in Hf. discriminate Hf.
  - exact Hc.
Defined.

Lemma enqueue_outcome_witness :
  queue (enqueue record_two run_one item_two false one_queued).2
    = queue_push item_two (queue one_queued).
Proof.
  pose proof (enqueue_outcome record_two run_one item_two false one_queued I) as Hq.
  assert (is_ok (enqueue record_two run_one item_two false one_queued).1 = true) as Hok
    by (vm_compute; reflexivity).
  destruct (enqueue record_two run_one item_two false one_queued) as [[[]|e] s'];
    [|discriminate Hok].
  apply Hq.
Defined.

Lemma promote_outcome_witness :
  length (steering (queue (promote_pending_message record_two (MkId "queue-1" I) one_queued).2))
    = 1.
Proof.
  destruct (promote_pending_message record_two (MkId "queue-1" I) one_queued) as [r s'] eqn:Hr.
  assert (ok (promote_pending_message record_two (MkId "queue-1" I) one_queued).1 = Some true)
    as Hok by (vm_compute; reflexivity).
  rewrite Hr in Hok. destruct r as [b|e]; [|discriminate Hok]. injection Hok as ->.
  destruct (promote_outcome record_two (MkId "queue-1" I) one_queued s' true one_queued_ok Hr)
    as [(Hb & _)|[(_ & _ & i & Hi & _)|(_ & i & _ & _ & _ & Hs & _)]].
  - discriminate Hb.
  - assert (steering (queue one_queued) = []) as Hst by (vm_compute; reflexivity).
    rewrite Hst in Hi. destruct (not_elem_of_nil _ Hi).
  - cbn [snd]. rewrite Hs, length_app. vm_compute. reflexivity.
Defined.

(** The same session with a client listening for the insertion. *)
Definition one_listening : SampleSession := set_waiters {[ 0 := waiter_new ]} one_queued.

Lemma withdraw_outcome_witness :
  open (queue (withdraw_pending sample_display [record_two] one_listening).2) = false /\
  forall i, i ∉ items (queue (withdraw_pending sample_display [record_two] one_listening).2).
Proof.
  destruct (withdraw_pending sample_display [record_two] one_listening) as [r s'] eqn:Hr.
  assert (is_ok (withdraw_pending sample_display [record_two] one_listening).1 = true) as Hok
    by (vm_compute; reflexivity).
  rewrite Hr in Hok. destruct r as [[]|e]; [|discriminate Hok].
  destruct (withdraw_outcome sample_display [record_two] one_listening s' one_queued_ok
    ltac:(vm_compute; reflexivity) Hr) as (Ho & Hi & _).
  split; [exact Ho|]. intros i [Hin Hw]%Hi.
  assert (items (queue one_listening) = [item_one]) as Hitems by (vm_compute; reflexivity).
  rewrite Hitems in Hin. apply list_elem_of_singleton in Hin as ->.
  vm_compute in Hw. discriminate Hw.
Defined.

Lemma first_answer_stands_witness : exists w',
  waiters (run_queue_op sample_display (QCancel)
    (run_queue_op sample_display (QWithdraw [record_two]) one_listening)) !! 0 = Some w' /\
  length (answers w') <= 1.
Proof.
  destruct (first_answer_stands sample_display [QWithdraw [record_two]; QCancel] one_listening 0
    waiter_new) as (w' & Hw & Hl & _).
  - apply lookup_singleton_eq.
  - simpl. lia.
  - exists w'. split; [exact Hw|exact Hl].
Defined.
