(* ===== verification/CommandTheorems.v ===== *)
(** The properties of plan mode's shell check, the repository's own test
    commands, and four commands that write although the check accepts them. *)

From S2P Require Import Prelude Lines Json Message Plan Chars CommandLine CommandGrammar.
Open Scope string_scope.
Open Scope rust_scope.

(** ** A sample word splitter *)

Definition emit (word : option string) (l : list string) : list string :=
  match word with Some w => w :: l | None => l end.
Definition push_char (word : option string) (c : char) : option string :=
  Some (default "" word +:+ c).

(** Words are separated by blanks; quotes group, a backslash escapes. *)
Fixpoint split_words (q : option char) (word : option string) (l : list char)
  : option (list string) :=
  match l, q with
  | [], None => Some (emit word [])
  | [], Some _ => None
  | c :: l, Some active =>
      if String.eqb c active then split_words None (push_char word "") l
      else if String.eqb c backslash && String.eqb active double_quote then
        match l with
        | d :: l => split_words q (push_char word d) l
        | [] => None
        end
      else split_words q (push_char word c) l
  | c :: l, None =>
      if String.eqb c backslash then
        match l with
        | d :: l => split_words q (push_char word (if String.eqb d nl then "" else d)) l
        | [] => None
        end
      else if among [single_quote; double_quote] c then
        split_words (Some c) (push_char word "") l
      else if among [" "; tab; nl] c then emit word <$> split_words None None l
      else split_words q (push_char word c) l
  end.

Definition sample_split (s : string) : option (list string) := split_words None None (chars s).

(** ** The check *)

Lemma segments_read_only_ok shlex l :
  segments_read_only shlex l = Ok tt <->
  Forall (fun segment => exists first words, shlex segment = Some (first :: words) /\
            inspects {| executable := first; arguments := words |}) l.
Proof.
  induction l as [|segment l IH]; cbn; [by split|]. rewrite Forall_cons, <- IH.
  unfold invocation_try_from. destruct (shlex segment) as [[|first words]|]; cbn.
  - split; [done|]. by intros [(? & ? & ? & _) _].
  - pose proof (invocation_read_only_ok {| executable := first; arguments := words |}) as Hi.
    destruct (invocation_read_only _) as [[]|e]; cbn.
    + split; [|by intros [_ ?]]. intros H. split; [|done]. exists first, words. split; [done|]. by apply Hi.
    + split; [done|]. intros [(? & ? & [= <- <-] & H) _]. by apply Hi in H.
  - split; [done|]. by intros [(? & ? & ? & _) _].
Qed.

Lemma read_only_ok shlex command :
  read_only shlex command = Ok tt <->
  substitution_free command /\ exists segments, reads [] (chars command) segments /\
    Forall (fun segment => exists first words, shlex segment = Some (first :: words) /\
              inspects {| executable := first; arguments := words |}) segments.
Proof.
  unfold read_only. split.
  - destruct (violation (scan_from command)) as [v|] eqn:Hv; [done|]. intros H.
    destruct (proj1 (scan_from_reads command _) (conj Hv eq_refl)) as [Hf Hr].
    split; [done|]. eexists. split; [done|]. by apply segments_read_only_ok.
  - intros [Hf (segs & Hr & Hall)].
    destruct (proj2 (scan_from_reads command segs) (conj Hf Hr)) as [-> ->].
    by apply segments_read_only_ok.
Qed.

(** C14: in plan mode a [bash] call that is not the kernel's own runs exactly
    when its command is a string that the grammar reads -- without any
    substitution, every unquoted [>] discarding output or duplicating a
    descriptor -- and each of its segments splits into an invocation that only
    inspects. *)
Theorem plan_mode_runs_readers shlex g call hint :
  gate_mode g = ModePlan -> call_name call = "bash" -> "bash" ∉ kernel_owned g ->
  check shlex g call hint = Ok tt <->
  exists command, json_get "command" (call_arguments call) = Some (JString command) /\
    substitution_free command /\ exists segments, reads [] (chars command) segments /\
      Forall (fun segment => exists first words, shlex segment = Some (first :: words) /\
                inspects {| executable := first; arguments := words |}) segments.
Proof.
  intros Hm Hn Hk. unfold check. rewrite Hm, Hn. rewrite bool_decide_eq_false_2 by done.
  rewrite bool_decide_eq_false_2 by done. cbn [orb String.eqb].
  destruct (json_get "command" (call_arguments call)) as [v|]; cbn.
  2:{ split; [done|]. by intros (? & ? & _). }
  destruct (json_as_str v) as [command|] eqn:Hv.
  - destruct v; try done. injection Hv as ->. pose proof (read_only_ok shlex command) as Hok.
    destruct (read_only shlex command) as [[]|e]; cbn.
    + split; [|done]. intros _. exists command. split; [done|]. by apply Hok.
    + split; [done|]. intros (c & [= <-] & H). by apply Hok in H.
  - split; [done|]. intros (c & [= ->] & _). done.
Qed.

Definition sample_gate : PlanModeGate := {| gate_mode := ModePlan; kernel_owned := ∅ |}.
Definition sample_call (command : string) : GateCall :=
  {| call_name := "bash"; call_arguments := JObject {[ "command" := JString command ]} |}.

Lemma plan_mode_runs_readers_witness :
  check sample_split sample_gate (sample_call "ls >/dev/null 2>&1 || ls") None = Ok tt /\
  exists command, json_get "command" (call_arguments (sample_call "ls >/dev/null 2>&1 || ls"))
      = Some (JString command) /\
    substitution_free command /\ exists segments, reads [] (chars command) segments /\
      Forall (fun segment => exists first words, sample_split segment = Some (first :: words) /\
                inspects {| executable := first; arguments := words |}) segments.
Proof.
  assert (check sample_split sample_gate (sample_call "ls >/dev/null 2>&1 || ls") None = Ok tt)
    as H by (vm_compute; reflexivity).
  split; [exact H|]. revert H. apply plan_mode_runs_readers; [reflexivity|reflexivity|].
  apply not_elem_of_empty.
Defined.

(** The check accepts four commands that run or write something when a
    shell runs them: [>&] followed by a digit and more is a file name to the
    shell; a line continuation inside a [$(] is removed by the shell; a
    carriage return is not a blank to the shell, so no comment starts after it;
    and neither does one right after [2>&1]. *)
Theorem accepted_commands_that_write (shlex : string -> option (list string)) (cr := String carriage_return "") :
  shlex "echo hi file" = Some ["echo"; "hi"; "file"] ->
  shlex ("echo $\" +:+ nl +:+ "(touch f)") = Some ["echo"; "$(touch"; "f)"] ->
  shlex ("echo " +:+ cr) = Some ["echo"; cr] ->
  shlex "ls " = Some ["ls"] ->
  read_only shlex "echo hi >&2file" = Ok tt /\
  read_only shlex ("echo $\" +:+ nl +:+ "(touch f)") = Ok tt /\
  read_only shlex ("echo " +:+ cr +:+ "#; touch f") = Ok tt /\
  read_only shlex "ls 2>&1#; touch f" = Ok tt.
Proof.
  intros H1 H2 H3 H4. unfold read_only. split_and!.
  - assert (scan_from "echo hi >&2file" = {| segments := ["echo hi file"]; violation := None |})
      as -> by (vm_compute; reflexivity).
    cbn [violation segments segments_read_only]. unfold invocation_try_from. by rewrite H1.
  - assert (scan_from ("echo $\" +:+ nl +:+ "(touch f)")
      = {| segments := ["echo $\" +:+ nl +:+ "(touch f)"]; violation := None |})
      as -> by (vm_compute; reflexivity).
    cbn [violation segments segments_read_only]. unfold invocation_try_from. by rewrite H2.
  - assert (scan_from ("echo " +:+ cr +:+ "#; touch f")
      = {| segments := ["echo " +:+ cr]; violation := None |}) as -> by (vm_compute; reflexivity).
    cbn [violation segments segments_read_only]. unfold invocation_try_from. by rewrite H3.
  - assert (scan_from "ls 2>&1#; touch f" = {| segments := ["ls "]; violation := None |})
      as -> by (vm_compute; reflexivity).
    cbn [violation segments segments_read_only]. unfold invocation_try_from. by rewrite H4.
Qed.

Lemma accepted_commands_that_write_witness (cr := String carriage_return "") :
  sample_split "ls " = Some ["ls"] /\
  read_only sample_split "echo hi >&2file" = Ok tt /\
  read_only sample_split ("echo $\" +:+ nl +:+ "(touch f)") = Ok tt /\
  read_only sample_split ("echo " +:+ cr +:+ "#; touch f") = Ok tt /\
  read_only sample_split "ls 2>&1#; touch f" = Ok tt.
Proof.
  split; [reflexivity|].
  apply (accepted_commands_that_write sample_split); vm_compute; reflexivity.
Defined.

(** ** The repository's test commands *)

Definition refused_commands : list string :=
  ["ls; rm x"; "cat a > b"; "echo `rm x`"; "diff <(ls) a"; "find . -delete";
   "find . -exec rm {} ;"; "env rm x"; "xargs rm"; "git branch -D x";
   "git diff --output=x"; "git -c core.pager=x log"; "git --no-pager log";
   "git diff --ext-diff"; "git grep -O x"; "git push"; "rg --pre=sh x"; "rg --pre sh x";
   "fd -x rm"; "fd --exec-batch rm"; "sort -o f a"; "sort -of a"; "sort --output=f a";
   "tree -o f"; "uniq a b"; "file -C"; "sed -i s/a/b/ f"; "tee f"; "cargo test";
   "printenv"; "ls 'unclosed"; "git grep --open=/tmp/x.sh x"; "git grep -nO x";
   "git log --out=x"; "sort --o f a"; "file --comp"; "rg --pre-g=x y";
   "echo $'\'' > /tmp/pwned #'"; "echo $[x]"; "printf -v PATH /tmp"].

Definition accepted_commands : list string :=
  ["cd src && ls"; "git log | head"; "git status"; "git branch --show-current";
   "git remote -v"; "ls 2>&1"; "ls >/dev/null 2>&1 || ls"; "uniq a"; "rg TODO src";
   "find . -name '*.rs'"; "jq . a.json"; "pwd"; "git log --oneline"; "git log -n 5";
   "git diff -O order.txt"; "rg --pretty x"; "sort --numeric-sort a";
   "ls -la # list files"; "grep 'foo$' f"; "grep '${literal}' f"; "echo a#b"].

Example test_commands :
  forallb (fun c => negb (is_ok (read_only sample_split c))) refused_commands = true /\
  forallb (fun c => is_ok (read_only sample_split c)) accepted_commands = true.
Proof. vm_compute. split; reflexivity. Qed.

Example lenient_parse :
  program <$> invocations_from sample_split "ls -la | /bin/rm -rf x; echo 'open" = ["ls"; "rm"].
Proof. vm_compute. reflexivity. Qed.
