(* ===== verification/CompactionTheorems.v ===== *)
(** The properties of compaction. *)

From S2P Require Import Prelude Chars Scalar Json Message Compaction Samples.
From S2P Require Import RunSamples.
Open Scope string_scope.

Section Properties.
Context {R : RigTypes} {U : UsageCounters R} `{JsonText}.
Variable extension_json : ExtensionMessage -> string.
Abbreviation Message := (AgentMessage R).

(** C15: a compaction's ranges are the history since the last summary, in order:
    what it summarises, the start of a Turn it splits, and what it keeps; of the
    last, the retained tail drops the messages without any estimated token.  The
    cut is at the earliest cut point that leaves less than the budget after the
    message it starts with, and if every tool result follows its call with no
    cut point in between, no kept result is stranded from its call. *)
Theorem compaction_cut history policy
  (p := preparation extension_json history policy) (rest := since_summary history) :
  (0 <= keep_recent_tokens policy <= u64_max)%Z ->
  exists before kept,
    history = (before ++ rest)%list /\
    (before = [] \/ exists older s, before = (older ++ [s])%list /\ is_summary s = true) /\
    (forall m, m ∈ rest -> is_summary m = false) /\
    rest = (summarized p ++ turn_prefix p ++ kept)%list /\
    prepared_tail p = filter (fun m => (0 <? estimated_tokens extension_json m)%Z = true) kept /\
    kept = drop (if (keep_recent_tokens policy =? 0)%Z then length rest
                 else reference_cut extension_json (keep_recent_tokens policy) rest) rest /\
    (turn_prefix p = [] \/
      exists m, head (turn_prefix p) = Some m /\ starts_turn m = true) /\
    (batches_ok rest -> forall pre m post id,
      prepared_tail p = (pre ++ m :: post)%list -> result_id m = Some id ->
      exists caller, caller ∈ pre /\ calls caller id).
Proof.
  intros Hk. destruct (since_summary_split history) as (before & Hsplit & Hbefore & Hno).
  set (first := first_kept extension_json policy rest).
  exists before, (drop first rest).
  split_and!; try done.
  - symmetry. apply ranges_partition.
  - f_equal. unfold first. destruct (Z.eqb_spec (keep_recent_tokens policy) 0) as [Hz|Hz].
    + unfold first_kept. by rewrite Hz.
    + apply first_kept_reference. lia.
  - pose proof (turn_prefix_head rest first) as Hp.
    change (turn_prefix p) with (match split_turn rest first with
      | Some start => drop start (take first rest) | None => [] end).
    destruct (split_turn rest first); [by right|by left].
  - intros Hb pre m post id Hpre Hid. eapply cut_keeps_calls; [done| |exact Hpre|done].
    by apply first_kept_ok.
Qed.

End Properties.

(** ** A concrete history *)

Definition at_two (c : MessageContent sample_rig) : AgentMessage sample_rig :=
  {| identity := identity hello; timing := timing hello; content := c |}.
Definition call_id : ToolCallId := MkId "call-1" I.
Definition call_message (name : string) : AgentMessage sample_rig :=
  at_two (Assistant [ToolCallBlock call_id name JNull None] sample_metadata None).
Definition result_message (text : string) : AgentMessage sample_rig :=
  at_two (ToolResult call_id [Text text] false None None false).
Definition user_message (text : string) : AgentMessage sample_rig := at_two (User [Text text]).

Definition long_history : list (AgentMessage sample_rig) :=
  [user_message "please read the file"; call_message "read"; result_message "its contents";
   user_message "and the other one"; call_message "read"; result_message "more contents"].

Definition small_budget : CompactionPolicy :=
  {| enabled := true; reserve_tokens := 0; keep_recent_tokens := 8 |}.

Lemma compaction_cut_witness :
  length (summarized (preparation no_extension long_history small_budget)) = 3 /\
  exists kept, long_history =
    (summarized (preparation no_extension long_history small_budget)
     ++ turn_prefix (preparation no_extension long_history small_budget) ++ kept)%list /\
    kept = drop (reference_cut no_extension 8 long_history) long_history.
Proof.
  split; [vm_compute; reflexivity|].
  destruct (compaction_cut no_extension long_history small_budget)
    as (before & kept & _ & _ & _ & Hrest & _ & Hkept & _).
  { split; vm_compute; discriminate. }
  exists kept. split; [exact Hrest|exact Hkept].
Defined.

(** A result without text counts no tokens, so the kept context loses it while
    the call it answers stays. *)
Example empty_result_dropped :
  prepared_tail (preparation no_extension
    [user_message "an old question"; user_message "read it"; call_message "read"; result_message ""]
    {| enabled := true; reserve_tokens := 0; keep_recent_tokens := 3 |})
  = [call_message "read"].
Proof. vm_compute. reflexivity. Qed.
