(* ===== verification/AttemptTheorems.v ===== *)
(** The properties of one provider call and of its retries. *)

From S2P Require Import Prelude Lines Scalar Json Message ToolContract KernelErrors Compaction Attempt Samples.
From S2P Require Import RunSamples.
Open Scope string_scope.
Open Scope rust_scope.

(** ** Retries *)

Section Retries.
Context {R : RigTypes}.

(** The schedules a run of failures is granted, up to the first refusal. *)
Fixpoint grants (fs : list (ModelFailure R)) (s : RetryState) : list RetrySchedule :=
  match fs with
  | [] => []
  | f :: rest =>
      match schedule f s with
      | (Some g, s') => g :: grants rest s'
      | (None, _) => []
      end
  end.

Definition within_limit (limit : Z) (f : ModelFailure R) : Prop :=
  match retry_after_ms f with
  | Some asked => (0 < limit)%Z -> (asked <= limit)%Z
  | None => True
  end.

(** The delay one granted retry waits. *)
Definition delay_of (policy : RetryPolicy) (attempt : Z) (f : ModelFailure R) : Z :=
  default (backoff policy attempt) (retry_after_ms f).

Lemma schedule_grants (f : ModelFailure R) s :
  policy_ok (retry_policy s) -> (0 <= attempts s)%Z ->
  retry_enabled (retry_policy s) = true -> is_retryable f = true ->
  within_limit (provider_delay_limit_ms s) f -> (attempts s < max_retries (retry_policy s))%Z ->
  is_Some (schedule f s).1.
Proof.
  intros (Hmax & Hrest) Ha Hen Hre Hlim Hlt. unfold schedule. rewrite Hen, Hre. cbn [negb orb].
  rewrite (proj2 (Z.leb_gt _ _)) by lia. unfold u32_checked_add.
  rewrite (proj2 (Z.leb_le _ _)) by lia. unfold retry_delay, within_limit in *.
  destruct (retry_after_ms f) as [asked|]; [|by eexists].
  destruct (_ && _) eqn:Hc; [|by eexists].
  apply andb_true_iff in Hc as [Hpos%Z.ltb_lt Hover%Z.ltb_lt]. specialize (Hlim Hpos). lia.
Qed.

(** Whatever failures come, no more retries than the policy allows are
    granted, they are numbered from the first on, and each waits what the
    server asked for, never above a positive limit, or else the exponential
    back-off.  With retries enabled the budget is used in full: retryable
    failures within the limit are each granted a retry until it is spent. *)
Theorem retry_budget (fs : list (ModelFailure R)) s :
  policy_ok (retry_policy s) -> (0 <= attempts s)%Z ->
  let gs := grants fs s in
  (Z.of_nat (length gs) <= Z.max 0 (max_retries (retry_policy s) - attempts s))%Z /\
  (forall n g, gs !! n = Some g ->
    schedule_attempt g = (attempts s + Z.of_nat n + 1)%Z /\
    exists f, fs !! n = Some f /\ is_retryable f = true /\
      within_limit (provider_delay_limit_ms s) f /\
      delay_ms g = delay_of (retry_policy s) (attempts s + Z.of_nat n + 1) f) /\
  (retry_enabled (retry_policy s) = true ->
   Forall (fun f => is_retryable f = true /\ within_limit (provider_delay_limit_ms s) f) fs ->
   Z.of_nat (length gs)
     = Z.min (Z.of_nat (length fs)) (Z.max 0 (max_retries (retry_policy s) - attempts s))).
Proof.
  revert s. induction fs as [|f fs IH]; intros s Hok Ha; [cbn; split_and!; try done; lia|].
  cbn [grants]. pose proof (schedule_spec f s Hok Ha) as Hspec.
  destruct (schedule f s) as [[g|] s'] eqn:Hs; cbn in Hspec.
  - destruct Hspec as (-> & Hre & Hen & Hn & Hlt & _ & Hdelay).
    assert (within_limit (provider_delay_limit_ms s) f /\
      delay_ms g = delay_of (retry_policy s) (attempts s + 1) f) as [Hlim Hd].
    { unfold within_limit, delay_of. destruct (retry_after_ms f); [by destruct Hdelay|by split]. }
    destruct (IH (with_attempts (attempts s + 1) s) Hok) as (Hlen & Hall & Hfull); [cbn; lia|].
    cbn [length retry_policy attempts provider_delay_limit_ms with_attempts] in *.
    split_and!; [lia| |].
    + intros [|n] g' Hg; cbn in Hg.
      * injection Hg as <-. split; [lia|]. exists f. split_and!; [done..|].
        rewrite Hd. f_equal. lia.
      * destruct (Hall n g' Hg) as (Hnum & f' & Hf & Hr' & Hl' & Hd'). split; [lia|].
        exists f'. split_and!; [done..|]. rewrite Hd'. f_equal. lia.
    + intros _ Hfs. apply Forall_cons in Hfs as [_ Hfs]. specialize (Hfull Hen Hfs). lia.
  - cbn. split_and!; [lia|done|]. intros Hen Hfs. apply Forall_cons in Hfs as [[Hre Hlim] _].
    destruct (Z.ltb_spec (attempts s) (max_retries (retry_policy s))) as [Hlt|]; [|lia].
    destruct (schedule_grants f s Hok Ha Hen Hre Hlim Hlt) as [g Hg]. by rewrite Hs in Hg.
Qed.

End Retries.

(** ** One attempt *)

Section Attempts.
Context {R : RigTypes}.
Variable native_blocks : RigAssistantMessage -> result (list ContentBlock) (ModelError R).
Variable no_usage : ModelUsage R.
Variable display : ModelError R -> string.

Definition is_delta (e : ModelStreamEvent R) : bool :=
  match e with Finished _ => false | _ => true end.

(** Two neighbouring blocks of streamed text are one block. *)
Definition glue_cons (b : ContentBlock) (blocks : list ContentBlock) : list ContentBlock :=
  match b, blocks with
  | Text t, Text u :: rest => Text (t +:+ u) :: rest
  | Reasoning t, Reasoning u :: rest => Reasoning (t +:+ u) :: rest
  | _, _ => b :: blocks
  end.

Definition event_block (e : ModelStreamEvent R) : list ContentBlock :=
  match e with
  | TextDelta d => [Text d]
  | ReasoningDelta d => [Reasoning d]
  | ToolCallEvent c => [call_block c]
  | Finished _ => []
  end.

(** The blocks a stream stands for. *)
Definition merge (events : list (ModelStreamEvent R)) : list ContentBlock :=
  foldr glue_cons [] (events ≫= event_block).

(** What accumulated blocks become when more follow. *)
Definition glue (blocks more : list ContentBlock) : list ContentBlock :=
  match last blocks with
  | Some b => (removelast blocks ++ glue_cons b more)%list
  | None => more
  end.

Lemma glue_snoc blocks b more : glue (blocks ++ [b]) more = (blocks ++ glue_cons b more)%list.
Proof. unfold glue. by rewrite last_snoc, removelast_last. Qed.

Lemma glue_nil blocks : glue blocks [] = blocks.
Proof. destruct blocks as [|b blocks _] using rev_ind; [done|]. rewrite glue_snoc. by destruct b. Qed.

Lemma glue_step blocks b more :
  glue (glue blocks [b]) more = glue blocks (glue_cons b more).
Proof.
  destruct blocks as [|x blocks _] using rev_ind.
  - by destruct b.
  - rewrite !glue_snoc.
    assert (forall a c : ContentBlock, (blocks ++ [a; c] = (blocks ++ [a]) ++ [c])%list) as Htwo
      by (intros; by rewrite <- app_assoc).
    destruct x, b; cbn [glue_cons]; rewrite ?Htwo, glue_snoc, <- ?app_assoc; try done;
      destruct more as [|[] ?]; cbn [glue_cons]; rewrite ?string_app_assoc; done.
Qed.

Lemma push_text_glue d blocks : push_text d blocks = glue blocks [Text d].
Proof. unfold push_text, glue. destruct blocks as [|x blocks _] using rev_ind; [done|].
  rewrite last_snoc, removelast_last. destruct x; by rewrite <- ?app_assoc. Qed.

Lemma push_reasoning_glue d blocks : push_reasoning d blocks = glue blocks [Reasoning d].
Proof. unfold push_reasoning, glue. destruct blocks as [|x blocks _] using rev_ind; [done|].
  rewrite last_snoc, removelast_last. destruct x; by rewrite <- ?app_assoc. Qed.

Lemma push_call_glue c blocks : (blocks ++ [call_block c])%list = glue blocks [call_block c].
Proof. unfold glue. destruct blocks as [|x blocks _] using rev_ind; [done|].
  rewrite last_snoc, removelast_last. destruct x; by rewrite <- ?app_assoc. Qed.

(** Some time, or the other one. *)
Definition or_else {A} (a b : option A) : option A := match a with Some x => Some x | None => b end.

Abbreviation timed := (ModelStreamEvent R * TimestampMs)%type.
Definition events_of (l : list timed) : list (StreamItem R) := (fun e => Event e.1 e.2) <$> l.

(** The stream loop accumulates exactly the merged blocks, and notes the time of
    the first and of the last output. *)
Lemma stream_deltas late (deltas : list timed) rest (a : AssistantAttempt R) :
  Forall (fun e => is_delta e.1 = true) deltas -> attempt_final a = None ->
  stream_loop late (events_of deltas ++ rest) a
  = stream_loop late rest
      {| attempt_identity := attempt_identity a; attempt_profile := attempt_profile a;
         attempt_timestamp := attempt_timestamp a;
         attempt_started := or_else (attempt_started a) (snd <$> head deltas);
         attempt_ended := or_else (snd <$> last deltas) (attempt_ended a);
         attempt_blocks := glue (attempt_blocks a) (merge deltas.*1);
         attempt_final := None |}.
Proof.
  intros Hd. revert a. induction Hd as [|[e at_ms] deltas He _ IH]; intros a Hf.
  - cbn. destruct a as [? ? ? started ? blocks ?]; cbn in *. subst. f_equal. f_equal.
    + by destruct started.
    + symmetry. apply glue_nil.
  - cbn [events_of fmap list_fmap app fst snd] in *. cbn [stream_loop].
    assert (apply_event e at_ms a
      = (Ok tt, with_output at_ms (glue (attempt_blocks a) (event_block e)) a)) as ->.
    { unfold apply_event. rewrite Hf. destruct e; try done; cbn [event_block];
        by rewrite ?push_text_glue, ?push_reasoning_glue, ?push_call_glue. }
    change (list_fmap _ _ _ deltas) with (events_of deltas).
    rewrite IH by exact Hf. rewrite last_cons. f_equal. f_equal.
    + cbn. by destruct (attempt_started a).
    + by destruct (last deltas).
    + unfold merge. cbn. destruct e; try done; cbn [event_block app foldr]; apply glue_step.
Qed.

(** How a stream that yields output, then perhaps terminal metadata, then one
    more item ends. *)
Inductive Outcome : Type :=
| OutCompleted (final : ModelFinal R)
| OutFailed (failure : ModelFailure R)
| OutCancelled.

Definition outcome_of (fin : option (ModelFinal R)) (tail : StreamItem R) : option Outcome :=
  match tail, fin with
  | StreamEnd _, Some final => Some (OutCompleted final)
  | StreamEnd _, None =>
      Some (OutFailed (plain_failure "model stream ended without terminal metadata" Retryable))
  | StreamError (ModelCancelled) _, _ | SessionCancelled _, _ => Some OutCancelled
  | StreamError error _, _ => Some (OutFailed (failure_of display error))
  | Event _ _, Some _ =>
      Some (OutFailed (plain_failure "model emitted data after terminal metadata" NonRetryable))
  | Event _ _, None => None
  end.

Definition tail_time (late : TimestampMs) (tail : StreamItem R) : TimestampMs :=
  match tail with
  | Event _ _ => late
  | StreamError _ at_ms | SessionCancelled at_ms | StreamEnd at_ms => at_ms
  end.

(** The message an ended stream becomes. *)
Definition settled_content (profile : ModelProfile) (blocks : list ContentBlock)
  (fin : option (ModelFinal R)) (o : Outcome) : MessageContent R :=
  let shown := match blocks with [] => [Text ""] | _ => blocks end in
  let reported := from_option final_usage no_usage fin in
  let metadata reason raw usage error overflow :=
    {| provider_id := profile_provider_id profile; model_id := profile_model_id profile;
       stop_reason := reason; raw_stop_reason := raw; metadata_usage := usage;
       metadata_error := error; context_overflow := overflow |} in
  match o with
  | OutCompleted f =>
      Assistant (match final_message f with
                 | Some native => match native_blocks native with Ok bs => bs | Err _ => [] end
                 | None => shown
                 end)
        (metadata (final_stop_reason f) (final_raw_stop_reason f) (final_usage f) None false)
        (final_message f)
  | OutFailed e =>
      Assistant shown
        (metadata StopError None (default reported (failure_usage e))
           (Some (failure_summary e)) (failure_overflow e)) None
  | OutCancelled => Assistant shown (metadata StopCancelled None reported None false) None
  end.

Definition settled_as (o : Outcome) (m : AgentMessage R) : AttemptResult R :=
  match o with
  | OutCompleted _ => AttemptCompleted m
  | OutFailed e => AttemptFailed m e
  | OutCancelled => AttemptCancelled m
  end.

(** C16: however the stream splits its output and however it ends, the message
    it becomes holds the text, reasoning and calls in order with neighbouring
    pieces joined -- or the blocks of the provider's own final message, only
    when it completed -- and the kind of result, stop reason, usage and error
    are those of the way it ended: data after the terminal metadata, an early
    end, an error or a cancellation are never a completed answer. *)
Theorem attempt_settles late id turn profile ts (deltas : list timed) fin tail o :
  Forall (fun e => is_delta e.1 = true) deltas ->
  outcome_of (fst <$> fin) tail = Some o ->
  (forall f native, o = OutCompleted f -> final_message f = Some native ->
    exists bs, native_blocks native = Ok bs) ->
  let started := default ts (snd <$> head deltas) in
  let ended := default (tail_time late tail) (snd <$> last deltas) in
  timestamp_lt ended started = false ->
  let items := (events_of deltas
    ++ from_option (fun f => [Event (Finished f.1) f.2]) [] fin ++ [tail])%list in
  exists s a, stream_loop late items (attempt_new id turn profile ts) = (Some s, a) /\
    settle native_blocks no_usage display a s
    = Ok (settled_as o
        {| identity := {| message_id := id; turn_id := turn |};
           timing := {| timestamp_ms := ts; started_at_ms := started; ended_at_ms := ended |};
           content := settled_content profile (merge deltas.*1) (fst <$> fin) o |}).
Proof.
  intros Hd Ho Hnative started ended Htime items. unfold items.
  rewrite stream_deltas by done. cbn [attempt_new attempt_identity attempt_profile
    attempt_timestamp attempt_started attempt_ended attempt_blocks].
  assert (forall l, glue [] l = l) as Hglue by done. rewrite Hglue. cbn [or_else].
  set (a0 := {| attempt_identity := _ |}).
  assert (forall (x : AssistantAttempt R) at_ms, at_ms = tail_time late tail ->
    attempt_timestamp x = ts -> attempt_started x = attempt_started a0 ->
    attempt_ended x = attempt_ended a0 ->
    attempt_timing x at_ms
    = Ok {| timestamp_ms := ts; started_at_ms := started; ended_at_ms := ended |}) as Htiming.
  { intros x at_ms -> H1 H2 H3. unfold attempt_timing, message_timing_try_from.
    rewrite H1, H2, H3. subst a0. cbn. unfold started, ended in *.
    destruct (head deltas) as [p|], (last deltas) as [q|]; cbn in *; by rewrite Htime. }
  destruct fin as [[f ft]|]; destruct tail as [e t|[]  t|t|t]; cbn in Ho; try done;
    injection Ho as <-; eexists _, _; (split; [reflexivity|]);
    unfold settle, settled_cause, reported; cbn -[attempt_timing merge];
    repeat match goal with
      | |- context [failure_usage ?e] => destruct (failure_usage e)
      | |- context [final_message ?x] =>
          destruct (final_message x) as [native|] eqn:Hn;
          [destruct (Hnative x native eq_refl Hn) as [blocks Hb]; rewrite ?Hb|]
      end; cbn -[attempt_timing merge]; rewrite ?Htiming by done;
    cbn -[attempt_timing merge]; repeat case_match; done.
Qed.

End Attempts.

(** ** Concrete inputs *)

Definition overloaded (wait : option Z) : ModelFailure sample_rig :=
  {| failure_summary := "overloaded"; failure_status := Some 529%Z; retry_disposition := Retryable;
     retry_after_ms := wait; failure_overflow := false; failure_usage := None |}.

Definition two_retries : RetryState :=
  retry_state_new {| retry_enabled := true; max_retries := 2; base_delay_ms := 1000;
                     max_retry_delay_ms := 60000 |} 60000.

Lemma retry_budget_witness :
  length (grants [overloaded None; overloaded (Some 30%Z); overloaded None] two_retries) = 2 /\
  delay_ms <$> head (grants [overloaded None] two_retries) = Some 1000%Z.
Proof.
  destruct (retry_budget [overloaded None; overloaded (Some 30%Z); overloaded None] two_retries)
    as (Hlen & _ & Hfull).
  { split; [|split]; split; vm_compute; discriminate. }
  { vm_compute; discriminate. }
  split; [|vm_compute; reflexivity].
  apply Nat2Z.inj. rewrite Hfull; [vm_compute; reflexivity|vm_compute; reflexivity|].
  repeat constructor; vm_compute; discriminate.
Defined.

Lemma attempt_settles_witness :
  exists a s, stream_loop (time 9)
    [Event (TextDelta "he") (time 3); Event (TextDelta "llo") (time 4); StreamEnd (time 5)]
    (attempt_new (MkId "m-1" I) (MkId "t-1" I) sample_profile (time 2)) = (Some s, a) /\
  exists m f, settle no_native sample_no_usage (fun _ => "") a s = Ok (AttemptFailed m f) /\
    is_retryable f = true /\
    exists meta, content m = Assistant [Text "hello"] meta None /\ stop_reason meta = StopError.
Proof.
  destruct (attempt_settles (R := sample_rig) no_native sample_no_usage (fun _ => "")
    (time 9) (MkId "m-1" I) (MkId "t-1" I) sample_profile (time 2)
    [(TextDelta "he", time 3); (TextDelta "llo", time 4)] None (StreamEnd (time 5)) _
    ltac:(repeat constructor) eq_refl) as (s & a & Hloop & Hsettle).
  - intros f native [=].
  - vm_compute. reflexivity.
  - exists a, s. split; [exact Hloop|]. eexists _, _. split; [exact Hsettle|].
    split; [reflexivity|]. eexists. split; reflexivity.
Defined.
