(* ===== verification/ToolBatchTheorems.v ===== *)
(** What a batch of tool calls answers. *)

From S2P Require Import Prelude Chars Scalar Json Message StoreModel StoreState ToolContract KernelErrors Plan.
From S2P Require Import Replay Transcript Compaction Attempt Queue RunWorld ToolBatch.
From S2P Require Import StoreSession Samples RunSamples.
From stdpp Require Import sorting.
Open Scope string_scope.
Open Scope rust_scope.

(** ** Lists of numbered values *)

Lemma take_nth_perm {A} n (l : list A) x r : take_nth n l = Some (x, r) -> l ≡ₚ x :: r.
Proof.
  revert n r. induction l as [|y l IH]; intros [|n] r; cbn; try done; [by intros [= -> ->]|].
  destruct (take_nth n l) as [[z r']|] eqn:Ht; [|done]. intros [= -> <-].
  rewrite (IH _ _ Ht). apply Permutation_swap.
Qed.
Lemma take_nth_some {A} n (l : list A) : n < length l -> is_Some (take_nth n l).
Proof.
  revert n. induction l as [|y l IH]; intros [|n] Hn; cbn in *; [lia|lia|by eexists|].
  destruct (IH n) as [[z r] ->]; [lia|]. by eexists.
Qed.

(** Numbered values are determined by their numbers and their multiset. *)
Lemma numbered_unique {A} (l k : list (nat * A)) :
  l ≡ₚ k -> l.*1 = k.*1 -> NoDup l.*1 -> l = k.
Proof.
  revert k. induction l as [|[n a] l IH]; intros [|[m b] k] Hp Hf Hnd; try done; cbn in *.
  injection Hf as -> Hf. apply NoDup_cons in Hnd as [Hn Hnd].
  assert ((m, a) = (m, b)) as Heq.
  { assert ((m, a) ∈ (m, b) :: k) as [?|Hin]%elem_of_cons by (rewrite <- Hp; by left); [done|].
    destruct Hn. rewrite Hf. by apply (list_elem_of_fmap_2 fst _ (m, a)). }
  injection Heq as ->. f_equal. apply IH; [by apply Permutation_cons_inv in Hp|done|done].
Qed.

Lemma sorted_numbers (l : list nat) k n : l ≡ₚ seq k n -> StronglySorted le l -> l = seq k n.
Proof.
  intros Hp Hs. apply (StronglySorted_unique_strong le); [|done| |done].
  - intros x y _ _ Hxy Hyx. lia.
  - clear Hp Hs. revert k. induction n as [|n IH]; intros k; constructor; [apply IH|].
    apply Forall_seq. lia.
Qed.

Section Batch.
Context {R : RigTypes} {CC : ContentCodec R} {S : Type} `{SessionStore S} {E : RunEnv R S}.
Context {TE : ToolEnv}.
Abbreviation W := (World R S).
Abbreviation K := (M (World R S) KernelError).

(** What tools, hooks and the output projection promise: a result answers the
    call it was made for. *)
Record ids_kept : Prop := {
  run_keeps : forall n c r, run_tool n c = Ok r -> result_call_id r = ToolContract.call_id c;
  hooks_keep : forall n c r, result_call_id (tool_result_hooks n c r) = result_call_id r;
  project_keeps : forall n c r r', project_output n c r = Ok r' ->
    result_call_id r' = result_call_id r
}.

Lemma bind_ok {A B} (m : K A) (k : A -> K B) w b w' :
  m_bind m k w = (Ok b, w') -> exists a w1, m w = (Ok a, w1) /\ k a w1 = (Ok b, w').
Proof. unfold m_bind. destruct (m w) as [[a|e] w1]; [by eauto|done]. Qed.

Ltac steps H := repeat (apply bind_ok in H as (? & ? & ? & H)).

(** The call a pending one was made of, by number. *)
Definition pending_key (p : PendingCall) : nat * ToolCallId :=
  (pending_index p, ToolContract.call_id (pending_call p)).
Definition judged_ok (p : PendingCall) : Prop := forall r,
  immediate_result p = Some r -> result_call_id r = ToolContract.call_id (pending_call p).

Lemma judge_id gate blocked c r : judge gate blocked c = Some r -> result_call_id r = ToolContract.call_id c.
Proof.
  unfold judge. destruct blocked as [b|]; [by intros [= <-]|].
  destruct (check _ _ _ _); [|by intros [= <-]].
  destruct (invalid_arguments c); [by intros [= <-]|].
  destruct (invalid_call c); cbn; [by intros [= <-]|done].
Qed.

Lemma start_calls_keys run turn gate k calls (w : W) ps stop w' :
  start_calls run turn gate k calls w = (Ok (ps, stop), w') ->
  pending_key <$> ps = zip (seq k (length calls)) (ToolContract.call_id <$> calls) /\ Forall judged_ok ps.
Proof.
  revert k w ps stop w'. induction calls as [|c calls IH]; intros k w ps stop w'; cbn [start_calls].
  { by intros [= <- <- <-]. }
  intros Hr. apply bind_ok in Hr as ([p s1] & w1 & Hp & Hr).
  apply bind_ok in Hr as ([others s2] & w2 & Ho & Hr). injection Hr as <- <- <-.
  destruct (IH _ _ _ _ _ Ho) as [Hkeys Hall].
  assert (pending_key p = (k, ToolContract.call_id c) /\ judged_ok p) as [Hk Hj].
  { unfold start_call in Hp. steps Hp.
    destruct (_ c) as [|arguments|b] in Hp; injection Hp as <- <- <-;
      (split; [done|]); intros r Hj.
    - exact (judge_id gate None c r Hj).
    - exact (judge_id gate None (with_arguments arguments c) r Hj).
    - exact (judge_id gate (Some b) c r Hj). }
  split; [|by constructor]. cbn. by rewrite Hk, Hkeys.
Qed.

(** What one completed call holds. *)
Definition done_ok (turn : TurnId) (d : nat * (AgentMessage R * ToolResultData)) : Prop :=
  content d.2.1 = result_content d.2.2 /\ turn_id (identity d.2.1) = turn.
Definition done_key (d : nat * (AgentMessage R * ToolResultData)) : nat * ToolCallId :=
  (d.1, result_call_id d.2.2).

Hypothesis ids : ids_kept.

Lemma run_call_id p (w : W) r w' :
  judged_ok p -> run_call p w = (Ok r, w') -> result_call_id r = ToolContract.call_id (pending_call p).
Proof.
  intros Hj Hr. unfold run_call in Hr. destruct (immediate_result p) as [x|] eqn:Hi.
  - injection Hr as <- <-. by apply Hj.
  - steps Hr. injection Hr as <- _. destruct (_ (pending_call p)) as [y|[stopped text]] eqn:Hx; [|done].
    unfold ask in *. simplify_eq. by eapply (run_keeps ids).
Qed.

Lemma complete_call_ok run turn p (w : W) d stop w' :
  judged_ok p -> complete_call run turn p w = (Ok (d, stop), w') ->
  done_key d = pending_key p /\ done_ok turn d.
Proof.
  intros Hj Hr. unfold complete_call in Hr.
  apply bind_ok in Hr as (r1 & w1 & Hrun & Hr). apply run_call_id in Hrun; [|done].
  apply bind_ok in Hr as (stopped & w2 & _ & Hr). steps Hr.
  match goal with Ha : ask tool_result_hooks _ = (Ok ?hooks, _) |- _ =>
    assert (forall r, result_call_id (hooks (pending_call p) r) = result_call_id r) as Hh
      by (intros r; injection Ha as <- _; apply (hooks_keep ids)) end.
  match goal with Hx : _ = (Ok ?result, _) |- _ =>
    match type of Hr with context [result_content result] =>
      assert (result_call_id result = ToolContract.call_id (pending_call p)) as Hid end end.
  { destruct (immediate_result p).
    - match goal with Hx : m_ret (with_cancelled _ _) _ = _ |- _ => injection Hx as <- _ end.
      cbn [result_call_id with_cancelled]. by rewrite Hh.
    - match goal with Hx : m_bind await _ _ = _ |- _ => rename Hx into Hpr end. steps Hpr.
      match goal with Ha : ask project_output _ = (Ok ?project, _) |- _ =>
        injection Ha as <- _ end.
      injection Hpr as Hpr _. apply (project_keeps ids) in Hpr. rewrite Hpr.
      cbn [result_call_id with_cancelled]. by rewrite Hh. }
  injection Hr as <- _ _. split; [|done]. unfold done_key, pending_key. cbn. by rewrite Hid.
Qed.

Lemma complete_calls_ok fuel run turn pending b (w : W) ds b' stop w' :
  Forall judged_ok pending -> length pending <= fuel ->
  complete_calls fuel run turn pending b w = (Ok (ds, b', stop), w') ->
  done_key <$> ds ≡ₚ pending_key <$> pending /\ Forall (done_ok turn) ds.
Proof.
  revert pending b w ds b' stop w'. induction fuel as [|fuel IH];
    intros pending b w ds b' stop w' Hj Hlen Hr; cbn [complete_calls] in Hr.
  { injection Hr as <- _ _ _. by destruct pending; cbn in *; [|lia]. }
  apply bind_ok in Hr as (? & ? & _ & Hr). apply bind_ok in Hr as (stopped & ? & _ & Hr).
  apply bind_ok in Hr as (pick & w2 & _ & Hr).
  destruct (take_nth _ pending) as [[p rest]|] eqn:Ht.
  - apply bind_ok in Hr as ([d s1] & w3 & Hd & Hr).
    apply bind_ok in Hr as ([[others c] s2] & w4 & Ho & Hr). injection Hr as <- _ _ _.
    apply take_nth_perm in Ht. rewrite Ht in Hj. apply Forall_cons in Hj as [Hp Hrest].
    apply Permutation_length in Ht as Hl. cbn in Hl.
    destruct (complete_call_ok _ _ _ _ _ _ _ Hp Hd) as [Hk Hok].
    destruct (IH _ _ _ _ _ _ _ Hrest ltac:(lia) Ho) as [Hks Hoks].
    split; [|by constructor]. rewrite fmap_cons, Hk, Hks, Ht. done.
  - injection Hr as <- _ _ _. destruct pending as [|p ps]; [done|].
    destruct (take_nth_some (pick mod length (p :: ps)) (p :: ps)) as [z Hz]; [|congruence].
    by apply Nat.mod_upper_bound.
Qed.

(** C20: whatever order the calls of a batch complete in, a batch answers each
    call exactly once and in the order of the calls: its results carry the
    calls' identifiers in their order, and its messages are those results on
    the batch's Turn. *)
Theorem batch_in_call_order run turn gate calls (w : W) b w' :
  execute_tool_batch run turn gate calls w = (Ok b, w') ->
  result_call_id <$> batch_results b = ToolContract.call_id <$> calls /\
  Forall2 (fun m r => content m = result_content r /\ turn_id (identity m) = turn)
    (batch_messages b) (batch_results b).
Proof.
  unfold execute_tool_batch. intros Hr.
  apply bind_ok in Hr as ([ps stop] & w1 & Hs & Hr).
  apply bind_ok in Hr as ([[ds c] stops] & w2 & Hc & Hr). injection Hr as <- _.
  destruct (start_calls_keys _ _ _ _ _ _ _ _ _ Hs) as [Hkeys Hj].
  destruct (complete_calls_ok _ _ _ _ _ _ _ _ _ _ Hj (le_n _) Hc) as [Hperm Hok].
  set (sorted := merge_sort by_index ds).
  assert (sorted ≡ₚ ds) as Hsp by apply merge_sort_Permutation.
  assert (Forall (done_ok turn) sorted) as Hsok by (by rewrite Hsp).
  assert ((done_key <$> sorted) = zip (seq 0 (length calls)) (ToolContract.call_id <$> calls)) as Heq.
  { assert ((done_key <$> sorted) ≡ₚ zip (seq 0 (length calls)) (ToolContract.call_id <$> calls)) as Hp
      by (by rewrite Hsp, Hperm, Hkeys).
    assert (length (seq 0 (length calls)) = length (ToolContract.call_id <$> calls)) as Hlen
      by (by rewrite length_seq, length_fmap).
    assert ((done_key <$> sorted).*1 = seq 0 (length calls)) as Hnum.
    { apply sorted_numbers.
      - rewrite Hp. by rewrite fst_zip by (rewrite Hlen; done).
      - rewrite <- list_fmap_compose. apply (StronglySorted_fmap _ by_index); [done|].
        apply Sorted_StronglySorted; [intros x y z; unfold by_index; lia|].
        apply Sorted_merge_sort. intros x y. unfold by_index. lia. }
    apply numbered_unique; [exact Hp| |rewrite Hnum; apply NoDup_seq].
    rewrite Hnum, fst_zip; [done|]. by rewrite Hlen. }
  cbn [batch_results batch_messages]. rewrite <- !list_fmap_compose. split.
  - transitivity ((done_key <$> sorted).*2); [by rewrite <- list_fmap_compose|].
    rewrite Heq, snd_zip; [done|]. by rewrite length_seq, length_fmap.
  - apply Forall2_fmap_2, Forall_Forall2_diag. exact Hsok.
Qed.

End Batch.

(** ** Two calls, the second of which completes first *)

Definition sample_call (i : ToolCallId) (name : string) : ToolCall :=
  {| ToolContract.call_id := i; ToolContract.call_name := name; ToolContract.call_arguments := JObject ∅;
     invalid_arguments := None |}.
Definition two_calls : list ToolCall :=
  [sample_call (MkId "call-a" I) "read"; sample_call (MkId "call-b" I) "write"].

Lemma sample_ids_kept : ids_kept (TE := sample_tools).
Proof. split; [by intros n c r [= <-]|done|by intros n c r r' [= <-]]. Qed.

Abbreviation sample_batch := (execute_tool_batch run_one sample_turn
  {| gate_mode := ModeDefault; kernel_owned := ∅ |} two_calls (sample_world one_queued)).
Definition ended_calls (w : World sample_rig JsonlSessionStore) : list string :=
  omap (fun e => match event_payload e with
                 | ToolExecutionEnd _ result => Some (as_str (result_call_id result))
                 | _ => None
                 end) (events w).

Lemma sample_batch_ends :
  let '(r, w) := sample_batch in is_ok r = true /\ ended_calls w = ["call-b"; "call-a"].
Proof. vm_compute. by split. Qed.

Lemma batch_in_call_order_witness :
  let '(r, w) := sample_batch in
  ended_calls w = ["call-b"; "call-a"] /\
  exists b, r = Ok b /\ result_call_id <$> batch_results b = ToolContract.call_id <$> two_calls.
Proof.
  pose proof sample_batch_ends as Hends. destruct sample_batch as [r w] eqn:Hr.
  destruct Hends as [Hok Hev]. split; [exact Hev|].
  destruct r as [b|e]; [|discriminate Hok]. exists b. split; [reflexivity|].
  exact (proj1 (batch_in_call_order sample_ids_kept _ _ _ _ _ _ _ Hr)).
Defined.
