(* ===== verification/RunTheorems.v ===== *)
(** The properties of a run. *)

From S2P Require Import Prelude Chars Scalar Json Message StoreModel StoreState StoreSession.
From S2P Require Import StoreInv StoreLaws ToolContract KernelErrors Plan Replay Transcript Aligned Compaction.
From S2P Require Import Attempt Queue QueueReplay QueueSteps QueueKeeps RunWorld.
From S2P Require Import CompactionRun ToolBatch TurnLoop RunSettlement RunFrames RunMoves.
From S2P Require Import Paths Template Skills PromptSession Commands DirectRun DirectMoves Samples RunSamples.
Open Scope string_scope.
Open Scope rust_scope.

Section RunTheorems.
Context {R : RigTypes} {CC : ContentCodec R} {U : UsageCounters R} {UR : UsageReport R} `{JsonText}.
Context {S : Type} `{SessionStoreLaws S} {E : RunEnv R S} {TE : ToolEnv}.
Context {Handler : Type} {DE : DirectEnv Handler} `{ReadFs}.
Variable extension_json : ExtensionMessage -> string.
Variables SUMMARIZATION_SYSTEM_PROMPT SUMMARIZATION_PROMPT : string.
Variables UPDATE_SUMMARIZATION_PROMPT TURN_PREFIX_SUMMARIZATION_PROMPT : string.
Variable config : KernelConfig.
Variable insertion : option nat.
Variable cwd : string.
Variable quoted_names : list string -> string.
Variable registry : CommandRegistry Handler.
Variable catalog : option SkillCatalog.
Variable prompts : PromptSession.
Variable admitted : bool.
Abbreviation W := (World R S).
Abbreviation Q := (QueueSession R S).
Abbreviation run_until_settled := (DirectRun.run_until_settled extension_json SUMMARIZATION_SYSTEM_PROMPT
  SUMMARIZATION_PROMPT UPDATE_SUMMARIZATION_PROMPT TURN_PREFIX_SUMMARIZATION_PROMPT config insertion cwd
  quoted_names registry catalog prompts admitted).
Abbreviation generate := (generate_compaction_summary SUMMARIZATION_SYSTEM_PROMPT
  SUMMARIZATION_PROMPT UPDATE_SUMMARIZATION_PROMPT TURN_PREFIX_SUMMARIZATION_PROMPT config).
Abbreviation generated_summary := (CompactionRun.generated_summary SUMMARIZATION_SYSTEM_PROMPT
  SUMMARIZATION_PROMPT UPDATE_SUMMARIZATION_PROMPT TURN_PREFIX_SUMMARIZATION_PROMPT config).
Abbreviation start_agent := (TurnLoop.start_agent extension_json SUMMARIZATION_SYSTEM_PROMPT
  SUMMARIZATION_PROMPT UPDATE_SUMMARIZATION_PROMPT TURN_PREFIX_SUMMARIZATION_PROMPT config).

(** ** A run against the queue's specification *)

(** C17: whatever a request is -- a shell command, a slash command or a run with
    its Turns, retries, tool batches, compactions and settlement -- and however
    it goes, with other tasks acting at every suspension and any call of the
    environment failing, it is a sequence of queue steps.  So when it ends,
    either the transcript is latched or recovery from the store's records gives
    exactly the live queue: no message it claimed is lost, and none it inserted
    comes back. *)
Theorem run_survives_restart reserved session_id fuel input processed (s0 : Q) (w w' : W) r :
  env_ok reserved ->
  store_wf (store_of s0) ->
  Forall (fun x => queue_kind (record_kind x) = false) (records (store_of s0)) ->
  steering (queue s0) = [] -> follow_up (queue s0) = [] ->
  rtc (queue_step kernel_error_text) (s0, None) (session w, None) ->
  pending_ok reserved (session w) None ->
  run_until_settled session_id fuel input processed w = (r, w') -> r <> Ok None ->
  rtc (queue_step kernel_error_text) (session w, None) (session w', None) /\
  (q_latched (session w') = true \/
   restore (store_of (session w')) = Ok (strip_queue (queue (session w')))).
Proof.
  intros env Hwf Hrec Hs Hf Hstart Hp Hr Hfuel.
  destruct (lands_request reserved env extension_json _ _ _ _ config insertion cwd quoted_names registry
    catalog prompts admitted _ _ _ _ _ _ _ Hr Hfuel Hp) as (Hsteps & _ & _).
  split; [exact Hsteps|].
  assert (rtc (queue_step kernel_error_text) (s0, None) (session w', None)) as Hall by (by etrans).
  destruct (steps_inv _ _ _ Hall (or_intror (fresh_in_sync s0 Hwf Hrec Hs Hf))) as [Hl|Hin];
    [by left|right]. exact (in_sync_restore _ Hin).
Qed.

(** C18: a request announces the end of a message only once the session's log
    holds it: whatever fails and whatever other tasks do, every message a shell
    command, a slash command or a run told its clients is an entry of the store.
    Input that an extension took over from a client is told and not stored. *)
Theorem announced_messages_stored reserved session_id fuel input processed (w w' : W) r :
  env_ok reserved -> pending_ok reserved (session w) None ->
  insertion = None \/ (forall n text, input_hooks n text <> InputHandled) ->
  announced w -> run_until_settled session_id fuel input processed w = (r, w') -> r <> Ok None ->
  forall ev m, ev ∈ events w' -> event_payload ev = MessageEnd m -> stored (session w') m.
Proof.
  intros env Hp Htold Hann Hr Hfuel.
  destruct (lands_request reserved env extension_json _ _ _ _ config insertion cwd quoted_names registry
    catalog prompts admitted _ _ _ _ _ _ _ Hr Hfuel Hp) as (_ & _ & Ha). by apply Ha.
Qed.

(** C19: with a limit on Turns a request always ends, however the model, the
    tools and the queue go on: more rounds than the limit are never made. *)
Theorem run_stops reserved session_id fuel most input processed (w : W) :
  env_ok reserved -> pending_ok reserved (session w) None ->
  max_turns config = Some most -> most < fuel ->
  (run_until_settled session_id fuel input processed w).1 <> Ok None.
Proof. intros env Hp Hmost Hfuel. by eapply request_total. Qed.

(** A compaction summary always ends: the retry budget bounds its rounds,
    whatever the model answers. *)
Theorem summary_stops turn at_ms messages protocol (w : W) :
  (generate_compaction_summary SUMMARIZATION_SYSTEM_PROMPT SUMMARIZATION_PROMPT
    UPDATE_SUMMARIZATION_PROMPT TURN_PREFIX_SUMMARIZATION_PROMPT config
    turn at_ms messages protocol w).1 <> Ok None.
Proof. apply generate_total. Qed.

(** ** What a compaction loses, and when it refuses *)

Definition without_previous (p : CompactionPreparation (R := R)) : CompactionPreparation (R := R) :=
  {| summarized := summarized p; turn_prefix := turn_prefix p; prepared_tail := prepared_tail p;
     prepared_tokens_before := prepared_tokens_before p; previous_summary := None;
     file_operations := file_operations p |}.

Lemma summary_of_ok turn at_ms messages protocol (w : W) :
  summary_of SUMMARIZATION_SYSTEM_PROMPT SUMMARIZATION_PROMPT UPDATE_SUMMARIZATION_PROMPT
    TURN_PREFIX_SUMMARIZATION_PROMPT config turn at_ms messages protocol w
  = match generate turn at_ms messages protocol w with
    | (Ok (Some g), w') => (Ok g, w')
    | (Ok None, w') => (Err (Protocol ""), w')
    | (Err e, w') => (Err e, w')
    end.
Proof.
  unfold summary_of, m_bind. by destruct (generate turn at_ms messages protocol w) as [[[g|]|e] w'].
Qed.

(** When the Turn a compaction splits starts right after the previous
    summary, the new summary says there is no prior history and does not
    depend on that summary at all: what it held is gone from the context. *)
Theorem split_turn_forgets_summary turn started p instruction (w : W) :
  summarized p = [] -> turn_prefix p <> [] ->
  generated_summary turn started p instruction w
    = generated_summary turn started (without_previous p) instruction w /\
  forall g w', generated_summary turn started p instruction w = (Ok g, w') ->
    exists text, summary_text_of g = "No prior history." +:+ text.
Proof.
  intros Hs Hp. unfold CompactionRun.generated_summary. cbn [turn_prefix without_previous summarized].
  rewrite Hs. destruct (turn_prefix p) as [|m ms]; [done|]. split; [done|].
  intros g w'. unfold m_bind at 1, m_ret at 1. unfold m_bind.
  destruct (summary_of _ _ _ _ _ _ _ _ _ w) as [[x|e] w1]; [|done].
  intros [= <- _]. by eexists.
Qed.

Lemma compacted_all h :
  Forall (fun m => match content m with
                   | Assistant _ metadata _ => Message.metadata_error metadata = None
                   | _ => True
                   end) h ->
  compacted_history (R := R) None h = h.
Proof.
  intros Hall. unfold compacted_history. induction Hall as [|m h Hm Hh IH]; [done|].
  rewrite filter_cons_True; [by rewrite IH|]. destruct (content m); try done.
  by rewrite bool_decide_eq_true_2.
Qed.

(** A history whose first message is a cut point that fits has nothing to
    summarise. *)
Lemma nothing_to_compact h first rest policy :
  since_summary h = first :: rest -> valid_cut first = true ->
  (0 < keep_recent_tokens policy <= u64_max)%Z ->
  fits extension_json (keep_recent_tokens policy) (first :: rest) 0 = true ->
  has_context extension_json (preparation extension_json h policy) = false.
Proof.
  intros Hh Hv Hk Hf. unfold since_summary in Hh. unfold preparation. rewrite Hh.
  assert (first_kept extension_json policy (first :: rest) = 0) as ->.
  { rewrite first_kept_reference by done. unfold reference_cut.
    assert (exists cuts, valid_cut_points (first :: rest) = 0 :: cuts) as [cuts ->].
    { unfold valid_cut_points. cbn. rewrite Hv. by eexists. }
    by rewrite filter_cons_True. }
  unfold split_turn, has_context. cbn. destruct (starts_turn first) eqn:Hs; [done|].
  by rewrite take_0.
Qed.

(** When the messages since the last summary all fit the budget to keep
    but exceed what the context window leaves free, a run first demands a
    compaction and then refuses to make it: it fails before its prompt is
    inserted, with the history as it was. *)
Theorem due_compaction_refused profile first rest (w : W) :
  (forall n, snapshot_error n = None) -> (forall n, active_model n = profile) ->
  (forall n s, history (transcript (other_tasks n s)) = history (transcript s)) ->
  let h := history (transcript (session w)) in
  Forall (fun m => match content m with
                   | Assistant _ metadata _ => Message.metadata_error metadata = None
                   | _ => True
                   end) h ->
  since_summary h = first :: rest -> valid_cut first = true ->
  (0 < keep_recent_tokens (compaction_policy config) <= u64_max)%Z ->
  fits extension_json (keep_recent_tokens (compaction_policy config)) (first :: rest) 0 = true ->
  pre_prompt_compaction extension_json config profile h = Some (Threshold, None) ->
  exists w', start_agent w = (Err NoContextToCompact, w') /\
    events w' = events w /\ history (transcript (session w')) = h.
Proof.
  intros Hsnap Hprofile Hothers h Hall Hsince Hv Hk Hf Hpre.
  unfold TurnLoop.start_agent, ask_error, await, modify_loop, modify_world, read_history, ask.
  cbv [m_bind m_ret]. rewrite Hsnap. cbn [asked session loop].
  destruct (before_agent_hooks _) as [prompt drafts].
  cbn [transcript set_session set_loop session asked loop]. rewrite !Hothers, Hprofile. fold h.
  rewrite Hpre. unfold TurnLoop.compact, perform_compaction, m_bind at 1, read_history.
  cbn [transcript set_session set_loop session asked loop excluded_message_id].
  rewrite !Hothers. fold h. rewrite (compacted_all h Hall).
  rewrite (nothing_to_compact h first rest) by done. cbn [negb].
  eexists. split; [reflexivity|]. cbn. by rewrite !Hothers.
Qed.

End RunTheorems.

(** ** A concrete run *)

(** The queued message's entry is reserved. *)
Definition sample_reserved (e : EntryId) : Prop := as_str e = "entry-1".

Lemma sample_env_ok : env_ok sample_reserved.
Proof.
  split.
  - intros n s c Hp. by split; [apply rtc_refl|].
  - intros n id Hid Hres. unfold sample_reserved in Hres.
    unfold id_try_from in Hid. destruct (decide _) in Hid; [|done]. injection Hid as <-. cbn in Hres.
    discriminate Hres.
  - done.
Qed.

Lemma sample_pending_ok : pending_ok sample_reserved one_queued None.
Proof.
  split.
  - apply (steps_keep sample_display (sample_session_over good, None) (one_queued, None)).
    + apply rtc_once, one_queued_step.
    + apply sample_store_wf.
  - intros i Hi.
    assert (items (logical (one_queued, None)) = [item_one]) as Heq by (vm_compute; reflexivity).
    rewrite Heq in Hi. apply list_elem_of_singleton in Hi as ->. by split.
Qed.

Definition ran_out {A} (r : result (option A) KernelError) : bool :=
  match r with Ok None => true | _ => false end.

Lemma sample_announced s : announced (sample_world s).
Proof. intros e m He. unfold sample_world in He. cbn [events] in He. by apply not_elem_of_nil in He. Qed.

(** Two Turns, for the prompt and for the queued message. *)
Lemma sample_run_ends :
  let '(r, w) := sample_run 4 one_queued in
  ran_out r = false /\ is_ok r = true /\ length (items (queue (session w))) = 0 /\
  length (omap (fun e => match event_payload e with MessageEnd m => Some m | _ => None end)
            (events w)) = 4.
Proof. vm_compute. repeat split. Qed.

Lemma run_survives_restart_witness :
  let '(r, w) := sample_run 4 one_queued in
  is_ok r = true /\ length (items (queue (session w))) = 0 /\
  (q_latched (session w) = true \/
   restore (store_of (session w)) = Ok (strip_queue (queue (session w)))).
Proof.
  pose proof sample_run_ends as Hends.
  destruct (sample_run 4 one_queued) as [r w] eqn:Hr. destruct Hends as (Hout & Hok & Hlen & _).
  split; [exact Hok|]. split; [exact Hlen|].
  eapply (run_survives_restart (H2 := no_files) no_extension "" "" "" "" sample_config None "/w" (fun _ => "")
    registry_default None no_prompts false sample_reserved sample_session 4 (TextRunInput "hello") false
    (sample_session_over good) (sample_world one_queued) w r).
  - exact sample_env_ok.
  - apply sample_store_wf.
  - constructor.
  - reflexivity.
  - reflexivity.
  - apply rtc_once, one_queued_step.
  - exact sample_pending_ok.
  - exact Hr.
  - intros ->. discriminate Hout.
Defined.

Lemma announced_messages_stored_witness :
  let '(r, w) := sample_run 4 one_queued in
  exists ev m, ev ∈ events w /\ event_payload ev = MessageEnd m /\ stored (session w) m.
Proof.
  pose proof sample_run_ends as Hends.
  destruct (sample_run 4 one_queued) as [r w] eqn:Hr. destruct Hends as (Hout & _ & _ & Hmany).
  destruct (omap _ (events w)) as [|m ms] eqn:Hm; [discriminate Hmany|].
  assert (m ∈ m :: ms) as Hin by apply list_elem_of_here. rewrite <- Hm in Hin.
  apply list_elem_of_omap in Hin as (ev & Hev & Hpay).
  destruct (event_payload ev) as [| | | | |m'| | | | | | | | | | | | | | | | | |] eqn:Hp; try discriminate Hpay.
  injection Hpay as ->. exists ev, m. split; [exact Hev|]. split; [exact Hp|].
  refine (announced_messages_stored (H2 := no_files) no_extension "" "" "" "" sample_config None "/w" (fun _ => "")
    registry_default None no_prompts false sample_reserved sample_session 4 (TextRunInput "hello") false
    (sample_world one_queued) w r sample_env_ok sample_pending_ok (or_introl eq_refl) (sample_announced _) Hr _ ev m Hev Hp).
  intros ->. discriminate Hout.
Defined.

Lemma run_stops_witness : (sample_run 4 one_queued).1 <> Ok None.
Proof.
  apply (run_stops (H2 := no_files) no_extension "" "" "" "" sample_config None "/w" (fun _ => "")
    registry_default None no_prompts false sample_reserved sample_session 4 3 (TextRunInput "hello") false
    (sample_world one_queued) sample_env_ok sample_pending_ok).
  - reflexivity.
  - lia.
Defined.

(** ** A Turn that outgrows the budget right after a compaction *)

Definition sample_summary : AgentMessage sample_rig :=
  sample_message (MkId "message-3" I) 1 (CompactionSummary
    {| summary_entry_id := entry_a; summary_text := "the user wants a parser";
       summary_tokens_before := 100; summary_read_files := []; summary_modified_files := [] |}).
Definition split_preparation : CompactionPreparation (R := sample_rig) :=
  preparation no_extension
    [sample_summary; sample_message (MkId "message-4" I) 2 (User [Text "go on with the lexer"]);
     sample_message (MkId "message-5" I) 3 (Assistant [Text "the lexer is done, next"] sample_metadata None)]
    {| enabled := true; reserve_tokens := 0; keep_recent_tokens := 3 |}.

Lemma split_turn_forgets_summary_witness :
  previous_summary split_preparation = Some "the user wants a parser" /\
  exists g w, generated_summary "" "" "" "" sample_config first_turn (time 1) split_preparation None
      (sample_world one_queued) = (Ok g, w) /\
    exists text, summary_text_of g = ("No prior history." +:+ text)%string.
Proof.
  split; [vm_compute; reflexivity|].
  destruct (split_turn_forgets_summary "" "" "" "" sample_config first_turn (time 1)
    split_preparation None (sample_world one_queued)) as [_ Htext].
  - vm_compute. reflexivity.
  - vm_compute. discriminate.
  - assert (is_ok (generated_summary "" "" "" "" sample_config first_turn (time 1)
      split_preparation None (sample_world one_queued)).1 = true) as Hok by (vm_compute; reflexivity).
    destruct (generated_summary _ _ _ _ _ _ _ _ _ _) as [[g|e] w]; [|discriminate Hok].
    exists g, w. split; [reflexivity|]. by eapply Htext.
Defined.

(** ** A small window *)

(** After a short exchange, with almost the whole window in reserve. *)
Definition after_exchange : SampleSession :=
  set_transcript (set_context (transcript (sample_session_over good)) (notes_default, [hello; answer]))
    (sample_session_over good).
Definition tight_config : KernelConfig :=
  {| compaction_policy := {| enabled := true; reserve_tokens := 99998; keep_recent_tokens := 20000 |};
     kernel_retry_policy := kernel_retry_policy sample_config;
     provider_retry_delay_limit_ms := 60000; max_turns := Some 3 |}.

Lemma due_compaction_refused_witness : exists w',
  start_agent no_extension "" "" "" "" tight_config (sample_world after_exchange)
    = (Err NoContextToCompact, w') /\ history (transcript (session w')) = [hello; answer].
Proof.
  destruct (due_compaction_refused no_extension "" "" "" "" tight_config sample_profile hello [answer]
    (sample_world after_exchange)) as (w' & Hw & _ & Hh); try reflexivity.
  - repeat constructor.
  - split; [reflexivity|vm_compute; discriminate].
  - by exists w'.
Defined.
