(* ===== verification/ToolOutputTheorems.v ===== *)
(** The properties of the text a tool gives the model. *)

From S2P Require Import Prelude Lines Chars Scalar Json Message ShellOutput OutputWindow.
Open Scope string_scope.
Open Scope rust_scope.

(** ** Truncation *)

(** Where a character may start. *)
Definition at_boundary (s : string) : Prop :=
  match s with String a _ => cont a = false | EmptyString => True end.

Lemma from_boundary_at s : at_boundary (from_boundary s).
Proof. induction s as [|a s IH]; [done|]. cbn. by destruct (cont a) eqn:Ha. Qed.

(** No suffix of the text that starts at a boundary is longer. *)
Lemma from_boundary_longest s p q :
  s = p +:+ q -> at_boundary q -> String.length q <= String.length (from_boundary s).
Proof.
  revert p. induction s as [|a s IH]; intros p Hs Hq.
  - destruct p, q; by cbn.
  - cbn [from_boundary]. destruct (cont a) eqn:Ha.
    + destruct p as [|b p].
      * rewrite string_app_nil_l in Hs. subst q. cbn in Hq. congruence.
      * rewrite string_app_cons in Hs. injection Hs as -> ->. by eapply IH.
    + rewrite Hs, string_length_app. lia.
Qed.

(** A suffix that fits is a suffix of the last bytes. *)
Lemma fitting_suffix p s m :
  String.length s <= m -> m < String.length (p +:+ s) ->
  exists p', str_drop (String.length (p +:+ s) - m) (p +:+ s) = p' +:+ s.
Proof.
  rewrite string_length_app. intros Hs Hm.
  exists (str_drop (String.length p + String.length s - m) p).
  apply str_drop_app. lia.
Qed.

Section Truncation.
Variables (content : string) (ml mb : nat).

(** What [truncate_tail] promises when it cuts. *)
Definition tail_cut (t : TruncationDetails) : Prop :=
  exists before kept, counted_lines content = (before ++ kept)%list /\
    output_lines t = Z.of_nat (length kept) /\ length kept <= ml /\
    if last_line_partial t then
      exists l p, kept = [l] /\ mb < String.length l /\ l = p +:+ td_content t /\
        at_boundary (td_content t) /\
        forall p' s, l = p' +:+ s -> at_boundary s -> String.length s <= mb ->
          String.length s <= String.length (td_content t)
    else
      td_content t = join nl kept /\
      (before = [] \/ length kept = ml \/
       exists b x, before = (b ++ [x])%list /\ mb < String.length (join nl (x :: kept))).

(** A tail truncation leaves a text that fits both limits as it is, and of
    one that does not keeps whole lines from the end, as many as fit both; only
    when the last line alone is too long does it keep a part of it, the longest
    suffix within the limit that starts at a character. *)
Theorem truncate_tail_keeps (t := truncate_tail content ml mb) :
  truncated t = negb (fits content ml mb) /\
  (truncated t = false -> td_content t = content) /\
  (String.length (td_content t) <= mb)%nat /\
  output_bytes t = Z.of_nat (String.length (td_content t)) /\
  total_lines t = Z.of_nat (length (counted_lines content)) /\
  total_bytes t = Z.of_nat (String.length content) /\
  (truncated t = true -> tail_cut t).
Proof.
  unfold t, truncate_tail, fits, tail_cut.
  destruct (_ && _) eqn:Hfits; cbn [details].
  { apply andb_true_iff in Hfits as [_ Hb%Nat.leb_le]. by split_and!. }
  pose proof (tail_loop_spec mb (take ml (reverse (counted_lines content))) [] 0 eq_refl
    (Nat.le_0_l _)) as Hspec.
  destruct (tail_loop _ _ _ _) as [[[kept b] limit] partial].
  destruct Hspec as [(-> & more & rest & -> & Hm & -> & Hle & Hrest)|
    (-> & -> & _ & l & rest & Hm & Hlt & -> & ->)]; cbn [app] in *.
  - cbn [details td_content truncated output_bytes total_lines total_bytes output_lines
      last_line_partial]. split_and!; try done. intros _.
    exists (reverse (rest ++ drop ml (reverse (counted_lines content)))), (reverse more).
    assert (counted_lines content
      = (reverse (rest ++ drop ml (reverse (counted_lines content))) ++ reverse more)%list) as Hall.
    { rewrite <- reverse_app, app_assoc, <- Hm, take_drop. by rewrite reverse_involutive. }
    assert (length more <= ml) as Hml.
    { pose proof (f_equal length Hm) as Hlen. rewrite length_app, length_take in Hlen. lia. }
    split; [exact Hall|]. rewrite length_reverse. split_and!; try done.
    destruct rest as [|x rest].
    + cbn [app] in *. rewrite app_nil_r in Hm. rewrite <- Hm, length_take, length_reverse.
      destruct (decide (length (counted_lines content) <= ml)); [left|right; left; lia].
      by rewrite drop_ge by (by rewrite length_reverse).
    + right. right. destruct Hrest as (_ & _ & Hlong). rewrite reverse_snoc in Hlong.
      cbn [app]. exists (reverse (rest ++ drop ml (reverse (counted_lines content)))), x.
      by rewrite reverse_cons.
  - destruct (utf8_suffix_spec l mb) as (p & Hp & Hlen).
    change (reverse [utf8_suffix l mb]) with [utf8_suffix l mb].
    cbn [details td_content truncated output_bytes total_lines total_bytes output_lines
      last_line_partial join length]. split_and!; try done. intros _.
    exists (reverse (rest ++ drop ml (reverse (counted_lines content)))), [l].
    assert (counted_lines content
      = (reverse (rest ++ drop ml (reverse (counted_lines content))) ++ [l])%list) as Hall.
    { change [l] with (reverse [l]). rewrite <- reverse_app. cbn [app].
      rewrite app_comm_cons, <- Hm, take_drop. by rewrite reverse_involutive. }
    split; [exact Hall|]. split; [done|].
    split; [apply (f_equal length) in Hm; rewrite length_take in Hm; cbn in *; lia|].
    exists l, p. split_and!; try done.
    + unfold utf8_suffix. rewrite (proj2 (Nat.leb_gt _ _)) by done. apply from_boundary_at.
    + intros p' s -> Hs Hsl. unfold utf8_suffix. rewrite (proj2 (Nat.leb_gt _ _)) by done.
      destruct (fitting_suffix p' s mb) as [p'' ->]; [done|done|]. by eapply from_boundary_longest.
Qed.

End Truncation.

(** ** The output of a command *)

(** C23: whatever the chunks a command's UTF-8 output comes in, what the bounded
    window shows of it -- the text, up to a newline at its end, how many lines
    it has and whether it is part of one -- is what truncating the whole output
    would show; unless the output's last line is as long as the window and ended
    by a newline: then that, or nothing.  The counts are the whole output's, and
    once it is truncated the file it was spilled to holds every byte. *)
Theorem shell_output_is_tail lines bytes rolling_bytes io chunks a
  (full := String.concat "" chunks) :
  (bytes + 3 <= rolling_bytes)%nat -> utf8_valid full = true ->
  append_chunks io chunks (accumulator_of lines bytes rolling_bytes) = (Ok tt, a) ->
  let s := snapshot_truncation (output_snapshot a) in
  let t := truncate_tail full lines bytes in
  (same_shown (shown s) (shown t) \/
   (snapshot_content (output_snapshot a) = "" /\ ends_with_char newline full = true /\
    exists l, last (counted_lines full) = Some l /\ (rolling_bytes <= String.length l + 1)%nat)) /\
  snapshot_content (output_snapshot a) = td_content s /\
  truncated s = truncated t /\
  total_lines s = total_lines t /\ total_bytes s = total_bytes t /\
  (truncated s = true -> full_output_file a = Some full).
Proof.
  intros Hroom Hv Hrun s t. subst s t.
  destruct (chunks_tracked io chunks "" (accumulator_of lines bytes rolling_bytes) (Ok tt) a)
    as [Ht Hl]; [cbn; lia|apply accumulator_tracked|done|done|].
  rewrite string_app_nil_l in Ht. fold full in Ht. injection Hl as Hl1 Hl2 Hl3.
  assert (shown (snapshot_truncation (output_snapshot a))
    = shown (truncate_tail (visible a) (visible_lines a) (visible_bytes a))) as -> by done.
  pose proof (snapshot_shown full a Ht Hv) as Hshown. rewrite Hl1, Hl2, Hl3 in Hshown.
  assert (visible a = "" -> snapshot_content (output_snapshot a) = "") as Hempty.
  { intros He. cbn [output_snapshot snapshot_content]. rewrite He. unfold truncate_tail. cbn. by destruct (visible_lines a). }
  split.
  { rewrite Hl1, Hl2. destruct (Hshown Hroom) as [?|(He & ? & ?)]; [by left|]. right. split; [by apply Hempty|done]. }
  cbn [output_snapshot snapshot_truncation snapshot_content td_content truncated total_lines
    total_bytes].
  pose proof (is_truncated_counted full a (tracked_counted _ _ Ht)) as Htrunc.
  rewrite Hl1, Hl2 in *. fold (fits full lines bytes) in Htrunc.
  destruct (truncate_tail_keeps full lines bytes) as (Hcut & _ & _ & _ & -> & -> & _).
  split_and!; [done|by rewrite Hcut| | |].
  - destruct Ht as [[Hs Hc _ Ho] _ _]. unfold seen_lines. by rewrite Hc, Ho, <- counted_lines_length.
  - destruct Ht as [[-> _ _ _] _ _]. done.
  - intros Htr. destruct Ht as [_ _ Hsp]. unfold spooled in Hsp.
    destruct (full_output_file a) as [file|]; [by destruct Hsp as [-> _]|].
    destruct Hsp as [_ Hn]. by rewrite Htr in Hn.
Qed.

Lemma app_last_inj a b c : a +:+ String c "" = b +:+ String c "" -> a = b.
Proof.
  revert b. induction a as [|x a IH]; intros [|y b]; rewrite ?string_app_cons, ?string_app_nil_l.
  - done.
  - intros [= _ Hb]. destruct b; discriminate Hb.
  - intros [= _ Ha]. destruct a; discriminate Ha.
  - intros [= -> H]. f_equal. by apply IH.
Qed.

Lemma ends_with_split c s : ends_with_char c s = true -> exists x, s = x +:+ String c "".
Proof.
  induction s as [|a s IH]; [done|]. destruct s as [|b s].
  - cbn. intros ->%Ascii.eqb_eq. by exists "".
  - intros Hs. destruct (IH Hs) as [x Hx]. exists (String a x). by rewrite string_app_cons, <- Hx.
Qed.

(** The end of a line and its newline. *)
Lemma window_of_line dropped r line :
  dropped +:+ r = line +:+ nl -> dropped <> "" -> r <> "" -> one_line line ->
  ends_with_char newline dropped = false /\ after_newline r = Some "".
Proof.
  intros Heq Hd Hr Hone.
  assert (ends_with_char newline r = true) as He.
  { rewrite <- (ends_with_char_app newline dropped r) by done. rewrite Heq. apply ends_with_char_snoc. }
  destruct (ends_with_split _ _ He) as [x ->]. rewrite string_app_assoc in Heq.
  apply app_last_inj in Heq. subst line. unfold one_line in Hone. rewrite has_char_app in Hone.
  apply orb_false_iff in Hone as [Hdn Hx].
  split; [by apply ends_with_char_none|]. by rewrite after_newline_app.
Qed.

(** A command whose output is one line of more than the window's size
    twice over, with its newline, is shown to the model as having printed
    nothing, and as lines two to one of one; the same line without its newline
    shows its end. *)
Theorem long_line_vanishes one_decimal lines bytes rolling_bytes io chunks line a exit_code signal :
  String.concat "" chunks = line +:+ nl -> one_line line -> utf8_valid line = true ->
  (0 < rolling_bytes)%nat -> (rolling_bytes * 2 < String.length line)%nat ->
  (bytes <= rolling_bytes)%nat ->
  append_chunks io chunks (accumulator_of (S lines) bytes rolling_bytes) = (Ok tt, a) ->
  td_content (truncate_tail (line +:+ nl) (S lines) bytes) = utf8_suffix line bytes /\
  snapshot_content (output_snapshot a) = "" /\
  exists path,
    (format_output one_decimal (output_snapshot a) (current_line_bytes a) "(no output)"
       exit_code signal).1
    = "(no output)" +:+ nl +:+ nl +:+ "[Showing lines 2-1 of 1 ("
      +:+ format_size one_decimal DEFAULT_MAX_BYTES +:+ " limit). Full output: " +:+ path +:+ "]".
Proof.
  intros Hcat Hone Hv Hpos Hlong Hbytes Hrun.
  destruct (chunks_tracked io chunks "" (accumulator_of (S lines) bytes rolling_bytes) (Ok tt) a)
    as [[[Hs Hc Hcur Ho] (dropped & Hfull & Hflag & Hlen & Hmost) _] Hl];
    [done|apply accumulator_tracked|done|done|].
  rewrite string_app_nil_l, Hcat in *. injection Hl as Hl1 Hl2 Hl3.
  assert (Forall one_line [line]) as Hls by (by constructor).
  assert (line +:+ nl = unlines [line] +:+ "") as Hun
    by (cbn; by rewrite !string_app_nil_r).
  assert (counted_lines (line +:+ nl) = [line]) as Hcl by (by rewrite Hun, counted_lines_of).
  destruct (counts_of [line] "" Hls eq_refl) as [Hcn Hob]. rewrite <- Hun in Hcn, Hob.
  rewrite Hcn in Hc. rewrite Hob in Hcur, Ho.
  assert (ends_with_char newline (line +:+ nl) = true) as Hends by apply ends_with_char_snoc.
  assert (visible a = "") as Hvis.
  { destruct Hlen as [->|Hlen].
    { rewrite string_app_nil_l in Hfull. rewrite <- Hfull, string_length_app in Hmost. lia. }
    assert (dropped <> "" /\ rolling a <> "") as [Hd Hr].
    { split; intros He; rewrite He in *; [|cbn in Hlen; lia].
      rewrite string_app_nil_l in Hfull. rewrite <- Hfull, string_length_app in Hmost. lia. }
    destruct (window_of_line dropped (rolling a) line) as [Hend Hafter]; [done..|].
    unfold visible. rewrite Hflag, Hend, (proj2 (String.eqb_neq _ _)) by done. cbn [orb].
    destruct (valid_suffix dropped (rolling a)) as (c & v & Hcv & Hcont & _ & Hvv);
      [by rewrite <- Hfull, utf8_valid_app|].
    rewrite Hcv in *. rewrite after_newline_app in Hafter by (by apply stray_no_newline).
    rewrite lossy_stray, (lossy_valid v), after_newline_app, Hafter by
      (done || apply replacements_no_newline). done. }
  split_and!.
  - pose proof (shown_truncate_tail (line +:+ nl) (S lines) bytes) as Hshown.
    unfold fits in Hshown. rewrite Hcl in Hshown.
    rewrite (proj2 (Nat.leb_gt (String.length _) bytes)), andb_false_r in Hshown
      by (rewrite string_length_app; lia).
    change [line] with ([] ++ [line])%list in Hshown.
    rewrite selection_long_line in Hshown by lia. by injection Hshown.
  - cbn [output_snapshot snapshot_content]. by rewrite Hvis.
  - exists (default "" (full_output_path a)).
    unfold format_output, output_snapshot. rewrite Hvis.
    unfold is_truncated, seen_lines. rewrite Hs, Hc, Ho, Hl2, string_length_app.
    rewrite (proj2 (Nat.ltb_lt _ _)) by lia. cbn [orb negb].
    generalize (format_size one_decimal) DEFAULT_MAX_BYTES. intros size most. reflexivity.
Qed.

(** The size reported for a line shown in part is that of the open line, so of
    a line whose newline was printed it is nothing. *)
Lemma closed_line_has_no_size lines bytes rolling_bytes io chunks line a :
  (0 < rolling_bytes)%nat -> (bytes < String.length line)%nat -> (String.length line + 1 < rolling_bytes)%nat ->
  (bytes + 3 <= rolling_bytes)%nat -> one_line line -> utf8_valid line = true ->
  String.concat "" chunks = line +:+ nl ->
  append_chunks io chunks (accumulator_of (S lines) bytes rolling_bytes) = (Ok tt, a) ->
  last_line_partial (snapshot_truncation (output_snapshot a)) = true /\ current_line_bytes a = 0.
Proof.
  intros Hpos Hlong Hfit Hroom Hone Hv Hcat Hrun.
  assert (Forall one_line [line]) as Hls by (by constructor).
  assert (line +:+ nl = unlines [line] +:+ "") as Hun by (cbn; by rewrite !string_app_nil_r).
  assert (counted_lines (line +:+ nl) = [line]) as Hcl by (by rewrite Hun, counted_lines_of).
  destruct (chunks_tracked io chunks "" (accumulator_of (S lines) bytes rolling_bytes) (Ok tt) a)
    as [Ht Hl]; [done|apply accumulator_tracked|done|done|].
  rewrite string_app_nil_l, Hcat in Ht. injection Hl as Hl1 Hl2 Hl3.
  destruct (counts_of [line] "" Hls eq_refl) as [_ Hob]. rewrite <- Hun in Hob.
  split; [|by rewrite (counted_current _ _ (tracked_counted _ _ Ht)), Hob].
  destruct (snapshot_shown _ _ Ht) as [(_ & _ & Hp)|(_ & _ & l & Hlast & Hlen)].
  - by rewrite utf8_valid_app.
  - lia.
  - rewrite (shown_truncate_tail (line +:+ nl)) in Hp. unfold fits in Hp. rewrite Hcl, Hl1, Hl2 in Hp.
    rewrite (proj2 (Nat.leb_gt (String.length _) bytes)), andb_false_r in Hp
      by (rewrite string_length_app; lia).
    change [line] with ([] ++ [line])%list in Hp. rewrite selection_long_line in Hp by lia.
    cbn [output_snapshot snapshot_truncation last_line_partial]. rewrite Hl1, Hl2. exact Hp.
  - rewrite Hcl in Hlast. injection Hlast as <-. lia.
Qed.

(** ** Concrete commands *)

Definition sample_io : Io := {| new_path := Ok "/tmp/out.log"; write_fails := None; close_fails := None |}.
Definition sample_chunks : list string :=
  ["one" +:+ nl +:+ "two" +:+ nl; "three" +:+ nl +:+ "four" +:+ nl; "five" +:+ nl +:+ "six"].

Lemma shell_output_is_tail_witness :
  let '(r, a) := append_chunks sample_io sample_chunks (accumulator_of 2 9 12) in
  r = Ok tt /\ (length (counted_lines (visible a)) < 6)%nat /\
  snapshot_content (output_snapshot a) = "five" +:+ nl +:+ "six" /\
  full_output_file a = Some (String.concat "" sample_chunks).
Proof.
  destruct (append_chunks sample_io sample_chunks (accumulator_of 2 9 12)) as [r a] eqn:Hr.
  assert (r = Ok tt /\ (length (counted_lines (visible a)) < 6)%nat /\
    truncated (snapshot_truncation (output_snapshot a)) = true /\
    snapshot_content (output_snapshot a) = "five" +:+ nl +:+ "six")
    as (-> & Hlen & Htr & Hs).
  { vm_compute in Hr. injection Hr as <- <-. vm_compute. split_and!; try done. lia. }
  split; [done|]. split; [exact Hlen|]. split; [exact Hs|].
  apply (shell_output_is_tail 2 9 12 sample_io sample_chunks a); [lia|done|exact Hr|exact Htr].
Defined.

Definition sample_line : string := "abcdefghijklmnopqrstuvwxyz".

Lemma long_line_vanishes_witness :
  let '(r, a) := append_chunks sample_io ["abcdefghijklm"; "nopqrstuvwxyz" +:+ nl]
                   (accumulator_of 5 8 12) in
  r = Ok tt /\ td_content (truncate_tail (sample_line +:+ nl) 5 8) = "stuvwxyz" /\
  snapshot_content (output_snapshot a) = "".
Proof.
  destruct (append_chunks sample_io ["abcdefghijklm"; "nopqrstuvwxyz" +:+ nl]
    (accumulator_of 5 8 12)) as [r a] eqn:Hr.
  assert (r = Ok tt) as -> by (vm_compute in Hr; by injection Hr as <- _).
  destruct (long_line_vanishes (fun _ _ => "") 4 8 12 sample_io
    ["abcdefghijklm"; "nopqrstuvwxyz" +:+ nl] sample_line a None None)
    as (Hfull & Hs & _); [done|done|done|lia|vm_compute; lia|lia|exact Hr|].
  split; [done|]. split; [exact Hfull|exact Hs].
Defined.
