(* ===== verification/ReadTheorems.v ===== *)
(** What the read tool gives a model: pages that together are the file, and
    images that a provider takes. *)

From S2P Require Import Prelude Lines Chars Text Scalar Json Message ToolContract ShellOutput OutputWindow Paths Edit Read.
Open Scope string_scope.
Open Scope rust_scope.

(** ** Lines *)

Lemma split_lines s : exists l, split_char newline s = l /\ Forall one_line l /\ l <> [] /\ join nl l = s.
Proof.
  destruct (OutputWindow.lines_of s) as (ls & t & -> & Hls & Ht). exists (ls ++ [t])%list.
  rewrite split_unlines, split_char_none by done. split; [done|].
  split; [apply Forall_app; split; [done|by constructor]|]. split; [by destruct ls|].
  destruct ls as [|l ls]; [done|]. rewrite join_snoc by done. by rewrite <- join_unlines, <- string_app_assoc.
Qed.

Lemma join_app l l' : l <> [] -> l' <> [] -> join nl (l ++ l')%list = join nl l +:+ nl +:+ join nl l'.
Proof.
  induction l as [|a l IH]; [done|]. intros _ Hl'. destruct l as [|b l].
  - cbn [app]. by rewrite join_cons.
  - rewrite (join_cons nl a (b :: l)) by done. change ((a :: b :: l) ++ l')%list with (a :: ((b :: l) ++ l'))%list.
    rewrite join_cons by done. rewrite IH by done. by rewrite <- !string_app_assoc.
Qed.

(** The lines a text is counted as: its own, but for an empty last one. *)
Lemma counted_lines_of_join l : Forall one_line l ->
  counted_lines (join nl l) = l \/ exists l', l = (l' ++ [""])%list /\ counted_lines (join nl l) = l'.
Proof.
  intros Hl. destruct l as [|x l] using rev_ind; [by left|]. clear IHl. apply Forall_app in Hl as [Hl Hx].
  rewrite Forall_singleton in Hx.
  assert (join nl (l ++ [x])%list = unlines l +:+ x) as ->.
  { destruct l as [|a l]; [done|]. rewrite join_snoc by done. by rewrite string_app_assoc, join_unlines. }
  rewrite OutputWindow.counted_lines_of by done. destruct (String.eqb_spec x "") as [->|Hne].
  - right. exists l. by rewrite app_nil_r.
  - by left.
Qed.

Lemma slice_get_some {A} (l : list A) i j : i <= j <= length l -> slice_get l i j = Some (take (j - i) (drop i l)).
Proof.
  intros [Hi Hj]. unfold slice_get. rewrite (proj2 (Nat.leb_le _ _)) by done. by rewrite (proj2 (Nat.leb_le _ _)) by done.
Qed.

(** The lines from one position to another. *)
Definition slice (all : list string) (i j : nat) : list string := take (j - i) (drop i all).

Lemma slice_split all i j k : i <= j <= k -> slice all i k = (slice all i j ++ slice all j k)%list.
Proof.
  intros Hj. unfold slice. rewrite <- (take_drop (j - i) (take (k - i) (drop i all))), take_take.
  replace (min (j - i) (k - i)) with (j - i) by lia. f_equal.
  replace (k - i) with ((j - i) + (k - j)) by lia. rewrite <- take_drop_commute, drop_drop. do 2 f_equal. lia.
Qed.

(** ** One page *)

(** The offset a notice gives, of the first line that was not shown. *)
Definition next_offset (n : Notice) : option nat :=
  match n with
  | Nothing | LongLine _ _ => None
  | Showing _ last _ _ => Some (last + 1)
  | Remaining _ next => Some next
  end.

(** What [truncate_head] keeps of joined lines. *)
Lemma truncate_head_lines l ml mb (t := truncate_head (join nl l) ml mb) : Forall one_line l -> l <> [] -> 0 < ml ->
  (exists line, head l = Some line /\ mb < String.length line /\ first_line_exceeds_limit t = true) \/
  (first_line_exceeds_limit t = false /\ String.length (td_content t) <= mb /\
   ((truncated t = false /\ td_content t = join nl l) \/
    (truncated t = true /\ exists k, 0 < k < length l /\ output_lines t = Z.of_nat k /\ td_content t = join nl (take k l)))).
Proof.
  intros Hone Hne Hml. unfold t, truncate_head.
  set (counted := counted_lines (join nl l)).
  destruct (Nat.leb (length counted) ml && Nat.leb (String.length (join nl l)) mb) eqn:Hfits.
  { right. apply andb_true_iff in Hfits as [_ Hb%Nat.leb_le]. split; [done|]. split; [done|]. by left. }
  assert (exists more, l = (counted ++ more)%list /\ (more = [] \/ more = [""]) ) as (more & Hmore & Hm).
  { destruct (counted_lines_of_join l Hone) as [He|(l' & Hl & He)]; unfold counted; rewrite He.
    - exists []. rewrite app_nil_r. auto.
    - exists [""]. auto. }
  destruct counted as [|first rest] eqn:Hc.
  { exfalso. destruct Hm as [->| ->]; [by subst l|]. rewrite Hmore in Hfits. by destruct ml, mb. }
  destruct (Nat.ltb_spec mb (String.length first)) as [Hlong|Hshort].
  { left. exists first. by rewrite Hmore. }
  right. pose proof (head_loop_spec mb (take ml (first :: rest)) [] 0 eq_refl ltac:(lia)) as Hs.
  destruct (head_loop _ _ _ _) as [[kept b] limit]. destruct Hs as (kept' & cut & -> & Htake & Hb & Hle & Hcut).
  cbn [app] in Hb, Hcut |- *. split; [done|]. cbn [details td_content]. split; [lia|]. right. split; [done|].
  exists (length kept'). cbn [output_lines]. split_and!; [|..|done|].
  - destruct kept' as [|x kept']; [|cbn; lia]. exfalso. cbn [app] in Htake. destruct ml as [|ml]; [lia|].
    cbn [take] in Htake. rewrite <- Htake in Hcut. destruct Hcut as [_ Hcut]. cbn in Hcut. lia.
  - apply (f_equal length) in Htake as Hlen. rewrite length_app, length_take in Hlen.
    rewrite Hmore, length_app. destruct cut as [|x cut]; [|cbn [length] in *; lia].
    destruct (decide (length (first :: rest) <= ml)) as [Hall|]; [|lia].
    (* everything was kept, so the text was too long by its final newline *)
    rewrite take_ge, app_nil_r in Htake by done. apply andb_false_iff in Hfits.
    destruct Hfits as [Hfits%Nat.leb_gt|Hfits%Nat.leb_gt]; [lia|].
    destruct Hm as [->| ->]; [|rewrite <- Htake; cbn [length]; lia]. exfalso.
    rewrite app_nil_r in Hmore. rewrite Hmore, Htake in Hfits. lia.
  - f_equal. rewrite Hmore. apply (f_equal (take (length kept'))) in Htake as Hkept.
    rewrite take_take, take_app_length in Hkept. apply (f_equal length) in Htake.
    rewrite length_app, length_take in Htake.
    rewrite take_app_le by lia. rewrite <- Hkept at 1. f_equal. lia.
Qed.

Lemma exceeding_is_empty content ml mb :
  first_line_exceeds_limit (truncate_head content ml mb) = true -> td_content (truncate_head content ml mb) = "".
Proof.
  unfold truncate_head. destruct (_ && _); [done|]. destruct (counted_lines content) as [|first rest]; [done|].
  destruct (Nat.ltb _ _); [done|]. by destruct (head_loop _ _ _ _) as [[kept b] limit].
Qed.

(** A line is no longer than the lines it is joined with. *)
Lemma join_length l x : x ∈ l -> String.length x <= String.length (join nl l).
Proof.
  induction l as [|a l IH]; [by intros ?%elem_of_nil|]. destruct l as [|b l].
  - by intros ->%list_elem_of_singleton.
  - rewrite join_cons, !string_length_app by done. intros [->|Hx]%elem_of_cons; [lia|]. specialize (IH Hx). lia.
Qed.

Section Pages.
Variable one_decimal : nat -> nat -> string.
Variable f64_text : F64 -> string.

Lemma end_of_range lim start total : start < total -> (Z.of_nat total <= u64_max)%Z -> (forall k, lim = Some k -> (0 < k)%Z) ->
  start < end_of lim start total <= total.
Proof.
  intros Hs Hb Hl. unfold end_of. destruct lim as [k|]; [|lia]. specialize (Hl k eq_refl).
  unfold u64_saturating_add. lia.
Qed.

(** A page shows some lines, from the first asked for on, and says where the
    rest begins, unless that line alone is too long: then it says so. *)
Lemma text_page_spec all start lim : Forall one_line all -> start < length all -> (forall k, lim = Some k -> (0 < k)%Z) ->
  (Z.of_nat (length all) <= u64_max)%Z ->
  let '(content, notice, _) := text_page one_decimal all start lim in
  (exists line, all !! start = Some line /\ DEFAULT_MAX_BYTES < String.length line /\ content = "" /\
     exists size, notice = LongLine (start + 1) size) \/
  exists stop, start < stop <= length all /\ content = join nl (slice all start stop) /\
    String.length content <= DEFAULT_MAX_BYTES /\
    (forall line size, notice <> LongLine line size) /\
    next_offset notice = if Nat.eqb stop (length all) then None else Some (stop + 1).
Proof.
  intros Hone Hs Hl Hbig. unfold text_page. pose proof (end_of_range lim start (length all) Hs Hbig Hl) as Hend.
  set (stop := end_of lim start (length all)) in *.
  rewrite slice_get_some by lia. cbn [default]. fold (slice all start stop).
  assert (length (slice all start stop) = stop - start) as Hlen.
  { unfold slice. rewrite length_take, length_drop. lia. }
  assert (Forall one_line (slice all start stop)) as Hsl by (by apply Forall_take, Forall_drop).
  assert (slice all start stop <> []) as Hnil by (intros He; rewrite He in Hlen; cbn in Hlen; lia).
  pose proof (truncate_head_lines (slice all start stop) DEFAULT_MAX_LINES DEFAULT_MAX_BYTES Hsl Hnil
    ltac:(unfold DEFAULT_MAX_LINES; lia)) as Ht. set (t := truncate_head _ _ _) in *.
  destruct Ht as [(line & Hhead & Hlong & Hex)|(Hex & Hbytes & Hcut)]; rewrite Hex; cbv iota beta.
  { left. exists line. split; [|split; [done|split; [by apply exceeding_is_empty|by eexists]]]. unfold slice in Hhead.
    rewrite head_lookup, lookup_take_lt, lookup_drop in Hhead by lia. by rewrite Nat.add_0_r in Hhead. }
  destruct Hcut as [[Htr Hc]|(Htr & k & Hk & Hlines & Hc)]; rewrite Htr; cbv iota beta.
  - assert (stop = length all \/ (exists k, lim = Some k) /\ stop < length all) as Hstop.
    { destruct lim as [k|]; [|by left]. destruct (decide (stop = length all)); [by left|]. right. split; [by eexists|lia]. }
    destruct Hstop as [He|[[k ->] Hlt]].
    + assert (match lim with Some _ => Nat.ltb stop (length all) | None => false end = false) as ->.
      { rewrite He. destruct lim; [apply Nat.ltb_irrefl|done]. }
      cbv iota beta. right. exists stop. split; [lia|]. split; [done|]. split; [done|]. split; [done|].
      by rewrite He, Nat.eqb_refl.
    + rewrite (proj2 (Nat.ltb_lt _ _)) by done. cbv iota beta. right. exists stop. split; [lia|]. split; [done|]. split; [done|].
      split; [done|]. cbn [next_offset]. by rewrite (proj2 (Nat.eqb_neq stop (length all))) by lia.
  - rewrite Hlen in Hk. right. exists (start + k). split; [lia|]. split; [|split; [done|split; [done|]]].
    + rewrite Hc. f_equal. unfold slice. rewrite take_take. f_equal. lia.
    + cbn [next_offset]. rewrite Hlines, Nat2Z.id. rewrite (proj2 (Nat.eqb_neq _ _)) by lia. f_equal. lia.
Qed.

(** ** The whole file *)

(** A client's arguments for the page at an offset. *)
Definition page_arguments (path : string) (limits : nat -> option F64) (n : nat) : ReadArguments :=
  {| read_path := path; offset := ok (from_value (json_u64 (Z.of_nat n))); limit := limits n |}.

(** Reading on from the offset each page gives: the pages, and what the last
    one says. *)
Fixpoint read_on (fuel : nat) (tool path : string) (limits : nat -> option F64) (text : string) (n : nat)
  : option (list string * Notice) :=
  match fuel with
  | O => None
  | S fuel =>
      match read_page one_decimal f64_text tool (page_arguments path limits n) text with
      | Ok (content, notice, _) =>
          match next_offset notice with
          | Some next =>
              (fun '(pages, last) => (content :: pages, last)) <$> read_on fuel tool path limits text next
          | None => Some ([content], notice)
          end
      | Err _ => None
      end
  end.

Lemma round53_small z : (z <= 2 ^ 53)%Z -> round53 z = z.
Proof. intros Hz. unfold round53. by rewrite (proj2 (Z.leb_le _ _)). Qed.

(** An offset or limit that is a number of lines. *)
Lemma start_line_of_integer path limits n : (1 <= n)%nat -> (Z.of_nat n <= 2 ^ 53)%Z ->
  start_line (page_arguments path limits n) = Ok (Z.of_nat n - 1)%Z.
Proof.
  intros H1 H2. unfold start_line, page_arguments. cbn [offset json_u64 from_value from_value_f64 ok].
  rewrite round53_small by done. unfold f64_le, f64_floor. cbn [Z.leb Z.compare].
  change (2 ^ 0)%Z with 1%Z. rewrite Z.mul_1_r. destruct (Z.leb_spec (Z.of_nat n) 1); [f_equal; lia|].
  rewrite round53_small by lia. assert (2 ^ 53 < u64_max)%Z by done. unfold as_usize. f_equal. lia.
Qed.

(** How many lines come before the first longer than a bound. *)
Fixpoint fitting_in (most : nat) (all : list string) : nat :=
  match all with
  | [] => 0
  | line :: rest => if Nat.leb (String.length line) most then S (fitting_in most rest) else 0
  end.

Lemma fitting_in_spec most all : fitting_in most all <= length all /\
  (forall i x, all !! i = Some x -> i < fitting_in most all -> String.length x <= most) /\
  forall x, all !! fitting_in most all = Some x -> most < String.length x.
Proof.
  induction all as [|a all (IHb & IHl & IHx)]; [done|]. cbn [fitting_in].
  destruct (Nat.leb_spec (String.length a) most) as [Ha|Ha]; cbn [length].
  - split; [lia|]. split; [|exact IHx]. intros [|i] x Hi Hlt; [by injection Hi as <-|]. apply (IHl i); [done|lia].
  - split; [lia|]. split; [intros; lia|]. by intros x [= <-].
Qed.
Definition fitting (all : list string) : nat := fitting_in DEFAULT_MAX_BYTES all.

Lemma fitting_bound all : fitting all <= length all.
Proof. apply fitting_in_spec. Qed.
Lemma before_fitting all i x : all !! i = Some x -> i < fitting all -> String.length x <= DEFAULT_MAX_BYTES.
Proof. apply fitting_in_spec. Qed.
Lemma at_fitting all x : all !! fitting all = Some x -> DEFAULT_MAX_BYTES < String.length x.
Proof. apply fitting_in_spec. Qed.

Lemma slice_nonempty (all : list string) i j : i < j <= length all -> slice all i j <> [].
Proof. intros Hij He. apply (f_equal length) in He. unfold slice in He. rewrite length_take, length_drop in He. cbn in He. lia. Qed.

Lemma slice_elem (all : list string) i j k x : all !! k = Some x -> i <= k < j -> x ∈ slice all i j.
Proof.
  intros Hk Hij. unfold slice. apply list_elem_of_lookup. exists (k - i).
  rewrite lookup_take_lt, lookup_drop by lia. by replace (i + (k - i)) with k by lia.
Qed.

(** What the pages from an offset on are, and what the last one says. *)
Definition pages_from (all : list string) (n : nat) (pages : list string) (last : Notice) : Prop :=
  Forall (fun p => String.length p <= DEFAULT_MAX_BYTES) pages /\ pages <> [] /\
  if Nat.eqb (fitting all) (length all) then last = Nothing /\ join nl pages = join nl (slice all (n - 1) (length all))
  else exists shown size, pages = (shown ++ [""])%list /\ last = LongLine (fitting all + 1) size /\
    join nl shown = join nl (slice all (n - 1) (fitting all)) /\ (shown = [] <-> fitting all <= n - 1).

Lemma read_on_rest tool path limits text all : split_char newline text = all -> Forall one_line all ->
  (Z.of_nat (length all) <= 2 ^ 53)%Z ->
  (forall n, exists k, line_limit (page_arguments path limits n) = Ok k /\ forall z, k = Some z -> (0 < z)%Z) ->
  forall fuel n, 1 <= n <= length all -> n - 1 <= fitting all -> length all - n < fuel ->
  exists pages last, read_on fuel tool path limits text n = Some (pages, last) /\ pages_from all n pages last.
Proof.
  intros Hall Hone Hsmall Hlimits. induction fuel as [|fuel IH]; intros n Hn Hfit Hfuel; [lia|].
  cbn [read_on]. unfold read_page. rewrite start_line_of_integer, Hall by lia. cbn [result_bind].
  rewrite (proj2 (Z.leb_gt _ _)) by lia. destruct (Hlimits n) as (k & -> & Hk). cbn [result_bind].
  assert (2 ^ 53 < u64_max)%Z as Hmax by done.
  pose proof (text_page_spec all (Z.to_nat (Z.of_nat n - 1)) k Hone ltac:(lia) Hk ltac:(lia)) as Hpage.
  destruct (text_page _ _ _ _) as [[content notice] cut].
  replace (Z.to_nat (Z.of_nat n - 1)) with (n - 1) in Hpage by lia. pose proof (fitting_bound all) as Hbound.
  destruct Hpage as [(line & Hline & Hlong & -> & size & ->)|(stop & Hstop & Hc & Hb & Hnot & Hnext)].
  - assert (n - 1 = fitting all) as He.
    { destruct (decide (n - 1 = fitting all)); [done|]. pose proof (before_fitting all (n - 1) line Hline ltac:(lia)). lia. }
    cbn [next_offset]. exists [""], (LongLine (n - 1 + 1) size). split; [done|]. split; [apply Forall_singleton, Nat.le_0_l|]. split; [done|].
    rewrite (proj2 (Nat.eqb_neq _ _)) by (apply lookup_lt_Some in Hline; lia). exists [], size. rewrite He. split; [done|]. split; [done|].
    split; [unfold slice; by rewrite Nat.sub_diag|]. split; [lia|done].
  - assert (stop <= fitting all) as Hsf.
    { destruct (le_lt_dec stop (fitting all)) as [?|Hlt]; [done|]. exfalso.
      destruct (lookup_lt_is_Some_2 all (fitting all)) as [x Hx]; [lia|]. pose proof (at_fitting all x Hx) as Hlong.
      pose proof (join_length _ _ (slice_elem all (n - 1) stop (fitting all) x Hx ltac:(lia))) as Hle. rewrite Hc in Hb. lia. }
    rewrite Hnext. destruct (Nat.eqb_spec stop (length all)) as [He|Hlt].
    + exists [content], notice. split; [done|]. split; [by constructor|]. split; [done|].
      rewrite (proj2 (Nat.eqb_eq _ _)) by lia. split; [|by rewrite Hc, He].
      destruct notice; cbn in Hnext; [done|by destruct (Hnot line size)|done|done].
    + destruct (IH (stop + 1)) as (pages & last & Hrest & Hsizes & Hne & Hpages); [lia..|].
      exists (content :: pages), last. rewrite Hrest. split; [done|]. split; [by constructor|]. split; [done|].
      replace (stop + 1 - 1) with stop in Hpages by lia.
      destruct (Nat.eqb_spec (fitting all) (length all)) as [Hf|Hf].
      * destruct Hpages as [-> Hjoin]. split; [done|]. rewrite join_cons, Hc, Hjoin by done.
        rewrite (slice_split all (n - 1) stop (length all)) by lia. by rewrite join_app by (apply slice_nonempty; lia).
      * destruct Hpages as (shown & size & -> & -> & Hjoin & Hsome). exists (content :: shown), size.
        split; [done|]. split; [done|]. split; [|split; [done|lia]].
        destruct (decide (stop = fitting all)) as [Hse|Hse].
        -- rewrite (proj2 Hsome) by lia. cbn [join]. by rewrite Hc, Hse.
        -- assert (shown <> []) by (intros ?%Hsome; lia). rewrite join_cons, Hc, Hjoin by done.
           rewrite (slice_split all (n - 1) stop (fitting all)) by lia. by rewrite join_app by (apply slice_nonempty; lia).
Qed.

(** C26: a file is read whole: from the first line on, with limits that let a
    line through, every page is within its bound and gives the offset of the
    next until one that gives none, and the pages joined are the file's text --
    up to a first line that no page can hold, where the last page is empty and
    says which line it is. *)
Theorem pages_are_the_file tool path limits text (all := split_char newline text) :
  (Z.of_nat (length all) <= 2 ^ 53)%Z ->
  (forall n, exists k, line_limit (page_arguments path limits n) = Ok k /\ forall z, k = Some z -> (0 < z)%Z) ->
  exists pages last, read_on (length all) tool path limits text 1 = Some (pages, last) /\
    Forall (fun p => String.length p <= DEFAULT_MAX_BYTES) pages /\
    ((last = Nothing /\ join nl pages = text) \/
     exists shown k line size, all !! k = Some line /\ DEFAULT_MAX_BYTES < String.length line /\
       Forall (fun line => String.length line <= DEFAULT_MAX_BYTES) (take k all) /\
       last = LongLine (k + 1) size /\ pages = (shown ++ [""])%list /\ join nl shown = join nl (take k all)).
Proof.
  intros Hsmall Hlimits. destruct (split_lines text) as (l & Hl & Hone & Hne & Hjoin).
  change (split_char newline text) with all in Hl. rewrite Hl in *.
  assert (length l <> 0) by (by destruct l).
  destruct (read_on_rest tool path limits text l Hl Hone Hsmall Hlimits (length l) 1) as (pages & last & Hr & Hs & _ & Hp); [lia..|].
  exists pages, last. split; [done|]. split; [done|]. pose proof (fitting_bound l) as Hbound.
  destruct (Nat.eqb_spec (fitting l) (length l)) as [Hf|Hf].
  - destruct Hp as [-> ->]. left. split; [done|]. unfold slice. cbn [Nat.sub drop]. by rewrite Nat.sub_0_r, take_ge by done.
  - right. destruct Hp as (shown & size & -> & -> & Hsj & _).
    destruct (lookup_lt_is_Some_2 l (fitting l)) as [line Hline]; [lia|].
    exists shown, (fitting l), line, size. split_and!; [done|by eapply at_fitting| |done|done|].
    + apply Forall_lookup. intros i x Hx. apply lookup_take_Some in Hx as [Hx Hi]. by apply (before_fitting l i).
    + rewrite Hsj. unfold slice. cbn [Nat.sub drop]. by rewrite Nat.sub_0_r.
Qed.
End Pages.

(** ** Images *)

Section Images.
Context `{ImageLib}.

Lemma scaled_range other side : (0 <= other < 2 ^ 32)%Z -> (MAX_DIMENSION < side)%Z ->
  (0 <= scaled other side <= Z.min other MAX_DIMENSION \/ (MAX_DIMENSION < other /\ 0 <= scaled other side <= other))%Z.
Proof.
  intros Ho Hs. unfold scaled, MAX_DIMENSION in *.
  assert (0 <= (other * 2000 + side / 2) / side <= other)%Z as Hq.
  { split; [apply Z.div_pos; [|lia]; pose proof (Z.div_pos side 2); lia|].
    apply Z.lt_succ_r, Z.div_lt_upper_bound; [lia|]. pose proof (Z.mul_div_le side 2). nia. }
  rewrite Z.mod_small by lia. lia.
Qed.

(** The size an image is brought to. *)
Lemma target_size_range width height : (0 <= width < 2 ^ 32)%Z -> (0 <= height < 2 ^ 32)%Z ->
  let '(w, h) := target_size width height in (1 <= w <= MAX_DIMENSION)%Z /\ (1 <= h <= MAX_DIMENSION)%Z.
Proof.
  intros Hw Hh. unfold target_size.
  assert (forall w h, (0 <= w <= MAX_DIMENSION)%Z -> (0 <= h < 2 ^ 32)%Z ->
    let '(w, h) := if (MAX_DIMENSION <? h)%Z then (scaled w h, MAX_DIMENSION) else (w, h) in
    (1 <= Z.max w 1 <= MAX_DIMENSION)%Z /\ (1 <= Z.max h 1 <= MAX_DIMENSION)%Z) as Hsecond.
  { intros w h Hw' Hh'. destruct (Z.ltb_spec MAX_DIMENSION h) as [Hlt|]; [|unfold MAX_DIMENSION in *; lia].
    pose proof (scaled_range w h ltac:(unfold MAX_DIMENSION in *; lia) Hlt). unfold MAX_DIMENSION in *. lia. }
  destruct (Z.ltb_spec MAX_DIMENSION width) as [Hlt|].
  - pose proof (scaled_range height width Hh Hlt).
    specialize (Hsecond MAX_DIMENSION (scaled height width) ltac:(unfold MAX_DIMENSION; lia) ltac:(lia)).
    by destruct (if (MAX_DIMENSION <? scaled height width)%Z then _ else _).
  - specialize (Hsecond width height ltac:(lia) Hh). by destruct (if (MAX_DIMENSION <? height)%Z then _ else _).
Qed.

Lemma next_side_smaller side : (1 <= side)%Z ->
  (1 <= next_side side <= side)%Z /\ (next_side side = side -> side = 1%Z).
Proof.
  intros Hs. unfold next_side. destruct (Z.eqb_spec side 1); [lia|].
  pose proof (Z.div_lt_upper_bound (side * 3) 4 side ltac:(lia) ltac:(lia)). lia.
Qed.

(** What was encoded, and at which size. *)
Definition made_from (i : Decoded) (w h : Z) (sent : string) : Prop :=
  encode_png (resize_exact i w h) = Some sent \/ exists quality, encode_jpeg (resize_exact i w h) quality = Some sent.

Lemma candidates_made i w h l bytes kind : candidates (resize_exact i w h) = Some l -> (bytes, kind) ∈ l -> made_from i w h bytes.
Proof.
  unfold candidates. destruct (encode_png _) as [png|] eqn:Hpng; [|done]. cbn [mbind option_bind]. intros Hl. apply (inj Some) in Hl. subst l.
  intros [[= -> ->]|Hin]%elem_of_cons; [by left|]. apply list_elem_of_omap in Hin as (quality & _ & Hq).
  destruct (encode_jpeg _ quality) as [jpeg|] eqn:Hjpeg; [|done]. injection Hq as <- <-. right. by exists quality.
Qed.

(** The loop ends, and what it finds is small enough. *)
Lemma resize_loop_fits i from : forall fuel w h, (1 <= w <= MAX_DIMENSION)%Z -> (1 <= h <= MAX_DIMENSION)%Z ->
  (w + h <= Z.of_nat fuel)%Z ->
  exists r, resize_loop fuel i from w h = Some r /\
    forall p, r = Some p -> exists w' h' sent, (1 <= w' <= MAX_DIMENSION)%Z /\ (1 <= h' <= MAX_DIMENSION)%Z /\
      made_from i w' h' sent /\ image_data p = base64 sent /\ (encoded_size sent < MAX_BASE64_BYTES)%Z.
Proof.
  induction fuel as [|fuel IH]; intros w h Hw Hh Hf; [lia|]. cbn [resize_loop].
  destruct (candidates _) as [l|] eqn:Hc; [|by exists None].
  destruct (head _) as [[bytes kind]|] eqn:Hhead.
  - destruct (dimensions i). eexists. split; [done|]. intros p [= <-]. exists w, h, bytes.
    apply head_Some_elem_of, list_elem_of_In, filter_In in Hhead as [Hin Hsize].
    split; [done|]. split; [done|]. split; [|split; [done|by apply Z.ltb_lt]].
    eapply candidates_made; [done|]. by apply list_elem_of_In.
  - destruct (_ && _); [by exists None|].
    destruct (next_side_smaller w) as [Hnw Hew], (next_side_smaller h) as [Hnh Heh]; [lia..|].
    destruct ((next_side w =? w)%Z && (next_side h =? h)%Z) eqn:Hsame; [by exists None|].
    apply IH; [lia..|]. apply andb_false_iff in Hsame. rewrite !Z.eqb_neq in Hsame. lia.
Qed.

(** C27: an image that is sent is at most 2000 pixels a side and its base64 text
    below the providers' bound: it is the file itself, the file converted, or
    the decoded image resized; and the search for a size that fits ends. *)
Theorem images_fit kind bytes decoded width height :
  load_image kind bytes = Some decoded -> dimensions decoded = (width, height) ->
  (0 <= width < 2 ^ 32)%Z -> (0 <= height < 2 ^ 32)%Z ->
  let '(w, h) := target_size width height in
  is_Some (resize_loop (Z.to_nat (w + h)) decoded (match kind with Bmp => Some kind | _ => None end) w h) /\
  forall p, process kind bytes = Some p -> exists sent, image_data p = base64 sent /\
    (encoded_size sent < MAX_BASE64_BYTES)%Z /\ exists w h, (w <= MAX_DIMENSION)%Z /\ (h <= MAX_DIMENSION)%Z /\
    ((dimensions decoded = (w, h) /\ (sent = bytes \/ encode_png decoded = Some sent)) \/ made_from decoded w h sent).
Proof.
  intros Hload Hdim Hw Hh. pose proof (target_size_range width height Hw Hh) as Ht.
  destruct (target_size width height) as [w h] eqn:Htarget. destruct Ht as [Htw Hth].
  assert (forall from, exists r, resize_loop (Z.to_nat (w + h)) decoded from w h = Some r /\
    forall p, r = Some p -> exists w' h' sent, (1 <= w' <= MAX_DIMENSION)%Z /\ (1 <= h' <= MAX_DIMENSION)%Z /\
      made_from decoded w' h' sent /\ image_data p = base64 sent /\ (encoded_size sent < MAX_BASE64_BYTES)%Z) as Hloop.
  { intros from. apply resize_loop_fits; lia. }
  split; [destruct (Hloop (match kind with Bmp => Some kind | _ => None end)) as (r & -> & _); by eexists|].
  intros p. unfold process. rewrite Hload. cbn [mbind option_bind]. rewrite Hdim.
  destruct (match kind with Bmp => _ | _ => _ end) as [[[normalized normalized_kind] from]|] eqn:Hn; [|done].
  cbn [mbind option_bind]. destruct (_ && _ && _)%Z eqn:Hfits.
  - intros [= <-]. apply andb_true_iff in Hfits as [[Hfw%Z.leb_le Hfh%Z.leb_le]%andb_true_iff Hsize%Z.ltb_lt].
    exists normalized. split; [done|]. split; [done|]. exists width, height. split; [done|]. split; [done|]. left.
    split; [done|]. destruct kind; try (injection Hn as <- _ _; by left).
    destruct (encode_png decoded) as [png|] eqn:Hpng; [|done]. injection Hn as <- _ _. by right.
  - rewrite Htarget. destruct (Hloop from) as (r & -> & Hr). intros Hp. change (r = Some p) in Hp. subst r.
    destruct (Hr p eq_refl) as (w' & h' & sent & Hw' & Hh' & Hmade & Hdata & Hsize).
    exists sent. split; [done|]. split; [done|]. exists w', h'. split; [lia|]. split; [lia|]. by right.
Qed.
End Images.

(** ** Samples *)

(** A file of three lines, read a line at a time. *)
Definition three_lines : string := "one" +:+ nl +:+ "two" +:+ nl +:+ "three".
Definition line_by_line : nat -> option F64 := fun _ => Some (Finite 1 0).

Lemma pages_are_the_file_witness :
  read_on (fun _ _ => "") (fun _ => "") 3 "read" "file" line_by_line three_lines 1 = Some (["one"; "two"; "three"], Nothing) /\
  exists pages last, read_on (fun _ _ => "") (fun _ => "") (length (split_char newline three_lines)) "read" "file" line_by_line three_lines 1
      = Some (pages, last) /\
    Forall (fun p => String.length p <= DEFAULT_MAX_BYTES) pages.
Proof.
  split; [vm_compute; reflexivity|].
  destruct (pages_are_the_file (fun _ _ => "") (fun _ => "") "read" "file" line_by_line three_lines) as (pages & last & Hr & Hs & _).
  - vm_compute. discriminate.
  - intros n. exists (Some 1%Z). split; [reflexivity|]. by intros z [= <-].
  - exists pages, last. split; [exact Hr|exact Hs].
Defined.

(** Codecs that know an image by its size, and encode it in as many bytes as it
    has pixels in a row. *)
#[local] Instance sample_codecs : ImageLib := {|
  Decoded := Z * Z;
  load_image k s := Some (4000, 1000)%Z;
  dimensions i := i;
  resize_exact i w h := (w, h);
  encode_png i := Some (String.concat "" (replicate (Z.to_nat i.1) "x"));
  encode_jpeg i q := None;
  base64 s := s;
  two_decimals a b := "2.00"
|}.

Lemma images_fit_witness :
  match process Png "a wide image" with
  | Some p => hints p = ["[Image: original 4000x1000, displayed at 2000x500. Multiply coordinates by 2.00 to map to original image.]"] /\
      exists sent, image_data p = base64 sent /\ (encoded_size sent < MAX_BASE64_BYTES)%Z
  | None => False
  end.
Proof.
  destruct (images_fit Png "a wide image" ((4000, 1000)%Z : @Decoded sample_codecs) 4000 1000 eq_refl eq_refl ltac:(lia) ltac:(lia)) as [_ Hp].
  assert (match process Png "a wide image" with Some p => bool_decide (hints p =
    ["[Image: original 4000x1000, displayed at 2000x500. Multiply coordinates by 2.00 to map to original image.]"]) | None => false end = true)
    as Hh by (vm_compute; reflexivity).
  destruct (process Png "a wide image") as [p|]; [|done]. split; [by apply bool_decide_eq_true in Hh|].
  destruct (Hp p eq_refl) as (sent & Hs & Hsize & _). by exists sent.
Defined.
