(* ===== verification/BatchingTheorems.v ===== *)
(** The properties of outbound batching. *)

From S2P Require Import Prelude Lines Scalar Json Batching.
Open Scope string_scope.
Open Scope rust_scope.

Section Batching.
Context {T : RpcTypes} {V : ValueEq}.
Abbreviation Msg := (RawJsonRpcMessage T).

(** ** Messages as both relays leave them *)

(** A product's fields other than the batch do not depend on it, so neither does
    a streaming chunk. *)
Lemma from_message_put m product put product' :
  product_meta m = Some (product, put) ->
  (forall name, name <> BATCH_KEY -> product' !! name = product !! name) ->
  from_message (put product') = from_message m.
Proof.
  destruct m as [[method [[p|]|]]| |]; try done. cbn [product_meta].
  destruct (object_or_new (p !! "_meta")) as [meta|] eqn:Hm; [|done]. cbn.
  destruct (object_or_new (meta !! ACP_NAMESPACE)) as [pr|] eqn:Hp; [|done]. cbn.
  intros [= <- <-] Hsame. cbn [from_message]. destruct (String.eqb method "session/update"); [|done].
  unfold params_chunk.
  set (p' := <["_meta" := _]> p).
  assert (forall name, name <> "_meta" -> p' !! name = p !! name) as Hother
    by (intros name Hn; unfold p'; by rewrite lookup_insert_ne).
  assert (field_str "sessionId" p' = field_str "sessionId" p) as ->
    by (unfold field_str; by rewrite (Hother "sessionId")).
  assert (update_chunk p' = update_chunk p) as ->
    by (unfold update_chunk; assert (field_object "update" p' = field_object "update" p) as ->
          by (unfold field_object; by rewrite (Hother "update")); done).
  destruct (field_str "sessionId" p) as [s|]; [|done]. cbn.
  destruct (update_chunk p) as [[[[k i] a] t]|]; [|done]. cbn.
  assert (product_of p' = Some product') as ->.
  { unfold product_of, field_object, p'. rewrite lookup_insert_eq. cbn. by rewrite lookup_insert_eq. }
  cbn. unfold field_str, recovery_range, field_u64, field_object.
  rewrite (Hsame "turnId"), (Hsame "sequence"), (Hsame "sessionRecovery") by done.
  destruct (p !! "_meta") as [[]|] eqn:Hmeta; cbn in Hm; try done;
    injection Hm as <-; unfold product_of, field_object; rewrite Hmeta; cbn.
  - rewrite lookup_empty in Hp. injection Hp as <-. cbn. by rewrite !lookup_empty.
  - destruct (m !! ACP_NAMESPACE) as [[]|]; cbn in Hp; try done; injection Hp as <-; cbn; try done;
      by rewrite !lookup_empty.
  - rewrite lookup_empty in Hp. injection Hp as <-. cbn. by rewrite !lookup_empty.
Qed.

Lemma product_meta_put m product put product' :
  product_meta m = Some (product, put) ->
  exists put', product_meta (put product') = Some (product', put') /\ forall q, put' q = put q.
Proof.
  destruct m as [[method [[p|]|]]| |]; try done. cbn [product_meta].
  destruct (object_or_new (p !! "_meta")) as [meta|]; [|done]. cbn.
  destruct (object_or_new (meta !! ACP_NAMESPACE)) as [pr|]; [|done]. cbn.
  intros [= <- <-]. cbn [product_meta]. rewrite lookup_insert_eq. cbn. rewrite lookup_insert_eq. cbn.
  eexists. split; [done|]. intros q. cbn. by rewrite !insert_insert_eq.
Qed.

(** What a carrier is to a client: its outer message as it was, and the others. *)
Lemma canonical_put m product put product' :
  product_meta m = Some (product, put) ->
  delete BATCH_KEY product' = delete BATCH_KEY product ->
  canonical (put product') = canonical m.
Proof.
  intros Hm Hd. unfold canonical. rewrite Hm.
  destruct (product_meta_put _ _ _ product' Hm) as (put' & -> & Hput). by rewrite Hput, Hd.
Qed.

Lemma session_update_put m product put product' :
  product_meta m = Some (product, put) ->
  session_update_id (put product') = session_update_id m.
Proof.
  destruct m as [[method [[p|]|]]| |]; try done. cbn [product_meta].
  destruct (object_or_new (p !! "_meta")) as [meta|]; [|done]. cbn.
  destruct (object_or_new (meta !! ACP_NAMESPACE)) as [pr|]; [|done]. cbn.
  intros [= <- <-]. cbn. unfold field_str. by rewrite lookup_insert_ne.
Qed.

Lemma nested_message_value m session :
  session_update_id m = Some session -> nested_message (nested_value m) = m.
Proof.
  destruct m as [[method [[p|]|]]| |]; try done. cbn.
  by destruct (String.eqb_spec method "session/update") as [->|].
Qed.

(** Merging keeps a message's session and adds no batch. *)
Lemma session_update_append m more last :
  session_update_id (append_chunk m more last) = session_update_id m.
Proof.
  destruct m as [[method [[p|]|]]| |]; try done. cbn.
  unfold append_params. by rewrite !field_str_alter_ne.
Qed.

Definition product_at (p : json_map) : option json_map :=
  meta ← object_or_new (p !! "_meta"); object_or_new (meta !! ACP_NAMESPACE).
Definition batch_in (product : option json_map) : list json :=
  match product with
  | Some product => match product !! BATCH_KEY with Some (JArray l) => l | _ => [] end
  | None => []
  end.

Lemma batch_of_product method p :
  batch_of (Notification (T := T) {| method := method; params := Some (ParamsObject p) |})
  = batch_in (product_at p).
Proof.
  unfold batch_of, product_at, product_meta.
  destruct (object_or_new (p !! "_meta")) as [meta|]; [|done]. cbn [mbind option_bind].
  by destruct (object_or_new (meta !! ACP_NAMESPACE)).
Qed.

Lemma object_or_new_alter name f (m : json_map) :
  object_or_new (alter_object name f m !! name)
  = match m !! name with Some (JObject o) => Some (f o) | v => object_or_new v end.
Proof. unfold alter_object. rewrite lookup_alter_eq. by destruct (m !! name) as [[]|]. Qed.

Lemma batch_of_append m more last : batch_of m = [] -> batch_of (append_chunk m more last) = [].
Proof.
  destruct m as [[method [[p|]|]]| |]; try done. cbn [append_chunk].
  rewrite !batch_of_product. unfold product_at, append_params.
  rewrite lookup_alter_object by done. rewrite object_or_new_alter.
  destruct (p !! "_meta") as [[| | | | |meta]|]; try done.
  cbn [object_or_new json_as_object mbind option_bind]. rewrite object_or_new_alter.
  destruct (meta !! ACP_NAMESPACE) as [[| | | | |pr]|]; try done.
  cbn [object_or_new json_as_object batch_in]. by rewrite lookup_alter_object.
Qed.

Lemma coalesce_forall (P : Msg -> Prop) messages : forall output,
  (forall m more last, P m -> P (append_chunk m more last)) ->
  Forall P output -> Forall P messages -> Forall P (coalesce_from output messages).
Proof.
  induction messages as [|m rest IH]; intros output Hstep Ho Hm; [done|]. cbn [coalesce_from].
  apply Forall_cons in Hm as [Hm Hrest].
  destruct (target ← list.last output; merge_adjacent target m) as [merged|] eqn:He.
  - destruct (list.last output) as [target|] eqn:Hl; [|done].
    apply last_Some in Hl as [before ->]. rewrite removelast_last.
    apply Forall_app in Ho as [Hb Ht]. apply IH; [done| |done]. apply Forall_app. split; [done|].
    constructor; [|done]. cbn in He. unfold merge_adjacent in He.
    destruct (from_message target); [|done]. cbn in He. destruct (from_message m); [|done]. cbn in He.
    destruct (_ || _); [done|]. injection He as <-. apply Hstep. by apply Forall_cons in Ht as [Ht _].
  - apply IH; [done| |done]. apply Forall_app. split; [done|by repeat constructor].
Qed.

(** ** Frames *)

Abbreviation Fr := (TransportFrame T).

Lemma client_app items fs1 fs2 : client items (fs1 ++ fs2) = client (client items fs1) fs2.
Proof. unfold client. by rewrite bind_app, foldl_app. Qed.

Lemma client_singles items messages :
  Forall (fun m : Msg => batch_of m = []) messages ->
  client items (Single <$> messages) = foldl (receive (inl ∘ canonical)) items messages.
Proof.
  intros Hm. revert items. induction Hm as [|m rest Hm Hrest IH]; intros items; [done|].
  change (Single <$> m :: rest) with ([Single m] ++ (Single <$> rest))%list.
  rewrite client_app, IH. unfold client. cbn [mbind list_bind expand].
  by rewrite Hm.
Qed.

(** Of one session, and carrying nothing. *)
Definition update_of (session : string) (m : Msg) : Prop :=
  session_update_id m = Some session /\ batch_of m = [].

(** Within the limit, more than one update only where batches are accepted. *)
Definition well_sized (most : nat) (accepted : Prop) (f : Fr) : Prop :=
  length (expand f) = 1 \/
  (length (expand f) <= most /\ accepted /\
   exists session, forall x, x ∈ expand f ->
     exists m, x = inl m /\ session_update_id m = Some session).

Lemma single_sized most accepted m : batch_of m = [] -> well_sized most accepted (Single m).
Proof. intros Hm. left. cbn. by rewrite Hm. Qed.

Lemma frames_deliver accepts session messages items most :
  Forall (update_of session) messages -> length messages <= most ->
  client items (frames accepts messages) = client items (Single <$> messages) /\
  Forall (well_sized most (accepts = true)) (frames accepts messages).
Proof.
  intros Hm Hlen.
  assert (Forall (update_of session) (coalesce_updates messages)) as Hc.
  { apply coalesce_forall; [|constructor|done]. intros m more last [Hs Hb].
    split; [by rewrite session_update_append|by apply batch_of_append]. }
  assert (forall l, Forall (update_of session) l -> Forall (fun m => batch_of m = []) l) as Hplain
    by (intros l Hl; eapply Forall_impl; [exact Hl|by intros m []]).
  rewrite (client_singles _ messages) by (by apply Hplain).
  assert (client items (Single <$> coalesce_updates messages)
    = foldl (receive (inl ∘ canonical)) items messages) as Hall.
  { rewrite client_singles by (by apply Hplain). unfold coalesce_updates. apply received_coalesce. }
  assert (Forall (well_sized most (accepts = true)) (Single <$> coalesce_updates messages)) as Hsized.
  { apply Forall_fmap. apply Hplain in Hc. eapply Forall_impl; [exact Hc|].
    intros m Hb. by apply single_sized. }
  destruct (coalesce_length messages []) as [Hle _]. change (coalesce_from [] messages)
    with (coalesce_updates messages) in Hle.
  unfold frames. destruct (Nat.ltb _ 2 || negb accepts) eqn:Hsmall; [by split|].
  apply orb_false_iff in Hsmall as [_ Hacc%negb_false_iff].
  destruct (coalesce_updates messages) as [|outer rest]; [by split|].
  destruct (product_meta outer) as [[product put]|] eqn:Hp; [|by split].
  apply Forall_cons in Hc as [[Hs Hb] Hrest].
  set (product' := <[BATCH_KEY := JArray (nested_value <$> rest)]> product).
  assert (batch_of (put product') = nested_value <$> rest) as Hbatch.
  { unfold batch_of. destruct (product_meta_put _ _ _ product' Hp) as (put' & -> & _).
    unfold product'. by rewrite lookup_insert_eq. }
  assert (nested_message <$> (nested_value <$> rest) = rest) as Hnested.
  { clear - Hrest. induction Hrest as [|m rest [Hm _] Hrest IH]; [done|]. cbn.
    rewrite (nested_message_value _ _ Hm). f_equal. exact IH. }
  assert (expand (Single (put product')) = inl (put product') :: (inl <$> rest)) as Hex.
  { cbn [expand]. rewrite Hbatch. by rewrite list_fmap_compose, Hnested. }
  split.
  - rewrite <- Hall. rewrite client_singles by (constructor; auto).
    unfold client. cbn [mbind list_bind]. rewrite app_nil_r, Hex. cbn [foldl].
    assert (receive_frame items (inl (put product')) = receive (inl ∘ canonical) items outer) as ->.
    { cbn [receive_frame]. unfold receive. rewrite (from_message_put _ _ _ product' Hp).
      - unfold compose. rewrite (canonical_put _ _ _ product' Hp); [done|].
        unfold product'. apply delete_insert_eq.
      - intros name Hn. unfold product'. by rewrite lookup_insert_ne. }
    generalize (receive (inl ∘ canonical) items outer). clear. induction rest as [|m rest IH]; [done|].
    intros items. cbn. apply IH.
  - constructor; [|done]. right. rewrite Hex. split; [|split; [done|]].
    + cbn [length] in *. rewrite length_fmap. lia.
    + exists session. intros x [->|Hx]%elem_of_cons.
      * eexists. split; [done|]. by rewrite (session_update_put _ _ _ product' Hp).
      * apply list_elem_of_fmap in Hx as (m & -> & Hin). exists m. split; [done|].
        by apply (Forall_forall _ _) with (x := m) in Hrest as [].
Qed.

(** ** The relay *)

Context {E : Type}.
Variable max_batch_size : nat.
Variable queued accepts_batches : nat -> bool.
Variable sink_error : nat -> option E.
Hypothesis positive : 0 < max_batch_size.

Lemma drain_spec session source : forall messages n,
  length messages <= max_batch_size ->
  let '(drained, pending, rest, closed, _) :=
    drain max_batch_size queued session messages source n in
  exists more, drained = (messages ++ more)%list /\
    Forall (fun m => session_update_id m = Some session) more /\
    source = ((Single <$> more) ++ option_list pending ++ rest)%list /\
    length drained <= max_batch_size /\ (closed = true -> pending = None /\ rest = []).
Proof.
  induction source as [|f source IH]; intros messages n Hlen; cbn [drain].
  - destruct (Nat.leb_spec max_batch_size (length messages)).
    { exists []. by rewrite app_nil_r. }
    destruct (queued n); cbn [negb]; exists []; by rewrite app_nil_r.
  - destruct (Nat.leb_spec max_batch_size (length messages)).
    { exists []. by rewrite app_nil_r. }
    destruct (queued n); cbn [negb]; [|exists []; by rewrite app_nil_r].
    destruct f as [m|f]; [|exists []; by rewrite app_nil_r].
    destruct (bool_decide_reflect (session_update_id m = Some session)) as [Hm|];
      [|exists []; by rewrite app_nil_r].
    specialize (IH (messages ++ [m])%list (S n)). destruct (drain _ _ _ _ _ _) as [[[[d pending] rest] closed] k].
    destruct IH as (more & -> & Hmore & -> & Hd & Hclosed); [rewrite length_app; cbn; lia|].
    exists (m :: more). rewrite <- app_assoc in *.
    split; [done|]. split; [by constructor|]. split; [done|]. by split.
Qed.

Lemma send_all_sent fs s s' :
  send_all sink_error fs s = (Ok tt, s') -> sent s' = (sent s ++ fs)%list.
Proof.
  revert s. induction fs as [|f fs IH]; intros s.
  - intros [= <-]. by rewrite app_nil_r.
  - cbn [send_all]. unfold m_bind, send at 1. destruct (sink_error _); [done|].
    intros Hs. rewrite (IH _ Hs). cbn. by rewrite <- app_assoc.
Qed.

Definition relay := forward max_batch_size queued accepts_batches sink_error.

Lemma forward_delivers fuel : forall pending source s s',
  Forall carries_nothing (option_list pending ++ source) ->
  relay fuel pending source s = (Ok (Some tt), s') ->
  exists fs, sent s' = (sent s ++ fs)%list /\
    (forall items, client items fs = client items (option_list pending ++ source)%list) /\
    Forall (fun f => exists n, well_sized max_batch_size (accepts_batches n = true) f) fs.
Proof.
  induction fuel as [|fuel IH]; intros pending source s s' Hall Hr; [done|].
  unfold relay in Hr. cbn [forward] in Hr.
  assert (forall (frame : Fr) source', (option_list pending ++ source)%list = frame :: source' ->
    (match frame with
     | Frame _ => let! _ := send sink_error frame in relay fuel None source'
     | Single message =>
         match session_update_id message with
         | None => let! _ := send sink_error (Single message) in relay fuel None source'
         | Some session =>
             let! (messages, pending, source, closed) :=
               drained max_batch_size queued session message source' in
             let! s := m_get in
             let! _ := send_all sink_error (frames (accepts_batches (polls s)) messages) in
             if closed then m_ret (Some tt) else relay fuel pending source
         end
     end) s = (Ok (Some tt), s') ->
    exists fs, sent s' = (sent s ++ fs)%list /\
      (forall items, client items fs = client items (frame :: source')) /\
      Forall (fun f => exists n, well_sized max_batch_size (accepts_batches n = true) f) fs) as Hstep.
  { clear Hr. intros frame source' Hsrc Hr. rewrite Hsrc in Hall.
    apply Forall_cons in Hall as [Hf Hrest].
    assert ((let! _ := send sink_error frame in relay fuel None source') s = (Ok (Some tt), s') ->
      exists fs, sent s' = (sent s ++ fs)%list /\
      (forall items, client items fs = client items (frame :: source')) /\
      Forall (fun f => exists n, well_sized max_batch_size (accepts_batches n = true) f) fs) as Hsend.
    { unfold m_bind, send. destruct (sink_error _); [done|]. intros Hr'.
      destruct (IH None source' _ _ Hrest Hr') as (fs & Hs & Hc & Hw).
      exists (frame :: fs). cbn in Hs. rewrite Hs, <- app_assoc. split; [done|]. split.
      - intros items. change (frame :: fs) with ([frame] ++ fs)%list.
        change (frame :: source') with ([frame] ++ source')%list. rewrite !client_app. apply Hc.
      - constructor; [|done]. exists 0. destruct frame as [m|f]; [|by left]. by apply single_sized. }
    destruct frame as [m|f]; [|by apply Hsend].
    destruct (session_update_id m) as [session|] eqn:Hm; [|by apply Hsend].
    unfold m_bind, drained in Hr.
    pose proof (drain_spec session source' [m] (polls s) ltac:(cbn; lia)) as Hd.
    destruct (drain _ _ _ _ _ _) as [[[[messages pending'] rest] closed] n].
    destruct Hd as (more & -> & Hmore & -> & Hlen & Hclosed).
    cbn [m_get polls] in Hr.
    destruct (send_all sink_error (frames (accepts_batches n) ([m] ++ more)%list) _) as [[[]|e] s1] eqn:Hsent;
      [|done].
    apply send_all_sent in Hsent. cbn [sent] in Hsent.
    apply Forall_app in Hrest as [Hmore' Hrest].
    assert (Forall (update_of session) ([m] ++ more)%list) as Hup.
    { constructor; [by split|]. rewrite Forall_fmap in Hmore'. rewrite Forall_forall in *.
      intros x Hx. split; [by apply Hmore|by apply (Hmore' x)]. }
    assert (forall items, client items (frames (accepts_batches n) ([m] ++ more)%list)
      = client items (Single <$> ([m] ++ more)%list)) as Hfr by (intros items; by eapply frames_deliver).
    assert (Forall (fun f => exists n, well_sized max_batch_size (accepts_batches n = true) f)
      (frames (accepts_batches n) ([m] ++ more)%list)) as Hsz.
    { destruct (frames_deliver (accepts_batches n) session ([m] ++ more)%list [] max_batch_size Hup Hlen)
        as [_ Hw]. eapply Forall_impl; [exact Hw|]. intros f Hf'. by exists n. }
    destruct closed.
    - injection Hr as <-. destruct Hclosed as [-> ->]; [done|]. exists (frames (accepts_batches n) ([m] ++ more)%list).
      split; [exact Hsent|]. split; [|exact Hsz]. intros items. rewrite Hfr.
      cbn [option_list]. by rewrite !app_nil_r.
    - destruct (IH pending' rest s1 s' Hrest Hr) as (fs & Hs & Hc & Hw).
      exists (frames (accepts_batches n) ([m] ++ more) ++ fs)%list. rewrite Hs, Hsent, <- app_assoc.
      split; [done|]. split; [|by apply Forall_app].
      intros items. rewrite client_app, Hfr, Hc, <- client_app. f_equal. }
  destruct pending as [frame|]; [by apply (Hstep frame source)|].
  destruct source as [|frame source]; [|by apply (Hstep frame source)].
  injection Hr as <-. exists []. by rewrite app_nil_r.
Qed.

Lemma forward_total fuel : forall pending source s,
  length (option_list pending ++ source) < fuel ->
  (relay fuel pending source s).1 <> Ok None.
Proof.
  induction fuel as [|fuel IH]; intros pending source s Hlen; [lia|].
  unfold relay. cbn [forward].
  assert (forall frame source', length source' < fuel ->
    ((let! _ := send sink_error frame in relay fuel None source') s).1 <> Ok None) as Hsend.
  { intros frame source' Hl. unfold m_bind, send. destruct (sink_error _); [done|].
    apply IH. cbn. lia. }
  assert (forall frame source', length source' < fuel ->
    ((match frame with
     | Frame _ => let! _ := send sink_error frame in relay fuel None source'
     | Single message =>
         match session_update_id message with
         | None => let! _ := send sink_error (Single message) in relay fuel None source'
         | Some session =>
             let! (messages, pending, source, closed) :=
               drained max_batch_size queued session message source' in
             let! s := m_get in
             let! _ := send_all sink_error (frames (accepts_batches (polls s)) messages) in
             if closed then m_ret (Some tt) else relay fuel pending source
         end
     end) s).1 <> Ok None) as Hstep.
  { intros frame source' Hl. destruct frame as [m|f]; [|by apply Hsend].
    destruct (session_update_id m) as [session|]; [|by apply Hsend].
    unfold m_bind, drained. pose proof (drain_spec session source' [m] (polls s) ltac:(cbn; lia)) as Hd.
    destruct (drain _ _ _ _ _ _) as [[[[messages pending'] rest] closed] n].
    destruct Hd as (more & _ & _ & -> & _). cbn [m_get].
    destruct (send_all _ _ _) as [[[]|e] s1]; [|done]. destruct closed; [done|].
    apply IH. rewrite length_app in Hl. lia. }
  destruct pending as [f|]; [apply Hstep; cbn in Hlen; lia|].
  destruct source as [|f source]; [done|]. apply Hstep. cbn in Hlen. lia.
Qed.

(** C24: whatever is queued when the relay polls and whatever the clients
    accept, a client that unpacks carriers and appends adjacent text chunks ends
    with exactly what it would have from the messages one by one: nothing is
    lost, doubled or moved.  A frame carries more than one update only where
    batches are accepted, then at most the limit and all of one session, and
    the relay ends when its source does. *)
Theorem batching_delivers fuel source s' :
  Forall carries_nothing source ->
  relay fuel None source {| sent := []; polls := 0 |} = (Ok (Some tt), s') ->
  client [] (sent s') = client [] source /\
  Forall (fun f => exists n, well_sized max_batch_size (accepts_batches n = true) f) (sent s') /\
  forall s, (relay (S (length source)) None source s).1 <> Ok None.
Proof.
  intros Hall Hr. destruct (forward_delivers fuel None source _ _ Hall Hr) as (fs & Hs & Hc & Hw).
  cbn in Hs. subst fs. split; [apply Hc|]. split; [exact Hw|]. intros s. apply forward_total. cbn. lia.
Qed.

End Batching.

(** ** A concrete stream *)

#[export] Instance sample_rpc : RpcTypes := {| RequestRest := unit; OtherMessage := unit; OtherFrame := unit |}.
#[local] Existing Instance SampleText.json_number_eq_dec.
Definition sample_tree_eq (a b : json) : bool :=
  bool_decide (SampleText.to_tree a =@{gen_tree (bool + json_number + string)} SampleText.to_tree b).
Lemma sample_tree_eq_refl a : sample_tree_eq a a = true.
Proof. by apply bool_decide_eq_true. Qed.
Lemma sample_tree_eq_trans a b c :
  sample_tree_eq a b = true -> sample_tree_eq b c = true -> sample_tree_eq a c = true.
Proof. unfold sample_tree_eq. rewrite !bool_decide_eq_true. congruence. Qed.
#[export] Instance sample_value_eq : ValueEq :=
  {| value_eq_refl := sample_tree_eq_refl; value_eq_trans := sample_tree_eq_trans |}.

Definition sample_update (update : json_map) (meta : json_map) : RawJsonRpcMessage sample_rpc :=
  Notification {| method := "session/update"; params := Some (ParamsObject
    (<["sessionId" := JString "session-1"]> (<["update" := JObject update]>
      {[ "_meta" := JObject {[ ACP_NAMESPACE := JObject meta ]} ]}))) |}.
Definition sample_chunk (sequence : Z) (text : string) : RawJsonRpcMessage sample_rpc :=
  sample_update
    (<["sessionUpdate" := JString "agent_message_chunk"]> (<["messageId" := JString "message-1"]>
      {[ "content" := JObject (<["type" := JString "text"]> {[ "text" := JString text ]}) ]}))
    (<["turnId" := JString "turn-1"]> (<["sequence" := json_u64 sequence]>
      {[ "sessionRecovery" := JObject (<["runId" := JString "run-1"]>
           (<["projectionIndex" := json_u64 0]> {[ "projectionCount" := json_u64 1 ]})) ]})).
Definition sample_call : RawJsonRpcMessage sample_rpc :=
  sample_update {[ "sessionUpdate" := JString "tool_call_update" ]} ∅.
Definition sample_source : list (TransportFrame sample_rpc) :=
  [Single (sample_chunk 1 "hel"); Single (sample_chunk 2 "lo"); Single sample_call; Frame tt].

Abbreviation sample_relay := (relay (E := unit) 3 (fun _ => true) (fun _ => true) (fun _ => None)
  5 None sample_source {| sent := []; polls := 0 |}).

Lemma sample_relay_ends :
  match sample_relay with (Ok (Some _), s) => length (sent s) = 2 | _ => False end.
Proof. vm_compute. reflexivity. Qed.

Lemma batching_delivers_witness :
  match sample_relay with
  | (Ok (Some _), s) => length (sent s) = 2 /\ client [] (sent s) = client [] sample_source
  | _ => False
  end.
Proof.
  pose proof sample_relay_ends as Hends. destruct sample_relay as [[[[]|]|e] s] eqn:Hr; [|done..].
  split; [exact Hends|].
  apply (batching_delivers (E := unit) 3 (fun _ => true) (fun _ => true) (fun _ => None)
    ltac:(lia) 5 sample_source s); [|exact Hr].
  repeat constructor.
Defined.
