(* ===== verification/ExecutionTheorems.v ===== *)
(** The properties of a session's operation gate, its cancellation, its shutdown
    and its order of admission. *)

From S2P Require Import Prelude Scalar Json Message StoreModel StoreState ToolContract KernelErrors Plan Replay.
From S2P Require Import Transcript Queue Execution Samples.
Open Scope string_scope.
Open Scope rust_scope.

Section Execution.
Context {R : RigTypes} {C : CancellationTokens}.
Abbreviation X := (SessionExecution (R := R)).

(** ** Everything tasks do to an execution, one locked section each

    [request_close] is [SignalClose] and then [Cancel], [install_cancellation]
    is [Prepare] and then [Store] of the token it made; what other tasks do in
    between is any steps. *)

Inductive op : Type :=
| Cancel
| SignalClose
| PollOperation (task : nat) (closing : Token)
| PollPrompt (task : nat) (closing : Token) (parent waiting : option Token) (w : WaiterCancellation)
| TryAcquire (task : nat)
| PollClose (task : nat)
| Release (task : nat)
| Prepare (task : nat) (parent : option Token)
| Store (task : nat) (t : Token)
| BeginClosing (task : nat)
| Abort (task : nat)
| FinishClosing (task : nat)
| SettleClosing
| FinishStarting
| InstallRun (run : RunId) (turn : TurnId)
| DropLease (run : RunId)
| BeginWait
| EndWait
| EmitSequence
| IssueTicket
| ReleaseTicket (number : Z).

(** Tokens are installed and the shutdown proceeds under the gate. *)
Definition holding (task : nat) (f : X -> X) (e : X) : X :=
  if bool_decide (gate e = Some task) then f e else e.

Definition perform (o : op) (e : X) : X :=
  match o with
  | Cancel => (cancel_operation e).2
  | SignalClose => (signal_close e).2
  | PollOperation task closing => (operation_poll task closing e).2
  | PollPrompt task closing parent waiting w => (prompt_poll task closing parent waiting w e).2
  | TryAcquire task => (try_acquire_operation task e).2
  | PollClose task => (close_poll task e).2
  | Release task => release_gate task e
  | Prepare task parent => holding task (fun e => (prepare_cancellation parent e).2) e
  | Store task t => holding task (fun e => (store_cancellation t e).2) e
  | BeginClosing task => holding task (fun e => (begin_closing e).2) e
  | Abort task => holding task (fun e => (abort_closing e).2) e
  | FinishClosing task => holding task (fun e => (finish_closing e).2) e
  | SettleClosing => (settle_closing e).2
  | FinishStarting => (finish_starting e).2
  | InstallRun run turn => (install_run run turn e).2
  | DropLease run => drop_lease run e
  | BeginWait => (begin_user_wait e).2
  | EndWait => (end_user_wait e).2
  | EmitSequence => (next_sequence e).2
  | IssueTicket => (admission_ticket e).2
  | ReleaseTicket number => set_admission (release_ticket number (admission e)) e
  end.
Definition perform_all (ops : list op) (e : X) : X := foldl (fun e o => perform o e) e ops.

Lemma perform_all_cons o ops e : perform_all (o :: ops) e = perform_all ops (perform o e).
Proof. done. Qed.

(** The task that acts through the gate. *)
Definition actor (o : op) : option nat :=
  match o with
  | PollOperation task _ | PollPrompt task _ _ _ _ | TryAcquire task | PollClose task
  | Release task | Prepare task _ | Store task _ | BeginClosing task | Abort task | FinishClosing task => Some task
  | _ => None
  end.
Definition cancels (o : op) : bool :=
  match o with Cancel => true | _ => false end.

(** Case analysis of one step. *)
Ltac step_cases o :=
  destruct o; cbn [perform]; unfold holding, operation_poll, prompt_poll, prompt_admit,
    try_acquire_operation, close_poll, release_gate, signal_close, prepare_cancellation, store_cancellation, begin_closing,
    abort_closing, finish_closing, settle_closing, finish_starting, install_run, drop_lease,
    begin_user_wait, end_user_wait, next_sequence, admission_ticket, operation_token, fresh_token,
    ensure_active, modify_execution;
  repeat (case_match; simplify_eq/=); try done.

(** Results that name a token and the store after it. *)
Lemma new_token_keeps ts t ts' x :
  new_token ts = (t, ts') -> is_cancelled ts x = true -> is_cancelled ts' x = true.
Proof. intros Hn Hx. pose proof (new_keeps ts x Hx) as H. by rewrite Hn in H. Qed.
Lemma child_token_keeps p ts t ts' x :
  child_token p ts = (t, ts') -> is_cancelled ts x = true -> is_cancelled ts' x = true.
Proof. intros Hn Hx. pose proof (child_keeps p ts x Hx) as H. by rewrite Hn in H. Qed.

#[local] Hint Resolve cancel_keeps new_token_keeps child_token_keeps cancel_sets : kernel.

(** What [cancel] does. *)
Lemma cancel_operation_spec e :
  exists t ts, new_token (cancel_token (waiter_generation e)
      (cancel_token (current_cancellation e) (token_store e))) = (t, ts) /\
    (cancel_operation e).2
      = set_generation t (with_open false (pending_queue e)) (set_tokens ts e).
Proof.
  unfold cancel_operation, modify_execution. cbn. destruct (new_token _) as [t ts]. by exists t, ts.
Qed.

Lemma cancel_cancels e (e' := (cancel_operation e).2) :
  cancelled_now (waiter_generation e) e' = true /\
  cancelled_now (current_cancellation e) e' = true /\
  (forall t, cancelled_now t e = true -> cancelled_now t e' = true) /\
  gate e' = gate e /\ current_cancellation e' = current_cancellation e /\
  close_requested e' = close_requested e /\ lifecycle e' = lifecycle e.
Proof.
  unfold e'. destruct (cancel_operation_spec e) as (t & ts & Hn & ->). unfold cancelled_now. cbn.
  split_and!; try done; eauto with kernel.
Qed.

Lemma perform_keeps_cancelled o e t :
  cancelled_now t e = true -> cancelled_now t (perform o e) = true.
Proof.
  intros Ht. destruct (cancels o) eqn:Hc.
  - destruct o; try done; cbn [perform]. by apply cancel_cancels.
  - unfold cancelled_now in *. step_cases o; cbn; eauto with kernel.
Qed.

Lemma perform_all_keeps_cancelled ops : forall e t,
  cancelled_now t e = true -> cancelled_now t (perform_all ops e) = true.
Proof.
  induction ops as [|o ops IH]; intros e t Ht; [done|]. cbn. by apply IH, perform_keeps_cancelled.
Qed.

Lemma perform_all_app ops ops' e : perform_all (ops ++ ops') e = perform_all ops' (perform_all ops e).
Proof. apply foldl_app. Qed.

Lemma cancelled_generation o e :
  cancels o = true -> cancelled_now (waiter_generation e) (perform o e) = true.
Proof. intros Hc. destruct o; try done; cbn [perform]. by destruct (cancel_cancels e) as [H _]. Qed.

Lemma kept_generation o e :
  cancels o = false -> waiter_generation (perform o e) = waiter_generation e.
Proof. intros Hc. step_cases o. Qed.

(** A task that holds the gate keeps it, and its operation's token, while the
    others act. *)
Lemma held o e task :
  gate e = Some task -> actor o <> Some task ->
  gate (perform o e) = Some task /\ current_cancellation (perform o e) = current_cancellation e.
Proof.
  intros Hg Ha. destruct (cancels o) eqn:Hc.
  - destruct o; try done; cbn [perform].
    destruct (cancel_cancels e) as (_ & _ & _ & -> & -> & _). by split.
  - cbn [actor] in Ha. step_cases o; try congruence;
      repeat match goal with H : bool_decide _ = true |- _ => apply bool_decide_eq_true in H end;
      congruence.
Qed.

Lemma cancelled_current o e :
  cancels o = true -> cancelled_now (current_cancellation e) (perform o e) = true.
Proof. intros Hc. destruct o; try done; cbn [perform]. by destruct (cancel_cancels e) as (_ & H & _). Qed.

(** A stop while a prompt waits cancels the generation it captured. *)
Lemma stopped_generation ops : forall e,
  existsb cancels ops = true -> cancelled_now (waiter_generation e) (perform_all ops e) = true.
Proof.
  induction ops as [|o ops IH]; intros e Hc; [done|]. cbn [existsb] in Hc. cbn [perform_all foldl].
  destruct (cancels o) eqn:Ho.
  - by apply perform_all_keeps_cancelled, cancelled_generation.
  - rewrite <- (kept_generation o e Ho). by apply IH.
Qed.

(** A stop while a prompt holds the gate cancels the token it installed. *)
Lemma stopped_operation ops task : forall e,
  gate e = Some task -> Forall (fun o => actor o <> Some task) ops ->
  existsb cancels ops = true ->
  cancelled_now (current_cancellation e) (perform_all ops e) = true.
Proof.
  induction ops as [|o ops IH]; intros e Hg Ha Hc; [done|]. cbn [existsb] in Hc.
  apply Forall_cons in Ha as [Ho Ha]. destruct (held o e task Hg Ho) as [Hg' Hcur].
  cbn [perform_all foldl]. destruct (cancels o) eqn:Hco.
  - by apply perform_all_keeps_cancelled, cancelled_current.
  - rewrite <- Hcur. by apply IH.
Qed.

(** An admitted prompt holds the gate, and its token is the operation's. *)
Lemma admitted task closing parent waiting w e t e' :
  prompt_poll task closing parent waiting w e = (Some (Ok t), e') ->
  any_cancelled waiting e = false /\ gate e = None /\
  gate e' = Some task /\ current_cancellation e' = t.
Proof.
  unfold prompt_poll. destruct (cancelled_now closing e); [done|].
  destruct (any_cancelled parent e); [done|]. destruct (any_cancelled waiting e) eqn:Hw; [done|].
  destruct (gate e) eqn:Hg; [done|]. unfold prompt_admit.
  destruct (ensure_active e) as [[]|[]]; try done. rewrite Hw. cbn [orb].
  destruct (any_cancelled parent e); [done|].
  destruct (operation_token parent e) as [x e1]. destruct (cancelled_now closing e1).
  - by destruct w; intros [= <- <-].
  - by intros [= <- <-].
Qed.

(** When a prompt took the generation of stops it listens to: as it begins to
    wait, or with its ticket, before other tasks did [earlier]; input of the
    kernel's own listens to none. *)
Definition listens_since (w : WaiterCancellation) (e0 : X) (earlier : list op) : Prop :=
  match w with Reject => earlier = [] | Captured t => t = waiter_generation e0 | Ignore => True end.

(** C21: a stop never falls between a client prompt's arrival and its
    operation.  A cancel -- or a close, which ends with one -- after the prompt
    took its generation and before it is admitted makes its next poll answer
    with an error, gate or not; one while it holds the gate as admitted cancels
    the token of its operation, whatever else other tasks do.  Input of the
    kernel's own, which ignores stops while it waits, has the second half. *)
Theorem cancel_reaches_prompt task w parent e0 earlier closing waiting before
  (e1 := perform_all earlier e0) (e := perform_all before e1) :
  listens_since w e0 earlier -> prompt_begin w e1 = (Ok (closing, waiting), e1) ->
  (w <> Ignore -> existsb cancels (earlier ++ before) = true ->
     exists error, prompt_poll task closing parent waiting w e = (Some (Err error), e)) /\
  (forall t e2 after, prompt_poll task closing parent waiting w e = (Some (Ok t), e2) ->
     Forall (fun o => actor o <> Some task) after -> existsb cancels after = true ->
     cancelled_now t (perform_all after e2) = true).
Proof.
  intros Hw Hbegin. split.
  - intros Hclient Hstop.
    assert (any_cancelled waiting e = true) as Hc.
    { unfold prompt_begin in Hbegin. destruct (ensure_active e1); [|done]. injection Hbegin as _ <-.
      subst e e1. destruct w; [|done|]; cbn [any_cancelled listens_since] in *.
      - subst earlier. cbn [app] in Hstop |- *. by apply stopped_generation.
      - rewrite Hw, <- perform_all_app. by apply stopped_generation. }
    unfold prompt_poll. destruct (cancelled_now closing e); [by eexists|].
    destruct (any_cancelled parent e); [by eexists|]. rewrite Hc. by eexists.
  - intros t e2 after Hpoll Hafter Hstop. destruct (admitted _ _ _ _ _ _ _ _ Hpoll) as (_ & _ & Hg & <-).
    by apply (stopped_operation after task).
Qed.

(** ** Shutdown *)

Definition aborts (o : op) : bool := match o with Abort _ => true | _ => false end.

Lemma kept_close_request o e :
  aborts o = false -> close_requested (perform o e) = close_requested e.
Proof.
  intros Ha. destruct (cancels o) eqn:Hc.
  - destruct o; try done; cbn [perform].
    destruct (cancel_cancels e) as (_ & _ & _ & _ & _ & -> & _). done.
  - step_cases o.
Qed.

Lemma requested_close ops : forall e,
  forallb (fun o => negb (aborts o)) ops = true ->
  existsb (fun o => match o with SignalClose => true | _ => false end) ops = true ->
  cancelled_now (close_requested e) (perform_all ops e) = true /\
  close_requested (perform_all ops e) = close_requested e.
Proof.
  assert (forall ops e, forallb (fun o => negb (aborts o)) ops = true ->
    close_requested (perform_all ops e) = close_requested e) as Hkept.
  { clear ops. induction ops as [|o ops IH]; intros e Ha; [done|]. cbn [forallb] in Ha.
    rewrite perform_all_cons. apply andb_true_iff in Ha as [Ho%negb_true_iff Ha]. by rewrite IH, kept_close_request. }
  intros e Ha Hr. split; [|by apply Hkept].
  revert e. induction ops as [|o ops IH]; intros e; [done|].
  cbn [forallb] in Ha. cbn [existsb] in Hr. rewrite perform_all_cons. apply andb_true_iff in Ha as [Ho%negb_true_iff Ha].
  apply orb_true_iff in Hr as [Hr|Hr].
  - destruct o; try done. apply perform_all_keeps_cancelled. cbn [perform]. unfold cancelled_now. cbn. apply cancel_sets.
  - rewrite <- (kept_close_request o e Ho). by apply IH.
Qed.

(** C22: a request to close is heard by everyone: from its first section on and
    as long as no shutdown is aborted, whatever else happens, no operation or prompt that waits for the
    gate waits longer or gets it -- each is answered with an error at its next
    poll, also while the gate is held -- and none that comes later does. *)
Theorem close_answers_waiters ops e (e' := perform_all ops e) (closing := close_requested e) :
  forallb (fun o => negb (aborts o)) ops = true ->
  existsb (fun o => match o with SignalClose => true | _ => false end) ops = true ->
  (forall task, operation_poll task closing e' = (Some (Err SessionClosing), e')) /\
  (forall task parent waiting w,
     prompt_poll task closing parent waiting w e' = (Some (Err (waiter_closing w)), e')) /\
  (forall task, exists error, try_acquire_operation task e' = (Err error, e')) /\
  (forall t e'', operation_begin e' = (Ok t, e'') -> t = closing) /\
  (forall w t waiting e'', prompt_begin w e' = (Ok (t, waiting), e'') -> t = closing).
Proof.
  intros Ha Hr. destruct (requested_close ops e Ha Hr) as [Hc Hsame].
  fold e' closing in Hc, Hsame. split_and!.
  - intros task. unfold operation_poll. by rewrite Hc.
  - intros task parent waiting w. unfold prompt_poll. by rewrite Hc.
  - intros task. unfold try_acquire_operation. destruct (ensure_active e'); [|by eexists].
    rewrite Hsame, Hc. by eexists.
  - intros t e''. unfold operation_begin. destruct (ensure_active e'); [|done]. by intros [= <- _].
  - intros w t waiting e''. unfold prompt_begin. destruct (ensure_active e'); [|done].
    by intros [= <- _ _].
Qed.

(** An aborted shutdown forgets the request of another close that waits
    for the gate.  That close then shuts the session down with nothing telling
    waiting operations: one that began after the abort waits for the gate
    through the whole shutdown. *)
Theorem aborted_close_forgets a b c e :
  a <> b -> gate e = Some a -> lifecycle e = Closing ->
  let e1 := perform_all [SignalClose; Cancel; Abort a; Release a; PollClose b] e in
  let e2 := perform (BeginClosing b) e1 in
  lifecycle e2 = Closing /\ gate e2 = Some b /\
  exists t, operation_begin e1 = (Ok t, e1) /\ operation_poll c t e2 = (None, e2).
Proof.
  intros Hab Hg Hl. cbv zeta.
  set (e0 := perform Cancel (perform SignalClose e)).
  assert (gate e0 = Some a /\ lifecycle e0 = Closing) as [Hg0 Hl0].
  { unfold e0. cbn [perform]. destruct (cancel_cancels (signal_close e).2) as (_ & _ & _ & -> & _ & _ & ->). by split. }
  pose proof (new_fresh (token_store e0)) as Hf.
  destruct (new_token (token_store e0)) as [t ts] eqn:Hn. cbn [fst snd] in Hf.
  set (ea := set_close_requested t (set_tokens ts (set_lifecycle Active (closing e0) e0))).
  assert (perform (Abort a) e0 = ea) as Habort.
  { cbn [perform]. unfold holding, abort_closing, fresh_token.
    rewrite (bool_decide_eq_true_2 (gate e0 = Some a)) by done. rewrite Hl0.
    cbn [set_lifecycle token_store]. by rewrite Hn. }
  assert (perform (Release a) ea = set_gate None ea) as Hrel.
  { cbn [perform]. unfold release_gate. by rewrite (bool_decide_eq_true_2 (gate ea = Some a)). }
  rewrite !perform_all_cons. fold e0. rewrite Habort, Hrel.
  change (perform_all [] (perform (PollClose b) (set_gate None ea)))
    with (set_gate (Some b) (set_gate None ea)).
  set (eb := set_gate (Some b) (set_gate None ea)).
  assert (perform (BeginClosing b) eb = set_lifecycle Closing true eb) as ->.
  { cbn [perform]. unfold holding. by rewrite (bool_decide_eq_true_2 (gate eb = Some b)). }
  split; [done|]. split; [done|]. exists t. split; [done|].
  unfold operation_poll, cancelled_now. cbn. by rewrite Hf.
Qed.

(** ** Admission *)

(** The tickets released so far, and what the state keeps of them. *)
Record admission_ok (done : gset Z) (a : AdmissionState) : Prop := {
  turn_nonneg : (0 <= next a)%Z;
  before_turn : forall m, (0 <= m < next a)%Z -> m ∈ done;
  not_turn : next a ∉ done;
  kept_released : forall m, m ∈ released a <-> m ∈ done /\ (next a < m)%Z
}.

Lemma release_loop_spec fuel : forall n (s : gset Z),
  size s < fuel ->
  let '(n', s') := release_loop fuel n s in
  (n <= n')%Z /\ (forall m, (n <= m < n')%Z -> m ∈ s) /\ n' ∉ s /\
  (forall m, m ∈ s' <-> m ∈ s /\ ~ (n <= m < n')%Z).
Proof.
  induction fuel as [|fuel IH]; intros n s Hf; [lia|]. cbn [release_loop].
  destruct (bool_decide_reflect (n ∈ s)) as [Hn|Hn].
  - specialize (IH (n + 1)%Z (s ∖ {[ n ]})).
    destruct (release_loop fuel (n + 1) (s ∖ {[ n ]})) as [n' s'].
    destruct IH as (Hle & Hin & Hout & Hrest).
    { rewrite size_difference, size_singleton by set_solver.
      assert (size s <> 0) by (rewrite size_non_empty_iff; set_solver). lia. }
    split_and!.
    + lia.
    + intros m Hm. destruct (decide (m = n)) as [->|]; [done|].
      assert (m ∈ s ∖ {[ n ]}) by (apply Hin; lia). set_solver.
    + intros Hs. apply Hout. apply elem_of_difference. split; [done|].
      rewrite elem_of_singleton. lia.
    + intros m. rewrite Hrest, elem_of_difference, elem_of_singleton. split.
      * intros [[Hm Hne] Hnot]. split; [done|]. lia.
      * intros [Hm Hnot]. split; [split; [done|lia]|lia].
  - split_and!; [lia|lia|done|]. intros m. split; [intros Hm; split; [done|lia]|by intros [? _]].
Qed.

Lemma release_ok dn a number :
  admission_ok dn a -> (0 <= number)%Z -> number ∉ dn ->
  admission_ok (dn ∪ {[ number ]}) (release_ticket number a).
Proof.
  intros [Hpos Hbefore Hturn Hkept] Hn Hnew. unfold release_ticket.
  pose proof (release_loop_spec (S (size (released a ∪ {[ number ]}))) (next a)
    (released a ∪ {[ number ]}) ltac:(lia)) as Hloop.
  destruct (release_loop _ _ _) as [n' s']. destruct Hloop as (Hle & Hin & Hout & Hrest).
  assert (~ (number < next a)%Z) as Hge by (intros Hlt; apply Hnew, Hbefore; lia).
  split; cbn.
  - lia.
  - intros m Hm. destruct (decide (m < next a)%Z); [set_solver by lia|].
    specialize (Hin m ltac:(lia)). set_solver.
  - intros Hd. apply Hout. apply elem_of_union in Hd as [Hd|Hd]; [|set_solver].
    apply elem_of_union_l, Hkept. split; [done|].
    destruct (decide (n' = next a)) as [->|]; [done|lia].
  - intros m. rewrite Hrest, !elem_of_union, elem_of_singleton, Hkept. split.
    + intros [[[Hd Hm]| ->] Hnot].
      * split; [by left|]. destruct (decide (m = n')) as [->|]; [|lia].
        exfalso. apply Hout. apply elem_of_union_l, Hkept. by split.
      * split; [by right|]. destruct (decide (number = n')) as [->|]; [|lia].
        exfalso. apply Hout. set_solver.
    + intros [[Hd| ->] Hm]; (split; [|lia]); [left|by right].
      split; [done|]. lia.
Qed.

(** Tickets are issued in order, and each is released once. *)
Inductive admissions : gset Z -> AdmissionState -> Prop :=
| no_admissions : admissions ∅ admission_default
| ticket_issued dn a more :
    admissions dn a -> u64_checked_add (issued a) 1 = Some more ->
    admissions dn {| issued := more; next := next a; released := released a |}
| ticket_released dn a number :
    admissions dn a -> (0 <= number < issued a)%Z -> number ∉ dn ->
    admissions (dn ∪ {[ number ]}) (release_ticket number a).

Lemma admissions_ok dn a : admissions dn a -> admission_ok dn a.
Proof.
  induction 1 as [|dn a more _ [Hp Hb Ht Hk] Hm|dn a number _ IH Hn Hnew].
  - split; cbn; [lia|lia|set_solver|set_solver].
  - by split.
  - apply release_ok; [done|lia|done].
Qed.

(** Prompts are admitted in the order their tickets were issued, whatever
    order the tickets are released in: a ticket that nobody stopped has its turn
    exactly when every earlier one was released or dropped, so none overtakes
    another and none that was abandoned holds the others up. *)
Theorem admission_in_order dn (e : X) number t :
  admissions dn (admission e) -> (0 <= number)%Z -> number ∉ dn ->
  cancelled_now t e = false ->
  (ticket_poll number t e = Some (Ok tt) <-> forall m, (0 <= m < number)%Z -> m ∈ dn) /\
  (ticket_poll number t e = None <-> exists m, (0 <= m < number)%Z /\ m ∉ dn).
Proof.
  intros Ha Hn Hnew Ht. destruct (admissions_ok _ _ Ha) as [Hp Hb Hturn _].
  unfold ticket_poll. rewrite Ht. destruct (Z.eqb_spec (next (admission e)) number) as [<-|Hne].
  - split; [split; [by intros _|done]|]. split; [done|]. intros (m & Hm & Hout). exfalso. by apply Hout, Hb.
  - assert (next (admission e) < number)%Z as Hlt.
    { destruct (decide (number < next (admission e))%Z); [|lia]. exfalso. apply Hnew, Hb. lia. }
    split; split; try done.
    + intros Hall. exfalso. apply Hturn, Hall. lia.
    + intros _. exists (next (admission e)). split; [lia|done].
Qed.

End Execution.

(** ** A concrete session *)

Definition sample_cancelled (ts : nat * gset nat) (t : nat) : bool :=
  Nat.ltb t ts.1 && bool_decide (t ∈ ts.2).

Lemma sample_cancelled_true ts t :
  sample_cancelled ts t = true <-> (t < ts.1)%nat /\ t ∈ ts.2.
Proof. unfold sample_cancelled. by rewrite andb_true_iff, Nat.ltb_lt, bool_decide_eq_true. Qed.

#[export] Instance sample_tokens : CancellationTokens.
Proof.
  refine {| Token := nat; TokenStore := nat * gset nat; is_cancelled := sample_cancelled;
    new_token ts := (ts.1, (S ts.1, ts.2 ∖ {[ ts.1 ]}));
    child_token p ts :=
      (ts.1, (S ts.1, if sample_cancelled ts p then ts.2 ∪ {[ ts.1 ]} else ts.2 ∖ {[ ts.1 ]}));
    cancel_token t ts := (Nat.max ts.1 (S t), ts.2 ∪ {[ t ]});
    new_keeps := _; child_keeps := _; cancel_keeps := _; cancel_sets := _; new_fresh := _;
    child_as_parent := _ |}.
  - intros [n s] t. rewrite !sample_cancelled_true. cbn. intros [Hlt Hin]. split; [lia|].
    apply elem_of_difference. split; [done|]. rewrite elem_of_singleton. lia.
  - intros p [n s] t. rewrite !sample_cancelled_true. cbn. intros [Hlt Hin]. split; [lia|].
    destruct (sample_cancelled _ _); [set_solver|].
    apply elem_of_difference. split; [done|]. rewrite elem_of_singleton. lia.
  - intros c [n s] t. rewrite !sample_cancelled_true. cbn. intros [Hlt Hin]. split; [lia|set_solver].
  - intros [n s] t. rewrite sample_cancelled_true. cbn. split; [lia|set_solver].
  - intros [n s]. apply not_true_iff_false. rewrite sample_cancelled_true. cbn. set_solver.
  - intros p [n s]. destruct (sample_cancelled (n, s) p) eqn:Hp.
    + apply sample_cancelled_true. split; [cbn; lia|]. cbn [snd fst]. set_solver.
    + apply not_true_iff_false. rewrite sample_cancelled_true. cbn [snd fst]. set_solver.
Defined.

Definition tok (n : nat) : @Token sample_tokens := n.
Definition tokens_from (n : nat) : @TokenStore sample_tokens := (n, ∅).

Definition sample_execution : SessionExecution (R := sample_rig) :=
  {| token_store := tokens_from 3; lifecycle := Active; closing := false; gate := None;
     close_requested := tok 0; waiter_generation := tok 1; current_cancellation := tok 2;
     active_context := None; user_waits := 0; pending_queue := queue_default;
     event_sequence := 0; admission := admission_default |}.

Abbreviation sample_poll :=
  (prompt_poll 7 (tok 0) None (Some (tok 1)) Reject sample_execution).

Lemma sample_poll_admits :
  match sample_poll with (Some (Ok t), e) => cancelled_now t e = false | _ => False end.
Proof. vm_compute. reflexivity. Qed.

Lemma cancel_reaches_prompt_witness :
  match sample_poll with
  | (Some (Ok t), e) => cancelled_now t e = false /\ cancelled_now t (perform_all [Cancel] e) = true
  | _ => False
  end /\
  exists error, prompt_poll 7 (tok 0) None (Some (tok 1)) Reject (perform_all [TryAcquire 8; Cancel] sample_execution)
    = (Some (Err error), perform_all [TryAcquire 8; Cancel] sample_execution).
Proof.
  split.
  - pose proof sample_poll_admits as Hok. destruct sample_poll as [[[t|]|] e] eqn:Hp; [|done..].
    split; [exact Hok|].
    destruct (cancel_reaches_prompt 7 Reject None sample_execution [] (tok 0) (Some (tok 1)) []) as [_ H]; [done|reflexivity|].
    apply (H t e [Cancel]); [exact Hp|by repeat constructor|reflexivity].
  - apply (cancel_reaches_prompt 7 Reject None sample_execution [] (tok 0) (Some (tok 1)) [TryAcquire 8; Cancel]);
      [done|reflexivity|done|reflexivity].
Defined.

(** A close that falls between the two sections of [install_cancellation] finds
    the operation before: the token installed after it is not cancelled. *)
Example close_misses_installation :
  let e := perform_all [TryAcquire 7; Prepare 7 None; SignalClose; Cancel; Store 7 (tok 3)] sample_execution in
  (prepare_cancellation None (perform (TryAcquire 7) sample_execution)).1 = Ok (tok 3) /\
  current_cancellation e = tok 3 /\ cancelled_now (tok 3) e = false /\ cancelled_now (close_requested e) e = true.
Proof. vm_compute. done. Qed.

Lemma close_answers_waiters_witness :
  let e := perform_all [TryAcquire 7; SignalClose] sample_execution in
  gate e = Some 7 /\ operation_poll 8 (tok 0) e = (Some (Err SessionClosing), e).
Proof.
  split; [reflexivity|].
  destruct (close_answers_waiters [TryAcquire 7; SignalClose] sample_execution) as [H _];
    [reflexivity..|]. apply H.
Defined.

Definition closing_execution : SessionExecution (R := sample_rig) :=
  perform_all [SignalClose; Cancel; PollClose 1; BeginClosing 1] sample_execution.

Lemma aborted_close_forgets_witness :
  let e1 := perform_all [SignalClose; Cancel; Abort 1; Release 1; PollClose 2] closing_execution in
  lifecycle (perform (BeginClosing 2) e1) = Closing /\
  exists t, operation_begin e1 = (Ok t, e1) /\
    operation_poll 3 t (perform (BeginClosing 2) e1) = (None, perform (BeginClosing 2) e1).
Proof.
  destruct (aborted_close_forgets 1 2 3 closing_execution) as (Hl & _ & Ht);
    [lia|reflexivity..|]. by split.
Defined.

Definition two_tickets : SessionExecution (R := sample_rig) :=
  perform_all [IssueTicket; IssueTicket; IssueTicket; ReleaseTicket 1] sample_execution.

Lemma admission_in_order_witness :
  ticket_poll 0 (tok 1) two_tickets = Some (Ok tt) /\ ticket_poll 2 (tok 1) two_tickets = None.
Proof.
  assert (admissions {[ 1%Z ]} (admission two_tickets)) as Ha.
  { replace {[ 1%Z ]} with (∅ ∪ {[ 1%Z ]} : gset Z) by set_solver.
    apply (ticket_released ∅ {| issued := 3; next := 0; released := ∅ |} 1); [|cbn; lia|set_solver].
    apply (ticket_issued ∅ {| issued := 2; next := 0; released := ∅ |}); [|reflexivity].
    apply (ticket_issued ∅ {| issued := 1; next := 0; released := ∅ |}); [|reflexivity].
    apply (ticket_issued ∅ admission_default); [|reflexivity]. constructor. }
  split.
  - apply (admission_in_order {[ 1%Z ]} two_tickets 0 (tok 1)); [exact Ha|lia|set_solver|reflexivity|].
    intros m Hm. lia.
  - apply (admission_in_order {[ 1%Z ]} two_tickets 2 (tok 1)); [exact Ha|lia|set_solver|reflexivity|].
    exists 0%Z. split; [lia|set_solver].
Defined.
