(* ===== verification/EditTheorems.v ===== *)
(** The edit tool replaces what it was asked to replace and leaves the rest of
    the file alone; two cases where it does not. *)

From S2P Require Import Prelude Lines Chars Text Scalar Json Message ShellOutput.
From S2P Require Import OutputWindow ToolContract Paths Edit EditLines.
From stdpp Require Import sorting.
Open Scope string_scope.
Open Scope rust_scope.

(** ** Matching *)

Definition target_of (nfkc : string -> string) (fuzzy : bool) (e : EditReplacement) : string :=
  if fuzzy then normalize_fuzzy nfkc (old_text e) else old_text e.

(** A matched edit stands for an edit with one match. *)
Definition stands_for (nfkc : string -> string) (fuzzy : bool) (base : string)
  (e : EditReplacement) (m : MatchedEdit) : Prop :=
  match_indices (target_of nfkc fuzzy e) base = [match_index m] /\
  match_length m = String.length (target_of nfkc fuzzy e) /\ matched_new m = new_text e.

Lemma match_edits_spec nfkc path base fuzzy count l : forall index ms,
  match_edits nfkc path base fuzzy count index l = Ok ms ->
  Forall2 (stands_for nfkc fuzzy base) l ms.
Proof.
  induction l as [|e l IH]; intros index ms; cbn [match_edits]; [by intros [= <-]|].
  fold (target_of nfkc fuzzy e).
  destruct (match_indices _ base) as [|n [|n' more]] eqn:Hm; [done| |done].
  destruct (match_edits _ _ _ _ _ _ l) as [rest|] eqn:Hr; [|done]. intros [= <-].
  constructor; [by split_and!|by apply (IH (S index))].
Qed.

Lemma match_edits_total nfkc path base fuzzy count l : forall index,
  (forall e, e ∈ l -> exists n, match_indices (target_of nfkc fuzzy e) base = [n]) ->
  exists ms, match_edits nfkc path base fuzzy count index l = Ok ms.
Proof.
  induction l as [|e l IH]; intros index H; cbn [match_edits]; [by eexists|].
  fold (target_of nfkc fuzzy e).
  destruct (H e ltac:(apply list_elem_of_here)) as [n ->].
  destruct (IH (S index)) as [ms ->]; [|by eexists]. intros x Hx. by apply H, list_elem_of_further.
Qed.

Lemma check_not_empty_spec path count l : forall index,
  check_not_empty path count index l = Ok tt <-> Forall (fun e => old_text e <> "") l.
Proof.
  induction l as [|e l IH]; intros index; cbn [check_not_empty]; [done|].
  rewrite Forall_cons. destruct (String.eqb_spec (old_text e) "") as [He|He].
  - split; [done|]. by intros [? _].
  - rewrite IH. by split; [|intros [_ ?]].
Qed.

Lemma check_overlap_chained path l lo :
  match l with e :: _ => lo <= match_index e | [] => True end ->
  check_overlap path l = Ok tt <-> chained lo l.
Proof.
  revert lo. induction l as [|e l IH]; intros lo Hlo; [done|].
  destruct l as [|e' l]; [by cbn; split|].
  change (check_overlap path (e :: e' :: l))
    with (if Nat.ltb (match_index e') (match_end e) then
            Err (fails ("edits[" +:+ num (edit_index e) +:+ "] and edits[" +:+ num (edit_index e')
                 +:+ "] overlap in " +:+ path
                 +:+ ". Merge them into one edit or target disjoint regions."))
          else check_overlap path (e' :: l)).
  change (chained lo (e :: e' :: l)) with (lo <= match_index e /\ chained (match_end e) (e' :: l)).
  destruct (Nat.ltb_spec (match_index e') (match_end e)) as [Hlt|Hge].
  - split; [done|]. intros [_ [Hle _]]. lia.
  - rewrite (IH (match_end e)) by done. by split; [|intros [_ ?]].
Qed.

Lemma occurs_sub p s n : occurs_at p s n -> sub s n (String.length p) = p /\ n + String.length p <= String.length s.
Proof.
  intros (before & after & -> & <-). unfold sub.
  rewrite str_drop_app_length, str_take_app_length, !string_length_app. split; [done|lia].
Qed.

Lemma stands_for_in_bounds nfkc fuzzy base e m :
  target_of nfkc fuzzy e <> "" -> stands_for nfkc fuzzy base e m ->
  pair_in base 0 m = (target_of nfkc fuzzy e, new_text e) /\
  match_end m <= String.length base /\ 0 < match_length m.
Proof.
  intros Hne (Hm & Hl & Hn).
  assert (occurs_at (target_of nfkc fuzzy e) base (match_index m)) as Ho.
  { apply match_indices_occurs; [done|]. rewrite Hm. apply list_elem_of_here. }
  apply occurs_sub in Ho as [Hs Hb]. unfold pair_in, match_end. rewrite Nat.sub_0_r, Hl, Hs, Hn.
  split_and!; [done|lia|]. destruct (target_of nfkc fuzzy e); [done|]. cbn. lia.
Qed.

(** The edits in the order of their matches. *)
Lemma matched_pairs nfkc fuzzy base l ms path :
  Forall (fun e => target_of nfkc fuzzy e <> "") l ->
  Forall2 (stands_for nfkc fuzzy base) l ms ->
  check_overlap path (sort_by_key match_index ms) = Ok tt ->
  let sorted := sort_by_key match_index ms in
  chained 0 sorted /\ Forall (fun m => match_end m <= String.length base /\ 0 < match_length m) sorted /\
  pair_in base 0 <$> sorted ≡ₚ (fun e => (target_of nfkc fuzzy e, new_text e)) <$> l.
Proof.
  intros Hne Hms Ho. cbv zeta. split_and!.
  - apply (check_overlap_chained path); [by destruct (sort_by_key _ _); [|lia]|done].
  - rewrite sort_by_key_perm. clear Ho. induction Hms as [|e m l ms Hem _ IH]; [done|].
    inversion Hne; subst. constructor; [|by apply IH]. by destruct (stands_for_in_bounds nfkc fuzzy base e m).
  - rewrite sort_by_key_perm. clear Ho. induction Hms as [|e m l ms Hem _ IH]; [done|].
    inversion Hne; subst. cbn. rewrite IH by done.
    by destruct (stands_for_in_bounds nfkc fuzzy base e m) as [-> _].
Qed.

(** ** Exact edits *)

(** The replacements of a spliced text, where they are. *)
Definition placed (s : string) (m : MatchedEdit) (p : string * string) : Prop :=
  occurs_at p.1 s (match_index m) /\ match_length m = String.length p.1 /\ matched_new m = p.2.

Lemma spliced_placed pairs s t before :
  spliced pairs s t ->
  exists ms, chained (String.length before) ms /\ Forall2 (placed (before +:+ s)) ms pairs /\
    apply_replacements (before +:+ s) ms 0 = before +:+ t.
Proof.
  intros H. revert before. induction H as [rest|b old new pairs s t H IH]; intros before; [by exists []|].
  destruct (IH (before +:+ b +:+ old)) as (ms & Hc & Hp & Ha).
  rewrite <- !string_app_assoc in Hp, Ha. rewrite !string_length_app in Hc.
  exists ({| edit_index := 0; match_index := String.length (before +:+ b);
             match_length := String.length old; matched_new := new |} :: ms).
  split_and!.
  - cbn [chained]. unfold match_end. cbn [match_index match_length].
    rewrite string_length_app. split; [lia|]. by rewrite <- Nat.add_assoc.
  - constructor; [|done]. split; [|done]. cbn [fst match_index]. exists (before +:+ b), s.
    by rewrite <- string_app_assoc.
  - cbn [apply_replacements foldr match_index match_length matched_new].
    change (foldr _ (before +:+ b +:+ old +:+ s) ms)
      with (apply_replacements (before +:+ b +:+ old +:+ s) ms 0).
    rewrite Ha, Nat.sub_0_r. unfold replace_range.
    rewrite <- !string_app_assoc, (string_app_assoc before b (old +:+ t)), str_take_app_length.
    rewrite <- string_length_app, (string_app_assoc (before +:+ b) old t), str_drop_app_length.
    by rewrite <- !string_app_assoc.
Qed.

(** What of a match applying it depends on. *)
Definition strip (m : MatchedEdit) : nat * nat * string :=
  (match_index m, match_length m, matched_new m).

Lemma apply_strip content l l' : strip <$> l = strip <$> l' ->
  apply_replacements content l 0 = apply_replacements content l' 0.
Proof.
  revert l'. induction l as [|m l IH]; intros [|m' l'] H; try done.
  rewrite !fmap_cons in H. injection H as Hi Hl Hn H. specialize (IH _ H).
  unfold apply_replacements in *. cbn [foldr]. by rewrite IH, Hi, Hl, Hn.
Qed.

Lemma chained_strip lo l l' : strip <$> l = strip <$> l' -> chained lo l -> chained lo l'.
Proof.
  revert lo l'. induction l as [|m l IH]; intros lo [|m' l'] H Hc; try done.
  rewrite !fmap_cons in H. injection H as Hi Hl Hn H. destruct Hc as [Hm Hc]. split; [lia|].
  apply IH; [done|]. unfold match_end in *. by rewrite <- Hi, <- Hl.
Qed.

Definition before_or_same (x y : nat * nat * string) : Prop := x.1.1 < y.1.1 \/ x = y.

Lemma chained_sorted lo l :
  Forall (fun m => 0 < match_length m) l -> chained lo l ->
  StronglySorted before_or_same (strip <$> l).
Proof.
  intros Hp Hc. apply Sorted_StronglySorted.
  { intros x y z [?| ->] [?| ->]; [left; lia|by left..|by right]. }
  revert lo Hc. induction Hp as [|m l Hm Hp IH]; intros lo Hc; [constructor|].
  destruct Hc as [_ Hc]. rewrite fmap_cons. constructor; [by apply (IH (match_end m))|].
  destruct l as [|m' l]; [constructor|]. rewrite fmap_cons. constructor. left. cbn.
  destruct Hc as [Hc _]. unfold match_end in Hc. lia.
Qed.

Lemma sorted_by_key_sorted l :
  (forall m m', m ∈ l -> m' ∈ l -> match_index m = match_index m' -> strip m = strip m') ->
  Sorted (key_le match_index) l -> StronglySorted before_or_same (strip <$> l).
Proof.
  intros Hu Hs. apply Sorted_StronglySorted.
  { intros x y z [?| ->] [?| ->]; [left; lia|by left..|by right]. }
  induction Hs as [|m l Hs IH Hd]; [constructor|]. rewrite fmap_cons. constructor.
  - apply IH. intros m1 m2 H1 H2. apply Hu; by apply list_elem_of_further.
  - destruct l as [|m' l]; [constructor|]. rewrite fmap_cons. constructor.
    inversion Hd as [|? ? Hle]; subst. unfold key_le in Hle.
    destruct (decide (match_index m = match_index m')) as [He|Hne]; [right|left; cbn; lia].
    apply Hu; [apply list_elem_of_here|apply list_elem_of_further, list_elem_of_here|done].
Qed.

(** The sorted matches of edits with one occurrence each are the placed ones. *)
Lemma sorted_placed nfkc content l ms pairs placed_ms :
  pairs ≡ₚ (fun e => (old_text e, new_text e)) <$> l ->
  Forall (fun p => p.1 <> "") pairs ->
  (forall p n m, p ∈ pairs -> occurs_at p.1 content n -> occurs_at p.1 content m -> n = m) ->
  Forall2 (stands_for nfkc false content) l ms ->
  Forall2 (placed content) placed_ms pairs -> chained 0 placed_ms ->
  strip <$> sort_by_key match_index ms = strip <$> placed_ms.
Proof.
  intros Hp Hne Hu Hms Hpl Hc.
  set (place := fun p : string * string => (nth 0 (match_indices p.1 content) 0, String.length p.1, p.2)).
  assert (strip <$> ms = place <$> ((fun e => (old_text e, new_text e)) <$> l)) as Hm.
  { clear -Hms. induction Hms as [|e m l ms (He & Hl & Hn) _ IH]; [done|]. rewrite !fmap_cons, IH. f_equal.
    unfold strip, place. cbn [fst snd]. cbn [target_of] in *. by rewrite He, Hl, Hn. }
  assert (strip <$> placed_ms = place <$> pairs) as Hpm.
  { clear -Hpl Hu Hne. induction Hpl as [|m p ms ps (Ho & Hl & Hn) _ IH]; [done|].
    inversion Hne; subst. rewrite !fmap_cons, IH; [|done|].
    - f_equal. unfold strip, place. rewrite Hl, Hn, (match_indices_unique _ _ (match_index m)); [done..|].
      intros k Hk. by apply (Hu p); [apply list_elem_of_here| |].
    - intros q n k Hq. apply Hu. by apply list_elem_of_further. }
  assert (Forall (fun m => 0 < match_length m) placed_ms) as Hpos.
  { clear -Hpl Hne. induction Hpl as [|m p ms ps (_ & Hl & _) _ IH]; [constructor|].
    inversion Hne; subst. constructor; [|by apply IH]. rewrite Hl. destruct p.1; [done|cbn; lia]. }
  assert (strip <$> sort_by_key match_index ms ≡ₚ strip <$> placed_ms) as Hperm.
  { by rewrite sort_by_key_perm, Hm, Hpm, Hp. }
  pose proof (chained_sorted 0 _ Hpos Hc) as Hsorted.
  apply (StronglySorted_unique_strong before_or_same); [| |done|done].
  - intros x y Hx Hy [H1|H1] [H2|H2]; [lia|done..].
  - apply sorted_by_key_sorted; [|apply sort_by_key_sorted].
    intros m m' Hin Hin' Hidx.
    assert (forall m, m ∈ sort_by_key match_index ms -> exists x, x ∈ placed_ms /\ strip m = strip x) as Hfind.
    { intros k Hk. assert (strip k ∈ strip <$> placed_ms) as H%list_elem_of_fmap.
      - rewrite <- Hperm. by apply list_elem_of_fmap_2.
      - destruct H as (x & Hx & Hin_x). by exists x. }
    destruct (Hfind m Hin) as (x & Hx & Ex), (Hfind m' Hin') as (x' & Hx' & Ex').
    rewrite Ex, Ex'. apply list_elem_of_lookup in Hx as [i Hi], Hx' as [j Hj].
    assert (match_index x = match_index x') as Hxx by (injection Ex; injection Ex'; congruence).
    assert (forall a b u v, a < b -> placed_ms !! a = Some u -> placed_ms !! b = Some v ->
              match_index u < match_index v) as Hlt.
    { intros a b u v Hab Hau Hbv. pose proof (chained_order 0 _ a b u v Hc Hab Hau Hbv) as Ho.
      pose proof (Forall_lookup_1 _ _ _ _ Hpos Hau) as Hu0. cbn in Hu0. unfold match_end in Ho. lia. }
    destruct (lt_eq_lt_dec i j) as [[Hij| ->]|Hij].
    + specialize (Hlt i j x x' Hij Hi Hj). lia.
    + congruence.
    + specialize (Hlt j i x' x Hij Hj Hi). lia.
Qed.

Definition replaced_pairs (l : list EditReplacement) : list (string * string) :=
  (fun e => (to_lf (old_text e), to_lf (new_text e))) <$> l.

(** Each text to replace is in the content at exactly one place. *)
Definition in_one_place (content : string) (pairs : list (string * string)) : Prop :=
  Forall (fun p => p.1 <> "" /\ exists n, forall m, occurs_at p.1 content m <-> m = n) pairs.

Lemma apply_edits_exact nfkc content edits path base edited
  (normalized := normalized_edit <$> edits) :
  used_fuzzy content normalized = false ->
  apply_edits nfkc content edits path = Ok (base, edited) ->
  base = content /\ edited <> content /\
  (exists pairs, pairs ≡ₚ replaced_pairs edits /\ spliced pairs content edited) /\
  Forall (fun e => to_lf (old_text e) <> "" /\
                   exists n, match_indices (to_lf (old_text e)) content = [n]) edits.
Proof.
  intros Hf. unfold apply_edits. fold normalized.
  destruct (check_not_empty _ _ _ _) as [[]|] eqn:Hne; [|done]. cbn [result_bind]. rewrite Hf.
  destruct (match_edits _ _ _ _ _ _ _) as [ms|] eqn:Hms; [|done]. cbn [result_bind].
  destruct (check_overlap _ _) as [[]|] eqn:Ho; [|done]. cbn [result_bind].
  destruct (String.eqb_spec (apply_replacements content (sort_by_key match_index ms) 0) content) as [|Hd];
    [done|]. intros [= <- <-].
  apply check_not_empty_spec in Hne. apply match_edits_spec in Hms.
  destruct (matched_pairs nfkc false content normalized ms path Hne Hms Ho) as (Hc & Hb & Hp).
  split_and!; [done|done| |].
  - exists (pair_in content 0 <$> sort_by_key match_index ms). split.
    + rewrite Hp. unfold normalized. by rewrite <- list_fmap_compose.
    + destruct (apply_spliced content 0 (sort_by_key match_index ms) 0) as (t & Ht & Hs); try lia.
      * done.
      * eapply Forall_impl; [exact Hb|]. cbn. lia.
      * rewrite Ht. exact Hs.
  - clear -Hne Hms. unfold normalized in Hne, Hms. rewrite Forall_fmap in Hne.
    rewrite Forall2_fmap_l in Hms. induction Hms as [|e m l ms (He & _) _ IH]; [constructor|].
    inversion Hne; subst. constructor; [|by apply IH]. by split; [|exists (match_index m)].
Qed.

Lemma apply_edits_applies nfkc content edits path pairs edited :
  pairs ≡ₚ replaced_pairs edits -> in_one_place content pairs -> spliced pairs content edited ->
  edited <> content ->
  apply_edits nfkc content edits path = Ok (content, edited).
Proof.
  intros Hp Hone Hs Hd. unfold in_one_place in Hone. unfold apply_edits. set (normalized := normalized_edit <$> edits).
  assert (replaced_pairs edits = (fun e => (old_text e, new_text e)) <$> normalized) as Hpairs
    by (unfold normalized, replaced_pairs; by rewrite <- list_fmap_compose).
  assert (forall e, e ∈ normalized -> old_text e <> "" /\
            exists n, forall m, occurs_at (old_text e) content m <-> m = n) as Heach.
  { intros e He. assert ((old_text e, new_text e) ∈ pairs) as Hin.
    { rewrite Hp, Hpairs. by apply list_elem_of_fmap_2 with (f := fun e => (old_text e, new_text e)). }
    rewrite Forall_forall in Hone. apply (Hone _ Hin). }
  rewrite (proj2 (check_not_empty_spec _ _ _ _)) by (apply Forall_forall; apply Heach). cbn [result_bind].
  assert (used_fuzzy content normalized = false) as ->.
  { unfold used_fuzzy. apply not_true_iff_false. intros (e & He & Hn)%existsb_exists.
    apply list_elem_of_In in He. destruct (Heach e He) as (_ & n & Hn').
    apply negb_true_iff, not_true_iff_false in Hn. apply Hn, str_contains_spec. exists n. by apply Hn'. }
  destruct (match_edits_total nfkc path content false (length normalized) normalized 0) as [ms Hms].
  { intros e He. destruct (Heach e He) as (Hne & n & Hn). exists n. cbn [target_of].
    apply match_indices_unique; [done|by apply Hn|]. intros m. by apply Hn. }
  rewrite Hms. cbn [result_bind]. apply match_edits_spec in Hms.
  destruct (spliced_placed pairs content edited "" Hs) as (placed_ms & Hc & Hpl & Ha).
  rewrite string_app_nil_l in Hpl, Ha. cbn [String.length] in Hc.
  assert (strip <$> sort_by_key match_index ms = strip <$> placed_ms) as Hstrip.
  { apply (sorted_placed nfkc content normalized ms pairs); [by rewrite Hp, Hpairs| | |done..].
    - eapply Forall_impl; [exact Hone|]. by intros ? [? _].
    - intros p n m Hin Hn Hm. rewrite Forall_forall in Hone. destruct (Hone p Hin) as (_ & k & Hk).
      apply Hk in Hn, Hm. congruence. }
  assert (check_overlap path (sort_by_key match_index ms) = Ok tt) as ->.
  { apply (check_overlap_chained path _ 0); [by destruct (sort_by_key _ _); [|lia]|].
    by apply (chained_strip 0 placed_ms). }
  cbn [result_bind]. rewrite (apply_strip _ _ _ Hstrip), Ha, string_app_nil_l.
  destruct (String.eqb_spec edited content); [done|]. done.
Qed.

(** ** Fuzzy edits *)

Lemma boundaries_some s offset : boundaries s offset <> [].
Proof. revert offset. induction s as [|a s IH]; intros offset; cbn; [done|]. by destruct (cont a). Qed.

Lemma boundaries_one s : forall offset n,
  boundaries s offset = [n] -> n = offset + String.length s.
Proof.
  induction s as [|a s IH]; intros offset n; cbn; [intros [= <-]; lia|].
  destruct (cont a); [intros H%IH; lia|]. intros [= _ H]. by apply boundaries_some in H.
Qed.

(** A line of the file whose normalised text an edit's match has a byte of. *)
Definition edit_touches nfkc (content : string) (edits : list EditReplacement) (i : nat) : Prop :=
  let base := normalize_fuzzy nfkc content in
  let lines := split_inclusive base in
  exists e n, e ∈ edits /\ let target := normalize_fuzzy nfkc (to_lf (old_text e)) in
    match_indices target base = [n] /\
    n < at_line lines (S i) /\ at_line lines i < n + String.length target.

Definition fuzzy_pairs nfkc (l : list EditReplacement) : list (string * string) :=
  (fun e => (normalize_fuzzy nfkc (to_lf (old_text e)), to_lf (new_text e))) <$> l.

Lemma lines_of_inside base e p :
  lines_of (line_spans 0 (split_inclusive base)) e = Ok p -> match_index e < String.length base.
Proof.
  unfold lines_of. destruct (first_line _ _) as [k|] eqn:Hk; [|done]. intros _.
  apply first_line_spec in Hk as (Hk & _ & Hlt).
  pose proof (at_line_mono (split_inclusive base) (S k) (length (split_inclusive base))) as Hm.
  rewrite at_line_length, split_inclusive_concat in Hm. lia.
Qed.

Lemma group_replacements_lines spans l : forall index gs gs',
  group_replacements spans index l gs = Ok gs' ->
  Forall (fun e => exists p, lines_of spans e = Ok p) l.
Proof.
  induction l as [|e l IH]; intros index gs gs'; cbn [group_replacements]; [done|].
  destruct (lines_of spans e) as [[a b]|] eqn:He; [|done]. cbn [result_bind]. intros H.
  constructor; [by eexists|]. by apply IH in H.
Qed.

(** An empty text is matched only at the end, which no line holds. *)
Lemma fuzzy_targets_not_empty nfkc original base l ms edited :
  Forall2 (stands_for nfkc true base) l ms ->
  apply_preserving original base (sort_by_key match_index ms) = Ok edited ->
  Forall (fun e => target_of nfkc true e <> "") l.
Proof.
  unfold apply_preserving. intros Hms. destruct (negb _); [done|].
  destruct (group_replacements _ _ _ _) as [gs|] eqn:Hg; [|done]. intros _.
  apply group_replacements_lines in Hg. rewrite sort_by_key_perm in Hg.
  induction Hms as [|e m l ms (Hm & _) _ IH]; [constructor|].
  inversion Hg as [|? ? [p Hp] Hg']; subst. constructor; [|by apply IH].
  intros He. rewrite He in Hm. apply boundaries_one in Hm.
  apply lines_of_inside in Hp. lia.
Qed.

Lemma apply_edits_fuzzy nfkc content edits path base edited
  (normalized := normalized_edit <$> edits) :
  used_fuzzy content normalized = true ->
  apply_edits nfkc content edits path = Ok (base, edited) ->
  base = content /\ edited <> content /\
  exists pairs, pairs ≡ₚ fuzzy_pairs nfkc edits /\
    rewritten (edit_touches nfkc content edits) 0 (split_inclusive content)
      (split_inclusive (normalize_fuzzy nfkc content)) pairs edited.
Proof.
  intros Hf. unfold apply_edits. fold normalized.
  destruct (check_not_empty _ _ _ _) as [[]|]; [|done]. cbn [result_bind]. rewrite Hf.
  set (fuzzy_base := normalize_fuzzy nfkc content).
  destruct (match_edits _ _ _ _ _ _ _) as [ms|] eqn:Hms; [|done]. cbn [result_bind].
  destruct (check_overlap _ _) as [[]|] eqn:Ho; [|done]. cbn [result_bind].
  destruct (apply_preserving _ _ _) as [text|] eqn:Ha; [|done]. cbn [result_bind].
  destruct (String.eqb_spec text content) as [|Hd]; [done|]. intros [= <- <-].
  apply match_edits_spec in Hms. pose proof (fuzzy_targets_not_empty _ _ _ _ _ _ Hms Ha) as Hne.
  destruct (matched_pairs nfkc true fuzzy_base normalized ms path Hne Hms Ho) as (Hc & Hb & Hp).
  split_and!; [done|done|]. exists (pair_in fuzzy_base 0 <$> sort_by_key match_index ms). split.
  - rewrite Hp. unfold normalized. by rewrite <- list_fmap_compose.
  - apply (apply_preserving_rewritten content fuzzy_base); [done| | |done].
    + eapply Forall_impl; [exact Hb|]. by intros ? [_ ?].
    + intros m i Hin [Hlo Hhi]. rewrite sort_by_key_perm in Hin.
      apply list_elem_of_lookup in Hin as [k Hk].
      destruct (Forall2_lookup_r _ _ _ _ _ Hms Hk) as (e' & He' & (Hm & Hl & _)).
      unfold normalized in He'. apply list_lookup_fmap_Some in He' as (e & -> & He).
      exists e, (match_index m). split; [by apply list_elem_of_lookup_2 in He|]. cbn zeta.
      cbn [target_of normalized_edit old_text] in *. unfold match_end in Hhi. rewrite Hl in Hhi. done.
Qed.

(** ** The file *)

Lemma str_find_none p s : str_contains p s = false -> str_find p s = None.
Proof.
  induction s as [|a s IH]; cbn [str_contains str_find]; intros [Hp Hs]%orb_false_iff; rewrite Hp; [done|].
  by rewrite IH.
Qed.

Lemma no_crlf s : has_char carriage_return s = false -> str_contains crlf s = false.
Proof.
  intros H. apply not_true_iff_false. intros (n & before & after & -> & _)%str_contains_spec.
  rewrite !has_char_app in H. apply orb_false_iff in H as [_ H]. done.
Qed.

Lemma line_ending_lf text : has_char carriage_return text = false -> line_ending text = nl.
Proof. intros H. unfold line_ending. by rewrite (str_find_none crlf text (no_crlf text H)). Qed.

Lemma line_ending_crlf text :
  has_char carriage_return text = false -> has_char newline text = true ->
  line_ending (to_crlf text) = crlf.
Proof.
  intros Hc Hn. unfold line_ending.
  assert (exists i, str_find crlf (to_crlf text) = Some i /\ str_find nl (to_crlf text) = Some (S i))
    as (i & -> & ->); [|by rewrite (proj2 (Nat.ltb_lt i (S i))) by lia].
  induction text as [|a s IH]; [done|]. cbn [has_char] in *. apply orb_false_iff in Hc as [Ha Hs].
  cbn [to_crlf]. destruct (Ascii.eqb_spec a newline) as [->|Hne]; [exists 0; by destruct (to_crlf s)|].
  destruct (IH Hs Hn) as (i & Hi & Hj).
  exists (S i). cbn [str_find starts_with String.prefix crlf nl].
  destruct (ascii_dec carriage_return a) as [<-|_]; [done|].
  destruct (ascii_dec newline a) as [<-|_]; [done|]. fold crlf nl. by rewrite Hi, Hj.
Qed.

(** How a file encodes its text: a byte order mark or none, CRLF or LF. *)
Definition encode (mark : bool) (windows : bool) (text : string) : string :=
  (if mark then bom else "") +:+ (if windows then to_crlf text else text).
Definition encodable (mark windows : bool) (text : string) : Prop :=
  has_char carriage_return text = false /\ utf8_valid (encode mark windows text) = true /\
  (windows = true -> has_char newline text = true) /\
  (mark = false -> starts_with bom (encode mark windows text) = false).

Lemma split_encoded mark windows text (raw := from_utf8_lossy (encode mark windows text)) :
  encodable mark windows text ->
  to_lf (split_bom raw).2 = text /\
  forall edited, restored (split_bom raw).1 (line_ending (split_bom raw).2) edited = encode mark windows edited.
Proof.
  intros (Hc & Hu & Hw & Hb). unfold raw. rewrite lossy_valid by done.
  set (body := if windows then to_crlf text else text).
  assert (split_bom (encode mark windows text) = (if mark then bom else "", body)) as ->.
  { unfold split_bom, Chars.strip_prefix. destruct mark.
    - unfold encode. fold body. rewrite (proj2 (starts_with_spec _ _)) by by eexists.
      by rewrite str_drop_app_length.
    - rewrite Hb by done. done. }
  cbn [fst snd]. unfold restored, encode, body. destruct windows.
  - rewrite to_lf_to_crlf, line_ending_crlf by auto. split; [done|]. intros edited. by destruct mark.
  - rewrite to_lf_id, line_ending_lf by done. split; [done|]. intros edited. by destruct mark.
Qed.

Section File.
Context {J : JsonText} {D : DiffOf}.
Context (nfkc : string -> string) (home_dir : option string) (url_file_path : string -> option string).
Abbreviation execute := (edit_execute nfkc home_dir url_file_path).

(** What an edit leaves on the disk. *)
Lemma edit_execute_spec d cwd c files r files' :
  execute d cwd c files = (r, files') ->
  (exists error, r = Err error /\ files' = files) \/
  exists a path bytes edited,
    edit_arguments parse c = Ok a /\ resolved_path home_dir url_file_path (edit_path a) cwd = Ok path /\
    files !! path = Some bytes /\
    let '(mark, content) := split_bom (from_utf8_lossy bytes) in
    apply_edits nfkc (to_lf content) (edits a) (edit_path a) = Ok (to_lf content, edited) /\
    match write_fails d path with
    | Some (e, left_) =>
        is_ok r = false /\ files' = partial_alter (fun old => match left_ with Some s => Some s | None => old end) path files
    | None =>
        files' = <[path := restored mark (line_ending content) edited]> files /\
        is_ok r = negb (cancelled_at d 3)
    end.
Proof.
  unfold edit_execute, m_bind at 1, m_lift.
  destruct (edit_arguments parse c) as [a|e] eqn:Ha; [|intros [= <- <-]; left; by eexists].
  unfold m_bind at 1. destruct (edit_validate a) as [[]|e]; [|intros [= <- <-]; left; by eexists].
  unfold m_bind at 1. destruct (resolved_path _ _ _ _) as [path|e] eqn:Hpath; [|intros [= <- <-]; left; by eexists].
  unfold m_bind at 1, ensure_tool_active at 1. destruct (cancelled_at d 0); [intros [= <- <-]; left; by eexists|].
  unfold m_ret at 1, m_bind at 1, map_error at 1, read_file.
  destruct (read_fails d path); [intros [= <- <-]; left; by eexists|].
  destruct (files !! path) as [bytes|] eqn:Hbytes; [|intros [= <- <-]; left; by eexists]. cbn [map_err].
  unfold m_bind at 1, ensure_tool_active at 1. destruct (cancelled_at d 1); [intros [= <- <-]; left; by eexists|].
  unfold m_ret at 1. destruct (split_bom (from_utf8_lossy bytes)) as [mark content] eqn:Hs.
  unfold m_bind at 1.
  destruct (apply_edits _ _ _ _) as [[base edited]|e] eqn:Happ; [|intros [= <- <-]; left; by eexists].
  assert (base = to_lf content) as ->.
  { destruct (used_fuzzy (to_lf content) (normalized_edit <$> edits a)) eqn:Hf.
    - by apply (apply_edits_fuzzy _ _ _ _ _ _ Hf) in Happ as [-> _].
    - by apply (apply_edits_exact _ _ _ _ _ _ Hf) in Happ as [-> _]. }
  unfold m_bind at 1, ensure_tool_active at 1. destruct (cancelled_at d 2); [intros [= <- <-]; left; by eexists|].
  intros H. right. exists a, path, bytes, edited. rewrite Hs. split_and!; [done..|]. revert H.
  unfold m_ret at 1, m_bind at 1, map_error, write_file. destruct (write_fails d path) as [[e left_]|].
  - cbn [map_err]. by intros [= <- <-].
  - cbn [map_err]. unfold m_bind, ensure_tool_active. by destruct (cancelled_at d 3); intros [= <- <-].
Qed.
End File.

(** ** The properties *)

(** C25: an edit replaces what it names and nothing else.  One that finds its
    texts as they are yields the content with each text replaced by its new one
    and every other byte in place, in whatever order the edits were given; and
    when every text occurs in exactly one place, the edits succeed exactly when
    their places are disjoint and something changes. *)
Theorem edit_replaces_only_matches nfkc content edits path :
  (forall base edited,
     used_fuzzy content (normalized_edit <$> edits) = false ->
     apply_edits nfkc content edits path = Ok (base, edited) ->
     base = content /\ edited <> content /\
     exists pairs, pairs ≡ₚ replaced_pairs edits /\ spliced pairs content edited) /\
  (in_one_place content (replaced_pairs edits) -> forall edited,
     apply_edits nfkc content edits path = Ok (content, edited) <->
     edited <> content /\ exists pairs, pairs ≡ₚ replaced_pairs edits /\ spliced pairs content edited).
Proof.
  split.
  - intros base edited Hf H. by apply (apply_edits_exact _ _ _ _ _ _ Hf) in H as (-> & ? & ? & _).
  - intros Hone edited. split.
    + intros H. destruct (used_fuzzy content (normalized_edit <$> edits)) eqn:Hf.
      * exfalso. apply existsb_exists in Hf as (e & He & Hn). apply list_elem_of_In in He.
        apply list_elem_of_fmap in He as (e' & -> & He'). apply negb_true_iff, not_true_iff_false in Hn.
        apply Hn, str_contains_spec. unfold in_one_place in Hone. rewrite Forall_forall in Hone.
        destruct (Hone (to_lf (old_text e'), to_lf (new_text e'))) as (_ & n & Hocc).
        { by apply list_elem_of_fmap_2 with (f := fun e => (to_lf (old_text e), to_lf (new_text e))). }
        exists n. by apply Hocc.
      * by apply (apply_edits_exact _ _ _ _ _ _ Hf) in H as (_ & ? & ? & _).
    + intros (Hd & pairs & Hp & Hs). apply (apply_edits_applies _ _ _ _ pairs); [done| |done..].
      unfold in_one_place in *. by rewrite Hp.
Qed.

(** An edit whose text is only in the file up to white space and
    punctuation rewrites the lines its matches are in: each run of them becomes
    the normalised lines with the replacements spliced in, and every other line
    keeps its bytes. *)
Theorem fuzzy_edit_keeps_lines nfkc content edits path base edited :
  used_fuzzy content (normalized_edit <$> edits) = true ->
  apply_edits nfkc content edits path = Ok (base, edited) ->
  base = content /\ edited <> content /\
  exists pairs, pairs ≡ₚ fuzzy_pairs nfkc edits /\
    rewritten (edit_touches nfkc content edits) 0 (split_inclusive content)
      (split_inclusive (normalize_fuzzy nfkc content)) pairs edited.
Proof. apply apply_edits_fuzzy. Qed.

Section Properties.
Context {J : JsonText} {D : DiffOf}.
Context (nfkc : string -> string) (home_dir : option string) (url_file_path : string -> option string).

(** An edit leaves the file with its byte order mark and its line ending:
    it writes the encoding of the edited text, to that file only, or nothing at
    all, and an error after the write can only be a cancellation. *)
Theorem edit_keeps_encoding d cwd c a path mark windows text files r files' :
  edit_arguments parse c = Ok a ->
  resolved_path home_dir url_file_path (edit_path a) cwd = Ok path ->
  files !! path = Some (encode mark windows text) -> encodable mark windows text ->
  write_fails d path = None ->
  edit_execute nfkc home_dir url_file_path d cwd c files = (r, files') ->
  (exists error, r = Err error /\ files' = files) \/
  (exists edited,
     apply_edits nfkc text (edits a) (edit_path a) = Ok (text, edited) /\
     files' = <[path := encode mark windows edited]> files /\
     is_ok r = negb (cancelled_at d 3)).
Proof.
  intros Ha Hp Hb He Hw Hx.
  apply edit_execute_spec in Hx as [?|(a' & path' & bytes & edited & Ha' & Hp' & Hb' & Hx)]; [by left|right].
  assert (a' = a) as -> by congruence. assert (path' = path) as -> by congruence.
  assert (bytes = encode mark windows text) as -> by congruence.
  destruct (split_encoded mark windows text He) as [Hlf Henc].
  destruct (split_bom _) as [m content]. cbn [fst snd] in *.
  rewrite Hw, Hlf in Hx. destruct Hx as (Happ & -> & Hr).
  exists edited. rewrite Henc. by split_and!.
Qed.
End Properties.

(** ** Concrete edits *)

Definition no_diff : DiffOf :=
  {| grouped_changes := fun _ _ => []; all_changes := fun _ _ => []; unified_patch := fun _ _ _ => "" |}.
Definition quiet_disk : Disk :=
  {| cancelled_at := fun _ => false; read_fails := fun _ => None; create_dir_fails := fun _ => None;
     write_fails := fun _ => None |}.
Definition edit_of (old new : string) : EditReplacement := {| old_text := old; new_text := new |}.
Definition edit_value (e : EditReplacement) : json :=
  JObject (<["oldText" := JString (old_text e)]> {["newText" := JString (new_text e)]}).
Definition edit_call (path : string) (l : list EditReplacement) : ToolCall :=
  {| call_id := MkId "call-1" I; call_name := "edit";
     call_arguments := JObject (<["path" := JString path]> {["edits" := JArray (edit_value <$> l)]});
     invalid_arguments := None |}.

Definition three_lines : string := "one" +:+ nl +:+ "two" +:+ nl +:+ "three" +:+ nl.
Definition two_edits : list EditReplacement := [edit_of "two" "2"; edit_of "one" "1"].
Definition three_edited : string := "1" +:+ nl +:+ "2" +:+ nl +:+ "three" +:+ nl.

Lemma three_spliced : spliced [("one", "1"); ("two", "2")] three_lines three_edited.
Proof.
  apply (spliced_cons "" "one" "1" _ (nl +:+ "two" +:+ nl +:+ "three" +:+ nl)
           (nl +:+ "2" +:+ nl +:+ "three" +:+ nl)).
  apply (spliced_cons nl "two" "2" _ (nl +:+ "three" +:+ nl) (nl +:+ "three" +:+ nl)). constructor.
Qed.

Lemma edit_replaces_only_matches_witness :
  apply_edits id three_lines two_edits "/f" = Ok (three_lines, three_edited) /\
  exists pairs, pairs ≡ₚ replaced_pairs two_edits /\ spliced pairs three_lines three_edited.
Proof.
  split; [vm_compute; reflexivity|].
  destruct (edit_replaces_only_matches id three_lines two_edits "/f") as [Hok _].
  destruct (Hok three_lines three_edited) as (_ & _ & H); [vm_compute; reflexivity..|exact H].
Defined.

Definition blanks : string := "keep  " +:+ nl +:+ "old  " +:+ nl +:+ "keep  " +:+ nl.
Lemma fuzzy_edit_keeps_lines_witness :
  apply_edits id blanks [edit_of ("old" +:+ nl) ("new" +:+ nl)] "/f"
  = Ok (blanks, "keep  " +:+ nl +:+ "new" +:+ nl +:+ "keep  " +:+ nl) /\
  exists pairs, pairs ≡ₚ fuzzy_pairs id [edit_of ("old" +:+ nl) ("new" +:+ nl)] /\
    rewritten (edit_touches id blanks [edit_of ("old" +:+ nl) ("new" +:+ nl)]) 0
      (split_inclusive blanks) (split_inclusive (normalize_fuzzy id blanks)) pairs
      ("keep  " +:+ nl +:+ "new" +:+ nl +:+ "keep  " +:+ nl).
Proof.
  split; [vm_compute; reflexivity|].
  destruct (fuzzy_edit_keeps_lines id blanks [edit_of ("old" +:+ nl) ("new" +:+ nl)] "/f" blanks
    ("keep  " +:+ nl +:+ "new" +:+ nl +:+ "keep  " +:+ nl)) as (_ & _ & H);
    [vm_compute; reflexivity..|exact H].
Defined.

Abbreviation sample_execute := (edit_execute (H := SampleText.sample_text) (H0 := no_diff) id None (fun _ => None)).

Lemma edit_keeps_encoding_witness :
  exists r files', sample_execute quiet_disk "/" (edit_call "f" [edit_of "one" "1"])
                     {["/f" := encode true true three_lines]} = (r, files') /\
  ((exists error, r = Err error /\ files' = {["/f" := encode true true three_lines]}) \/
   (exists edited,
     apply_edits id three_lines [edit_of "one" "1"] "f" = Ok (three_lines, edited) /\
     files' = <["/f" := encode true true edited]> {["/f" := encode true true three_lines]} /\
     is_ok r = true)).
Proof.
  destruct (sample_execute quiet_disk "/" (edit_call "f" [edit_of "one" "1"])
              {["/f" := encode true true three_lines]}) as [r files'] eqn:H.
  exists r, files'. split; [reflexivity|].
  apply (edit_keeps_encoding (J := SampleText.sample_text) (D := no_diff) id None (fun _ => None)
    quiet_disk "/" (edit_call "f" [edit_of "one" "1"])
    {| edit_path := "f"; edits := [edit_of "one" "1"] |} "/f" true true three_lines);
    [vm_compute; reflexivity..| | |exact H]; [|reflexivity].
  split; [vm_compute; reflexivity|]. split; [vm_compute; reflexivity|].
  split; [intros _; vm_compute; reflexivity|intros [=]].
Defined.

(** Two ways in which an edit changes what it was not asked to: a file with
    mixed line endings has all of them converted, and bytes that are not UTF-8
    anywhere in the file become replacement characters. *)
Theorem edit_rewrites_elsewhere :
  sample_execute quiet_disk "/" (edit_call "f" [edit_of "c" "d"])
    {["/f" := "a" +:+ crlf +:+ "b" +:+ nl +:+ "c" +:+ nl]}
  = (Ok (text_result (MkId "call-1" I) "Successfully replaced 1 block(s) in f." false
           (Some (EditDetails "/f" "" "" None))),
     {["/f" := "a" +:+ crlf +:+ "b" +:+ crlf +:+ "d" +:+ crlf]}) /\
  (sample_execute quiet_disk "/" (edit_call "f" [edit_of "c" "d"])
    {["/f" := String "255" (nl +:+ "c" +:+ nl)]}).2
  = {["/f" := replacement +:+ nl +:+ "d" +:+ nl]}.
Proof. split; vm_compute; reflexivity. Qed.
