(* ===== verification/ToolSelectionTheorems.v ===== *)
(** What a session's tool selection promises: preferences never conflict, are
    honoured as given, survive a restart, and loads keep within their budget. *)

From S2P Require Import Prelude Lines Chars Text Scalar Json Message StoreModel StoreState.
From S2P Require Import StoreSession StoreInv StoreLaws ToolContract KernelErrors Plan Replay.
From S2P Require Import Transcript Aligned ToolSearch ToolSelection Samples RunSamples.
From stdpp Require Import sorting.
Open Scope string_scope.
Open Scope rust_scope.

Section Selections.
Context {U : UnicodeTables} {F : Floats}.
Context (object_entries : gmap string json -> list (string * json)).
Abbreviation Snapshot := SessionToolSnapshot.

(** ** Preferences *)

Lemma prefer_disjoint selected s name : disjoint_selection s -> disjoint_selection (prefer selected s name).
Proof. unfold disjoint_selection, prefer. case_bool_decide; cbn; set_solver. Qed.

Lemma prefer_all selected names : forall s,
  let s' := foldl (prefer selected) s names in
  selection_version s' = selection_version s /\
  (disjoint_selection s -> disjoint_selection s') /\
  forall n,
    (n ∈ loaded s' <-> if decide (n ∈ names) then n ∈ selected else n ∈ loaded s) /\
    (n ∈ disabled s' <-> if decide (n ∈ names) then n ∉ selected else n ∈ disabled s).
Proof.
  induction names as [|x names IH]; intros s; cbn zeta; cbn [foldl].
  - split_and!; [done|done|]. intros n. by rewrite !decide_False by apply not_elem_of_nil.
  - destruct (IH (prefer selected s x)) as (Hv & Hd & Hn). split_and!.
    + rewrite Hv. unfold prefer. by case_bool_decide.
    + intros H. by apply Hd, prefer_disjoint.
    + intros n. destruct (Hn n) as [Hl Hdis]. rewrite Hl, Hdis. clear IH Hv Hd Hn Hl Hdis.
      destruct (decide (n ∈ names)) as [Hin|Hout].
      * by rewrite !decide_True by by apply list_elem_of_further.
      * unfold prefer. destruct (decide (n = x)) as [->|Hne].
        -- rewrite !decide_True by apply list_elem_of_here. case_bool_decide; cbn; set_solver.
        -- rewrite !decide_False by (rewrite elem_of_cons; tauto). case_bool_decide; cbn; set_solver.
Qed.

Lemma available_names_elem (c : Snapshot) n :
  n ∈ available_names c <-> exists t, available_registry c !! n = Some t /\ tool_exposure t <> Hidden.
Proof.
  unfold available_names. rewrite list_elem_of_filter, registry_names_elem. unfold selectable. split.
  - intros [Hs [t Ht]]. rewrite Ht in Hs. apply bool_decide_eq_true in Hs. by exists t.
  - intros (t & -> & Hh). split; [by apply bool_decide_eq_true|by eexists].
Qed.

Lemma validate_names_spec available names :
  validate_names available names = Ok tt <-> Forall (fun n => selectable available n = true) names.
Proof.
  induction names as [|n names IH]; cbn [validate_names]; [done|]. rewrite Forall_cons.
  destruct (selectable available n); [by rewrite IH; split; [|intros [_ ?]]|]. by split; [|intros [? _]].
Qed.

Lemma refuse_hidden_spec current names :
  refuse_hidden current names = Ok tt <->
  forall n t, n ∈ names -> current !! n = Some t -> tool_exposure t <> Hidden.
Proof.
  induction names as [|n names IH]; cbn [refuse_hidden].
  { split; [by intros _ n t ?%elem_of_nil|done]. }
  destruct (current !! n) as [t|] eqn:Hn.
  - case_bool_decide as Hh.
    + split; [done|]. intros H. by destruct (H n t ltac:(apply list_elem_of_here) Hn).
    + rewrite IH. split; intros H m u Hm Hu.
      * apply elem_of_cons in Hm as [->|Hm]; [congruence|by apply (H m u)].
      * apply (H m u); [by apply list_elem_of_further|done].
  - rewrite IH. split; intros H m u Hm Hu.
    + apply elem_of_cons in Hm as [->|Hm]; [congruence|by apply (H m u)].
    + apply (H m u); [by apply list_elem_of_further|done].
Qed.

Lemma registry_sorted_elem (s : gset string) n : n ∈ registry_sorted s <-> n ∈ s.
Proof. unfold registry_sorted. rewrite merge_sort_Permutation. apply elem_of_elements. Qed.

(** ** Migration *)

Lemma add_alias_values catalog names : forall m,
  (forall k v, m !! k = Some (Some v) -> is_Some (catalog !! v)) ->
  forall k v, foldl (add_alias catalog) m names !! k = Some (Some v) -> is_Some (catalog !! v).
Proof.
  induction names as [|n names IH]; intros m Hm; cbn [foldl]; [done|]. apply IH.
  intros k v. unfold add_alias. destruct (catalog !! n) as [t|] eqn:Hn; [|by apply Hm]. cbn [mbind option_bind].
  destruct (tool_mcp_ref t) as [r|]; [|by apply Hm].
  destruct (decide (k = old_name r)) as [->|Hne].
  - rewrite lookup_insert_eq. destruct (m !! old_name r); [done|]. intros [= <-]. by eexists.
  - rewrite lookup_insert_ne by done. apply Hm.
Qed.

Lemma migrate_name_idem catalog n :
  migrate_name catalog (migrate_name catalog n) = migrate_name catalog n.
Proof.
  assert (forall v, is_Some (catalog !! v) -> migrate_name catalog v = v) as Hfix.
  { intros v [t Ht]. unfold migrate_name. by rewrite Ht. }
  destruct (catalog !! n) as [t|] eqn:Hn.
  - rewrite (Hfix n) by by eexists. apply Hfix. by eexists.
  - assert (migrate_name catalog n = default n (mjoin (aliases catalog !! n))) as Hm
      by (unfold migrate_name; by rewrite Hn).
    destruct (aliases catalog !! n) as [[v|]|] eqn:Ha; cbn in Hm.
    + rewrite Hm. apply Hfix. apply (add_alias_values catalog (registry_names catalog) ∅) with n; [|done].
      intros k w. by rewrite lookup_empty.
    + by rewrite !Hm.
    + by rewrite !Hm.
Qed.

Lemma migrate_selection_idem (c : Snapshot) s :
  migrate_selection c (migrate_selection c s) = migrate_selection c s.
Proof.
  unfold migrate_selection. cbn [selection_version loaded disabled].
  set (f := migrate_name (available_registry c)).
  assert (forall X : gset string, set_map (D := gset string) f (set_map f X : gset string) = set_map f X) as Hff.
  { intros X. apply set_eq. intros n. rewrite !elem_of_map. split.
    - intros (m & -> & (k & -> & Hk)%elem_of_map). exists k. split; [apply migrate_name_idem|done].
    - intros (k & -> & Hk). exists (f k). split; [symmetry; apply migrate_name_idem|].
      apply elem_of_map. by exists k. }
  f_equal; [|apply Hff]. rewrite Hff. apply set_eq. intros n. rewrite !elem_of_difference, !elem_of_map. split.
  - intros [(m & -> & [(k & -> & Hk)%elem_of_map Hn]%elem_of_difference) Hout].
    assert (f (f k) = f k) as Hfk by apply migrate_name_idem. rewrite Hfk in *.
    split; [by exists k|]. intros (j & Hj & Hin). apply Hout. by exists j.
  - intros [(k & -> & Hk) Hout]. split; [|done]. exists (f k).
    split; [symmetry; apply migrate_name_idem|]. apply elem_of_difference. split; [apply elem_of_map; by exists k|].
    by rewrite elem_of_map.
Qed.

Lemma migrate_disjoint (c : Snapshot) s : disjoint_selection (migrate_selection c s).
Proof. unfold disjoint_selection, migrate_selection. cbn. set_solver. Qed.

(** ** Loading *)

Context {J : JsonText}.

Definition definitions_size (available : ToolRegistry) (names : list string) : nat :=
  sum_list_with (fun n => from_option definition_bytes 0 (available !! n)) names.

Definition loadable (available : ToolRegistry) (s : ToolSelection) (n : string) : Prop :=
  n ∉ disabled s /\ n ∉ loaded s /\
  exists t, available !! n = Some t /\ tool_exposure t = Deferred.

Record loads (available : ToolRegistry) (s s' : ToolSelection) (seen : gset string) (used : nat)
  (names more : list string) : Prop := {
  loads_more : loaded s' = loaded s ∪ list_to_set more;
  loads_rest : disabled s' = disabled s /\ selection_version s' = selection_version s;
  loads_nodup : NoDup more;
  loads_ok : forall n, n ∈ more -> loadable available s n /\ n ∈ names /\ n ∉ seen;
  loads_size : used <= LOAD_BUDGET -> used + definitions_size available more <= LOAD_BUDGET
}.

Lemma load_loop_spec available names : forall seen used s r,
  exists more skips,
    let '(s', r') := load_loop available names seen used s r in
    loads available s s' seen used names more /\
    report_loaded r' = (report_loaded r ++ more)%list /\
    report_skipped r' = (report_skipped r ++ skips)%list /\
    forall n why, (n, why) ∈ skips -> (why = HiddenTool /\ n = "<hidden>") \/ why <> HiddenTool.
Proof.
  assert (forall s seen used names, loads available s s seen used names []) as Hnone.
  { intros. split; [set_solver|done|constructor|by intros n ?%elem_of_nil|unfold definitions_size; cbn [sum_list_with]; lia]. }
  assert (forall s s' seen used x names more,
    loads available s s' (seen ∪ {[x]}) used names more ->
    loads available s s' seen used (x :: names) more) as Hweak.
  { intros s s' seen used x ns more [H1 H2 H3 H4 H5]. split; [done..| |done].
    intros n (? & ? & ?)%H4. split_and!; [done|by apply list_elem_of_further|set_solver]. }
  induction names as [|x names IH]; intros seen used s r; cbn [load_loop].
  { exists [], []. rewrite !app_nil_r. split_and!; [apply Hnone|done|done|]. by intros n why ?%elem_of_nil. }
  case_bool_decide as Hseen.
  { destruct (IH seen used s r) as (more & skips & Hl). exists more, skips.
    destruct (load_loop _ _ _ _ _ _) as [s' r']. destruct Hl as (Hl & ? & ? & ?). split_and!; [|done..].
    apply Hweak. by replace (seen ∪ {[x]}) with seen by set_solver. }
  assert (forall shown why, (why = HiddenTool -> shown = "<hidden>") ->
    exists more skips, let '(s', r') := load_loop available names (seen ∪ {[x]}) used s (skipped shown why r) in
    loads available s s' seen used (x :: names) more /\
    report_loaded r' = (report_loaded r ++ more)%list /\
    report_skipped r' = (report_skipped r ++ skips)%list /\
    forall n why, (n, why) ∈ skips -> (why = HiddenTool /\ n = "<hidden>") \/ why <> HiddenTool) as Hskip.
  { intros shown why Hwhy. destruct (IH (seen ∪ {[x]}) used s (skipped shown why r)) as (more & skips & Hl).
    exists more, ((shown, why) :: skips). destruct (load_loop _ _ _ _ _ _) as [s' r'].
    destruct Hl as (Hl & Hm & Hs & Hh). split_and!; [by apply Hweak|done| |].
    - rewrite Hs. cbn. by rewrite <- app_assoc.
    - intros n w [[= -> ->]|Hin]%elem_of_cons; [|by apply Hh].
      destruct why; try (by right). left. by split; [|apply Hwhy]. }
  destruct (skip_reason available s x) as [why|] eqn:Hwhy.
  { apply Hskip. by intros ->. }
  case_bool_decide as Hloaded.
  { destruct (IH (seen ∪ {[x]}) used s {| report_loaded := report_loaded r;
      report_already := report_already r ++ [x]; report_skipped := report_skipped r |}) as (more & skips & Hl).
    exists more, skips. destruct (load_loop _ _ _ _ _ _) as [s' r'].
    destruct Hl as (Hl & ? & ? & ?). split_and!; [by apply Hweak|done..]. }
  set (size := from_option definition_bytes 0 (available !! x)).
  destruct (Nat.ltb_spec LOAD_BUDGET size) as [|Hsize]; [by apply Hskip|].
  destruct (Nat.ltb_spec LOAD_BUDGET (used + size)) as [|Hfits]; [by apply Hskip|].
  destruct (IH (seen ∪ {[x]}) (used + size) (load_name x s) {| report_loaded := report_loaded r ++ [x];
      report_already := report_already r; report_skipped := report_skipped r |}) as (more & skips & Hl).
  exists (x :: more), skips. destruct (load_loop _ _ _ _ _ _) as [s' r'].
  destruct Hl as ([H1 [H2 H2'] H3 H4 H5] & Hm & Hs & Hh). split_and!; [|rewrite Hm; cbn [report_loaded]; by rewrite <- app_assoc|done|done].
  assert (loadable available s x) as Hx.
  { unfold skip_reason in Hwhy. destruct (available !! x) as [t|] eqn:Ht; [|done].
    repeat case_bool_decide; try done. split_and!; [done|done|]. exists t. split; [done|]. destruct (decide (tool_exposure t = Deferred)); tauto. }
  split.
  - rewrite H1. cbn. set_solver.
  - done.
  - constructor; [|done]. intros Hin. apply H4 in Hin as (_ & _ & Hout). set_solver.
  - intros n [->|Hin]%elem_of_cons; [split_and!; [done|apply list_elem_of_here|done]|].
    apply H4 in Hin as ((Hd & Hl & Ht) & Hin & Hout). cbn [load_name disabled loaded] in *.
    split_and!; [split_and!; [done|set_solver|done]|by apply list_elem_of_further|set_solver].
  - intros _. unfold definitions_size in *. cbn [sum_list_with]. specialize (H5 Hfits).
    change (from_option definition_bytes 0 (available !! x)) with size. lia.
Qed.
End Selections.

(** ** Updates *)

Section Updates.
Context {U : UnicodeTables} {F : Floats} {J : JsonText}.
Context {R : RigTypes} {CC : ContentCodec R}.
Context {S : Type} `{SessionStoreLaws S}.
Abbreviation World := (ToolWorld (R := R) (S := S)).
Abbreviation Snapshot := SessionToolSnapshot.

(** The updates of the selection, each with the identifier its entry gets. *)
Inductive selection_op : Type :=
| Adopt (id : string) (s : ToolSelection)
| Replace (id : string) (observed : Snapshot) (names : list string)
| Load (id : string) (names : list string).

Definition run_selection_op (o : selection_op) (w : World) : World :=
  match o with
  | Adopt id s => (adopt id s w).2
  | Replace id observed names => (replace id observed names w).2
  | Load id names => (load id names w).2
  end.
Definition run_selection_ops (l : list selection_op) (w : World) : World :=
  foldl (fun w o => run_selection_op o w) w l.

(** An adopted selection is another session's. *)
Definition selection_op_ok (o : selection_op) : Prop :=
  match o with
  | Adopt _ s => selection_version s = 1%Z /\ disjoint_selection s
  | _ => True
  end.

Lemma selection_round_trip s : (0 <= selection_version s <= 255)%Z ->
  from_value (to_value s) = Ok s.
Proof.
  intros Hv. unfold to_value, to_value_selection, from_value, from_value_selection. cbn [as_object result_bind].
  rewrite lookup_insert_eq. unfold from_value_u8, json_as_u64, json_u64.
  rewrite (proj2 (Z.leb_le _ _)) by lia. cbn [result_bind].
  unfold field. rewrite lookup_insert_ne, lookup_insert_eq by done.
  change (from_value (to_value (registry_sorted (loaded s))))
    with (from_value (T := list string) (to_value (registry_sorted (loaded s)))).
  rewrite from_to_value. cbn [result_bind].
  rewrite !lookup_insert_ne, lookup_singleton_eq by done.
  change (from_value (to_value (registry_sorted (disabled s))))
    with (from_value (T := list string) (to_value (registry_sorted (disabled s)))).
  rewrite from_to_value. cbn [result_bind]. destruct s as [v l d]. cbn [selection_version loaded disabled].
  assert (forall X : gset string, list_to_set (registry_sorted X) = X) as Hset.
  { intros X. apply set_eq. intros n. by rewrite elem_of_list_to_set, registry_sorted_elem. }
  by rewrite !Hset.
Qed.

Lemma restore_entries_app (c : Snapshot) l x : forall s s1,
  restore_entries c l s = Ok s1 -> restore_entries c (l ++ [x]) s = restore_entry c s1 x.
Proof.
  induction l as [|e l IH]; intros s s1; cbn [restore_entries app].
  - intros [= <-]. by destruct (restore_entry c s x).
  - destruct (restore_entry c s e); [|done]. cbn [result_bind]. apply IH.
Qed.

(** The catalog decides what is restored. *)
Lemma migrate_catalog (c c' : Snapshot) s :
  available_registry c = available_registry c' -> migrate_selection c s = migrate_selection c' s.
Proof. intros Hc. unfold migrate_selection. by rewrite Hc. Qed.
Lemma available_names_catalog (c c' : Snapshot) :
  available_registry c = available_registry c' -> available_names c = available_names c'.
Proof. intros Hc. unfold available_names. by rewrite Hc. Qed.
Lemma restore_catalog (c c' : Snapshot) l :
  available_registry c = available_registry c' -> restore l c = restore l c'.
Proof.
  intros Hc. unfold restore.
  assert (forall s, restore_entries c l s = restore_entries c' l s) as ->.
  { induction l as [|e l IH]; intros s; cbn [restore_entries]; [done|].
    assert (restore_entry c s e = restore_entry c' s e) as ->.
    { unfold restore_entry. destruct (negb _); [done|]. destruct (entry_payload e !! "selection"); [done|].
      destruct (ok_or _ _); [|done]. cbn [result_bind]. destruct (map_err _ _); [|done]. cbn [result_bind].
      by rewrite (migrate_catalog c c'), (available_names_catalog c c'). }
    destruct (restore_entry c' s e); [|done]. cbn [result_bind]. apply IH. }
  destruct (restore_entries c' l selection_default); [|done]. cbn [result_bind]. by rewrite (migrate_catalog c c').
Qed.

Abbreviation branch_of w := (lane_branch (transcript_store (transcript w)) (transcript_lane (transcript w))).

(** What a write of the current selection does. *)
Lemma persist_spec id (w : World) b r w' :
  store_wf (transcript_store (transcript w)) -> branch_of w = Ok b ->
  persist id w = (r, w') ->
  tools w' = tools w /\ store_wf (transcript_store (transcript w')) /\ match r with
  | Ok _ => exists x, branch_of w' = Ok (b ++ [x])%list /\ entry_kind x = KindActiveToolsChange /\ JObject (entry_payload x) = selection_payload (tools w)
  | Err _ => write_failed (transcript w') = true \/ branch_of w' = Ok b
  end.
Proof.
  intros Hwf Hb. unfold persist. destruct (id_try_from "entry" id) as [i|e]; [|intros [= <- <-]; auto].
  set (e := {| new_entry_id := i; new_entry_kind := KindActiveToolsChange;
               new_entry_payload := selection_payload (tools w) |}).
  destruct (commit_setting e (transcript w)) as [r0 t] eqn:Hc. intros [= <- <-].
  split; [done|]. cbn [transcript tools]. revert Hc. unfold commit_setting, m_bind, writable.
  destruct (sealed (transcript w)); [intros [= <- <-]; auto|].
  destruct (write_failed (transcript w)) eqn:Hf; [intros [= <- <-]; auto|].
  unfold m_get, store_try.
  destruct (append_entry (transcript_lane (transcript w)) e (transcript_store (transcript w))) as [[x|err] s] eqn:Ha.
  - assert (disjoint_keys entry_fields
      (<["activeTools" := to_value (active_names (tools w))]> {["selection" := to_value (selection (tools w))]}))
      as Hd by (repeat constructor).
    destruct (append_entry_grows _ _ e _ x s b Hwf eq_refl Hd Hb Ha) as (_ & Hk & Hp & _ & Hbr & _).
    pose proof (append_entry_wf (transcript_store (transcript w)) (transcript_lane (transcript w)) e Hwf) as Hw.
    rewrite Ha in Hw. cbn [snd] in Hw.
    pose proof (sync_wf s Hw) as Hw'. pose proof (sync_tree s) as Ht.
    destruct (sync s) as [[u|err] s']; cbn [snd] in *; intros [= <- <-]; cbn.
    + split; [done|]. exists x. rewrite <- Ht. split_and!; [done|done|by rewrite Hp].
    + split; [done|]. by left.
  - pose proof (append_entry_wf (transcript_store (transcript w)) (transcript_lane (transcript w)) e Hwf) as Hw.
    rewrite Ha in Hw. cbn [snd] in Hw. intros [= <- <-]. cbn. split; [done|]. by left.
Qed.

(** The branch restores to what is live, up to the catalog's renamings. *)
Record in_sync (w : World) : Prop := {
  sync_store : store_wf (transcript_store (transcript w));
  sync_version : selection_version (selection (tools w)) = 1%Z;
  sync_disjoint : disjoint_selection (selection (tools w));
  sync_branch : write_failed (transcript w) = true \/
    exists b, branch_of w = Ok b /\ restore b (tools w) = Ok (migrate_selection (tools w) (selection (tools w)))
}.

Lemma restore_written (c : Snapshot) b s0 x :
  restore b c = Ok s0 -> entry_kind x = KindActiveToolsChange ->
  JObject (entry_payload x) = selection_payload c ->
  selection_version (selection c) = 1%Z -> disjoint_selection (selection c) ->
  restore (b ++ [x]) c = Ok (migrate_selection c (selection c)).
Proof.
  intros Hr Hk Hp Hv Hd. unfold restore in *.
  destruct (restore_entries c b selection_default) as [s1|] eqn:Hs; [|done].
  rewrite (restore_entries_app c b x _ s1 Hs). unfold restore_entry. rewrite Hk, bool_decide_true by done.
  cbn [negb]. injection Hp as ->.
  rewrite lookup_insert_ne, lookup_singleton_eq by done.
  rewrite selection_round_trip by lia. cbn [map_err result_bind].
  rewrite Hv. cbn [Z.eqb Pos.eqb negb orb]. rewrite bool_decide_true by done. done.
Qed.

(** An update that sets a selection and may write it. *)
Lemma update_in_sync (w : World) s' {A} (f : M World KernelError A) :
  in_sync w ->
  (forall r w', f w = (r, w') ->
     (is_ok r = false /\ transcript w' = transcript w) \/
     (is_ok r = true /\ w' = {| tools := with_selection s' (tools w); transcript := transcript w |} /\ s' = selection (tools w)) \/
     (selection_version s' = 1%Z /\ disjoint_selection s' /\ exists id r0, is_ok r = is_ok r0 /\ persist id {| tools := with_selection s' (tools w); transcript := transcript w |} = (r0, w'))) ->
  in_sync (update f w).2.
Proof.
  intros [Hwf Hv Hd Hb] Hf. unfold update. destruct (f w) as [r w'] eqn:Hfw.
  destruct (Hf r w' eq_refl) as [[Hr Ht]|[(Hr & -> & ->)|(Hv' & Hd' & id & r0 & Hr & Hp)]].
  - destruct r; [done|]. cbn [snd]. by split; cbn [tools transcript]; rewrite ?Ht.
  - destruct r; [|done]. cbn [snd tools transcript]. split; [done..|].
    destruct Hb as [Hb|(b & Hb & Hres)]; [by left|right]. exists b. split; [done|].
    rewrite (restore_catalog _ (tools w)), Hres by done. done.
  - destruct Hb as [Hb|(b & Hb & Hres)].
    { assert (transcript w' = transcript w /\ is_ok r0 = false) as [Ht Hr0].
      { revert Hp. unfold persist. destruct (id_try_from _ _); [|by intros [= <- <-]].
        unfold commit_setting, m_bind, writable. cbn [transcript].
        destruct (sealed (transcript w)); [by intros [= <- <-]|]. rewrite Hb. by intros [= <- <-]. }
      destruct r; [by rewrite Hr0 in Hr|]. cbn [snd]. split; cbn [tools transcript]; rewrite ?Ht; auto. }
    destruct (persist_spec id {| tools := with_selection s' (tools w); transcript := transcript w |} b r0 w' Hwf Hb Hp)
      as (Ht & Hw & Hout). cbn [tools] in Ht.
    destruct r as [a|err], r0 as [u|err0]; try done; cbn [snd].
    + destruct Hout as (x & Hbr & Hk & Hpay). split; cbn [tools transcript]; rewrite ?Ht; [done..|].
      right. exists (b ++ [x])%list. split; [done|].
      rewrite (restore_catalog _ (with_selection s' (tools w))) by done.
      rewrite (restore_written _ b (migrate_selection (tools w) (selection (tools w))) x); try done.
      by rewrite (restore_catalog _ (tools w)).
    + split; cbn [tools transcript]; [done..|]. destruct Hout as [?|Hbr]; [by left|right]. by exists b.
Qed.

Lemma adopt_in_sync id s (w : World) : selection_op_ok (Adopt id s) -> in_sync w -> in_sync (adopt id s w).2.
Proof.
  intros [Hv Hd] Hw. apply (update_in_sync w s); [done|]. intros r w' Hf. right. right.
  split_and!; [done..|]. exists id, r. by split.
Qed.

Lemma replace_in_sync id observed names (w : World) : in_sync w -> in_sync (replace id observed names w).2.
Proof.
  intros Hw. pose proof (sync_version _ Hw) as Hv. pose proof (sync_disjoint _ Hw) as Hd.
  destruct (replace_selection observed names (tools w)) as [next|e] eqn:Hr.
  - assert (next = with_selection (selection next) (tools w) /\ selection_version (selection next) = 1%Z
      /\ disjoint_selection (selection next)) as (Hn & Hv' & Hd').
    { revert Hr. unfold replace_selection. destruct (validate_active _ _); [|done]. cbn [result_bind].
      destruct (refuse_hidden _ _); [|done]. cbn [result_bind]. intros [= <-]. cbn [with_selection selection].
      destruct (prefer_all (list_to_set names) (available_names observed) (selection (tools w))) as (H1 & H2 & _).
      split_and!; [done|by rewrite H1|by apply H2]. }
    apply (update_in_sync w (selection next)); [done|]. intros r w' Hf. right.
    unfold m_bind at 1, m_get, m_bind at 1, m_lift in Hf. rewrite Hr in Hf. cbn [map_err] in Hf.
    unfold m_bind at 1, set_tools in Hf. case_bool_decide as Heq.
    + left. injection Hf as <- <-. rewrite Hn at 1. by split_and!.
    + right. split_and!; [done..|]. exists id, r. rewrite <- Hn. by split.
  - apply (update_in_sync w (selection (tools w))); [done|]. intros r w' Hf. left.
    unfold m_bind at 1, m_get, m_bind at 1, m_lift in Hf. rewrite Hr in Hf. by injection Hf as <- <-.
Qed.

Lemma load_in_sync id names (w : World) : in_sync w -> in_sync (load id names w).2.
Proof.
  intros Hw. pose proof (sync_version _ Hw) as Hv. pose proof (sync_disjoint _ Hw) as Hd.
  destruct (load_loop_spec (available_registry (tools w)) names ∅ 0 (selection (tools w)) empty_report)
    as (more & skips & Hl).
  destruct (load_loop _ _ _ _ _ _) as [s' report] eqn:Hloop. destruct Hl as ([H1 [H2 H2'] _ H4 _] & Hm & _).
  cbn [empty_report report_loaded app] in Hm.
  apply (update_in_sync w s'); [done|]. intros r w' Hf. right. unfold m_bind at 1, m_get in Hf. rewrite Hloop in Hf.
  unfold m_bind at 1, set_tools in Hf. rewrite Hm in Hf. destruct more as [|x more].
  - left. injection Hf as <- <-. split_and!; [done..|]. destruct s' as [v l d], (selection (tools w)) as [v0 l0 d0].
    cbn in *. subst. f_equal. set_solver.
  - right. split_and!; [by rewrite H2'| |].
    + unfold disjoint_selection in *. rewrite H1, H2. intros n [Hn|Hn%elem_of_list_to_set]%elem_of_union Hdis; [by apply (Hd n)|].
      apply H4 in Hn as ((? & _) & _). done.
    + unfold m_bind in Hf. exists id.
      destruct (persist id _) as [[u|e] w1]; injection Hf as <- <-; [exists (Ok u)|exists (Err e)]; by split.
Qed.

(** Updates leave the catalog alone. *)
Lemma run_selection_ops_in_sync ops (w : World) :
  Forall selection_op_ok ops -> in_sync w -> in_sync (run_selection_ops ops w).
Proof.
  intros Hops. revert w. induction Hops as [|o ops Ho _ IH]; intros w Hw; [done|]. apply IH.
  destruct o; [by apply adopt_in_sync|by apply replace_in_sync|by apply load_in_sync].
Qed.
End Updates.

Section SelectionTheorems.
Context {U : UnicodeTables} {F : Floats} {J : JsonText}.
Context {R : RigTypes} {CC : ContentCodec R}.
Context {S : Type} `{SessionStoreLaws S}.
Abbreviation World := (ToolWorld (R := R) (S := S)).
Abbreviation Snapshot := SessionToolSnapshot.

Lemma restore_entries_version (c : Snapshot) l : forall s s',
  restore_entries c l s = Ok s' -> selection_version s = 1%Z -> selection_version s' = 1%Z.
Proof.
  induction l as [|e l IH]; intros s s'; cbn [restore_entries]; [by intros [= <-]|].
  destruct (restore_entry c s e) as [s1|] eqn:He; [|done]. cbn [result_bind]. intros Hs Hv. apply (IH s1); [done|].
  revert He. unfold restore_entry. destruct (negb _); [by intros [= <-]|].
  destruct (entry_payload e !! "selection") as [v|].
  - destruct (map_err _ _) as [s2|]; [|done]. cbn [result_bind].
    destruct (Z.eqb_spec (selection_version s2) 1); cbn [negb orb]; [|done].
    destruct (negb _); [done|]. by intros [= <-].
  - destruct (ok_or _ _); [|done]. cbn [result_bind]. destruct (map_err _ _); [|done]. cbn [result_bind].
    by intros [= <-].
Qed.

Lemma restored_in_sync (w : World) b :
  store_wf (transcript_store (transcript w)) ->
  lane_branch (transcript_store (transcript w)) (transcript_lane (transcript w)) = Ok b ->
  restore b (tools w) = Ok (selection (tools w)) -> in_sync w.
Proof.
  intros Hwf Hb Hr. pose proof Hr as Hr'. unfold restore in Hr'.
  destruct (restore_entries (tools w) b selection_default) as [s|] eqn:Hs; [|done]. cbn [result_bind] in Hr'.
  injection Hr' as Hsel. split; [done| | |].
  - rewrite <- Hsel. cbn. by apply (restore_entries_version _ _ _ _ Hs).
  - rewrite <- Hsel. apply migrate_disjoint.
  - right. exists b. split; [done|]. rewrite Hr. f_equal. rewrite <- Hsel. symmetry. apply migrate_selection_idem.
Qed.

(** C36: however a restored session's selection is changed by adopting, replacing and
    loading, at every point what its branch restores to is the selection it
    lives with, under the catalog's current names, unless the transcript has
    refused further writes; and no tool is ever both loaded and disabled. *)
Theorem selection_survives_restart (w : World) b ops :
  store_wf (transcript_store (transcript w)) ->
  lane_branch (transcript_store (transcript w)) (transcript_lane (transcript w)) = Ok b ->
  restore b (tools w) = Ok (selection (tools w)) ->
  Forall selection_op_ok ops ->
  let w' := run_selection_ops ops w in
  disjoint_selection (selection (tools w')) /\
  (write_failed (transcript w') = true \/
   exists b', lane_branch (transcript_store (transcript w')) (transcript_lane (transcript w')) = Ok b' /\
     restore b' (tools w') = Ok (migrate_selection (tools w') (selection (tools w')))).
Proof.
  intros Hwf Hb Hr Hops. apply (restored_in_sync w b Hwf Hb) in Hr.
  destruct (run_selection_ops_in_sync ops w Hops Hr) as [_ _ Hd Hsync]. by split.
Qed.

Lemma is_active_declared (c : Snapshot) available n :
  is_active c available n = true ->
  (exists t, available !! n = Some t /\ tool_exposure t <> Hidden /\
     (tool_exposure t = Direct \/ n ∈ loaded (selection c))) /\
  n ∉ disabled (selection c) /\
  (n = "tool_search" -> index_available (search_index c) (disabled (selection c)) = true).
Proof.
  unfold is_active, declares. destruct (String.eqb_spec n "tool_search") as [->|Hn]; cbn [andb].
  - destruct (index_available _ _); cbn [negb]; [|done]. destruct (available !! _) as [t|]; [|done].
    rewrite !andb_true_iff, orb_true_iff, !bool_decide_eq_true. intros [[? ?] ?]. split_and!; [by exists t|done..].
  - destruct (available !! n) as [t|]; [|done].
    rewrite !andb_true_iff, orb_true_iff, !bool_decide_eq_true. intros [[? ?] ?]. split_and!; [by exists t|done..].
Qed.

(** The active tools are a registry: [active_registry] cannot fail. *)
Lemma active_registry_names (c : Snapshot) :
  exists r, active_registry c = Ok r /\ forall n, is_Some (r !! n) <-> n ∈ active_names c.
Proof.
  unfold active_registry. rewrite registry_subset_spec.
  - eexists. split; [done|]. intros n. rewrite (right_id ∅ (∪)), map_lookup_filter. cbn.
    destruct (available_registry c !! n) as [t|] eqn:Ht; cbn.
    + destruct (decide (n ∈ active_names c)) as [Hn|Hn].
      * by rewrite option_guard_True by done.
      * rewrite option_guard_False by done. split; [by intros [??]|done].
    + split; [by intros [??]|]. intros [_ [t Ht']%registry_names_elem]%list_elem_of_filter. by rewrite Ht in Ht'.
  - apply NoDup_filter, registry_names_nodup.
  - intros n [_ Hn%registry_names_elem]%list_elem_of_filter. by split.
Qed.

(** A replacement is accepted exactly when every chosen name was offered by the
    observed catalog and none is hidden by now; each tool that was offered is
    then enabled or disabled as chosen, every other preference stays, and the
    tools the model gets are the chosen ones that still exist. *)
Theorem selection_is_honoured (observed c : Snapshot) names :
  (is_ok (replace_selection observed names c) = true <->
     (forall n, n ∈ names -> n ∈ available_names observed) /\
     (forall n t, n ∈ names -> available_registry c !! n = Some t -> tool_exposure t <> Hidden)) /\
  forall c', replace_selection observed names c = Ok c' ->
  (forall n, n ∈ available_names observed ->
     (n ∈ loaded (selection c') <-> n ∈ names) /\ (n ∈ disabled (selection c') <-> n ∉ names) /\
     (n ∈ active_names c' -> n ∈ names)) /\
  (forall n, n ∉ available_names observed ->
     (n ∈ loaded (selection c') <-> n ∈ loaded (selection c)) /\
     (n ∈ disabled (selection c') <-> n ∈ disabled (selection c))) /\
  (forall n, n ∈ names -> is_Some (available_registry c !! n) -> n <> "tool_search" -> n ∈ active_names c') /\
  exists r, active_registry c' = Ok r /\ forall n, is_Some (r !! n) <-> n ∈ active_names c'.
Proof.
  unfold replace_selection, validate_active.
  assert (validate_names (available_registry observed) names = Ok tt <->
          forall n, n ∈ names -> n ∈ available_names observed) as Hval.
  { rewrite validate_names_spec, Forall_forall.
    enough (forall n, selectable (available_registry observed) n = true <-> n ∈ available_names observed) as Hs
      by (split; intros H' n Hn; apply Hs, H', Hn).
    intros n. rewrite available_names_elem. unfold selectable. split.
    - intros Hs. destruct (available_registry observed !! n) as [t|]; [|done].
      apply bool_decide_eq_true in Hs. by exists t.
    - intros (t & -> & Hh). by apply bool_decide_eq_true. }
  assert (refuse_hidden (available_registry c) (registry_sorted (list_to_set names)) = Ok tt <->
          forall n t, n ∈ names -> available_registry c !! n = Some t -> tool_exposure t <> Hidden) as Href.
  { rewrite refuse_hidden_spec. setoid_rewrite registry_sorted_elem. by setoid_rewrite elem_of_list_to_set. }
  rewrite <- Hval, <- Href.
  destruct (validate_names _ _) as [[]|e1] eqn:H1; cbn [result_bind]; [|split; [split; [done|by intros [? _]]|done]].
  destruct (refuse_hidden _ _) as [[]|e2] eqn:H2; cbn [result_bind]; [|split; [split; [done|by intros [_ ?]]|done]].
  split; [done|]. intros c' [= <-].
  pose proof (proj1 Href eq_refl) as Hshown. clear Href.
  destruct (prefer_all (list_to_set names) (available_names observed) (selection c)) as (_ & _ & Hp).
  set (s' := foldl _ _ _) in *. split_and!.
  - intros n Hn. destruct (Hp n) as [Hl Hd]. rewrite decide_True in Hl, Hd by done.
    rewrite elem_of_list_to_set in Hl, Hd. split_and!; [done..|]. intros [Ha _]%list_elem_of_filter.
    apply is_active_declared in Ha as (_ & Ha & _). cbn [with_selection selection] in Ha.
    destruct (decide (n ∈ names)); [done|]. by destruct Ha; apply Hd.
  - intros n Hn. destruct (Hp n) as [Hl Hd]. by rewrite decide_False in Hl, Hd by done.
  - intros n Hn [t Ht] Hs. destruct (Hp n) as [Hl Hd].
    pose proof (proj1 Hval eq_refl n Hn) as Ho. rewrite decide_True in Hl, Hd by done.
    rewrite elem_of_list_to_set in Hl, Hd. apply list_elem_of_filter.
    split; [|apply registry_names_elem; by exists t].
    unfold is_active. rewrite (proj2 (String.eqb_neq _ _) Hs). cbn [andb].
    change (available_registry (with_selection s' c)) with (available_registry c). rewrite Ht.
    unfold declares. cbn [with_selection selection].
    rewrite (bool_decide_eq_true_2 _ (Hshown n t Hn Ht)), (bool_decide_eq_true_2 (n ∈ loaded s')) by tauto.
    rewrite bool_decide_eq_true_2 by tauto. cbn [andb]. apply orb_true_r.
  - apply active_registry_names.
Qed.

(** Loading tools adds only deferred, enabled tools that were asked for and not
    yet loaded, whose definitions take 32 KiB together at most; it disables
    and forgets nothing, names no hidden tool, and writes nothing when nothing
    was added. *)
Theorem load_in_budget id names (w w' : World) report :
  load id names w = (Ok report, w') ->
  let more := report_loaded report in
  definitions_size (available_registry (tools w)) more <= LOAD_BUDGET /\ NoDup more /\
  (forall n, n ∈ more -> loadable (available_registry (tools w)) (selection (tools w)) n /\ n ∈ names) /\
  loaded (selection (tools w')) = loaded (selection (tools w)) ∪ list_to_set more /\
  disabled (selection (tools w')) = disabled (selection (tools w)) /\
  (forall n, (n, HiddenTool) ∈ report_skipped report -> n = "<hidden>") /\
  (more = [] -> transcript w' = transcript w).
Proof.
  unfold load, update, m_bind at 1, m_get.
  destruct (load_loop_spec (available_registry (tools w)) names ∅ 0 (selection (tools w)) empty_report)
    as (more & skips & Hl).
  destruct (load_loop _ _ _ _ _ _) as [s' r] eqn:Hloop.
  destruct Hl as ([H1 [H2 H2'] H3 H4 H5] & Hm & Hs & Hh). cbn [empty_report report_loaded report_skipped app] in Hm, Hs.
  unfold m_bind at 1, set_tools, m_bind at 1. rewrite Hm.
  set (w1 := {| tools := with_selection s' (tools w); transcript := transcript w |}).
  assert (forall r0 w2, match more with [] => m_ret tt | _ :: _ => persist id end w1 = (r0, w2) ->
    tools w2 = tools w1 /\ (more = [] -> transcript w2 = transcript w)) as Hmid.
  { intros r0 w2. destruct more as [|n more]; [by intros [= <- <-]|]. unfold persist.
    destruct (id_try_from _ _); [|by intros [= <- <-]]. destruct (commit_setting _ _). by intros [= <- <-]. }
  destruct (match more with [] => m_ret tt | _ :: _ => persist id end w1) as [[u|e] w2]; [|done].
  destruct (Hmid _ _ eq_refl) as [Ht Htr]. intros [= <- <-]. cbn zeta. rewrite Hm. cbn [transcript tools next_revision selection].
  rewrite Ht. cbn [w1 tools with_selection selection].
  split_and!; [apply H5; unfold LOAD_BUDGET; lia|done| |done|done| |done].
  - intros n Hn. by apply H4 in Hn as (? & ? & _).
  - intros n. rewrite Hs. intros Hn. by destruct (Hh n _ Hn) as [[_ ?]|?].
Qed.
End SelectionTheorems.

(** ** Discovery *)

Section Discovery.
Context {U : UnicodeTables} {F : Floats}.
Context (object_entries : gmap string json -> list (string * json)).
Abbreviation Snapshot := SessionToolSnapshot.

(** What a session's tool state goes through. *)
Inductive tool_state : Snapshot -> Prop :=
| state_new b e m s : tool_state (tool_state_new object_entries b e m s)
| state_register t c c' : tool_state c -> register_tool object_entries t c = (Ok tt, c') -> tool_state c'
| state_register_kernel t c c' :
    tool_state c -> register_kernel object_entries t c = (Ok tt, c') -> tool_state c'
| state_mcp m c c' :
    tool_state c -> replace_mcp_partition object_entries m c = (Ok tt, c') -> tool_state c'
| state_select s c : tool_state c -> tool_state (next_revision (with_selection s c)).

(** The index is the catalog's at all times. *)
Lemma tool_state_index c :
  tool_state c -> search_index c = index_of (deferred_documents object_entries c).
Proof.
  induction 1 as [b e m s|t c c' _ IH Hr|t c c' _ IH Hr|m c c' _ IH Hr|s c _ IH].
  - done.
  - revert Hr. unfold register_tool. case_bool_decide; [done|]. by intros [= <-].
  - by injection Hr as <-.
  - by injection Hr as <-.
  - exact IH.
Qed.

Lemma string_ltb_asym a b : string_ltb a b = true -> string_ltb b a = false.
Proof.
  unfold string_ltb. intros H%negb_true_iff. apply negb_false_iff.
  destruct (String.leb_total a b) as [Hab|Hba]; [done|congruence].
Qed.

Lemma ranks_before_asym x y : ranks_before x y = true -> ranks_before y x = false.
Proof.
  unfold ranks_before. rewrite (score_order_sym (rank_score x) (rank_score y)).
  destruct (rank_exact x), (rank_exact y); cbn [andb negb]; try done;
    destruct (score_order (rank_score x) (rank_score y)); cbn [CompOpp]; try done; apply string_ltb_asym.
Qed.

(** Exact matches come first. *)
Lemma ranked_exact_first l :
  StronglySorted (fun x y => rank_exact y = true -> rank_exact x = true) (sort_by ranks_before l).
Proof.
  apply Sorted_StronglySorted; [intros x y z; tauto|].
  pose proof (sort_by_sorted ranks_before ranks_before_asym l) as Hs.
  induction Hs as [|x r _ IH Hd]; constructor; [done|]. destruct Hd as [|y r Hy]; constructor.
  revert Hy. unfold not_after, ranks_before. by destruct (rank_exact x), (rank_exact y).
Qed.

Lemma strongly_sorted_split {A} (P : A -> A -> Prop) l k x y :
  StronglySorted P l -> x ∈ take k l -> y ∈ drop k l -> P x y.
Proof.
  intros Hs. revert k. induction Hs as [|z l Hs IH Hz]; intros k.
  - rewrite take_nil. by intros ?%elem_of_nil.
  - destruct k as [|k]; cbn [take drop]; [by intros ?%elem_of_nil|].
    intros [->|Hx]%elem_of_cons Hy; [|by apply (IH k)].
    rewrite Forall_forall in Hz. apply Hz. rewrite <- (take_drop k l). apply elem_of_app. by right.
Qed.

Lemma omap_names_nodup {A B} (f : A -> option B) (g : B -> string) (h : A -> string) l :
  (forall a b, f a = Some b -> g b = h a) -> NoDup (h <$> l) -> NoDup (g <$> omap f l).
Proof.
  intros Hf. induction l as [|a l IH]; cbn; [constructor|]. intros [Ha Hl]%NoDup_cons.
  destruct (f a) as [b|] eqn:Hb; [|by apply IH]. cbn. apply NoDup_cons. split; [|by apply IH].
  rewrite (Hf a b Hb). intros (b' & Hb' & (a' & Ha' & Hfa)%list_elem_of_omap)%list_elem_of_fmap.
  apply Ha. apply list_elem_of_fmap. exists a'. split; [|done]. by rewrite Hb', (Hf a' b' Hfa).
Qed.

Lemma document_name n t : doc_name (document object_entries n t) = n.
Proof. unfold document. by destruct (tool_mcp_ref t). Qed.

Lemma deferred_documents_elem (c : Snapshot) d :
  d ∈ deferred_documents object_entries c <->
  exists t, available_registry c !! doc_name d = Some t /\ tool_exposure t = Deferred /\
    d = document object_entries (doc_name d) t.
Proof.
  unfold deferred_documents. rewrite list_elem_of_omap. split.
  - intros (n & Hn & Hd). destruct (available_registry c !! n) as [t|] eqn:Ht; [|done].
    case_bool_decide as He; [|done]. injection Hd as <-. rewrite document_name. by exists t.
  - intros (t & Ht & He & Hd). exists (doc_name d). split; [apply registry_names_elem; by exists t|].
    by rewrite Ht, bool_decide_true, <- Hd.
Qed.

Lemma deferred_documents_nodup (c : Snapshot) : NoDup (doc_name <$> deferred_documents object_entries c).
Proof.
  unfold deferred_documents. apply (omap_names_nodup _ _ id).
  - intros n d Hd. destruct (available_registry c !! n) as [t|]; [|done].
    case_bool_decide; [|done]. injection Hd as <-. apply document_name.
  - rewrite list_fmap_id. apply registry_names_nodup.
Qed.

(** An exact match: the tool's name, or the name its server gives it. *)
Definition matches_exactly (c : Snapshot) (a : ToolSearchArguments) (n : string) : Prop :=
  n = query a \/ exists t r, available_registry c !! n = Some t /\ tool_mcp_ref t = Some r /\
    ref_remote_name r = query a.

Lemma candidate_spec (i : ToolSearchIndex) s a terms d r :
  candidate i s a terms d = Some r ->
  rank_name r = doc_name d /\ doc_name d ∉ s /\
  (rank_exact r = true <-> doc_name d = query a \/ doc_remote_name d = Some (query a)).
Proof.
  unfold candidate. case_bool_decide as Hd; [done|]. destruct (_ || _); [|done]. intros [= <-]. cbn.
  split_and!; [done|done|]. by rewrite orb_true_iff, String.eqb_eq, bool_decide_eq_true.
Qed.

Lemma deferred_candidate (c : Snapshot) a terms n :
  skip_reason (available_registry c) (selection c) n = None -> n = query a ->
  exists r, r ∈ omap (candidate (index_of (deferred_documents object_entries c)) (disabled (selection c)) a terms)
                     (deferred_documents object_entries c) /\ rank_name r = n.
Proof.
  unfold skip_reason. destruct (available_registry c !! n) as [t|] eqn:Ht; [|done].
  repeat case_bool_decide; try done. intros _ Hq. destruct (decide (tool_exposure t = Deferred)) as [He|]; [|done].
  set (d := document object_entries n t). assert (doc_name d = n) as Hd by apply document_name.
  eexists. split; [|shelve]. apply list_elem_of_omap. exists d. split.
  - apply deferred_documents_elem. rewrite Hd. by exists t.
  - unfold candidate. rewrite Hd, bool_decide_false by done. rewrite (proj2 (String.eqb_eq _ _) Hq). cbn [orb]. done.
  Unshelve. done.
Qed.

(** What a search finds can be loaded: each result is a deferred, enabled tool of
    the catalog, none is listed twice, and there are at most as many as asked
    for; tools the query names exactly come before all others, and one of those
    is only left out when the list is full of them. *)
Theorem search_finds_loadable (c : Snapshot) a :
  tool_state c ->
  let found := ranked (search_index c) (disabled (selection c)) a in
  NoDup found /\ length found <= default 8 (limit a) /\
  (forall n, n ∈ found -> skip_reason (available_registry c) (selection c) n = None) /\
  (forall n, skip_reason (available_registry c) (selection c) n = None -> n = query a ->
     n ∈ found \/ length found = default 8 (limit a) /\ forall m, m ∈ found -> matches_exactly c a m) /\
  (forall n m k, n ∈ take k found -> m ∈ drop k found -> m = query a -> matches_exactly c a n).
Proof.
  intros Hc%tool_state_index. cbn zeta. unfold ranked. rewrite Hc.
  set (docs := deferred_documents object_entries c). set (i := index_of docs).
  set (terms := registry_sorted _). set (hits := omap _ _). set (k := default 8 (limit a)).
  change (documents i) with docs in hits.
  pose proof (sort_by_perm ranks_before hits) as Hperm. pose proof (ranked_exact_first hits) as Hsort.
  set (l := sort_by ranks_before hits) in *.
  assert (NoDup (rank_name <$> l)) as Hnd.
  { rewrite Hperm. apply (omap_names_nodup _ _ doc_name); [|apply deferred_documents_nodup].
    intros d r Hr. apply (candidate_spec _ _ _ _ _ _ Hr). }
  assert (forall r, r ∈ l -> exists d, d ∈ docs /\ candidate i (disabled (selection c)) a terms d = Some r) as Hl
    by (intros r; rewrite Hperm; intros (d & Hd)%list_elem_of_omap; by exists d).
  assert (forall r, r ∈ l -> rank_exact r = true -> matches_exactly c a (rank_name r)) as Hex.
  { intros r (d & Hd & (Hn & _ & Hx)%candidate_spec)%Hl [He|He]%Hx; rewrite Hn; [by left|right].
    apply deferred_documents_elem in Hd as (t & Ht & _ & Hdoc). exists t. rewrite Hdoc in He. revert He.
    unfold document. destruct (tool_mcp_ref t) as [m|]; cbn; [|done]. destruct (Nat.leb _ _); [|done].
    intros [= He]. by exists m. }
  assert (forall r, r ∈ l -> rank_name r = query a -> rank_exact r = true) as Hself.
  { intros r (d & Hd & (Hn & _ & Hx)%candidate_spec)%Hl Hq. apply Hx. left. congruence. }
  assert (forall n, n ∈ take k (rank_name <$> l) -> n ∈ rank_name <$> l) as Htake
    by (intros n Hn; rewrite <- (take_drop k (rank_name <$> l)); apply elem_of_app; by left).
  assert (forall j n m, n ∈ take j (rank_name <$> l) -> m ∈ drop j (rank_name <$> l) -> m = query a ->
    matches_exactly c a n) as Hord.
  { intros j n m. rewrite <- fmap_take, <- fmap_drop.
    intros (x & -> & Hx)%list_elem_of_fmap (y & -> & Hy)%list_elem_of_fmap Hq.
    assert (x ∈ l /\ y ∈ l) as [Hxl Hyl]
      by (rewrite <- (take_drop j l); split; apply elem_of_app; [by left|by right]).
    apply Hex; [done|]. by apply (strongly_sorted_split _ l j x y Hsort), Hself. }
  split_and!.
  - rewrite <- (take_drop k (rank_name <$> l)) in Hnd. by apply NoDup_app in Hnd as [? _].
  - rewrite length_take. lia.
  - intros n Hn%Htake. apply list_elem_of_fmap in Hn as (r & -> & (d & Hd & (-> & Hs & _)%candidate_spec)%Hl).
    apply deferred_documents_elem in Hd as (t & Ht & He & _). unfold skip_reason.
    rewrite Ht. by rewrite !bool_decide_false by (rewrite ?He; first [done|tauto]).
  - intros n Hn Hq. assert (n ∈ rank_name <$> l) as Hin.
    { apply (deferred_candidate c a terms) in Hn as (r & Hr & <-); [|done]. apply list_elem_of_fmap_2.
      by rewrite Hperm. }
    rewrite <- (take_drop k (rank_name <$> l)) in Hin. apply elem_of_app in Hin as [?|Hin]; [by left|right].
    split; [|intros m Hm; by apply (Hord k m n)]. apply length_take_le.
    destruct (decide (k <= length (rank_name <$> l))); [done|]. rewrite drop_ge in Hin by lia. by apply elem_of_nil in Hin.
  - intros n m j Hn Hm. apply (Hord j).
    + rewrite take_take in Hn. rewrite <- (take_drop (Nat.min j k) (take j (rank_name <$> l))).
      apply elem_of_app. left. rewrite take_take. by replace (Nat.min (Nat.min j k) j) with (Nat.min j k) by lia.
    + rewrite skipn_firstn_comm in Hm. rewrite <- (take_drop (k - j) (drop j (rank_name <$> l))).
      apply elem_of_app. by left.
Qed.
End Discovery.

(** ** The theorems at a concrete session *)

Definition ascii_range (a b : Z) (c : char) : bool := in_range (code_point c) a b.
#[export] Instance sample_unicode : UnicodeTables := {|
  is_alphanumeric c := ascii_range 48 57 c || ascii_range 65 90 c || ascii_range 97 122 c;
  is_uppercase := ascii_range 65 90;
  is_lowercase := ascii_range 97 122;
  to_lowercase s := s
|}.
#[export] Program Instance sample_floats : Floats := {|
  float := Z; float_of := Z.of_nat; float_decimal _ := 1%Z;
  fadd := Z.add; fsub := Z.sub; fmul := Z.mul; fdiv := Z.div; fln := fun z => z; fmax := Z.max;
  fpositive := Z.ltb 0; score_order := Z.compare
|}.
Next Obligation. intros x y. cbn. apply Z.compare_antisym. Qed.

Definition sample_entries (m : gmap string json) : list (string * json) := map_to_list m.
Definition sample_tool (n : string) (e : ToolExposure) : AgentTool :=
  {| tool_definition := {| definition_name := n; definition_description := "a tool"; definition_parameters := JNull |};
     tool_exposure := e; tool_read_only_hint := None; tool_output_policy := Preserve; tool_mcp_ref := None;
     tool_validate _ := Ok tt |}.
Definition sample_catalog : SessionToolSnapshot :=
  tool_state_new sample_entries {["read" := sample_tool "read" Direct]} ∅
    {["fetch" := sample_tool "fetch" Deferred]} selection_default.
Definition sample_tools : ToolWorld (R := sample_rig) (S := JsonlSessionStore) :=
  {| tools := sample_catalog; transcript := sample_transcript (fun _ => IoDone) |}.

Lemma selection_survives_restart_witness :
  let ops := [Load "entry-a" ["fetch"; "read"]; Replace "entry-b" sample_catalog ["fetch"]] in
  let w := run_selection_ops ops sample_tools in
  active_names (tools w) = ["fetch"] /\ write_failed (transcript w) = false /\
  disjoint_selection (selection (tools w)).
Proof.
  intros ops w. split; [vm_compute; reflexivity|]. split; [vm_compute; reflexivity|].
  apply (selection_survives_restart sample_tools [] ops (sample_store_wf _) eq_refl); [vm_compute; reflexivity|].
  by repeat constructor.
Defined.

Lemma load_in_budget_witness : exists report w',
  load "entry-a" ["fetch"; "read"] sample_tools = (Ok report, w') /\
  definitions_size (available_registry (tools sample_tools)) (report_loaded report) <= LOAD_BUDGET.
Proof.
  destruct (load "entry-a" ["fetch"; "read"] sample_tools) as [r w'] eqn:Hl.
  assert (is_ok (load "entry-a" ["fetch"; "read"] sample_tools).1 = true) as Hok by (vm_compute; reflexivity).
  rewrite Hl in Hok. destruct r as [report|e]; [|discriminate Hok]. exists report, w'. split; [done|].
  apply (load_in_budget "entry-a" ["fetch"; "read"] sample_tools w' report Hl).
Defined.

Lemma search_finds_loadable_witness :
  let a := {| query := "fetch"; limit := None |} in
  ranked (search_index sample_catalog) (disabled (selection sample_catalog)) a = ["fetch"] /\
  skip_reason (available_registry sample_catalog) (selection sample_catalog) "fetch" = None.
Proof.
  intros a. assert (ranked (search_index sample_catalog) (disabled (selection sample_catalog)) a = ["fetch"]) as Hr
    by (vm_compute; reflexivity).
  split; [exact Hr|].
  destruct (search_finds_loadable sample_entries sample_catalog a (state_new _ _ _ _ _)) as (_ & _ & Hs & _).
  apply Hs. rewrite Hr. left.
Defined.
