(* ===== verification/SettingsTheorems.v ===== *)
(** What a session's settings promise: the model, thinking level and mode it
    works with are what a restart restores, the mode and the tools follow the
    lane through the tree, and a child starts with its owner's choices. *)

From S2P Require Import Prelude Lines Chars Text Scalar Json Message StoreModel StoreState.
From S2P Require Import StoreSession StoreInv StoreLaws ToolContract KernelErrors Plan Replay.
From S2P Require Import Transcript Aligned ToolSearch ToolSelection Compaction Settings.
From S2P Require Import Samples RunSamples ToolSelectionTheorems.
Open Scope string_scope.
Open Scope rust_scope.
Open Scope list_scope.

(** ** Settings entries *)

Lemma setting_entry_plain id change :
  exists p, new_entry_payload (setting_entry id change) = JObject p /\ disjoint_keys entry_fields p.
Proof.
  destruct change; eexists; (split; [done|]); unfold disjoint_keys, entry_fields;
    repeat constructor; by simplify_map_eq.
Qed.

(** A stored change reads back. *)
Lemma setting_roundtrip id change x :
  entry_kind x = new_entry_kind (setting_entry id change) ->
  JObject (entry_payload x) = new_entry_payload (setting_entry id change) ->
  setting_from_entry x = Ok change.
Proof.
  unfold setting_from_entry. destruct change as [provider model|level]; cbn; intros -> [= ->].
  - by simplify_map_eq.
  - simplify_map_eq. by destruct level.
Qed.

Section Loading.
Context `{ModelHandle Handle}.
Variable catalog : ModelCatalog Handle.
Abbreviation C := (Choices (Handle := Handle)).

Lemma load_app b b' : forall c : C,
  load_entries catalog c (b ++ b') = (let? c' := load_entries catalog c b in load_entries catalog c' b').
Proof. induction b as [|e b IH]; intros c; [done|]. cbn. destruct (load_entry catalog c e); cbn; auto. Qed.

Lemma with_mode_twice m m' (c : C) : with_mode m (with_mode m' c) = with_mode m c.
Proof. done. Qed.

Lemma load_entry_mode m (c : C) e :
  load_entry catalog (with_mode m c) e = result_map (with_mode m) (load_entry catalog c e).
Proof.
  unfold load_entry. destruct (entry_kind e); try done;
    (destruct (setting_from_entry e) as [[provider model|level]|]; cbn; [|done|done]); try done;
    by destruct (catalog_resolve catalog provider model).
Qed.

Lemma load_mode m b : forall c : C,
  load_entries catalog (with_mode m c) b = result_map (with_mode m) (load_entries catalog c b).
Proof.
  induction b as [|e b IH]; intros c; [done|]. cbn [load_entries]. rewrite load_entry_mode.
  destruct (load_entry catalog c e); [apply IH|done].
Qed.

(** An entry that no setting is read from. *)
Definition no_choice (e : SessionEntry) : Prop :=
  entry_kind e <> KindModelChange /\ entry_kind e <> KindThinkingLevelChange.
Definition no_setting (e : SessionEntry) : Prop := no_choice e /\ mode_from_entry e = None.

Lemma load_no_choice l : Forall no_choice l -> forall c : C, load_entries catalog c l = Ok c.
Proof.
  induction 1 as [|e l [H1 H2] _ IH]; intros c; [done|]. cbn. unfold load_entry.
  destruct (entry_kind e); cbn; auto; congruence.
Qed.

Lemma mode_none b l : Forall (fun e => mode_from_entry e = None) l -> branch_mode (b ++ l) = branch_mode b.
Proof.
  induction l as [|e l IH] using rev_ind; [by rewrite app_nil_r|].
  intros [Hl He]%Forall_app. rewrite Forall_singleton in He.
  by rewrite app_assoc, branch_mode_snoc, He, IH.
Qed.
End Loading.

(** ** What a transcript's operations do to its branch *)

Section Branches.
Context {R : RigTypes} {CC : ContentCodec R} {S : Type} `{SessionStoreLaws S}.
Abbreviation T := (SessionTranscript R S).
Abbreviation K := (M T KernelError).

Definition lane_holds (b : list SessionEntry) (t : T) : Prop :=
  store_wf (transcript_store t) /\ lane_branch (transcript_store t) (transcript_lane t) = Ok b.

(** [c] adds entries of one sort, or nothing, whatever it returns. *)
Definition adds {A} (P : SessionEntry -> Prop) (c : K A) : Prop :=
  forall t b, lane_holds b t -> exists l, Forall P l /\ lane_holds (b ++ l) (c t).2.

Lemma adds_still {A} P (c : K A) :
  (forall t b, lane_holds b t -> lane_holds b (c t).2) -> adds P c.
Proof. intros Hc t b Hb. exists []. rewrite app_nil_r. split; [constructor|auto]. Qed.

Lemma adds_bind {A B} P (c : K A) (k : A -> K B) :
  adds P c -> (forall a, adds P (k a)) -> adds P (m_bind c k).
Proof.
  intros Hc Hk t b Hb. destruct (Hc t b Hb) as (l & Hl & Hb'). unfold m_bind.
  destruct (c t) as [[a|e] t']; [|by exists l]. destruct (Hk a t' _ Hb') as (l' & Hl' & Hb'').
  exists (l ++ l'). rewrite app_assoc. split; [by apply Forall_app|done].
Qed.

Lemma holds_same_tree b (t : T) s :
  lane_holds b t -> store_wf s -> same_tree (transcript_store t) s -> lane_holds b (set_store t s).
Proof. intros [_ Hb] Hwf Hs. split; [done|]. cbn. by rewrite <- Hb, Hs. Qed.

Lemma neutral_still {A} (op : M S StoreError A) b (t : T) :
  tree_neutral op -> lane_holds b t -> lane_holds b (set_store t (op (transcript_store t)).2).
Proof. intros Hop Hb. destruct (Hop _ (proj1 Hb)). by apply holds_same_tree. Qed.

Lemma adds_call {A} P (op : M S StoreError A) : tree_neutral op -> adds P (store_call op).
Proof.
  intros Hop. apply adds_still. intros t b Hb. pose proof (neutral_still op b t Hop Hb) as H'.
  unfold store_call. by destruct (op _).
Qed.
Lemma adds_try {A} P (op : M S StoreError A) : tree_neutral op -> adds P (store_try op).
Proof.
  intros Hop. apply adds_still. intros t b Hb. pose proof (neutral_still op b t Hop Hb) as H'.
  unfold store_try. by destruct (op _).
Qed.

(** Appending to the lane: the entry is there, or the branch as it was. *)
Lemma append_holds (t : T) b e p :
  lane_holds b t -> new_entry_payload e = JObject p -> disjoint_keys entry_fields p ->
  match append_entry (transcript_lane t) e (transcript_store t) with
  | (Ok x, s) => lane_holds (b ++ [x]) (set_store t s) /\ entry_kind x = new_entry_kind e /\ entry_payload x = p
  | (Err _, s) => lane_holds b (set_store t s)
  end.
Proof.
  intros [Hwf Hb] Hp Hd. pose proof (append_entry_wf _ (transcript_lane t) e Hwf) as Hw.
  destruct (append_entry _ _ _) as [[x|err] s] eqn:Ha; cbn [snd] in Hw.
  - destruct (append_entry_grows _ _ _ _ _ _ _ Hwf Hp Hd Hb Ha) as (_ & Hk & Hpx & _ & Hbr & _). done.
  - apply holds_same_tree; [done..|]. by eapply append_entry_fails.
Qed.

Definition entry_ok (P : SessionEntry -> Prop) (e : NewEntry) : Prop :=
  exists p, new_entry_payload e = JObject p /\ disjoint_keys entry_fields p /\
    forall x, entry_kind x = new_entry_kind e -> entry_payload x = p -> P x.

Lemma adds_appended P (e : NewEntry) : entry_ok P e ->
  adds P (let! t := m_get in store_call (append_entry (transcript_lane t) e)) /\
  adds P (let! t := m_get in store_try (append_entry (transcript_lane t) e)).
Proof.
  intros (p & Hp & Hd & HP).
  assert (forall (t : T) b, lane_holds b t -> exists l, Forall P l /\
    lane_holds (b ++ l) (set_store t (append_entry (transcript_lane t) e (transcript_store t)).2)) as Ha.
  { intros t b Hb. pose proof (append_holds t b e p Hb Hp Hd) as Ha.
    destruct (append_entry _ _ _) as [[x|err] s]; cbn [snd].
    - destruct Ha as (Hb' & Hk & Hpx). exists [x]. split; [|done]. by apply Forall_singleton, HP.
    - exists []. by rewrite app_nil_r. }
  split; intros t b Hb; specialize (Ha t b Hb); unfold m_bind, m_get, store_call, store_try;
    by destruct (append_entry _ _ _).
Qed.

Lemma adds_ret {A} P (a : A) : adds P (m_ret a).
Proof. by apply adds_still. Qed.
Lemma adds_fail {A} P e : adds (A := A) P (m_fail e).
Proof. by apply adds_still. Qed.
Lemma adds_lift {A} P (r : result A KernelError) : adds P (m_lift r).
Proof. by apply adds_still. Qed.
Lemma adds_get P : adds P m_get.
Proof. by apply adds_still. Qed.
Lemma adds_writable P : adds P writable.
Proof. apply adds_still. intros t b Hb. unfold writable. by destruct (sealed t), (write_failed t). Qed.
Lemma adds_modify P (f : T -> T) :
  (forall t, transcript_store (f t) = transcript_store t /\ transcript_lane (f t) = transcript_lane t) ->
  adds P (m_modify f).
Proof.
  intros Hf. apply adds_still. intros t b [Hwf Hb]. destruct (Hf t) as [Hs Hl]. split; cbn; by rewrite Hs, ?Hl.
Qed.
Lemma adds_uncertain P : adds P uncertain.
Proof. apply adds_bind; [by apply adds_modify|intros; apply adds_fail]. Qed.
Lemma adds_push P (m : AgentMessage R) : adds P (push_context m).
Proof. by apply adds_modify. Qed.
End Branches.

#[export] Hint Resolve adds_ret adds_fail adds_lift adds_get adds_writable adds_uncertain adds_push
  adds_call adds_try : kernel.

(** Walks a computation made of steps that add entries of one sort. *)
Ltac adds_step :=
  repeat first
    [ apply adds_bind; [|intros ?]
    | progress cbv beta
    | match goal with |- adds _ (match ?x with _ => _ end) => destruct x end ];
  eauto with kernel.

Section Operations.
Context {R : RigTypes} {CC : ContentCodec R} {S : Type} `{SessionStoreLaws S}.
Abbreviation T := (SessionTranscript R S).
Abbreviation K := (M T KernelError).

(** Reading the state and then appending to its lane. *)
Lemma adds_append {A} P (e : NewEntry) (k : SessionEntry -> K A) :
  entry_ok P e -> (forall x, adds P (k x)) ->
  adds P (let! t := m_get in let! x := store_call (append_entry (transcript_lane t) e) in k x).
Proof.
  intros He Hk. destruct (adds_appended (S := S) (R := R) P e He) as [Ha _]. intros t b Hb.
  pose proof (adds_bind P _ _ Ha Hk t b Hb) as H'. revert H'. unfold m_bind, m_get.
  by destruct (store_call _ _) as [[]].
Qed.
Lemma adds_append_try {A} P (e : NewEntry) (k : result SessionEntry StoreError -> K A) :
  entry_ok P e -> (forall x, adds P (k x)) ->
  adds P (let! t := m_get in let! x := store_try (append_entry (transcript_lane t) e) in k x).
Proof.
  intros He Hk. destruct (adds_appended (S := S) (R := R) P e He) as [_ Ha]. intros t b Hb.
  pose proof (adds_bind P _ _ Ha Hk t b Hb) as H'. revert H'. unfold m_bind, m_get.
  by destruct (store_try _ _) as [[]].
Qed.

(** What an operation may append when it carries no setting. *)
Definition choiceless (e : NewEntry) : Prop :=
  new_entry_kind e <> KindModelChange /\ new_entry_kind e <> KindThinkingLevelChange.
Definition settingless (op : transcript_op) : Prop :=
  match op with
  | TCommitSetting e | TAppendStoreOnly e => choiceless e
  | TAppendModeNote _ _ => False
  | _ => True
  end.

Lemma no_mode_kind (x : SessionEntry) : entry_kind x <> KindCustom -> mode_from_entry x = None.
Proof. intros Hx. unfold mode_from_entry. by rewrite (bool_decide_eq_false_2 (entry_kind x = KindCustom)). Qed.

Lemma context_free_ok (e : NewEntry) : context_free e -> choiceless e -> entry_ok no_setting e.
Proof.
  intros (p & [Hp Hd] & Hk) Hc. exists p. split; [done|]. split; [done|]. intros x Hkx Hpx.
  split; [unfold no_choice; by rewrite Hkx|]. destruct (decide (new_entry_kind e = KindCustom)) as [He|He].
  - apply mode_entry_payload. rewrite He in Hk. by rewrite Hpx.
  - apply no_mode_kind. by rewrite Hkx.
Qed.

Lemma message_entry_ok id (m : AgentMessage R) v : message_ok m -> message_to_value m = Ok v ->
  entry_ok no_setting (message_entry id v).
Proof.
  intros Hm Hv. destruct (message_roundtrip m Hm) as (o & Ho & Ho' & _).
  exists o. split; [cbn; congruence|]. split; [by eapply message_object_disjoint|]. cbn. intros x Hk _.
  split; [split; by rewrite Hk|]. apply no_mode_kind. by rewrite Hk.
Qed.

Lemma adds_record P r : plain_record r -> adds P (store_call (append_record r) : K SessionRecord).
Proof. intros Hr. apply adds_call, append_record_neutral, Hr. Qed.
Lemma adds_records P rs : Forall plain_record rs -> adds (S := S) (R := R) P (append_records rs).
Proof.
  induction 1 as [|r rs Hr _ IH]; cbn [append_records]; [apply adds_ret|].
  apply adds_bind; [by apply adds_try, append_record_neutral|]. intros [x|e]; [done|apply adds_uncertain].
Qed.

Lemma sync_holds b (t : T) : lane_holds b t -> lane_holds b (set_store t (sync (transcript_store t)).2).
Proof. intros Hb. apply neutral_still; [apply sync_neutral|done]. Qed.

Lemma adds_commit_setting P (e : NewEntry) : entry_ok P e -> adds (S := S) (R := R) P (commit_setting e).
Proof.
  intros (p & Hp & Hd & HP). unfold commit_setting. apply adds_bind; [apply adds_writable|intros _].
  intros t b Hb. unfold m_bind, m_get, store_try.
  pose proof (append_holds t b e p Hb Hp Hd) as Ha.
  destruct (append_entry _ _ _) as [[x|err] s].
  - destruct Ha as (Hb' & Hk & Hpx). pose proof (sync_holds _ _ Hb') as Hb''. cbn [transcript_store set_store] in Hb''.
    exists [x]. split; [by apply Forall_singleton, HP|]. by destruct (sync s) as [[[]|e'] s'].
  - exists []. split; [constructor|]. by rewrite app_nil_r.
Qed.

Lemma adds_message {A} P (m : AgentMessage R) (k : json -> K A) :
  (forall v, message_to_value m = Ok v -> adds P (k v)) -> adds P (let! v := encode_message m in k v).
Proof.
  intros Hk. unfold encode_message. intros t b Hb. unfold m_bind, m_lift.
  destruct (message_to_value m) as [v|e]; [by apply Hk|]. exists []. split; [constructor|]. by rewrite app_nil_r.
Qed.

Lemma adds_finish id (d : CompactionData R) : compaction_ok d -> adds (S := S) no_setting (finish_compaction id d).
Proof.
  intros Hok. unfold finish_compaction. apply adds_bind; [apply adds_lift|intros context].
  destruct (compaction_roundtrip d Hok) as (o & Ho & _). rewrite Ho.
  change (m_lift (map_err _ (Ok o))) with (m_ret (S := T) (E := KernelError) o). intros t b Hb.
  change (exists l, Forall no_setting l /\ lane_holds (b ++ l)
    (commit_compaction {| new_entry_id := id; new_entry_kind := KindCompaction; new_entry_payload := JObject o |} context t).2).
  revert t b Hb. change (adds (S := S) (R := R) no_setting
    (commit_compaction {| new_entry_id := id; new_entry_kind := KindCompaction; new_entry_payload := JObject o |} context)).
  assert (entry_ok no_setting {| new_entry_id := id; new_entry_kind := KindCompaction; new_entry_payload := JObject o |}) as He.
  { exists o. split; [done|]. split; [by eapply compaction_object_disjoint|]. intros x Hk _. cbn in Hk.
    split; [split; by rewrite Hk|]. apply no_mode_kind. by rewrite Hk. }
  unfold commit_compaction. apply adds_bind; [apply adds_writable|intros _]. intros t b Hb.
  unfold m_bind at 1, m_get. unfold m_bind at 1, m_lift.
  destruct (active_branch t) as [b0|e0]; [|exists []; split; [constructor|by rewrite app_nil_r]].
  unfold m_bind at 1. destruct (after_compaction _ _ _ _) as [c|e0]; [|exists []; split; [constructor|by rewrite app_nil_r]].
  pose proof (adds_append (A := unit) no_setting _ (fun _ => m_modify (fun t => set_context t c)) He) as Hk.
  specialize (Hk (fun _ => adds_modify _ _ (fun _ => conj eq_refl eq_refl)) t b Hb). exact Hk.
Qed.

Lemma adds_extension id (ext : ExtensionId) ct data :
  as_str ext <> SLUG \/ ct <> MODE_CUSTOM_TYPE ->
  adds (S := S) (R := R) no_setting (transcript_extension_entry id ext ct data).
Proof.
  intros Hne. unfold transcript_extension_entry. apply adds_bind; [apply adds_writable|intros _].
  unfold append_extension_entry. apply adds_appended, context_free_ok; [by apply extension_context_free|by split].
Qed.

Lemma adds_transcript_op op : transcript_op_ok (CC := CC) op -> settingless op ->
  adds no_setting (run_transcript_op (S := S) op).
Proof.
  destruct op as [e|rs|id m r|id m|id c|e|r|id ext ct data|id d|n|n|id l| |]; cbn [run_transcript_op]; intros Hok Hs;
    cbn in Hok, Hs; try unfold ignore; try done.
  - by apply adds_commit_setting, context_free_ok.
  - unfold commit_records. adds_step. by apply adds_records.
  - destruct Hok as [Hm Hr]. unfold commit_consumed. apply adds_message. intros v Hv.
    apply adds_bind; [apply adds_writable|intros _]. apply adds_append_try; [by eapply message_entry_ok|].
    intros x. adds_step.
  - unfold append_context_message. apply adds_bind; [apply adds_writable|intros _]. intros t b Hb.
    unfold m_bind at 1, m_get. unfold m_bind at 1, encode_message, m_lift.
    destruct (message_to_value m) as [v|e] eqn:Hv; [|exists []; split; [constructor|by rewrite app_nil_r]].
    exact (adds_append no_setting (message_entry id v) (fun _ => push_context m) (message_entry_ok id m v Hok Hv)
      (fun _ => adds_push _ m) t b Hb).
  - apply adds_bind; [|intros; apply adds_ret]. unfold append_store_only_entry.
    apply adds_bind; [apply adds_writable|intros _]. by apply adds_appended, context_free_ok.
  - apply adds_bind; [|intros; apply adds_ret]. unfold transcript_append_record.
    apply adds_bind; [apply adds_writable|intros _]. by apply adds_record.
  - apply adds_bind; [by apply adds_extension|intros; apply adds_ret].
  - by apply adds_finish.
  - unfold transcript_set_name. adds_step.
  - unfold set_default_name. adds_step.
  - unfold transcript_set_label. adds_step.
  - unfold transcript_sync. adds_step.
  - by apply adds_modify.
Qed.
End Operations.

(** ** Navigation *)

Section Navigation.
Context {R : RigTypes} {CC : ContentCodec R} {S : Type} `{SessionStoreLaws S}.
Abbreviation T := (SessionTranscript R S).

Lemma holds_context b (t : T) c : lane_holds b t -> lane_holds b (set_context t c).
Proof. done. Qed.

Lemma tail_holds c summary (t t' : T) b res tr :
  lane_holds b t -> navigation_tail c summary t = (res, tr, t') ->
  lane_holds b t' /\ appended_summary tr = summary.
Proof.
  intros Hb. unfold navigation_tail.
  assert (exists labelled t2, match commit_label c with
      | Some text => store_call (set_label (from_option entry_id (commit_target c) summary) (Some text)) t
      | None => (Ok tt, t) end = (labelled, t2) /\ lane_holds b t2) as (labelled & t2 & -> & Hb2).
  { destruct (commit_label c) as [text|]; [|by eexists _, _].
    pose proof (neutral_still _ b t (set_label_neutral (from_option entry_id (commit_target c) summary) (Some text)) Hb) as H'.
    unfold store_call. destruct (set_label _ _ _) as [r s]. by eexists _, _. }
  destruct labelled as [[]|e]; [|by intros [= <- <- <-]].
  destruct (rebuilt t2) as [r|e]; [|by intros [= <- <- <-]].
  pose proof (sync_holds b t2 Hb2) as Hb3. unfold store_call.
  destruct (sync (transcript_store t2)) as [[u|e] s]; by intros [= <- <- <-].
Qed.

Lemma reconcile_holds b (t t' : T) r : lane_holds b t -> reconcile t = (r, t') -> lane_holds b t'.
Proof. intros Hb. unfold reconcile. destruct (rebuilt t); by intros [= <- <-]. Qed.

Lemma moved_holds (t : T) b leaf s1 :
  store_wf (transcript_store t) -> branch_at leaf t = Ok b ->
  move_lane (transcript_lane t) leaf (transcript_store t) = (Ok tt, s1) -> lane_holds b (set_store t s1).
Proof.
  intros Hwf Hb Hm. pose proof (move_lane_wf _ (transcript_lane t) leaf Hwf) as Hw. rewrite Hm in Hw.
  destruct (move_lane_moves _ _ _ _ Hm) as (Hl & _ & Hbr & _). split; [done|]. cbn. unfold lane_branch. rewrite Hl.
  unfold branch_at, branch_or_root in Hb. destruct leaf as [leaf|]; [|by injection Hb as ->].
  rewrite Hbr. destruct (branch _ leaf); [|done]. by injection Hb as ->.
Qed.

(** A navigation that succeeds leaves the lane on the target's branch, followed
    by its summary. *)
Lemma commit_navigation_holds c (t t' : T) b res :
  store_wf (transcript_store t) -> branch_at (commit_new_leaf c) t = Ok b ->
  match commit_summary c with Some e => entry_ok no_setting e | None => True end ->
  commit_navigation c t = (Ok res, t') ->
  exists l, (Forall no_setting l /\ length l <= 1) /\ lane_holds (b ++ l) t'.
Proof.
  intros Hwf Hb Hsum. unfold commit_navigation. rewrite (m_bind_writable _ t).
  destruct (sealed t); [done|]. destruct (write_failed t); [done|]. unfold m_bind at 1, m_get.
  assert (forall tr (t2 : T) e, (let! _ := navigation_rollback tr (lane_of t) in m_fail (A := NavigationResult) e) t2 <> (Ok res, t')) as Hroll.
  { intros tr t2 e. unfold m_bind, m_fail. destruct (navigation_rollback _ _ _) as [[]]; done. }
  unfold navigation_mutation, store_call at 1.
  destruct (move_lane _ _ _) as [[[]|e] s1] eqn:Hm; cbn [map_err]; [|by intros ?%Hroll].
  pose proof (moved_holds t b _ s1 Hwf Hb Hm) as Hb1.
  destruct (commit_summary c) as [entry|].
  - destruct Hsum as (p & Hp & Hd & HP). pose proof (append_holds _ _ _ p Hb1 Hp Hd) as Ha.
    change (transcript_lane (set_store t s1)) with (transcript_lane t) in Ha. unfold store_call at 1.
    destruct (append_entry _ _ _) as [[x|e] s2]; cbn [map_err]; [|by intros ?%Hroll].
    destruct Ha as (Hb2 & Hk & Hpx). assert (Forall no_setting [x]) as Hx by by apply Forall_singleton, HP.
    destruct (navigation_tail c (Some x) _) as [[res0 tr] t3] eqn:Ht. apply (tail_holds _ _ _ _ _ _ _ Hb2) in Ht as [Hb3 Htr].
    exists [x]. split; [by split|]. destruct res0 as [[leaf r]|e].
    + revert H1. unfold m_bind, install, m_modify. by intros [= <- <-].
    + revert H1. rewrite Htr. unfold m_bind at 1. destruct (reconcile t3) as [[rc|e'] t4] eqn:Hrc; [|done].
      apply (reconcile_holds _ _ _ _ Hb3) in Hrc. unfold m_bind, m_get, store_try.
      pose proof (sync_holds _ t4 Hrc) as Hb5. destruct (sync _) as [synced s5].
      destruct (reached_sync tr && rc && is_ok synced); [|done]. by intros [= <- <-].
  - destruct (navigation_tail c None _) as [[res0 tr] t3] eqn:Ht. apply (tail_holds _ _ _ _ _ _ _ Hb1) in Ht as [Hb3 Htr].
    destruct res0 as [[leaf r]|e]; [|rewrite Htr; by intros ?%Hroll].
    unfold m_bind, install, m_modify. intros [= <- <-]. exists []. rewrite app_nil_r. split; [split; [constructor|cbn; lia]|done].
Qed.

Lemma clear_navigation_holds (t t' : T) old :
  store_wf (transcript_store t) -> clear_navigation t = (Ok old, t') -> lane_holds [] t'.
Proof.
  intros Hwf. unfold clear_navigation. rewrite (m_bind_writable _ t).
  destruct (sealed t); [done|]. destruct (write_failed t); [done|]. unfold m_bind at 1, m_get.
  unfold m_bind at 1, store_call. destruct (move_lane _ _ _) as [[[]|e] s1] eqn:Hm; cbn [map_err]; [|done].
  pose proof (moved_holds t [] None s1 Hwf eq_refl Hm) as Hb1.
  unfold m_bind at 1, m_modify. unfold m_bind at 1, store_try.
  set (t1 := set_context _ _). assert (lane_holds [] t1) as Hb2 by done.
  pose proof (sync_holds _ t1 Hb2) as Hb3. destruct (sync _) as [[u|e] s2].
  - by intros [= <- <-].
  - clear Hm. unfold m_bind at 1. destruct (move_lane _ _ _) as [[?|?] ?].
    + unfold m_bind. by destruct (sync _).
    + unfold m_bind. by destruct (reconcile _) as [[]].
Qed.
End Navigation.

(** ** Changes and runs *)

Section Runs.
Context {R : RigTypes} {CC : ContentCodec R} {S : Type} `{SessionStoreLaws S} `{ModelHandle Handle}.
Context {F : Floats}.
Variable catalog : ModelCatalog Handle.
Variable active : Handle.
Abbreviation World := (SettingsWorld (Handle := Handle) (R := R) (S := S)).
Abbreviation T := (SessionTranscript R S).

Definition start_choices : Choices (Handle := Handle) :=
  {| chosen_model := active; chosen_level := thinking_default; chosen_mode := ModeDefault |}.

(** What a restart takes from a branch. *)
Definition chosen_by (b : list SessionEntry) : result (Choices (Handle := Handle)) KernelError :=
  load_entries catalog (with_mode (branch_mode b) start_choices) b.

Lemma load_settings_branch (t : T) b : lane_holds b t ->
  load_settings (transcript_store t) (transcript_lane t) catalog active = chosen_by b.
Proof.
  intros [_ Hb]. unfold load_settings. unfold lane_branch in Hb.
  destruct (lane _ _) as [leaf|]; [by rewrite Hb|]. by injection Hb as <-.
Qed.

Lemma chosen_by_mode b c : chosen_by b = Ok c -> chosen_mode c = branch_mode b.
Proof. unfold chosen_by. rewrite load_mode. destruct (load_entries _ _ _); [|done]. by intros [= <-]. Qed.

Lemma with_mode_same (c : Choices (Handle := Handle)) m : chosen_mode c = m -> with_mode m c = c.
Proof. intros <-. by destruct c. Qed.

(** Entries that carry no setting leave every choice. *)
Lemma chosen_by_plain b l c : Forall no_setting l -> chosen_by b = Ok c -> chosen_by (b ++ l) = Ok c.
Proof.
  intros Hl Hc. unfold chosen_by. rewrite mode_none by (eapply Forall_impl; [exact Hl|by intros ? []]).
  rewrite load_app. unfold chosen_by in Hc. rewrite Hc. apply load_no_choice.
  eapply Forall_impl; [exact Hl|by intros ? []].
Qed.

Definition change_choices (change : SettingChange) (c : Choices (Handle := Handle)) : Choices (Handle := Handle) :=
  load_change catalog c change.

Lemma setting_entry_kind id change x : entry_kind x = new_entry_kind (setting_entry id change) ->
  (entry_kind x = KindModelChange \/ entry_kind x = KindThinkingLevelChange) /\ entry_kind x <> KindCustom.
Proof. destruct change; cbn; intros ->; split; auto. Qed.

Lemma chosen_by_setting b x id change c :
  entry_kind x = new_entry_kind (setting_entry id change) ->
  JObject (entry_payload x) = new_entry_payload (setting_entry id change) ->
  chosen_by b = Ok c -> chosen_by (b ++ [x]) = Ok (change_choices change c).
Proof.
  intros Hk Hp Hc. unfold chosen_by. destruct (setting_entry_kind _ _ _ Hk) as [Hkx Hm].
  rewrite mode_none by (apply Forall_singleton, no_mode_kind, Hm).
  rewrite load_app. unfold chosen_by in Hc. rewrite Hc. cbn. unfold load_entry.
  rewrite (setting_roundtrip id change x Hk Hp). by destruct Hkx as [-> | ->].
Qed.

Lemma chosen_by_note b x m c :
  entry_kind x = KindCustom -> entry_payload x = mode_payload m ->
  chosen_by b = Ok c -> chosen_by (b ++ [x]) = Ok (with_mode (change_mode m) c).
Proof.
  intros Hk Hp Hc. unfold chosen_by in *. rewrite branch_mode_snoc, (mode_from_payload x m Hk Hp).
  rewrite load_app. change (with_mode (change_mode m) start_choices)
    with (with_mode (change_mode m) (with_mode (branch_mode b) start_choices)).
  rewrite load_mode, Hc. cbn. unfold load_entry. by rewrite Hk.
Qed.

(** *** What each change does *)

(** [w]'s lane holds [b], and the live choices satisfy [P]. *)
Definition settled_on (b : list SessionEntry) (w : World) : Prop := lane_holds b (settings_transcript w).

Lemma persist_setting_spec id change (w w' : World) r b :
  settled_on b w -> persist_setting id change w = (r, w') ->
  settings_choices w' = settings_choices w /\ settings_tools w' = settings_tools w /\
  match r with
  | Ok _ => exists x i, settled_on (b ++ [x]) w' /\
      entry_kind x = new_entry_kind (setting_entry i change) /\
      JObject (entry_payload x) = new_entry_payload (setting_entry i change)
  | Err (Store _) => True
  | Err _ => settled_on b w'
  end.
Proof.
  intros Hb. unfold persist_setting, m_bind, fresh_id, m_lift.
  destruct (id_try_from "entry" id) as [i|e]; cbn [map_err]; [|by intros [= <- <-]].
  unfold on_transcript. cbn [settings_transcript].
  unfold append_store_only_entry, m_bind, writable.
  destruct (sealed _); [by intros [= <- <-]|]. destruct (write_failed _); [by intros [= <- <-]|].
  unfold m_get. destruct (setting_entry_plain i change) as (p & Hp & Hd).
  pose proof (append_holds (settings_transcript w) b _ p Hb Hp Hd) as Ha. unfold store_call.
  destruct (append_entry _ _ _) as [[x|e] s]; cbn [map_err]; [|by intros [= <- <-]].
  destruct Ha as (Hb' & Hk & Hpx). pose proof (sync_holds _ _ Hb') as Hs.
  unfold transcript_sync, store_call. cbn [settings_transcript].
  destruct (sync _) as [[[]|e] s']; intros [= <- <-]; [|done].
  split; [done|]. split; [done|]. exists x, i. split_and!; [done..|]. by rewrite Hp, Hpx.
Qed.

(** The lane holds [b] and the mode is [b]'s; before any navigation ([full]),
    every choice is. *)
Definition agree (full : bool) (b : list SessionEntry) (w : World) : Prop :=
  settled_on b w /\ (full = true -> chosen_by b = Ok (settings_choices w)) /\
  chosen_mode (settings_choices w) = branch_mode b.

Lemma agree_setting full b x i change (w w' : World) :
  entry_kind x = new_entry_kind (setting_entry i change) ->
  JObject (entry_payload x) = new_entry_payload (setting_entry i change) ->
  settled_on (b ++ [x]) w' -> settings_choices w' = load_change catalog (settings_choices w) change ->
  agree full b w -> agree full (b ++ [x]) w'.
Proof.
  intros Hk Hp Hb Hc (_ & Hf & Hm). split; [done|]. split.
  - intros Hfull. rewrite Hc. eapply chosen_by_setting; eauto.
  - rewrite Hc. destruct (setting_entry_kind _ _ _ Hk) as [_ Hkx].
    rewrite mode_none by (apply Forall_singleton, no_mode_kind, Hkx). rewrite <- Hm.
    destruct change; cbn; [|done]. by destruct (catalog_resolve _ _ _).
Qed.

Lemma agree_plain full b l (w w' : World) :
  Forall no_setting l -> settled_on (b ++ l) w' -> settings_choices w' = settings_choices w ->
  agree full b w -> agree full (b ++ l) w'.
Proof.
  intros Hl Hb Hc (_ & Hf & Hm). split; [done|]. rewrite Hc. split.
  - intros Hfull. by apply chosen_by_plain, Hf.
  - rewrite mode_none; [done|]. eapply Forall_impl; [exact Hl|by intros ? []].
Qed.

Lemma agree_same full b (w w' : World) :
  settled_on b w' -> settings_choices w' = settings_choices w -> agree full b w -> agree full b w'.
Proof. intros Hb Hc H'. rewrite <- (app_nil_r b). apply (agree_plain full b [] w); auto. by rewrite app_nil_r. Qed.

Definition store_error (e : KernelError) : Prop := match e with Store _ => True | _ => False end.

(** Storing a change and then taking it up. *)
Lemma change_agrees {A} full b (w w' : World) id change (k : M World KernelError A) r :
  (forall w1, settings_transcript (k w1).2 = settings_transcript w1 /\
              settings_choices (k w1).2 = load_change catalog (settings_choices w1) change) ->
  agree full b w -> (let! _ := persist_setting id change in k) w = (r, w') ->
  match r with Ok _ => True | Err e => ~ store_error e end ->
  exists b', agree full b' w'.
Proof.
  intros Hk Ha. unfold m_bind. destruct (persist_setting id change w) as [r0 w1] eqn:Hp.
  destruct (persist_setting_spec _ _ _ _ _ b (proj1 Ha) Hp) as (Hc & _ & Hr).
  destruct r0 as [[]|e].
  - destruct Hr as (x & i & Hb & Hkx & Hpx). destruct (k w1) as [r1 w2] eqn:Hkw. intros [= <- <-] _.
    destruct (Hk w1) as [Ht Hc']. rewrite Hkw in Ht, Hc'. cbn in Ht, Hc'.
    exists (b ++ [x]). apply (agree_setting full b x i change w w2 Hkx Hpx); [|by rewrite Hc', Hc|done].
    unfold settled_on. by rewrite Ht.
  - intros [= <- <-] He. exists b. destruct e; try (by eapply agree_same); by destruct He.
Qed.

Lemma set_model_agrees full b provider model signed id reported context (w w' : World) r :
  agree full b w -> set_model catalog provider model signed id reported context w = (r, w') ->
  match r with Ok _ => True | Err e => ~ store_error e end ->
  exists b', agree full b' w'.
Proof.
  intros Ha. unfold set_model. destruct (catalog_resolve catalog provider model) as [h|] eqn:Hh;
    [|intros [= <- <-] _; by exists b].
  destruct signed; [intros [= <- <-] _; by exists b|]. unfold m_bind at 1, m_get. cbv zeta.
  destruct (bool_decide _); [intros [= <- <-] _; by exists b|].
  apply (change_agrees full b); [|done]. intros w1. cbn [load_change]. rewrite Hh. by destruct context.
Qed.

Lemma set_level_agrees full b level id reported context (w w' : World) r :
  agree full b w -> set_level catalog level id reported context w = (r, w') ->
  match r with Ok _ => True | Err e => ~ store_error e end ->
  exists b', agree full b' w'.
Proof.
  intros Ha. unfold set_level. unfold m_bind at 1, m_get.
  destruct (bool_decide _); [intros [= <- <-] _; by exists b|].
  apply (change_agrees full b); [|done]. intros w1. by destruct context.
Qed.

(** The note of a mode is stored, or nothing is. *)
Lemma mode_note_holds id c (t t' : T) r b :
  lane_holds b t -> append_mode_note id c t = (r, t') ->
  match r with
  | Ok _ => exists x, lane_holds (b ++ [x]) t' /\ entry_kind x = KindCustom /\ entry_payload x = mode_payload c
  | Err _ => lane_holds b t'
  end.
Proof.
  intros Hb. unfold append_mode_note, m_bind, writable.
  destruct (sealed t); [by intros [= <- <-]|]. destruct (write_failed t); [by intros [= <- <-]|].
  unfold m_get, store_call.
  pose proof (append_holds t b {| new_entry_id := id; new_entry_kind := KindCustom;
    new_entry_payload := JObject (mode_payload c) |} _ Hb eq_refl (mode_payload_disjoint c)) as Ha.
  destruct (append_entry _ _ _) as [[x|e] s]; cbn [map_err]; [|by intros [= <- <-]].
  destruct Ha as (Hb' & Hk & Hp). unfold m_lift.
  destruct (note_message_ok (R := R) {| note_mode := change_mode c; note_delegated := delegated t |}
    (as_str (entry_id x)) (change_turn_id c) (entry_timestamp_ms x)) as [note Hnote].
  cbn [delegated set_store]. rewrite Hnote. unfold m_modify. intros [= <- <-]. by exists x.
Qed.

Lemma set_mode_agrees full b mode turn id reported (w w' : World) r :
  agree full b w -> set_mode catalog mode turn id reported w = (r, w') ->
  match r with Ok _ => True | Err e => ~ store_error e end ->
  exists b', agree full b' w'.
Proof.
  intros Ha. unfold set_mode. unfold m_bind at 1, m_get.
  destruct (bool_decide _); [intros [= <- <-] _; by exists b|].
  unfold m_bind at 1, fresh_id, m_lift. destruct (id_try_from "turn" turn) as [tn|e]; cbn [map_err];
    [|intros [= <- <-] _; by exists b].
  unfold m_bind at 1. destruct (id_try_from "entry" id) as [i|e]; cbn [map_err]; [|intros [= <- <-] _; by exists b].
  unfold m_bind at 1, on_transcript at 1.
  destruct (append_mode_note _ _ _) as [r1 t1] eqn:Hn. pose proof (mode_note_holds _ _ _ _ _ b (proj1 Ha) Hn) as Hb.
  destruct r1 as [[]|e]; [|intros [= <- <-] _; exists b; by apply (agree_same full b w)].
  destruct Hb as (x & Hb & Hk & Hp). pose proof (sync_holds _ _ Hb) as Hs.
  unfold m_bind at 1, on_transcript, transcript_sync, store_call. cbn [settings_transcript].
  destruct (sync _) as [[[]|e] s]; cbn [map_err]; [|by intros [= <- <-] []].
  intros [= <- <-] _. exists (b ++ [x]). destruct Ha as (_ & Hf & Hm). split; [done|]. cbn. split.
  - intros Hfull. by rewrite (chosen_by_note b x _ _ Hk Hp (Hf Hfull)).
  - by rewrite branch_mode_snoc, (mode_from_payload x _ Hk Hp).
Qed.

Lemma summary_entry_ok id p before summarize text :
  entry_ok no_setting (summary_entry_of id p before summarize text).
Proof.
  eexists. split; [done|]. split; [unfold disjoint_keys, entry_fields; repeat constructor; by simplify_map_eq|].
  cbn. intros x Hk _. split; [by split; rewrite Hk|]. apply no_mode_kind. by rewrite Hk.
Qed.

Definition commit_of (p : TreeNavigationPlan) (b : BeforeTree) (summary : option NewEntry) : NavigationCommit :=
  {| commit_new_leaf := plan_new_leaf p; commit_target := plan_target p;
     commit_summary := summary; commit_label := before_label b |}.

(** The lane after a move is on [leaf]'s branch with at most a summary behind
    it, and the mode and the tools are that branch's. *)
Definition landed (leaf : option EntryId) (w w' : World) : Prop :=
  exists b l s, branch_at leaf (settings_transcript w) = Ok b /\
    (Forall no_setting l /\ length l <= 1) /\ settled_on (b ++ l) w' /\ ToolSelection.restore b (settings_tools w) = Ok s /\
    selection (settings_tools w') = s /\
    settings_choices w' = with_mode (branch_mode b) (settings_choices w).

Definition unmoved (w w' : World) : Prop :=
  settings_choices w' = settings_choices w /\ settings_tools w' = settings_tools w.

Lemma move_settings_lands p before summary (w w' : World) r :
  store_wf (transcript_store (settings_transcript w)) ->
  match summary with Some e => entry_ok no_setting e | None => True end ->
  tools_update (move_settings (commit_of p before summary)) w = (r, w') ->
  match r with Ok _ => landed (plan_new_leaf p) w w' | Err _ => unmoved w w' end.
Proof.
  intros Hwf Hsum. unfold tools_update, move_settings. unfold m_bind at 1, m_get.
  unfold m_bind at 1, m_lift. cbn [commit_new_leaf commit_of].
  destruct (branch_at _ _) as [b|e] eqn:Hb; [|by intros [= <- <-]].
  unfold m_bind at 1. destruct (ToolSelection.restore b (settings_tools w)) as [s|e] eqn:Hs; [|by intros [= <- <-]].
  unfold m_bind at 1, on_transcript. destruct (commit_navigation _ _) as [[res|e] t'] eqn:Hc; [|by intros [= <- <-]].
  destruct (commit_navigation_holds (commit_of p before summary) _ _ b _ Hwf Hb Hsum Hc) as (l & Hl & Hb').
  intros [= <- <-]. by exists b, l, s.
Qed.

(** A move that was made, whether or not the call then succeeded. *)
Definition moved_to (target : EntryId) (moved : bool) (w w' : World) : Prop :=
  exists n, navigation_snapshot target (settings_transcript w) = Ok n /\
    moved = negb (bool_decide (old_leaf_id n = Some (entry_id (Transcript.target n)))) /\
    if moved then landed (plan_new_leaf (capture n)) w w' else w' = w.

Lemma navigate_lands target summarize around before generate id reported (w w' : World) r :
  store_wf (transcript_store (settings_transcript w)) ->
  navigate catalog target summarize around before generate id reported w = (r, w') ->
  match r with
  | Ok moved => moved_to target moved w w'
  | Err _ => unmoved w w' \/ moved_to target true w w'
  end.
Proof.
  intros Hwf. unfold navigate. unfold m_bind at 1, m_get. unfold m_bind at 1, m_lift at 1.
  destruct (navigation_snapshot target _) as [n|e] eqn:Hn; [|by intros [= <- <-]; left].
  cbv zeta. cbn [plan_old_leaf plan_target capture].
  destruct (bool_decide (old_leaf_id n = _)) eqn:Hsame; 
    [unfold unless; destruct (closing around); intros [= <- <-]; [by left|]; exists n; by rewrite Hsame|].
  unfold m_bind at 1, unless at 1. destruct (opening around); [by intros [= <- <-]; left|]. unfold m_ret at 1.
  set (p := capture n). set (b := before p).
  destruct (before_cancel b); [by intros [= <- <-]; left|]. unfold m_bind at 1, m_lift at 1.
  destruct (branch_summary generate p b summarize) as [text|e]; [|by intros [= <- <-]; left].
  assert (exists summary, match text with
    | None => m_ret None
    | Some text => let! entry_id := fresh_id "entry" id in
                   m_ret (Some (summary_entry_of entry_id p b summarize text))
    end w = (summary, w) /\
    match summary with Ok (Some e) => entry_ok no_setting e | _ => True end) as (summary & Hs & Hok).
  { destruct text as [text|]; [|by eexists]. unfold m_bind, fresh_id, m_lift.
    destruct (id_try_from "entry" id); eexists; (split; [done|]); [apply summary_entry_ok|done]. }
  unfold m_bind at 1. rewrite Hs. destruct summary as [summary|e]; [|by intros [= <- <-]; left].
  unfold m_bind at 1.
  destruct (tools_update _ w) as [r1 w1] eqn:Hm.
  assert (match r1 with Ok _ => landed (plan_new_leaf p) w w1 | Err _ => unmoved w w1 end) as Hl.
  { apply (move_settings_lands p b summary w w1 r1 Hwf); [by destruct summary|exact Hm]. }
  destruct r1 as [res|e]; [|by intros [= <- <-]; left].
  unfold m_bind, m_get. destruct (bool_decide (chosen_mode _ = _)); unfold unless;
    destruct (closing around); intros [= <- <-]; try right; exists n; by rewrite Hsame.
Qed.

Lemma navigate_root_lands around (w w' : World) r :
  store_wf (transcript_store (settings_transcript w)) -> navigate_root around w = (r, w') ->
  let at_root := settled_on [] w' /\ selection (settings_tools w') = selection_default /\
                 settings_choices w' = with_mode ModeDefault (settings_choices w) in
  match r with Ok _ => at_root | Err _ => unmoved w w' \/ at_root end.
Proof.
  intros Hwf. unfold navigate_root, tools_update. unfold m_bind, on_transcript.
  destruct (clear_navigation _) as [[old|e] t'] eqn:Hc; [|by intros [= <- <-]; left].
  apply (clear_navigation_holds _ _ _ Hwf) in Hc. cbv beta iota zeta. unfold unless.
  destruct (closing around); intros [= <- <-]; [by right|done].
Qed.

(** *** Runs *)

Inductive settings_op : Type :=
| SetModel (provider model : string) (signed_in : option ModelError) (id : string)
    (reported : bool) (context : option KernelError)
| SetLevel (level : ThinkingLevel) (id : string) (reported : bool) (context : option KernelError)
| SetMode (mode : SessionMode) (turn id : string) (reported : bool)
| Navigate (target : EntryId) (summarize : bool) (around : Surroundings) (before : TreeNavigationPlan -> BeforeTree)
    (generate : list (AgentMessage R) -> string -> result string KernelError) (id : string) (reported : bool)
| NavigateRoot (around : Surroundings)
| Write (op : transcript_op (R := R)).

Definition unit_of {A} (c : M World KernelError A) : M World KernelError unit := let! _ := c in m_ret tt.
Definition run_settings_op (op : settings_op) : M World KernelError unit :=
  match op with
  | SetModel p m signed i rep context => unit_of (set_model catalog p m signed i rep context)
  | SetLevel l i rep context => unit_of (set_level catalog l i rep context)
  | SetMode m turn i rep => unit_of (set_mode catalog m turn i rep)
  | Navigate target summarize around before generate i rep =>
      unit_of (navigate catalog target summarize around before generate i rep)
  | NavigateRoot around => unit_of (navigate_root around)
  | Write op => on_transcript (run_transcript_op op)
  end.

Definition navigates (op : settings_op) : bool :=
  match op with Navigate _ _ _ _ _ _ _ | NavigateRoot _ => true | _ => false end.
Definition settings_op_ok (op : settings_op) : Prop :=
  match op with Write op => transcript_op_ok op /\ settingless op | _ => True end.

(** The failures after which live settings and store may differ: a change the
    store failed at, a move that left the transcript changed. *)
Definition told (op : settings_op) (w : World) (r : result unit KernelError) (w' : World) : Prop :=
  match op, r with
  | _, Ok _ => True
  | Write _, _ => True
  | (Navigate _ _ _ _ _ _ _ | NavigateRoot _), Err _ => settings_transcript w' = settings_transcript w
  | _, Err e => ~ store_error e
  end.

Inductive settings_run : World -> list settings_op -> World -> Prop :=
| settings_run_nil w : settings_run w [] w
| settings_run_cons w op r w1 ops w2 :
    settings_op_ok op -> run_settings_op op w = (r, w1) -> told op w r w1 ->
    settings_run w1 ops w2 -> settings_run w (op :: ops) w2.

Lemma unit_of_run {A} (c : M World KernelError A) w r w' :
  unit_of c w = (r, w') -> exists ra, c w = (ra, w') /\
    match ra with Ok _ => r = Ok tt | Err e => r = Err e end.
Proof.
  unfold unit_of, m_bind. destruct (c w) as [[a|e] w1]; intros [= <- <-]; eexists; by split.
Qed.

Lemma landed_agrees leaf (w w' : World) : landed leaf w w' -> exists b, agree false b w'.
Proof.
  intros (b & l & s & _ & [Hl _] & Hb & _ & _ & Hc). exists (b ++ l). split; [done|]. split; [done|].
  rewrite Hc, mode_none; [done|]. eapply Forall_impl; [exact Hl|by intros ? []].
Qed.

Lemma unmoved_agrees full b (w w' : World) :
  agree full b w -> unmoved w w' -> settings_transcript w' = settings_transcript w -> agree full b w'.
Proof. intros Ha [Hc _] Ht. apply (agree_same full b w); [|done..]. unfold settled_on. rewrite Ht. apply Ha. Qed.

Lemma step_agrees full b op (w w' : World) r :
  settings_op_ok op -> run_settings_op op w = (r, w') -> told op w r w' -> agree full b w ->
  exists b', agree (full && negb (navigates op)) b' w'.
Proof.
  intros Hok Hrun Htold Ha. pose proof (proj1 (proj1 Ha)) as Hwf.
  destruct op as [p m signed i rep context|l i rep context|m turn i rep|target summarize around before generate i rep|around|op];
    cbn [navigates negb]; rewrite ?andb_true_r, ?andb_false_r; cbn [run_settings_op] in Hrun;
    try (apply unit_of_run in Hrun as (ra & Hrun & Hra)).
  - eapply set_model_agrees; [done..|]. destruct ra; [done|]. by subst r.
  - eapply set_level_agrees; [done..|]. destruct ra; [done|]. by subst r.
  - eapply set_mode_agrees; [done..|]. destruct ra; [done|]. by subst r.
  - assert (agree false b w) as Ha' by (split; [apply Ha|split; [done|apply Ha]]).
    assert (forall moved, moved_to target moved w w' -> exists b', agree false b' w') as Hl.
    { intros moved (n & _ & _ & Hl). destruct moved; [by eapply landed_agrees|]. subst w'. by exists b. }
    pose proof (navigate_lands _ _ _ _ _ _ _ _ _ _ Hwf Hrun) as Hn. destruct ra as [moved|e]; subst r; [by eapply Hl|].
    destruct Hn as [Hn|Hn]; [|by eapply Hl]. exists b. by apply (unmoved_agrees false b w).
  - pose proof (navigate_root_lands _ _ _ _ Hwf Hrun) as Hl.
    assert (settled_on [] w' /\ selection (settings_tools w') = selection_default /\
            settings_choices w' = with_mode ModeDefault (settings_choices w) -> exists b', agree false b' w') as Hroot.
    { intros (Hb & _ & Hc). exists []. split; [done|]. split; [done|]. by rewrite Hc. }
    destruct ra as [old|e]; subst r; [by apply Hroot|]. destruct Hl as [Hl|Hl]; [|by apply Hroot].
    exists b. apply (unmoved_agrees false b w); [|done..]. split; [apply Ha|split; [done|apply Ha]].
  - destruct Hok as [Hok Hs]. destruct (adds_transcript_op op Hok Hs _ _ (proj1 Ha)) as (l & Hl & Hb).
    unfold on_transcript in Hrun. destruct (run_transcript_op op _) as [r1 t1]. injection Hrun as <- <-.
    exists (b ++ l). by apply (agree_plain full b l w).
Qed.

Lemma run_agrees full b (w w' : World) ops :
  settings_run w ops w' -> agree full b w ->
  exists b', agree (full && forallb (fun op => negb (navigates op)) ops) b' w'.
Proof.
  intros Hrun. revert full b. induction Hrun as [w|w op r w1 ops w2 Hok Hop Htold _ IH]; intros full b Ha.
  - exists b. by rewrite andb_true_r.
  - destruct (step_agrees full b op w w1 r Hok Hop Htold Ha) as [b' Ha'].
    destruct (IH _ _ Ha') as [b'' H'']. exists b''. cbn [forallb]. by rewrite andb_assoc.
Qed.

Lemma load_settings_agree (w : World) c :
  store_wf (transcript_store (settings_transcript w)) ->
  load_settings (transcript_store (settings_transcript w)) (transcript_lane (settings_transcript w)) catalog active = Ok c ->
  settings_choices w = c -> exists b, agree true b w.
Proof.
  intros Hwf Hl Hc.
  assert (exists b, lane_holds b (settings_transcript w)) as [b Hb].
  { unfold load_settings in Hl. unfold lane_holds, lane_branch. destruct (lane _ _) as [leaf|]; [|by eexists].
    destruct (branch _ leaf) as [b|]; [by exists b|done]. }
  rewrite (load_settings_branch _ b Hb) in Hl. exists b. subst c. split; [done|].
  split; [done|by apply chosen_by_mode].
Qed.
End Runs.

(** ** A child's start *)

Section Children.
Context {R : RigTypes} {CC : ContentCodec R} {S : Type} `{SessionStoreLaws S} `{ModelHandle Handle}.
Context {F : Floats}.
Variable catalog : ModelCatalog Handle.
Variable active : Handle.
Abbreviation World := (SettingsWorld (Handle := Handle) (R := R) (S := S)).
Abbreviation T := (SessionTranscript R S).

Lemma commit_setting_holds e p (t t' : T) b :
  lane_holds b t -> new_entry_payload e = JObject p -> disjoint_keys entry_fields p ->
  commit_setting e t = (Ok tt, t') ->
  exists x, lane_holds (b ++ [x]) t' /\ entry_kind x = new_entry_kind e /\ entry_payload x = p.
Proof.
  intros Hb Hp Hd. unfold commit_setting, m_bind, writable.
  destruct (sealed t); [done|]. destruct (write_failed t); [done|]. unfold m_get, store_try.
  pose proof (append_holds t b e p Hb Hp Hd) as Ha.
  destruct (append_entry _ _ _) as [[x|err] s]; [|done]. destruct Ha as (Hb' & Hk & Hpx).
  pose proof (sync_holds _ _ Hb') as Hs. cbn [transcript_store set_store] in Hs |- *.
  destruct (sync s) as [[[]|err] s']; [|done]. unfold m_ret. intros [= <-]. by exists x.
Qed.

Lemma commit_change_holds b c id change (w w1 : World) :
  settled_on b w -> chosen_by catalog active b = Ok c -> commit_change id change w = (Ok tt, w1) ->
  settings_choices w1 = settings_choices w /\ settings_tools w1 = settings_tools w /\
  exists b', settled_on b' w1 /\ chosen_by catalog active b' = Ok (load_change catalog c change).
Proof.
  intros Hb Hc. unfold commit_change, m_bind, fresh_id, m_lift.
  destruct (id_try_from "entry" id) as [i|e]; cbn [map_err]; [|done]. unfold on_transcript.
  destruct (setting_entry_plain i change) as (p & Hp & Hd).
  destruct (commit_setting _ _) as [[[]|e] t1] eqn:Hs; [|done].
  destruct (commit_setting_holds _ _ _ _ b Hb Hp Hd Hs) as (x & Hb' & Hk & Hpx).
  intros [= <-]. split; [done|]. split; [done|]. exists (b ++ [x]). split; [done|].
  apply (chosen_by_setting catalog active b x i change c Hk); [by rewrite Hpx|done].
Qed.

Lemma adopt_tools_holds b c id s (w w' : World) :
  settled_on b w -> chosen_by catalog active b = Ok c -> adopt_tools id s w = (Ok tt, w') ->
  settings_choices w' = settings_choices w /\ selection (settings_tools w') = s /\
  exists b', settled_on b' w' /\ chosen_by catalog active b' = Ok c.
Proof.
  intros Hb Hc. unfold adopt_tools, adopt, update. unfold m_bind at 1, m_get. unfold m_bind at 1, set_tools.
  unfold ToolSelection.persist. destruct (id_try_from "entry" id) as [i|e]; [|done].
  cbn [ToolSelection.transcript ToolSelection.tools].
  destruct (commit_setting _ _) as [[[]|e] t1] eqn:Hs; [|done]. intros [= <-].
  split; [done|]. split; [done|].
  unfold selection_payload in Hs. eapply commit_setting_holds in Hs; [|exact Hb|reflexivity|].
  2: { unfold disjoint_keys, entry_fields. repeat constructor; by simplify_map_eq. }
  destruct Hs as (x & Hb' & Hk & Hpx).
  exists (b ++ [x]). split; [done|]. apply chosen_by_plain; [|done]. apply Forall_singleton. cbn in Hk.
  split; [by split; rewrite Hk|]. apply no_mode_kind. by rewrite Hk.
Qed.

Lemma apply_snapshot_holds b (a : AgentSnapshot) i1 i2 turn i3 i4 (w w' : World) h :
  agree catalog active true b w -> chosen_mode (settings_choices w) = ModeDefault ->
  let limits := full_limits (profile (agent_model a)) in
  catalog_resolve catalog (profile_provider_id limits) (profile_model_id limits) = Some h ->
  apply_snapshot a i1 i2 turn i3 i4 w = (Ok tt, w') ->
  exists b' c, settled_on b' w' /\ chosen_by catalog active b' = Ok c /\
    c = {| chosen_model := h; chosen_level := agent_level a; chosen_mode := agent_mode a |} /\
    selection (settings_tools w') = agent_tools a /\
    settings_choices w' = with_model (agent_model a) c.
Proof.
  intros (Hb & Hf & _) Hmode limits Hh. unfold apply_snapshot. fold limits.
  specialize (Hf eq_refl). unfold m_bind at 1.
  destruct (commit_change i1 _ w) as [[[]|e] w1] eqn:H1'; [|done].
  destruct (commit_change_holds b _ _ _ _ _ Hb Hf H1') as (Hc1 & Ht1 & b1 & Hb1 & Hf1).
  cbn [load_change] in Hf1. rewrite Hh in Hf1. unfold m_bind at 1.
  destruct (commit_change i2 _ w1) as [[[]|e] w2] eqn:H2'; [|done].
  destruct (commit_change_holds b1 _ _ _ _ _ Hb1 Hf1 H2') as (Hc2 & Ht2 & b2 & Hb2 & Hf2).
  cbn [load_change] in Hf2. unfold m_bind at 1, choose at 1. unfold m_bind at 1, choose at 1.
  cbn [settings_transcript settings_tools settings_choices published].
  set (w3 := {| settings_transcript := settings_transcript w2 |}). unfold m_bind at 1.
  set (c := {| chosen_model := h; chosen_level := agent_level a; chosen_mode := agent_mode a |}).
  assert (settings_choices w2 = settings_choices w) as Hc by congruence.
  set (note := if bool_decide (agent_mode a = ModePlan) then _ else _).
  assert (forall w4, note w3 = (Ok tt, w4) -> settings_choices w4 = with_model (agent_model a) c /\
    exists b3, settled_on b3 w4 /\ chosen_by catalog active b3 = Ok c) as Hnote.
  { intros w4. unfold note. case_bool_decide as Hplan.
    - unfold m_bind, fresh_id, m_lift. destruct (id_try_from "turn" turn) as [tn|e]; cbn [map_err]; [|done].
      destruct (id_try_from "entry" i3) as [i|e]; cbn [map_err]; [|done]. unfold on_transcript.
      destruct (append_mode_note _ _ _) as [[[]|e] t4] eqn:Hn; [|done].
      destruct (mode_note_holds _ _ _ _ _ b2 Hb2 Hn) as (x & Hb3 & Hk & Hp). intros [= <-].
      split; [done|]. exists (b2 ++ [x]). split; [done|]. by rewrite (chosen_by_note catalog active b2 x _ _ Hk Hp Hf2).
    - assert (agent_mode a = ModeDefault) as Hd by (by destruct (agent_mode a)).
      intros [= <-]. cbn. rewrite Hc. unfold with_level, with_model, c. cbn. rewrite Hmode, Hd. split; [done|].
      exists b2. split; [done|]. rewrite Hf2. unfold with_level, with_model. cbn. by rewrite Hmode. }
  destruct (note w3) as [[[]|e] w4]; [|done]. destruct (Hnote w4 eq_refl) as (Hc4 & b3 & Hb3 & Hf3).
  intros Had. destruct (adopt_tools_holds b3 c _ _ _ _ Hb3 Hf3 Had) as (Hc5 & Hs5 & b5 & Hb5 & Hf5).
  exists b5, c. split_and!; [done..|]. congruence.
Qed.
End Children.

(** ** What the settings promise *)

Section Promises.
Context {R : RigTypes} {CC : ContentCodec R} {S : Type} `{SessionStoreLaws S} `{ModelHandle Handle}.
Context {F : Floats}.
Variable catalog : ModelCatalog Handle.
Variable active : Handle.
Abbreviation World := (SettingsWorld (Handle := Handle) (R := R) (S := S)).

(** What the kernel would start the session with, were it opened again. *)
Definition reopened (w : World) : result (Choices (Handle := Handle)) KernelError :=
  load_settings (transcript_store (settings_transcript w)) (transcript_lane (settings_transcript w)) catalog active.

(** C28: from a restored session, whatever changes of model, thinking level and
    mode, moves through the tree and writes without settings follow, the live
    mode is the one a restart restores; without a move, so are the model and the
    thinking level.  Calls may be refused or fail, but for a change that fails
    in the store and a move that fails after it changed the transcript. *)
Theorem settings_survive_restart (w w' : World) ops :
  store_wf (transcript_store (settings_transcript w)) ->
  reopened w = Ok (settings_choices w) -> settings_run catalog w ops w' ->
  (forall c, reopened w' = Ok c -> chosen_mode c = chosen_mode (settings_choices w')) /\
  (forallb (fun op => negb (navigates op)) ops = true -> reopened w' = Ok (settings_choices w')).
Proof.
  intros Hwf Hr Hrun. destruct (load_settings_agree catalog active w _ Hwf Hr eq_refl) as [b Ha].
  destruct (run_agrees catalog active true b w w' ops Hrun Ha) as (b' & Hb & Hf & Hm).
  unfold reopened. rewrite (load_settings_branch catalog active _ b' Hb). split.
  - intros c Hc. by rewrite (chosen_by_mode _ _ _ _ Hc).
  - intros Hn. apply Hf. by rewrite Hn.
Qed.

(** What a call that moves the lane to [target] leaves, if it got that far. *)
Definition at_target (target : EntryId) (moved : bool) (w w' : World) : Prop :=
  exists n, navigation_snapshot target (settings_transcript w) = Ok n /\
  let goal := Transcript.target n in
  moved = negb (bool_decide (old_leaf_id n = Some (entry_id goal))) /\
  if negb moved then w' = w
  else exists b l s,
    branch_at (if is_user_entry (R := R) goal then parent_id goal else Some (entry_id goal))
      (settings_transcript w) = Ok b /\
    lane_branch (transcript_store (settings_transcript w')) (transcript_lane (settings_transcript w')) = Ok (b ++ l) /\
    length l <= 1 /\ Forall (fun e => mode_from_entry e = None /\ entry_kind e <> KindModelChange /\
                                     entry_kind e <> KindThinkingLevelChange) l /\
    settings_choices w' = with_mode (branch_mode b) (settings_choices w) /\
    ToolSelection.restore b (settings_tools w) = Ok s /\ selection (settings_tools w') = s.

(** C29: a move through the tree that succeeds leaves the lane on the branch of the target, or
    of what a user's message answers, with at most a summary behind it; the
    mode and the tools are that branch's, the model and the thinking level as
    they were. A move to where the lane is does nothing; one that fails has
    left every setting, or has made the whole move. *)
Theorem navigation_lands target summarize around before generate id reported (w w' : World) r :
  store_wf (transcript_store (settings_transcript w)) ->
  navigate catalog target summarize around before generate id reported w = (r, w') ->
  match r with
  | Ok moved => at_target target moved w w'
  | Err _ => (settings_choices w' = settings_choices w /\ settings_tools w' = settings_tools w) \/
             at_target target true w w'
  end.
Proof.
  intros Hwf Hn. pose proof (navigate_lands catalog _ _ _ _ _ _ _ _ _ _ Hwf Hn) as Hl.
  assert (forall moved, moved_to target moved w w' -> at_target target moved w w') as Ht.
  { intros moved (n & Hs & Hm & Hm'). exists n. split; [done|]. cbv zeta. split; [done|].
    destruct moved; cbn [negb]; [|exact Hm'].
    destruct Hm' as (b & l & s & Hb & [Hp Hlen] & [_ Hb'] & Hr & Hsel & Hc). exists b, l, s.
    assert (Forall (fun e => mode_from_entry e = None /\ entry_kind e <> KindModelChange /\
                             entry_kind e <> KindThinkingLevelChange) l) as Hp'
      by (eapply Forall_impl; [exact Hp|by intros e [[? ?] ?]]).
    by split_and!. }
  destruct r as [moved|e]; [by apply Ht|]. destruct Hl as [Hl|Hl]; [by left|right; by apply Ht].
Qed.

(** A new session that takes over an owner's settings works with the owner's
    model, thinking level, mode and tools, and a restart restores them, for a
    model of the catalog. *)
Theorem child_takes_over b (a : AgentSnapshot) i1 i2 turn i3 i4 (w w' : World) :
  store_wf (transcript_store (settings_transcript w)) ->
  lane_branch (transcript_store (settings_transcript w)) (transcript_lane (settings_transcript w)) = Ok b ->
  reopened w = Ok (settings_choices w) -> chosen_mode (settings_choices w) = ModeDefault ->
  let limits := full_limits (profile (agent_model a)) in
  catalog_resolve catalog (profile_provider_id limits) (profile_model_id limits) = Some (agent_model a) ->
  apply_snapshot a i1 i2 turn i3 i4 w = (Ok tt, w') ->
  agent_snapshot w' = a /\ reopened w' = Ok (settings_choices w').
Proof.
  intros Hwf Hb Hr Hmode limits Hh Hap.
  assert (agree catalog active true b w) as Ha.
  { unfold reopened in Hr. rewrite (load_settings_branch catalog active _ b (conj Hwf Hb)) in Hr.
    split; [done|]. split; [done|by apply chosen_by_mode in Hr]. }
  destruct (apply_snapshot_holds catalog active b a i1 i2 turn i3 i4 w w' (agent_model a) Ha Hmode Hh Hap)
    as (b' & c & Hb' & Hc & -> & Hs & Hch).
  unfold reopened. rewrite (load_settings_branch catalog active _ b' Hb'), Hc. unfold agent_snapshot.
  rewrite Hs, Hch. by destruct a.
Qed.
End Promises.

(** ** A sample session *)

#[export] Instance sample_model_handle : ModelHandle FullProfile :=
  {| profile := fun p => p; login_method := fun _ => None |}.
Definition sample_full_profile (model_id : string) : FullProfile :=
  {| full_limits := {| profile_provider_id := "p"; profile_model_id := model_id; context_tokens := 100000;
                       max_output_tokens := 100; request_max_tokens := 100 |};
     full_display_name := model_id; full_input := [TextInput]; full_prompt_cache := None |}.
Definition two_models : ModelCatalog FullProfile :=
  {| active_key := "p/m";
     models := <["p/m" := sample_full_profile "m"]> {["p/n" := sample_full_profile "n"]} |}.

Abbreviation SampleSettings := (SettingsWorld (Handle := FullProfile) (R := sample_rig) (S := JsonlSessionStore)).
Definition settings_over (io : nat -> io_event) : SampleSettings :=
  {| settings_transcript := sample_transcript io; settings_tools := sample_catalog;
     settings_choices := start_choices (sample_full_profile "m"); published := [] |}.

Definition run_ops (ops : list (settings_op (R := sample_rig))) (w : SampleSettings) : SampleSettings :=
  foldl (fun w op => (run_settings_op two_models op w).2) w ops.
Fixpoint all_succeed (ops : list (settings_op (R := sample_rig))) (w : SampleSettings) : bool :=
  match ops with
  | [] => true
  | op :: rest => is_ok (run_settings_op two_models op w).1 && all_succeed rest (run_settings_op two_models op w).2
  end.

Lemma all_succeed_run ops : forall w,
  Forall settings_op_ok ops -> all_succeed ops w = true -> settings_run two_models w ops (run_ops ops w).
Proof.
  induction ops as [|op ops IH]; intros w Hok Hs; [constructor|]. apply Forall_cons in Hok as [Hop Hok].
  cbn in Hs. apply andb_true_iff in Hs as [H1 H2].
  destruct (run_settings_op two_models op w) as [r w1] eqn:Hrun. cbn [fst snd] in *.
  apply (settings_run_cons two_models w op r w1); [done|done| |].
  - destruct r; [|done]. by destruct op.
  - specialize (IH w1 Hok H2). unfold run_ops in *. cbn [foldl]. by rewrite Hrun.
Qed.

Definition sample_changes : list (settings_op (R := sample_rig)) :=
  [ SetModel "p" "n" None "entry-1" true None; SetMode ModePlan "turn-1" "entry-2" true;
    Write (TSetName (Some "a session")); SetLevel High "entry-3" true None ].

Lemma settings_survive_restart_witness :
  let w := run_ops sample_changes (settings_over (fun _ => IoDone)) in
  reopened two_models (sample_full_profile "m") w = Ok (settings_choices w) /\
  settings_choices w = {| chosen_model := sample_full_profile "n"; chosen_level := High; chosen_mode := ModePlan |}.
Proof.
  intros w. split; [|vm_compute; reflexivity].
  apply (settings_survive_restart two_models (sample_full_profile "m") (settings_over (fun _ => IoDone)) w sample_changes).
  - apply sample_store_wf.
  - reflexivity.
  - apply all_succeed_run; [by repeat constructor|vm_compute; reflexivity].
  - reflexivity.
Defined.

(** A move back to the first change: the mode is that branch's again, and the
    model and the thinking level stay. *)
Definition moved_back : result bool KernelError * SampleSettings :=
  navigate two_models (MkId "entry-1" I) false {| opening := None; closing := None |}
    (fun _ => {| before_cancel := false; before_summary := None; before_instructions := None;
                 before_replace := None; before_label := None |})
    (fun _ _ => Err SessionClosing) "entry-9" true (run_ops sample_changes (settings_over (fun _ => IoDone))).

Lemma navigation_lands_witness :
  moved_back.1 = Ok true /\ settings_choices moved_back.2 <> settings_choices (run_ops sample_changes (settings_over (fun _ => IoDone))) /\
  exists n, navigation_snapshot (MkId "entry-1" I) (settings_transcript (run_ops sample_changes (settings_over (fun _ => IoDone)))) = Ok n.
Proof.
  split; [vm_compute; reflexivity|]. split; [vm_compute; discriminate|].
  pose proof (navigation_lands two_models (MkId "entry-1" I) false {| opening := None; closing := None |}
    (fun _ => {| before_cancel := false; before_summary := None; before_instructions := None;
                 before_replace := None; before_label := None |})
    (fun _ _ => Err SessionClosing) "entry-9" true (run_ops sample_changes (settings_over (fun _ => IoDone)))
    moved_back.2 (Ok true)) as Hl.
  destruct Hl as (n & Hn & _).
  - assert (store_wf (transcript_store (settings_transcript (settings_over (fun _ => IoDone))))) as Hwf by apply sample_store_wf.
    destruct (load_settings_agree two_models (sample_full_profile "m") (settings_over (fun _ => IoDone)) _ Hwf eq_refl eq_refl) as [b Ha].
    eapply (run_agrees two_models (sample_full_profile "m") true b _ _ sample_changes) in Ha as (b' & [Hw _] & _); [exact Hw|].
    apply all_succeed_run; [by repeat constructor|vm_compute; reflexivity].
  - assert (moved_back.1 = Ok true) as Hok by (vm_compute; reflexivity). rewrite <- Hok. apply surjective_pairing.
  - by exists n.
Defined.

Lemma child_takes_over_witness :
  let owner := agent_snapshot (run_ops sample_changes (settings_over (fun _ => IoDone))) in
  let r := apply_snapshot owner "entry-1" "entry-2" "turn-1" "entry-3" "entry-4" (settings_over (fun _ => IoDone)) in
  r.1 = Ok tt /\ agent_snapshot r.2 = owner.
Proof.
  intros owner r. assert (r.1 = Ok tt) as Hok by (vm_compute; reflexivity). split; [done|].
  apply (child_takes_over two_models (sample_full_profile "m") [] owner "entry-1" "entry-2" "turn-1" "entry-3" "entry-4"
    (settings_over (fun _ => IoDone)) r.2 (sample_store_wf _) eq_refl eq_refl eq_refl); [vm_compute; reflexivity|].
  rewrite <- Hok. apply surjective_pairing.
Defined.

(** A move changes the live mode only: opened again, the session has another
    model and thinking level than it had. *)
Example navigation_keeps_model :
  chosen_model <$> ok (reopened two_models (sample_full_profile "m") moved_back.2) = Some (sample_full_profile "n") /\
  chosen_level <$> ok (reopened two_models (sample_full_profile "m") moved_back.2) = Some Medium /\
  chosen_level (settings_choices moved_back.2) = High.
Proof. vm_compute. done. Qed.

(** A mode whose store fails to sync is in the context and on the branch, and
    the gate of calls still has the old one. *)
Definition unsynced_mode : result SessionMode KernelError * SampleSettings :=
  set_mode two_models ModePlan "turn-1" "entry-1" true
    (settings_over (fun n => match n with 0%nat => IoDone | _ => IoFailed 0 0 end)).
Example unsynced_mode_differs :
  unsynced_mode.1 = Err (Store Io) /\
  chosen_mode (settings_choices unsynced_mode.2) = ModeDefault /\
  chosen_mode <$> ok (reopened two_models (sample_full_profile "m") unsynced_mode.2) = Some ModePlan /\
  List.map stated_mode (history (settings_transcript unsynced_mode.2)) = [Some ModePlan].
Proof. vm_compute. done. Qed.

(** ** Catalogs *)

Section Catalogs.
Context `{ModelHandle Handle}.

Lemma index_models_spec l : forall m indexed,
  index_models (Handle := Handle) m l = Ok indexed ->
  NoDup (handle_key <$> l) /\ (forall h, h ∈ l -> m !! handle_key h = None) /\
  forall k h, indexed !! k = Some h <-> m !! k = Some h \/ (h ∈ l /\ k = handle_key h).
Proof.
  induction l as [|x l IH]; cbn; intros m indexed.
  - intros [= ->]. split; [constructor|]. split; [by intros h ?%elem_of_nil|]. intros k h. split; [by left|].
    intros [?|[?%elem_of_nil _]]; done.
  - destruct (m !! handle_key x) eqn:Hx; [done|]. intros Hi. destruct (IH _ _ Hi) as (Hnd & Hfresh & Hin).
    assert (forall h, h ∈ l -> m !! handle_key h = None /\ handle_key h <> handle_key x) as Hne.
    { intros h Hh. specialize (Hfresh h Hh). apply lookup_insert_None in Hfresh as [? ?]. by split. }
    split.
    { constructor; [|done]. intros (h & Hk & Hh)%list_elem_of_fmap. by destruct (Hne h Hh). }
    split. { intros h [->|Hh]%elem_of_cons; [done|by apply Hne]. }
    intros k h. rewrite Hin, elem_of_cons. destruct (decide (k = handle_key x)) as [->|Hk].
    + rewrite lookup_insert_eq. split.
      * intros [[= <-]|[Hh Heq]]; [right; split; [by left|done]|]. by destruct (Hne h Hh).
      * intros [?|[[->|Hh] Heq]]; [congruence|by left|]. by destruct (Hne h Hh).
    + rewrite lookup_insert_ne by done. split; [intros [?|[? ?]]; [by left|right; split; [by right|done]]|].
      intros [?|[[->|?] ?]]; [by left|done|by right].
Qed.

(** A catalog that can be built always has its active model, and resolves each of its models by
    its own profile. *)
Lemma catalog_new_resolves provider model l c :
  catalog_new (Handle := Handle) provider model l = Ok c ->
  is_Some (catalog_active c) /\ catalog_active c = catalog_resolve c provider model /\
  NoDup (handle_key <$> l) /\
  forall h, h ∈ l -> let p := full_limits (profile h) in
    catalog_resolve c (profile_provider_id p) (profile_model_id p) = Some h.
Proof.
  unfold catalog_new. destruct (index_models ∅ l) as [m|e] eqn:Hm; [|done]. cbn [result_bind].
  destruct (m !! model_key provider model) as [h|] eqn:Hh; [|done]. intros [= <-].
  destruct (index_models_spec _ _ _ Hm) as (Hnd & _ & Hin).
  unfold catalog_active, catalog_resolve. cbn. rewrite Hh. split; [by eexists|]. split; [done|]. split; [done|].
  intros h' Hh'. apply Hin. by right.
Qed.
End Catalogs.

(** ** Images *)

Section Images.
Context {R : RigTypes}.

Definition shown_blocks (c : MessageContent R) : list ContentBlock :=
  match c with
  | User blocks | ToolResult _ blocks _ _ _ _ => blocks
  | ExpandedUser e => model_blocks e
  | Extension x => if include_in_context x then ext_blocks x else []
  | _ => []
  end.

Definition is_text (text : string) (b : ContentBlock) : bool :=
  match b with Message.Text t => String.eqb t text | _ => false end.

Lemma adapt_blocks_spec placeholder l : forall previous,
  let r := adapt_blocks placeholder previous l in
  (forall b, b ∈ r.2 -> is_image b = false) /\
  r.1 = existsb is_image l /\ (r.1 = false -> r.2 = l) /\
  List.filter (fun b => negb (is_text placeholder b)) r.2 =
    List.filter (fun b => negb (is_image b) && negb (is_text placeholder b)) l.
Proof.
  induction l as [|b l IH]; intros previous; cbn; [split; [by intros b ?%elem_of_nil|done]|].
  destruct (is_image b) eqn:Hb; cbn.
  - specialize (IH true). destruct (adapt_blocks placeholder true l) as [changed l']. cbn in IH |- *.
    destruct IH as (Hno & Hc & _ & Hf). split; [|split; [done|split; [done|]]].
    + destruct previous; [done|]. intros x [->|Hx]%elem_of_cons; [done|by apply Hno].
    + destruct previous; [done|]. cbn. by rewrite String.eqb_refl.
  - set (previous' := match b with Message.Text _ => _ | _ => _ end).
    specialize (IH previous'). destruct (adapt_blocks placeholder previous' l) as [changed l']. cbn in IH |- *.
    destruct IH as (Hno & Hc & Hs & Hf). split; [|split; [done|split]].
    + intros x [->|Hx]%elem_of_cons; [done|by apply Hno].
    + intros Hch. by rewrite Hs.
    + destruct (negb (is_text placeholder b)); by rewrite Hf.
Qed.

Lemma adapt_content_spec (c : MessageContent R) :
  (forall b, b ∈ shown_blocks (adapt_content c).2 -> is_image b = false) /\
  (adapt_content c).1 = existsb is_image (shown_blocks c) /\
  ((adapt_content c).1 = false -> (adapt_content c).2 = c).
Proof.
  assert (forall ph l, let r := adapt_blocks ph false l in
    (forall b, b ∈ r.2 -> is_image b = false) /\ r.1 = existsb is_image l /\ (r.1 = false -> r.2 = l)) as Hb.
  { intros ph l. destruct (adapt_blocks_spec ph l false) as (? & ? & ? & _). by split_and!. }
  unfold adapt_content, shown_blocks.
  destruct c as [|blocks|e| |i blocks error details output cancelled| |x| |];
    try (split; [by intros b ?%elem_of_nil|done]).
  - specialize (Hb USER_IMAGE_PLACEHOLDER blocks). destruct (adapt_blocks _ _ _) as [ch l]. cbn in Hb |- *.
    destruct Hb as (? & ? & Hs). split_and!; [done..|]. intros Hch. by rewrite Hs.
  - specialize (Hb USER_IMAGE_PLACEHOLDER (model_blocks e)). destruct (adapt_blocks _ _ _) as [ch l]. cbn in Hb |- *.
    destruct Hb as (? & ? & Hs). split_and!; [done..|]. intros Hch. rewrite Hs by done. by destruct e.
  - specialize (Hb TOOL_IMAGE_PLACEHOLDER blocks). destruct (adapt_blocks _ _ _) as [ch l]. cbn in Hb |- *.
    destruct Hb as (? & ? & Hs). split_and!; [done..|]. intros Hch. by rewrite Hs.
  - destruct (include_in_context x) eqn:Hx; [|cbn; rewrite Hx; split; [by intros b ?%elem_of_nil|done]].
    specialize (Hb USER_IMAGE_PLACEHOLDER (ext_blocks x)). destruct (adapt_blocks _ _ _) as [ch l]. cbn in Hb |- *.
    destruct Hb as (? & ? & Hs). split_and!; [done..|]. intros Hch. rewrite Hs by done. rewrite <- Hx. by destruct x.
Qed.

(** A model without images is sent none; a message without one is sent as it is, and
    the answer tells whether there was any. *)
Lemma adapt_input_text_only p (messages : list (AgentMessage R)) :
  supports p ImageInput = false ->
  let r := adapt_input p messages in
  (forall m b, m ∈ r.2 -> b ∈ shown_blocks (content m) -> is_image b = false) /\
  length r.2 = length messages /\
  (forall i m, messages !! i = Some m -> existsb is_image (shown_blocks (content m)) = false -> r.2 !! i = Some m) /\
  (r.1 = true <-> exists m b, m ∈ messages /\ b ∈ shown_blocks (content m) /\ is_image b = true).
Proof.
  intros Hp. unfold adapt_input. rewrite Hp. cbn [fst snd]. split_and!.
  - intros m b (m' & -> & _)%list_elem_of_fmap Hb. cbn in Hb. by apply adapt_content_spec in Hb.
  - apply length_fmap.
  - intros i m Hm Hno. rewrite list_lookup_fmap, Hm. cbn. f_equal.
    destruct (adapt_content_spec (content m)) as (_ & Hc & Hs). rewrite Hs by congruence. by destruct m.
  - rewrite existsb_exists. setoid_rewrite <- list_elem_of_In. split.
    + intros (c & (m & -> & Hm)%list_elem_of_fmap & Hc). destruct (adapt_content_spec (content m)) as (_ & Hch & _).
      unfold Datatypes.id in Hc. rewrite Hch, existsb_exists in Hc. destruct Hc as (b & Hb%list_elem_of_In & Hi). by exists m, b.
    + intros (m & b & Hm & Hb & Hi). exists true. split; [|done]. apply list_elem_of_fmap. exists m. split; [|done].
      destruct (adapt_content_spec (content m)) as (_ & -> & _). symmetry. apply existsb_exists. exists b.
      split; [by apply list_elem_of_In|done].
Qed.
End Images.
