(* ===== verification/ProjectionTheorems.v ===== *)
(** What the projection promises a client, in whatever order the events of a
    session reach it: a watcher sends nothing twice and an Operation's groups in
    order, losing only what came late and what a lag dropped and no journal
    keeps; a client that comes back with its cursor gets what it missed; and an
    Operation's journal has every group between its boundaries. *)

From S2P Require Import Prelude Lines Chars Text Scalar Json Message StoreModel ToolContract KernelErrors.
From S2P Require Import Attempt Queue RunWorld Template Skills PromptSession Commands ToolSearch ToolSelection Compaction Settings.
From S2P Require Import Projection Samples.
From Stdlib Require Import Sorting.Sorted.
Open Scope string_scope.
Open Scope rust_scope.
Open Scope list_scope.

(** ** Sequences *)

Section Groups.
Context {R : RigTypes} {McpElicitationRequest McpElicitationResult Update : Type}.
Abbreviation Group := (EventGroup (McpElicitationRequest := McpElicitationRequest) (Update := Update)).

Definition seq_of (g : Group) : Z := sequence_get (group_sequence g).
Definition increasing (l : list Group) : Prop := StronglySorted (fun a b => (seq_of a < seq_of b)%Z) l.

Lemma increasing_app l l' :
  increasing (l ++ l') <-> increasing l /\ increasing l' /\ forall x y, x ∈ l -> y ∈ l' -> (seq_of x < seq_of y)%Z.
Proof.
  unfold increasing. induction l as [|a l IH]; cbn.
  - split; [intros H; split; [constructor|split; [done|by intros x y ?%elem_of_nil]]|by intros (_ & H & _)].
  - split.
    + intros H. inversion H as [|? ? Hs Ha]; subst. apply IH in Hs as (Hl & Hl' & Hxy).
      apply Forall_app in Ha as [Ha Ha']. split; [by constructor|]. split; [done|].
      intros x y [->|Hx]%elem_of_cons Hy; [by eapply Forall_forall in Ha'; [exact Ha'|]|by apply Hxy].
    + intros (H & Hl' & Hxy). inversion H as [|? ? Hs Ha]; subst. constructor.
      * apply IH. split; [done|]. split; [done|]. intros x y Hx Hy. apply Hxy; [by right|done].
      * apply Forall_app. split; [done|]. apply Forall_forall. intros y Hy. apply Hxy; [by left|done].
Qed.

Lemma increasing_snoc l g : increasing (l ++ [g]) <-> increasing l /\ forall x, x ∈ l -> (seq_of x < seq_of g)%Z.
Proof.
  rewrite increasing_app. split.
  - intros (Hl & _ & Hx). split; [done|]. intros x Hx'. apply Hx; [done|by left].
  - intros [Hl Hx]. split; [done|]. split; [repeat constructor|]. intros x y Hx' ->%list_elem_of_singleton. by apply Hx.
Qed.

Lemma increasing_inj l x y : increasing l -> x ∈ l -> y ∈ l -> seq_of x = seq_of y -> x = y.
Proof.
  unfold increasing. induction 1 as [|a l Hs IH Ha]; intros Hx Hy He; [by apply elem_of_nil in Hx|].
  rewrite Forall_forall in Ha.
  apply elem_of_cons in Hx, Hy. destruct Hx as [->|Hx], Hy as [->|Hy]; auto.
  - specialize (Ha _ Hy). lia.
  - specialize (Ha _ Hx). lia.
Qed.

Lemma increasing_filter (f : Group -> bool) l : increasing l -> increasing (List.filter f l).
Proof.
  unfold increasing. induction 1 as [|a l Hs IH Ha]; cbn; [constructor|]. destruct (f a); [|done].
  constructor; [done|]. apply Forall_forall. intros x [Hx _]%list_elem_of_In%filter_In.
  rewrite Forall_forall in Ha. by apply Ha, list_elem_of_In.
Qed.

Lemma elem_of_bool_filter {A} (f : A -> bool) l x : x ∈ List.filter f l <-> x ∈ l /\ f x = true.
Proof. by rewrite list_elem_of_In, filter_In, <- list_elem_of_In. Qed.

(** An increasing list split at a position. *)
Lemma increasing_split l p x y :
  increasing l -> x ∈ take p l -> y ∈ drop p l -> (seq_of x < seq_of y)%Z.
Proof. intros Hl Hx Hy. rewrite <- (take_drop p l) in Hl. apply increasing_app in Hl as (_ & _ & H). by apply H. Qed.

Lemma take_or_drop l p (x : Group) : x ∈ l <-> x ∈ take p l \/ x ∈ drop p l.
Proof. rewrite <- (take_drop p l) at 1. apply elem_of_app. Qed.

(** Events are numbered before the lock their groups are appended under, so a
    group can come after one with a later sequence. *)
Definition late (log : list Group) (g : Group) : Prop :=
  exists y, [y; g] `sublist_of` log /\ (seq_of g < seq_of y)%Z.
(** A later snapshot of the same thing. *)
Definition superseded (log : list Group) (x y : Group) : Prop :=
  [x; y] `sublist_of` log /\ exists key, snapshot_of x = Some key /\ snapshot_of y = Some key.
(** The group, or a later snapshot of the same thing, was sent -- or came late. *)
Definition accounted (log out : list Group) (x : Group) : Prop :=
  exists y, (y = x \/ superseded log x y) /\ (y ∈ out \/ late log y).
(** The groups that name an Operation. *)
Definition operation_groups (l : list Group) : list Group :=
  List.filter (fun g => bool_decide (is_Some (group_run g))) l.

Lemma sublist_before (l : list Group) p x y : x ∈ take p l -> y ∈ drop p l -> [x; y] `sublist_of` l.
Proof.
  intros Hx Hy. rewrite <- (take_drop p l). change [x; y] with ([x] ++ [y]).
  by apply sublist_app; apply singleton_sublist_l.
Qed.

Lemma sublist_elem (l l' : list Group) x : l `sublist_of` l' -> x ∈ l -> x ∈ l'.
Proof. rewrite <- !singleton_sublist_l. intros ? ?. by etrans. Qed.

Lemma sublist_snoc (l : list Group) x g : x ∈ l -> [x; g] `sublist_of` l ++ [g].
Proof. intros Hx. change [x; g] with ([x] ++ [g]). apply sublist_app; [by apply singleton_sublist_l|done]. Qed.

Lemma late_sublist (l l' : list Group) g : l `sublist_of` l' -> late l g -> late l' g.
Proof. intros Hl (y & Hy & ?). exists y. split; [by etrans|done]. Qed.

Lemma superseded_sublist (l l' : list Group) x y : l `sublist_of` l' -> superseded l x y -> superseded l' x y.
Proof. intros Hl [Hy ?]. split; [by etrans|done]. Qed.

Lemma sublist_extends (l l' : list Group) : l `sublist_of` l ++ l'.
Proof. by apply sublist_inserts_r. Qed.

Lemma superseded_elem (log : list Group) x y : superseded log x y -> x ∈ log /\ y ∈ log.
Proof. intros [Hs _]. split; apply (sublist_elem _ _ _ Hs); [left|right; left]. Qed.

(** In a list without repetition what comes after is after. *)
Lemma before_trans (log : list Group) x y z :
  NoDup log -> [x; y] `sublist_of` log -> [y; z] `sublist_of` log -> [x; z] `sublist_of` log.
Proof.
  intros Hn Hxy Hyz. assert (y ∈ log) as (pre & post & ->)%list_elem_of_split by (apply (sublist_elem _ _ _ Hxy); by right; left).
  apply NoDup_app in Hn as (Hn1 & Hdis & Hn2). apply NoDup_cons in Hn2 as [Hny Hn2].
  assert (y ∉ pre) as Hyp by (intros Hy; apply (Hdis y Hy); by left).
  assert (x ∈ pre) as Hx.
  { apply sublist_app_r in Hxy as (k1 & k2 & He & Hk1 & Hk2). destruct k1 as [|a k1].
    - cbn in He. subst k2. inversion Hk2 as [|? ? ? Hk|? ? ? Hk]; subst.
      + by destruct Hny; apply singleton_sublist_l.
      + destruct Hny. apply (sublist_elem _ _ y Hk). by right; left.
    - injection He as <- _. apply (sublist_elem _ _ x Hk1). by left. }
  assert (z ∈ post) as Hz.
  { apply sublist_app_r in Hyz as (k1 & k2 & He & Hk1 & Hk2). destruct k1 as [|a k1].
    - cbn in He. subst k2. inversion Hk2 as [|? ? ? Hk|? ? ? Hk]; subst.
      + by apply singleton_sublist_l.
      + destruct Hny. apply (sublist_elem _ _ y Hk). by left.
    - injection He as <- _. destruct Hyp. apply (sublist_elem _ _ y Hk1). by left. }
  change [x; z] with ([x] ++ [z]). apply sublist_app; [by apply singleton_sublist_l|].
  apply sublist_cons. by apply singleton_sublist_l.
Qed.

Lemma superseded_trans (log : list Group) x y z :
  NoDup log -> superseded log x y -> superseded log y z -> superseded log x z.
Proof.
  intros Hn [Hxy (key & Hx & Hy)] [Hyz (key' & Hy' & Hz)]. split; [by eapply before_trans|].
  exists key. split; [done|]. congruence.
Qed.

Lemma accounted_superseded (log out : list Group) x y :
  NoDup log -> superseded log x y -> accounted log out y -> accounted log out x.
Proof.
  intros Hn Hxy (z & [->|Hz] & Hout).
  - exists y. split; [by right|done].
  - exists z. split; [right; by eapply superseded_trans|done].
Qed.

Lemma accounted_more (log log' out out' : list Group) x :
  log `sublist_of` log' -> (forall y, y ∈ out -> y ∈ out') -> accounted log out x -> accounted log' out' x.
Proof.
  intros Hl Ho (y & Hy & Hs). exists y. split.
  - destruct Hy as [->|Hy]; [by left|right; by eapply superseded_sublist].
  - destruct Hs as [?|?]; [left; by apply Ho|right; by eapply late_sublist].
Qed.

Lemma accounted_late (log out : list Group) x : late log x -> accounted log out x.
Proof. intros Hl. exists x. split; [by left|by right]. Qed.

Lemma accounted_sent (log out : list Group) x : x ∈ out -> accounted log out x.
Proof. intros Hl. exists x. split; by left. Qed.

(** Sequences are never given twice. *)
Definition distinct (log : list Group) : Prop := NoDup (seq_of <$> log).

Lemma distinct_nodup log : distinct log -> NoDup log.
Proof. apply NoDup_fmap_1. Qed.

Lemma distinct_snoc log g : distinct (log ++ [g]) <-> distinct log /\ forall x, x ∈ log -> seq_of x <> seq_of g.
Proof.
  unfold distinct. rewrite fmap_app, NoDup_app. cbn. split.
  - intros (Hl & Hx & _). split; [done|]. intros x Hx' He. apply (Hx (seq_of x)); [by apply list_elem_of_fmap_2|].
    rewrite He. by left.
  - intros [Hl Hx]. split; [done|]. split; [|apply NoDup_singleton].
    intros z (x & -> & Hx')%list_elem_of_fmap Hz%list_elem_of_singleton. by apply (Hx x).
Qed.

Lemma late_after log x y : distinct log -> [y; x] `sublist_of` log -> (seq_of x <= seq_of y)%Z -> late log x.
Proof.
  intros Hd Hs Hle. exists y. split; [done|]. assert (seq_of y <> seq_of x); [|lia].
  intros He. assert (NoDup (seq_of <$> [y; x])) as Hn.
  { eapply sublist_NoDup; [exact Hd|]. by apply fmap_sublist. }
  cbn in Hn. rewrite He in Hn. apply NoDup_cons in Hn as [Hn _]. apply Hn. by left.
Qed.

Lemma increasing_distinct log : increasing log -> distinct log.
Proof.
  unfold increasing, distinct. induction 1 as [|a l Hs IH Ha]; cbn; [constructor|]. apply NoDup_cons. split; [|done].
  intros (x & He & Hx)%list_elem_of_fmap. rewrite Forall_forall in Ha. specialize (Ha x Hx). lia.
Qed.

Lemma increasing_sublist l l' : l `sublist_of` l' -> increasing l' -> increasing l.
Proof.
  unfold increasing. induction 1 as [|x l l' Hs IH|x l l' Hs IH]; intros Hi; [constructor| |].
  - inversion Hi as [|? ? Hi' Ha]; subst. constructor; [by apply IH|]. rewrite Forall_forall in Ha |- *.
    intros y Hy. apply Ha. by eapply sublist_elem.
  - inversion Hi; subst. by apply IH.
Qed.

Lemma increasing_not_late log g : increasing log -> ~ late log g.
Proof.
  intros Hi (y & Hs & Hlt). apply (increasing_sublist _ _ Hs) in Hi. inversion Hi as [|? ? _ Ha]; subst.
  inversion Ha; subst. lia.
Qed.

(** ** What a journal holds *)

(** The Operation a log of groups leaves, and every group it was given. *)
Definition advance (c : option (RunId * bool * list Group)) (g : Group) : option (RunId * bool * list Group) :=
  if bool_decide (operation_phase g = Some PhaseStart) then
    match group_run g with Some run => Some (run, true, [g]) | None => c end
  else
    match c with
    | Some (run, true, l) =>
        if bool_decide (group_run g = Some run)
        then Some (run, negb (bool_decide (operation_phase g = Some PhaseEnd)), l ++ [g]) else c
    | _ => c
    end.
Definition current (log : list Group) : option (RunId * bool * list Group) := foldl advance None log.

Lemma current_snoc log g : current (log ++ [g]) = advance (current log) g.
Proof. unfold current. by rewrite foldl_app. Qed.

(** Whether the journal takes [g] after [c]. *)
Definition takes (c : option (RunId * bool * list Group)) (g : Group) : Prop :=
  (operation_phase g = Some PhaseStart /\ is_Some (group_run g)) \/
  (operation_phase g <> Some PhaseStart /\ exists run l, c = Some (run, true, l) /\ group_run g = Some run).
Definition journaled (log : list Group) (g : Group) : Prop :=
  exists pre post, log = pre ++ g :: post /\ takes (current pre) g.

Lemma journaled_snoc log g x :
  journaled (log ++ [g]) x <-> journaled log x \/ (x = g /\ takes (current log) g).
Proof.
  split.
  - intros (pre & post & He & Ht). destruct post as [|y post] using rev_ind.
    + apply app_inj_tail in He as [-> ->]. by right.
    + clear IHpost. rewrite app_comm_cons, app_assoc in He. apply app_inj_tail in He as [-> ->].
      left. by exists pre, post.
  - intros [(pre & post & -> & Ht)|[-> Ht]].
    + exists pre, (post ++ [g]). by rewrite <- app_assoc.
    + by exists log, [].
Qed.

Lemma journaled_elem log x : journaled log x -> x ∈ log.
Proof. intros (pre & post & -> & _). apply elem_of_app. right. by left. Qed.

(** What of an Operation's groups is kept: all but the snapshots a later one
    takes the place of. *)
Definition retain (l : list Group) : list Group := foldl (fun kept g => supersede g kept ++ [g]) [] l.

Lemma retain_snoc l g : retain (l ++ [g]) = supersede g (retain l) ++ [g].
Proof. unfold retain. by rewrite foldl_app. Qed.

Lemma elem_of_supersede (g : Group) l x :
  x ∈ supersede g l <-> x ∈ l /\ (snapshot_of g = None \/ snapshot_of x <> snapshot_of g).
Proof.
  unfold supersede. destruct (snapshot_of g) as [key|]; [|naive_solver].
  rewrite elem_of_bool_filter, negb_true_iff, bool_decide_eq_false. naive_solver.
Qed.

Lemma filter_sublist (f : Group -> bool) l : List.filter f l `sublist_of` l.
Proof. induction l as [|g l IH]; cbn; [done|]. destruct (f g); [by apply sublist_skip|by apply sublist_cons]. Qed.

Lemma retain_sublist l : retain l `sublist_of` l.
Proof.
  induction l as [|g l IH] using rev_ind; [done|]. rewrite retain_snoc. apply sublist_app; [|done].
  etrans; [|exact IH]. unfold supersede. destruct (snapshot_of g); [apply filter_sublist|done].
Qed.

(** A group that is not kept has a later snapshot of its key that is. *)
Lemma retain_spec l : last (retain l) = last l /\
  forall x, x ∈ l -> x ∈ retain l \/ exists y, y ∈ retain l /\ superseded l x y.
Proof.
  induction l as [|g l IH] using rev_ind; [split; [done|by intros x ?%elem_of_nil]|].
  destruct IH as [_ Hcov]. rewrite retain_snoc. split; [by rewrite !last_snoc|].
  intros x [Hx| ->%list_elem_of_singleton]%elem_of_app; [|left; apply elem_of_app; right; by left].
  assert (forall y, y ∈ retain l -> y ∈ supersede g (retain l) ++ [g] \/
    exists key, snapshot_of y = Some key /\ snapshot_of g = Some key) as Hstep.
  { intros y Hy. destruct (snapshot_of g) as [key|] eqn:Hk.
    - destruct (decide (snapshot_of y = Some key)) as [He|He]; [right; by exists key|].
      left. apply elem_of_app. left. apply elem_of_supersede. split; [done|]. right. by rewrite Hk.
    - left. apply elem_of_app. left. apply elem_of_supersede. split; [done|by left]. }
  assert (g ∈ supersede g (retain l) ++ [g]) as Hg by (apply elem_of_app; right; by left).
  destruct (Hcov x Hx) as [Hx'|(y & Hy & Hxy & key & Hkx & Hky)].
  - destruct (Hstep x Hx') as [?|Hkey]; [by left|]. right. exists g. split; [done|]. split; [by apply sublist_snoc|done].
  - destruct (Hstep y Hy) as [?|(key' & Hk1 & Hk2)]; right.
    + exists y. split; [done|]. split; [etrans; [exact Hxy|apply sublist_extends]|by exists key].
    + exists g. split; [done|]. split; [by apply sublist_snoc|]. exists key. split; [done|congruence].
Qed.
End Groups.

(** ** The state a projection is in *)

Section States.
Context {R : RigTypes} {McpElicitationRequest McpElicitationResult : Type} `{WireUpdates Update}.
Abbreviation Group := (EventGroup (McpElicitationRequest := McpElicitationRequest) (Update := Update)).
Abbreviation State := (ProjectionState (R := R) (McpElicitationRequest := McpElicitationRequest) (Update := Update)).

(** The groups of a kernel that numbers its events and names its Operations
    once, in whatever order they reach the sink. *)
Record log_ok (log : list Group) : Prop := {
  log_distinct : distinct log;
  log_starts : forall pre g post, log = pre ++ g :: post -> operation_phase g = Some PhaseStart ->
    is_Some (group_run g) /\ snapshot_of g = None /\ forall x, x ∈ pre -> group_run x <> group_run g;
  log_bounded : forall x, x ∈ log -> (seq_of x < MAX_SAFE_INTEGER)%Z
}.

Lemma log_ok_snoc log g : log_ok (log ++ [g]) <-> log_ok log /\
  (forall x, x ∈ log -> seq_of x <> seq_of g) /\ (seq_of g < MAX_SAFE_INTEGER)%Z /\
  (operation_phase g = Some PhaseStart ->
   is_Some (group_run g) /\ snapshot_of g = None /\ forall x, x ∈ log -> group_run x <> group_run g).
Proof.
  split.
  - intros [Hi Hs Hb]. apply distinct_snoc in Hi as [Hi Hg]. split_and!; [split| | |].
    + done.
    + intros pre x post -> Hx. apply (Hs pre x (post ++ [g])); [by rewrite <- app_assoc|done].
    + intros x Hx. apply Hb, elem_of_app. by left.
    + done.
    + apply Hb, elem_of_app. right. by left.
    + intros Hx. by apply (Hs log g []).
  - intros ([Hi Hs Hb] & Hg & Hm & Hst). split.
    + by apply distinct_snoc.
    + intros pre x post He Hx. destruct post as [|y post] using rev_ind.
      * apply app_inj_tail in He as [<- <-]. by apply Hst.
      * clear IHpost. rewrite app_comm_cons, app_assoc in He. apply app_inj_tail in He as [-> _]. by apply (Hs pre x post).
    + intros x [Hx| ->%list_elem_of_singleton]%elem_of_app; [by apply Hb|done].
Qed.

Lemma fresh_not_elem (log : list Group) (g : Group) : (forall x, x ∈ log -> seq_of x <> seq_of g) -> g ∉ log.
Proof. intros Hg Hx. by apply (Hg g Hx). Qed.

(** The current Operation's groups are those of its name, from its start on. *)
Record operation_of (log : list Group) (run : RunId) (l pre op : list Group) : Prop := {
  of_split : log = pre ++ op;
  of_before : forall x, x ∈ pre -> group_run x <> Some run;
  of_sublist : l `sublist_of` op;
  of_groups : forall x, x ∈ l -> group_run x = Some run /\ journaled log x;
  of_all : forall x, x ∈ op -> journaled log x -> x ∈ l;
  of_first : exists first, head l = Some first /\ head (retain l) = Some first /\ snapshot_of first = None
}.

Lemma current_spec log : log_ok log -> forall run b l, current log = Some (run, b, l) ->
  exists pre op, operation_of log run l pre op.
Proof.
  induction log as [|g log IH] using rev_ind; intros Hok run b l Hc; [done|].
  apply log_ok_snoc in Hok as (Hok & Hg & _ & Hst). specialize (IH Hok).
  pose proof (fresh_not_elem log g Hg) as Hnew. rewrite current_snoc in Hc. unfold advance in Hc.
  case_bool_decide as Hphase.
  - destruct (Hst Hphase) as ([run' Hrun] & Hsnap & Hfresh). rewrite Hrun in Hc. injection Hc as <- <- <-.
    exists log, [g]. split; [done|by rewrite <- Hrun|done| | |].
    + intros x ->%list_elem_of_singleton. split; [done|]. apply journaled_snoc. right.
      split; [done|]. left. split; [done|]. by exists run'.
    + by intros x ->%list_elem_of_singleton _; left.
    + exists g. split; [done|]. cbn. unfold supersede. by rewrite Hsnap.
  - destruct (current log) as [[[run' b'] l']|] eqn:Hcur; [|done].
    destruct (IH run' b' l' eq_refl) as (pre & op & [Hlog Hpre Hsub Hl Hop (first & Hf & Hfr)]).
    assert (forall x, x ∈ op -> journaled (log ++ [g]) x -> x ∈ l') as Hold.
    { intros x Hx [Hj|[-> _]]%journaled_snoc; [by apply Hop|]. destruct Hnew. rewrite Hlog. apply elem_of_app. by right. }
    assert (forall x, x ∈ l' -> group_run x = Some run' /\ journaled (log ++ [g]) x) as Hkeep.
    { intros x Hx. destruct (Hl x Hx). split; [done|]. apply journaled_snoc. by left. }
    assert (~ takes (Some (run', b', l')) g -> Some (run', b', l') = Some (run, b, l) ->
      exists pre op, operation_of (log ++ [g]) run l pre op) as Hstay.
    { intros Hnot [= <- <- <-]. exists pre, (op ++ [g]). split; [by rewrite Hlog, app_assoc|done| |done| |].
      - etrans; [exact Hsub|apply sublist_extends].
      - intros x [Hx| ->%list_elem_of_singleton]%elem_of_app Hjx; [by apply Hold|]. exfalso.
        apply journaled_snoc in Hjx as [Hjx|[_ Ht]]; [by apply Hnew, journaled_elem|]. by rewrite Hcur in Ht.
      - by exists first. }
    destruct b'; [case_bool_decide as Hrun|].
    + clear Hstay. injection Hc as <- <- <-. exists pre, (op ++ [g]). split; [by rewrite Hlog, app_assoc|done| | | |].
      * by apply sublist_app.
      * intros x [Hx| ->%list_elem_of_singleton]%elem_of_app; [by apply Hkeep|]. split; [done|].
        apply journaled_snoc. right. split; [done|]. right. split; [done|]. exists run', l'. by rewrite Hcur.
      * intros x [Hx| ->%list_elem_of_singleton]%elem_of_app Hjx; apply elem_of_app; [left; by apply Hold|right; by left].
      * exists first. split; [by destruct l'|]. rewrite retain_snoc. destruct Hfr as [Hfr Hn]. split; [|done].
        destruct (retain l') as [|f t]; [done|]. injection Hfr as ->.
        unfold supersede. destruct (snapshot_of g); [|done]. cbn. by rewrite Hn.
    + apply Hstay; [|done]. intros [[? _]|(_ & r & l0 & [= -> ->] & Hr)]; congruence.
    + apply Hstay; [|done]. by intros [[? _]|(_ & r & l0 & [=] & _)].
Qed.

Lemma of_sublist_log log run l pre op : operation_of log run l pre op -> l `sublist_of` log.
Proof. intros [-> _ Hs _ _ _]. etrans; [exact Hs|]. by apply sublist_inserts_l. Qed.

(** A projection beside such a kernel. *)
Record projection_ok (s : State) : Prop := {
  state_log : log_ok (broadcast s);
  state_last : match last_sequence s with
               | Some q => (exists h, h ∈ broadcast s /\ group_sequence h = q) /\
                   forall x, x ∈ broadcast s -> (seq_of x <= sequence_get q)%Z
               | None => broadcast s = []
               end;
  state_journal : match current (broadcast s), journal s with
                  | Some (run, b, l), Some j =>
                      journal_run j = run /\ running j = b /\ groups j = retain l /\ incremental_available j = true
                  | None, None => True
                  | _, _ => False
                  end
}.

(** A group such a kernel may give next: its sequence is new, but need not be
    the highest; an Operation starts under a name of its own. *)
Definition next_group (g : Group) (s : State) : Prop :=
  (forall x, x ∈ broadcast s -> seq_of x <> seq_of g) /\ (seq_of g < MAX_SAFE_INTEGER)%Z /\
  (operation_phase g = Some PhaseStart ->
   is_Some (group_run g) /\ snapshot_of g = None /\ forall x, x ∈ broadcast s -> group_run x <> group_run g).

Lemma projection_new_ok : projection_ok projection_new.
Proof.
  split; [|done|done]. split; [constructor| |by intros x ?%elem_of_nil]. intros pre g post He. by destruct pre.
Qed.

Lemma last_sequence_appended (s : State) g o : projection_ok s -> sequence_max (last_sequence s) (group_sequence g) = o ->
  match o with
  | Some q => (exists h, h ∈ broadcast s ++ [g] /\ group_sequence h = q) /\
      forall x, x ∈ broadcast s ++ [g] -> (seq_of x <= sequence_get q)%Z
  | None => broadcast s ++ [g] = []
  end.
Proof.
  intros [_ Hlast _] <-. assert (g ∈ broadcast s ++ [g]) as Hg by (apply elem_of_app; right; by left).
  destruct (last_sequence s) as [q|]; cbn.
  - destruct Hlast as [(h & Hh & <-) Hmax]. destruct (Z.ltb_spec (sequence_get (group_sequence h)) (sequence_get (group_sequence g))).
    + split; [by exists g|]. intros x [Hx| ->%list_elem_of_singleton]%elem_of_app; [|done]. specialize (Hmax x Hx). lia.
    + split; [exists h; split; [apply elem_of_app; by left|done]|].
      intros x [Hx| ->%list_elem_of_singleton]%elem_of_app; [by apply Hmax|done].
  - rewrite Hlast. split; [exists g; by split; [left|]|]. by intros x ->%list_elem_of_singleton.
Qed.

Lemma append_group_ok g base (s s' : State) r :
  projection_ok s -> next_group g s -> append_group g base s = (r, s') ->
  r = Ok tt /\ projection_ok s' /\ broadcast s' = broadcast s ++ [g].
Proof.
  intros Hok (Hg & Hm & Hst) Hap. pose proof Hok as [Hlog _ Hj].
  assert (log_ok (broadcast s ++ [g])) as Hlog' by (apply log_ok_snoc; split_and!; done).
  unfold append_group in Hap. case_bool_decide as Hphase.
  - destruct (Hst Hphase) as ([run Hrun] & Hsnap & _). rewrite Hrun in Hap. injection Hap as <- <-.
    split; [done|]. split; [|done]. split; [done|exact (last_sequence_appended s g _ Hok eq_refl)|].
    cbn [broadcast record_broadcast with_journal journal]. rewrite current_snoc. unfold advance. rewrite bool_decide_eq_true_2 by done. rewrite Hrun.
    split_and!; try done. cbn. unfold retain, supersede. cbn. by rewrite Hsnap.
  - injection Hap as <- <-. split; [done|]. split; [|done]. split; [done|exact (last_sequence_appended s g _ Hok eq_refl)|].
    cbn [broadcast record_broadcast with_journal journal]. rewrite current_snoc. unfold advance. rewrite bool_decide_eq_false_2 by done.
    destruct (current (broadcast s)) as [[[run b] l]|], (journal s) as [j|]; try done.
    destruct Hj as (<- & Hb & Hgr & Hinc). unfold journals. rewrite Hb. destruct b; cbn [andb]; [|done].
    case_bool_decide as Hrun; [|done]. cbn. rewrite retain_snoc, Hgr. by split_and!.
Qed.

(** What of a log is before and what after a position. *)
Lemma elem_of_later (log : list Group) start p g : start <= p -> g ∈ drop p log -> g ∈ drop start log.
Proof.
  intros Hle Hg. replace p with (start + (p - start)) in Hg by lia. rewrite <- drop_drop in Hg.
  apply (take_or_drop _ (p - start)). by right.
Qed.

Lemma elem_of_earlier (log : list Group) p p' g : p <= p' -> g ∈ take p log -> g ∈ take p' log.
Proof.
  intros Hle Hg. replace p with (min p p') in Hg by lia. rewrite <- take_take in Hg.
  apply (take_or_drop _ p). by left.
Qed.

(** What comes after a group of the current Operation is in reach of it. *)
Lemma after_operation log run l pre op p x y :
  operation_of log run l pre op -> y ∈ take p log -> group_run y = Some run ->
  x ∈ drop p log -> journaled log x -> x ∈ l.
Proof.
  intros Hop Hy Hyr Hx Hj. apply (of_all _ _ _ _ _ Hop); [|done]. pose proof (of_split _ _ _ _ _ Hop) as Hs. subst log.
  destruct (le_lt_dec p (length pre)) as [Hle|Hlt].
  - exfalso. apply (elem_of_earlier _ p (length pre)) in Hy; [|done]. rewrite take_app_length in Hy.
    by apply (of_before _ _ _ _ _ Hop y Hy).
  - apply (elem_of_later _ (length pre) p) in Hx; [|lia]. by rewrite drop_app_length in Hx.
Qed.
End States.

(** ** The watcher *)

Section Watching.
Context {R : RigTypes} {McpElicitationRequest McpElicitationResult : Type} `{WireUpdates Update}.
Abbreviation Group := (EventGroup (McpElicitationRequest := McpElicitationRequest) (Update := Update)).
Abbreviation State := (ProjectionState (R := R) (McpElicitationRequest := McpElicitationRequest) (Update := Update)).
Abbreviation Watcher := (WatchState (McpElicitationRequest := McpElicitationRequest) (Update := Update)).
Variables (accepts : nat -> bool) (namespace : string) (session : SessionId).
Abbreviation handle := (watch_group accepts namespace session).

(** Whether the cursor is past the group. *)
Definition passed (w : Watcher) (g : Group) : Prop :=
  exists n, watch_next w = Some n /\ (seq_of g < sequence_get n)%Z.

Definition cursor_after (g : Group) (w : Watcher) : option RunId * option Sequence :=
  match group_run g with
  | Some run => (Some run, ok (sequence_try_from (seq_of g + 1)))
  | None => (watch_run w, watch_next w)
  end.

Record sent_group (g : Group) (w w' : Watcher) : Prop := {
  sent_running : stopped w' = false;
  sent_position : position w' = position w;
  sent_groups : delivered_groups w' = delivered_groups w ++ [g];
  sent_cursor : (watch_run w', watch_next w') = cursor_after g w;
  sent_progress : exists q, progress w' = Some q /\ (seq_of g <= sequence_get q)%Z /\
    (q = group_sequence g \/ progress w = Some q) /\
    forall q0, progress w = Some q0 -> (sequence_get q0 <= sequence_get q)%Z
}.

Lemma send_notes_spec l : forall (w : Watcher) b w', send_notes accepts l w = (b, w') ->
  position w' = position w /\ watch_run w' = watch_run w /\ watch_next w' = watch_next w /\
  progress w' = progress w /\ delivered_groups w' = delivered_groups w /\ stopped w' = stopped w.
Proof.
  induction l as [|n l IH]; cbn; intros w b w'; [by intros [= <- <-]|].
  destruct (accepts _); [|by intros [= <- <-]]. intros (? & ? & ? & ? & ? & ?)%IH. by split_and!.
Qed.

Lemma watch_group_cases g (w : Watcher) : stopped w = false ->
  (stopped (handle g w) = true /\ delivered_groups (handle g w) = delivered_groups w) \/
  (handle g w = w /\ passed w g) \/ (~ passed w g /\ sent_group g w (handle g w)).
Proof.
  intros Hs. unfold watch_group. rewrite Hs.
  destruct (match watch_next w with Some next => _ | None => false end) eqn:Hskip.
  { right. left. split; [done|]. destruct (watch_next w) as [n|] eqn:Hn; [|done]. exists n. split; [done|].
    by apply Z.ltb_lt. }
  assert (~ passed w g) as Hnot.
  { intros (n & Hn & Hlt). rewrite Hn in Hskip. apply Z.ltb_ge in Hskip. unfold seq_of in Hlt. lia. }
  destruct (notifications _ _ _) as [notes|e]; [|by left].
  destruct (send_notes accepts notes w) as [[] w1] eqn:Hsend;
    apply send_notes_spec in Hsend as (Hp & Hr & Hn & Hpr & Hd & Hst); [|by left].
  right. right. split; [done|]. split.
  - unfold record_sent. destruct (group_run g); cbn; by rewrite Hst.
  - unfold record_sent. destruct (group_run g); cbn; by rewrite Hp.
  - unfold record_sent. destruct (group_run g); cbn; by rewrite Hd.
  - unfold record_sent, cursor_after. destruct (group_run g); cbn; [done|]. by rewrite Hr, Hn.
  - assert (progress (record_sent g (group_done g w1)) = progress w) as Hp'.
    { unfold record_sent. destruct (group_run g); cbn; done. }
    unfold sent_through. cbn [progress]. rewrite Hp'. destruct (progress w) as [q|].
    + destruct (Z.leb_spec (sequence_get (group_sequence g)) (sequence_get q)).
      * exists q. split; [done|]. split; [done|]. split; [by right|]. intros q0 [= ->]. lia.
      * exists (group_sequence g). split; [done|]. split; [unfold seq_of; lia|]. split; [by left|].
        intros q0 [= ->]. lia.
    + exists (group_sequence g). split; [done|]. split; [unfold seq_of; lia|]. by split; [left|].
Qed.

Lemma watch_groups_stopped l : forall w : Watcher, stopped w = true -> watch_groups accepts namespace session l w = w.
Proof. induction l as [|g l IH]; intros w Hs; [done|]. cbn. unfold watch_group at 2. rewrite Hs. by apply IH. Qed.

(** What progress says: it follows the cursor, and is a group's sequence. *)
Definition progress_ok (P : Sequence -> Prop) (w : Watcher) : Prop :=
  stopped w = false ->
  (forall n, watch_next w = Some n -> exists q, progress w = Some q /\ (sequence_get n <= sequence_get q + 1)%Z) /\
  (forall q, progress w = Some q -> P q).

Lemma sent_progress_ok P g (w w' : Watcher) :
  P (group_sequence g) -> stopped w = false -> progress_ok P w -> sent_group g w w' -> progress_ok P w'.
Proof.
  intros HP Hs Hw Hsent _. destruct (Hw Hs) as [Hn Hq]. destruct Hsent as [_ _ _ Hc (q & Hp & Hg & Ho & Hm)]. split.
  - unfold cursor_after in Hc. intros n Hn'. exists q. split; [done|]. destruct (group_run g); injection Hc as _ Hc.
    + rewrite Hn' in Hc. destruct (sequence_try_from _) as [x|e] eqn:Hx; [|done]. injection Hc as ->.
      apply sequence_try_from_ok in Hx. lia.
    + rewrite Hn' in Hc. destruct (Hn n (eq_sym Hc)) as (q0 & Hq0 & Hle). specialize (Hm q0 Hq0). lia.
  - intros q' Hq'. rewrite Hp in Hq'. injection Hq' as <-. destruct Ho as [->|Ho]; [done|by apply Hq].
Qed.

Lemma watch_groups_progress P l : (forall x, x ∈ l -> P (group_sequence x)) ->
  forall w, progress_ok P w -> progress_ok P (watch_groups accepts namespace session l w).
Proof.
  induction l as [|g l IH]; intros HP w Hw; [done|]. cbn [watch_groups foldl].
  change (foldl _ ?a l) with (watch_groups accepts namespace session l a).
  apply IH; [intros x Hx; apply HP; by right|]. destruct (stopped w) eqn:Hs.
  - unfold watch_group. by rewrite Hs.
  - destruct (watch_group_cases g w Hs) as [[Hst _]|[[-> _]|[_ Hsent]]]; [|done|].
    + intros Hst'. congruence.
    + apply (sent_progress_ok P g w); [apply HP; by left|done..].
Qed.

(** A cursor that moves on is past what it was past, and past the group if the
    group has an Operation. *)
Lemma cursor_after_passed g (w w' : Watcher) :
  (seq_of g < MAX_SAFE_INTEGER)%Z -> (watch_run w', watch_next w') = cursor_after g w -> ~ passed w g ->
  (forall x, passed w x -> passed w' x) /\
  (forall x, passed w' x -> passed w x \/ (is_Some (group_run g) /\ (seq_of x <= seq_of g)%Z)) /\
  (forall run, group_run g = Some run ->
     watch_run w' = Some run /\ exists n, watch_next w' = Some n /\ sequence_get n = (seq_of g + 1)%Z).
Proof.
  unfold cursor_after. intros Hm Hc Hnp. destruct (group_run g) as [run|].
  - destruct (sequence_try_from_in (seq_of g + 1)) as (n1 & Hn1 & Hv).
    { unfold sequence_in_range. pose proof (sequence_range (group_sequence g)). unfold seq_of in *.
      rewrite (proj2 (Z.leb_le _ _)) by lia. cbn. apply Z.leb_le. lia. }
    rewrite Hn1 in Hc. injection Hc as Hr Hn. split_and!.
    + intros x (n & Hn0 & Hx). exists n1. split; [done|].
      destruct (Z.lt_ge_cases (seq_of g) (sequence_get n)); [by destruct Hnp; exists n|lia].
    + intros x (n & Hn0 & Hx). right. split; [by eexists|]. rewrite Hn in Hn0. injection Hn0 as <-. lia.
    + intros r [= <-]. split; [done|]. by exists n1.
  - injection Hc as Hr Hn. split_and!; [| |done].
    + intros x (n & Hn0 & Hx). exists n. by rewrite Hn.
    + intros x (n & Hn0 & Hx). left. exists n. by rewrite <- Hn.
Qed.

(** What of a list of groups is sent from a cursor on: in order, each unless one
    before it has a later sequence. *)
Record sent_list (l sent : list Group) (n : Sequence) (w w' : Watcher) : Prop := {
  list_groups : delivered_groups w' = delivered_groups w ++ sent;
  list_sublist : sent `sublist_of` l;
  list_increasing : increasing sent;
  list_from : forall x, x ∈ sent -> (sequence_get n <= seq_of x)%Z
}.
Record sent_cursor_at (l sent : list Group) (run : RunId) (n n' : Sequence) (w w' : Watcher) : Prop := {
  ca_position : position w' = position w;
  ca_run : watch_run w' = Some run;
  ca_next : watch_next w' = Some n';
  ca_forward : (sequence_get n <= sequence_get n')%Z;
  ca_past : forall x, x ∈ sent -> (seq_of x < sequence_get n')%Z;
  ca_skipped : forall x, x ∈ l -> (sequence_get n <= seq_of x)%Z -> x ∈ sent \/
    exists y, y ∈ sent /\ [y; x] `sublist_of` l /\ (seq_of x <= seq_of y)%Z
}.

Lemma watch_groups_spec run l : (forall x, x ∈ l -> group_run x = Some run /\ (seq_of x < MAX_SAFE_INTEGER)%Z) ->
  forall (w : Watcher) n, stopped w = false -> watch_run w = Some run -> watch_next w = Some n ->
  let w' := watch_groups accepts namespace session l w in
  exists sent, sent_list l sent n w w' /\ (stopped w' = false -> exists n', sent_cursor_at l sent run n n' w w').
Proof.
  induction l as [|g l IH]; intros Hrun w n Hs Hr Hn; cbn zeta.
  { cbn. exists []. split; [split; [by rewrite app_nil_r|done|constructor|by intros x ?%elem_of_nil]|].
    intros _. exists n. split; try done; by intros x ?%elem_of_nil. }
  cbn [watch_groups foldl]. change (foldl _ ?a l) with (watch_groups accepts namespace session l a).
  assert (forall x, x ∈ l -> group_run x = Some run /\ (seq_of x < MAX_SAFE_INTEGER)%Z) as Hrun'.
  { intros x Hx. apply Hrun. by right. }
  destruct (Hrun g) as [Hgr Hgm]; [by left|].
  destruct (watch_group_cases g w Hs) as [[Hst Hd]|[[Hskip (n0 & Hn0 & Hlt)]|[Hnp Hsent]]].
  - rewrite watch_groups_stopped by done. exists [].
    split; [|by rewrite Hst]. split; [by rewrite app_nil_r|by apply sublist_nil_l|constructor|by intros x ?%elem_of_nil].
  - rewrite Hskip. rewrite Hn in Hn0. injection Hn0 as <-.
    destruct (IH Hrun' w n Hs Hr Hn) as (sent & [Hd Hsub Hi Hf] & Hc). exists sent.
    split; [split; [done|by apply sublist_cons|done|done]|]. intros Hst. destruct (Hc Hst) as (n' & [? ? ? ? ? Hsk]).
    exists n'. split; try done. intros x [->|Hx]%elem_of_cons Hge; [lia|].
    destruct (Hsk x Hx Hge) as [?|(y & ? & ? & ?)]; [by left|]. right. exists y. split_and!; [done|by apply sublist_cons|done].
  - destruct Hsent as [Hst Hpos Hd Hc _].
    destruct (cursor_after_passed g w _ Hgm Hc Hnp) as (_ & _ & Hcur). destruct (Hcur run Hgr) as (Hr1 & n1 & Hn1 & Hv).
    assert (sequence_get n <= seq_of g)%Z as Hge.
    { destruct (Z.lt_ge_cases (seq_of g) (sequence_get n)); [|lia]. destruct Hnp. by exists n. }
    destruct (IH Hrun' (handle g w) n1 Hst Hr1 Hn1) as (sent & [Hd' Hsub Hi Hf] & Hcc). exists (g :: sent). split.
    + split; [by rewrite Hd', Hd, <- app_assoc|by apply sublist_skip| |].
      * constructor; [done|]. apply Forall_forall. intros x Hx. specialize (Hf x Hx). lia.
      * intros x [->|Hx]%elem_of_cons; [done|]. specialize (Hf x Hx). lia.
    + intros Hst'. destruct (Hcc Hst') as (n' & [Hp' Hr' Hn' Hle Hpast Hsk]). exists n'. split; [congruence|done|done|lia| |].
      * intros x [->|Hx]%elem_of_cons; [lia|by apply Hpast].
      * intros x [->|Hx]%elem_of_cons Hgx; [left; by left|].
        destruct (Z.lt_ge_cases (seq_of g) (seq_of x)) as [Hlt|Hxg].
        -- destruct (Hsk x Hx) as [?|(y & ? & ? & ?)]; [lia|left; by right|]. right. exists y.
           split_and!; [by right|by apply sublist_cons|done].
        -- right. exists g. split_and!; [by left| |done]. apply sublist_skip. by apply singleton_sublist_l.
Qed.
End Watching.

(** ** A watcher beside the events it watches *)

Section Feeds.
Context {R : RigTypes} {McpElicitationRequest McpElicitationResult : Type} `{WireUpdates Update}.
Abbreviation Group := (EventGroup (McpElicitationRequest := McpElicitationRequest) (Update := Update)).
Abbreviation State := (ProjectionState (R := R) (McpElicitationRequest := McpElicitationRequest) (Update := Update)).
Abbreviation Watcher := (WatchState (McpElicitationRequest := McpElicitationRequest) (Update := Update)).
Variables (accepts : nat -> bool) (namespace : string) (session : SessionId).
Abbreviation handle := (watch_group accepts namespace session).

(** The kernel's events, the channel's answers and a new watcher in its place,
    in any order; the channel keeps its newest group when it drops others. *)
Inductive feed_step : State * Watcher * bool -> State * Watcher * bool -> Prop :=
| feed_append g base s s' w lag : next_group g s -> append_group g base s = (Ok tt, s') ->
    feed_step (s, w, lag) (s', w, lag)
| feed_receive s w lag : stopped w = false -> position w < length (broadcast s) ->
    feed_step (s, w, lag) (s, watch_received accepts namespace session s w, lag)
| feed_lag p s w lag : stopped w = false -> position w < p < length (broadcast s) ->
    feed_step (s, w, lag) (s, watch_lagged accepts namespace session p s w, true)
| feed_replaced s w lag : feed_step (s, w, lag) (s, stop w, lag).
Definition feed_steps := rtc feed_step.

(** What holds of a running watcher that started at a position. *)
Record watching (start : nat) (s : State) (w : Watcher) (lag : bool) : Prop := {
  wt_position : start <= position w <= length (broadcast s);
  wt_run : forall r, watch_run w = Some r -> exists g, g ∈ take (position w) (broadcast s) /\ group_run g = Some r;
  wt_progress : progress_ok (fun q => exists h, h ∈ broadcast s /\ group_sequence h = q) w;
  wt_read : lag = false -> forall g, g ∈ drop (position w) (broadcast s) -> passed w g -> late (broadcast s) g;
  wt_accounted : forall g, g ∈ drop start (broadcast s) -> g ∈ take (position w) (broadcast s) \/ passed w g ->
    lag = false \/ journaled (broadcast s) g -> accounted (broadcast s) (delivered_groups w) g;
  wt_reach : forall q, progress w = Some q -> forall g, g ∈ drop start (broadcast s) -> (seq_of g <= sequence_get q)%Z ->
    g ∈ take (position w) (broadcast s) \/ passed w g \/ late (broadcast s) g;
  wt_exact : lag = false -> delivered_groups w `sublist_of` drop start (take (position w) (broadcast s)) /\
    forall g, g ∈ drop start (take (position w) (broadcast s)) -> g ∈ delivered_groups w \/ late (broadcast s) g;
  wt_drained : forall g, g ∈ take (position w) (broadcast s) ->
    lag = false \/ (position w = length (broadcast s) /\ last (broadcast s) = Some g) ->
    exists q, progress w = Some q /\ (seq_of g <= sequence_get q)%Z;
  wt_sent : forall h, h ∈ delivered_groups w ->
    (h ∈ take (position w) (broadcast s) \/ passed w h) /\ (is_Some (group_run h) -> passed w h);
  wt_seen : increasing (broadcast s) -> forall n r b l,
    watch_next w = Some n -> watch_run w = Some r -> current (broadcast s) = Some (r, b, l) ->
    forall g, g ∈ l -> g ∈ take (position w) (broadcast s) -> (seq_of g < sequence_get n)%Z
}.

(** What was sent: nothing twice, and an Operation's groups in order. *)
Record sent_ok (start : nat) (log out : list Group) : Prop := {
  so_once : NoDup out;
  so_ordered : increasing (operation_groups out);
  so_published : forall g, g ∈ out -> g ∈ log;
  so_in_order : increasing log -> increasing out /\ forall g, g ∈ out -> g ∈ drop start log
}.

Record feed_ok (start : nat) (s : State) (w : Watcher) (lag : bool) : Prop := {
  feed_projection : projection_ok s;
  feed_start : start <= length (broadcast s);
  feed_sent : sent_ok start (broadcast s) (delivered_groups w);
  feed_watching : stopped w = false -> watching start s w lag
}.

Lemma operation_groups_snoc (l : list Group) g :
  operation_groups (l ++ [g]) = operation_groups l ++ (if group_run g then [g] else []).
Proof. unfold operation_groups. rewrite List.filter_app. cbn. by destruct (group_run g). Qed.

Lemma elem_of_operation_groups (l : list Group) g : g ∈ operation_groups l <-> g ∈ l /\ is_Some (group_run g).
Proof. unfold operation_groups. by rewrite elem_of_bool_filter, bool_decide_eq_true. Qed.

(** *** A kernel event *)

Lemma current_grows (log : list Group) g run b l :
  g ∉ log ->
  (operation_phase g = Some PhaseStart -> forall x, x ∈ log -> group_run x <> group_run g) ->
  current (log ++ [g]) = Some (run, b, l) -> (exists x, x ∈ log /\ group_run x = Some run) ->
  exists b' l', current log = Some (run, b', l') /\ forall x, x ∈ l -> x ∈ log -> x ∈ l'.
Proof.
  intros Hnew Hst Hc (y & Hy & Hyr).
  rewrite current_snoc in Hc. unfold advance in Hc. case_bool_decide as Hphase.
  - destruct (group_run g) as [r|] eqn:Hr; [|by eexists _, _].
    injection Hc as -> <- <-. exfalso. specialize (Hst Hphase y Hy). congruence.
  - destruct (current log) as [[[r0 b0] l0]|]; [|done]. destruct b0; [case_bool_decide|].
    + injection Hc as -> <- <-. eexists _, _. split; [done|].
      intros x [Hx| ->%list_elem_of_singleton]%elem_of_app Hxl; [done|by destruct Hnew].
    + injection Hc as -> <- <-. by eexists _, _.
    + injection Hc as -> <- <-. by eexists _, _.
Qed.

Lemma append_watching start g base (s s' : State) w lag :
  projection_ok s -> stopped w = false -> next_group g s -> append_group g base s = (Ok tt, s') ->
  watching start s w lag -> watching start s' w lag.
Proof.
  intros Hok Hstop Hg Hap Hw. destruct (append_group_ok g base s s' _ Hok Hg Hap) as (_ & Hok' & Hlog).
  destruct Hg as (Hne & _ & Hst). pose proof (fresh_not_elem (broadcast s) g Hne) as Hnew.
  destruct Hw as [Hpos Hrun Hprog Hread Hacc Hreach Hexact Hdrained Hsent Hseen].
  assert (forall k, k <= length (broadcast s) -> take k (broadcast s') = take k (broadcast s)) as Htake.
  { intros k Hk. rewrite Hlog. by apply take_app_le. }
  assert (forall k, k <= length (broadcast s) -> drop k (broadcast s') = drop k (broadcast s) ++ [g]) as Hdrop.
  { intros k Hk. rewrite Hlog. by apply drop_app_le. }
  assert (broadcast s `sublist_of` broadcast s') as Hsub by (rewrite Hlog; apply sublist_extends).
  (* what a sent sequence is past, comes late *)
  assert (forall q, progress w = Some q -> (seq_of g <= sequence_get q)%Z -> late (broadcast s') g) as Hlate.
  { intros q Hq Hle. destruct (proj2 (Hprog Hstop) q Hq) as (h & Hh & <-). rewrite Hlog.
    apply (late_after _ g h); [rewrite <- Hlog; apply log_distinct, (state_log _ Hok')|by apply sublist_snoc|done]. }
  assert (passed w g -> late (broadcast s') g) as Hpassed.
  { intros (n & Hn & Hgn). destruct (proj1 (Hprog Hstop) n Hn) as (q & Hpq & Hle). apply (Hlate q Hpq). lia. }
  split.
  - rewrite Hlog, length_app. lia.
  - intros r Hr. rewrite Htake by lia. by apply Hrun.
  - intros Hs. destruct (Hprog Hs) as [Hn Hp]. split; [done|]. intros q Hq'. destruct (Hp q Hq') as (h & Hh & He).
    exists h. split; [|done]. by eapply sublist_elem.
  - intros Hl x Hx Hxp. rewrite Hdrop in Hx by lia.
    apply elem_of_app in Hx as [Hx| ->%list_elem_of_singleton]; [|by apply Hpassed].
    eapply late_sublist; [exact Hsub|by apply Hread].
  - intros x Hx Hxp Hl. rewrite Hdrop in Hx by lia. rewrite Htake in Hxp by lia.
    apply elem_of_app in Hx as [Hx| ->%list_elem_of_singleton].
    + eapply accounted_more; [exact Hsub|done|]. apply Hacc; [done|done|]. destruct Hl as [Hl|Hl]; [by left|]. right. rewrite Hlog in Hl.
      apply journaled_snoc in Hl as [Hl|[-> _]]; [done|]. destruct Hnew. apply (take_or_drop _ start). by right.
    + apply accounted_late, Hpassed. destruct Hxp as [Hxp|Hxp]; [|done]. destruct Hnew. apply (take_or_drop _ (position w)). by left.
  - intros q Hq' x Hx Hle. rewrite Hdrop in Hx by lia. rewrite Htake by lia.
    apply elem_of_app in Hx as [Hx| ->%list_elem_of_singleton]; [|right; right; by apply (Hlate q)].
    destruct (Hreach q Hq' x Hx Hle) as [?|[?|?]]; [by left|by right; left|]. right. right. by eapply late_sublist.
  - intros Hl. rewrite Htake by lia. destruct (Hexact Hl) as [He Ha]. split; [done|]. intros x Hx.
    destruct (Ha x Hx) as [?|?]; [by left|]. right. by eapply late_sublist.
  - intros x. rewrite Htake by lia. intros Hx [Hl|[Hp _]]; [by apply Hdrained; [|left]|].
    rewrite Hlog, length_app in Hp. cbn in Hp. lia.
  - intros h Hh. rewrite Htake by lia. by apply Hsent.
  - intros Hinc n r b l Hn Hr Hc x Hx Hxt. rewrite Htake in Hxt by lia. rewrite Hlog in Hc.
    destruct (Hrun r Hr) as (y & Hy & Hyr).
    destruct (current_grows (broadcast s) g r b l Hnew (fun Hp => proj2 (proj2 (Hst Hp))) Hc) as (b' & l' & Hc' & Hl').
    { exists y. split; [|done]. apply (take_or_drop _ (position w)). by left. }
    eapply (Hseen (increasing_sublist _ _ Hsub Hinc) n r b' l' Hn Hr Hc' x); [|done]. apply Hl'; [done|]. apply (take_or_drop _ (position w)). by left.
Qed.

(** *** Receiving *)

Record received (start : nat) (s : State) (w : Watcher) (g : Group) : Prop := {
  rc_take : take (Datatypes.S (position w)) (broadcast s) = take (position w) (broadcast s) ++ [g];
  rc_drop : drop (position w) (broadcast s) = g :: drop (Datatypes.S (position w)) (broadcast s);
  rc_length : position w < length (broadcast s);
  rc_later : g ∈ drop start (broadcast s);
  rc_new : g ∉ take (position w) (broadcast s);
  rc_passed : drop start (take (Datatypes.S (position w)) (broadcast s)) = drop start (take (position w) (broadcast s)) ++ [g];
  rc_behind : forall x, x ∈ broadcast s -> (seq_of x <= seq_of g)%Z ->
    x ∈ take (position w) (broadcast s) \/ x = g \/ (x ∈ drop (Datatypes.S (position w)) (broadcast s) /\ late (broadcast s) x);
  rc_last : Datatypes.S (position w) = length (broadcast s) -> forall x, last (broadcast s) = Some x -> x = g
}.

Lemma received_facts start g (s : State) (w : Watcher) :
  distinct (broadcast s) -> broadcast s !! position w = Some g -> start <= position w -> received start s w g.
Proof.
  intros Hdis Hg Hpos.
  assert (take (Datatypes.S (position w)) (broadcast s) = take (position w) (broadcast s) ++ [g]) as Htake
    by by apply take_S_r.
  assert (drop (position w) (broadcast s) = g :: drop (Datatypes.S (position w)) (broadcast s)) as Hdrop
    by by apply drop_S.
  pose proof (lookup_lt_Some _ _ _ Hg) as Hlen.
  split; [done|done|done| | | | |].
  - apply (elem_of_later _ start (position w)); [lia|]. rewrite Hdrop. by left.
  - intros Hx. pose proof (distinct_nodup _ Hdis) as Hn. rewrite <- (take_drop (position w) (broadcast s)) in Hn.
    apply NoDup_app in Hn as (_ & Hn & _). apply (Hn g Hx). rewrite Hdrop. by left.
  - rewrite Htake. apply drop_app_le. rewrite length_take. lia.
  - intros x Hx Hle. destruct (proj1 (take_or_drop _ (Datatypes.S (position w)) x) Hx) as [Hxt|Hxd].
    + rewrite Htake in Hxt. apply elem_of_app in Hxt as [?| ->%list_elem_of_singleton]; [by left|by right; left].
    + right. right. split; [done|]. apply (late_after _ x g Hdis); [|done].
      apply (sublist_before _ (Datatypes.S (position w))); [|done]. rewrite Htake. apply elem_of_app. right. by left.
  - intros Hp x [l' Hx]%last_Some. rewrite Hx in Hg, Hp. rewrite length_app in Hp. cbn in Hp.
    rewrite lookup_app_r in Hg by lia. replace (position w - length l') with 0 in Hg by lia. by injection Hg.
Qed.

Lemma skip_watching start g (s : State) w lag :
  received start s w g -> stopped w = false -> watching start s w lag -> passed w g ->
  watching start s (moved_to_position (Datatypes.S (position w)) w) lag.
Proof.
  intros [Htake Hdrop Hlt Hgl _ Hpo _ Hlast] Hstop [Hpos Hrun Hprog Hread Hacc Hreach Hexact Hdrained Hsent Hseen] Hpg.
  assert (forall x, x ∈ take (position w) (broadcast s) -> x ∈ take (Datatypes.S (position w)) (broadcast s)) as Hmore.
  { intros x. apply elem_of_earlier. lia. }
  assert (exists q, progress w = Some q /\ (seq_of g <= sequence_get q)%Z) as Hgq.
  { destruct Hpg as (n & Hn & Hgn). destruct (proj1 (Hprog Hstop) n Hn) as (q & Hq & Hle). exists q. split; [done|]. lia. }
  split; cbn [position moved_to_position].
  - lia.
  - intros r Hr. destruct (Hrun r Hr) as (x & Hx & Hxr). exists x. split; [by apply Hmore|done].
  - done.
  - intros Hl x Hx. apply (Hread Hl). rewrite Hdrop. by right.
  - intros x Hx Hxp Hl. apply Hacc; [done| |done].
    rewrite Htake, elem_of_app, list_elem_of_singleton in Hxp.
    destruct Hxp as [[Hxt|Hxt]|Hxp]; [by left|right; by subst x|by right].
  - intros q Hq x Hx Hle. destruct (Hreach q Hq x Hx Hle) as [Hxt|Hxp]; [left; by apply Hmore|by right].
  - intros Hl. destruct (Hexact Hl) as [He Ha]. rewrite Hpo. split; [etrans; [exact He|apply sublist_extends]|].
    intros x [Hx| ->%list_elem_of_singleton]%elem_of_app; [by apply Ha|]. right. apply (Hread Hl); [rewrite Hdrop; by left|done].
  - intros x Hx Hc. rewrite Htake in Hx. apply elem_of_app in Hx as [Hx| ->%list_elem_of_singleton]; [|done].
    destruct Hc as [Hl|[Hp' Hx']]; [by apply Hdrained; [|left]|]. by rewrite (Hlast Hp' x Hx').
  - intros h Hh. destruct (Hsent h Hh) as [[Hht|Hhp] Hr]; (split; [|done]); [left; by apply Hmore|by right].
  - intros Hinc n r b l Hn Hr Hc x Hx Hxt. rewrite Htake in Hxt.
    apply elem_of_app in Hxt as [Hxt| ->%list_elem_of_singleton]; [by eapply Hseen|].
    destruct Hpg as (n0 & Hn0 & Hgn). change (watch_next w = Some n) in Hn. congruence.
Qed.

Lemma sent_watching start g (s : State) w w' lag :
  projection_ok s -> received start s w g -> stopped w = false -> watching start s w lag -> ~ passed w g ->
  sent_group g (moved_to_position (Datatypes.S (position w)) w) w' -> watching start s w' lag.
Proof.
  intros Hok [Htake Hdrop Hlt Hgl Hnew Hpo Hbehind Hlast] Hstop
    [Hpos Hrun Hprog Hread Hacc Hreach Hexact Hdrained Hsent Hseen] Hnp Hsg.
  destruct Hok as [Hlog _ _].
  assert (g ∈ broadcast s) as Hgb by (apply (take_or_drop _ start); by right).
  destruct (cursor_after_passed g w w' (log_bounded _ Hlog g Hgb) (sent_cursor _ _ _ Hsg) Hnp) as (Hp1 & Hp2 & Hp3).
  assert (forall x, x ∈ take (position w) (broadcast s) -> x ∈ take (Datatypes.S (position w)) (broadcast s)) as Hmore.
  { intros x. apply elem_of_earlier. lia. }
  assert (g ∈ take (Datatypes.S (position w)) (broadcast s)) as Hgt.
  { rewrite Htake. apply elem_of_app. right. by left. }
  assert (forall x, x ∈ drop start (broadcast s) -> x ∈ broadcast s) as Hin.
  { intros x Hx. apply (take_or_drop _ start). by right. }
  pose proof Hsg as [Hst Hp' Hd Hc (q & Hq & Hqg & Hqo & Hqm)]. cbn [position moved_to_position] in Hp'.
  cbn [delivered_groups moved_to_position] in Hd.
  assert (forall y, y ∈ delivered_groups w -> y ∈ delivered_groups w') as Hout.
  { intros y Hy. rewrite Hd. apply elem_of_app. by left. }
  assert (g ∈ delivered_groups w') as Hgd by (rewrite Hd; apply elem_of_app; right; by left).
  split; rewrite ?Hp'.
  - lia.
  - intros r Hr. unfold cursor_after in Hc. destruct (group_run g) as [run|] eqn:Hgr.
    + exists g. split; [done|]. destruct (Hp3 run eq_refl) as [Hr' _]. congruence.
    + injection Hc as Hcr _. destruct (Hrun r) as (x & Hx & Hxr); [by rewrite <- Hr, Hcr|]. exists x. split; [by apply Hmore|done].
  - apply (sent_progress_ok _ g (moved_to_position (Datatypes.S (position w)) w)); [by exists g|done|done|done].
  - intros Hl x Hx Hxp. destruct (Hp2 x Hxp) as [Hxo|[_ Hle]].
    + apply (Hread Hl x); [|done]. rewrite Hdrop. by right.
    + assert (x ∈ broadcast s) as Hxb by (apply (take_or_drop _ (Datatypes.S (position w))); by right).
      pose proof (sublist_before _ _ _ _ Hgt Hx) as Hs. by apply (late_after _ x g (log_distinct _ Hlog)).
  - intros x Hx Hxp Hl.
    assert (x ∈ take (position w) (broadcast s) \/ passed w x \/ x = g \/ late (broadcast s) x) as [Hxt|[Hxo|[->|Hxl]]].
    { destruct Hxp as [Hxt|Hxp].
      - rewrite Htake in Hxt. apply elem_of_app in Hxt as [?| ->%list_elem_of_singleton]; [by left|by right; right; left].
      - destruct (Hp2 x Hxp) as [Hxo|[_ Hle]]; [by right; left|].
        destruct (Hbehind x (Hin x Hx) Hle) as [?|[?|[_ ?]]]; [by left|by right; right; left|by right; right; right]. }
    + apply (accounted_more (broadcast s) _ (delivered_groups w)); [done|done|]. by apply Hacc; [|left|].
    + apply (accounted_more (broadcast s) _ (delivered_groups w)); [done|done|]. by apply Hacc; [|right|].
    + by apply accounted_sent.
    + by apply accounted_late.
  - intros q' Hq' x Hx Hle. rewrite Hq in Hq'. injection Hq' as <-.
    destruct Hqo as [->|Hqo].
    + destruct (Hbehind x (Hin x Hx) Hle) as [?|[->|[_ ?]]]; [left; by apply Hmore|by left|by right; right].
    + destruct (Hreach q Hqo x Hx Hle) as [Hxt|[Hxp|?]]; [left; by apply Hmore|right; left; by apply Hp1|by right; right].
  - intros Hl. destruct (Hexact Hl) as [He Ha]. rewrite Hpo, Hd. split; [by apply sublist_app|].
    intros x [Hx| ->%list_elem_of_singleton]%elem_of_app; [|left; apply elem_of_app; right; by left].
    destruct (Ha x Hx) as [?|?]; [left; apply elem_of_app; by left|by right].
  - intros x Hx Hcase. rewrite Htake in Hx. apply elem_of_app in Hx as [Hx| ->%list_elem_of_singleton]; [|by exists q].
    destruct Hcase as [Hl|[Hpl Hx']].
    + destruct (Hdrained x Hx (or_introl Hl)) as (q0 & Hq0 & Hle0). exists q. split; [done|].
      specialize (Hqm q0 Hq0). lia.
    + rewrite (Hlast Hpl x Hx') in *. by exists q.
  - intros h. rewrite Hd. intros [Hh| ->%list_elem_of_singleton]%elem_of_app.
    + destruct (Hsent h Hh) as [[?|?] Hr]; (split; [|by intros ?%Hr%Hp1]); [left; by apply Hmore|right; by apply Hp1].
    + split; [by left|]. intros [run Hr]. destruct (Hp3 run Hr) as [_ (n & Hn & Hv)]. exists n. split; [done|lia].
  - intros Hinc n r b l Hn Hr Hcu x Hx Hxt. destruct (group_run g) as [run|] eqn:Hgr.
    + destruct (Hp3 run eq_refl) as [_ (n1 & Hn1 & Hv)]. rewrite Hn in Hn1. injection Hn1 as ->.
      rewrite Htake in Hxt. apply elem_of_app in Hxt as [Hxt| ->%list_elem_of_singleton]; [|lia].
      assert (g ∈ drop (position w) (broadcast s)) as Hgd' by (rewrite Hdrop; by left).
      pose proof (increasing_split _ _ _ _ Hinc Hxt Hgd'). lia.
    + unfold cursor_after in Hc. rewrite Hgr in Hc. injection Hc as Hcr Hcn.
      cbn [watch_run watch_next moved_to_position] in Hcr, Hcn.
      destruct (current_spec _ Hlog r b l Hcu) as (pre & op & Hop). destruct (of_groups _ _ _ _ _ Hop x Hx) as [Hxr _].
      rewrite Htake in Hxt. apply elem_of_app in Hxt as [Hxt|Hxt]; [|apply list_elem_of_singleton in Hxt; subst x; congruence].
      eapply (Hseen Hinc n r b l); [congruence|congruence|done..].
Qed.

(** *** Catching up after a lag *)

(** What the journal still has from the cursor on. *)
Record caught_up (s : State) (w : Watcher) (run : RunId) (n : Sequence) (l : list Group) : Prop := {
  cu_run : watch_run w = Some run;
  cu_next : watch_next w = Some n;
  cu_sublist : l `sublist_of` broadcast s;
  cu_groups : forall x, x ∈ l -> group_run x = Some run /\ (seq_of x < MAX_SAFE_INTEGER)%Z /\ (sequence_get n <= seq_of x)%Z;
  cu_rest : forall x, journaled (broadcast s) x -> x ∈ drop (position w) (broadcast s) -> ~ passed w x ->
    exists y, (y = x \/ superseded (broadcast s) x y) /\ (y ∈ l \/ late (broadcast s) y);
  cu_seen : increasing (broadcast s) -> (forall x, x ∈ l -> x ∈ drop (position w) (broadcast s)) /\
    forall b all, current (broadcast s) = Some (run, b, all) -> forall x, x ∈ all ->
      (seq_of x < sequence_get n)%Z \/ exists y, y ∈ l /\ (seq_of x <= seq_of y)%Z
}.

(** What a journal has from a cursor on: the Operation's groups, or what took
    their place. *)
Lemma groups_from_spec (s : State) j run b all n :
  projection_ok s -> journal s = Some j -> current (broadcast s) = Some (run, b, all) ->
  groups_from n j `sublist_of` broadcast s /\
  (forall x, x ∈ groups_from n j -> x ∈ all /\ (sequence_get n <= seq_of x)%Z) /\
  (forall x, x ∈ all -> (sequence_get n <= seq_of x)%Z ->
     exists y, (y = x \/ superseded (broadcast s) x y) /\ (y ∈ groups_from n j \/ late (broadcast s) y)) /\
  (increasing (broadcast s) -> forall x, x ∈ all -> (sequence_get n <= seq_of x)%Z ->
     exists y, y ∈ groups_from n j /\ (seq_of x <= seq_of y)%Z).
Proof.
  intros [Hlog _ Hj] Hjs Hc. rewrite Hc, Hjs in Hj. destruct Hj as (_ & _ & Hg & _).
  destruct (current_spec _ Hlog run b all Hc) as (pre & op & Hop). pose proof (of_sublist_log _ _ _ _ _ Hop) as Hsub.
  assert (forall x, x ∈ groups_from n j <-> x ∈ retain all /\ (sequence_get n <= seq_of x)%Z) as Hel.
  { intros x. unfold groups_from. rewrite Hg, elem_of_bool_filter, Z.leb_le. done. }
  destruct (retain_spec all) as [_ Hret].
  assert (forall x, x ∈ all -> (sequence_get n <= seq_of x)%Z ->
    x ∈ groups_from n j \/ exists y, superseded (broadcast s) x y /\ (y ∈ groups_from n j \/ ((seq_of y < seq_of x)%Z /\ late (broadcast s) y))) as Hcover.
  { intros x Hx Hge. destruct (Hret x Hx) as [Hxr|(y & Hy & Hxy)]; [left; by apply Hel|]. right.
    pose proof (superseded_sublist _ _ _ _ Hsub Hxy) as Hxy'. exists y. split; [done|].
    destruct (Z.lt_ge_cases (seq_of y) (sequence_get n)) as [Hlt|?]; [|left; by apply Hel]. right. split; [lia|].
    destruct Hxy' as [Hs _]. exists x. split; [done|]. lia. }
  split_and!.
  - etrans; [|exact Hsub]. etrans; [|apply retain_sublist]. rewrite <- Hg. apply filter_sublist.
  - intros x [Hx Hge]%Hel. split; [|done]. eapply sublist_elem; [apply retain_sublist|done].
  - intros x Hx Hge. destruct (Hcover x Hx Hge) as [?|(y & Hxy & [?|[_ ?]])].
    + exists x. split; by left.
    + exists y. split; [by right|by left].
    + exists y. split; by right.
  - intros Hi x Hx Hge. destruct (Hcover x Hx Hge) as [?|(y & [Hs _] & [?|[_ Hl]])].
    + exists x. split; [done|lia].
    + exists y. split; [done|]. apply (increasing_sublist _ _ Hs) in Hi. inversion Hi as [|? ? _ Ha]; subst.
      inversion Ha; subst. lia.
    + by apply increasing_not_late in Hl.
Qed.

Lemma snapshot_catches_up start (s : State) w lag run n l :
  projection_ok s -> watching start s w lag -> watch_run w = Some run -> watch_next w = Some n ->
  snapshot_from run n s = Ok l -> caught_up s w run n l.
Proof.
  intros Hok Hw Hr Hn. unfold snapshot_from, addressed. pose proof Hok as [Hlog _ Hj].
  destruct (journal s) as [j|] eqn:Hjs; [|done]. destruct (bool_decide _ && _) eqn:Ha; [|done].
  apply andb_true_iff in Ha as [Ha%bool_decide_eq_true _]. cbn [ok_or result_bind].
  destruct (covers j n); [|done]. cbn [ok_or result_bind]. intros [= <-].
  destruct (current (broadcast s)) as [[[run' b] all]|] eqn:Hc; [|done]. destruct Hj as (Hjr & _).
  assert (run' = run) as -> by congruence.
  destruct (groups_from_spec s j run b all n Hok Hjs Hc) as (Hsub & Hgf & Hcover & Hinc).
  destruct (current_spec _ Hlog run b all Hc) as (pre & op & Hop).
  pose proof (wt_run _ _ _ _ Hw run Hr) as (y0 & Hy0 & Hy0r).
  assert (forall x, x ∈ all -> x ∈ broadcast s) as Hab.
  { intros x Hx. eapply sublist_elem; [eapply of_sublist_log, Hop|done]. }
  split; [done|done|done| | |].
  - intros x Hx. destruct (Hgf x Hx) as [Hxa Hge]. split_and!; [by apply (of_groups _ _ _ _ _ Hop)|by apply (log_bounded _ Hlog), Hab|done].
  - intros x Hjx Hxd Hnp. apply Hcover; [by eapply after_operation|].
    destruct (Z.lt_ge_cases (seq_of x) (sequence_get n)); [|done]. destruct Hnp. by exists n.
  - intros Hi. split.
    + intros x Hx. destruct (Hgf x Hx) as [Hxa Hge].
      destruct (proj1 (take_or_drop _ (position w) x) (Hab x Hxa)) as [Hxt|?]; [|done].
      pose proof (wt_seen _ _ _ _ Hw Hi n run b all Hn Hr Hc x Hxa Hxt). lia.
    + intros b' all' Hc' x Hx. rewrite Hc in Hc'. injection Hc' as <- <-.
      destruct (Z.lt_ge_cases (seq_of x) (sequence_get n)) as [?|Hge]; [by left|]. right. by apply (Hinc Hi).
Qed.

Lemma lag_watching start p (s : State) w w' lag run n n' l sent :
  projection_ok s -> position w < p < length (broadcast s) -> stopped w = false ->
  watching start s w lag -> caught_up s w run n l -> stopped w' = false ->
  progress_ok (fun q => (exists x, x ∈ l /\ q = group_sequence x) \/ progress w = Some q) w' ->
  progress_ok (fun q => exists h, h ∈ broadcast s /\ group_sequence h = q) w' ->
  sent_list l sent n (moved_to_position p w) w' -> sent_cursor_at l sent run n n' (moved_to_position p w) w' ->
  watching start s w' true.
Proof.
  intros Hok Hp Hstop [Hpos Hrun Hprog Hread Hacc Hreach Hexact Hdrained Hsent Hseen]
    [Hr Hn Hsubl Hl Hrest Hcs] Hst Hq1 Hq2 [Hd Hsub Hinc Hfrom] [Hpos' Hr' Hn' Hle Hlt Hskip].
  cbn [position delivered_groups moved_to_position] in Hd, Hpos'. destruct Hok as [Hlog _ _].
  assert (forall x, x ∈ take (position w) (broadcast s) -> x ∈ take p (broadcast s)) as Hmore.
  { intros x. apply elem_of_earlier. lia. }
  assert (forall x, passed w x -> passed w' x) as Hpass.
  { intros x (n0 & Hn0 & Hx). rewrite Hn in Hn0. injection Hn0 as <-. exists n'. split; [done|lia]. }
  assert (forall x, x ∈ l -> x ∈ delivered_groups w' \/ late (broadcast s) x) as Hls.
  { intros x Hx. destruct (Hskip x Hx) as [?|(y & Hy & Hs & Hxy)]; [by apply Hl|left; rewrite Hd; apply elem_of_app; by right|].
    right. apply (late_after _ x y (log_distinct _ Hlog)); [by etrans|done]. }
  split; rewrite ?Hpos'; try done.
  - lia.
  - intros r Hrr. rewrite Hr' in Hrr. injection Hrr as <-. destruct (Hrun run Hr) as (x & Hx & Hxr).
    exists x. split; [by apply Hmore|done].
  - intros x Hx Hxp [?|Hjx]; [done|].
    assert (accounted (broadcast s) (delivered_groups w) x -> accounted (broadcast s) (delivered_groups w') x) as Hold.
    { apply accounted_more; [done|]. intros y Hy. rewrite Hd. apply elem_of_app. by left. }
    destruct (proj1 (take_or_drop _ (position w) x) (journaled_elem _ _ Hjx)) as [Hxt|Hxd].
    { apply Hold, Hacc; [done|by left|by right]. }
    destruct (Z.lt_ge_cases (seq_of x) (sequence_get n)) as [Hlt'|Hge].
    { apply Hold, Hacc; [done|right; by exists n|by right]. }
    destruct (Hrest x Hjx Hxd) as (y & Hy & Hys).
    + intros (n0 & Hn0 & Hx0). rewrite Hn in Hn0. injection Hn0 as <-. lia.
    + exists y. split; [done|]. destruct Hys as [Hyl|?]; [by apply Hls|by right].
  - intros q Hq x Hx Hxq. destruct (proj2 (Hq1 Hst) q Hq) as [(y & Hy & ->)|Hold].
    + right. left. exists n'. split; [done|]. change (sequence_get (group_sequence y)) with (seq_of y) in Hxq.
      destruct (Hskip y Hy) as [Hys|(z & Hz & _ & Hyz)]; [by apply Hl|specialize (Hlt y Hys); lia|specialize (Hlt z Hz); lia].
    + destruct (Hreach q Hold x Hx Hxq) as [?|[?|?]]; [left; by apply Hmore|right; left; by apply Hpass|by right; right].
  - intros x _ [?|[? _]]; [done|lia].
  - intros h. rewrite Hd. intros [Hh|Hh]%elem_of_app.
    + destruct (Hsent h Hh) as [[?|?] Hhr]; (split; [|by intros ?%Hhr%Hpass]); [left; by apply Hmore|right; by apply Hpass].
    + assert (passed w' h) by (exists n'; split; [done|by apply Hlt]). split; [by right|done].
  - intros Hi n0 r b all Hn0 Hrr Hc x Hx Hxt. rewrite Hn' in Hn0. injection Hn0 as <-. rewrite Hr' in Hrr. injection Hrr as <-.
    destruct (proj2 (Hcs Hi) b all Hc x Hx) as [?|(y & Hy & Hxy)]; [lia|].
    destruct (Hskip y Hy) as [Hys|(z & Hz & _ & Hyz)]; [by apply Hl|specialize (Hlt y Hys); lia|specialize (Hlt z Hz); lia].
Qed.

(** *** Every step *)

Lemma received_step start g (s : State) w lag :
  feed_ok start s w lag -> stopped w = false -> broadcast s !! position w = Some g ->
  feed_ok start s (watch_received accepts namespace session s w) lag.
Proof.
  intros [Hok Hlen Hso Hw] Hstop Hg. specialize (Hw Hstop). unfold watch_received. rewrite Hg.
  pose proof (received_facts start g s w (log_distinct _ (state_log _ Hok)) Hg (proj1 (wt_position _ _ _ _ Hw))) as Hrc.
  set (w1 := moved_to_position (Datatypes.S (position w)) w).
  destruct (watch_group_cases accepts namespace session g w1 Hstop) as [[Hst Hd]|[[-> Hp]|[Hnp Hs]]].
  - split; [done|done|by rewrite Hd|]. intros Hst'. congruence.
  - split; [done..|]. intros _. by eapply skip_watching.
  - pose proof (sent_groups _ _ _ Hs) as Hd. cbn in Hd. split; [done|done| |intros _; by eapply sent_watching].
    destruct Hso as [Hno Hord Hpub Hio]. pose proof (rc_later _ _ _ _ Hrc) as Hgl.
    assert (g ∈ broadcast s) as Hgb by (apply (take_or_drop _ start); by right).
    assert (forall x, x ∈ delivered_groups w -> is_Some (group_run x) -> (seq_of x < seq_of g)%Z) as Hbefore.
    { intros x Hx Hxr. destruct (proj2 (wt_sent _ _ _ _ Hw x Hx) Hxr) as (n & Hn & Hx').
      destruct (Z.lt_ge_cases (seq_of g) (sequence_get n)); [|lia]. destruct Hnp. by exists n. }
    rewrite Hd. split.
    + apply NoDup_app. split; [done|]. split; [|apply NoDup_singleton]. intros x Hx ->%list_elem_of_singleton.
      destruct (proj1 (wt_sent _ _ _ _ Hw g Hx)) as [Hxt|Hxp]; [by apply (rc_new _ _ _ _ Hrc)|done].
    + rewrite operation_groups_snoc. destruct (group_run g); [|by rewrite app_nil_r].
      apply increasing_snoc. split; [done|]. intros x [Hx Hxr]%elem_of_operation_groups. by apply Hbefore.
    + intros x [Hx| ->%list_elem_of_singleton]%elem_of_app; [by apply Hpub|done].
    + intros Hi. destruct (Hio Hi) as [Hinc Hla]. split.
      * apply increasing_snoc. split; [done|]. intros x Hx.
        destruct (proj1 (wt_sent _ _ _ _ Hw x Hx)) as [Hxt|(n & Hn & Hx')].
        -- apply (increasing_split _ _ _ _ Hi Hxt). rewrite (rc_drop _ _ _ _ Hrc). by left.
        -- destruct (Z.lt_ge_cases (seq_of g) (sequence_get n)); [|lia]. destruct Hnp. by exists n.
      * intros x [Hx| ->%list_elem_of_singleton]%elem_of_app; [by apply Hla|done].
Qed.

Lemma lag_sent_ok start (s : State) w lag run n l sent :
  projection_ok s -> watching start s w lag -> caught_up s w run n l ->
  sent `sublist_of` l -> increasing sent ->
  sent_ok start (broadcast s) (delivered_groups w) -> sent_ok start (broadcast s) (delivered_groups w ++ sent).
Proof.
  intros Hok Hw Hcu Hsub Hinc [Hno Hord Hpub Hio].
  assert (forall x, x ∈ sent -> x ∈ l) as Hsl by (intros x; by apply sublist_elem).
  assert (forall x, x ∈ sent -> ~ passed w x) as Hnp.
  { intros x Hx (n0 & Hn0 & Hlt). rewrite (cu_next _ _ _ _ _ Hcu) in Hn0. injection Hn0 as <-.
    destruct (cu_groups _ _ _ _ _ Hcu x (Hsl x Hx)) as (_ & _ & Hge). lia. }
  assert (forall x, x ∈ sent -> is_Some (group_run x)) as Hrun.
  { intros x Hx. destruct (cu_groups _ _ _ _ _ Hcu x (Hsl x Hx)) as [Hr _]. by rewrite Hr. }
  split.
  - apply NoDup_app. split; [done|]. split.
    + intros x Hx Hxs. by apply (Hnp x Hxs), (wt_sent _ _ _ _ Hw x Hx), Hrun.
    + by apply distinct_nodup, increasing_distinct.
  - unfold operation_groups. rewrite List.filter_app. apply increasing_app. split; [done|]. split; [by apply increasing_filter|].
    intros x y [Hx Hxr]%elem_of_operation_groups [Hy _]%elem_of_operation_groups.
    destruct (proj2 (wt_sent _ _ _ _ Hw x Hx) Hxr) as (n0 & Hn0 & Hlt). rewrite (cu_next _ _ _ _ _ Hcu) in Hn0. injection Hn0 as <-.
    destruct (cu_groups _ _ _ _ _ Hcu y (Hsl y Hy)) as (_ & _ & Hge). lia.
  - intros x [Hx|Hx]%elem_of_app; [by apply Hpub|]. eapply sublist_elem; [apply (cu_sublist _ _ _ _ _ Hcu)|by apply Hsl].
  - intros Hi. destruct (Hio Hi) as [Hdi Hla]. destruct (cu_seen _ _ _ _ _ Hcu Hi) as [Hahead _]. split.
    + apply increasing_app. split; [done|]. split; [done|]. intros x y Hx Hy.
      destruct (proj1 (wt_sent _ _ _ _ Hw x Hx)) as [Hxt|(n0 & Hn0 & Hlt)].
      * apply (increasing_split _ _ _ _ Hi Hxt). by apply Hahead, Hsl.
      * rewrite (cu_next _ _ _ _ _ Hcu) in Hn0. injection Hn0 as <-.
        destruct (cu_groups _ _ _ _ _ Hcu y (Hsl y Hy)) as (_ & _ & Hge). lia.
    + intros x [Hx|Hx]%elem_of_app; [by apply Hla|].
      apply (elem_of_later _ start (position w)); [apply (wt_position _ _ _ _ Hw)|]. by apply Hahead, Hsl.
Qed.

Lemma lagged_step start p (s : State) w lag :
  feed_ok start s w lag -> stopped w = false -> position w < p < length (broadcast s) ->
  feed_ok start s (watch_lagged accepts namespace session p s w) true.
Proof.
  intros [Hok Hlen Hso Hw] Hstop Hp. specialize (Hw Hstop). unfold watch_lagged.
  set (w1 := moved_to_position p w).
  assert (feed_ok start s (stop w1) true) as Hstopped by (by split).
  change (watch_run w1) with (watch_run w). change (watch_next w1) with (watch_next w).
  destruct (watch_run w) as [run|] eqn:Hr; [|done]. destruct (watch_next w) as [n|] eqn:Hn; [|done].
  destruct (snapshot_from run n s) as [l|e] eqn:Hsnap; [|done].
  pose proof (snapshot_catches_up start s w lag run n l Hok Hw Hr Hn Hsnap) as Hcu.
  destruct (watch_groups_spec accepts namespace session run l
    (fun x Hx => conj (proj1 (cu_groups _ _ _ _ _ Hcu x Hx)) (proj1 (proj2 (cu_groups _ _ _ _ _ Hcu x Hx))))
    w1 n Hstop Hr Hn) as (sent & Hsl & Hcur).
  set (w' := watch_groups accepts namespace session l w1) in *.
  pose proof (list_groups _ _ _ _ _ Hsl) as Hd. change (delivered_groups w1) with (delivered_groups w) in Hd.
  split; [done|done| |].
  - rewrite Hd. eapply lag_sent_ok; [done|exact Hw|exact Hcu|apply (list_sublist _ _ _ _ _ Hsl)|apply (list_increasing _ _ _ _ _ Hsl)|done].
  - intros Hst. destruct (Hcur Hst) as (n' & Hca).
    apply (lag_watching start p s w w' lag run n n' l sent); [done|done|done|done|done|done| | |done|done].
    + apply watch_groups_progress; [intros x Hx; left; by exists x|].
      intros _. split; [by apply (wt_progress _ _ _ _ Hw)|by right].
    + apply watch_groups_progress; [|by apply (wt_progress _ _ _ _ Hw)].
      intros x Hx. exists x. split; [|done]. eapply sublist_elem; [apply (cu_sublist _ _ _ _ _ Hcu)|done].
Qed.

Lemma append_step start g base (s s' : State) w lag :
  feed_ok start s w lag -> next_group g s -> append_group g base s = (Ok tt, s') -> feed_ok start s' w lag.
Proof.
  intros [Hok Hlen [Hno Hord Hpub Hio] Hw] Hg Hap. destruct (append_group_ok g base s s' _ Hok Hg Hap) as (_ & Hok' & Hlog).
  assert (broadcast s `sublist_of` broadcast s') as Hsub by (rewrite Hlog; apply sublist_extends).
  split; [done| | |].
  - rewrite Hlog, length_app. lia.
  - split; [done|done| |].
    + intros x Hx. eapply sublist_elem; [exact Hsub|by apply Hpub].
    + intros Hi. destruct (Hio (increasing_sublist _ _ Hsub Hi)) as [Hd Hla]. split; [done|].
      intros x Hx. rewrite Hlog, drop_app_le by done. apply elem_of_app. left. by apply Hla.
  - intros Hstop. apply (append_watching start g base s s' w lag); auto.
Qed.

(** A watcher as its task starts: what was broadcast before is behind it. *)
Record attached (s : State) (w : Watcher) : Prop := {
  at_position : position w = length (broadcast s);
  at_running : stopped w = false;
  at_nothing : delivered_groups w = [];
  at_progress : progress w = last_sequence s;
  at_run : forall run, watch_run w = Some run -> exists g, g ∈ broadcast s /\ group_run g = Some run;
  at_next : forall n, watch_next w = Some n -> exists q, last_sequence s = Some q /\ (sequence_get n <= sequence_get q + 1)%Z;
  at_seen : increasing (broadcast s) -> forall n run b l,
    watch_next w = Some n -> watch_run w = Some run -> current (broadcast s) = Some (run, b, l) ->
    forall g, g ∈ l -> (seq_of g < sequence_get n)%Z
}.

Lemma attached_ok (s : State) w : projection_ok s -> attached s w -> feed_ok (length (broadcast s)) s w false.
Proof.
  intros Hok [Hpos Hrun Hno Hprog Hr Hn Hseen].
  assert (take (position w) (broadcast s) = broadcast s) as Htake by (rewrite Hpos; by apply take_ge).
  assert (drop (position w) (broadcast s) = []) as Hdrop by (rewrite Hpos; by apply drop_ge).
  assert (drop (length (broadcast s)) (broadcast s) = []) as Hdrop' by by apply drop_ge.
  pose proof (state_last _ Hok) as Hlast. rewrite <- Hprog in Hlast.
  split; [done|lia|rewrite Hno; split; [constructor|constructor|by intros g ?%elem_of_nil|]|].
  { intros _. split; [constructor|by intros g ?%elem_of_nil]. }
  intros _. split; rewrite ?Htake, ?Hdrop, ?Hdrop', ?Hno; try done.
  - lia.
  - intros _. split.
    + intros n Hnn. destruct (Hn n Hnn) as (q & Hq & Hle). exists q. by rewrite Hprog.
    + intros q Hq. rewrite Hq in Hlast. by destruct Hlast.
  - by intros _ g ?%elem_of_nil.
  - by intros g ?%elem_of_nil.
  - by intros q _ g ?%elem_of_nil.
  - intros _. split; [done|by intros g ?%elem_of_nil].
  - intros g Hg _. destruct (progress w) as [q|]; [|rewrite Hlast in Hg; by apply elem_of_nil in Hg].
    exists q. split; [done|]. by apply Hlast.
  - by intros h ?%elem_of_nil.
  - intros Hi n r b l Hn' Hr' Hc g Hg _. by eapply Hseen.
Qed.

Lemma feed_steps_ok start (s s' : State) w w' lag lag' :
  feed_steps (s, w, lag) (s', w', lag') -> feed_ok start s w lag -> feed_ok start s' w' lag'.
Proof.
  intros Hrun. set (P := fun c : State * Watcher * bool => feed_ok start c.1.1 c.1.2 c.2).
  change (P (s, w, lag) -> P (s', w', lag')). induction Hrun as [|c c' c'' Hstep _ IH]; [done|]. intros Hok. apply IH.
  clear IH. unfold P in *. destruct Hstep as [g base s0 s1 w0 lag0 Hg Hap|s0 w0 lag0 Hs Hp|p s0 w0 lag0 Hs Hp|s0 w0 lag0]; cbn in *.
  - by eapply append_step.
  - destruct (lookup_lt_is_Some_2 _ _ Hp) as [g Hg]. by eapply received_step.
  - by eapply lagged_step.
  - destruct Hok as [? ? ? _]. by split.
Qed.
End Feeds.

(** ** Attaching *)

Section Attaching.
Context {R : RigTypes} {McpElicitationRequest McpElicitationResult : Type} `{WireUpdates Update}.
Abbreviation Group := (EventGroup (McpElicitationRequest := McpElicitationRequest) (Update := Update)).
Abbreviation State := (ProjectionState (R := R) (McpElicitationRequest := McpElicitationRequest) (Update := Update)).
Abbreviation Watcher := (WatchState (McpElicitationRequest := McpElicitationRequest) (Update := Update)).
Variables (accepts : nat -> bool) (namespace : string) (session : SessionId).

(** What sending a backlog leaves alone, and the cursor it leaves. *)
Record backlog_sent (l : list Group) (run : RunId) (w w' : Watcher) : Prop := {
  bs_position : position w' = position w;
  bs_running : stopped w' = stopped w;
  bs_groups : delivered_groups w' = delivered_groups w;
  bs_progress : progress w' = progress w;
  bs_cursor : match last l with
              | None => watch_run w' = watch_run w /\ watch_next w' = watch_next w
              | Some g => watch_run w' = Some run /\
                  exists n, watch_next w' = Some n /\ sequence_get n = (seq_of g + 1)%Z
              end
}.

Lemma send_backlog_spec run l : (forall x, x ∈ l -> group_run x = Some run /\ (seq_of x < MAX_SAFE_INTEGER)%Z) ->
  forall (w w' : Watcher), send_backlog accepts namespace session l w = Some w' -> backlog_sent l run w w'.
Proof.
  induction l as [|g l IH]; cbn [send_backlog]; intros Hl w w' Hs; [by injection Hs as <-|].
  destruct (Hl g) as [Hgr Hgm]; [by left|].
  assert (exists w1, send_backlog accepts namespace session l (record_sent g w1) = Some w' /\
    position w1 = position w /\ stopped w1 = stopped w /\ delivered_groups w1 = delivered_groups w /\
    progress w1 = progress w) as (w1 & Hs1 & Hp & Hst & Hd & Hpr).
  { destruct (replayed g) as [kept|]; [|by exists w]. destruct (notifications _ _ _) as [notes|]; [|done].
    destruct (send_notes accepts notes w) as [[] w1] eqn:Hn; [|done].
    apply send_notes_spec in Hn as (? & _ & _ & ? & ? & ?). by exists w1. }
  apply IH in Hs1; [|intros x Hx; apply Hl; by right]. destruct Hs1 as [Hp' Hst' Hd' Hpr' Hc].
  unfold record_sent in *. rewrite Hgr in *.
  destruct (sequence_try_from_in (seq_of g + 1)) as (n1 & Hn1 & Hv).
  { unfold sequence_in_range. pose proof (sequence_range (group_sequence g)). unfold seq_of in *.
    rewrite (proj2 (Z.leb_le _ _)) by lia. cbn. apply Z.leb_le. lia. }
  cbn [position stopped delivered_groups progress watch_run watch_next] in *. split; [congruence..|].
  destruct l as [|g' l].
  - cbn in Hc |- *. destruct Hc as [-> ->]. split; [done|]. unfold seq_of in Hn1, Hv |- *. rewrite Hn1. by exists n1.
  - rewrite last_cons_cons. destruct (last (g' :: l)) eqn:Hl'; [done|by apply last_None in Hl'].
Qed.

Lemma report_state_spec title f (w w' : Watcher) : report_state accepts session title f w = Some w' ->
  position w' = position w /\ watch_run w' = watch_run w /\ watch_next w' = watch_next w /\
  progress w' = progress w /\ delivered_groups w' = delivered_groups w /\ stopped w' = stopped w.
Proof.
  unfold report_state. destruct (send_notes _ _ _) as [[] w1] eqn:Hn; [|done]. intros [= <-]. by eapply send_notes_spec.
Qed.

Lemma attached_live (s : State) resumed title w : projection_ok s ->
  watch_projection_live accepts session resumed title (subscribe_live s) = Some w -> attached s w.
Proof.
  intros Hok Hw.
  assert (position w = length (broadcast s) /\ watch_run w = None /\ watch_next w = None /\
    progress w = last_sequence s /\ delivered_groups w = [] /\ stopped w = false) as (Hp & Hr & Hn & Hpr & Hd & Hs).
  { unfold watch_projection_live in Hw. destruct resumed; [by apply report_state_spec in Hw|by injection Hw as <-]. }
  split; try done; rewrite ?Hr, ?Hn; done.
Qed.

(** A feed of a journal: everything from a cursor it covers. *)
(** A feed of a journal: its groups from some place on, read where the channel
    stands. *)
Record feed_of (s : State) (run : RunId)
  (f : ProjectionFeed (R := R) (McpElicitationRequest := McpElicitationRequest) (Update := Update)) : Prop := {
  fo_receiver : receiver f = length (broadcast s);
  fo_delivered : feed_delivered f = last_sequence s;
  fo_run : feed_run f = run;
  fo_groups : forall x, x ∈ backlog f -> group_run x = Some run /\ x ∈ broadcast s;
  fo_named : exists g, g ∈ broadcast s /\ group_run g = Some run /\ (sequence_get (feed_next f) <= seq_of g + 1)%Z;
  fo_in_order : increasing (broadcast s) -> increasing (backlog f) /\
    (forall x, x ∈ backlog f -> (sequence_get (feed_next f) <= seq_of x)%Z) /\
    forall b all x, current (broadcast s) = Some (run, b, all) -> x ∈ all ->
      (seq_of x < sequence_get (feed_next f))%Z \/ exists y, y ∈ backlog f /\ (seq_of x <= seq_of y)%Z
}.

Lemma journal_member (s : State) j run b all g : projection_ok s -> journal s = Some j ->
  current (broadcast s) = Some (run, b, all) -> g ∈ groups j -> g ∈ all /\ g ∈ broadcast s /\ group_run g = Some run.
Proof.
  intros Hok Hjs Hc Hg. pose proof (state_journal _ Hok) as Hj. rewrite Hc, Hjs in Hj. destruct Hj as (_ & _ & Hgr & _).
  destruct (current_spec _ (state_log _ Hok) run b all Hc) as (pre & op & Hop).
  assert (g ∈ all) as Hga by (rewrite Hgr in Hg; eapply sublist_elem; [apply retain_sublist|done]).
  split; [done|]. split; [|by apply (of_groups _ _ _ _ _ Hop)]. eapply sublist_elem; [eapply of_sublist_log, Hop|done].
Qed.

Lemma last_elem {A} (l : list A) x : last l = Some x -> x ∈ l.
Proof. intros [l' ->]%last_Some. apply elem_of_app. right. by left. Qed.

(** The feed a cursor is served, when the journal covers it. *)
Lemma cursor_feed (s : State) run n f : projection_ok s -> subscribe_from_cursor run n s = Ok f ->
  exists b all j, current (broadcast s) = Some (run, b, all) /\ journal s = Some j /\ feed_running f = b /\
    backlog f = groups_from n j /\ feed_of s run f.
Proof.
  intros Hok. unfold subscribe_from_cursor, addressed. pose proof (state_journal _ Hok) as Hj.
  destruct (journal s) as [j|] eqn:Hjs; [|done]. destruct (bool_decide _ && _) eqn:Ha; [|done].
  apply andb_true_iff in Ha as [Ha%bool_decide_eq_true _]. cbn [ok_or result_bind].
  destruct (covers j n) as [tail|] eqn:Hcov; [|done]. cbn [ok_or result_bind]. intros [= <-].
  destruct (current (broadcast s)) as [[[run' b] all]|] eqn:Hc; [|done]. destruct Hj as (Hjr & Hb & _).
  assert (run' = run) as -> by congruence.
  destruct (groups_from_spec s j run b all n Hok Hjs Hc) as (Hsub & Hgf & _ & Hinc).
  destruct (current_spec _ (state_log _ Hok) run b all Hc) as (pre & op & Hop).
  exists b, all, j. split_and!; try done. split; cbn [receiver feed_delivered feed_run feed_next backlog]; try done.
  - intros x Hx. split; [|by eapply sublist_elem]. by apply (of_groups _ _ _ _ _ Hop), Hgf.
  - unfold covers in Hcov. destruct (head (groups j)); [|done].
    destruct (last (groups j)) as [final|] eqn:Hlast; [|done]. destruct (_ || _) eqn:Hout; [done|].
    apply orb_false_iff in Hout as [_ Hout%Z.ltb_ge]. exists final.
    destruct (journal_member s j run b all final Hok Hjs Hc (last_elem _ _ Hlast)) as (_ & ? & ?).
    split_and!; [done|done|]. unfold u64_saturating_add, seq_of in *. lia.
  - intros Hi. split; [by eapply increasing_sublist|]. split; [by intros x Hx; apply Hgf|].
    intros b' all' x Hc' Hx. rewrite Hc in Hc'. injection Hc' as <- <-.
    destruct (Z.lt_ge_cases (seq_of x) (sequence_get n)) as [?|Hge]; [by left|]. right. by apply (Hinc Hi).
Qed.

Lemma attached_feed (s : State) run f title w : projection_ok s -> feed_of s run f ->
  watch_projection_feed accepts namespace session title f = Some w -> attached s w.
Proof.
  intros Hok [Hrec Hdel Hrun Hgr (g0 & Hg0 & Hg0r & Hg0n) Hio] Hw. unfold watch_projection_feed in Hw.
  pose proof (state_log _ Hok) as Hlog.
  destruct (send_backlog _ _ _ _ _) as [w1|] eqn:Hs; [|done]. cbn in Hw.
  apply report_state_spec in Hw as (Hp & Hr & Hn & Hpr & Hd & Hst).
  apply (send_backlog_spec run) in Hs as [Hp1 Hst1 Hd1 Hpr1 Hc1].
  2: { intros x Hx. destruct (Hgr x Hx) as (? & ?). split; [done|by apply (log_bounded _ Hlog)]. }
  cbn in Hp1, Hst1, Hd1, Hpr1.
  assert (watch_run w = Some run /\ exists n', watch_next w = Some n' /\
    (exists g, g ∈ broadcast s /\ (sequence_get n' <= seq_of g + 1)%Z) /\
    (increasing (broadcast s) -> (sequence_get (feed_next f) <= sequence_get n')%Z /\
     forall y, y ∈ backlog f -> (seq_of y < sequence_get n')%Z)) as (Hr' & n' & Hn' & (g & Hg & Hgn) & Hlt).
  { rewrite Hr, Hn. destruct (last (backlog f)) as [g|] eqn:Hl.
    - destruct Hc1 as (-> & n' & -> & Hv). split; [done|]. exists n'. split; [done|].
      destruct (Hgr g (last_elem _ _ Hl)) as (_ & Hgb). split; [exists g; split; [done|lia]|].
      intros Hi. destruct (Hio Hi) as (Hinc & Hge & _). specialize (Hge g (last_elem _ _ Hl)). split; [lia|].
      apply last_Some in Hl as [l' Hl]. intros y Hy. rewrite Hl in Hy, Hinc.
      apply increasing_snoc in Hinc as [_ Hinc]. apply elem_of_app in Hy as [Hy| ->%list_elem_of_singleton]; [|lia].
      specialize (Hinc y Hy). lia.
    - apply last_None in Hl. destruct Hc1 as [-> ->]. cbn. rewrite Hrun. split; [done|]. exists (feed_next f).
      split; [done|]. split; [by exists g0|]. split; [lia|by rewrite Hl; intros y ?%elem_of_nil]. }
  pose proof (state_last _ Hok) as Hlast.
  split.
  - congruence.
  - by rewrite Hst, Hst1.
  - by rewrite Hd, Hd1.
  - by rewrite Hpr, Hpr1.
  - intros r Hrr. rewrite Hr' in Hrr. injection Hrr as <-. by exists g0.
  - intros n0 Hn0. rewrite Hn' in Hn0. injection Hn0 as <-.
    destruct (last_sequence s) as [q|]; [|rewrite Hlast in Hg; by apply elem_of_nil in Hg].
    exists q. split; [done|]. destruct Hlast as [_ Hmax]. specialize (Hmax g Hg). lia.
  - intros Hi n0 r b l Hn0 Hrr Hc x Hx. rewrite Hn' in Hn0. injection Hn0 as <-. rewrite Hr' in Hrr. injection Hrr as <-.
    destruct (Hlt Hi) as [Hle Hbl]. destruct (Hio Hi) as (_ & _ & Hcov).
    destruct (Hcov b l x Hc Hx) as [?|(y & Hy & Hxy)]; [lia|]. specialize (Hbl y Hy). lia.
Qed.
End Attaching.

(** ** What a client gets *)

Section Clients.
Context {R : RigTypes} {McpElicitationRequest McpElicitationResult : Type} `{WireUpdates Update}.
Abbreviation Group := (EventGroup (McpElicitationRequest := McpElicitationRequest) (Update := Update)).
Abbreviation State := (ProjectionState (R := R) (McpElicitationRequest := McpElicitationRequest) (Update := Update)).
Abbreviation Watcher := (WatchState (McpElicitationRequest := McpElicitationRequest) (Update := Update)).
Variables (accepts : nat -> bool) (namespace : string) (session : SessionId).

(** The plan a client is given is the one its subscription will have. *)
Lemma recovery_plan_is_kept c (s : State) :
  (plan_mode (session_recovery_plan c s) = Watch <-> is_ok (subscribe_from_cursor (cursor_run c) (cursor_next c) s) = true) /\
  (is_ok (subscribe_from_cursor (cursor_run c) (cursor_next c) s) = is_ok (snapshot_from (cursor_run c) (cursor_next c) s)).
Proof.
  unfold session_recovery_plan, subscribe_from_cursor, snapshot_from, addressed.
  destruct (journal s) as [j|]; [|done]. rewrite (andb_comm (incremental_available j)).
  destruct (bool_decide (journal_run j = cursor_run c) && incremental_available j); [|done]. cbn [andb ok_or result_bind].
  unfold covers. destruct (head (groups j)) as [first|]; [|done]. cbn [andb].
  destruct (last (groups j)) as [final|]; [|by rewrite andb_false_r].
  rewrite Z.leb_antisym, (Z.leb_antisym _ (sequence_get (cursor_next c))).
  destruct (sequence_get (cursor_next c) <? sequence_get (group_sequence first))%Z, (_ <? sequence_get (cursor_next c))%Z; done.
Qed.

(** A cursor after one of an Operation's groups that came in order is served. *)
Lemma cursor_is_served (s : State) run b all c g :
  projection_ok s -> current (broadcast s) = Some (run, b, all) -> cursor_run c = run ->
  g ∈ all -> increasing all -> sequence_get (cursor_next c) = (seq_of g + 1)%Z ->
  plan_mode (session_recovery_plan c s) = Watch.
Proof.
  intros Hok Hc Hcr Hg Hinc Hn. pose proof (state_log _ Hok) as Hlog.
  destruct (current_spec _ Hlog run b all Hc) as (pre & op & Hop).
  destruct (of_first _ _ _ _ _ Hop) as (first & Hf & Hfr & _). destruct (retain_spec all) as [Hrlast _].
  pose proof (state_journal _ Hok) as Hj. rewrite Hc in Hj. destruct (journal s) as [j|] eqn:Hjs; [|done].
  destruct Hj as (Hjr & Hjb & Hjg & Hji).
  assert (exists final, last all = Some final /\ (seq_of g <= seq_of final)%Z) as (final & Hlast & Hg2).
  { destruct all as [|x0 l0] using rev_ind; [by apply elem_of_nil in Hg|]. clear IHl0. exists x0. split; [by rewrite last_snoc|].
    apply increasing_snoc in Hinc as [_ Hi]. apply elem_of_app in Hg as [Hg| ->%list_elem_of_singleton]; [|lia].
    specialize (Hi g Hg). lia. }
  assert (seq_of first <= seq_of g)%Z as Hg1.
  { destruct all as [|x0 l0]; [done|]. injection Hf as ->. inversion Hinc as [|? ? _ Hi]; subst.
    rewrite Forall_forall in Hi. apply elem_of_cons in Hg as [->|Hg]; [lia|]. specialize (Hi g Hg). lia. }
  assert (u64_saturating_add (sequence_get (group_sequence final)) 1 = (seq_of final + 1)%Z) as Hsat.
  { unfold u64_saturating_add, seq_of. pose proof (sequence_range (group_sequence final)).
    assert (MAX_SAFE_INTEGER < u64_max)%Z by done. lia. }
  unfold session_recovery_plan. rewrite Hjs, Hji, Hjr, Hcr, Hjg, Hfr, Hrlast, Hlast, Hsat.
  rewrite bool_decide_eq_true_2 by done. unfold seq_of in *.
  rewrite (proj2 (Z.leb_le _ _)) by lia. by rewrite (proj2 (Z.leb_le _ _)) by lia.
Qed.

Lemma feed_steps_log (s s' : State) w w' lag lag' : projection_ok s ->
  feed_steps accepts namespace session (s, w, lag) (s', w', lag') ->
  projection_ok s' /\ exists later, broadcast s' = broadcast s ++ later.
Proof.
  intros Hok Hrun. set (P := fun c : State * Watcher * bool => projection_ok c.1.1 /\ exists later, broadcast c.1.1 = broadcast s ++ later).
  change (P (s', w', lag')). assert (P (s, w, lag)) as Hp by (split; [done|exists []; by rewrite app_nil_r]).
  revert Hp. induction Hrun as [|c c' c'' Hstep _ IH]; [done|]. intros [Hc (l & Hl)]. apply IH. clear IH. unfold P in *.
  destruct Hstep as [g base s0 s1 w0 lag0 Hg Hap|s0 w0 lag0 Hs Hp|p s0 w0 lag0 Hs Hp|s0 w0 lag0]; cbn in *; [|by split; [|exists l]..].
  destruct (append_group_ok g base s0 s1 _ Hc Hg Hap) as (_ & Hok' & Hlog). split; [done|].
  exists (l ++ [g]). by rewrite Hlog, Hl, app_assoc.
Qed.

Lemma attached_run (s s' : State) w w' lag : projection_ok s -> attached s w ->
  feed_steps accepts namespace session (s, w, false) (s', w', lag) -> feed_ok (length (broadcast s)) s' w' lag.
Proof. intros Hok Hat Hrun. eapply feed_steps_ok; [exact Hrun|by apply attached_ok]. Qed.


End Clients.

(** ** The sink *)

Section Sinks.
Context {R : RigTypes} {McpElicitationRequest McpElicitationResult : Type} `{WireUpdates Update}.
Abbreviation Group := (EventGroup (McpElicitationRequest := McpElicitationRequest) (Update := Update)).
Abbreviation State := (ProjectionState (R := R) (McpElicitationRequest := McpElicitationRequest) (Update := Update)).
Abbreviation AgentEvent := (Event.AgentEvent R McpElicitationRequest McpElicitationResult).
Abbreviation Payload := (Event.AgentEventPayload R McpElicitationRequest McpElicitationResult).
Variable mapper : Mapper (R := R) (McpElicitationRequest := McpElicitationRequest) (McpElicitationResult := McpElicitationResult) (Update := Update).

Definition sequence_of (e : AgentEvent) : Z := sequence_get (Event.event_sequence (Event.event_metadata e)).

(** An event that was emitted is one group, appended to what the hidden calls
    left of the state. *)
Lemma emit_appends history e (s s' : State) : emit mapper history e s = (Ok tt, s') ->
  exists meta kept base s1, s1 = (hide_tool_calls (Event.payload e) kept s).2 /\
    append_group (group_of (active_operation s) e meta (hide_tool_calls (Event.payload e) kept s).1) base s1 = (Ok tt, s').
Proof.
  unfold emit. unfold m_bind at 1, m_get. destruct (boundary _ _) as [run bound]. unfold m_bind, m_lift.
  destruct (bool_decide _).
  - destruct history as [base|]; cbn [map_err]; [|done].
    destruct (map_metadata mapper e) as [meta|]; cbn [map_err]; [|done].
    destruct (map_updates mapper e) as [kept|]; cbn [map_err]; [|done].
    destruct (hide_tool_calls _ _ _) as [l s1] eqn:Hh. intros Ha. exists meta, kept, base, s1. rewrite Hh. split; [done|].
    cbn [fst]. destruct (append_group _ _ _) as [[[]|] s2]; [|done]. by injection Ha as ->.
  - unfold m_ret. destruct (map_metadata mapper e) as [meta|]; cbn [map_err]; [|done].
    destruct (map_updates mapper e) as [kept|]; cbn [map_err]; [|done].
    destruct (hide_tool_calls _ _ _) as [l s1] eqn:Hh. intros Ha. exists meta, kept, [], s1. rewrite Hh. split; [done|].
    cbn [fst]. destruct (append_group _ _ _) as [[[]|] s2]; [|done]. by injection Ha as ->.
Qed.

(** The events of an Operation between its boundaries: they name it, or no
    Operation, or are a compaction inside it. *)
Definition inside (run : RunId) (kind : OperationKind) (p : Payload) : Prop :=
  boundary (Some (run, kind)) p = (Some run, None).

Lemma inside_events run kind p : inside run kind p <->
  match p with
  | Event.RunStart _ | Event.SlashCommandStart _ _ | Event.AgentSettled _ _ _ | Event.SlashCommandEnd _ _ _
  | Event.UserBashStarted _ _ _ _ _ | Event.UserBashFinished _ _ _ _ => False
  | Event.CompactionEnd other _ _ => other <> run \/ kind <> KindCompactionOperation
  | Event.TurnStart other | Event.RetryScheduled other _ _ _ _ | Event.RetryStart other _ _
  | Event.RetryEnd other _ _ _ | Event.ToolExecutionStart other _ _ _ | Event.ToolExecutionUpdate other _
  | Event.ToolExecutionEnd other _ | Event.RunEnd other _ => other = run
  | _ => True
  end.
Proof.
  unfold inside. destruct p; cbn; try (split; [congruence|done]); try (split; [done|by intros ->]); try naive_solver.
  destruct (bool_decide (run = run_id)) eqn:H1, (bool_decide (kind = KindCompactionOperation)) eqn:H2; cbn;
    rewrite ?bool_decide_eq_true, ?bool_decide_eq_false in *; split; try done; naive_solver.
Qed.

Fixpoint emit_all (history : result (list (SessionReplayItem R)) string) (l : list AgentEvent) (s : State) : option State :=
  match l with
  | [] => Some s
  | e :: rest => match emit mapper history e s with (Ok _, s) => emit_all history rest s | (Err _, _) => None end
  end.

Lemma hiding_keeps (p : Payload) (l : list Update) (s : State) : let s' := (hide_tool_calls p l s).2 in
  journal s' = journal s /\ broadcast s' = broadcast s /\ last_sequence s' = last_sequence s /\ foreground s' = foreground s.
Proof. done. Qed.

(** The journal of an Operation that was given [all]. *)
Definition journal_of (s : State) (run : RunId) (kind : OperationKind) (live : bool)
  (base : list (SessionReplayItem R)) (all : list Group) : Prop :=
  Forall (fun g => group_run g = Some run) all /\
  exists j, journal s = Some j /\ journal_run j = run /\ journal_kind j = kind /\ running j = live /\
    baseline j = base /\ groups j = retain all.

(** One event that names the running Operation. *)
Lemma step_journaled history e (s s' : State) run kind base all phase :
  phase <> Some PhaseStart ->
  (exists bound, boundary (Some (run, kind)) (Event.payload e) = (Some run, bound) /\ fst <$> bound = phase) ->
  journal_of s run kind true base all -> emit mapper history e s = (Ok tt, s') ->
  exists g, broadcast s' = broadcast s ++ [g] /\ seq_of g = sequence_of e /\
    journal_of s' run kind (negb (bool_decide (phase = Some PhaseEnd))) base (all ++ [g]).
Proof.
  intros Hphase (bound & Hbound & Hfst) (Hall & j & Hj & Hjr & Hjk & Hjn & Hjb & Hjg) Hem.
  apply emit_appends in Hem as (meta & kept & base' & s0 & Hs0 & Hap).
  destruct (hiding_keeps (Event.payload e) kept s) as (Hkj & Hkb & _). rewrite <- Hs0 in *.
  unfold active_operation in Hap. rewrite Hj, Hjn, Hjr, Hjk in Hap.
  set (g := group_of _ _ _ _) in *.
  assert (group_run g = Some run /\ operation_phase g = phase) as [Hg1 Hg2].
  { unfold g, group_of. by rewrite Hbound. }
  assert (seq_of g = sequence_of e) as Hg3 by (unfold g, group_of, seq_of; by rewrite Hbound).
  clearbody g. unfold append_group in Hap. rewrite Hg2, bool_decide_eq_false_2, Hkj, Hj in Hap by done.
  unfold journals in Hap. rewrite Hjn, Hg1, Hjr, bool_decide_eq_true_2 in Hap by done. injection Hap as <-.
  exists g. split; [by cbn; rewrite Hkb|]. split; [done|]. split; [apply Forall_app; split; [done|by constructor]|].
  exists (journal_group g j). split; [done|]. cbn. rewrite Hg2, retain_snoc, Hjg. done.
Qed.

Lemma inside_journaled history l run kind base : Forall (fun e => inside run kind (Event.payload e)) l ->
  forall (s s' : State) all, journal_of s run kind true base all -> emit_all history l s = Some s' ->
  exists more, broadcast s' = broadcast s ++ more /\ (seq_of <$> more) = (sequence_of <$> l) /\
    journal_of s' run kind true base (all ++ more).
Proof.
  induction 1 as [|e l He _ IH]; intros s s' all Hs; cbn [emit_all].
  { intros [= <-]. exists []. by rewrite !app_nil_r. }
  destruct (emit mapper history e s) as [[[]|] s1] eqn:Hem; [|done]. intros Hrest.
  destruct (step_journaled history e s s1 run kind base all None) as (g & Hb & Hg & Hs1); [done| |done|done|].
  { by exists None. }
  destruct (IH s1 s' (all ++ [g]) Hs1 Hrest) as (more & Hb' & Hq & Hs'). exists (g :: more).
  rewrite Hb', Hb, <- !app_assoc. rewrite <- app_assoc in Hs'. split; [done|]. split; [by cbn; rewrite Hg, Hq|done].
Qed.

Lemma emit_all_app history l l' (s s' : State) : emit_all history (l ++ l') s = Some s' ->
  exists s1, emit_all history l s = Some s1 /\ emit_all history l' s1 = Some s'.
Proof.
  revert s. induction l as [|e l IH]; intros s; cbn [emit_all app]; [by exists s|].
  destruct (emit mapper history e s) as [[[]|] s1]; [|done]. apply IH.
Qed.

(** A start event opens a journal over the session's replay. *)
Lemma start_journaled history e (s s' : State) run kind :
  boundary (active_operation s) (Event.payload e) = (Some run, Some (PhaseStart, kind)) ->
  emit mapper history e s = (Ok tt, s') ->
  exists g base, history = Ok base /\ broadcast s' = broadcast s ++ [g] /\ seq_of g = sequence_of e /\
    journal_of s' run kind true base [g].
Proof.
  intros Hb. unfold emit. unfold m_bind at 1, m_get. rewrite Hb. unfold m_bind, m_lift. cbn [fmap option_fmap option_map fst].
  rewrite bool_decide_eq_true_2 by done. destruct history as [base|]; cbn [map_err]; [|done].
  destruct (map_metadata mapper e) as [meta|]; cbn [map_err]; [|done].
  destruct (map_updates mapper e) as [mapped|]; cbn [map_err]; [|done].
  destruct (hiding_keeps (Event.payload e) mapped s) as (_ & Hkb & _).
  destruct (hide_tool_calls _ _ _) as [l s1]. cbn in Hkb. intros Ha.
  set (g := group_of (active_operation s) e meta l) in *.
  assert (group_run g = Some run /\ operation_phase g = Some PhaseStart /\ operation_kind g = Some kind /\ seq_of g = sequence_of e)
    as (Hg1 & Hg2 & Hg3 & Hg4) by (unfold g, group_of, seq_of; rewrite Hb; done).
  clearbody g. unfold append_group in Ha. rewrite Hg2, bool_decide_eq_true_2, Hg1, Hg3 in Ha by done. injection Ha as <-.
  exists g, base. split; [done|]. split; [by cbn; rewrite Hkb|]. split; [done|]. split; [by constructor|].
  eexists. split; [done|]. cbn. repeat split. unfold supersede. by destruct (snapshot_of g).
Qed.

(** C32: from the event that starts an Operation on, every event until its end
    -- also those that name no Operation, and a compaction inside it -- is one
    group of the Operation, sent live in order and kept in its journal over the
    session's replay, up to replaced snapshots; the end closes the journal and
    leaves it to be read. *)
Theorem operation_is_journaled history start l closing (s s' : State) run kind :
  boundary (active_operation s) (Event.payload start) = (Some run, Some (PhaseStart, kind)) ->
  Forall (fun e => inside run kind (Event.payload e)) l ->
  Forall (fun e => boundary (Some (run, kind)) (Event.payload e) = (Some run, Some (PhaseEnd, kind))) (option_list closing) ->
  emit_all history (start :: l ++ option_list closing) s = Some s' ->
  exists all base, history = Ok base /\ broadcast s' = broadcast s ++ all /\
    (seq_of <$> all) = (sequence_of <$> start :: l ++ option_list closing) /\
    journal_of s' run kind (negb (bool_decide (is_Some closing))) base all.
Proof.
  intros Hstart Hl Hend. cbn [emit_all]. destruct (emit mapper history start s) as [[[]|] s1] eqn:Hem; [|done]. intros Hrest.
  apply (start_journaled history start s s1 run kind Hstart) in Hem as (g & base & Hh & Hb & Hg & Hs1).
  apply emit_all_app in Hrest as (s2 & H2 & Hlast).
  destruct (inside_journaled history l run kind base Hl s1 s2 [g] Hs1 H2) as (more & Hb2 & Hq2 & Hs2).
  revert Hlast. destruct closing as [e|]; [change (option_list (Some e)) with [e] in *|change (option_list (@None AgentEvent)) with (@nil AgentEvent) in *];
    cbn [emit_all].
  - destruct (emit mapper history e s2) as [[[]|] s3] eqn:Hem; [|done]. intros [= ->].
    inversion Hend as [|? ? He _]; subst.
    destruct (step_journaled (Ok base) e s2 s' run kind base ([g] ++ more) (Some PhaseEnd)) as (g' & Hb3 & Hg3 & Hs3); [done| |done|done|].
    { exists (Some (PhaseEnd, kind)). split; [exact He|done]. }
    exists (([g] ++ more) ++ [g']), base. split; [done|]. split; [by rewrite Hb3, Hb2, Hb, <- !app_assoc|].
    split; [|exact Hs3]. cbn. rewrite !fmap_app, Hq2, Hg. cbn. by rewrite Hg3.
  - intros [= ->]. exists ([g] ++ more), base. split; [done|]. split; [by rewrite Hb2, Hb, <- app_assoc|].
    split; [|exact Hs2]. cbn. by rewrite app_nil_r, Hq2, Hg.
Qed.

(** After a failure that no event reported, no cursor is served and a client is
    told to start over, and every watcher is told that nothing runs. *)
Lemma fallback_closes (s s' : State) :
  publish_terminal_fallback s = (Ok tt, s') ->
  foreground s' = Idle /\ active_operation s' = None /\
  (exists g, broadcast s' = broadcast s ++ [g] /\ updates g = [snapshot_state Idle]) /\
  (forall run n, subscribe_from_cursor run n s' = Err CursorUnavailable) /\
  (forall c, session_recovery_plan c s' = resume_plan c false).
Proof.
  unfold publish_terminal_fallback. destruct (sequence_try_from _) as [q|]; [|done]. intros [= <-].
  cbn. unfold next_foreground. rewrite snapshot_state_reports. split; [done|].
  destruct (journal s) as [j|]; cbn; split_and!; try done; try (by eexists).
  - intros run n. unfold subscribe_from_cursor, addressed. cbn. by rewrite andb_false_r.
Qed.
End Sinks.

(** ** Sample clients *)

Section Samples.
Abbreviation SampleUpdate := (string + ForegroundState)%type.
#[local] Instance sample_wire : WireUpdates SampleUpdate := {|
  state_update u := match u with inl _ => None | inr s => Some (Some s) end;
  is_notice u := false;
  tool_card u := None;
  snapshot_state := inr;
  snapshot_state_reports s := eq_refl
|}.
Abbreviation SampleGroup := (EventGroup (McpElicitationRequest := unit) (Update := SampleUpdate)).
Abbreviation SampleState := (ProjectionState (R := sample_rig) (McpElicitationRequest := unit) (Update := SampleUpdate)).

Abbreviation SampleWatch := (WatchState (McpElicitationRequest := unit) (Update := SampleUpdate)).

Definition first_run : RunId := MkId "run-1" I.
Definition sample_group (n : Sequence) (phase : option OperationPhase) (key : option string) (u : SampleUpdate) : SampleGroup :=
  {| group_run := Some first_run; group_sequence := n; group_metadata := ∅; updates := [u];
     operation_phase := phase; operation_kind := (fun _ => KindRun) <$> phase; elicitation := None; plan_approval := None;
     snapshot_of := key |}.
Definition nth_sequence (z : Z) (H : Is_true (sequence_in_range z)) : Sequence := MkSequence z H.
Definition opens : SampleGroup := sample_group (nth_sequence 1 I) (Some PhaseStart) None (inr Running).
Definition queued : SampleGroup := sample_group (nth_sequence 2 I) None (Some "queue") (inl "one waits").
Definition queued_again : SampleGroup := sample_group (nth_sequence 3 I) None (Some "queue") (inl "two wait").
Definition closes : SampleGroup := sample_group (nth_sequence 4 I) (Some PhaseEnd) None (inr Idle).

Definition appended (l : list SampleGroup) (s : SampleState) : SampleState :=
  foldl (fun s g => (append_group g [] s).2) s l.
Definition take_all : nat -> bool := fun _ => true.
Abbreviation receive := (watch_received take_all "clawcode" sample_session).

(** Groups that come one after the other. *)
Fixpoint numbered (l : list SampleGroup) (s : SampleState) : Prop :=
  match l with
  | [] => True
  | g :: rest => next_group g s /\ numbered rest (append_group g [] s).2
  end.

Lemma appended_ok l : forall s, projection_ok s -> numbered l s -> projection_ok (appended l s).
Proof.
  induction l as [|g l IH]; intros s Hs; [done|]. cbn [numbered]. intros [Hg Hl]. apply IH; [|done].
  destruct (append_group g [] s) as [r s'] eqn:Ha. by apply (append_group_ok g [] s s' r).
Qed.

Lemma appended_steps l w lag : forall s, projection_ok s -> numbered l s ->
  feed_steps take_all "clawcode" sample_session (s, w, lag) (appended l s, w, lag).
Proof.
  induction l as [|g l IH]; intros s Hs; [reflexivity|]. cbn [numbered]. intros [Hg Hl].
  destruct (append_group g [] s) as [r s'] eqn:Ha. destruct (append_group_ok g [] s s' r Hs Hg Ha) as (-> & Hok & _).
  cbn [appended foldl]. rewrite Ha. eapply rtc_l; [by apply (feed_append _ _ _ g [])|]. by apply IH.
Qed.

Ltac numbered_by_value := cbn [numbered]; repeat split; intros;
  repeat match goal with
  | H : ?x ∈ _ |- _ => vm_compute in H; apply elem_of_cons in H as [->|H]
  | H : ?x ∈ _ |- _ => vm_compute in H; by apply elem_of_nil in H
  end; vm_compute in *; try done; try (by eexists).

Lemma sample_numbered : numbered [opens; queued; queued_again; closes] projection_new.
Proof. numbered_by_value. Qed.

Lemma sample_state_ok l l' : l ++ l' = [opens; queued; queued_again; closes] ->
  projection_ok (appended l projection_new) /\ numbered l' (appended l projection_new).
Proof.
  intros He. assert (numbered (l ++ l') projection_new) as Hi by (rewrite He; apply sample_numbered).
  assert (forall s, numbered (l ++ l') s -> numbered l s /\ numbered l' (appended l s)) as Happ.
  { clear. induction l as [|g l IH]; intros s; cbn [numbered app]; [done|]. intros [Hg [? ?]%IH]. done. }
  apply Happ in Hi as [Hl Hl']. split; [|done]. apply appended_ok; [apply projection_new_ok|done].
Qed.

(** A connection that attached when the Operation had started. *)
Definition before_rest : SampleState := appended [opens] projection_new.
Definition after_rest : SampleState := appended [queued; queued_again; closes] before_rest.
Definition live_watch : SampleWatch := watch_live (subscribe_live before_rest).

Lemma receives_all (w : SampleWatch) : stopped w = false -> position w < length (broadcast after_rest) ->
  feed_steps take_all "clawcode" sample_session (after_rest, w, false) (after_rest, receive after_rest w, false).
Proof. intros. by apply rtc_once, feed_receive. Qed.


(** A connection that broke after it had the first group, and came back when
    one more was there. *)
Definition when_back : SampleState := appended [opens; queued] projection_new.
Definition at_the_end : SampleState := appended [queued_again; closes] when_back.
Definition its_cursor : SessionCursor :=
  {| cursor_session := sample_session; cursor_run := first_run; cursor_next := nth_sequence 2 I |}.
Definition its_feed : option (ProjectionFeed (R := sample_rig) (McpElicitationRequest := unit) (Update := SampleUpdate)) :=
  match subscribe_from_cursor first_run (nth_sequence 2 I) when_back with Ok f => Some f | Err _ => None end.
Definition its_watch : option SampleWatch := its_feed ≫= watch_projection_feed take_all "clawcode" sample_session None.


(** Sequences are taken before the lock the groups are appended under: a group
    that comes late is sent to no watcher that has sent the one after it, and a
    cursor after that one is served no more. *)
Example late_group_is_dropped :
  let late_one := sample_group (nth_sequence 2 I) None None (inl "late") in
  let early := sample_group (nth_sequence 3 I) None None (inl "early") in
  let s := appended [opens; early; late_one] projection_new in
  let w := receive s (receive s (receive s (watch_live (subscribe_live (projection_new : SampleState)) : SampleWatch))) in
  late (broadcast s) late_one /\ delivered_groups w = [opens; early] /\ stopped w = false /\ position w = 3 /\
  subscribe_from_cursor first_run (nth_sequence 4 I) s = Err CursorUnavailable.
Proof.
  intros late_one early s w. split; [|vm_compute; done]. exists early. split; [|vm_compute; done].
  apply sublist_cons, sublist_skip, sublist_skip. done.
Qed.

(** A command the user ran, with a line of output. *)
Definition sample_mapper : Mapper (R := sample_rig) (McpElicitationRequest := unit) (McpElicitationResult := unit) (Update := SampleUpdate) :=
  {| map_metadata e := Ok ∅; map_updates e := Ok [inl "an update"] |}.
Definition sample_event (n : Sequence) (p : Event.AgentEventPayload sample_rig unit unit) : Event.AgentEvent sample_rig unit unit :=
  {| Event.event_metadata := {| Event.event_turn := sample_turn; Event.event_time := time 1; Event.event_sequence := n |};
     Event.payload := p |}.
Definition command_message : MessageId := MkId "command" I.
Definition command_starts := sample_event (nth_sequence 1 I) (Event.UserBashStarted first_run command_message "ls" "/" false).
Definition command_prints (n : Sequence) (out : string) := sample_event n (Event.UserBashOutput first_run command_message out).
Definition command_ends := sample_event (nth_sequence 4 I) (Event.UserBashFinished first_run command_message Succeeded true).
Abbreviation command_state := (emit_all (Update := SampleUpdate) sample_mapper (Ok []) (command_starts ::
  [command_prints (nth_sequence 2 I) "a"; command_prints (nth_sequence 3 I) "b"] ++ option_list (Some command_ends)) projection_new).

Lemma operation_is_journaled_witness :
  exists s, command_state = Some s /\ active_operation s = None /\
    exists all, broadcast s = all /\ (seq_of <$> all) = [1; 2; 3; 4]%Z /\ journal_of s first_run KindUserBash false [] all.
Proof.
  assert (match command_state with Some _ => true | None => false end = true) as Hdone by (vm_compute; reflexivity).
  destruct command_state as [s|] eqn:Hs; [clear Hdone|done]. exists s. split; [done|].
  destruct (operation_is_journaled sample_mapper (Ok []) command_starts
    [command_prints (nth_sequence 2 I) "a"; command_prints (nth_sequence 3 I) "b"] (Some command_ends) projection_new s first_run KindUserBash)
    as (all & base & Hb & Hbr & Hq & Hj); [reflexivity|by repeat constructor|by repeat constructor|exact Hs|].
  injection Hb as <-. split.
  - destruct Hj as (_ & j & Hj & _ & _ & Hn & _). unfold active_operation. by rewrite Hj, Hn.
  - exists all. split; [done|]. split; [by rewrite Hq|exact Hj].
Defined.
End Samples.
