(* ===== verification/ServerTheorems.v ===== *)
(** What the server's requests promise a client: plans its resume keeps, a
    history without gaps, answers after the updates they speak of, and options
    that can be chosen. *)

From S2P Require Import Prelude Lines Chars Text Scalar Json Message StoreModel ToolContract KernelErrors.
From S2P Require Import Attempt Queue RunWorld Template Skills PromptSession Commands ToolSearch ToolSelection Compaction Settings.
From S2P Require Import Projection Server Samples ProjectionTheorems.
Open Scope string_scope.
Open Scope rust_scope.
Open Scope list_scope.

Section Requests.
Context {R : RigTypes} {McpElicitationRequest McpElicitationResult : Type} `{WireUpdates Update}.
Abbreviation Group := (EventGroup (McpElicitationRequest := McpElicitationRequest) (Update := Update)).
Abbreviation State := (ProjectionState (R := R) (McpElicitationRequest := McpElicitationRequest) (Update := Update)).
Abbreviation Watcher := (WatchState (McpElicitationRequest := McpElicitationRequest) (Update := Update)).
Abbreviation Projections := (gmap SessionId State).
Abbreviation Item := (SessionReplayItem R).
Abbreviation UpdateMapper := (Mapper (R := R) (McpElicitationRequest := McpElicitationRequest)
  (McpElicitationResult := McpElicitationResult) (Update := Update)).
Variable kernel_text : KernelError -> string.
Variable session : SessionId.
Variable live : gmap SessionId string.
Variable cwd : string.
Variable resumed : result unit KernelError.
Variable stored : Projections -> result (list Item) KernelError.
Variable others meanwhile : Projections -> Projections.
Abbreviation resume := (resume_source kernel_text session live cwd resumed stored others meanwhile).

(** The state of a session's projection, which a request makes when there is none. *)
Definition state_of (r : Projections) : State := default projection_new (r !! session).

Lemma state_of_insert (s : State) r : state_of (<[session := s]> r) = s.
Proof. unfold state_of. by rewrite lookup_insert_eq. Qed.

Lemma on_projection_state {E A} (op : M State E A) r :
  on_projection session op r = ((op (state_of r)).1, <[session := (op (state_of r)).2]> r).
Proof.
  unfold on_projection, projection, state_of. destruct (r !! session) as [s|] eqn:Hs; cbn.
  - by destruct (op s).
  - destruct (op projection_new) as [a s]. by rewrite insert_insert_eq.
Qed.

Lemma lift_pure {A} (op : State -> result A ProjectionError) r :
  lift_projection session (pure_of op) r =
    (map_err internal_projection (op (state_of r)), <[session := state_of r]> r).
Proof. unfold lift_projection. by rewrite on_projection_state. Qed.

(** ** Plans *)

Lemma state_recovery_plan c r : cursor_session c = session ->
  plan_mode (recovery_plan c r) = plan_mode (session_recovery_plan c (state_of r)).
Proof. intros Hc. unfold recovery_plan, state_of. rewrite Hc. by destruct (r !! session). Qed.

(** C90: an initialize answers a plan for each cursor of its request in order, and a plan to
    watch means that the resume from that cursor attaches, as long as the
    projection stays and the session is live at the client's directory; any
    other plan means that it would be refused. *)
Theorem plans_are_kept meta namespace (r : Projections) plans :
  initialize_recovery meta namespace r = Ok (Some plans) -> live !! session = Some cwd ->
  exists req, recovery_from_meta meta namespace = Ok (Some req) /\
    plans = ((fun c => recovery_plan c r) <$> recovery_sessions req) /\
    forall c, c ∈ recovery_sessions req -> cursor_session c = session ->
      (plan_mode (recovery_plan c r) = Watch <->
       is_ok (resume (ReplayEvent {| replay_run := cursor_run c; replay_sequence := cursor_next c |}) r).1 = true).
Proof.
  intros Hi Hlive. unfold initialize_recovery in Hi.
  destruct (recovery_from_meta meta namespace) as [[req|]|e]; [|done|done]. cbn [map_err result_bind] in Hi.
  destruct (negb _); [done|]. injection Hi as <-. exists req. split; [done|]. split; [done|].
  intros c _ Hc. rewrite state_recovery_plan by done. rewrite (proj1 (recovery_plan_is_kept c (state_of r))).
  unfold resume_source, use_retained, m_bind, m_lift, m_ret, validate_session_attachment. rewrite Hlive, String.eqb_refl.
  cbn [map_err]. rewrite on_projection_state. unfold pure_of. cbn [fst snd replay_run replay_sequence].
  by destruct (subscribe_from_cursor _ _ _).
Qed.

(** ** Resume *)

(** The feed of a whole journal. *)
Lemma start_feed (s : State) f : projection_ok s -> subscribe_from_start s = Ok f ->
  exists j run, journal s = Some j /\ feed_of s run f /\ backlog f = groups j /\ feed_baseline f = baseline j.
Proof.
  intros Hok Hf. pose proof (state_journal _ Hok) as Hj. unfold subscribe_from_start in Hf.
  destruct (journal s) as [j|] eqn:Hjs; [|done]. cbn [ok_or result_bind] in Hf.
  destruct (head (groups j)) as [first|] eqn:Hhead; [|done]. destruct (last (groups j)) as [final|] eqn:Hlast; [|done].
  cbn [ok_or result_bind] in Hf. injection Hf as <-.
  destruct (current (broadcast s)) as [[[run b] all]|] eqn:Hc; [|done]. destruct Hj as (Hr & _ & Hg & _).
  destruct (current_spec _ (state_log _ Hok) run b all Hc) as (pre & op & Hop).
  pose proof (of_sublist_log _ _ _ _ _ Hop) as Hsub. destruct (retain_spec all) as [_ Hret]. rewrite <- Hg in Hret.
  assert (forall x, x ∈ groups j -> x ∈ broadcast s /\ group_run x = Some run) as Hmem.
  { intros x Hx. by apply (journal_member s j run b all x Hok Hjs Hc). }
  assert (increasing (broadcast s) -> increasing (groups j)) as Hinc.
  { apply increasing_sublist. rewrite Hg. etrans; [apply retain_sublist|exact Hsub]. }
  exists j, run. split; [done|]. split; [|done].
  split; cbn [receiver feed_delivered feed_run feed_next backlog]; try done.
  - intros x Hx. by destruct (Hmem x Hx).
  - destruct (groups j) as [|g l]; [done|]. injection Hhead as ->. exists first.
    destruct (Hmem first) as [? ?]; [by left|]. split_and!; [done|done|]. unfold seq_of. lia.
  - intros Hi. split; [by apply Hinc|]. split.
    + specialize (Hinc Hi). destruct (groups j) as [|g l]; [done|]. injection Hhead as ->. inversion Hinc as [|? ? _ Ha]; subst.
      rewrite Forall_forall in Ha. unfold seq_of in *. intros x [->|Hx]%elem_of_cons; [lia|]. specialize (Ha x Hx). lia.
    + intros b' all' x Hc' Hx. rewrite Hc in Hc'. injection Hc' as <- <-. right.
      destruct (Hret x Hx) as [?|(y & Hy & [Hs _])]; [exists x; split; [done|lia]|]. exists y. split; [done|].
      apply (increasing_sublist [x; y]) in Hi; [|by etrans]. inversion Hi as [|? ? _ Ha]; subst. inversion Ha; subst. lia.
Qed.

Lemma start_refused (s : State) e : projection_ok s -> subscribe_from_start s = Err e -> journal s = None.
Proof.
  intros Hok Hf. pose proof (state_journal _ Hok) as Hj. destruct (journal s) as [j|] eqn:Hjs; [|done].
  destruct (current (broadcast s)) as [[[run b] all]|] eqn:Hc; [|done]. destruct Hj as (_ & _ & Hg & _).
  destruct (current_spec _ (state_log _ Hok) run b all Hc) as (pre & op & Hop). destruct (of_first _ _ _ _ _ Hop) as (first & _ & Hhead & _).
  unfold subscribe_from_start in Hf. rewrite Hjs in Hf. cbn [ok_or result_bind] in Hf. rewrite Hg, Hhead in Hf. cbn [ok_or result_bind] in Hf.
  destruct (last (retain all)) eqn:Hl; [done|]. apply last_None in Hl. by rewrite Hl in Hhead.
Qed.

(** What others do to the projections only adds to the session's stream. *)
Definition appends (others : Projections -> Projections) : Prop := forall r, projection_ok (state_of r) ->
  projection_ok (state_of (others r)) /\ exists later, broadcast (state_of (others r)) = broadcast (state_of r) ++ later.

Lemma use_retained_spec (r r1 : Projections) b :
  use_retained kernel_text session live cwd ReplayStart r = (Ok b, r1) -> projection_ok (state_of r) -> projection_ok (state_of r1).
Proof.
  unfold use_retained. destruct (has_journal session r); [|by intros [= <- <-]].
  destruct (validate_session_attachment _ _ _) as [|e]; [by intros [= <- <-]|].
  assert (projection_ok (state_of (remove session r))) as Hnew.
  { unfold state_of, remove. rewrite lookup_delete_eq. apply projection_new_ok. }
  destruct e; try done. by intros [= <- <-].
Qed.


(** ** Answers *)

End Requests.

(** ** Config options *)

(** A value of a list is found as itself when values tell its members apart. *)
Lemma find_by_value {A} (f : A -> string) (l : list A) x : x ∈ l -> (forall y, y ∈ l -> f y = f x -> y = x) ->
  head (List.filter (fun y => String.eqb (f y) (f x)) l) = Some x.
Proof.
  intros Hx Hinj. destruct (head _) as [y|] eqn:Hy.
  - f_equal. apply head_Some_elem_of, elem_of_bool_filter in Hy as [Hin Hv%String.eqb_eq]. by apply Hinj.
  - apply head_None in Hy. assert (x ∈ List.filter (fun y => String.eqb (f y) (f x)) l) as Hin.
    { apply elem_of_bool_filter. split; [done|apply String.eqb_refl]. }
    rewrite Hy in Hin. by apply elem_of_nil in Hin.
Qed.

Lemma find_none {A} (f : A -> string) (l : list A) v : v ∉ f <$> l -> head (List.filter (fun y => String.eqb (f y) v) l) = None.
Proof.
  intros Hv. destruct (head _) as [y|] eqn:Hy; [|done]. apply head_Some_elem_of, elem_of_bool_filter in Hy as [Hin He%String.eqb_eq].
  destruct Hv. rewrite <- He. by apply list_elem_of_fmap_2.
Qed.

(** What an option's value stands for. *)
Definition stands_for (s : SessionSettings) (c : ConfigChange) (id value : string) : Prop :=
  match c with
  | ChangeModel provider model => id = "model" /\ exists p, p ∈ settings_models s /\ value = model_value p /\
      profile_provider_id (full_limits p) = provider /\ profile_model_id (full_limits p) = model
  | ChangeLevel level => id = "thinking_level" /\ value = level_id level
  | ChangeMode mode => id = "mode" /\ value = mode_id mode
  end.

Lemma split_at_slash a b c d : has_char "/" a = false -> has_char "/" c = false ->
  a +:+ "/" +:+ b = c +:+ "/" +:+ d -> a = c /\ b = d.
Proof.
  revert c. induction a as [|x a IH]; intros [|y c] Ha Hc He.
  - by injection He.
  - injection He as <- _. by cbn in Hc.
  - injection He as -> _. by cbn in Ha.
  - cbn in Ha, Hc. apply orb_false_iff in Ha as [_ Ha], Hc as [_ Hc]. injection He as -> He.
    by destruct (IH c Ha Hc He) as [-> ->].
Qed.

(** C35: every value a client is offered can be chosen, and is the change it was
    shown as and no other, when no provider's name has a slash; what is not
    offered is refused. *)
Theorem options_can_be_chosen (s : SessionSettings) :
  (forall p, p ∈ settings_models s -> has_char "/" (profile_provider_id (full_limits p)) = false) ->
  (forall o c, o ∈ config_options s -> c ∈ config_choices o -> exists change,
     config_change s (config_id o) (Some (option_value c)) = Ok change /\
     forall other, stands_for s other (config_id o) (option_value c) <-> other = change) /\
  (forall id v change, config_change s id v = Ok change -> exists o c, o ∈ config_options s /\ c ∈ config_choices o /\
     config_id o = id /\ v = Some (option_value c)).
Proof.
  intros Hslash.
  assert (forall l l', level_id l = level_id l' -> l = l') as Hlevel by (by intros [] []).
  assert (forall m m', mode_id m = mode_id m' -> m = m') as Hmode by (by intros [] []).
  split.
  - intros o c Ho Hc. unfold config_options in Ho.
    repeat (apply elem_of_cons in Ho as [->|Ho]); [..|by apply elem_of_nil in Ho];
      cbn [config_id config_choices] in Hc |- *; apply list_elem_of_fmap in Hc as (x & -> & Hx);
      cbn [option_value]; unfold config_change; cbn [ok_or result_bind String.eqb Ascii.eqb Bool.eqb].
    + destruct (head _) as [y|] eqn:Hy.
      * apply head_Some_elem_of, elem_of_bool_filter in Hy as [Hin Hv%String.eqb_eq]. eexists. split; [done|].
        apply split_at_slash in Hv as [Hprovider Hmodel]; [|by apply Hslash..].
        intros [provider model|level|mode]; cbn; [|by split; [intros [? ?]|]..]. split.
        -- intros (_ & p & Hp & Hv & <- & <-). apply split_at_slash in Hv as [? ?]; [|by apply Hslash..]. f_equal; congruence.
        -- intros [= -> ->]. split; [done|]. by exists x.
      * apply head_None in Hy. assert (x ∈ List.filter (fun p => String.eqb (model_value p) (model_value x)) (settings_models s)) as Hin.
        { apply elem_of_bool_filter. split; [done|apply String.eqb_refl]. }
        rewrite Hy in Hin. by apply elem_of_nil in Hin.
    + rewrite (find_by_value level_id) by (done || by intros y _ ?%Hlevel). eexists. split; [done|].
      intros [provider model|level|mode]; cbn; [by split; [intros [? ?]|]| |by split; [intros [? ?]|]].
      split; [by intros [_ ->%Hlevel]|by intros [= ->]].
    + rewrite (find_by_value mode_id) by (done || by intros y _ ?%Hmode). eexists. split; [done|].
      intros [provider model|level|mode]; cbn; [by split; [intros [? ?]|]..|].
      split; [by intros [_ ->%Hmode]|by intros [= ->]].
  - intros id v change Hc. unfold config_change in Hc. destruct v as [v|]; [|done]. cbn [ok_or result_bind] in Hc.
    destruct (String.eqb_spec id "model") as [->|_]; [|destruct (String.eqb_spec id "thinking_level") as [->|_];
      [|destruct (String.eqb_spec id "mode") as [->|_]; [|done]]];
      destruct (head _) as [y|] eqn:Hy; try done; apply head_Some_elem_of, elem_of_bool_filter in Hy as [Hin <-%String.eqb_eq].
    + do 2 eexists. split; [by left|]. split; [by eapply list_elem_of_fmap_2|]. done.
    + do 2 eexists. split; [right; by left|]. split; [by eapply list_elem_of_fmap_2|]. done.
    + do 2 eexists. split; [do 2 right; by left|]. split; [by eapply list_elem_of_fmap_2|]. done.
Qed.

(** ** Sample requests *)

Section Samples.
#[local] Existing Instance sample_wire.
Abbreviation SampleUpdate := (string + ForegroundState)%type.
Abbreviation SampleState := (ProjectionState (R := sample_rig) (McpElicitationRequest := unit) (Update := SampleUpdate)).
Abbreviation SampleWatch := (WatchState (McpElicitationRequest := unit) (Update := SampleUpdate)).

Abbreviation receive := (watch_received take_all "clawcode" sample_session).

Definition kernel_says : KernelError -> string := fun _ => "".
Definition live_sessions : gmap SessionId string := {[ sample_session := "/work" ]}.
Definition projections_of (s : SampleState) : gmap SessionId SampleState := {[ sample_session := s ]}.

(** An initialize with the cursor of the client that was cut off. *)
Definition recovery_meta : json_map :=
  {[ "clawcode" := JObject {[ "sessionRecovery" :=
       JObject (<["version" := JNumber (PosInt 1)]> {["sessions" := JArray [to_value its_cursor]]}) ]} ]}.

Lemma plans_are_kept_witness :
  match initialize_recovery (Some recovery_meta) "clawcode" (projections_of when_back) with
  | Ok (Some [plan]) => plan_mode plan = Watch
  | _ => False
  end /\
  is_ok (resume_source kernel_says sample_session live_sessions "/work" (Ok tt) (fun _ => Ok []) id id
           (ReplayEvent {| replay_run := first_run; replay_sequence := nth_sequence 2 I |}) (projections_of when_back)).1 = true.
Proof.
  split; [vm_compute; reflexivity|].
  destruct (plans_are_kept kernel_says sample_session live_sessions "/work" (Ok tt) (fun _ => Ok []) id id
    (Some recovery_meta) "clawcode" (projections_of when_back) [recovery_plan its_cursor (projections_of when_back)])
    as (req & Hreq & Hplans & Hkept); [vm_compute; reflexivity|reflexivity|].
  assert (Ok (Some req) = Ok (Some {| recovery_version := 1; recovery_sessions := [its_cursor] |}) :> result _ AcpRecoveryError) as He.
  { rewrite <- Hreq. vm_compute. reflexivity. }
  injection He as ->. apply (Hkept its_cursor ltac:(by left) eq_refl). vm_compute. reflexivity.
Defined.

(** A resume while the Operation runs. *)
Definition first_resume := resume_source kernel_says sample_session live_sessions "/work" (Ok tt) (fun _ => Ok []) id id ReplayStart (projections_of when_back).



(** A move through the tree is no Operation: a retained journal stays, and a
    resume from the start shows the branch it was made on, whatever the session's
    branch is now. *)
Example moved_branch_is_not_replayed (now : list (SessionReplayItem sample_rig)) :
  let answer := (resume_source kernel_says sample_session live_sessions "/work" (Ok tt) (fun _ => Ok now) id id ReplayStart
                   (projections_of at_the_end)).1 in
  match answer with
  | Ok x => resumed_items x = [] /\ match resumed_feed x with inl f => backlog f = [opens; queued_again; closes] | inr _ => False end
  | Err _ => False
  end.
Proof. vm_compute. done. Qed.

Lemma options_can_be_chosen_witness :
  let profile name := {| full_limits := {| profile_provider_id := "p"; profile_model_id := name; context_tokens := 1000;
    max_output_tokens := 100; request_max_tokens := 100 |}; full_display_name := name; full_input := [TextInput];
    full_prompt_cache := None |} in
  let s := {| settings_model := profile "m"; settings_level := Medium; settings_models := [profile "m"; profile "n/x"];
              settings_mode := ModeDefault |} in
  config_change s "model" (Some "p/n/x") = Ok (ChangeModel "p" "n/x") /\
  forall other, stands_for s other "model" "p/n/x" -> other = ChangeModel "p" "n/x".
Proof.
  intros profile s. split; [vm_compute; reflexivity|].
  destruct (options_can_be_chosen s) as [Hoffered _].
  { intros p Hp. repeat (apply elem_of_cons in Hp as [->|Hp]; [reflexivity|]). by apply elem_of_nil in Hp. }
  destruct (Hoffered (hd {| config_id := ""; config_name := ""; config_current := ""; config_choices := [] |} (config_options s))
    {| option_value := "p/n/x"; option_name := "n/x"; option_description := Some ("p" +:+ " · " +:+ "1000" +:+ " tokens context") |})
    as (change & Hc & Hchange); [by left|right; left; vm_compute; reflexivity|].
  assert (change = ChangeModel "p" "n/x") as ->.
  { assert (Ok change = Ok (ChangeModel "p" "n/x") :> result _ AcpError) as He by (rewrite <- Hc; vm_compute; reflexivity). by injection He. }
  intros other Ho. by apply Hchange.
Defined.
End Samples.
