(* ===== verification/SlashTheorems.v ===== *)
(** What slash commands promise: the commands a client is shown are exactly
    those it can type, each reaching what it was shown as; an input that waits
    in the queue names no direct command; and an extension's removals leave the
    others' commands alone. *)

From S2P Require Import Prelude Lines Chars Text Scalar Json Message ToolContract.
From S2P Require Import StoreModel Paths KernelErrors Template Prompts Skills PromptSession Commands.
From S2P Require Import StoreSession Transcript Compaction Attempt Queue RunWorld CompactionRun ToolBatch.
From S2P Require Import TurnLoop RunSettlement DirectRun Samples RunSamples PromptTheorems.
Open Scope string_scope.
Open Scope rust_scope.

(** ** Maps and kept names *)

(** A map whose keys are the names of its values. *)
Definition keyed {A} (name : A -> string) (m : gmap string A) : Prop :=
  forall k x, m !! k = Some x -> k = name x.

Lemma keyed_values {A} (name : A -> string) m x :
  keyed name m -> x ∈ btree_values m <-> m !! name x = Some x.
Proof.
  intros Hk. rewrite elem_of_btree_values. split; [|eauto].
  intros [k Hx]. by rewrite <- (Hk k x Hx).
Qed.

Lemma keyed_nodup {A} (name : A -> string) (m : gmap string A) :
  keyed name m -> NoDup (name <$> btree_values m).
Proof.
  intros Hk. unfold btree_values. rewrite sort_by_perm, <- list_fmap_compose.
  assert ((name ∘ snd) <$> map_to_list m = (map_to_list m).*1) as ->; [|apply NoDup_fst_map_to_list].
  apply list_fmap_ext. intros i [k x] Hin%list_elem_of_lookup_2%elem_of_map_to_list. cbn.
  symmetry. by apply Hk.
Qed.

Lemma keyed_insert {A} (name : A -> string) (m : gmap string A) x :
  keyed name m -> keyed name (<[name x := x]> m).
Proof.
  intros Hk k y. rewrite lookup_insert_Some. intros [[<- <-]|[_ Hy]]; [done|by apply Hk].
Qed.

Lemma keyed_delete {A} (name : A -> string) (m : gmap string A) k : keyed name m -> keyed name (delete k m).
Proof. intros Hk k' y. rewrite lookup_delete_Some. intros [_ Hy]. by apply Hk. Qed.

Lemma filter_on {A} (P Q : A -> Prop) `{!forall x, Decision (P x), !forall x, Decision (Q x)} l :
  Forall (fun x => P x <-> Q x) l -> filter P l = filter Q l.
Proof.
  induction 1 as [|x l Hx _ IH]; [done|]. rewrite !filter_cons, IH.
  do 2 case_decide; tauto.
Qed.

Lemma keep_unused_used {A B} (name : A -> string) (make : A -> B) used l :
  (keep_unused name make used l).2 = list_to_set (name <$> l) ∪ used.
Proof.
  revert used. induction l as [|x l IH]; intros used; cbn [keep_unused]; [set_solver|].
  rewrite fmap_cons. cbn [list_to_set]. case_bool_decide as Hin; [rewrite IH; set_solver|].
  specialize (IH ({[name x]} ∪ used)). destruct (keep_unused _ _ _ _) as [kept used'].
  cbn [snd] in *. rewrite IH. set_solver.
Qed.

(** With distinct names, what is kept is what was not used before. *)
Lemma keep_unused_kept {A B} (name : A -> string) (make : A -> B) used l :
  NoDup (name <$> l) ->
  (keep_unused name make used l).1 = make <$> filter (fun x => name x ∉ used) l.
Proof.
  revert used. induction l as [|x l IH]; intros used; cbn [keep_unused]; [done|].
  rewrite fmap_cons. intros [Hx Hl]%NoDup_cons. rewrite filter_cons. case_bool_decide as Hin.
  - rewrite decide_False by tauto. by apply IH.
  - rewrite decide_True by done. specialize (IH ({[name x]} ∪ used) Hl).
    destruct (keep_unused _ _ _ _) as [kept used']. cbn [fst] in *. rewrite IH, fmap_cons. f_equal. f_equal.
    apply filter_on, Forall_forall. intros y Hy.
    assert (name y <> name x) by (intros He; apply Hx; rewrite <- He; by apply list_elem_of_fmap_2). set_solver.
Qed.

(** ** What is advertised *)

Section Commands.
Context {Handler : Type}.
Abbreviation Registry := (CommandRegistry Handler).

Definition registry_ok (r : Registry) : Prop := keyed qualified_name (commands r).
Definition catalog_ok (catalog : option SkillCatalog) : Prop :=
  forall c, catalog = Some c -> keyed skill_name (catalog_skills c).

Definition builtin_names : list string := def_name <$> builtin_definitions.
Definition used_qualified (r : Registry) : gset string :=
  list_to_set builtin_names ∪ list_to_set (qualified_name <$> registered r).
(** Every name a direct command answers to, ambiguous ones included. *)
Definition direct_names (r : Registry) : gset string :=
  used_qualified r ∪ list_to_set (command_name <$> registered r).
Definition skills_of (catalog : option SkillCatalog) : list SkillInfo :=
  match catalog with Some c => descriptors c | None => [] end.
Definition template_infos (p : PromptSession) : list PromptTemplateInfo :=
  template_info <$> templates (session_templates p).

Lemma short_count_pos (l : list (RegisteredCommand Handler)) c : c ∈ l -> 0 < short_count l (command_name c).
Proof.
  intros Hc. unfold short_count. apply list_elem_of_In in Hc.
  assert (In c (List.filter (fun d => String.eqb (command_name d) (command_name c)) l)) as H
    by (apply filter_In; split; [done|apply String.eqb_refl]).
  destruct (List.filter _ l); [done|cbn; lia].
Qed.

Lemma short_unique (l : list (RegisteredCommand Handler)) c d :
  c ∈ l -> d ∈ l -> command_name d = command_name c -> short_count l (command_name c) = 1 -> d = c.
Proof.
  intros Hc Hd He. unfold short_count.
  assert (forall x, x ∈ l -> command_name x = command_name c ->
    x ∈ List.filter (fun d => String.eqb (command_name d) (command_name c)) l) as Hf.
  { intros x Hx Hn. apply list_elem_of_In, filter_In. split; [by apply list_elem_of_In|by apply String.eqb_eq]. }
  pose proof (Hf c Hc eq_refl) as H1. pose proof (Hf d Hd He) as H2.
  destruct (List.filter _ l) as [|x [|y rest]]; try done. intros _.
  apply list_elem_of_singleton in H1, H2. congruence.
Qed.

Lemma used_after_shorts (r : Registry) :
  list_to_set (command_name <$> List.filter (fun c => Nat.ltb 1 (short_count (registered r) (command_name c))) (registered r))
  ∪ (list_to_set (command_name <$> List.filter (fun c => Nat.eqb (short_count (registered r) (command_name c)) 1) (registered r))
     ∪ used_qualified r) = direct_names r.
Proof.
  unfold direct_names. apply leibniz_equiv. intros n. rewrite !elem_of_union, !elem_of_list_to_set, !list_elem_of_fmap.
  split.
  - intros [(c & -> & Hc)|[(c & -> & Hc)|Hu]]; [right|right|by left]; exists c; (split; [done|]);
      by apply list_elem_of_In, filter_In in Hc as [Hc%list_elem_of_In _].
  - intros [Hu|(c & -> & Hc)]; [by right; right|].
    pose proof (short_count_pos _ c Hc) as Hp.
    destruct (Nat.eq_dec (short_count (registered r) (command_name c)) 1) as [H1|H1]; [right; left|left];
      exists c; (split; [done|]); apply list_elem_of_In, filter_In; (split; [by apply list_elem_of_In|]).
    + by apply Nat.eqb_eq.
    + apply Nat.ltb_lt. lia.
Qed.

Section Available.
Variables (r : Registry) (catalog : option SkillCatalog) (p : PromptSession).
Hypothesis r_ok : registry_ok r.
Hypothesis skills_ok : catalog_ok catalog.
Hypothesis templates_ok : consistent (session_templates p).

Lemma in_registered c : c ∈ registered r <-> commands r !! qualified_name c = Some c.
Proof. by apply keyed_values. Qed.

Lemma singles_nodup :
  NoDup (command_name <$> List.filter (fun c => Nat.eqb (short_count (registered r) (command_name c)) 1) (registered r)).
Proof.
  apply NoDup_fmap_2_strong.
  - intros c d Hc Hd He. apply list_elem_of_In, filter_In in Hc as [Hc _], Hd as [Hd H1].
    apply list_elem_of_In in Hc, Hd. apply Nat.eqb_eq in H1. by apply (short_unique (registered r)).
  - apply NoDup_ListNoDup, List.NoDup_filter, NoDup_ListNoDup, (NoDup_fmap_1 qualified_name), keyed_nodup, r_ok.
Qed.

Lemma skills_nodup : NoDup (skill_command_name <$> skills_of catalog).
Proof.
  unfold skills_of. destruct catalog as [c|] eqn:Hc; [|constructor].
  assert (skill_command_name <$> descriptors c = String.append "skill:" <$> (skill_name <$> descriptors c)) as ->
    by by rewrite <- list_fmap_compose.
  apply NoDup_fmap; [intros a b H; cbn in H; by simplify_eq|]. by apply keyed_nodup, skills_ok.
Qed.

Lemma templates_nodup : NoDup (info_name <$> template_infos p).
Proof.
  unfold template_infos. rewrite <- list_fmap_compose. apply NoDup_alt. intros i j n Hi Hj.
  rewrite list_lookup_fmap in Hi, Hj. apply templates_ok in Hi, Hj. congruence.
Qed.

(** The four tiers of the list. *)
Lemma available_shape : exists extensions skills expansions,
  available_commands r catalog p = (builtin_definitions ++ extensions ++ skills ++ expansions)%list /\
  extensions ≡ₚ ((canonical_definition <$> registered r) ++
    (short_definition <$> filter (fun c => command_name c ∉ used_qualified r)
       (List.filter (fun c => Nat.eqb (short_count (registered r) (command_name c)) 1) (registered r))))%list /\
  skills ≡ₚ skill_definition <$> filter (fun s => skill_command_name s ∉ direct_names r) (skills_of catalog) /\
  expansions ≡ₚ template_definition <$> filter
    (fun t => info_name t ∉ list_to_set (skill_command_name <$> skills_of catalog) ∪ direct_names r) (template_infos p).
Proof.
  unfold available_commands. fold (used_qualified r) (skills_of catalog) (template_infos p).
  pose proof (keep_unused_used command_name short_definition (used_qualified r)
    (List.filter (fun c => Nat.eqb (short_count (registered r) (command_name c)) 1) (registered r))) as Hu1.
  pose proof (keep_unused_kept command_name short_definition (used_qualified r) _ singles_nodup) as Hk1.
  destruct (keep_unused command_name _ _ _) as [shorts used1]. cbn [fst snd] in Hu1, Hk1. subst used1 shorts.
  rewrite used_after_shorts.
  pose proof (keep_unused_used skill_command_name skill_definition (direct_names r) (skills_of catalog)) as Hu2.
  pose proof (keep_unused_kept skill_command_name skill_definition (direct_names r) _ skills_nodup) as Hk2.
  destruct (keep_unused skill_command_name _ _ _) as [skills used2]. cbn [fst snd] in Hu2, Hk2. subst used2 skills.
  pose proof (keep_unused_kept info_name template_definition
    (list_to_set (skill_command_name <$> skills_of catalog) ∪ direct_names r) _ templates_nodup) as Hk3.
  destruct (keep_unused info_name _ _ _) as [expansions used3]. cbn [fst] in Hk3. subst expansions.
  do 3 eexists. split; [done|]. unfold by_def_name. by rewrite !sort_by_perm.
Qed.

(** Where a shown command comes from. *)
Lemma shown_from d : d ∈ available_commands r catalog p ->
  d ∈ builtin_definitions
  \/ (exists c, c ∈ registered r /\ d = canonical_definition c)
  \/ (exists c, c ∈ registered r /\ short_count (registered r) (command_name c) = 1 /\
        command_name c ∉ used_qualified r /\ d = short_definition c)
  \/ (exists s, s ∈ skills_of catalog /\ skill_command_name s ∉ direct_names r /\ d = skill_definition s)
  \/ (exists t, t ∈ template_infos p /\ info_name t ∉ direct_names r /\
        info_name t ∉ skill_command_name <$> skills_of catalog /\ d = template_definition t).
Proof.
  destruct available_shape as (extensions & skills & expansions & -> & He & Hs & Hx).
  rewrite !elem_of_app, He, Hs, Hx, elem_of_app, !list_elem_of_fmap. intros [Hb|[[Hc|Hc]|[Hc|Hc]]]; [auto|..].
  - right; left. destruct Hc as (c & -> & Hc). eauto.
  - do 2 right; left. destruct Hc as (c & -> & [Hu [Hc H1]%list_elem_of_In%filter_In]%list_elem_of_filter).
    exists c. rewrite list_elem_of_In. by apply Nat.eqb_eq in H1.
  - do 3 right; left. destruct Hc as (x & -> & [Hu Hc]%list_elem_of_filter). eauto.
  - do 4 right. destruct Hc as (x & -> & [Hu Hc]%list_elem_of_filter). exists x.
    rewrite not_elem_of_union, elem_of_list_to_set in Hu. tauto.
Qed.

Lemma shown_direct n :
  n ∈ used_qualified r \/ (n ∈ direct_names r /\ short_count (registered r) n = 1) ->
  n ∈ def_name <$> available_commands r catalog p.
Proof.
  destruct available_shape as (extensions & skills & expansions & -> & He & _ & _).
  rewrite !fmap_app, !elem_of_app, He, fmap_app, elem_of_app, <- !list_fmap_compose. intros Hn.
  destruct (decide (n ∈ used_qualified r)) as [Hu|Hu].
  - clear Hn. unfold used_qualified in Hu. rewrite elem_of_union, !elem_of_list_to_set in Hu.
    destruct Hu as [Hb|Hq]; [by left|]. right; left; left. done.
  - destruct Hn as [?|[Hn H1]]; [done|]. unfold direct_names in Hn.
    rewrite elem_of_union, elem_of_list_to_set in Hn. destruct Hn as [?|(c & -> & Hc)%list_elem_of_fmap]; [done|].
    right; left; right. apply list_elem_of_fmap. exists c. split; [done|]. apply list_elem_of_filter. split; [done|].
    apply list_elem_of_In, filter_In. split; [by apply list_elem_of_In|by apply Nat.eqb_eq].
Qed.

Lemma shown_expansion n :
  n ∈ skill_command_name <$> skills_of catalog \/ n ∈ info_name <$> template_infos p ->
  n ∉ direct_names r -> n ∈ def_name <$> available_commands r catalog p.
Proof.
  destruct available_shape as (extensions & skills & expansions & -> & _ & Hs & Hx). intros Hn Hd.
  rewrite !fmap_app, !elem_of_app, Hs, Hx, <- !list_fmap_compose. do 2 right.
  destruct (decide (n ∈ skill_command_name <$> skills_of catalog)) as [Hin|Hin].
  - left. apply list_elem_of_fmap in Hin as (s & -> & Hin). apply list_elem_of_fmap. exists s. split; [done|].
    by apply list_elem_of_filter.
  - right. destruct Hn as [?|(t & -> & Ht)%list_elem_of_fmap]; [done|]. apply list_elem_of_fmap. exists t.
    split; [done|]. apply list_elem_of_filter. split; [|done].
    rewrite not_elem_of_union, elem_of_list_to_set. tauto.
Qed.
End Available.
End Commands.

(** ** Resolution *)

Section Resolution.
Context {Handler : Type} (quoted_names : list string -> string).
Variable r : CommandRegistry Handler.
Hypothesis r_ok : registry_ok r.
Notation resolve := (resolve_direct quoted_names r).

Lemma builtin_resolve_spec n b : builtin_resolve n = Some b <-> n = builtin_name b.
Proof.
  unfold builtin_resolve.
  destruct (String.eqb_spec n "compact") as [->|Hc]; [split; [by intros [= <-]|by destruct b]|].
  destruct (String.eqb_spec n "name") as [->|Hn]; [split; [by intros [= <-]|by destruct b]|].
  destruct (String.eqb_spec n "session") as [->|Hs]; [split; [by intros [= <-]|by destruct b]|].
  split; [done|]. by destruct b.
Qed.

Lemma builtin_name_used b : builtin_name b ∈ used_qualified r.
Proof. clear r_ok. unfold used_qualified, builtin_names. destruct b; set_solver. Qed.

Lemma key_used n d : commands r !! n = Some d -> n ∈ used_qualified r.
Proof.
  intros Hd. unfold used_qualified. apply elem_of_union_r, elem_of_list_to_set, list_elem_of_fmap.
  exists d. pose proof (r_ok _ _ Hd) as He. split; [done|]. apply in_registered; [done|]. by rewrite <- He.
Qed.

Lemma short_matches_count n : length (short_matches r n) = short_count (registered r) n.
Proof. done. Qed.

(** An exact name comes before every short one. *)
Lemma registry_exact c : c ∈ registered r -> registry_resolve r (qualified_name c) = Ok c.
Proof. intros Hc%in_registered; [|done]. unfold registry_resolve. by rewrite Hc. Qed.

Lemma registry_short c :
  c ∈ registered r -> short_count (registered r) (command_name c) = 1 -> command_name c ∉ used_qualified r ->
  registry_resolve r (command_name c) = Ok c.
Proof.
  intros Hc H1 Hu. unfold registry_resolve.
  destruct (commands r !! command_name c) as [d|] eqn:Hd.
  - by destruct Hu; apply key_used in Hd.
  - assert (c ∈ short_matches r (command_name c)) as Hin
      by (apply list_elem_of_In, filter_In; split; [by apply list_elem_of_In|apply String.eqb_refl]).
    rewrite <- short_matches_count in H1. destruct (short_matches _ _) as [|x [|y l]]; try done.
    apply list_elem_of_singleton in Hin. by subst.
Qed.

(** Nothing answers to a name outside [direct_names]. *)
Lemma resolve_other n : n ∉ direct_names r -> resolve n = Ok DirectNotFound.
Proof.
  unfold direct_names. rewrite not_elem_of_union, elem_of_list_to_set. intros [Hu Hs].
  unfold resolve_direct. destruct (builtin_resolve n) as [b|] eqn:Hb.
  { apply builtin_resolve_spec in Hb as ->. destruct Hu. apply builtin_name_used. }
  unfold registry_resolve. destruct (commands r !! n) as [d|] eqn:Hd.
  { by destruct Hu; apply key_used in Hd. }
  destruct (short_matches r n) as [|c l] eqn:Hm; [done|]. destruct Hs.
  assert (c ∈ short_matches r n) as Hc by (rewrite Hm; by left).
  apply list_elem_of_In, filter_In in Hc as [Hc He%String.eqb_eq].
  apply list_elem_of_fmap. exists c. split; [done|]. by apply list_elem_of_In.
Qed.

(** A name of [direct_names] no list shows is ambiguous. *)
Lemma resolve_ambiguous n :
  n ∈ direct_names r -> n ∉ used_qualified r -> short_count (registered r) n <> 1 ->
  exists candidates, 2 <= length candidates /\
    resolve n = Ok (DirectRejected ExtensionCommand (Ambiguous n candidates)).
Proof.
  intros Hn Hu Hs. unfold resolve_direct. destruct (builtin_resolve n) as [b|] eqn:Hb.
  { apply builtin_resolve_spec in Hb as ->. destruct Hu. apply builtin_name_used. }
  unfold registry_resolve. destruct (commands r !! n) as [d|] eqn:Hd.
  { by destruct Hu; apply key_used in Hd. }
  unfold direct_names in Hn. rewrite elem_of_union, elem_of_list_to_set in Hn.
  destruct Hn as [?|(c & -> & Hc)%list_elem_of_fmap]; [done|].
  pose proof (short_count_pos _ c Hc) as Hp. rewrite <- short_matches_count in Hs, Hp.
  destruct (short_matches r (command_name c)) as [|x [|y l]]; cbn in Hs, Hp; [lia..|].
  eexists. split; [|done]. cbn. lia.
Qed.
End Resolution.

(** ** Typed text *)

Lemma str_find_skip c a s : has_char c a = false ->
  str_find (String c "") (a +:+ s) = (fun i => String.length a + i) <$> str_find (String c "") s.
Proof.
  intros Ha. induction a as [|x a IH]; [rewrite string_app_nil_l; by destruct (str_find _ s)|].
  cbn [has_char] in Ha. apply orb_false_iff in Ha as [Hx Ha]. apply Ascii.eqb_neq in Hx.
  rewrite string_app_cons. cbn [str_find starts_with String.prefix].
  destruct (ascii_dec c x) as [->|_]; [done|]. rewrite IH by done. by destruct (str_find _ s).
Qed.

Lemma find_char_none c s : str_find (String c "") s = None -> has_char c s = false.
Proof.
  induction s as [|a s IH]; [done|]. cbn [str_find starts_with String.prefix has_char].
  destruct (ascii_dec c a) as [->|Hne]; [by destruct s|].
  destruct (str_find _ s); [done|]. intros _. rewrite (IH eq_refl), orb_false_r. apply Ascii.eqb_neq. congruence.
Qed.

Lemma has_char_before c s i : str_find (String c "") s = Some i -> has_char c (str_take i s) = false.
Proof.
  revert i. induction s as [|a s IH]; intros i; [done|]. cbn [str_find starts_with String.prefix].
  destruct (ascii_dec c a) as [->|Hne]; [destruct s; by intros [= <-]|].
  destruct (str_find _ s) as [j|] eqn:Hj; [|done]. intros [= <-]. cbn [str_take has_char].
  rewrite (IH j eq_refl), orb_false_r. apply Ascii.eqb_neq. congruence.
Qed.

(** A command is its name and then nothing, or a space and its arguments. *)
Lemma slash_invocation_spec text i : slash_invocation text = Ok i ->
  original i = text /\ invocation_name i <> "" /\ has_char " " (invocation_name i) = false /\
  exists rest, text = "/" +:+ invocation_name i +:+ rest /\
    (rest = "" /\ invocation_arguments i = "" \/ rest = " " +:+ invocation_arguments i).
Proof.
  unfold slash_invocation. destruct (Chars.strip_prefix "/" text) as [command|] eqn:Hs; [|done].
  apply strip_prefix_spec in Hs as ->. unfold split_once.
  destruct (str_find " " command) as [n|] eqn:Hf; cbn [mbind option_bind from_option]; unfold id; cbn iota.
  - destruct (String.eqb_spec (str_take n command) "") as [|Hne]; [done|]. intros [= <-].
    cbn [original invocation_name invocation_arguments].
    split; [done|]. split; [done|]. split; [by apply has_char_before|].
    apply str_find_spec in Hf as [He _]. exists (" " +:+ str_drop (n + String.length " ") command).
    split; [by rewrite <- He|by right].
  - destruct (String.eqb_spec command "") as [|Hne]; [done|]. intros [= <-].
    cbn [original invocation_name invocation_arguments].
    split; [done|]. split; [done|]. split; [by apply find_char_none|]. exists "".
    rewrite string_app_nil_r. split; [done|by left].
Qed.

Lemma skill_invocation_spec name rest args :
  has_char " " name = false -> name <> "" -> (rest = "" /\ args = "" \/ rest = " " +:+ args) ->
  skill_invocation ("/skill:" +:+ name +:+ rest) = Some (name, trim args).
Proof.
  intros Hn Hne Hrest. unfold skill_invocation. rewrite (proj2 (strip_prefix_spec _ _ _) eq_refl).
  cbn [mbind option_bind]. destruct Hrest as [[-> ->]| ->].
  - rewrite string_app_nil_r. unfold split_once.
    assert (str_find " " name = None) as -> by (rewrite <- (string_app_nil_r name), str_find_skip by done; done).
    cbn [mbind option_bind]. cbn iota. by rewrite (proj2 (String.eqb_neq name "")).
  - rewrite split_once_space by done. by rewrite (proj2 (String.eqb_neq name "")).
Qed.

Lemma template_invocation_spec name rest args :
  typeable name -> (rest = "" /\ args = "" \/ rest = " " +:+ args) ->
  template_invocation ("/" +:+ name +:+ rest)
  = Some {| template_name := name; template_arguments := command_arguments args |}.
Proof.
  intros (Hu & Hne & Hw) Hrest. unfold template_invocation.
  rewrite (proj2 (strip_prefix_spec _ _ _) eq_refl). cbn [mbind option_bind].
  destruct (String.eqb_spec (name +:+ rest) "") as [He|_]; [by destruct name|].
  rewrite chars_app, find_whitespace_app by done. destruct (utf8_chars name Hu) as (_ & Hc & _). rewrite Hc. cbn [Nat.add].
  destruct Hrest as [[-> ->]| ->].
  - change (chars "") with (@nil char). cbn [find_whitespace]. rewrite string_app_nil_r.
    by rewrite (proj2 (String.eqb_neq name "")).
  - change (chars (" " +:+ args)) with (" " :: chars args). cbn [find_whitespace].
    change (is_whitespace " ") with true. cbn [negb]. rewrite str_take_prefix, str_drop_prefix.
    by rewrite (proj2 (String.eqb_neq name "")).
Qed.

(** ** Dispatch *)

Section DispatchTheorems.
Context {Handler : Type} `{ReadFs} (quoted_names : list string -> string).
Variables (r : CommandRegistry Handler) (catalog : option SkillCatalog) (p : PromptSession).

(** What a definition a client is shown says its command does, when it is typed
    as [text]: the kernel's own command, the extension's, the skill's content
    with the arguments after it, or the first template of the name. *)
Definition reaches (d : SlashCommandDefinition) (text : string) (i : SlashCommandInvocation)
  (out : Dispatch (Handler := Handler)) : Prop :=
  let expanded source content :=
    StartsRun (TextInput content
      (Some {| invocation := i; expansion_source := source; model_blocks := [Message.Text content] |}) None) in
  match def_source d with
  | Builtin => exists b, def_name d = builtin_name b /\ out = RunsDirect i (DirectBuiltin b)
  | ExtensionCommand =>
      exists c, c ∈ registered r /\ (d = canonical_definition c \/ d = short_definition c) /\
        out = RunsDirect i (DirectExtension c)
  | SkillCommand =>
      exists s, s ∈ skills_of catalog /\ d = skill_definition s /\
        match expanded_content s with
        | Ok content =>
            let arguments := trim (invocation_arguments i) in
            out = expanded SkillCommand
                    (if String.eqb arguments "" then content else content +:+ nl +:+ nl +:+ arguments)
        | Err _ => exists diagnostic, out = StartsRun (TextInput text None (Some diagnostic))
        end
  | PromptTemplate =>
      exists t, first_named (def_name d) (templates (session_templates p)) = Some t /\
        d = template_definition (template_info t) /\
        out = expanded Message.PromptTemplate
                (expand (command_arguments (invocation_arguments i)) (template_content t))
  end.

(** Names that can be typed: a skill without a name and a template whose name
    has a blank cannot. *)
Definition can_be_typed (d : SlashCommandDefinition) : Prop :=
  match def_source d with
  | Builtin | ExtensionCommand => True
  | SkillCommand => def_name d <> "skill:"
  | PromptTemplate => typeable (def_name d)
  end.

Hypothesis r_ok : registry_ok r.
Hypothesis skills_ok : catalog_ok catalog.
Hypothesis templates_ok : consistent (session_templates p).
Notation dispatch := (dispatch quoted_names r catalog p).

Lemma dispatch_command text i : slash_invocation text = Ok i ->
  dispatch text =
  (let? resolution := resolve_direct quoted_names r (invocation_name i) in
   Ok (match resolution with
       | DirectCommand c => RunsDirect i c
       | DirectRejected source e => RefusesDirect i source e
       | DirectNotFound => StartsRun (expand_prompt_input catalog p text)
       end)).
Proof.
  intros Hi. unfold Commands.dispatch. rewrite Hi.
  apply slash_invocation_spec in Hi as (_ & _ & _ & rest & -> & _). done.
Qed.

(** The skill a typed name is. *)
Lemma named_skill text i s :
  slash_invocation text = Ok i -> skill_invocation text = Some s -> invocation_name i = "skill:" +:+ s.1.
Proof.
  intros Hi. unfold skill_invocation.
  destruct (Chars.strip_prefix "/skill:" text) as [command|] eqn:Hs; [|done]. cbn [mbind option_bind].
  apply strip_prefix_spec in Hs as ->. revert Hi. unfold slash_invocation.
  change ("/skill:" +:+ command) with ("/" +:+ "skill:" +:+ command).
  rewrite (proj2 (strip_prefix_spec _ _ _) eq_refl). unfold split_once.
  rewrite (str_find_skip " " "skill:") by done.
  destruct (str_find " " command) as [n|]; cbn [fmap option_fmap option_map mbind option_bind from_option]; unfold id; cbn iota.
  - cbn [String.length Nat.add str_take str_drop]. destruct (String.eqb _ _); [done|]. intros [= <-].
    by destruct (String.eqb (str_take n command) ""); [|intros [= <-]].
  - destruct (String.eqb ("skill:" +:+ command) ""); [done|]. intros [= <-].
    by destruct (String.eqb command ""); [|intros [= <-]].
Qed.

Lemma not_a_skill text i c :
  slash_invocation text = Ok i -> invocation_name i ∉ skill_command_name <$> skills_of catalog ->
  catalog = Some c -> expand_skill c text = NotSkillCommand.
Proof.
  intros Hi Hn Hc. unfold expand_skill. destruct (skill_invocation text) as [[name args]|] eqn:Hs; [|done].
  destruct (catalog_skills c !! name) as [s|] eqn:Hl; [|done]. destruct Hn.
  rewrite (named_skill _ _ _ Hi Hs). cbn [fst]. pose proof (skills_ok c Hc _ _ Hl) as ->.
  apply list_elem_of_fmap. exists s. split; [done|]. unfold skills_of. rewrite Hc.
  change (descriptors c) with (btree_values (catalog_skills c)).
  apply (keyed_values skill_name); [by apply skills_ok|done].
Qed.

Lemma has_template n :
  existsb (fun t => String.eqb (info_name (template_info t)) n) (templates (session_templates p)) = true
  <-> n ∈ info_name <$> template_infos p.
Proof.
  rewrite existsb_exists. unfold template_infos. rewrite <- list_fmap_compose, list_elem_of_fmap. split.
  - intros (t & Ht%list_elem_of_In & <-%String.eqb_eq). by exists t.
  - intros (t & -> & Ht%list_elem_of_In). exists t. split; [done|apply String.eqb_refl].
Qed.

(** Without a skill of the name, any text that names no template is input as it
    is, and a template of the name is expanded. *)
Lemma expands_nothing text i :
  slash_invocation text = Ok i -> invocation_name i ∉ skill_command_name <$> skills_of catalog ->
  invocation_name i ∉ info_name <$> template_infos p ->
  expand_prompt_input catalog p text = TextInput text None None.
Proof.
  intros Hi Hn Ht. unfold expand_prompt_input. rewrite Hi.
  destruct (existsb _ _) eqn:He; [by apply has_template in He|].
  pose proof (fun c => not_a_skill text i c Hi Hn) as Hk. destruct catalog as [c|]; [by rewrite (Hk c)|done].
Qed.

Lemma expands_template text i t :
  slash_invocation text = Ok i -> invocation_name i ∉ skill_command_name <$> skills_of catalog ->
  typeable (invocation_name i) -> first_named (invocation_name i) (templates (session_templates p)) = Some t ->
  let content := expand (command_arguments (invocation_arguments i)) (template_content t) in
  expand_prompt_input catalog p text =
  TextInput content
    (Some {| invocation := i; expansion_source := Message.PromptTemplate; model_blocks := [Message.Text content] |}) None.
Proof.
  intros Hi Hn Hname Ht content. unfold expand_prompt_input. rewrite Hi.
  assert (existsb (fun t => String.eqb (info_name (template_info t)) (invocation_name i))
            (templates (session_templates p)) = true) as ->.
  { apply has_template. unfold template_infos. rewrite <- list_fmap_compose.
    apply list_elem_of_fmap. exists t. unfold first_named in Ht.
    assert (t ∈ filter (fun u => named u = invocation_name i) (templates (session_templates p))) as [Ht1 Ht2]%list_elem_of_filter
      by (destruct (filter _ _); [done|injection Ht as ->; by left]). done. }
  assert (expand_command (session_templates p) text = content) as ->.
  { pose proof (slash_invocation_spec _ _ Hi) as (_ & _ & _ & rest & -> & Hrest). unfold expand_command.
    rewrite (template_invocation_spec _ _ (invocation_arguments i)) by done. cbn [Template.template_name].
    by rewrite (catalog_finds _ _ templates_ok), Ht. }
  pose proof (fun c => not_a_skill text i c Hi Hn) as Hk. destruct catalog as [c|]; [by rewrite (Hk c)|done].
Qed.

Lemma expands_skill text i s :
  slash_invocation text = Ok i -> s ∈ skills_of catalog -> invocation_name i = skill_command_name s ->
  skill_name s <> "" ->
  expand_prompt_input catalog p text =
  match expanded_content s with
  | Ok content =>
      let arguments := trim (invocation_arguments i) in
      let content := if String.eqb arguments "" then content else content +:+ nl +:+ nl +:+ arguments in
      TextInput content
        (Some {| invocation := i; expansion_source := SkillCommand; model_blocks := [Message.Text content] |}) None
  | Err e =>
      TextInput text None
        (Some (skill_diagnostic SkillWarning FileReadFailed
                 ("failed to read Skill file '" +:+ skill_path s +:+ "': " +:+ io_text e)
                 (skill_path s) (skill_source s)))
  end.
Proof.
  intros Hi Hs Hn Hne. unfold expand_prompt_input. rewrite Hi. unfold skills_of in Hs.
  pose proof skills_ok as Hok. destruct catalog as [c|]; [|by apply not_elem_of_nil in Hs].
  apply (keyed_values skill_name) in Hs; [|by apply Hok].
  apply slash_invocation_spec in Hi as (_ & _ & Hsp & rest & -> & Hrest). rewrite Hn in *.
  unfold skill_command_name in *. cbn [has_char orb Ascii.eqb] in Hsp.
  unfold expand_skill.
  change ("/" +:+ ("skill:" +:+ skill_name s) +:+ rest) with ("/skill:" +:+ skill_name s +:+ rest).
  rewrite (skill_invocation_spec _ _ (invocation_arguments i)) by done. rewrite Hs.
  by destruct (expanded_content s).
Qed.

Lemma qualified_not_builtin (c : RegisteredCommand Handler) b : qualified_name c <> builtin_name b.
Proof.
  intros He. apply (f_equal (has_char ":")) in He. unfold qualified_name in He.
  rewrite !has_char_app in He. change (has_char ":" ":") with true in He.
  rewrite orb_true_l, orb_true_r in He. by destruct b.
Qed.

Lemma builtin_definition_of d : d ∈ builtin_definitions ->
  def_source d = Builtin /\ exists b, def_name d = builtin_name b.
Proof. unfold builtin_definitions. rewrite !elem_of_cons, elem_of_nil. intros [->|[->|[->|[]]]]; eauto. Qed.

Lemma first_info t u :
  t ∈ template_infos p -> first_named (info_name t) (templates (session_templates p)) = Some u -> template_info u = t.
Proof.
  intros (v & -> & Hv)%list_elem_of_fmap Hu. f_equal.
  assert (u ∈ filter (fun w => named w = named v) (templates (session_templates p))) as [Hn Hin]%list_elem_of_filter
    by (unfold first_named in Hu; destruct (filter _ _); [done|injection Hu as ->; by left]).
  apply list_elem_of_lookup in Hv as [i Hi], Hin as [j Hj].
  assert (by_name (session_templates p) !! named v = Some i) as H1 by (apply templates_ok; by rewrite Hi).
  assert (by_name (session_templates p) !! named v = Some j) as H2 by (apply templates_ok; rewrite Hj; cbn; by rewrite Hn).
  congruence.
Qed.

Lemma first_named_some t :
  t ∈ template_infos p -> first_named (info_name t) (templates (session_templates p)) = None -> False.
Proof.
  intros (v & -> & Hv)%list_elem_of_fmap Hu.
  assert (v ∈ filter (fun w => named w = named v) (templates (session_templates p))) as Hin
    by by apply list_elem_of_filter.
  unfold first_named in Hu. fold (named v) in Hu. destruct (filter _ _); [by apply not_elem_of_nil in Hin|done].
Qed.

Lemma nodup_filtered {A} (f : A -> string) (P : A -> Prop) `{!forall x, Decision (P x)} l :
  NoDup (f <$> l) -> NoDup (f <$> filter P l).
Proof.
  induction l as [|x l IH]; [done|]. rewrite fmap_cons, filter_cons. intros [Hx Hl]%NoDup_cons.
  case_decide; [|auto]. rewrite fmap_cons. constructor; [|auto].
  intros (y & Hy & [_ Hin]%list_elem_of_filter)%list_elem_of_fmap. apply Hx. rewrite Hy. by apply list_elem_of_fmap_2.
Qed.

Lemma used_direct n : n ∈ used_qualified r -> n ∈ direct_names r.
Proof. intros Hn. unfold direct_names. by apply elem_of_union_l. Qed.

Lemma builtins_nodup : NoDup (def_name <$> builtin_definitions).
Proof. apply (bool_decide_unpack _). vm_compute. exact I. Qed.

Lemma shown_nodup : NoDup (def_name <$> available_commands r catalog p).
Proof.
  destruct (available_shape r catalog p r_ok skills_ok templates_ok) as (exts & skills & exps & -> & He & Hs & Hx).
  assert (def_name <$> exts ≡ₚ ((qualified_name <$> registered r) ++
    (command_name <$> filter (fun c => command_name c ∉ used_qualified r)
       (List.filter (fun c => Nat.eqb (short_count (registered r) (command_name c)) 1) (registered r))))%list) as He'
    by by rewrite He, fmap_app, <- !list_fmap_compose.
  assert (forall n, n ∈ def_name <$> exts -> n ∈ direct_names r) as Hin.
  { intros n. rewrite He', elem_of_app. unfold direct_names, used_qualified.
    rewrite !elem_of_union, !elem_of_list_to_set. intros [Hq|(c & -> & [_ Hc]%list_elem_of_filter)%list_elem_of_fmap]; [by left; right|].
    right. apply list_elem_of_fmap. exists c. split; [done|].
    by apply list_elem_of_In, filter_In in Hc as [Hc%list_elem_of_In _]. }
  rewrite !fmap_app, Hs, Hx, <- !list_fmap_compose. apply NoDup_app. split; [apply builtins_nodup|]. split.
  { intros n (d & -> & Hd)%list_elem_of_fmap. apply builtin_definition_of in Hd as [_ [b Hb]]. rewrite Hb.
    pose proof (builtin_name_used r b) as Hu. rewrite !elem_of_app, He', elem_of_app, !list_elem_of_fmap.
    intros [[(c & Hq & _)|(c & Hq & [Hc _]%list_elem_of_filter)]|[(s & Hq & [Hc _]%list_elem_of_filter)|(t & Hq & [Hc _]%list_elem_of_filter)]].
    - by apply (qualified_not_builtin c b).
    - by rewrite <- Hq in Hc.
    - cbn in Hq. apply Hc. fold (skill_command_name s) in Hq. rewrite <- Hq. by apply used_direct.
    - cbn in Hq. apply Hc. rewrite <- Hq. apply elem_of_union_r. by apply used_direct. }
  apply NoDup_app. split.
  { rewrite He'. apply NoDup_app. split; [by apply keyed_nodup|]. split.
    - intros n Hq (c & -> & [Hc _]%list_elem_of_filter)%list_elem_of_fmap. apply Hc.
      unfold used_qualified. by apply elem_of_union_r, elem_of_list_to_set.
    - by apply nodup_filtered, singles_nodup. }
  split.
  { intros n Hn. apply Hin in Hn. rewrite elem_of_app, !list_elem_of_fmap.
    intros [(s & -> & [Hc _]%list_elem_of_filter)|(t & -> & [Hc _]%list_elem_of_filter)]; [done|].
    apply Hc. by apply elem_of_union_r. }
  apply NoDup_app. split; [|split].
  - by apply (nodup_filtered skill_command_name), skills_nodup.
  - intros n (s & -> & [_ Hs']%list_elem_of_filter)%list_elem_of_fmap (t & Ht & [Hc _]%list_elem_of_filter)%list_elem_of_fmap.
    apply Hc. apply elem_of_union_l, elem_of_list_to_set, list_elem_of_fmap. by exists s.
  - by apply (nodup_filtered info_name), templates_nodup.
Qed.

(** C39: the commands a client is shown have names of their own, and a typed
    command reaches exactly what the definition of its name says, with its
    arguments; a text of any other name is refused when two extensions share the
    name, and goes to the model as it was typed otherwise. *)
Theorem shown_commands_dispatch :
  let shown := available_commands r catalog p in
  NoDup (def_name <$> shown) /\
  forall text i, slash_invocation text = Ok i ->
    (forall d, d ∈ shown -> def_name d = invocation_name i -> can_be_typed d ->
       exists out, dispatch text = Ok out /\ reaches d text i out) /\
    (invocation_name i ∉ def_name <$> shown ->
       dispatch text = Ok (StartsRun (TextInput text None None)) \/
       exists candidates, 2 <= length candidates /\
         dispatch text = Ok (RefusesDirect i ExtensionCommand (Ambiguous (invocation_name i) candidates))).
Proof.
  intros shown. split; [apply shown_nodup|intros text i Hi; split].
  - intros d Hd Hn Hok. rewrite (dispatch_command _ _ Hi).
    destruct (shown_from r catalog p r_ok skills_ok templates_ok d Hd)
      as [Hb|[(c & Hc & ->)|[(c & Hc & H1 & Hu & ->)|[(s & Hs & Hu & ->)|(t & Ht & Hu & Hv & ->)]]]].
    + apply builtin_definition_of in Hb as [Hs [b Hb]]. unfold resolve_direct. rewrite <- Hn, Hb.
      rewrite (proj2 (builtin_resolve_spec _ b) eq_refl). cbn [result_bind].
      eexists. split; [done|]. unfold reaches. rewrite Hs. by exists b.
    + cbn [canonical_definition extension_definition def_name] in Hn. unfold resolve_direct.
      destruct (builtin_resolve _) as [b|] eqn:Hb.
      { apply builtin_resolve_spec in Hb. rewrite <- Hn in Hb. by apply qualified_not_builtin in Hb. }
      rewrite <- Hn, registry_exact by done. eexists. split; [done|]. exists c. auto.
    + cbn [short_definition extension_definition def_name] in Hn. unfold resolve_direct.
      destruct (builtin_resolve _) as [b|] eqn:Hb.
      { apply builtin_resolve_spec in Hb. destruct Hu. rewrite Hn, Hb. apply builtin_name_used. }
      rewrite <- Hn, registry_short by done. eexists. split; [done|]. exists c. auto.
    + cbn [skill_definition def_name] in Hn. rewrite <- Hn, (resolve_other _ _ r_ok) by done. cbn [result_bind].
      eexists. split; [done|]. exists s. split; [done|]. split; [done|].
      rewrite (expands_skill _ _ s Hi Hs) by (done || (intros He; apply Hok; cbn; unfold skill_command_name; by rewrite He)).
      destruct (expanded_content s); [done|]. by eexists.
    + cbn [template_definition def_name] in Hn. rewrite <- Hn, (resolve_other _ _ r_ok) by done. cbn [result_bind].
      unfold can_be_typed in Hok. cbn [template_definition def_source def_name] in Hok.
      destruct (first_named (info_name t) (templates (session_templates p))) as [u|] eqn:Hf.
      * eexists. split; [done|]. exists u. split; [done|]. split; [by rewrite (first_info t u)|].
        by rewrite (expands_template text i u) by (rewrite <- ?Hn; done).
      * exfalso. by apply (first_named_some t).
  - intros Hn. rewrite (dispatch_command _ _ Hi).
    destruct (decide (invocation_name i ∈ direct_names r)) as [Hd|Hd].
    + right. destruct (resolve_ambiguous quoted_names r r_ok (invocation_name i)) as (candidates & Hl & ->); [done|..].
      * intros Hu. apply Hn, shown_direct; auto.
      * intros H1. apply Hn, shown_direct; auto.
      * exists candidates. done.
    + left. rewrite (resolve_other _ _ r_ok) by done. cbn [result_bind].
      rewrite (expands_nothing _ _ Hi); [done|..]; intros Hin; apply Hn, shown_expansion; auto.
Qed.
End DispatchTheorems.

(** ** What the code builds is as the theorem supposes *)

Section Built.
Context {Handler : Type}.

Lemma registry_upsert_ok (c : RegisteredCommand Handler) r : registry_ok r -> registry_ok (registry_upsert c r).
Proof. apply keyed_insert. Qed.

Lemma registry_remove_ok id name (r : CommandRegistry Handler) :
  registry_ok r -> registry_ok (dynamic_remove id name r).2.
Proof.
  intros Hr. unfold dynamic_remove, registry_remove. case_bool_decide; [|done]. by apply keyed_delete.
Qed.

(** A registry is made of commands of distinct qualified names, and has them all. *)
Lemma registry_extend_spec l : forall (r r' : CommandRegistry Handler),
  registry_ok r -> registry_extend r l = Ok r' ->
  registry_ok r' /\ forall c, c ∈ registered r' <-> c ∈ registered r \/ c ∈ l.
Proof.
  induction l as [|c l IH]; intros r r' Hr; cbn [registry_extend].
  - intros [= <-]. split; [done|]. intros c. rewrite elem_of_nil. tauto.
  - destruct (commands r !! qualified_name c) eqn:Hn; [done|]. intros He.
    pose proof (registry_upsert_ok c r Hr) as Hup. apply IH in He as [Hok Hall]; [|done]. split; [done|].
    intros d. rewrite Hall, !in_registered by done. cbn [commands]. rewrite elem_of_cons, lookup_insert_Some.
    split; [intros [[[_ <-]|[_ Hd]]|Hd]; auto|]. intros [Hd|[->|Hd]]; auto.
    left. destruct (decide (qualified_name c = qualified_name d)); [congruence|auto].
Qed.

Lemma registry_new_ok (l : list (RegisteredCommand Handler)) r :
  registry_new l = Ok r -> registry_ok r /\ forall c, c ∈ registered r <-> c ∈ l.
Proof.
  intros H. assert (registry_ok (registry_default (Handler := Handler))) as H0 by (intros k x; cbn [registry_default commands]; by rewrite lookup_empty).
  apply registry_extend_spec in H as [Hok Hall]; [|done]. split; [done|]. intros c. rewrite Hall, in_registered by done.
  cbn [registry_default commands]. rewrite lookup_empty. naive_solver.
Qed.

Lemma colon_first a b n n' :
  has_char ":" a = false -> has_char ":" b = false -> a +:+ ":" +:+ n = b +:+ ":" +:+ n' -> a = b /\ n = n'.
Proof.
  revert b. induction a as [|x a IH]; intros [|y b]; rewrite ?string_app_nil_l, ?string_app_cons; cbn [has_char];
    intros Ha Hb He.
  - split; [done|]. by injection He as He.
  - injection He as <- _. by rewrite Ascii.eqb_refl in Hb.
  - injection He as -> _. by rewrite Ascii.eqb_refl in Ha.
  - injection He as <- Hr. apply orb_false_iff in Ha as [_ Ha], Hb as [_ Hb]. by destruct (IH b Ha Hb Hr) as [-> ->].
Qed.

(** When identifiers have no colon, what an extension removes is its own: every
    command of another owner, and its own of other names, stay. *)
Theorem removal_is_owners id name (r : CommandRegistry Handler) c :
  registry_ok r -> c ∈ registered r ->
  has_char ":" (as_str id) = false -> has_char ":" (as_str (owner c)) = false ->
  c ∈ registered (dynamic_remove id name r).2 <-> ~ (owner c = id /\ command_name c = name).
Proof.
  intros Hr Hc Hid Hown. rewrite in_registered by by apply registry_remove_ok.
  apply in_registered in Hc; [|done]. unfold dynamic_remove, registry_remove.
  assert (qualified_name c = as_str id +:+ ":" +:+ name <-> owner c = id /\ command_name c = name) as Hq.
  { unfold qualified_name. split; [|by intros [-> ->]]. intros He.
    apply colon_first in He as [He ->]; [|done..]. split; [by apply string_id_eq|done]. }
  case_bool_decide as Hs; cbn [snd commands].
  - rewrite lookup_delete_Some. rewrite <- Hq. split; [by intros [Hne _] He; apply Hne|]. intros Hne. split; [|done].
    intros He. by apply Hne.
  - split; [|done]. intros _ [<- <-]. apply Hs. unfold qualified_name in Hc. by rewrite Hc.
Qed.
End Built.

(** Otherwise it may be another's: the keys of [a]'s command [b:go] and of
    [a:b]'s command [go] are the same. *)
Definition colon_owner : ExtensionId := MkId "a:b" I.
Definition colon_command : RegisteredCommand unit :=
  {| owner := colon_owner;
     definition := {| ext_name := "go"; ext_description := None; ext_argument_hint := None |};
     handler := tt |}.
Lemma removal_of_another :
  let r := registry_upsert colon_command registry_default in
  as_str (owner colon_command) <> "a" /\
  dynamic_remove (MkId "a" I) "b:go" r = (true, {| commands := ∅ |}).
Proof. split; [discriminate|]. vm_compute. reflexivity. Qed.

Lemma discovered_templates_ok `{ReadFs} yaml_metadata roots c :
  discover yaml_metadata roots = Ok c -> consistent c.
Proof.
  intros Hd. destruct (load_roots_spec yaml_metadata roots empty_catalog empty_consistent) as [_ Hall].
  unfold discover in Hd. by apply Hall in Hd as [_ Hcons _]; apply Hcons, empty_consistent.
Qed.

Lemma created_skills_ok `{ReadFs, SkillWalk} yaml f cwd allowed extensions c :
  create_skills yaml f cwd allowed extensions = Ok c -> keyed skill_name (catalog_skills c).
Proof.
  unfold create_skills. destruct (canonicalize cwd) as [d|]; [|done]. cbn [result_bind].
  destruct (into_sources _) as [sources|]; [|done]. cbn [result_bind].
  destruct (apply_rules _ _ _ _ _ _) as [enabled ds]. intros [= <-] k s. cbn [catalog_skills].
  rewrite map_lookup_filter_Some, visits_spec by (intros p Hp; by apply not_elem_of_empty in Hp).
  rewrite add_skills_first. cbn [discovery_default skills]. rewrite lookup_empty. intros [Hs _].
  unfold first_skill in Hs.
  assert (s ∈ filter (fun x => skill_name x = k) (all_skills yaml sources)) as [Hn _]%list_elem_of_filter; [|done].
  destruct (filter _ _); [done|injection Hs as ->; by left].
Qed.

(** ** At a concrete session *)

Definition extension_a : ExtensionId := MkId "a" I.
Definition extension_b : ExtensionId := MkId "b" I.
Definition demo_command (id : ExtensionId) (name : string) : RegisteredCommand unit :=
  {| owner := id; definition := {| ext_name := name; ext_description := None; ext_argument_hint := None |};
     handler := tt |}.
Definition demo_registry : CommandRegistry unit :=
  registry_upsert (demo_command extension_a "go") (registry_upsert (demo_command extension_b "go")
    (registry_upsert (demo_command extension_a "hi") (registry_upsert (demo_command extension_a "name")
       registry_default))).
Definition demo_skill (name : string) : SkillInfo :=
  {| skill_name := name; skill_description := "reviews"; skill_path := "/s/" +:+ name +:+ ".md";
     reference_dir := "/s";
     skill_source := {| skill_kind := KindPi; skill_scope := ScopeUser; skill_root := "/s";
                        origin_base_dir := "/s"; discovery_mode := ModePi |};
     disable_model_invocation := false |}.
Definition demo_catalog (name : string) : SkillCatalog :=
  {| catalog_skills := {[name := demo_skill name]}; catalog_diagnostics := [] |}.
Definition demo_disk : ReadFs := sample_fs {["/s/review.md" := "Look closely."]} ∅.
Definition demo_text : string := "/fix it".
Definition demo_invocation : SlashCommandInvocation :=
  {| original := demo_text; invocation_name := "fix"; invocation_arguments := "it" |}.

Lemma demo_registry_ok : registry_ok demo_registry.
Proof.
  unfold demo_registry. do 4 apply registry_upsert_ok. intros k x. cbn [registry_default commands].
  by rewrite lookup_empty.
Qed.

Lemma demo_catalog_ok name : catalog_ok (Some (demo_catalog name)).
Proof. intros c [= <-] k s. cbn [demo_catalog catalog_skills]. by intros [<- <-]%lookup_singleton_Some. Qed.

Lemma shown_commands_dispatch_witness :
  let shown := available_commands demo_registry (Some (demo_catalog "review")) fix_session in
  let run := dispatch (H := demo_disk) (join ", ") demo_registry (Some (demo_catalog "review")) fix_session in
  def_name <$> shown =
    ["compact"; "name"; "session"; "a:go"; "a:hi"; "a:name"; "b:go"; "hi"; "skill:review"; "fix"] /\
  run "/go on" = Ok (RefusesDirect {| original := "/go on"; invocation_name := "go"; invocation_arguments := "on" |}
                       ExtensionCommand (Ambiguous "go" ["a:go"; "b:go"])) /\
  exists out, run demo_text = Ok out /\
    reaches (H := demo_disk) demo_registry (Some (demo_catalog "review")) fix_session
      (template_definition (template_info fix_template)) demo_text demo_invocation out.
Proof.
  split; [vm_compute; reflexivity|]. split; [vm_compute; reflexivity|].
  destruct (shown_commands_dispatch (H := demo_disk) (join ", ") demo_registry (Some (demo_catalog "review")) fix_session
    demo_registry_ok (demo_catalog_ok "review") fix_consistent) as [_ Hall].
  destruct (Hall demo_text demo_invocation eq_refl) as [Hshown _]. apply Hshown.
  - vm_compute. repeat (first [left | right]).
  - reflexivity.
  - split; [reflexivity|]. split; [discriminate|]. vm_compute. repeat constructor.
Defined.

(** A skill whose name has a space is shown as a command, and no text reaches it. *)
Lemma spaced_skill_unreachable :
  let catalog := Some (demo_catalog "my review") in
  "skill:my review" ∈ def_name <$> available_commands demo_registry catalog fix_session /\
  dispatch (H := demo_disk) (join ", ") demo_registry catalog fix_session "/skill:my review"
  = Ok (StartsRun (TextInput "/skill:my review" None None)).
Proof.
  split; [|vm_compute; reflexivity]. apply (bool_decide_unpack _). vm_compute. exact I.
Qed.

(** ** The life of a command *)

Section Life.
Context {R : RigTypes} {CC : ContentCodec R} {U : UsageCounters R} {UR : UsageReport R} `{JsonText}.
Context {S : Type} `{SessionStore S} {E : RunEnv R S} {TE : ToolEnv}.
Context {Handler : Type} {DE : DirectEnv Handler}.
Abbreviation K := (M (World R S) KernelError).

(** The two ends of a command's life. *)
Definition lifecycle_event (e : RunEvent R) : bool :=
  match e with SlashCommandStart _ _ | SlashCommandEnd _ _ _ => true | _ => false end.
Definition silent_events (l : list (PublishedEvent R)) : Prop :=
  Forall (fun e => lifecycle_event (event_payload e) = false) l.

(** What runs inside a command, which starts and ends none. *)
Definition inside {A} (m : K A) : Prop := forall w r w', m w = (r, w') ->
  exists l, events w' = (events w ++ l)%list /\ silent_events l.

Lemma inside_same {A} (m : K A) : (forall w r w', m w = (r, w') -> events w' = events w) -> inside m.
Proof. intros Hm w r w' Hr. exists []. rewrite app_nil_r. split; [by eapply Hm|constructor]. Qed.
Lemma inside_bind {A B} (m : K A) (k : A -> K B) : inside m -> (forall a, inside (k a)) -> inside (m_bind m k).
Proof.
  intros Hm Hk w r w' Hr. unfold m_bind in Hr. destruct (m w) as [[a|e] w1] eqn:Hmw.
  - destruct (Hm _ _ _ Hmw) as (l1 & He1 & Hl1). destruct (Hk a _ _ _ Hr) as (l2 & He2 & Hl2).
    exists (l1 ++ l2)%list. rewrite He2, He1, app_assoc. split; [done|]. by apply Forall_app.
  - injection Hr as _ <-. by eapply Hm.
Qed.
Lemma inside_attempt {A} (m : K A) : inside m -> inside (attempt m).
Proof.
  intros Hm w r w' Hr. unfold attempt in Hr. destruct (m w) as [x w1] eqn:Hw.
  injection Hr as _ <-. by eapply Hm.
Qed.
Lemma inside_ret {A} (a : A) : inside (m_ret a).
Proof. apply inside_same. by intros w r w' [= _ <-]. Qed.
Lemma inside_fail {A} e : inside (m_fail (A := A) e).
Proof. apply inside_same. by intros w r w' [= _ <-]. Qed.
Lemma inside_lift {A} (x : result A KernelError) : inside (m_lift x).
Proof. apply inside_same. by intros w r w' [= _ <-]. Qed.
Lemma inside_get : inside m_get.
Proof. apply inside_same. by intros w r w' [= _ <-]. Qed.
Lemma inside_read {A} (f : World R S -> result A KernelError) : inside (fun w => (f w, w)).
Proof. apply inside_same. by intros w r w' [= _ <-]. Qed.
Lemma inside_ask {A} (answers : nat -> A) : inside (ask answers).
Proof. apply inside_same. by intros w r w' [= _ <-]. Qed.
Lemma inside_on_session {A} (c : M (QueueSession R S) KernelError A) : inside (on_session c).
Proof. apply inside_same. intros w r w'. unfold on_session. destruct (c _). by intros [= _ <-]. Qed.
Lemma inside_emit_at turn at_ms e : lifecycle_event e = false -> inside (emit_at turn at_ms e).
Proof.
  intros He. unfold emit_at. apply inside_bind.
  - intros w r w' [= _ <-]. eexists. split; [done|]. by repeat constructor.
  - intros _. apply inside_bind.
    + apply inside_bind; [apply inside_ask|]. intros others. apply inside_same. by intros w r w' [= _ <-].
    + intros _. apply inside_bind; [apply inside_ask|]. intros [e'|]; [apply inside_fail|apply inside_ret].
Qed.
Lemma inside_emit turn e : lifecycle_event e = false -> inside (emit turn e).
Proof. intros He. apply inside_bind; [apply inside_ask|intros at_ms; by apply inside_emit_at]. Qed.
End Life.

(** One step on the shape of the computation. *)
Create HintDb inside discriminated.
Ltac inside_step :=
  match goal with
  | |- forall _, _ => intros ?
  | |- inside (let _ := _ in _) => intros ?
  | |- inside ?m =>
      lazymatch m with
      | m_bind _ _ => apply inside_bind
      | attempt _ => apply inside_attempt
      | m_ret _ => apply inside_ret
      | m_fail _ => apply inside_fail
      | m_lift _ => apply inside_lift
      | m_get => apply inside_get
      | ask _ => apply inside_ask
      | on_session _ => apply inside_on_session
      | on_lane _ => apply inside_on_session
      | emit _ _ => apply inside_emit; reflexivity
      | emit_at _ _ _ => apply inside_emit_at; reflexivity
      | (fun w => (_, w)) => apply inside_read
      | match ?x with _ => _ end => destruct x
      | _ => solve [auto with inside nocore]
      end
  end.
Ltac inside_go := repeat inside_step.

Section Inside.
Context {R : RigTypes} {CC : ContentCodec R} {U : UsageCounters R} {UR : UsageReport R} `{JsonText}.
Context {S : Type} `{SessionStore S} {E : RunEnv R S} {TE : ToolEnv}.
Context {Handler : Type} {DE : DirectEnv Handler}.
Variable extension_json : ExtensionMessage -> string.
Variables SUMMARIZATION_SYSTEM_PROMPT SUMMARIZATION_PROMPT : string.
Variables UPDATE_SUMMARIZATION_PROMPT TURN_PREFIX_SUMMARIZATION_PROMPT : string.
Variable config : KernelConfig.
Variable insertion : option nat.
Abbreviation K := (M (World R S) KernelError).

Lemma inside_ask_result {A} (answers : nat -> result A KernelError) : inside (ask_result (S := S) answers).
Proof. unfold ask_result. inside_go. Qed.
Lemma inside_ask_error (answers : nat -> option KernelError) : inside (ask_error (S := S) answers).
Proof. unfold ask_error. inside_go. Qed.
Lemma inside_await : inside (S := S) await.
Proof. unfold await. inside_go. apply inside_same. by intros w r w' [= _ <-]. Qed.
Lemma inside_fresh kind : inside (S := S) (fresh_id kind).
Proof. unfold fresh_id. inside_go. Qed.
Lemma inside_now : inside (S := S) now.
Proof. apply inside_ask. Qed.
Lemma inside_cancelled : inside (S := S) is_cancelled.
Proof. apply inside_read. Qed.
Lemma inside_history : inside (S := S) read_history.
Proof. apply inside_read. Qed.
Lemma inside_timing a b c : inside (S := S) (timing_of a b c).
Proof. apply inside_lift. Qed.
Lemma inside_publish n id : inside (publish_insertion (S := S) n id).
Proof. unfold publish_insertion. inside_go. Qed.
Lemma inside_sync : inside (S := S) sync_store.
Proof. apply inside_on_session. Qed.
Hint Resolve inside_ask_result inside_ask_error inside_await inside_fresh inside_now inside_cancelled
  inside_history inside_timing inside_publish inside_sync : inside.
Lemma inside_new_message : inside (S := S) new_message_id.
Proof. apply inside_fresh. Qed.
Lemma inside_new_turn : inside (S := S) new_turn_id.
Proof. apply inside_fresh. Qed.
Lemma inside_persist m : inside (S := S) (persist_message m).
Proof. unfold persist_message. inside_go. Qed.
Lemma inside_record run kind payload : inside (S := S) (record_operation run kind payload).
Proof. unfold record_operation. inside_go. Qed.
Hint Resolve inside_new_message inside_new_turn inside_persist inside_record : inside.
Lemma inside_message_now turn c : inside (S := S) (message_now turn c).
Proof. unfold message_now. inside_go. Qed.
Hint Resolve inside_message_now : inside.

Lemma inside_summary_loop fuel request state : inside (S := S) (summary_loop fuel request state).
Proof.
  revert state. induction fuel as [|fuel IH]; intros state; cbn [summary_loop];
    unfold open_stream, sleep_cancelled; inside_go; apply IH.
Qed.
Hint Resolve inside_summary_loop : inside.
Lemma inside_compact x :
  inside (S := S) (TurnLoop.compact extension_json SUMMARIZATION_SYSTEM_PROMPT
    SUMMARIZATION_PROMPT UPDATE_SUMMARIZATION_PROMPT TURN_PREFIX_SUMMARIZATION_PROMPT config x).
Proof.
  unfold TurnLoop.compact, perform_compaction, compaction_body, lifecycle_complete, lifecycle_fail,
    generated_summary, summary_of, generate_compaction_summary. inside_go.
Qed.
Hint Resolve inside_compact : inside.
Variable quoted_names : list string -> string.
Variable registry : CommandRegistry Handler.
Variable admitted : bool.
Abbreviation try_slash_command := (DirectRun.try_slash_command extension_json SUMMARIZATION_SYSTEM_PROMPT
  SUMMARIZATION_PROMPT UPDATE_SUMMARIZATION_PROMPT TURN_PREFIX_SUMMARIZATION_PROMPT config insertion
  quoted_names registry admitted).
Abbreviation run_command := (DirectRun.run_command extension_json SUMMARIZATION_SYSTEM_PROMPT
  SUMMARIZATION_PROMPT UPDATE_SUMMARIZATION_PROMPT TURN_PREFIX_SUMMARIZATION_PROMPT config insertion
  admitted).

Lemma inside_install_token : inside (S := S) install_token.
Proof. unfold install_token. inside_go. Qed.
Lemma inside_fail_when b e : inside (S := S) (fail_when b e).
Proof. unfold fail_when. inside_go. Qed.
Hint Resolve inside_install_token inside_fail_when : inside.
Lemma inside_acquire : inside (S := S) acquire_for_prompt.
Proof. unfold acquire_for_prompt. inside_go. Qed.
Lemma inside_persist_and_emit m : inside (S := S) (persist_and_emit m).
Proof. unfold persist_and_emit. inside_go. Qed.
Lemma inside_invocation x source : inside (S := S) (invocation_message x source).
Proof. unfold invocation_message. inside_go. Qed.
Lemma inside_output x output ended : inside (S := S) (output_message x output ended).
Proof. unfold output_message. inside_go. Qed.
Hint Resolve inside_acquire inside_persist_and_emit inside_invocation inside_output : inside.
Lemma inside_command x r :
  inside (command_outcome extension_json SUMMARIZATION_SYSTEM_PROMPT SUMMARIZATION_PROMPT
    UPDATE_SUMMARIZATION_PROMPT TURN_PREFIX_SUMMARIZATION_PROMPT config x r).
Proof.
  unfold command_outcome, execute_builtin, execute_extension, announced_on, read_name, read_transcript. inside_go.
Qed.
Hint Resolve inside_command : inside.

(** Where a command is in its life, by the events told so far. *)
Inductive life : Type :=
| NotStarted
| Started (run : RunId) (i : SlashCommandInvocation)
| Finished (run : RunId) (i : SlashCommandInvocation) (status : SlashCommandStatus) (summary : option string)
| Disordered.
Definition live (s : life) (e : RunEvent R) : life :=
  match e, s with
  | SlashCommandStart run i, NotStarted => Started run i
  | SlashCommandEnd run status summary, Started run' i =>
      if bool_decide (run = run') then Finished run i status summary else Disordered
  | SlashCommandStart _ _, _ | SlashCommandEnd _ _ _, _ => Disordered
  | _, _ => s
  end.
Definition life_after (s : life) (l : list (PublishedEvent R)) : life := foldl live s (event_payload <$> l).

(** From one world to another, telling events that lead from one state of the
    command's life to another. *)
Definition leads (s : life) (w w' : World R S) (s' : life) : Prop :=
  exists l, events w' = (events w ++ l)%list /\ life_after s l = s'.

Lemma leads_trans s1 w1 w2 s2 w3 s3 : leads s1 w1 w2 s2 -> leads s2 w2 w3 s3 -> leads s1 w1 w3 s3.
Proof.
  intros (l1 & He1 & <-) (l2 & He2 & <-). exists (l1 ++ l2)%list. rewrite He2, He1, app_assoc. split; [done|].
  unfold life_after. by rewrite fmap_app, foldl_app.
Qed.
Lemma leads_same s w : leads s w w s.
Proof. exists []. by rewrite app_nil_r. Qed.
Lemma leads_inside {A} (m : K A) w r w' s : inside m -> m w = (r, w') -> leads s w w' s.
Proof.
  intros Hm Hr. destruct (Hm _ _ _ Hr) as (l & He & Hl). exists l. split; [done|]. clear He Hr.
  unfold life_after. induction Hl as [|e l He _ IH]; [done|]. cbn [fmap list_fmap foldl].
  assert (live s (event_payload e) = s) as ->; [|done]. by destruct (event_payload e).
Qed.

(** What [m_bind] does when its first part starts and ends no command. *)
Lemma bind_inside {A B} (m : K A) (k : A -> K B) w r w' s :
  inside m -> m_bind m k w = (r, w') ->
  (exists e, r = Err e /\ leads s w w' s) \/
  (exists a w1, m w = (Ok a, w1) /\ leads s w w1 s /\ k a w1 = (r, w')).
Proof.
  intros Hm Hr. unfold m_bind in Hr. destruct (m w) as [[a|e] w1] eqn:Hmw;
    pose proof (leads_inside _ _ _ _ s Hm Hmw) as Hl.
  - right. by exists a, w1.
  - injection Hr as <- <-. left. by exists e.
Qed.

Lemma leads_emit_at turn at_ms e w r w' s : emit_at turn at_ms e w = (r, w') -> leads s w w' (live s e).
Proof.
  unfold emit_at, ask, await, modify_world, ask_error, ask, m_bind. cbn.
  destruct (emit_error _); intros [= _ <-]; eexists; split; try done; done.
Qed.
Lemma leads_emit turn e w r w' s : emit turn e w = (r, w') -> leads s w w' (live s e).
Proof.
  unfold emit, emit_at, now, ask, await, modify_world, ask_error, ask, m_bind. cbn.
  destruct (emit_error _); intros [= _ <-]; eexists; split; try done; done.
Qed.

(** The messages of a command's output, all of one status. *)
Definition outputs_with (status : SlashCommandStatus) (l : list (AgentMessage R)) : Prop :=
  Forall (fun m => exists o, content m = SlashCommand (Output o) /\ output_status o = status) l.

Lemma outcome_status x source o stopped settled :
  outcome_output x source o = Ok settled ->
  forall output, (stopped_output x source stopped settled).1 = Some output ->
    output_status output = (stopped_output x source stopped settled).2.
Proof.
  unfold stopped_output. destruct (_ && _); [by intros _ output [= <-]|].
  destruct o as [[o|]| | |e]; cbn; intros [= <-] output; [by intros [= <-]|done|by intros [= <-]].
Qed.

Lemma failure_status settled : is_Some (failure_text settled) -> settled.2 = StatusFailed.
Proof. unfold failure_text, status_failed. intros [t Ht]. by destruct settled.2. Qed.

Lemma output_content x output ended w m w' :
  output_message x output ended w = (Ok m, w') -> content m = SlashCommand (Output output).
Proof.
  unfold output_message, m_bind. destruct (new_message_id w) as [[id|e] w1]; [|done].
  destruct (timing_of _ _ _ w1) as [[t|e] w2]; [|done]. by intros [= <- _].
Qed.
Lemma invocation_content x source w m w' :
  invocation_message x source w = (Ok m, w') -> content m = SlashCommand (Invocation (slash_invoked x) source).
Proof.
  unfold invocation_message, m_bind. destruct (new_message_id w) as [[id|e] w1]; [|done].
  destruct (timing_of _ _ _ w1) as [[t|e] w2]; [|done]. by intros [= <- _].
Qed.

Lemma persisted_invocation x source w m w' :
  (let! m := invocation_message x source in let! _ := persist_and_emit m in m_ret m) w = (Ok m, w') ->
  content m = SlashCommand (Invocation (slash_invoked x) source).
Proof.
  unfold m_bind. destruct (invocation_message x source w) as [[m'|e] v] eqn:Hm; [|done].
  apply invocation_content in Hm. destruct (persist_and_emit m' v) as [[u|e] v']; [|done]. by intros [= <- _].
Qed.

(** Settling ends a command that was started, once its messages are stored. *)
Lemma settle_lives x source invoked outcome w r w' :
  settle_command x source invoked outcome w = (r, w') ->
  let started := Started (slash_run x) (slash_invoked x) in
  match r with
  | Ok result => exists status summary outputs,
      leads started w w' (Finished (slash_run x) (slash_invoked x) status summary) /\
      result_messages result = invoked :: outputs /\ outputs_with status outputs /\
      (is_Some summary -> status = StatusFailed)
  | Err _ => exists s, leads started w w' s /\ s <> Disordered
  end.
Proof.
  unfold settle_command. destruct (match outcome with Ok o => _ | Err e => _ end) as [o stopped]. cbn zeta.
  set (started := Started _ _). intros Hr. unfold m_bind at 1, m_lift in Hr.
  destruct (outcome_output x source o) as [settled|e] eqn:Ho.
  2: { injection Hr as <- <-. exists started. split; [apply leads_same|done]. }
  unfold m_bind at 1, is_cancelled in Hr. set (final := stopped_output _ _ _ _) in Hr.
  assert (forall output, final.1 = Some output -> output_status output = final.2) as Hst
    by (intros output; by eapply outcome_status).
  apply (bind_inside _ _ _ _ _ started) in Hr; [|inside_go].
  destruct Hr as [(e & -> & Hl)|(ms & w1 & Hms & Hl1 & Hr)]; [by exists started|].
  assert (exists outputs, ms = invoked :: outputs /\ outputs_with final.2 outputs) as (outputs & -> & Hout).
  { destruct (final.1) as [output|]; [|injection Hms as <- _; by exists []; split; [|constructor]].
    unfold m_bind in Hms. destruct (now w) as [[at_ms|e] v1]; [|done].
    destruct (output_message _ _ _ v1) as [[m|e] v2] eqn:Hm; [|done].
    destruct (persist_and_emit m v2) as [[u|e] v3]; [|done]. injection Hms as <- _. exists [m]. split; [done|].
    constructor; [|constructor]. exists output. split; [by eapply output_content|by apply Hst]. }
  apply (bind_inside _ _ _ _ _ started) in Hr; [|inside_go].
  destruct Hr as [(e & -> & Hl)|(u & w2 & _ & Hl2 & Hr)]; [exists started; split; [by eapply leads_trans|done]|].
  unfold m_bind in Hr. destruct (emit _ _ w2) as [x3 w3] eqn:Hem.
  apply (leads_emit _ _ _ _ _ started) in Hem. unfold live, started in Hem. rewrite bool_decide_eq_true_2 in Hem by done.
  assert (leads started w w3 (Finished (slash_run x) (slash_invoked x) final.2 (failure_text final))) as Hl
    by (eapply leads_trans; [exact Hl1|]; by eapply leads_trans).
  destruct x3; injection Hr as <- <-; [|by eexists].
  exists final.2, (failure_text final), outputs. split; [done|]. split; [done|]. split; [done|]. apply failure_status.
Qed.

(** A command that has the gate is started and then settled. *)
Lemma run_command_lives x source d w r w' :
  run_command x source d w = (r, w') ->
  match r with
  | Ok result => exists status summary invoked outputs,
      leads NotStarted w w' (Finished (slash_run x) (slash_invoked x) status summary) /\
      result_messages result = invoked :: outputs /\
      content invoked = SlashCommand (Invocation (slash_invoked x) source) /\
      outputs_with status outputs /\ (is_Some summary -> status = StatusFailed)
  | Err _ => exists s, leads NotStarted w w' s /\ s <> Disordered
  end.
Proof.
  unfold DirectRun.run_command. intros Hr. set (started := Started (slash_run x) (slash_invoked x)).
  apply (bind_inside _ _ _ _ _ NotStarted) in Hr; [|inside_go].
  destruct Hr as [(e & -> & Hl)|(stopped & w1 & _ & Hl1 & Hr)]; [by eexists|].
  apply (bind_inside _ _ _ _ _ NotStarted) in Hr; [|inside_go].
  destruct Hr as [(e & -> & Hl)|(u & w2 & _ & Hl2 & Hr)]; [eexists; split; [by eapply leads_trans|done]|].
  unfold m_bind at 1 in Hr. destruct (emit_at _ _ _ w2) as [u3 w3] eqn:Hem.
  apply (leads_emit_at _ _ _ _ _ _ NotStarted) in Hem. cbn [live] in Hem.
  assert (leads NotStarted w w3 started) as Hl3 by (eapply leads_trans; [exact Hl1|]; by eapply leads_trans).
  destruct u3 as [u3|e]; [|injection Hr as <- <-; by eexists].
  clear w1 w2 Hl1 Hl2 Hem u u3 stopped. unfold m_bind at 1, attempt at 1 in Hr.
  match type of Hr with context [m_bind (invocation_message x source) ?k w3] =>
    destruct (m_bind (invocation_message x source) k w3) as [persisted w4] eqn:Hper;
    assert (inside (m_bind (invocation_message x source) k)) as Hin by inside_go end.
  pose proof (leads_trans _ _ _ _ _ _ Hl3 (leads_inside _ _ _ _ started Hin Hper)) as Hl4.
  destruct persisted as [invoked|e].
  - apply persisted_invocation in Hper as Hinv.
    apply (bind_inside _ _ _ _ _ started) in Hr; [|inside_go].
    destruct Hr as [(e & -> & Hl)|(u & w5 & _ & Hl5 & Hr)]; [eexists; split; [by eapply leads_trans|done]|].
    apply (bind_inside _ _ _ _ _ started) in Hr; [|inside_go].
    destruct Hr as [(e & -> & Hl)|(outcome & w6 & _ & Hl6 & Hr)];
      pose proof (leads_trans _ _ _ _ _ _ Hl4 Hl5) as Hl45; [eexists; split; [by eapply leads_trans|done]|].
    pose proof (leads_trans _ _ _ _ _ _ Hl45 Hl6) as Hl. apply settle_lives in Hr. destruct r as [result|e].
    + destruct Hr as (status & summary & outputs & Hend & Hrest). exists status, summary, invoked, outputs.
      split; [by eapply leads_trans|]. tauto.
    + destruct Hr as (s & Hend & Hs). exists s. split; [by eapply leads_trans|done].
  - unfold m_bind at 1, attempt in Hr. destruct (emit (slash_turn x) _ w4) as [r5 w5] eqn:Hem. cbn in Hr. injection Hr as <- <-.
    apply (leads_emit _ _ _ _ _ started) in Hem. unfold live, started in Hem. rewrite bool_decide_eq_true_2 in Hem by done.
    eexists. split; [by eapply leads_trans|done].
Qed.

Lemma refused_messages x source w result w' :
  refuse_busy insertion x source w = (Ok result, w') ->
  exists invoked output, result_messages result = [invoked; output] /\
    content invoked = SlashCommand (Invocation (slash_invoked x) source) /\
    content output = SlashCommand (Output (busy_output x source)).
Proof.
  unfold refuse_busy, m_bind. destruct (invocation_message x source w) as [[invoked|e] w1] eqn:Hi; [|done].
  destruct (persist_and_emit invoked w1) as [[u|e] w2]; [|done].
  destruct (publish_insertion _ _ w2) as [[u2|e] w3]; [|done]. destruct (now w3) as [[at_ms|e] w4]; [|done].
  destruct (output_message _ _ _ w4) as [[output|e] w5] eqn:Ho; [|done].
  destruct (persist_and_emit output w5) as [[u3|e] w6]; [|done]. intros [= <- _].
  exists invoked, output. split; [done|]. split; [by eapply invocation_content|by eapply output_content].
Qed.

(** C40: a direct command that is not refused as busy is announced to its
    clients with its start first and its end last; the messages it is settled
    with are its invocation, as it was typed, and its outputs, whose status is
    the one its end tells, and a failure's summary is told with a failure only.
    A busy session has it refused: its invocation and one failed output.  A name
    no command has leaves no trace.  And however a command fails, its end is
    told at most once, after its start. *)
Theorem command_lives x w r w' :
  try_slash_command x w = (r, w') ->
  exists d, resolve_direct quoted_names registry (slash_name x) = d /\
  match r with
  | Ok None => d = Ok DirectNotFound /\ w' = w
  | Ok (Some result) => exists found source invoked outputs,
      d = Ok found /\ resolution_source found = Some source /\
      result_messages result = invoked :: outputs /\
      content invoked = SlashCommand (Invocation (slash_invoked x) source) /\
      ((exists status summary,
          leads NotStarted w w' (Finished (slash_run x) (slash_invoked x) status summary) /\
          outputs_with status outputs /\ (is_Some summary -> status = StatusFailed)) \/
       (leads NotStarted w w' NotStarted /\
        exists output, outputs = [output] /\ content output = SlashCommand (Output (busy_output x source))))
  | Err _ => exists s, leads NotStarted w w' s /\ s <> Disordered
  end.
Proof.
  unfold DirectRun.try_slash_command. intros Hr. exists (resolve_direct quoted_names registry (slash_name x)).
  split; [done|]. unfold m_bind at 1, m_lift in Hr.
  destruct (resolve_direct _ _ _) as [found|e]; [|injection Hr as <- <-; exists NotStarted; split; [apply leads_same|done]].
  destruct (resolution_source found) as [source|] eqn:Hsource; [|injection Hr as <- <-; by destruct found].
  apply (bind_inside _ _ _ _ _ NotStarted) in Hr; [|inside_go].
  destruct Hr as [(e & -> & Hl)|([] & w1 & _ & Hl1 & Hr)]; [by eexists| |].
  - apply (bind_inside _ _ _ _ _ NotStarted) in Hr; [|inside_go].
    destruct Hr as [(e & -> & Hl)|(u & w2 & _ & Hl2 & Hr)]; [eexists; split; [by eapply leads_trans|done]|].
    pose proof (leads_trans _ _ _ _ _ _ Hl1 Hl2) as Hl. unfold m_bind at 1 in Hr.
    destruct (run_command x source found w2) as [y w3] eqn:Hrun. apply run_command_lives in Hrun.
    destruct y as [result|e]; injection Hr as <- <-.
    + destruct Hrun as (status & summary & invoked & outputs & Hend & Hms & Hc & Hout & Hsum).
      exists found, source, invoked, outputs. do 4 (split; [done|]). left. exists status, summary.
      split; [by eapply leads_trans|done].
    + destruct Hrun as (s & Hend & Hs). exists s. split; [by eapply leads_trans|done].
  - apply (bind_inside _ _ _ _ _ NotStarted) in Hr; [|unfold refuse_busy; inside_go].
    destruct Hr as [(e & -> & Hl)|(result & w2 & Hbusy & Hl2 & Hr)]; [eexists; split; [by eapply leads_trans|done]|].
    injection Hr as <- <-. apply refused_messages in Hbusy as (invoked & output & Hms & Hc & Ho).
    exists found, source, invoked, [output]. do 4 (split; [done|]). right. split; [by eapply leads_trans|by exists output].
Qed.
End Inside.

(** ** A concrete command *)

Definition session_invocation : SlashCommandInvocation :=
  {| original := "/session"; invocation_name := "session"; invocation_arguments := "" |}.
Definition session_command : SlashExecution :=
  {| slash_session_id := sample_session; slash_run := run_one; slash_turn := first_turn;
     slash_started := time 1; slash_invoked := session_invocation |}.
Definition session_world (io : nat -> io_event) : World sample_rig JsonlSessionStore :=
  sample_world (sample_session_over io).
Abbreviation sample_command io :=
  (try_slash_command (Handler := unit) no_extension "" "" "" "" sample_config None (fun _ => "")
    registry_default false session_command (session_world io)).

Lemma leads_fresh (s s' : life) (w w' : World sample_rig JsonlSessionStore) :
  events w = [] -> leads s w w' s' -> life_after s (events w') = s'.
Proof. intros He (l & Hl & Hs). by rewrite Hl, He. Qed.

Lemma command_lives_witness : exists result w' status summary,
  sample_command good = (Ok (Some result), w') /\
  leads NotStarted (session_world good) w' (Finished run_one session_invocation status summary) /\
  length (result_messages result) = 2.
Proof.
  assert (match sample_command good with
          | (Ok (Some result), w') =>
              length (result_messages result) = 2 /\
              match life_after NotStarted (events w') with NotStarted => false | _ => true end = true
          | _ => False
          end) as Hsample by (vm_compute; split; reflexivity).
  destruct (sample_command good) as [[[result|]|e] w'] eqn:Hr; [|destruct Hsample..].
  destruct Hsample as [Hlen Hlife].
  pose proof (command_lives _ _ _ _ _ _ _ _ _ _ _ _ _ _ Hr) as Hlives.
  destruct Hlives as (d & _ & found & source & invoked & outputs & _ & _ & _ & _ & [(status & summary & Hl & _)|(Hl & _)]).
  - exists result, w', status, summary. split; [reflexivity|]. split; [exact Hl|exact Hlen].
  - apply (leads_fresh NotStarted NotStarted (session_world good) w' eq_refl) in Hl. rewrite Hl in Hlife. discriminate Hlife.
Defined.

(** A disk that fails once, when the command's output is written: its start is
    told and its end never. *)
Definition fails_at (k : nat) : nat -> io_event := fun n => if Nat.eqb n k then IoFailed 0 0 else IoDone.
Lemma started_command_left_open :
  is_ok (sample_command (fails_at 2)).1 = false /\
  life_after NotStarted (events (sample_command (fails_at 2)).2) = Started run_one session_invocation.
Proof. split; vm_compute; reflexivity. Qed.
